(* ===== verification/_CoqProject ===== *)
-Q . S2P
Prelude.v
Bits.v
Hash.v
CString.v
ZipParse.v
DirUtil.v
ZipExtract.v
Edify.v
Bspatch.v
Bsdiff.v
Sufsort.v
Imgpatch.v
Imgdiff.v
Imgtrip.v
Syscalls.v
Files.v
Freecache.v
Mtdutils.v
Mtdflash.v
Mtdframe.v
Flashtools.v
Mtdscan.v
Applypatch.v
Applysafe.v
Applyruns.v
Mounts.v
Roots.v
Bootloader.v
Updater.v
Rawimage.v
Lines.v
Args.v
Restart.v
Terminal.v
Ui.v
Input.v
Machine.v
Select.v
Shell.v
Console.v
Firmware.v
Install.v
Pipe.v
Menufile.v
Recovery.v
Recoverysafe.v
