(* ===== verification/Prelude.v ===== *)
(** * Open Recovery: a verification of its core

    Open Recovery is an Android recovery system.  It boots in place of the
    system, shows menus that are read from files, and installs updates: a zip archive holds
    files, binary patches and a script in the language Edify (or a shell script) that says what
    to do with them.  This library models the program (written in C, under
    src/src/bootable/open_recovery/), from the bytes of an archive to main() of recovery.c,
    and proves what makes its parts correct.

    ** The parts

    - The archive (minzip/).  [ZipParse] models mzOpenZipArchive and parseZipArchive of
      Zip.c: the end record is searched, the central directory is read, sorted by name and
      entered in a hash table; [Bits] (Bits.h) reads and writes the numbers and [Hash] (Hash.c) is the
      table, open addressing with tombstones.  [ZipExtract] models reading, checking and extracting
      entries, and mzExtractRecursive with [DirUtil] (DirUtil.c), which creates and deletes
      directory trees in a model of the file system.
    - The script (edify/).  [Edify] models the evaluator expr.c on a heap of strings
      and values that are allocated and freed, with the table of functions; it is parametric in the
      state of the functions that are registered, and a flag says whether they may leak.
    - Patches (applypatch/).  [Bspatch] (bspatch.c) applies and [Bsdiff] (bsdiff.c) makes patches of the
      format BSDIFF40, [Sufsort] shows that its suffix sort ends and holds the round trip; [Imgpatch] (imgpatch.c, utils.c) applies and
      [Imgdiff] (imgdiff.c) makes chunked patches of images and archives, [Imgtrip] holds the round trip;
      [Freecache] (freecache.c) makes room on the cache partition; [Applypatch]
      (applypatch.c) replaces a file by its patched version so that a
      run that fails can be repeated.  [Applysafe] and [Applyruns] hold its theorems.
    - Flash memory and file systems.  [Mtdutils] models mtdutils.c: the partitions of /proc/mtd and
      readers and writers that go around bad blocks; [Mtdflash] and [Mtdscan] hold its
      theorems, [Mtdframe] that writing touches only the file of its partition.  [Flashtools] (flash_image.c, dump_image.c, erase_image.c) are the tools on top of it.  [Mounts] (mounts.c) is the table of mounted volumes, [Roots] (roots.c) the
      roots such as SDCARD: that paths begin with, how they are mounted and formatted.
    - The bootloader.  [Bootloader] (bootloader.c) reads and writes the message that survives a
      restart, and update images; [Firmware] (firmware.c) installs an image of the radio through it.
    - The updater (updater/).  [Updater] (install.c, updater.c) models every function that scripts call, on top
      of [Edify], and the program that runs the script of a package; [Rawimage] holds the theorem on
      what write_raw_image leaves on the device.
    - The screen and the keys (ui.c, default_recovery_ui.c).  [Ui] models the log and the menu,
      [Terminal] the terminal of the console with its escape sequences, [Input] the keys and the colours of ui.prop.
    - The program.  [Machine] is the state that the rest works on: the system, the roots, the log, the menu, the
      terminal, the keys that will be pressed, the firmware that waits; [Rec] is its monad.  [Select] (recovery.c) chooses
      an item with the keys, [Shell] (install.c, imenu/imenu.c) runs shell scripts and the menus they ask for,
      [Console] (console.c) is the shell with a keyboard, [Install] (install.c) installs packages: it runs the updater and
      obeys what it writes to its pipe; [Pipe] runs the functions of [Updater] that write there and shows that what they say is done.  [Lines] and [Args] (recovery.c) model where the
      arguments come from and the message for a restart, [Restart] its theorems; [Menufile] reads menus, [Recovery] has
      wiping, the loop of the menus and main(), [Recoverysafe] its theorems.
    - [Prelude], [CString], [Syscalls] and [Files] are what the parts share: outcomes of C code, integers at their
      width, buffers with checked offsets, strings, the system calls and the laws of files.

    ** How the code is modelled

    A C function that can go wrong is a function to [outcome]: it returns, faults (an access
    out of bounds or after free, an overflow of a signed integer, a failed assertion) or
    does not end within its fuel.  Buffers are lists of bytes, every access to them has its
    offset checked ([rd], [wr], [rd_n], [wr_n]).  Machine integers are numbers of [Z] with the
    wrap-around written out ([u32], [s32], ...) or, where C leaves overflow undefined,
    checked ([int_ok]).  The target is a 32-bit ARM: [int], [long], [size_t] and [off_t] have 32 bits.
    State is passed explicitly: the heap of [Edify], the tree of files of
    [DirUtil], the roots, or a state [W] of the system on which the kernel is a class of operations
    ([PatchOS], [MtdDriver], [MountOS], [RootOS], [StdioOS], [ShellOS], [PtyOS], [ScreenOS], [InstallOS], [ImageOS]).
    Code that is not in the repository (the kernel, bzip2, zlib,
    mincrypt, the flash driver, the programs that are run) is a parameter; what its documentation promises are the laws of
    a second class ([Bzip2Laws], [Sha1Laws], [FsLaws], [MtdLaws], [MtdSteady], [ImageLaws], [KeyLaws]), and each theorem
    that needs laws has a witness with a concrete instance.  The keys of [Machine] are a list: each is what ui_wait_key
    will answer, with whether the text is visible then; ui_clear_key_queue comes before the keys of the list.

    ** What is shown

    - Functional correctness: parsing finds exactly the entries of an archive
      and the table finds each of them; extraction writes the files of the archive and
      nothing else; the evaluator refines the meaning of scripts and leaks nothing, and the updater does what its script
      means; applying a patch yields what the patch means; [applypatch] succeeds when nothing fails; the log shows
      the end of what was printed, and the item that is chosen is the one the keys walk to.
    - Safety: extraction and deletion stay inside their directories; a failed run of
      [applypatch] has lost neither the source nor the target; only files of the cache that nobody uses are
      deleted to make room; an interrupted run starts again with the same arguments; an interrupted update of the firmware
      wipes the cache; data are wiped only when the item that says yes is chosen; terminal and console stay inside their arrays for plain text of any length; the stack of menus is sound.
    - Round trips: numbers, patches (bsdiff and bspatch, imgdiff and imgpatch), flash partitions (the flashing and dumping of images as well), the bootloader's message, options,
      colours, menus, the menus of scripts, the commands of the updater.
    - Error behaviour: what the code does for bad input, where it faults or loops, each a finding of the manifest.

    ** Bounds and fuel

    Loops over a list recurse on it.  Other loops have fuel, and the theorems say how much is
    enough: the length of the table for a probe, the depth of a script for the evaluator, a byte of the
    control block for each patch record, a byte of the partition for the blocks of a reader
    or writer, the length of the data for a sink, the rounds that a shell has left for the console, one more than the keys for a selection.
    Where the code itself does not end (a truncated bzip2 stream, a
    deflate error, a menu without an item to select) there is a lemma that no fuel is enough.

    ** Not modelled

    What is written to stderr (LOGW, LOGI and fprintf); the lines that LOGE shows on the screen are modelled in install.c, firmware.c
    and recovery.c, and left out of roots.c, bootloader.c and the arguments of recovery.c.  The scanner and parser of Edify, which bison
    and flex generate: the parser is a parameter.  The pixels (minui/ and the drawing functions of ui.c), the threads of ui.c that blink the LED and
    the cursor and move the progress bar, with the fractions of the bar, which are floating-point numbers: the calls that move it
    are recorded.  The shell btsh (ash of NetBSD), the daemon adb_bash, bootstrapbox, coolbox, 2nd-init and the yaffs2
    tools, which are third-party programs with small changes; tests and tools of the build.  The manifest
    lists every part with its reason. *)
From Stdlib Require Export ZArith Lia.
From stdpp Require Export base list list_numbers numbers option strings.
#[global] Open Scope Z_scope.

(** ** Outcomes of C code

    A call of a C function returns ([Ret]), performs an operation whose
    behaviour the language does not define or that kills the process
    ([Fault]: an access outside its object, a failed [assert], [abort]), or does
    not come back within the given number of loop iterations ([Diverge]). *)
Inductive fault : Type :=
  | OutOfBounds
  | NullPointer
  | AssertFailure
  | Aborted
  | UseAfterFree
  | SignedOverflow.

Inductive outcome (A : Type) : Type :=
  | Ret (a : A)
  | Fault (f : fault)
  | Diverge.
Arguments Ret {A} a.
Arguments Fault {A} f.
Arguments Diverge {A}.

#[export] Instance outcome_ret : MRet outcome := @Ret.
#[export] Instance outcome_bind : MBind outcome := λ A B k m,
  match m with Ret a => k a | Fault f => Fault f | Diverge => Diverge end.
#[export] Instance outcome_fmap : FMap outcome := λ A B g m,
  match m with Ret a => Ret (g a) | Fault f => Fault f | Diverge => Diverge end.

#[export] Instance fault_eq_dec : EqDecision fault.
Proof. solve_decision. Defined.
#[export] Instance outcome_eq_dec `{EqDecision A} : EqDecision (outcome A).
Proof. solve_decision. Defined.

(** [assert(b)] *)
Definition c_assert (b : bool) : outcome unit :=
  if b then Ret tt else Fault AssertFailure.

(** An option whose absence is an access through a bad pointer. *)
Definition of_option {A} (f : fault) (o : option A) : outcome A :=
  match o with Some a => Ret a | None => Fault f end.

(** Total correctness: the call returns and its result satisfies [Q]. *)
Definition wp {A} (m : outcome A) (Q : A → Prop) : Prop :=
  match m with Ret a => Q a | _ => False end.

Section wp.
Context {A B : Type}.
Implicit Types (m : outcome A) (k : A → outcome B).

Lemma wp_ret (a : A) (Q : A → Prop) : Q a → wp (Ret a) Q.
Proof. done. Qed.

Lemma wp_bind m k (Q : B → Prop) : wp m (λ a, wp (k a) Q) → wp (m ≫= k) Q.
Proof. by destruct m. Qed.

Lemma wp_mono m (P Q : A → Prop) : wp m P → (∀ a, P a → Q a) → wp m Q.
Proof. destruct m; simpl; naive_solver. Qed.

Lemma wp_and m (P Q : A → Prop) : wp m P → wp m Q → wp m (λ a, P a ∧ Q a).
Proof. by destruct m. Qed.

Lemma wp_Ret_inv m (Q : A → Prop) : wp m Q → ∃ a, m = Ret a ∧ Q a.
Proof. destruct m; naive_solver. Qed.

Lemma wp_of_eq m (a : A) (Q : A → Prop) : m = Ret a → Q a → wp m Q.
Proof. by intros ->. Qed.

Lemma bind_Ret_inv m k (b : B) : m ≫= k = Ret b → ∃ a, m = Ret a ∧ k a = Ret b.
Proof. destruct m; naive_solver. Qed.

Lemma wp_assert (b : bool) (Q : unit → Prop) : b = true → Q tt → wp (c_assert b) Q.
Proof. by intros ->. Qed.
End wp.

Create HintDb c_model.
Create Rewrite HintDb c_width.
Create Rewrite HintDb c_len.
#[export] Hint Resolve wp_ret : c_model.

(** [step_ret H] decomposes [H : m ≫= k = Ret b] into the run of [m] and the
    run of the continuation. *)
Ltac step_ret H :=
  let a := fresh "a" in let E := fresh "E" in
  apply bind_Ret_inv in H as (a & E & H).

(** Split a returning run into the runs of its parts as far as the text of the
    code shows them. *)
Ltac inv_ret :=
  repeat match goal with
  | H : _ ≫= _ = Ret _ |- _ => step_ret H
  | H : mret _ = Ret _ |- _ => unfold mret, outcome_ret in H
  | H : Ret _ = Ret _ |- _ => injection H as H
  | H : Fault _ = Ret _ |- _ => discriminate H
  | H : Diverge = Ret _ |- _ => discriminate H
  end; subst.

(** Partial correctness: if the call returns, its result satisfies [Q]. *)
Definition post {A} (m : outcome A) (Q : A → Prop) : Prop := ∀ a, m = Ret a → Q a.
Lemma post_ret {A} (a : A) (Q : A → Prop) : Q a → post (mret a) Q.
Proof. by intros ? ? [= <-]. Qed.
Lemma post_bind {A B} (m : outcome A) (k : A → outcome B) (P : A → Prop) (Q : B → Prop) :
  post m P → (∀ a, P a → post (k a) Q) → post (m ≫= k) Q.
Proof. intros Hm Hk b Hb. step_ret Hb. eapply Hk; eauto. Qed.
Lemma post_any {A B} (m : outcome A) (k : A → outcome B) (Q : B → Prop) :
  (∀ a, post (k a) Q) → post (m ≫= k) Q.
Proof. intros Hk. apply (post_bind _ _ (λ _, True)); auto. by intros ? ?. Qed.

Lemma post_mono {A} (m : outcome A) (P Q : A → Prop) : post m P → (∀ a, P a → Q a) → post m Q.
Proof. intros Hm HPQ a Ha. auto. Qed.
Lemma post_fault {A} f (Q : A → Prop) : post (Fault f) Q.
Proof. by intros ?. Qed.
Lemma post_diverge {A} (Q : A → Prop) : post Diverge Q.
Proof. by intros ?. Qed.
Lemma wp_post {A} (m : outcome A) (Q : A → Prop) : wp m Q → post m Q.
Proof. by intros Hm a ->. Qed.
#[export] Hint Resolve post_fault post_diverge : c_model.

(** ** Integers at their width *)
Definition u8 (z : Z) : Z := z mod 2 ^ 8.
Definition u16 (z : Z) : Z := z mod 2 ^ 16.
Definition u32 (z : Z) : Z := z mod 2 ^ 32.
Definition u64 (z : Z) : Z := z mod 2 ^ 64.
Definition s32 (z : Z) : Z := (z + 2 ^ 31) mod 2 ^ 32 - 2 ^ 31.
Definition s64 (z : Z) : Z := (z + 2 ^ 63) mod 2 ^ 64 - 2 ^ 63.

(** Arithmetic on [int]: overflow is undefined. *)
Definition int_ok (z : Z) : outcome Z :=
  if (- 2 ^ 31 <=? z) && (z <? 2 ^ 31) then Ret z else Fault SignedOverflow.

Ltac widths := unfold u8, u16, u32, u64, s32, s64 in *.
Ltac zdiv := Z.div_mod_to_equations; lia.

Lemma u8_small z : 0 ≤ z < 2 ^ 8 → u8 z = z.
Proof. apply Z.mod_small. Qed.
Lemma u16_small z : 0 ≤ z < 2 ^ 16 → u16 z = z.
Proof. apply Z.mod_small. Qed.
Lemma u32_small z : 0 ≤ z < 2 ^ 32 → u32 z = z.
Proof. apply Z.mod_small. Qed.
Lemma u64_small z : 0 ≤ z < 2 ^ 64 → u64 z = z.
Proof. apply Z.mod_small. Qed.
Lemma u8_range z : 0 ≤ u8 z < 2 ^ 8.
Proof. by apply Z.mod_pos_bound. Qed.
Lemma u16_range z : 0 ≤ u16 z < 2 ^ 16.
Proof. by apply Z.mod_pos_bound. Qed.
Lemma u32_range z : 0 ≤ u32 z < 2 ^ 32.
Proof. by apply Z.mod_pos_bound. Qed.
Lemma s32_small z : - 2 ^ 31 ≤ z < 2 ^ 31 → s32 z = z.
Proof. intros. unfold s32. rewrite Z.mod_small; lia. Qed.
Lemma s32_range z : - 2 ^ 31 ≤ s32 z < 2 ^ 31.
Proof. unfold s32. pose proof (Z.mod_pos_bound (z + 2 ^ 31) (2 ^ 32)). lia. Qed.
Lemma int_ok_small z : - 2 ^ 31 ≤ z < 2 ^ 31 → int_ok z = Ret z.
Proof.
  intros [??]. unfold int_ok.
  rewrite (proj2 (Z.leb_le _ _)), (proj2 (Z.ltb_lt _ _)) by lia. done.
Qed.
Lemma int_ok_inv z a : int_ok z = Ret a → a = z ∧ - 2 ^ 31 ≤ z < 2 ^ 31.
Proof.
  unfold int_ok. destruct (Z.leb_spec (- 2 ^ 31) z), (Z.ltb_spec z (2 ^ 31));
    intros [= <-]; done.
Qed.
Lemma c_assert_inv b u : c_assert b = Ret u → b = true.
Proof. by destruct b. Qed.
#[export] Hint Rewrite u8_small u16_small u32_small u64_small s32_small int_ok_small
  using lia : c_width.

(** Disjoint bit fields add up. *)
Lemma lor_disjoint_add a b n :
  0 ≤ n → a mod 2 ^ n = 0 → 0 ≤ b < 2 ^ n → Z.lor a b = a + b.
Proof.
  intros Hn Ha Hb. rewrite <- Z.add_lor_land.
  cut (Z.land a b = 0); [lia|].
  rewrite <- (Z.mod_small b (2 ^ n)), <- Z.land_ones, (Z.land_comm b), Z.land_assoc by lia.
  rewrite Z.land_ones, Ha by lia. apply Z.land_0_l.
Qed.

Lemma lor_shiftl_add a b n :
  0 ≤ n → 0 ≤ a < 2 ^ n → Z.lor a (Z.shiftl b n) = a + b * 2 ^ n.
Proof.
  intros Hn Ha.
  rewrite Z.lor_comm, Z.shiftl_mul_pow2, (lor_disjoint_add _ _ n) by
    (rewrite ?Z.mod_mul; lia). lia.
Qed.

(** ** Buffers: objects of bytes, accessed at an offset *)
Abbreviation zlen l := (Z.of_nat (length l)).
Abbreviation is_byte b := (0 ≤ b < 256).
Abbreviation bytes_ok l := (Forall (λ b, 0 ≤ b < 256) l).

Definition rd {A} (l : list A) (i : Z) : outcome A :=
  if (i <? 0) || (zlen l <=? i) then Fault OutOfBounds
  else of_option OutOfBounds (l !! Z.to_nat i).

Definition wr {A} (l : list A) (i : Z) (x : A) : outcome (list A) :=
  if (i <? 0) || (zlen l <=? i) then Fault OutOfBounds
  else Ret (<[Z.to_nat i := x]> l).

(** The [n] bytes from [i] on, as [memcpy(_, l + i, n)] reads them. *)
Definition rd_n {A} (l : list A) (i n : Z) : outcome (list A) :=
  if (i <? 0) || (n <? 0) || (zlen l <? i + n) then Fault OutOfBounds
  else Ret (take (Z.to_nat n) (drop (Z.to_nat i) l)).

(** [memcpy(l + i, src, length src)] *)
Definition wr_n {A} (l : list A) (i : Z) (src : list A) : outcome (list A) :=
  if (i <? 0) || (zlen l <? i + zlen src) then Fault OutOfBounds
  else Ret (take (Z.to_nat i) l ++ src ++ drop (Z.to_nat i + length src) l).

Section buffers.
Context {A : Type}.
Implicit Types (l src : list A) (i n : Z) (x : A).

Lemma rd_Some l i x : rd l i = Ret x ↔ 0 ≤ i ∧ l !! Z.to_nat i = Some x.
Proof.
  unfold rd. destruct (Z.ltb_spec i 0); [split; [done|lia]|].
  destruct (Z.leb_spec (zlen l) i); simpl.
  { split; [done|]. intros [_ ?%lookup_lt_Some]. lia. }
  destruct (l !! Z.to_nat i); simpl; split;
    first [by intros [=->]|by intros [? [=->]]|by intros [??]].
Qed.

Lemma rd_lookup l i : 0 ≤ i → rd l i = of_option OutOfBounds (l !! Z.to_nat i).
Proof.
  intros. unfold rd. destruct (Z.ltb_spec i 0), (Z.leb_spec (zlen l) i); try lia; simpl; [|done].
  by rewrite lookup_ge_None_2 by lia.
Qed.

Lemma rd_in_bounds l i : 0 ≤ i < zlen l → ∃ x, rd l i = Ret x.
Proof.
  intros Hi. destruct (lookup_lt_is_Some_2 l (Z.to_nat i)) as [x Hx]; [lia|].
  exists x. apply rd_Some. split; [lia|done].
Qed.

Lemma rd_bounds l i x : rd l i = Ret x → 0 ≤ i < zlen l.
Proof. intros [? ?%lookup_lt_Some]%rd_Some. lia. Qed.

Lemma wp_rd l i (Q : A → Prop) :
  0 ≤ i < zlen l → (∀ x, l !! Z.to_nat i = Some x → Q x) → wp (rd l i) Q.
Proof.
  intros Hi HQ. destruct (rd_in_bounds l i Hi) as [x Hx]. rewrite Hx.
  apply HQ. by apply rd_Some in Hx as [_ ?].
Qed.

Lemma wr_in_bounds l i x : 0 ≤ i < zlen l → wr l i x = Ret (<[Z.to_nat i := x]> l).
Proof.
  intros. unfold wr. destruct (Z.ltb_spec i 0), (Z.leb_spec (zlen l) i); try lia; done.
Qed.

Lemma wr_Ret_inv l i x l' :
  wr l i x = Ret l' → 0 ≤ i < zlen l ∧ l' = <[Z.to_nat i := x]> l.
Proof.
  unfold wr. destruct (Z.ltb_spec i 0), (Z.leb_spec (zlen l) i); naive_solver lia.
Qed.

Lemma rd_n_in_bounds l i n :
  0 ≤ i → 0 ≤ n → i + n ≤ zlen l →
  rd_n l i n = Ret (take (Z.to_nat n) (drop (Z.to_nat i) l)).
Proof.
  intros. unfold rd_n.
  destruct (Z.ltb_spec i 0), (Z.ltb_spec n 0), (Z.ltb_spec (zlen l) (i + n)); try lia; done.
Qed.

Lemma rd_n_Ret_inv l i n r :
  rd_n l i n = Ret r →
  0 ≤ i ∧ 0 ≤ n ∧ i + n ≤ zlen l ∧ r = take (Z.to_nat n) (drop (Z.to_nat i) l).
Proof.
  unfold rd_n.
  destruct (Z.ltb_spec i 0), (Z.ltb_spec n 0), (Z.ltb_spec (zlen l) (i + n)); naive_solver lia.
Qed.

Lemma wr_n_in_bounds l i src :
  0 ≤ i → i + zlen src ≤ zlen l →
  wr_n l i src = Ret (take (Z.to_nat i) l ++ src ++ drop (Z.to_nat i + length src) l).
Proof.
  intros. unfold wr_n.
  destruct (Z.ltb_spec i 0), (Z.ltb_spec (zlen l) (i + zlen src)); try lia; done.
Qed.

Lemma wr_n_length l i src l' : wr_n l i src = Ret l' → length l' = length l.
Proof.
  unfold wr_n.
  destruct (Z.ltb_spec i 0), (Z.ltb_spec (zlen l) (i + zlen src)); simpl; try done.
  intros [= <-]. rewrite !length_app, length_take, length_drop. lia.
Qed.

(** Accesses behind a prefix. *)
Lemma rd_app_r pre l i : 0 ≤ i → rd (pre ++ l) (zlen pre + i) = rd l i.
Proof.
  intros. unfold rd. rewrite length_app.
  destruct (Z.ltb_spec (zlen pre + i) 0), (Z.ltb_spec i 0),
    (Z.leb_spec (Z.of_nat (length pre + length l)) (zlen pre + i)), (Z.leb_spec (zlen l) i);
    try lia; simpl; [done|].
  rewrite lookup_app_r by lia. do 2 f_equal. lia.
Qed.

Lemma wr_app_r pre l i x :
  0 ≤ i → wr (pre ++ l) (zlen pre + i) x = (λ l', pre ++ l') <$> wr l i x.
Proof.
  intros. unfold wr. rewrite length_app.
  destruct (Z.ltb_spec (zlen pre + i) 0), (Z.ltb_spec i 0),
    (Z.leb_spec (Z.of_nat (length pre + length l)) (zlen pre + i)),
    (Z.leb_spec (zlen l) i); try lia; simpl; [done|].
  rewrite insert_app_r_alt by lia. do 3 f_equal. lia.
Qed.

Lemma rd_n_app pre l src :
  rd_n (pre ++ src ++ l) (zlen pre) (zlen src) = Ret src.
Proof.
  rewrite rd_n_in_bounds by (rewrite ?length_app; lia).
  by rewrite !Nat2Z.id, drop_app_length, take_app_length.
Qed.

Lemma wr_n_app pre mid l src :
  length mid = length src → wr_n (pre ++ mid ++ l) (zlen pre) src = Ret (pre ++ src ++ l).
Proof.
  intros Hlen. rewrite wr_n_in_bounds by (rewrite ?length_app; lia).
  rewrite Nat2Z.id, take_app_length, <- drop_drop, drop_app_length.
  by rewrite <- Hlen, drop_app_length.
Qed.

(** A range inside a buffer splits it. *)
Lemma split_range l i n :
  0 ≤ i → 0 ≤ n → i + n ≤ zlen l →
  ∃ pre mid post, l = pre ++ mid ++ post ∧ zlen pre = i ∧ zlen mid = n.
Proof.
  intros. exists (take (Z.to_nat i) l), (take (Z.to_nat n) (drop (Z.to_nat i) l)),
    (drop (Z.to_nat n) (drop (Z.to_nat i) l)).
  rewrite !take_drop. split; [done|].
  rewrite !length_take, length_drop. lia.
Qed.
End buffers.

(** [split_at l i n as pre post] names the [n] bytes of [l] at [i]. *)
Ltac split_list mid H :=
  repeat (destruct mid as [|? mid]; [cbn [length] in H; lia|]);
  try (exfalso; cbn [length] in H; lia).

#[export] Hint Rewrite @length_app @length_take @length_drop @length_insert
  @length_replicate @length_fmap : c_len.
Ltac len := autorewrite with c_len in *; simpl in *; lia.

(** [bsearch] of the C library on the [lim] elements of [l] from [base] on; [cmp] is
    the comparison of the key with an element. [fuel] is at least [lim]. *)
Fixpoint c_bsearch {A} (fuel : nat) (cmp : A → Z) (l : list A) (base lim : nat) : option A :=
  match fuel with
  | O => None
  | S fuel =>
      if (lim =? 0)%nat then None
      else
        p ← l !! (base + lim / 2)%nat;
        if cmp p =? 0 then Some p
        else if 0 <? cmp p then c_bsearch fuel cmp l (base + lim / 2 + 1) ((lim - 1) / 2)
        else c_bsearch fuel cmp l base (lim / 2)
  end.

(** ** List lemmas *)

(** The search finds an element that compares equal, when those before it compare
    greater and those behind it less. *)
Lemma c_bsearch_spec {A} (cmp : A → Z) (l : list A) :
  (∀ i j x y, l !! i = Some x → l !! j = Some y → (i < j)%nat → cmp x ≤ 0 → cmp y < 0) →
  ∀ fuel base lim, (lim ≤ fuel)%nat → (base + lim ≤ length l)%nat →
  match c_bsearch fuel cmp l base lim with
  | Some x => x ∈ l ∧ cmp x = 0
  | None => ∀ i x, (base ≤ i < base + lim)%nat → l !! i = Some x → cmp x ≠ 0
  end.
Proof.
  intros Hsorted. induction fuel as [|fuel IH]; intros base lim Hf Hl; cbn [c_bsearch]; [lia|].
  destruct (Nat.eqb_spec lim 0) as [->|Hlim]; [lia|].
  pose proof (Nat.div_mod_eq lim 2). pose proof (Nat.mod_upper_bound lim 2).
  pose proof (Nat.div_mod_eq (lim - 1) 2). pose proof (Nat.mod_upper_bound (lim - 1) 2).
  set (m := (lim / 2)%nat) in *.
  assert (Hm : (m ≤ lim - 1 /\ (lim - 1) / 2 = lim - 1 - m)%nat).
  { split; lia. }
  destruct (lookup_lt_is_Some_2 l (base + m)) as [p Hp]; [lia|]. rewrite Hp. cbn [mbind option_bind].
  destruct (Z.eqb_spec (cmp p) 0); [eauto using list_elem_of_lookup_2|].
  destruct (Z.ltb_spec 0 (cmp p)).
  - destruct Hm as [? ->]. specialize (IH (base + m + 1)%nat (lim - 1 - m)%nat).
    destruct (c_bsearch _ _ _ _ _); [apply IH; lia|]. intros i x Hi Hx Hc.
    destruct (decide (i < base + m)%nat).
    { assert (cmp p < 0) by (eapply (Hsorted i (base + m)%nat); eauto; lia). lia. }
    destruct (decide (i = base + m)%nat) as [->|]; [congruence|].
    eapply (IH ltac:(lia) ltac:(lia) i x); [lia|done|done].
  - specialize (IH base m). destruct (c_bsearch _ _ _ _ _); [apply IH; lia|].
    intros i x Hi Hx Hc. destruct (decide (i < base + m)%nat).
    { eapply (IH ltac:(lia) ltac:(lia) i x); [lia|done|done]. }
    destruct (decide (i = base + m)%nat) as [->|]; [congruence|].
    assert (cmp x < 0) by (eapply (Hsorted (base + m)%nat i); eauto; lia). lia.
Qed.

(** Masking with a power of two minus one is the remainder. *)
Lemma land_pow2_minus_1 x k : 0 ≤ k → Z.land x (2 ^ k - 1) = x mod 2 ^ k.
Proof. intros. rewrite Z.sub_1_r, <- Z.ones_equiv. by apply Z.land_ones. Qed.

(** An element splits its list, and an update replaces it. *)
Lemma lookup_split {A} (l : list A) i x :
  l !! i = Some x →
  ∃ l1 l2, l = l1 ++ x :: l2 ∧ length l1 = i ∧ ∀ y, <[i := y]> l = l1 ++ y :: l2.
Proof.
  intros Hx. exists (take i l), (drop (S i) l).
  pose proof (lookup_lt_Some _ _ _ Hx).
  split; [by rewrite take_drop_middle|].
  split; [rewrite length_take; lia|].
  intros y. by rewrite insert_take_drop.
Qed.

(** A property of naturals that holds somewhere has a least place. *)
Lemma least_nat (P : nat → Prop) `{∀ n, Decision (P n)} n :
  P n → ∃ m, (m ≤ n)%nat ∧ P m ∧ ∀ i, (i < m)%nat → ¬ P i.
Proof.
  revert P H. induction n as [|n IH]; intros P dec Hn.
  - exists O. split; [done|]. split; [done|]. lia.
  - destruct (decide (P O)) as [H0|H0]; [exists O; split; [lia|]; split; [done|lia]|].
    destruct (IH (λ m, P (S m)) _ Hn) as (m & ? & ? & Hmin).
    exists (S m). split; [lia|]. split; [done|].
    intros [|i] Hi; [done|]. apply Hmin. lia.
Qed.

(** Filters that agree on the elements of the list. *)
Lemma filter_iff_in {A} (P Q : A → Prop) `{∀ x, Decision (P x)} `{∀ x, Decision (Q x)} (l : list A) :
  (∀ x, x ∈ l → P x ↔ Q x) → filter P l = filter Q l.
Proof.
  induction l as [|x l IH]; intros Hl; [done|]. rewrite !filter_cons.
  rewrite (IH ltac:(intros y Hy; apply Hl; by right)).
  assert (Hx : P x ↔ Q x) by (apply Hl; by left).
  do 2 case_decide; tauto || congruence.
Qed.
Lemma filter_none {A} (P : A → Prop) `{∀ x, Decision (P x)} (l : list A) :
  (∀ x, x ∈ l → ¬ P x) → filter P l = [].
Proof.
  induction l as [|x l IH]; intros Hl; [done|].
  rewrite filter_cons_False by (apply Hl; by left). apply IH. intros y Hy. apply Hl. by right.
Qed.
Lemma filter_all_in {A} (P : A → Prop) `{∀ x, Decision (P x)} (l : list A) :
  (∀ x, x ∈ l → P x) → filter P l = l.
Proof.
  induction l as [|x l IH]; intros Hl; [done|].
  rewrite filter_cons_True by (apply Hl; by left). f_equal. apply IH. intros y Hy. apply Hl. by right.
Qed.
