(* ===== verification/Bits.v ===== *)
(** * Bits

    minzip/Bits.h: reading and writing integers of one, two, four and eight
    bytes, big and little endian, and length-prefixed strings. A pointer is an
    offset [p] into the buffer it points into; every access is checked. *)
From S2P Require Import Prelude.

(** ** Reading *)
Definition get1 (buf : list Z) (p : Z) : outcome Z := rd buf p.

Definition get2BE (buf : list Z) (p : Z) : outcome Z :=
  b0 ← rd buf p;
  let result := u16 (Z.shiftl b0 8) in
  b1 ← rd buf (p + 1);
  mret (u16 (Z.lor result b1)).

Definition get4BE (buf : list Z) (p : Z) : outcome Z :=
  b0 ← rd buf p;
  let result := u32 (Z.shiftl b0 24) in
  b1 ← rd buf (p + 1);
  let result := u32 (Z.lor result (Z.shiftl b1 16)) in
  b2 ← rd buf (p + 2);
  let result := u32 (Z.lor result (Z.shiftl b2 8)) in
  b3 ← rd buf (p + 3);
  mret (u32 (Z.lor result b3)).

Definition get8BE (buf : list Z) (p : Z) : outcome Z :=
  b0 ← rd buf p;
  let result := u64 (Z.shiftl b0 56) in
  b1 ← rd buf (p + 1);
  let result := u64 (Z.lor result (Z.shiftl b1 48)) in
  b2 ← rd buf (p + 2);
  let result := u64 (Z.lor result (Z.shiftl b2 40)) in
  b3 ← rd buf (p + 3);
  let result := u64 (Z.lor result (Z.shiftl b3 32)) in
  b4 ← rd buf (p + 4);
  let result := u64 (Z.lor result (Z.shiftl b4 24)) in
  b5 ← rd buf (p + 5);
  let result := u64 (Z.lor result (Z.shiftl b5 16)) in
  b6 ← rd buf (p + 6);
  let result := u64 (Z.lor result (Z.shiftl b6 8)) in
  b7 ← rd buf (p + 7);
  mret (u64 (Z.lor result b7)).

Definition get2LE (buf : list Z) (p : Z) : outcome Z :=
  b0 ← rd buf p;
  let result := u16 b0 in
  b1 ← rd buf (p + 1);
  mret (u16 (Z.lor result (Z.shiftl b1 8))).

Definition get4LE (buf : list Z) (p : Z) : outcome Z :=
  b0 ← rd buf p;
  let result := u32 b0 in
  b1 ← rd buf (p + 1);
  let result := u32 (Z.lor result (Z.shiftl b1 8)) in
  b2 ← rd buf (p + 2);
  let result := u32 (Z.lor result (Z.shiftl b2 16)) in
  b3 ← rd buf (p + 3);
  mret (u32 (Z.lor result (Z.shiftl b3 24))).

Definition get8LE (buf : list Z) (p : Z) : outcome Z :=
  b0 ← rd buf p;
  let result := u64 b0 in
  b1 ← rd buf (p + 1);
  let result := u64 (Z.lor result (Z.shiftl b1 8)) in
  b2 ← rd buf (p + 2);
  let result := u64 (Z.lor result (Z.shiftl b2 16)) in
  b3 ← rd buf (p + 3);
  let result := u64 (Z.lor result (Z.shiftl b3 24)) in
  b4 ← rd buf (p + 4);
  let result := u64 (Z.lor result (Z.shiftl b4 32)) in
  b5 ← rd buf (p + 5);
  let result := u64 (Z.lor result (Z.shiftl b5 40)) in
  b6 ← rd buf (p + 6);
  let result := u64 (Z.lor result (Z.shiftl b6 48)) in
  b7 ← rd buf (p + 7);
  mret (u64 (Z.lor result (Z.shiftl b7 56))).

(** The [readN] functions run the same statements on [*ppSrc] and leave the
    pointer behind the bytes read. *)
Definition read1 (buf : list Z) (pp : Z) : outcome (Z * Z) :=
  v ← rd buf pp; mret (v, pp + 1).
Definition read2BE (buf : list Z) (pp : Z) : outcome (Z * Z) :=
  v ← get2BE buf pp; mret (v, pp + 2).
Definition read4BE (buf : list Z) (pp : Z) : outcome (Z * Z) :=
  v ← get4BE buf pp; mret (v, pp + 4).
Definition read8BE (buf : list Z) (pp : Z) : outcome (Z * Z) :=
  v ← get8BE buf pp; mret (v, pp + 8).
Definition read2LE (buf : list Z) (pp : Z) : outcome (Z * Z) :=
  v ← get2LE buf pp; mret (v, pp + 2).
Definition read4LE (buf : list Z) (pp : Z) : outcome (Z * Z) :=
  v ← get4LE buf pp; mret (v, pp + 4).
Definition read8LE (buf : list Z) (pp : Z) : outcome (Z * Z) :=
  v ← get8LE buf pp; mret (v, pp + 8).

Definition skipUtf8String (src : list Z) (pp : Z) : outcome Z :=
  '(length, pp) ← read4BE src pp; mret (pp + length).

(** [readUtf8String]: the result, the advanced pointer and the buffer. The
    length is returned as an [int]; [bufLen - 1] is computed in [size_t]. *)
Definition readUtf8String (src : list Z) (pp : Z) (buf : list Z) (bufLen : Z)
    : outcome (Z * Z * list Z) :=
  '(length, pp) ← read4BE src pp;
  let copyLen := if length <? bufLen then length else u32 (bufLen - 1) in
  data ← rd_n src pp copyLen;
  buf ← wr_n buf 0 data;
  buf ← wr buf copyLen 0;
  mret (s32 length, pp + length, buf).

(** [readNewUtf8String]: the new string (with its NUL), its length and the
    advanced pointer. [malloc(length+1)] is computed in [unsigned int]; [fresh n]
    is the block it returns, [None] for NULL. *)
Definition readNewUtf8String (fresh : Z → option (list Z)) (src : list Z) (pp : Z)
    : outcome (list Z * Z * Z) :=
  '(length, pp) ← read4BE src pp;
  buf ← of_option NullPointer (fresh (u32 (length + 1)));
  data ← rd_n src pp length;
  buf ← wr_n buf 0 data;
  buf ← wr buf length 0;
  mret (buf, length, pp + length).

(** ** Writing *)
Definition set1 (buf : list Z) (p val : Z) : outcome (list Z) := wr buf p (u8 val).

Definition set2BE (buf : list Z) (p val : Z) : outcome (list Z) :=
  buf ← wr buf p (u8 (Z.shiftr val 8));
  wr buf (p + 1) (u8 val).

Definition set4BE (buf : list Z) (p val : Z) : outcome (list Z) :=
  buf ← wr buf p (u8 (Z.shiftr val 24));
  buf ← wr buf (p + 1) (u8 (Z.shiftr val 16));
  buf ← wr buf (p + 2) (u8 (Z.shiftr val 8));
  wr buf (p + 3) (u8 val).

Definition set8BE (buf : list Z) (p val : Z) : outcome (list Z) :=
  buf ← wr buf p (u8 (Z.shiftr val 56));
  buf ← wr buf (p + 1) (u8 (Z.shiftr val 48));
  buf ← wr buf (p + 2) (u8 (Z.shiftr val 40));
  buf ← wr buf (p + 3) (u8 (Z.shiftr val 32));
  buf ← wr buf (p + 4) (u8 (Z.shiftr val 24));
  buf ← wr buf (p + 5) (u8 (Z.shiftr val 16));
  buf ← wr buf (p + 6) (u8 (Z.shiftr val 8));
  wr buf (p + 7) (u8 val).

Definition set2LE (buf : list Z) (p val : Z) : outcome (list Z) :=
  buf ← wr buf p (u8 val);
  wr buf (p + 1) (u8 (Z.shiftr val 8)).

Definition set4LE (buf : list Z) (p val : Z) : outcome (list Z) :=
  buf ← wr buf p (u8 val);
  buf ← wr buf (p + 1) (u8 (Z.shiftr val 8));
  buf ← wr buf (p + 2) (u8 (Z.shiftr val 16));
  wr buf (p + 3) (u8 (Z.shiftr val 24)).

Definition set8LE (buf : list Z) (p val : Z) : outcome (list Z) :=
  buf ← wr buf p (u8 val);
  buf ← wr buf (p + 1) (u8 (Z.shiftr val 8));
  buf ← wr buf (p + 2) (u8 (Z.shiftr val 16));
  buf ← wr buf (p + 3) (u8 (Z.shiftr val 24));
  buf ← wr buf (p + 4) (u8 (Z.shiftr val 32));
  buf ← wr buf (p + 5) (u8 (Z.shiftr val 40));
  buf ← wr buf (p + 6) (u8 (Z.shiftr val 48));
  wr buf (p + 7) (u8 (Z.shiftr val 56)).

(** [str] is the C string, without its NUL. *)
Definition setUtf8String (buf : list Z) (p : Z) (str : list Z) : outcome (list Z) :=
  let strLen := u32 (zlen str) in
  buf ← set4BE buf p strLen;
  wr_n buf (p + 4) (take (Z.to_nat strLen) str).

(** ** Lemmas *)

(** The value of a byte list, least significant byte first. *)
Fixpoint le_value (l : list Z) : Z :=
  match l with [] => 0 | b :: l => b + 256 * le_value l end.

Definition be_value (l : list Z) : Z := le_value (rev l).

(** The bytes of an integer, least significant first. *)
Fixpoint le_bytes (n : nat) (v : Z) : list Z :=
  match n with O => [] | S n => v mod 256 :: le_bytes n (v / 256) end.

Lemma length_le_bytes n v : length (le_bytes n v) = n.
Proof. revert v. induction n; simpl; auto. Qed.

Lemma le_bytes_ok n v : bytes_ok (le_bytes n v).
Proof. revert v. induction n; simpl; constructor; auto. by apply Z.mod_pos_bound. Qed.

Lemma le_value_bytes n v : le_value (le_bytes n v) = v mod 256 ^ Z.of_nat n.
Proof.
  revert v. induction n as [|n IH]; intros v; [by rewrite Z.mod_1_r|].
  cbn [le_bytes le_value]. rewrite IH, Nat2Z.inj_succ, Z.pow_succ_r by lia.
  rewrite Z.rem_mul_r by lia. lia.
Qed.

Lemma le_bytes_value l : bytes_ok l → le_bytes (length l) (le_value l) = l.
Proof.
  induction 1 as [|b l Hb Hl IH]; [done|]. cbn [le_value length le_bytes].
  replace ((b + 256 * le_value l) / 256) with (le_value l) by zdiv.
  rewrite IH. f_equal. zdiv.
Qed.

Lemma le_value_range l : bytes_ok l → 0 ≤ le_value l < 256 ^ zlen l.
Proof.
  induction 1 as [|b l Hb Hl IH]; [done|].
  cbn [le_value length]. rewrite Nat2Z.inj_succ, Z.pow_succ_r by lia. lia.
Qed.

Lemma le_bytes_mod n v : le_bytes n (v mod 256 ^ Z.of_nat n) = le_bytes n v.
Proof.
  rewrite <- le_value_bytes. rewrite <- (length_le_bytes n v) at 1.
  apply le_bytes_value, le_bytes_ok.
Qed.

(** Evaluate a word built from or'ed shifted bytes, in either byte order. *)
Ltac word_value :=
  repeat match goal with
  | |- context [Z.shiftl ?x ?n] => rewrite (Z.shiftl_mul_pow2 x n) by lia
  | |- context [u16 ?x] => rewrite (u16_small x) by lia
  | |- context [u32 ?x] => rewrite (u32_small x) by lia
  | |- context [u64 ?x] => rewrite (u64_small x) by lia
  | |- context [Z.lor ?x (?y * 2 ^ ?n)] =>
      first [ rewrite (Z.lor_comm x (y * 2 ^ n)), (lor_disjoint_add (y * 2 ^ n) x n) by zdiv
            | rewrite (lor_disjoint_add x (y * 2 ^ n) (n + 8)) by zdiv ]
  | |- context [Z.lor ?x ?y] => rewrite (lor_disjoint_add x y 8) by zdiv
  end.

Section bits.
Implicit Types (pre post buf : list Z) (p v : Z).

Ltac get_at H :=
  match goal with |- _ _ (zlen ?pre) = _ => replace (zlen pre) with (zlen pre + 0) by lia end;
  unfold get2LE, get4LE, get8LE, get2BE, get4BE, get8BE;
  rewrite <- ?Z.add_assoc, !rd_app_r by lia; rewrite !Forall_cons in H;
  repeat match goal with |- context [rd ?l ?i] =>
    rewrite (rd_lookup l i) by lia;
    let r := eval cbv in (of_option OutOfBounds (l !! Z.to_nat i)) in
    change (of_option OutOfBounds (l !! Z.to_nat i)) with r end;
  cbn [mbind outcome_bind le_value be_value rev app]; unfold mret, outcome_ret; f_equal;
  word_value; lia.

Lemma get2LE_at pre b0 b1 post :
  bytes_ok [b0; b1] → get2LE (pre ++ b0 :: b1 :: post) (zlen pre) = Ret (le_value [b0; b1]).
Proof. intros H. get_at H. Qed.
Lemma get4LE_at pre b0 b1 b2 b3 post :
  bytes_ok [b0; b1; b2; b3] →
  get4LE (pre ++ b0 :: b1 :: b2 :: b3 :: post) (zlen pre) = Ret (le_value [b0; b1; b2; b3]).
Proof. intros H. get_at H. Qed.
Lemma get8LE_at pre b0 b1 b2 b3 b4 b5 b6 b7 post :
  bytes_ok [b0; b1; b2; b3; b4; b5; b6; b7] →
  get8LE (pre ++ b0 :: b1 :: b2 :: b3 :: b4 :: b5 :: b6 :: b7 :: post) (zlen pre) =
    Ret (le_value [b0; b1; b2; b3; b4; b5; b6; b7]).
Proof. intros H. get_at H. Qed.
Lemma get2BE_at pre b0 b1 post :
  bytes_ok [b0; b1] → get2BE (pre ++ b0 :: b1 :: post) (zlen pre) = Ret (be_value [b0; b1]).
Proof. intros H. get_at H. Qed.
Lemma get4BE_at pre b0 b1 b2 b3 post :
  bytes_ok [b0; b1; b2; b3] →
  get4BE (pre ++ b0 :: b1 :: b2 :: b3 :: post) (zlen pre) = Ret (be_value [b0; b1; b2; b3]).
Proof. intros H. get_at H. Qed.
Lemma get8BE_at pre b0 b1 b2 b3 b4 b5 b6 b7 post :
  bytes_ok [b0; b1; b2; b3; b4; b5; b6; b7] →
  get8BE (pre ++ b0 :: b1 :: b2 :: b3 :: b4 :: b5 :: b6 :: b7 :: post) (zlen pre) =
    Ret (be_value [b0; b1; b2; b3; b4; b5; b6; b7]).
Proof. intros H. get_at H. Qed.

Ltac set_at mid H :=
  unfold set2LE, set4LE, set8LE, set2BE, set4BE, set8BE;
  split_list mid H; destruct mid; [|cbn [length] in H; lia];
  match goal with |- context [wr (?pre ++ _) (zlen ?pre)] =>
    replace (zlen pre) with (zlen pre + 0) by lia end;
  repeat (rewrite <- ?Z.add_assoc, wr_app_r by lia;
    cbn [app mbind outcome_bind];
    rewrite wr_in_bounds by (cbn [length]; lia);
    match goal with |- context [Z.to_nat ?i] =>
      let r := eval cbv in (Z.to_nat i) in change (Z.to_nat i) with r end;
    cbn [insert list_insert fmap outcome_fmap mbind outcome_bind]);
  cbn [le_bytes rev app]; unfold u8;
  rewrite ?Z.shiftr_div_pow2, ?Z.div_div by lia; done.

Lemma set2LE_at pre mid post v :
  length mid = 2%nat →
  set2LE (pre ++ mid ++ post) (zlen pre) v = Ret (pre ++ le_bytes 2 v ++ post).
Proof. intros H. set_at mid H. Qed.
Lemma set4LE_at pre mid post v :
  length mid = 4%nat →
  set4LE (pre ++ mid ++ post) (zlen pre) v = Ret (pre ++ le_bytes 4 v ++ post).
Proof. intros H. set_at mid H. Qed.
Lemma set8LE_at pre mid post v :
  length mid = 8%nat →
  set8LE (pre ++ mid ++ post) (zlen pre) v = Ret (pre ++ le_bytes 8 v ++ post).
Proof. intros H. set_at mid H. Qed.
Lemma set2BE_at pre mid post v :
  length mid = 2%nat →
  set2BE (pre ++ mid ++ post) (zlen pre) v = Ret (pre ++ rev (le_bytes 2 v) ++ post).
Proof. intros H. set_at mid H. Qed.
Lemma set4BE_at pre mid post v :
  length mid = 4%nat →
  set4BE (pre ++ mid ++ post) (zlen pre) v = Ret (pre ++ rev (le_bytes 4 v) ++ post).
Proof. intros H. set_at mid H. Qed.
Lemma set8BE_at pre mid post v :
  length mid = 8%nat →
  set8BE (pre ++ mid ++ post) (zlen pre) v = Ret (pre ++ rev (le_bytes 8 v) ++ post).
Proof. intros H. set_at mid H. Qed.
End bits.

(** ** The six word formats as one family *)
Inductive word_format : Type := LE2 | LE4 | LE8 | BE2 | BE4 | BE8.

Definition wf_size (c : word_format) : Z :=
  match c with LE2 | BE2 => 2 | LE4 | BE4 => 4 | LE8 | BE8 => 8 end.
Definition wf_set (c : word_format) : list Z → Z → Z → outcome (list Z) :=
  match c with
  | LE2 => set2LE | LE4 => set4LE | LE8 => set8LE
  | BE2 => set2BE | BE4 => set4BE | BE8 => set8BE
  end.
Definition wf_get (c : word_format) : list Z → Z → outcome Z :=
  match c with
  | LE2 => get2LE | LE4 => get4LE | LE8 => get8LE
  | BE2 => get2BE | BE4 => get4BE | BE8 => get8BE
  end.
Definition wf_order (c : word_format) (l : list Z) : list Z :=
  match c with LE2 | LE4 | LE8 => l | BE2 | BE4 | BE8 => rev l end.

(** [buf'] is [buf] except for the [n] bytes at [p]. *)
Definition framed (buf : list Z) (p n : Z) (buf' : list Z) : Prop :=
  length buf' = length buf ∧
  take (Z.to_nat p) buf' = take (Z.to_nat p) buf ∧
  drop (Z.to_nat (p + n)) buf' = drop (Z.to_nat (p + n)) buf.

Lemma framed_app pre mid mid' post :
  length mid' = length mid →
  framed (pre ++ mid ++ post) (zlen pre) (zlen mid) (pre ++ mid' ++ post).
Proof.
  intros Hlen. unfold framed.
  rewrite !Nat2Z.id, !take_app_length, !length_app, Hlen. split; [done|]. split; [done|].
  rewrite <- Nat2Z.inj_add, Nat2Z.id, <- !(drop_drop _ _ (length pre)), !drop_app_length.
  by rewrite <- Hlen, drop_app_length.
Qed.

Lemma bytes_rev (l : list Z) : bytes_ok l → bytes_ok (rev l).
Proof. intros H. by apply Forall_rev. Qed.

Lemma wf_get_at c pre mid post :
  zlen mid = wf_size c → bytes_ok mid →
  wf_get c (pre ++ mid ++ post) (zlen pre) = Ret (le_value (wf_order c mid)).
Proof.
  intros Hlen Hok.
  destruct c; cbn [wf_size wf_get wf_order] in *; split_list mid Hlen;
    destruct mid; try (cbn [length] in Hlen; lia); cbn [app];
    first [ by apply get2LE_at | by apply get4LE_at | by apply get8LE_at
          | by apply get2BE_at | by apply get4BE_at | by apply get8BE_at ].
Qed.

Lemma wf_set_at c pre mid post v :
  zlen mid = wf_size c →
  wf_set c (pre ++ mid ++ post) (zlen pre) v =
    Ret (pre ++ wf_order c (le_bytes (length mid) v) ++ post).
Proof.
  intros Hlen. destruct c; cbn [wf_size wf_set wf_order] in *.
  1: replace (length mid) with 2%nat by lia; apply set2LE_at; lia.
  1: replace (length mid) with 4%nat by lia; apply set4LE_at; lia.
  1: replace (length mid) with 8%nat by lia; apply set8LE_at; lia.
  1: replace (length mid) with 2%nat by lia; apply set2BE_at; lia.
  1: replace (length mid) with 4%nat by lia; apply set4BE_at; lia.
  1: replace (length mid) with 8%nat by lia; apply set8BE_at; lia.
Qed.

Lemma wf_order_involutive c l : wf_order c (wf_order c l) = l.
Proof. destruct c; simpl; rewrite ?rev_involutive; done. Qed.

Lemma wf_order_length c l : length (wf_order c l) = length l.
Proof. destruct c; simpl; rewrite ?length_rev; done. Qed.

Lemma wf_order_ok c l : bytes_ok l → bytes_ok (wf_order c l).
Proof. destruct c; simpl; auto using bytes_rev. Qed.

Lemma wf_size_pos c : 0 ≤ wf_size c.
Proof. by destruct c. Qed.

Lemma wf_get_in_bounds c buf p :
  bytes_ok buf → 0 ≤ p → p + wf_size c ≤ zlen buf →
  wp (wf_get c buf p) (λ v, 0 ≤ v < 256 ^ wf_size c).
Proof.
  intros Hok Hp Hlen. pose proof (wf_size_pos c).
  destruct (split_range buf p (wf_size c)) as (pre & mid & post & -> & <- & Hm); [done..|].
  apply Forall_app in Hok as [_ [Hmid _]%Forall_app].
  rewrite wf_get_at by done. simpl.
  pose proof (le_value_range (wf_order c mid) (wf_order_ok c mid Hmid)) as Hr.
  by rewrite wf_order_length, Hm in Hr.
Qed.

Lemma wp_get2LE buf p Q :
  bytes_ok buf → 0 ≤ p → p + 2 ≤ zlen buf → (∀ v, 0 ≤ v < 2 ^ 16 → Q v) → wp (get2LE buf p) Q.
Proof. intros ??? HQ. eapply wp_mono; [by apply (wf_get_in_bounds LE2)|done]. Qed.

Lemma wp_get4LE buf p Q :
  bytes_ok buf → 0 ≤ p → p + 4 ≤ zlen buf → (∀ v, 0 ≤ v < 2 ^ 32 → Q v) → wp (get4LE buf p) Q.
Proof. intros ??? HQ. eapply wp_mono; [by apply (wf_get_in_bounds LE4)|done]. Qed.

(** ** Properties *)

(** Whatever the byte order and the width, writing [v] at [p] with a [set]
    function changes only the bytes of the word, and the matching [get] function
    reads back [v] modulo the width of the word. *)
Theorem set_get_roundtrip c buf p v :
  0 ≤ p → p + wf_size c ≤ zlen buf →
  wp (wf_set c buf p v) (λ buf',
    framed buf p (wf_size c) buf' ∧ wf_get c buf' p = Ret (v mod 256 ^ wf_size c)).
Proof.
  intros Hp Hlen. pose proof (wf_size_pos c).
  destruct (split_range buf p (wf_size c)) as (pre & mid & post & -> & <- & Hm); [done..|].
  rewrite wf_set_at by done. cbn [wp]. split.
  - rewrite <- Hm. apply framed_app. by rewrite wf_order_length, length_le_bytes.
  - rewrite wf_get_at.
    + by rewrite wf_order_involutive, le_value_bytes, Hm.
    + by rewrite wf_order_length, length_le_bytes.
    + apply wf_order_ok, le_bytes_ok.
Qed.

Lemma set_get_roundtrip_witness :
  wp (wf_set BE4 [9; 0; 0; 0; 0; 9] 1 (2 ^ 33 + 258)) (λ buf',
    framed [9; 0; 0; 0; 0; 9] 1 4 buf' ∧ wf_get BE4 buf' 1 = Ret 258).
Proof. apply (set_get_roundtrip BE4 [9; 0; 0; 0; 0; 9] 1 (2 ^ 33 + 258)); vm_compute; congruence. Defined.

Lemma read4BE_at pre mid post :
  zlen mid = 4 → bytes_ok mid →
  read4BE (pre ++ mid ++ post) (zlen pre) = Ret (le_value (rev mid), zlen pre + 4).
Proof. intros. unfold read4BE. rewrite (wf_get_at BE4) by done. done. Qed.

Lemma set4BE_length (mid : list Z) n :
  zlen mid = 4 → 0 ≤ n < 2 ^ 32 → le_value (rev (rev (le_bytes (length mid) n))) = n.
Proof.
  intros Hm Hn. rewrite rev_involutive, le_value_bytes, Hm. by apply Z.mod_small.
Qed.

(** A string stored with [setUtf8String] is the string [readNewUtf8String]
    reads back, NUL-terminated and with its length, and the pointer is left
    behind it. *)
Theorem utf8_roundtrip fresh buf p str blk :
  zlen str + 1 < 2 ^ 32 → 0 ≤ p → p + 4 + zlen str ≤ zlen buf →
  fresh (zlen str + 1) = Some blk → zlen blk = zlen str + 1 →
  wp (setUtf8String buf p str) (λ buf',
    framed buf p (4 + zlen str) buf' ∧
    readNewUtf8String fresh buf' p = Ret (str ++ [0], zlen str, p + 4 + zlen str)).
Proof.
  intros Hs Hp Hlen Hfresh Hblk.
  destruct (split_range buf p (4 + zlen str)) as (pre & mid & post & -> & <- & Hm); [lia..|].
  destruct (split_range mid 0 4) as (m0 & m1 & m2 & -> & Hm0 & Hm1); [lia..|].
  destruct m0; [|cbn [length] in Hm0; lia]. cbn [app] in *.
  rewrite length_app in Hm.
  unfold setUtf8String. rewrite u32_small by lia. rewrite Nat2Z.id, firstn_all, <- app_assoc.
  rewrite (wf_set_at BE4) by done. cbn [mbind outcome_bind wf_order].
  set (w := rev (le_bytes (length m1) (zlen str))).
  assert (Hw : zlen w = 4) by (unfold w; rewrite length_rev, length_le_bytes; lia).
  assert (Hok : bytes_ok w) by apply bytes_rev, le_bytes_ok.
  replace (zlen pre + 4) with (zlen (pre ++ w)) by (rewrite length_app; lia).
  rewrite (app_assoc pre), (wr_n_app (pre ++ w) m2 post str) by lia. cbn [wp].
  rewrite <- (app_assoc pre w). split.
  - replace (4 + zlen str) with (zlen (m1 ++ m2)) by (rewrite length_app; lia).
    rewrite (app_assoc w), (app_assoc m1). apply framed_app. rewrite !length_app. lia.
  - unfold readNewUtf8String. rewrite read4BE_at by done. cbn [mbind outcome_bind].
    unfold w at 1 2 3 4 5 6. rewrite set4BE_length by lia.
    rewrite u32_small, Hfresh by lia. cbn [of_option mbind outcome_bind].
    replace (zlen pre + 4) with (zlen (pre ++ w)) by (rewrite length_app; lia).
    rewrite (app_assoc pre), rd_n_app. cbn [mbind outcome_bind].
    destruct (split_range blk 0 (zlen str)) as (b0 & b1 & b2 & -> & Hb0 & Hb1); [lia..|].
    destruct b0; [|cbn [length] in Hb0; lia]. cbn [app] in *. rewrite length_app in Hblk.
    pose proof (wr_n_app [] b1 b2 str ltac:(lia)) as Hwr. change (zlen []) with 0 in Hwr.
    cbn [app] in Hwr.
    rewrite Hwr.
    cbn [mbind outcome_bind app].
    destruct b2 as [|c [|??]]; cbn [length] in Hblk; [lia| |lia].
    rewrite wr_in_bounds by (rewrite length_app; cbn [length]; lia).
    cbn [mbind outcome_bind].
    rewrite insert_app_r_alt, Nat2Z.id, Nat.sub_diag by lia. cbn [insert list_insert].
    done.
Qed.

Lemma utf8_roundtrip_witness :
  wp (setUtf8String (replicate 8 7) 1 [104; 105]) (λ buf',
    framed (replicate 8 7) 1 6 buf' ∧
    readNewUtf8String (λ n, Some (replicate (Z.to_nat n) 0)) buf' 1 = Ret ([104; 105; 0], 2, 7)).
Proof.
  apply (utf8_roundtrip (λ n, Some (replicate (Z.to_nat n) 0)) (replicate 8 7) 1 [104; 105]
    [0; 0; 0]); vm_compute; congruence.
Defined.

(** : [readUtf8String] never writes outside a buffer of [bufLen > 0] bytes: it
    stores the prefix of the string that leaves room for the NUL, and returns the
    full length of the original string. *)
Theorem readUtf8String_truncates pre str post buf :
  zlen str < 2 ^ 31 → 0 < zlen buf < 2 ^ 32 →
  let src := pre ++ rev (le_bytes 4 (zlen str)) ++ str ++ post in
  let kept := take (length buf - 1) str in
  readUtf8String src (zlen pre) buf (zlen buf) =
    Ret (zlen str, zlen pre + 4 + zlen str, kept ++ 0 :: drop (length kept + 1) buf).
Proof.
  intros Hs Hb src kept. unfold readUtf8String. subst src.
  assert (Hv : le_value (rev (rev (le_bytes 4 (zlen str)))) = zlen str)
    by (apply (set4BE_length [0; 0; 0; 0]); [done|lia]).
  assert (Hok : bytes_ok (rev (le_bytes 4 (zlen str)))) by apply bytes_rev, le_bytes_ok.
  assert (Hw : zlen (rev (le_bytes 4 (zlen str))) = 4) by done.
  generalize dependent (rev (le_bytes 4 (zlen str))). intros w Hv Hok Hw.
  rewrite read4BE_at, Hv by done. cbn [mbind outcome_bind].
  assert (Hc : (if zlen str <? zlen buf then zlen str else u32 (zlen buf - 1)) = zlen kept).
  { unfold kept. rewrite length_take, u32_small by lia. case_match; lia. }
  rewrite Hc.
  assert (Hsplit : str = kept ++ drop (length buf - 1) str) by (symmetry; apply take_drop).
  replace (rd_n _ _ _) with (Ret kept : outcome (list Z)).
  2: { symmetry. replace (zlen pre + 4) with (zlen (pre ++ w)) by (rewrite length_app; lia).
    rewrite Hsplit at 1. rewrite <- !(app_assoc kept), (app_assoc pre). apply rd_n_app. }
  cbn [mbind outcome_bind].
  assert (Hk : zlen kept < zlen buf) by (unfold kept; rewrite length_take; lia).
  rewrite wr_n_in_bounds by lia. cbn [mbind outcome_bind].
  rewrite wr_in_bounds by (rewrite !length_app, length_take, length_drop; lia).
  cbn [mbind outcome_bind]. unfold mret, outcome_ret.
  rewrite s32_small by lia. do 2 f_equal.
  change (Z.to_nat 0) with 0%nat. rewrite take_0. cbn [app Nat.add].
  rewrite Nat2Z.id, insert_app_r_alt, Nat.sub_diag by done. f_equal.
  destruct (lookup_lt_is_Some_2 buf (length kept)) as [x Hx]; [lia|].
  rewrite (drop_S _ _ _ Hx), Nat.add_1_r. done.
Qed.

Lemma readUtf8String_truncates_witness :
  readUtf8String ([1] ++ [0; 0; 0; 3] ++ [97; 98; 99] ++ [5]) 1 [9; 9; 9] 3 =
    Ret (3, 8, [97; 98; 0]).
Proof.
  apply (readUtf8String_truncates [1] [97; 98; 99] [5] [9; 9; 9]); vm_compute; intuition congruence.
Defined.
