(* ===== verification/Hash.v ===== *)
(** * Hash

    minzip/Hash.c and Hash.h: the open-addressing hash table with linear probing
    and tombstones that maps the names of a zip archive to its entries. *)
From S2P Require Import Prelude.

(** What a table needs to know about the pointers it stores: NULL marks an empty
    slot and HASH_TOMBSTONE a slot whose entry was removed. *)
Class HashPtr (P : Type) := {
  null : P;
  tombstone : P;
  #[global] hash_ptr_eq_dec :: EqDecision P;
  null_not_tombstone : null ≠ tombstone
}.

(** Raw addresses, with the value of HASH_TOMBSTONE. *)
#[export] Instance hash_ptr_address : HashPtr Z.
Proof. refine {| null := 0; tombstone := 0xcbcacccd |}. done. Defined.

Definition LOAD_NUMER : Z := 5.
Definition LOAD_DENOM : Z := 8.

(** sizeof(HashTable), the element size that the calls of [calloc] pass. *)
Definition sizeof_HashTable : Z := 20.

Definition mzHashSize (size : Z) : Z :=
  u32 (u32 (size * LOAD_DENOM) `div` LOAD_NUMER + 1).

Definition roundUpPower2 (val : Z) : Z :=
  let val := u32 (val - 1) in
  let val := Z.lor val (Z.shiftr val 1) in
  let val := Z.lor val (Z.shiftr val 2) in
  let val := Z.lor val (Z.shiftr val 4) in
  let val := Z.lor val (Z.shiftr val 8) in
  let val := Z.lor val (Z.shiftr val 16) in
  u32 (val + 1).

Record HashEntry (P : Type) := mk_entry { hashValue : Z; data : P }.
Arguments mk_entry {P} _ _.
Arguments hashValue {P} _.
Arguments data {P} _.

(** [W] is the state that a [HashFreeFunc] acts on. *)
Record HashTable (P W : Type) := mk_table {
  tableSize : Z;
  numEntries : Z;
  numDeadEntries : Z;
  pEntries : list (HashEntry P);
  freeFunc : option (P → W → W)
}.
Arguments mk_table {P W} _ _ _ _ _.
Arguments tableSize {P W} _.
Arguments numEntries {P W} _.
Arguments numDeadEntries {P W} _.
Arguments pEntries {P W} _.
Arguments freeFunc {P W} _.

Section operations.
Context {P W : Type} `{HashPtr P}.
(** Whether the allocator has a block of the given size. *)
Context (alloc_ok : Z → bool).
Implicit Types (h : HashTable P W) (e : HashEntry P) (item : P).

Definition is_null e : bool := bool_decide (data e = null).
Definition is_tombstone e : bool := bool_decide (data e = tombstone).
Definition is_live e : bool := negb (is_null e) && negb (is_tombstone e).

(** calloc(n, sizeof(HashTable)) as an array of entries: zero-filled, NULL
    when the product does not fit a size_t or there is no memory. *)
Definition calloc_entries (n : Z) : option (list (HashEntry P)) :=
  if (0 <=? n) && (n * sizeof_HashTable <? 2 ^ 32) && alloc_ok (n * sizeof_HashTable)
  then Some (replicate (Z.to_nat n) (mk_entry 0 null)) else None.

Definition mzHashTableCreate (initialSize : Z) (free : option (P → W → W))
    : outcome (option (HashTable P W)) :=
  _ ← c_assert (0 <? initialSize);
  if negb (alloc_ok sizeof_HashTable) then mret None
  else
    let size := s32 (roundUpPower2 (u32 initialSize)) in
    match calloc_entries size with
    | None => mret None
    | Some entries => mret (Some (mk_table size 0 0 entries free))
    end.

(** The loop of [mzHashTableClear] over the slots. *)
Fixpoint clear_slots (free : option (P → W → W)) (l : list (HashEntry P)) (w : W)
    : list (HashEntry P) * W :=
  match l with
  | [] => ([], w)
  | e :: l =>
      let w :=
        if is_tombstone e then w
        else if is_null e then w
        else match free with Some f => f (data e) w | None => w end in
      let '(l', w) := clear_slots free l w in
      (mk_entry (hashValue e) null :: l', w)
  end.

Definition mzHashTableClear h (w : W) : HashTable P W * W :=
  let '(entries, w) := clear_slots (freeFunc h) (pEntries h) w in
  (mk_table (tableSize h) 0 0 entries (freeFunc h), w).

Definition mzHashTableFree (ph : option (HashTable P W)) (w : W) : W :=
  match ph with None => w | Some h => snd (mzHashTableClear h w) end.

Definition countTombStones (l : list (HashEntry P)) : Z := zlen (filter is_tombstone l).

(** [while (pNewEntries[newIdx].data != NULL) newIdx = (newIdx+1) & (newSize-1);] *)
Fixpoint probe_new (fuel : nat) (new : list (HashEntry P)) (newSize newIdx : Z) : outcome Z :=
  match fuel with
  | O => Diverge
  | S fuel =>
      e ← rd new newIdx;
      if is_null e then mret newIdx
      else probe_new fuel new newSize (Z.land (newIdx + 1) (newSize - 1))
  end.

(** One round of the loop of [resizeHash]. *)
Definition reinsert (newSize : Z) (new : list (HashEntry P)) e : outcome (list (HashEntry P)) :=
  if is_live e then
    let hv := s32 (hashValue e) in
    newIdx ← probe_new (S (length new)) new newSize (Z.land hv (newSize - 1));
    wr new newIdx (mk_entry (u32 hv) (data e))
  else mret new.

Fixpoint reinsert_all (newSize : Z) (new : list (HashEntry P)) (old : list (HashEntry P))
    : outcome (list (HashEntry P)) :=
  match old with
  | [] => mret new
  | e :: old => new ← reinsert newSize new e; reinsert_all newSize new old
  end.

Definition resizeHash h (newSize : Z) : outcome (option (HashTable P W)) :=
  _ ← c_assert (countTombStones (pEntries h) =? numDeadEntries h);
  match calloc_entries newSize with
  | None => mret None
  | Some new =>
      new ← reinsert_all newSize new (pEntries h);
      _ ← c_assert (countTombStones new =? 0);
      mret (Some (mk_table newSize (numEntries h) 0 new (freeFunc h)))
  end.

(** The probing loop that [mzHashTableLookup], [mzHashTableRemove] and
    [countProbes] share: it ends at an empty slot, or at a slot that satisfies
    [stop], with the number of rounds that moved on. In a table of one slot
    the loop ends behind the last slot. *)
Fixpoint probe_loop (fuel : nat) (size : Z) (l : list (HashEntry P))
    (stop : HashEntry P → bool) (idx count : Z) : outcome (Z * Z) :=
  match fuel with
  | O => Diverge
  | S fuel =>
      e ← rd l idx;
      if is_null e then mret (idx, count)
      else if stop e then mret (idx, count)
      else
        let idx := idx + 1 in
        if idx =? size then
          if size =? 1 then mret (idx, count)
          else probe_loop fuel size l stop 0 (count + 1)
        else probe_loop fuel size l stop idx (count + 1)
  end.

Definition probe h (stop : HashEntry P → bool) (itemHash : Z) : outcome (Z * Z) :=
  probe_loop (S (length (pEntries h))) (tableSize h) (pEntries h) stop
    (Z.land itemHash (tableSize h - 1)) 0.

Definition stop_at_match (itemHash : Z) item (cmpFunc : P → P → Z) e : bool :=
  negb (is_tombstone e) && (hashValue e =? itemHash) && (cmpFunc (data e) item =? 0).

(** The branch of [mzHashTableLookup] that adds [item] at the empty slot. *)
Definition add_at h (idx itemHash : Z) item : outcome (HashTable P W) :=
  entries ← wr (pEntries h) idx (mk_entry itemHash item);
  n ← int_ok (numEntries h + 1);
  let h := mk_table (tableSize h) n (numDeadEntries h) entries (freeFunc h) in
  load ← int_ok (numEntries h + numDeadEntries h) ≫= (λ z, int_ok (z * LOAD_DENOM));
  limit ← int_ok (tableSize h * LOAD_NUMER);
  h ← (if limit <? load then
         newSize ← int_ok (tableSize h * 2);
         r ← resizeHash h newSize;
         of_option Aborted r
       else mret h);
  _ ← c_assert (numEntries h <? tableSize h);
  mret h.

Definition mzHashTableLookup h (itemHash : Z) item (cmpFunc : P → P → Z) (doAdd : bool)
    : outcome (P * HashTable P W) :=
  _ ← c_assert (0 <? tableSize h);
  _ ← c_assert (bool_decide (item ≠ tombstone));
  _ ← c_assert (bool_decide (item ≠ null));
  '(idx, _) ← probe h (stop_at_match itemHash item cmpFunc) itemHash;
  e ← rd (pEntries h) idx;
  if is_null e then
    if doAdd then h ← add_at h idx itemHash item; mret (item, h)
    else mret (null, h)
  else mret (data e, h).

Definition mzHashTableRemove h (itemHash : Z) item : outcome (bool * HashTable P W) :=
  _ ← c_assert (0 <? tableSize h);
  '(idx, _) ← probe h (λ e, bool_decide (data e = item)) itemHash;
  if idx =? tableSize h then mret (false, h)
  else
    e ← rd (pEntries h) idx;
    if is_null e then mret (false, h)
    else
      entries ← wr (pEntries h) idx (mk_entry (hashValue e) tombstone);
      mret (true, mk_table (tableSize h) (numEntries h - 1) (numDeadEntries h + 1)
                    entries (freeFunc h)).

(** [func] may change the state [A] behind its [arg]. *)
Fixpoint foreach_slots {A} (func : P → A → Z * A) (l : list (HashEntry P)) (arg : A) : Z * A :=
  match l with
  | [] => (0, arg)
  | e :: l =>
      if is_live e then
        let '(val, arg) := func (data e) arg in
        if val =? 0 then foreach_slots func l arg else (val, arg)
      else foreach_slots func l arg
  end.
Definition mzHashForeach {A} h (func : P → A → Z * A) (arg : A) : Z * A :=
  foreach_slots func (pEntries h) arg.

Definition mzHashTableNumEntries h : Z := numEntries h.
Definition mzHashTableMemUsage h : Z := s32 (u32 (sizeof_HashTable + tableSize h * 8)).

(** Iterators: the index is the only field that changes. *)
Fixpoint iter_skip (n : nat) h (i : Z) : outcome Z :=
  match n with
  | O => mret i
  | S n =>
      if i <? tableSize h then
        e ← rd (pEntries h) i;
        if is_live e then mret i else iter_skip n h (i + 1)
      else mret i
  end.
Definition mzHashIterNext h (idx : Z) : outcome Z :=
  iter_skip (Z.to_nat (tableSize h - idx)) h (idx + 1).
Definition mzHashIterBegin h : outcome Z := mzHashIterNext h (-1).
Definition mzHashIterDone h (idx : Z) : bool := tableSize h <=? idx.
Definition mzHashIterData h (idx : Z) : outcome P :=
  _ ← c_assert ((0 <=? idx) && (idx <? tableSize h));
  e ← rd (pEntries h) idx;
  mret (data e).

Definition countProbes h (itemHash : Z) item (cmpFunc : P → P → Z) : outcome Z :=
  _ ← c_assert (0 <? tableSize h);
  _ ← c_assert (bool_decide (item ≠ tombstone));
  _ ← c_assert (bool_decide (item ≠ null));
  '(idx, count) ← probe h (stop_at_match itemHash item cmpFunc) itemHash;
  e ← rd (pEntries h) idx;
  if is_null e then mret (-1) else mret count.

(** What [mzHashTableProbeCount] logs: the number of entries and the least, the
    largest and the total number of probes. *)
Record ProbeStats := mk_stats { ps_entries : Z; ps_min : Z; ps_max : Z; ps_total : Z }.

Fixpoint probe_count_loop (fuel : nat) h (calcFunc : P → Z) (cmpFunc : P → P → Z)
    (idx : Z) (s : ProbeStats) : outcome ProbeStats :=
  match fuel with
  | O => Diverge
  | S fuel =>
      if mzHashIterDone h idx then mret s
      else
        item ← mzHashIterData h idx;
        count ← countProbes h (calcFunc item) item cmpFunc;
        idx ← mzHashIterNext h idx;
        probe_count_loop fuel h calcFunc cmpFunc idx
          (mk_stats (ps_entries s + 1)
            (if count <? ps_min s then count else ps_min s)
            (if ps_max s <? count then count else ps_max s)
            (ps_total s + count))
  end.
Definition mzHashTableProbeCount h (calcFunc : P → Z) (cmpFunc : P → P → Z) : outcome ProbeStats :=
  idx ← mzHashIterBegin h;
  probe_count_loop (S (S (length (pEntries h)))) h calcFunc cmpFunc idx
    (mk_stats 0 (65536 * 32767) 0 0).
End operations.

(** ** The invariant of a table *)
Section invariant.
Context {P W : Type} `{HashPtr P}.
Implicit Types (h : HashTable P W) (e : HashEntry P) (l : list (HashEntry P)) (item : P).

(** The entries a table holds: hash value and item, in slot order. *)
Definition slot_item e : option (Z * P) :=
  if is_live e then Some (hashValue e, data e) else None.
Definition contents l : list (Z * P) := omap slot_item l.

(** The slot at distance [d] behind the one that the hash value selects. *)
Definition slot l (size x : Z) : option (HashEntry P) := l !! Z.to_nat (x mod size).

Definition occupied l (size x : Z) : Prop :=
  ∃ e, slot l size x = Some e ∧ is_null e = false.

(** Slot [i] is reachable from [hv] over slots that are not empty. *)
Definition chained l (size hv i : Z) : Prop :=
  ∃ d, 0 ≤ d < size ∧ (hv + d) mod size = i ∧ ∀ m, 0 ≤ m < d → occupied l size (hv + m).

Definition table_size (size : Z) : Prop := ∃ k, 0 ≤ k ≤ 28 ∧ size = 2 ^ k.

Record array_ok l (size : Z) : Prop := {
  ao_size : table_size size;
  ao_len : zlen l = size;
  ao_chain : ∀ i e, l !! i = Some e → is_live e = true →
    0 ≤ hashValue e < 2 ^ 32 ∧ chained l size (hashValue e) (Z.of_nat i)
}.

Record hash_inv h : Prop := {
  hi_array : array_ok (pEntries h) (tableSize h);
  hi_entries : numEntries h = zlen (contents (pEntries h));
  hi_dead : numDeadEntries h = countTombStones (pEntries h);
  hi_load : (numEntries h + numDeadEntries h) * LOAD_DENOM ≤ tableSize h * LOAD_NUMER
}.

Lemma table_size_pos size : table_size size → 0 < size ≤ 2 ^ 28.
Proof.
  intros (k & Hk & ->). split; [lia|]. apply Z.pow_le_mono_r; lia.
Qed.

Lemma table_size_mask size x : table_size size → Z.land x (size - 1) = x mod size.
Proof. intros (k & Hk & ->). apply land_pow2_minus_1. lia. Qed.

Lemma table_size_double size : table_size size → size ≤ 2 ^ 27 → table_size (size * 2).
Proof.
  intros (k & Hk & ->) Hle. exists (k + 1). rewrite Z.pow_add_r by lia. split; [|lia].
  split; [lia|]. destruct (decide (k ≤ 27)); [lia|].
  replace k with 28 in Hle by lia. done.
Qed.

(** Hash values of 32 bits select the same slot whether signed or not. *)
Lemma table_size_s32 size x : table_size size → s32 x mod size = x mod size.
Proof.
  intros (k & Hk & ->). unfold s32.
  replace (2 ^ 32) with (2 ^ k * 2 ^ (32 - k)) by (rewrite <- Z.pow_add_r by lia; f_equal; lia).
  replace (2 ^ 31) with (2 ^ (31 - k) * 2 ^ k) by (rewrite <- Z.pow_add_r by lia; f_equal; lia).
  assert (0 < 2 ^ k) by lia. assert (0 < 2 ^ (32 - k)) by lia.
  rewrite (Z.rem_mul_r _ (2 ^ k)) by lia.
  set (q := _ mod 2 ^ (32 - k)).
  replace (_ - _) with ((x + 2 ^ (31 - k) * 2 ^ k) mod 2 ^ k + (q - 2 ^ (31 - k)) * 2 ^ k) by lia.
  by rewrite Z.mod_add, Z.mod_mod, Z.mod_add by lia.
Qed.

Lemma live_not_null e : is_live e = true → is_null e = false.
Proof. unfold is_live. by destruct (is_null e). Qed.

Lemma null_not_live e : is_null e = true → is_live e = false.
Proof. unfold is_live. by intros ->. Qed.

Lemma null_no_tombstone e : is_null e = true → is_tombstone e = false.
Proof.
  unfold is_null, is_tombstone. rewrite bool_decide_eq_true, bool_decide_eq_false.
  intros ->. apply null_not_tombstone.
Qed.

Lemma contents_app l1 l2 : contents (l1 ++ l2) = contents l1 ++ contents l2.
Proof. apply omap_app. Qed.

Lemma contents_cons e l :
  contents (e :: l) = (if is_live e then [(hashValue e, data e)] else []) ++ contents l.
Proof. unfold contents. simpl. unfold slot_item. by destruct (is_live e). Qed.

Lemma elem_of_contents l hv item :
  (hv, item) ∈ contents l ↔ ∃ i e, l !! i = Some e ∧ is_live e = true ∧ e = mk_entry hv item.
Proof.
  unfold contents. rewrite list_elem_of_omap. split.
  - intros (e & [i Hi]%list_elem_of_lookup & He). exists i, e.
    unfold slot_item in He. destruct (is_live e) eqn:?; [|done].
    destruct e. by simplify_eq/=.
  - intros (i & e & Hi & Hl & ->). exists (mk_entry hv item).
    split; [apply list_elem_of_lookup; eauto|]. unfold slot_item. by rewrite Hl.
Qed.

Lemma countTombStones_app l1 l2 :
  countTombStones (l1 ++ l2) = countTombStones l1 + countTombStones l2.
Proof. unfold countTombStones. rewrite filter_app, length_app. lia. Qed.

Lemma countTombStones_cons e l :
  countTombStones (e :: l) = (if is_tombstone e then 1 else 0) + countTombStones l.
Proof.
  unfold countTombStones. rewrite filter_cons.
  destruct (is_tombstone e); simpl; lia.
Qed.

(** Every slot is empty, a tombstone, or holds an entry. *)
Lemma count_slots l :
  zlen l = zlen (filter is_null l) + zlen (contents l) + countTombStones l.
Proof.
  induction l as [|e l IH]; [done|].
  rewrite countTombStones_cons, contents_cons, length_app, filter_cons.
  unfold is_live. pose proof (null_no_tombstone e).
  destruct (is_null e) eqn:?, (is_tombstone e) eqn:?; simpl in *; try lia.
Qed.

Lemma exists_null l :
  zlen (contents l) + countTombStones l < zlen l →
  ∃ i e, l !! i = Some e ∧ is_null e = true.
Proof.
  intros Hlt. pose proof (count_slots l).
  destruct (filter is_null l) as [|e l'] eqn:Hf; [simpl in *; lia|].
  assert (He : e ∈ filter is_null l) by (rewrite Hf; constructor).
  apply list_elem_of_filter in He as [Hn [i Hi]%list_elem_of_lookup].
  exists i, e. split; [done|]. by destruct (is_null e).
Qed.

Lemma inv_has_null h : hash_inv h → ∃ i e, pEntries h !! i = Some e ∧ is_null e = true.
Proof.
  intros [[Hsize Hlen _] Hn Hd Hload]. apply exists_null.
  pose proof (table_size_pos _ Hsize). unfold LOAD_DENOM, LOAD_NUMER in *. lia.
Qed.

Lemma slot_bounds l size x : 0 < size → zlen l = size → ∃ e, slot l size x = Some e.
Proof.
  intros ??. apply lookup_lt_is_Some_2. pose proof (Z.mod_pos_bound x size). lia.
Qed.

Lemma slot_index l size i e :
  0 < size → zlen l = size → l !! i = Some e → slot l size (Z.of_nat i) = Some e.
Proof.
  intros ?? Hi. pose proof (lookup_lt_Some _ _ _ Hi).
  unfold slot. by rewrite Z.mod_small, Nat2Z.id by lia.
Qed.

(** Going round the table from [hv] meets every slot. *)
Lemma round_trip size hv i :
  0 < size → 0 ≤ i < size →
  ∃ d, 0 ≤ d < size ∧ (hv + d) mod size = i.
Proof.
  intros Hs Hi. exists ((i - hv) mod size). split; [by apply Z.mod_pos_bound|].
  rewrite Z.add_mod_idemp_r, Zplus_minus by lia. by apply Z.mod_small.
Qed.

Lemma rd_slot l size x e : 0 < size → slot l size x = Some e → rd l (x mod size) = Ret e.
Proof. intros ??. apply rd_Some. split; [apply Z.mod_pos_bound; lia|done]. Qed.
End invariant.

(** ** Probing *)
Section probing.
Context {P W : Type} `{HashPtr P}.
Implicit Types (h : HashTable P W) (e : HashEntry P) (l : list (HashEntry P)).
Implicit Types (stop : HashEntry P → bool).

Definition halts stop e : bool := is_null e || stop e.

(** The loop runs over slots that do not halt it, to the first that does. *)
Lemma probe_loop_walk stop l size hv (n : nat) : ∀ d fuel count,
  0 < size → zlen l = size → 1 < size ∨ n = O →
  (∀ m, 0 ≤ m < Z.of_nat n → ∃ e, slot l size (hv + d + m) = Some e ∧ halts stop e = false) →
  (∃ e, slot l size (hv + d + Z.of_nat n) = Some e ∧ halts stop e = true) →
  (n < fuel)%nat →
  probe_loop fuel size l stop ((hv + d) mod size) count =
    Ret ((hv + d + Z.of_nat n) mod size, count + Z.of_nat n).
Proof.
  induction n as [|n IH]; intros d fuel count Hs Hl Hn Hwalk Hend Hf;
    (destruct fuel as [|fuel]; [lia|]); cbn [probe_loop].
  - destruct Hend as (e & He & Hh). rewrite Z.add_0_r in He.
    rewrite (rd_slot _ _ _ e), !Z.add_0_r by (lia || done).
    unfold halts in Hh. cbn [mbind outcome_bind].
    destruct (is_null e); [done|]. simpl in Hh. by rewrite Hh.
  - destruct (Hwalk 0) as (e & He & Hh); [lia|]. rewrite Z.add_0_r in He.
    rewrite (rd_slot _ _ _ e) by (lia || done).
    unfold halts in Hh. apply orb_false_iff in Hh as [Hnull Hstop].
    cbn [mbind outcome_bind]. rewrite Hnull, Hstop.
    assert (Hnext : (if (hv + d) mod size + 1 =? size then 0 else (hv + d) mod size + 1)
              = (hv + (d + 1)) mod size).
    { rewrite Z.add_assoc, <- (Z.add_mod_idemp_l (hv + d)) by lia.
      pose proof (Z.mod_pos_bound (hv + d) size).
      destruct (Z.eqb_spec ((hv + d) mod size + 1) size) as [->|].
      - by rewrite Z.mod_same by lia.
      - symmetry. apply Z.mod_small. lia. }
    assert (Hrest : probe_loop fuel size l stop ((hv + (d + 1)) mod size) (count + 1) =
      Ret ((hv + d + Z.of_nat (S n)) mod size, count + Z.of_nat (S n))).
    { rewrite IH; [f_equal; f_equal; [f_equal; lia|lia]|done|done|lia| | |lia].
      - intros m Hm. destruct (Hwalk (m + 1)) as (e' & He' & ?); [lia|].
        exists e'. split; [|done]. rewrite <- He'. f_equal. lia.
      - destruct Hend as (e' & He' & ?). exists e'. split; [|done].
        rewrite <- He'. f_equal. lia. }
    rewrite <- Hnext in Hrest.
    destruct (Z.eqb_spec ((hv + d) mod size + 1) size); [|exact Hrest].
    destruct (Z.eqb_spec size 1); [lia|exact Hrest].
Qed.

(** In a table with an empty slot the probe ends at the first slot that halts
    it, at a distance below the size of the table. *)
Lemma probe_spec stop h hv :
  table_size (tableSize h) → zlen (pEntries h) = tableSize h →
  (∃ i e, pEntries h !! i = Some e ∧ is_null e = true) →
  ∃ n e, 0 ≤ n < tableSize h ∧
    probe h stop hv = Ret ((hv + n) mod tableSize h, n) ∧
    slot (pEntries h) (tableSize h) (hv + n) = Some e ∧ halts stop e = true ∧
    ∀ m, 0 ≤ m < n → ∃ e', slot (pEntries h) (tableSize h) (hv + m) = Some e' ∧
      halts stop e' = false.
Proof.
  intros Hsize Hlen (i & e & Hi & Hnull).
  pose proof (table_size_pos _ Hsize) as Hpos. pose proof (lookup_lt_Some _ _ _ Hi).
  destruct (round_trip (tableSize h) hv (Z.of_nat i)) as (d & Hd & Hdi); [lia|lia|].
  set (stops := λ n : nat, match slot (pEntries h) (tableSize h) (hv + Z.of_nat n) with
    | Some e => halts stop e = true | None => False end).
  assert (Hdec : ∀ n, Decision (stops n)).
  { intros n. unfold stops. case_match; apply _. }
  destruct (least_nat stops (Z.to_nat d)) as (n & Hn & Hstop & Hmin).
  { unfold stops, slot. rewrite Z2Nat.id, Hdi, Nat2Z.id, Hi by lia.
    unfold halts. by rewrite Hnull. }
  unfold stops in Hstop.
  destruct (slot _ _ (hv + Z.of_nat n)) as [e'|] eqn:He'; [|done].
  assert (Hwalk : ∀ m, 0 ≤ m < Z.of_nat n → ∃ e0,
    slot (pEntries h) (tableSize h) (hv + m) = Some e0 ∧ halts stop e0 = false).
  { intros m Hm. destruct (slot_bounds (pEntries h) (tableSize h) (hv + m)) as [e0 He0];
      [lia|done|].
    exists e0. split; [done|]. specialize (Hmin (Z.to_nat m)).
    unfold stops in Hmin. rewrite Z2Nat.id, He0 in Hmin by lia.
    destruct (halts stop e0); [|done]. destruct Hmin; [lia|done]. }
  exists (Z.of_nat n), e'. repeat split; try done; try lia.
  unfold probe. rewrite table_size_mask by done.
  rewrite <- (Z.add_0_r hv) at 1.
  rewrite (probe_loop_walk _ _ _ _ n); rewrite ?Z.add_0_r; try done; try lia; eauto.
Qed.

(** An entry whose slot is reachable is not missed: the probe stops at it or
    before it. *)
Lemma probe_not_past stop l size hv i e n :
  chained l size hv i → slot l size i = Some e → stop e = true →
  0 ≤ i < size →
  (∀ m, 0 ≤ m < n → ∃ e', slot l size (hv + m) = Some e' ∧ halts stop e' = false) →
  ∃ d, n ≤ d < size ∧ (hv + d) mod size = i ∧ ∀ m, 0 ≤ m < d → occupied l size (hv + m).
Proof.
  intros (d & Hd & Hdi & Hocc) He Hstop Hi Hwalk. exists d. split; [|done].
  split; [|lia]. destruct (decide (n ≤ d)) as [|Hlt]; [done|].
  destruct (Hwalk d) as (e' & He' & Hh); [lia|].
  unfold slot in *. rewrite Hdi in He'. rewrite Z.mod_small in He by lia.
  simplify_eq. unfold halts in Hh. by rewrite Hstop, orb_true_r in Hh.
Qed.
End probing.

(** ** Updating one slot *)
Section updates.
Context {P W : Type} `{HashPtr P}.
Implicit Types (h : HashTable P W) (e : HashEntry P) (l : list (HashEntry P)).

Lemma occupied_insert l size x i e :
  is_null e = false → occupied l size x → occupied (<[i := e]> l) size x.
Proof.
  intros He (e' & Hx & Hn). unfold occupied, slot in *.
  destruct (decide (i = Z.to_nat (x mod size))) as [->|].
  - exists e. split; [|done]. apply list_lookup_insert_eq. by eapply lookup_lt_Some.
  - exists e'. by rewrite list_lookup_insert_ne.
Qed.

Lemma chained_insert l size hv j i e :
  is_null e = false → chained l size hv j → chained (<[i := e]> l) size hv j.
Proof.
  intros He (d & Hd & Hj & Hocc). exists d. split; [done|]. split; [done|].
  intros m Hm. by apply occupied_insert, Hocc.
Qed.

Lemma array_ok_insert l size i e :
  array_ok l size → is_null e = false →
  (is_live e = true → 0 ≤ hashValue e < 2 ^ 32 ∧ chained l size (hashValue e) (Z.of_nat i)) →
  array_ok (<[i := e]> l) size.
Proof.
  intros [Hs Hl Hc] He Hnew. split; [done|by rewrite length_insert|].
  intros j e' Hj Hlive.
  destruct (decide (i = j)) as [->|].
  - apply list_lookup_insert_Some in Hj as [(_ & -> & _)|[? _]]; [|done].
    destruct (Hnew Hlive). split; [done|]. by apply chained_insert.
  - rewrite list_lookup_insert_ne in Hj by done.
    destruct (Hc j e' Hj Hlive). split; [done|]. by apply chained_insert.
Qed.

Lemma contents_fill l i e0 e :
  l !! i = Some e0 → is_null e0 = true → is_live e = true →
  contents (<[i := e]> l) ≡ₚ (hashValue e, data e) :: contents l ∧
  countTombStones (<[i := e]> l) = countTombStones l.
Proof.
  intros Hi Hn Hl. destruct (lookup_split _ _ _ Hi) as (l1 & l2 & -> & <- & ->).
  rewrite !contents_app, !contents_cons, !countTombStones_app, !countTombStones_cons.
  rewrite Hl, (null_not_live e0), (null_no_tombstone e0) by done.
  unfold is_live in Hl. apply andb_true_iff in Hl as [_ Ht%negb_true_iff].
  rewrite Ht. split; [|lia]. symmetry. apply Permutation_middle.
Qed.

Lemma contents_bury l i e :
  l !! i = Some e → is_live e = true →
  contents l ≡ₚ (hashValue e, data e) :: contents (<[i := mk_entry (hashValue e) tombstone]> l) ∧
  countTombStones (<[i := mk_entry (hashValue e) tombstone]> l) = countTombStones l + 1.
Proof.
  intros Hi Hl. destruct (lookup_split _ _ _ Hi) as (l1 & l2 & -> & <- & ->).
  rewrite !contents_app, !contents_cons, !countTombStones_app, !countTombStones_cons.
  rewrite Hl. unfold is_live in Hl.
  apply andb_true_iff in Hl as [_ Ht%negb_true_iff]. rewrite Ht.
  assert (Htt : is_tombstone (mk_entry (hashValue e) tombstone) = true)
    by by apply bool_decide_eq_true.
  unfold is_live. rewrite Htt, andb_false_r. simpl. split; [|lia].
  symmetry. apply Permutation_middle.
Qed.

(** ** Rehashing into a fresh array *)
Lemma probe_new_eq l size fuel : ∀ idx c,
  table_size size → 1 < size → 0 ≤ idx < size →
  probe_new fuel l size idx = fst <$> probe_loop fuel size l (λ _, false) idx c.
Proof.
  induction fuel as [|fuel IH]; intros idx c Hs H1 Hidx; [done|]. simpl.
  destruct (rd l idx) as [e| |]; [|done..]. cbn [mbind outcome_bind].
  destruct (is_null e); [done|].
  rewrite table_size_mask by done.
  destruct (Z.eqb_spec (idx + 1) size) as [->|].
  - destruct (Z.eqb_spec size 1); [lia|]. rewrite Z.mod_same by lia. apply IH; done || lia.
  - rewrite Z.mod_small by lia. apply IH; done || lia.
Qed.

Lemma array_ok_empty size :
  table_size size → array_ok (replicate (Z.to_nat size) (mk_entry 0 null)) size.
Proof.
  intros Hs. pose proof (table_size_pos _ Hs). split; [done|rewrite length_replicate; lia|].
  intros i e [-> _]%lookup_replicate Hl. unfold is_live, is_null in Hl. simpl in Hl.
  by rewrite bool_decide_true in Hl.
Qed.

Lemma contents_empty n : contents (replicate n (mk_entry 0 null)) = [].
Proof.
  induction n as [|n IH]; [done|]. cbn [replicate]. rewrite contents_cons, IH. unfold is_live, is_null. simpl.
  by rewrite bool_decide_true.
Qed.

Lemma countTombStones_empty n : countTombStones (replicate n (mk_entry 0 null)) = 0.
Proof.
  induction n as [|n IH]; [done|]. cbn [replicate]. rewrite countTombStones_cons, IH.
  rewrite null_no_tombstone; [done|]. by apply bool_decide_eq_true.
Qed.

Lemma reinsert_spec size new e :
  array_ok new size → 1 < size →
  zlen (contents new) + countTombStones new + 1 < size →
  (is_live e = true → 0 ≤ hashValue e < 2 ^ 32) →
  wp (reinsert size new e) (λ new', array_ok new' size ∧
    contents new' ≡ₚ contents [e] ++ contents new ∧ countTombStones new' = countTombStones new).
Proof.
  intros Hok H1 Hroom Hh. unfold reinsert. rewrite contents_cons.
  destruct (is_live e) eqn:Hlive; [|done]. specialize (Hh eq_refl).
  pose proof Hok as [Hs Hl Hc]. pose proof (table_size_pos _ Hs).
  destruct (probe_spec (W := unit) (λ _, false) (mk_table size 0 0 new None) (hashValue e))
    as (n & e' & Hn & Hp & He' & Hhalt & Hwalk); [done|done|apply exists_null; cbn [pEntries]; lia|].
  cbn [pEntries tableSize] in *. unfold probe in Hp. cbn [pEntries tableSize] in Hp.
  rewrite table_size_mask, table_size_s32 by done.
  rewrite table_size_mask in Hp by done.
  rewrite (probe_new_eq _ _ _ _ 0), Hp by (done || apply Z.mod_pos_bound; lia).
  cbn [fmap outcome_fmap fst mbind outcome_bind].
  unfold halts in Hhalt. rewrite orb_false_r in Hhalt.
  pose proof (Z.mod_pos_bound (hashValue e + n) size ltac:(lia)).
  rewrite wr_in_bounds by lia. cbn [wp].
  assert (Hw : u32 (s32 (hashValue e)) = hashValue e).
  { unfold u32, s32. rewrite Zminus_mod_idemp_l, Z.add_simpl_r. by apply Z.mod_small. }
  assert (Hl' : is_live (mk_entry (u32 (s32 (hashValue e))) (data e)) = true) by done.
  destruct (contents_fill _ _ _ (mk_entry (u32 (s32 (hashValue e))) (data e)) He' Hhalt Hl')
    as [Hcont Htomb].
  split; [|split; [|done]].
  - apply array_ok_insert; [done|by apply live_not_null|]. cbn [hashValue]. rewrite Hw.
    intros _. split; [done|]. exists n. rewrite Z2Nat.id by lia. split; [done|]. split; [done|].
    intros m Hm. destruct (Hwalk m Hm) as (e0 & He0 & Hh0). exists e0. split; [done|].
    unfold halts in Hh0. by rewrite orb_false_r in Hh0.
  - rewrite Hcont. simpl. by rewrite Hw.
Qed.

Lemma reinsert_all_spec size old : ∀ new,
  array_ok new size → 1 < size → countTombStones new = 0 →
  zlen (contents new) + zlen (contents old) < size →
  (∀ e, e ∈ old → is_live e = true → 0 ≤ hashValue e < 2 ^ 32) →
  wp (reinsert_all size new old) (λ new', array_ok new' size ∧
    contents new' ≡ₚ contents old ++ contents new ∧ countTombStones new' = 0).
Proof.
  induction old as [|e old IH]; intros new Hok H1 Ht Hroom Hh; [done|].
  cbn [reinsert_all]. apply wp_bind.
  rewrite contents_cons, length_app in Hroom.
  destruct (is_live e) eqn:Hlive.
  - eapply wp_mono; [apply reinsert_spec; [done|done|simpl in Hroom; lia|]|].
    { intros _. apply Hh; [constructor|done]. }
    intros new' (Hok' & Hc' & Ht'). rewrite contents_cons, Hlive in Hc'. simpl in Hc'.
    eapply wp_mono.
    + apply IH; [done|done|lia| |intros; apply Hh; [by constructor|done]].
      rewrite Hc'. simpl in *. lia.
    + intros new'' (? & Hc'' & ?). split; [done|]. split; [|done].
      rewrite Hc'', Hc', contents_cons, Hlive. simpl. symmetry. apply Permutation_middle.
  - unfold reinsert. rewrite Hlive. cbn [wp mret outcome_ret].
    eapply wp_mono.
    + apply IH; [done|done|lia|simpl in *; lia|intros; apply Hh; [by constructor|done]].
    + intros new'' (? & Hc'' & ?). by rewrite contents_cons, Hlive.
Qed.
End updates.

(** ** The operations keep the invariant and implement a bag of entries *)
Section correctness.
Context {P W : Type} `{HashPtr P}.
Implicit Types (h : HashTable P W) (e : HashEntry P) (l : list (HashEntry P)) (item : P).

Definition entries_of h : list (Z * P) := contents (pEntries h).

(** The entries that a lookup of [item] under [itemHash] accepts. *)
Definition matches (itemHash : Z) item (cmp : P → P → Z) (x : Z * P) : Prop :=
  x.1 = itemHash ∧ cmp x.2 item = 0.

#[global] Instance matches_dec itemHash item cmp x : Decision (matches itemHash item cmp x).
Proof. unfold matches. apply _. Defined.

Lemma stop_at_match_spec itemHash item cmp e :
  is_live e = true →
  stop_at_match itemHash item cmp e = true ↔ matches itemHash item cmp (hashValue e, data e).
Proof.
  unfold is_live, stop_at_match, matches. intros [_ ->]%andb_true_iff. simpl.
  by rewrite andb_true_iff, !Z.eqb_eq.
Qed.

(** A slot that stops a lookup holds an entry. *)
Lemma stop_at_match_live itemHash item cmp e :
  is_null e = false → stop_at_match itemHash item cmp e = true → is_live e = true.
Proof.
  unfold stop_at_match, is_live. intros -> [[-> _]%andb_true_iff _]%andb_true_iff. done.
Qed.

Lemma calloc_entries_ok alloc_ok size :
  table_size size → size ≤ 2 ^ 27 → alloc_ok (size * sizeof_HashTable) = true →
  calloc_entries alloc_ok size = Some (replicate (Z.to_nat size) (mk_entry 0 (@null P _))).
Proof.
  intros Hs Hle Ha. pose proof (table_size_pos _ Hs).
  unfold calloc_entries, sizeof_HashTable in *. rewrite Ha.
  rewrite (proj2 (Z.leb_le _ _)), (proj2 (Z.ltb_lt _ _)) by lia. done.
Qed.

Lemma resizeHash_spec alloc_ok h :
  table_size (tableSize h) → tableSize h ≤ 2 ^ 26 →
  array_ok (pEntries h) (tableSize h) →
  numDeadEntries h = countTombStones (pEntries h) →
  zlen (entries_of h) ≤ tableSize h →
  alloc_ok (tableSize h * 2 * sizeof_HashTable) = true →
  wp (resizeHash alloc_ok h (tableSize h * 2)) (λ r, ∃ h', r = Some h' ∧
    array_ok (pEntries h') (tableSize h') ∧ tableSize h' = tableSize h * 2 ∧
    numEntries h' = numEntries h ∧ numDeadEntries h' = 0 ∧
    entries_of h' ≡ₚ entries_of h ∧ countTombStones (pEntries h') = 0 ∧ freeFunc h' = freeFunc h).
Proof.
  intros Hs Hle Hok Hd Hn Ha. pose proof (table_size_pos _ Hs).
  assert (Hs2 : table_size (tableSize h * 2)) by (apply table_size_double; lia || done).
  unfold resizeHash. apply wp_bind, wp_assert; [by apply Z.eqb_eq|].
  rewrite calloc_entries_ok by (done || lia). apply wp_bind.
  eapply wp_mono; [apply reinsert_all_spec|].
  - by apply array_ok_empty.
  - lia.
  - apply countTombStones_empty.
  - rewrite contents_empty. cbn [length]. unfold entries_of in Hn. lia.
  - intros e [i Hi]%list_elem_of_lookup Hl. by eapply (ao_chain _ _ Hok).
  - intros new (Hok' & Hc & Ht). apply wp_bind, wp_assert; [by apply Z.eqb_eq|].
    simpl. eexists. split; [done|]. simpl. rewrite contents_empty, app_nil_r in Hc. done.
Qed.

(** Growing the table, if adding an entry requires it, is possible: the doubled
    size is within an [int] and there is memory for it. *)
Definition can_grow (alloc_ok : Z → bool) h : Prop :=
  tableSize h * LOAD_NUMER < (numEntries h + 1 + numDeadEntries h) * LOAD_DENOM →
  tableSize h ≤ 2 ^ 26 ∧ alloc_ok (tableSize h * 2 * sizeof_HashTable) = true.

Lemma below_load_can_grow alloc_ok h :
  (numEntries h + 1 + numDeadEntries h) * LOAD_DENOM ≤ tableSize h * LOAD_NUMER →
  can_grow alloc_ok h.
Proof. unfold can_grow. lia. Qed.

Lemma add_at_spec alloc_ok h (i itemHash : Z) item e :
  hash_inv h → can_grow alloc_ok h →
  0 ≤ i → pEntries h !! Z.to_nat i = Some e → is_null e = true →
  0 ≤ itemHash < 2 ^ 32 → chained (pEntries h) (tableSize h) itemHash i →
  item ≠ null → item ≠ tombstone →
  wp (add_at alloc_ok h i itemHash item) (λ h', hash_inv h' ∧
    entries_of h' ≡ₚ (itemHash, item) :: entries_of h ∧ freeFunc h' = freeFunc h ∧
    tableSize h ≤ tableSize h' ≤ tableSize h * 2).
Proof.
  intros [Hok Hn Hd Hload] Hgrow Hi He Hnull Hh Hch Hin Hit. unfold can_grow in Hgrow.
  pose proof Hok as [Hs Hl _]. pose proof (table_size_pos _ Hs).
  pose proof (lookup_lt_Some _ _ _ He).
  assert (Hlive : is_live (mk_entry itemHash item) = true).
  { unfold is_live, is_null, is_tombstone. simpl. by rewrite !bool_decide_false. }
  destruct (contents_fill _ _ _ (mk_entry itemHash item) He Hnull Hlive) as [Hc Ht].
  simpl in Hc.
  assert (Hok' : array_ok (<[Z.to_nat i := mk_entry itemHash item]> (pEntries h)) (tableSize h)).
  { apply array_ok_insert; [done|by apply live_not_null|]. intros _. simpl. by rewrite Z2Nat.id. }
  assert (Hnum : numEntries h + 1 =
    zlen (contents (<[Z.to_nat i := mk_entry itemHash item]> (pEntries h)))).
  { rewrite Hc. simpl. lia. }
  assert (0 ≤ numDeadEntries h) by (rewrite Hd; unfold countTombStones; lia).
  unfold LOAD_DENOM, LOAD_NUMER in *.
  unfold add_at. rewrite wr_in_bounds by lia. cbn [mbind outcome_bind].
  unfold LOAD_DENOM, LOAD_NUMER.
  repeat (rewrite int_ok_small by lia;
    cbn [mbind outcome_bind numEntries numDeadEntries tableSize]).
  apply wp_bind. destruct (Z.ltb_spec (tableSize h * 5) ((numEntries h + 1 + numDeadEntries h) * 8)).
  - destruct (Hgrow ltac:(done)) as [Hle Ha].
    apply wp_bind. set (h1 := mk_table _ _ _ _ _).
    eapply wp_mono; [apply (resizeHash_spec alloc_ok h1); simpl; try done; try lia|].
    { unfold entries_of. simpl. lia. }
    intros r (h' & -> & Hok2 & Hsz & Hn2 & Hd2 & Hc2 & Ht2 & Hf2). simpl in *.
    apply wp_bind, wp_assert; [apply Z.ltb_lt; lia|]. simpl.
    assert (Hlen : zlen (contents (pEntries h')) = numEntries h + 1).
    { unfold entries_of in Hc2. rewrite Hc2. simpl. lia. }
    split; [split; unfold LOAD_DENOM, LOAD_NUMER; [done|lia|lia|lia]|].
    split; [by rewrite Hc2|]. split; [done|]. lia.
  - simpl. apply wp_bind, wp_assert; [apply Z.ltb_lt; lia|]. simpl.
    split; [split; simpl; unfold LOAD_DENOM, LOAD_NUMER; [done|lia|lia|lia]|].
    split; [done|]. split; [done|]. lia.
Qed.

(** Where a probe for a match ends: at a match, or at an empty slot when there
    is none. *)
Lemma probe_match h itemHash item cmp :
  hash_inv h →
  ∃ i c e, 0 ≤ i < tableSize h ∧
    probe h (stop_at_match itemHash item cmp) itemHash = Ret (i, c) ∧ 0 ≤ c < tableSize h ∧
    pEntries h !! Z.to_nat i = Some e ∧
    if is_null e
    then chained (pEntries h) (tableSize h) itemHash i ∧
      ∀ x, x ∈ entries_of h → ¬ matches itemHash item cmp x
    else matches itemHash item cmp (hashValue e, data e) ∧ (hashValue e, data e) ∈ entries_of h.
Proof.
  intros Hinv. pose proof Hinv as [[Hs Hl Hc] _ _ _]. pose proof (table_size_pos _ Hs).
  destruct (probe_spec (stop_at_match itemHash item cmp) h itemHash Hs Hl (inv_has_null h Hinv))
    as (n & e & Hn & Hp & He & Hh & Hwalk).
  exists ((itemHash + n) mod tableSize h), n, e.
  split; [apply Z.mod_pos_bound; lia|]. split; [done|]. split; [done|]. split; [done|].
  unfold halts in Hh. destruct (is_null e) eqn:Hnull.
  - split.
    { exists n. split; [done|]. split; [done|]. intros m Hm.
      destruct (Hwalk m Hm) as (e' & He' & Hh'). exists e'. split; [done|].
      by apply orb_false_iff in Hh' as [? _]. }
    intros [hv p] (i & e' & Hi & Hlive & ->)%elem_of_contents Hmatch.
    pose proof (lookup_lt_Some _ _ _ Hi).
    destruct (Hc _ _ Hi Hlive) as [_ Hch]. simpl in Hch.
    assert (hv = itemHash) as -> by apply Hmatch.
    destruct (probe_not_past (stop_at_match itemHash item cmp) (pEntries h) (tableSize h)
      itemHash (Z.of_nat i) (mk_entry itemHash p) n Hch) as (d & Hd & Hdi & Hocc).
    + apply slot_index; [lia|lia|done].
    + by apply stop_at_match_spec.
    + lia.
    + done.
    + destruct (decide (n = d)) as [->|].
      * unfold slot in He. rewrite Hdi, Nat2Z.id, Hi in He. simplify_eq.
        apply live_not_null in Hlive. congruence.
      * destruct (Hocc n) as (e0 & He0 & Hn0); [lia|]. congruence.
  - simpl in Hh. pose proof (stop_at_match_live _ _ _ _ Hnull Hh) as Hlive.
    split; [by apply stop_at_match_spec|].
    apply elem_of_contents. unfold slot in He. eexists _, e. split; [done|].
    split; [done|]. by destruct e.
Qed.

Lemma probe_pointer h itemHash item :
  hash_inv h → item ≠ null → item ≠ tombstone →
  ∃ i c e, 0 ≤ i < tableSize h ∧
    probe h (λ e, bool_decide (data e = item)) itemHash = Ret (i, c) ∧
    pEntries h !! Z.to_nat i = Some e ∧
    if is_null e then (itemHash, item) ∉ entries_of h else is_live e = true ∧ data e = item.
Proof.
  intros Hinv Hin Hit. pose proof Hinv as [[Hs Hl Hc] _ _ _]. pose proof (table_size_pos _ Hs).
  set (stop := λ e, bool_decide (data e = item)).
  destruct (probe_spec stop h itemHash Hs Hl (inv_has_null h Hinv))
    as (n & e & Hn & Hp & He & Hh & Hwalk).
  exists ((itemHash + n) mod tableSize h), n, e.
  split; [apply Z.mod_pos_bound; lia|]. split; [done|]. split; [done|].
  unfold halts in Hh. destruct (is_null e) eqn:Hnull.
  - intros (i & e' & Hi & Hlive & ->)%elem_of_contents.
    pose proof (lookup_lt_Some _ _ _ Hi).
    destruct (Hc _ _ Hi Hlive) as [_ Hch].
    destruct (probe_not_past stop (pEntries h) (tableSize h) itemHash (Z.of_nat i)
      (mk_entry itemHash item) n Hch) as (d & Hd & Hdi & Hocc).
    + apply slot_index; [lia|lia|done].
    + by apply bool_decide_eq_true.
    + lia.
    + done.
    + destruct (decide (n = d)) as [->|].
      * unfold slot in He. rewrite Hdi, Nat2Z.id, Hi in He. simplify_eq.
        apply live_not_null in Hlive. congruence.
      * destruct (Hocc n) as (e0 & He0 & Hn0); [lia|]. congruence.
  - simpl in Hh. apply bool_decide_eq_true in Hh. split; [|done].
    unfold is_live, is_tombstone. rewrite Hnull, Hh. by rewrite bool_decide_false.
Qed.
End correctness.

(** ** Sizes *)

(** [m] has the bits of [w] smeared over the [s - 1] lower positions. *)
Definition smeared (w s m : Z) : Prop :=
  0 ≤ m ∧ ∀ i, 0 ≤ i → Z.testbit m i = true ↔ ∃ j, 0 ≤ j < s ∧ Z.testbit w (i + j) = true.

Lemma smeared_step w s m :
  0 < s → smeared w s m → smeared w (s + s) (Z.lor m (Z.shiftr m s)).
Proof.
  intros Hs [Hm Hbits]. split; [apply Z.lor_nonneg; split; [done|by apply Z.shiftr_nonneg]|].
  intros i Hi. rewrite Z.lor_spec, Z.shiftr_spec, orb_true_iff, !Hbits by lia. split.
  - intros [(j & ? & ?)|(j & ? & ?)]; [exists j; split; [lia|done]|].
    exists (s + j). split; [lia|]. by rewrite Z.add_assoc.
  - intros (j & ? & Hj). destruct (decide (j < s)); [left; exists j; split; [lia|done]|].
    right. exists (j - s). split; [lia|]. rewrite <- Hj. f_equal. lia.
Qed.

Lemma roundUpPower2_spec v :
  0 < v ≤ 2 ^ 31 → ∃ k, 0 ≤ k ≤ 31 ∧ roundUpPower2 v = 2 ^ k ∧ v ≤ 2 ^ k < 2 * v.
Proof.
  intros Hv. unfold roundUpPower2. rewrite (u32_small (v - 1)) by lia.
  destruct (decide (v = 1)) as [->|]; [exists 0; vm_compute; intuition congruence|].
  set (w := v - 1).
  assert (H1 : smeared w 1 w).
  { split; [lia|]. intros i Hi. split.
    - intros. exists 0. rewrite Z.add_0_r. split; [lia|done].
    - intros (j & ? & Hj). by replace (i + j) with i in Hj by lia. }
  apply smeared_step in H1; [change (1 + 1) with 2 in H1|lia].
  apply smeared_step in H1; [change (2 + 2) with 4 in H1|lia].
  apply smeared_step in H1; [change (4 + 4) with 8 in H1|lia].
  apply smeared_step in H1; [change (8 + 8) with 16 in H1|lia].
  apply smeared_step in H1; [change (16 + 16) with 32 in H1|lia].
  set (m := Z.lor _ (Z.shiftr _ 16)) in *. destruct H1 as [Hm Hbits].
  assert (Hlog : 0 ≤ Z.log2 w < 31).
  { split; [apply Z.log2_nonneg|]. apply Z.log2_lt_pow2; lia. }
  assert (m = Z.ones (Z.log2 w + 1)) as ->.
  { apply Z.bits_inj'. intros i Hi. apply eq_true_iff_eq. rewrite Hbits by done.
    rewrite Z.testbit_ones_nonneg, Z.ltb_lt by lia. split.
    - intros (j & Hj & Hb). destruct (decide (Z.log2 w < i + j)); [|lia].
      rewrite Z.bits_above_log2 in Hb; [done|lia|lia].
    - intros Hlt. exists (Z.log2 w - i). split; [lia|].
      rewrite Zplus_minus. apply Z.bit_log2. lia. }
  exists (Z.log2 w + 1). rewrite Z.ones_equiv.
  pose proof (Z.log2_spec w ltac:(lia)) as Hspec. rewrite <- Z.add_1_r in Hspec.
  assert (2 ^ (Z.log2 w + 1) ≤ 2 ^ 31) by (apply Z.pow_le_mono_r; lia).
  rewrite <- Z.sub_1_r, Z.sub_add, u32_small by lia.
  rewrite Z.pow_add_r in * by lia. lia.
Qed.

(** ** Properties *)
Section properties.
Context {P W : Type} `{HashPtr P}.
Implicit Types (h : HashTable P W) (e : HashEntry P) (item : P).

Lemma lookup_spec alloc_ok h itemHash item cmp doAdd :
  hash_inv h → (doAdd = true → can_grow alloc_ok h) →
  0 ≤ itemHash < 2 ^ 32 → item ≠ null → item ≠ tombstone →
  wp (mzHashTableLookup alloc_ok h itemHash item cmp doAdd) (λ '(r, h'), hash_inv h' ∧
    if decide (Exists (matches itemHash item cmp) (entries_of h))
    then Exists (λ x, matches itemHash item cmp x ∧ r = x.2) (entries_of h) ∧ h' = h
    else if doAdd
    then r = item ∧ entries_of h' ≡ₚ (itemHash, item) :: entries_of h
    else r = null ∧ h' = h).
Proof.
  intros Hinv Hgrow Hh Hin Hit. pose proof (table_size_pos _ (ao_size _ _ (hi_array _ Hinv))).
  destruct (probe_match h itemHash item cmp Hinv) as (i & c & e & Hi & Hp & _ & He & Hend).
  unfold mzHashTableLookup. apply wp_bind, wp_assert; [apply Z.ltb_lt; lia|].
  apply wp_bind, wp_assert; [by apply bool_decide_eq_true|].
  apply wp_bind, wp_assert; [by apply bool_decide_eq_true|].
  rewrite Hp. apply wp_bind. cbn [wp]. apply wp_bind.
  rewrite (proj2 (rd_Some _ _ e)) by (split; [lia|done]). cbn [wp].
  destruct (is_null e) eqn:Hnull.
  - destruct Hend as [Hch Hno].
    destruct (decide _) as [(x & Hx & Hm)%Exists_exists|_]; [by destruct (Hno x)|].
    destruct doAdd; [|done]. apply wp_bind.
    eapply wp_mono; [eapply add_at_spec; try done; [by apply Hgrow|lia]|].
    intros h' (? & ? & _). by simpl.
  - destruct Hend as [Hm Hx].
    destruct (decide _) as [_|[]]; [|rewrite Exists_exists; eauto].
    simpl. split; [done|]. split; [|done]. rewrite Exists_exists. eauto.
Qed.

(** C31: a lookup in a well-formed table always ends, and returns an entry whose
    hash value and comparison match if the table holds one. Otherwise it
    returns NULL, or with [doAdd] adds the item to the bag of entries (growing
    the table when the load requires it) and returns it. *)
Theorem mzHashTableLookup_correct alloc_ok h itemHash item cmp doAdd :
  hash_inv h → (doAdd = true → can_grow alloc_ok h) →
  0 ≤ itemHash < 2 ^ 32 → item ≠ null → item ≠ tombstone →
  wp (mzHashTableLookup alloc_ok h itemHash item cmp doAdd) (λ '(r, h'), hash_inv h' ∧
    if decide (Exists (matches itemHash item cmp) (entries_of h))
    then Exists (λ x, matches itemHash item cmp x ∧ r = x.2) (entries_of h) ∧ h' = h
    else if doAdd
    then r = item ∧ entries_of h' ≡ₚ (itemHash, item) :: entries_of h
    else r = null ∧ h' = h).
Proof. apply lookup_spec. Qed.

(** Removing detaches exactly one entry, the one with the given pointer, and
    leaves a tombstone that keeps every other entry reachable. It reports
    [false] only when the pointer is not stored under that hash value. *)
Theorem mzHashTableRemove_correct h itemHash item :
  hash_inv h → item ≠ null → item ≠ tombstone →
  wp (mzHashTableRemove h itemHash item) (λ '(b, h'), hash_inv h' ∧
    if b then ∃ hv, entries_of h ≡ₚ (hv, item) :: entries_of h'
    else h' = h ∧ (itemHash, item) ∉ entries_of h).
Proof.
  intros Hinv Hin Hit. pose proof (table_size_pos _ (ao_size _ _ (hi_array _ Hinv))).
  destruct (probe_pointer h itemHash item Hinv Hin Hit) as (i & c & e & Hi & Hp & He & Hend).
  unfold mzHashTableRemove. apply wp_bind, wp_assert; [apply Z.ltb_lt; lia|].
  rewrite Hp. apply wp_bind. cbn [wp].
  destruct (Z.eqb_spec i (tableSize h)); [lia|]. apply wp_bind.
  rewrite (proj2 (rd_Some _ _ e)) by (split; [lia|done]). cbn [wp].
  destruct (is_null e) eqn:Hnull; [done|]. destruct Hend as [Hlive <-].
  pose proof (lookup_lt_Some _ _ _ He). rewrite wr_in_bounds by lia.
  simpl. destruct (contents_bury _ _ _ He Hlive) as [Hc Ht].
  destruct Hinv as [Hok Hn Hd Hload].
  assert (Hnew : is_null (mk_entry (hashValue e) tombstone) = false).
  { apply bool_decide_eq_false. intros Heq. by apply null_not_tombstone. }
  split; [split; simpl|].
  - apply array_ok_insert; [done|done|]. unfold is_live, is_tombstone. simpl.
    rewrite (bool_decide_true (tombstone = tombstone)), andb_false_r by done. done.
  - apply Permutation_length in Hc. simpl in Hc. lia.
  - lia.
  - lia.
  - exists (hashValue e). done.
Qed.

Lemma entries_length h : hash_inv h → zlen (entries_of h) = numEntries h.
Proof. intros [_ Hn _ _]. by rewrite Hn. Qed.

(** A client that adds a list of items. *)
Fixpoint add_all alloc_ok h (items : list (Z * P)) (cmp : P → P → Z) : outcome (HashTable P W) :=
  match items with
  | [] => mret h
  | (hv, item) :: items =>
      '(_, h) ← mzHashTableLookup alloc_ok h hv item cmp true;
      add_all alloc_ok h items cmp
  end.

Definition addable (x : Z * P) : Prop :=
  0 ≤ x.1 < 2 ^ 32 ∧ x.2 ≠ null ∧ x.2 ≠ tombstone.

(** Adding below the load limit leaves the array in place. *)
Lemma add_at_no_resize alloc_ok h i itemHash item h' :
  (numEntries h + 1 + numDeadEntries h) * LOAD_DENOM ≤ tableSize h * LOAD_NUMER →
  add_at alloc_ok h i itemHash item = Ret h' →
  tableSize h' = tableSize h ∧ numDeadEntries h' = numDeadEntries h ∧
  numEntries h' = numEntries h + 1.
Proof.
  unfold add_at. intros Hload Hrun. inv_ret.
  repeat match goal with E : int_ok _ = Ret _ |- _ => apply int_ok_inv in E as [-> _] end.
  cbn [numEntries numDeadEntries tableSize] in *.
  destruct (Z.ltb_spec (tableSize h * LOAD_NUMER)
    ((numEntries h + 1 + numDeadEntries h) * LOAD_DENOM)); [lia|].
  by inv_ret.
Qed.

Lemma lookup_no_resize alloc_ok h hv item cmp r h' :
  hash_inv h → addable (hv, item) →
  (numEntries h + 1 + numDeadEntries h) * LOAD_DENOM ≤ tableSize h * LOAD_NUMER →
  mzHashTableLookup alloc_ok h hv item cmp true = Ret (r, h') →
  tableSize h' = tableSize h ∧ numDeadEntries h' = numDeadEntries h ∧
  numEntries h' ≤ numEntries h + 1.
Proof.
  unfold mzHashTableLookup. intros Hinv (? & ? & ?) Hload Hrun.
  inv_ret. destruct a2 as [idx c]. inv_ret. destruct (is_null a2).
  - inv_ret. edestruct add_at_no_resize as (? & ? & ?); [done|done|]. lia.
  - inv_ret. lia.
Qed.

Lemma add_all_no_resize alloc_ok cmp size items : ∀ h,
  hash_inv h → tableSize h = size → numDeadEntries h = 0 →
  Forall addable items →
  (numEntries h + zlen items) * LOAD_DENOM ≤ size * LOAD_NUMER →
  wp (add_all alloc_ok h items cmp) (λ h', hash_inv h' ∧ tableSize h' = size).
Proof.
  induction items as [|[hv item] items IH]; intros h Hinv Hsz Hd Hok Hload; [done|].
  apply Forall_cons in Hok as [Hx Hok]. pose proof Hx as (? & ? & ?). simpl in *.
  pose proof (lookup_spec alloc_ok h hv item cmp true) as Hlook.
  specialize (Hlook Hinv (λ _, below_load_can_grow alloc_ok h ltac:(unfold LOAD_DENOM, LOAD_NUMER in *; lia))
    ltac:(done) ltac:(done) ltac:(done)).
  destruct (mzHashTableLookup _ _ _ _ _ _) as [[r h']| |] eqn:Hrun; try done.
  destruct Hlook as [Hinv' _]. simpl.
  destruct (lookup_no_resize alloc_ok h hv item cmp r h') as (? & ? & ?);
    rewrite ?Hsz; try done; unfold LOAD_DENOM, LOAD_NUMER in *; try lia.
  apply IH; try done; unfold LOAD_DENOM, LOAD_NUMER in *; try lia.
Qed.

(** A table made for [n] elements, unless there is no memory. *)
Lemma create_spec alloc_ok n free :
  0 ≤ n ≤ 2 ^ 24 →
  wp (mzHashTableCreate (P := P) (W := W) alloc_ok (mzHashSize n) free) (λ r, match r with
    | None => ∃ z, alloc_ok z = false
    | Some h => hash_inv h ∧ entries_of h = [] ∧ numEntries h = 0 ∧ numDeadEntries h = 0 ∧
        mzHashSize n ≤ tableSize h < 2 * mzHashSize n ∧ n * LOAD_DENOM ≤ tableSize h * LOAD_NUMER
    end).
Proof.
  intros Hn.
  assert (Hsz : mzHashSize n = n * 8 / 5 + 1).
  { unfold mzHashSize, LOAD_DENOM, LOAD_NUMER. rewrite (u32_small (n * 8)) by lia. rewrite u32_small; zdiv. }
  rewrite Hsz. assert (Hdiv : 5 * (n * 8 / 5) ≤ n * 8 < 5 * (n * 8 / 5 + 1)) by zdiv.
  unfold mzHashTableCreate. apply wp_bind, wp_assert; [apply Z.ltb_lt; lia|].
  destruct (alloc_ok sizeof_HashTable) eqn:?; simpl negb; [|simpl; eauto].
  rewrite u32_small by lia. cbn [negb].
  destruct (roundUpPower2_spec (n * 8 / 5 + 1)) as (k & Hk & -> & Hr); [lia|].
  assert (Hk28 : k ≤ 26).
  { destruct (decide (k ≤ 26)); [done|].
    assert (2 ^ 27 ≤ 2 ^ k) by (apply Z.pow_le_mono_r; lia). lia. }
  assert (2 ^ k ≤ 2 ^ 26) by (apply Z.pow_le_mono_r; lia).
  assert (Hts : table_size (2 ^ k)) by (exists k; split; [lia|done]).
  rewrite s32_small by lia.
  destruct (alloc_ok (2 ^ k * sizeof_HashTable)) eqn:Hal.
  2:{ unfold calloc_entries. rewrite Hal, andb_false_r. simpl. eauto. }
  rewrite calloc_entries_ok by (done || lia). simpl.
  unfold entries_of. simpl. rewrite contents_empty. unfold LOAD_DENOM, LOAD_NUMER.
  split; [|repeat (split; [done || lia|]); lia].
  split; simpl; [by apply array_ok_empty|by rewrite contents_empty|
      by rewrite countTombStones_empty|unfold LOAD_DENOM, LOAD_NUMER; lia].
Qed.

(** The table that [mzHashTableCreate] makes for [mzHashSize n] elements is
    well-formed and empty, and adding up to [n] items never reallocates it, as
    the comment of [mzHashSize] promises. *)
Theorem mzHashTableCreate_correct alloc_ok n free items cmp :
  0 ≤ n ≤ 2 ^ 24 → (∀ z, alloc_ok z = true) →
  Forall addable items → zlen items ≤ n →
  wp (mzHashTableCreate alloc_ok (mzHashSize n) free) (λ r, ∃ h, r = Some h ∧
    hash_inv h ∧ entries_of h = [] ∧ mzHashSize n ≤ tableSize h < 2 * mzHashSize n ∧
    wp (add_all alloc_ok h items cmp) (λ h', hash_inv h' ∧ tableSize h' = tableSize h)).
Proof.
  intros Hn Ha Hitems Hlen. eapply wp_mono; [by apply create_spec|].
  intros [h|]; [|intros [z Hz]; congruence]. intros (? & ? & ? & ? & ? & ?).
  exists h. do 4 (split; [done|]). unfold LOAD_DENOM, LOAD_NUMER in *.
  apply add_all_no_resize; try done; unfold LOAD_DENOM, LOAD_NUMER; lia.
Qed.

(** Clearing a table empties it, keeps it well-formed, and calls the free
    function once on every entry, in slot order. *)
Theorem mzHashTableClear_correct h w :
  hash_inv h →
  let r := mzHashTableClear h w in
  hash_inv r.1 ∧ entries_of r.1 = [] ∧ tableSize r.1 = tableSize h ∧
  r.2 = match freeFunc h with
       | Some free => foldl (λ w x, free x.2 w) w (entries_of h)
       | None => w
       end.
Proof.
  intros [[Hs Hl _] _ _ _]. pose proof (table_size_pos _ Hs). unfold mzHashTableClear, entries_of; cbv zeta.
  assert (Hclear : ∀ free (l : list (HashEntry P)) (w : W), clear_slots free l w =
    ((λ e, mk_entry (hashValue e) null) <$> l,
     match free with Some f => foldl (λ w x, f x.2 w) w (contents l) | None => w end)).
  { clear. intros free l. induction l as [|e l IH]; intros w; [by destruct free|].
    cbn [clear_slots]. rewrite IH, contents_cons, fmap_cons. unfold is_live. destruct (is_tombstone e), (is_null e), free; done. }
  rewrite Hclear. simpl.
  assert (Hnull : ∀ e0 : HashEntry P, is_null (mk_entry (hashValue e0) null) = true)
    by (intros; by apply bool_decide_eq_true).
  assert (Hc : ∀ l : list (HashEntry P), contents ((λ e, mk_entry (hashValue e) null) <$> l) = [] ∧
    countTombStones ((λ e, mk_entry (hashValue e) null) <$> l) = 0).
  { intros l. induction l as [|e l [IH1 IH2]]; [done|].
    rewrite fmap_cons, contents_cons, countTombStones_cons, IH1, IH2.
    by rewrite null_not_live, null_no_tombstone by done. }
  destruct (Hc (pEntries h)) as [Hc1 Hc2].
  split; [split; simpl; rewrite ?Hc1, ?Hc2; unfold LOAD_DENOM, LOAD_NUMER; try done; try lia|done].
  split; [done|by rewrite length_fmap|].
  intros i e Hi Hlive. apply list_lookup_fmap_Some in Hi as (e' & -> & _).
  by rewrite null_not_live in Hlive.
Qed.

(** : [countProbes] is -1 exactly when a lookup would find nothing, and
    otherwise counts the slots stepped over, fewer than the table has. *)
Theorem countProbes_correct h itemHash item cmp :
  hash_inv h → item ≠ null → item ≠ tombstone →
  wp (countProbes h itemHash item cmp) (λ c,
    if decide (Exists (matches itemHash item cmp) (entries_of h))
    then 0 ≤ c < tableSize h else c = -1).
Proof.
  intros Hinv Hin Hit. pose proof (table_size_pos _ (ao_size _ _ (hi_array _ Hinv))).
  destruct (probe_match h itemHash item cmp Hinv) as (i & c & e & Hi & Hp & Hc & He & Hend).
  unfold countProbes. apply wp_bind, wp_assert; [apply Z.ltb_lt; lia|].
  apply wp_bind, wp_assert; [by apply bool_decide_eq_true|].
  apply wp_bind, wp_assert; [by apply bool_decide_eq_true|].
  rewrite Hp. apply wp_bind. cbn [wp]. apply wp_bind.
  rewrite (proj2 (rd_Some _ _ e)) by (split; [lia|done]). cbn [wp].
  destruct (is_null e); simpl.
  - destruct (decide _) as [(x & Hx & Hm)%Exists_exists|_]; [|done].
    destruct Hend as [_ Hno]. by destruct (Hno x).
  - destruct (decide _) as [_|[]]; [done|]. rewrite Exists_exists. destruct Hend; eauto.
Qed.

Lemma iter_skip_spec h n : ∀ i,
  zlen (pEntries h) = tableSize h → 0 ≤ i ≤ tableSize h → tableSize h - i ≤ Z.of_nat n →
  ∃ j, iter_skip n h i = Ret j ∧ i ≤ j ≤ tableSize h ∧
    contents (drop (Z.to_nat i) (pEntries h)) = contents (drop (Z.to_nat j) (pEntries h)) ∧
    (j = tableSize h ∨ ∃ e, pEntries h !! Z.to_nat j = Some e ∧ is_live e = true).
Proof.
  induction n as [|n IH]; intros i Hl Hi Hn; cbn [iter_skip].
  { exists i. repeat split; try done; lia. }
  destruct (Z.ltb_spec i (tableSize h)).
  2: { exists i. repeat split; try done; lia. }
  destruct (rd_in_bounds (pEntries h) i) as [e He]; [lia|]. rewrite He.
  apply rd_Some in He as [_ He]. cbn [mbind outcome_bind].
  destruct (is_live e) eqn:Hlive.
  - exists i. repeat split; try done; try lia. eauto.
  - destruct (IH (i + 1)) as (j & -> & ? & Hc & ?); [done|lia|lia|].
    exists j. split; [done|]. split; [lia|]. split; [|done].
    rewrite (drop_S _ _ _ He), contents_cons, Hlive. simpl.
    rewrite <- Hc. do 2 f_equal. lia.
Qed.

(** The client loop shown in Hash.h: begin, until done, data, next. *)
Fixpoint iterate (fuel : nat) h (idx : Z) : outcome (list P) :=
  match fuel with
  | O => Diverge
  | S fuel =>
      if mzHashIterDone h idx then mret []
      else
        item ← mzHashIterData h idx;
        idx ← mzHashIterNext h idx;
        rest ← iterate fuel h idx;
        mret (item :: rest)
  end.

Lemma iterate_spec h fuel : ∀ j,
  zlen (pEntries h) = tableSize h → 0 ≤ j ≤ tableSize h →
  tableSize h - j < Z.of_nat fuel →
  (j = tableSize h ∨ ∃ e, pEntries h !! Z.to_nat j = Some e ∧ is_live e = true) →
  iterate fuel h j = Ret (snd <$> contents (drop (Z.to_nat j) (pEntries h))).
Proof.
  induction fuel as [|fuel IH]; intros j Hl Hj Hf Hend; [lia|]. cbn [iterate].
  unfold mzHashIterDone. destruct (Z.leb_spec (tableSize h) j).
  { rewrite drop_ge by lia. done. }
  destruct Hend as [->|(e & He & Hlive)]; [lia|].
  unfold mzHashIterData.
  rewrite (proj2 (Z.leb_le 0 j)), (proj2 (Z.ltb_lt j (tableSize h))) by lia.
  cbn [andb c_assert mbind outcome_bind].
  rewrite (proj2 (rd_Some _ _ e)) by (split; [lia|done]).
  cbn [mbind outcome_bind mret outcome_ret]. unfold mzHashIterNext.
  destruct (iter_skip_spec h (Z.to_nat (tableSize h - j)) (j + 1))
    as (j' & -> & Hj' & Hc & Hend'); [done|lia|lia|].
  cbn [mbind outcome_bind]. rewrite IH by (done || lia).
  cbn [mbind outcome_bind]. unfold mret, outcome_ret. f_equal.
  rewrite (drop_S _ _ _ He), contents_cons, Hlive. simpl. f_equal. f_equal.
  rewrite <- Hc. do 2 f_equal. lia.
Qed.

(** An iteration from [mzHashIterBegin] visits exactly the items of the
    table, each once, in slot order, and [mzHashForeach] calls its function on
    the same sequence and stops at the first nonzero value. *)
Theorem iteration_visits_entries h {A} (func : P → A → Z * A) (arg : A) :
  hash_inv h →
  (idx ← mzHashIterBegin h; iterate (S (length (pEntries h))) h idx) =
    Ret (snd <$> entries_of h) ∧
  mzHashForeach h func arg =
    foldr (λ item rest arg, let '(val, arg) := func item arg in
             if val =? 0 then rest arg else (val, arg)) (λ arg, (0, arg))
      (snd <$> entries_of h) arg.
Proof.
  intros [[Hs Hl _] _ _ _]. pose proof (table_size_pos _ Hs). split.
  - unfold mzHashIterBegin, mzHashIterNext.
    destruct (iter_skip_spec h (Z.to_nat (tableSize h - -1)) (-1 + 1))
      as (j & -> & Hj & Hc & Hend); [done|lia|lia|].
    cbn [mbind outcome_bind]. rewrite iterate_spec by (done || lia).
    by rewrite <- Hc.
  - clear. unfold mzHashForeach, entries_of. revert arg.
    induction (pEntries h) as [|e l IH]; intros arg; [done|].
    cbn [foreach_slots]. rewrite contents_cons. destruct (is_live e); simpl; [|apply IH].
    destruct (func (data e) arg) as [val arg']. destruct (val =? 0); [apply IH|done].
Qed.
End properties.

(** ** Witnesses: a table of eight slots in which an entry has wrapped around and
    another was removed. *)
Module Demo.
Definition entry := @mk_entry Z.
Definition table : HashTable Z (list Z) :=
  mk_table 8 2 1
    [entry 15 77; entry 0 0; entry 2 tombstone; entry 0 0;
     entry 0 0; entry 0 0; entry 0 0; entry 7 55]
    (Some (λ p freed, freed ++ [p])).
Definition same (p q : Z) : Z := p - q.

Lemma table_inv : hash_inv table.
Proof.
  split; [split|..]; [exists 3; split; [lia|done]|done| |done|done|vm_compute; congruence].
  intros i e Hi Hlive. destruct i as [|[|[|[|[|[|[|[|i]]]]]]]]; simpl in Hi;
    simplify_eq; try done; (split; [simpl; lia|]).
  - exists 1. split; [simpl; lia|]. split; [done|]. intros m Hm. replace m with 0 by lia.
    exists (entry 7 55). done.
  - exists 0. split; [simpl; lia|]. split; [done|]. lia.
Qed.
End Demo.

Lemma mzHashTableLookup_correct_witness :
  wp (mzHashTableLookup (λ _, true) Demo.table 15 77 Demo.same true) (λ '(r, h'), hash_inv h' ∧
    if decide (Exists (matches 15 77 Demo.same) (entries_of Demo.table))
    then Exists (λ x, matches 15 77 Demo.same x ∧ r = x.2) (entries_of Demo.table) ∧ h' = Demo.table
    else if true
    then r = 77 ∧ entries_of h' ≡ₚ (15, 77) :: entries_of Demo.table
    else r = null ∧ h' = Demo.table).
Proof.
  apply (mzHashTableLookup_correct (λ _, true) Demo.table 15 77 Demo.same true);
    [apply Demo.table_inv|intros _ _; vm_compute; split; [congruence|done]|lia|done|done].
Defined.

Lemma mzHashTableRemove_correct_witness :
  wp (mzHashTableRemove Demo.table 15 77) (λ '(b, h'), hash_inv h' ∧
    if b then ∃ hv, entries_of Demo.table ≡ₚ (hv, 77) :: entries_of h'
    else h' = Demo.table ∧ (15, 77) ∉ entries_of Demo.table).
Proof.
  apply (mzHashTableRemove_correct Demo.table 15 77); [apply Demo.table_inv|done|done].
Defined.

Lemma mzHashTableCreate_correct_witness :
  wp (mzHashTableCreate (P := Z) (W := list Z) (λ _, true) (mzHashSize 3) None) (λ r, ∃ h,
    r = Some h ∧ hash_inv h ∧ entries_of h = [] ∧
    mzHashSize 3 ≤ tableSize h < 2 * mzHashSize 3 ∧
    wp (add_all (λ _, true) h [(1, 5); (9, 6); (1, 7)] Demo.same)
      (λ h', hash_inv h' ∧ tableSize h' = tableSize h)).
Proof.
  apply (mzHashTableCreate_correct (λ _, true) 3 None [(1, 5); (9, 6); (1, 7)] Demo.same);
    [lia|done|repeat constructor; done|done].
Defined.

Lemma mzHashTableClear_correct_witness :
  let r := mzHashTableClear Demo.table [1] in
  hash_inv r.1 ∧ entries_of r.1 = [] ∧ tableSize r.1 = 8 ∧ r.2 = [1; 77; 55].
Proof.
  destruct (mzHashTableClear_correct Demo.table [1] Demo.table_inv) as (? & ? & ? & Hw).
  split; [done|]. split; [done|]. split; [done|]. exact Hw.
Defined.

Lemma countProbes_correct_witness :
  wp (countProbes Demo.table 15 77 Demo.same) (λ c,
    if decide (Exists (matches 15 77 Demo.same) (entries_of Demo.table))
    then 0 ≤ c < tableSize Demo.table else c = -1).
Proof. apply (countProbes_correct Demo.table 15 77 Demo.same); [apply Demo.table_inv|done|done]. Defined.

Lemma iteration_visits_entries_witness :
  (idx ← mzHashIterBegin Demo.table; iterate 9 Demo.table idx) = Ret [77; 55] ∧
  mzHashForeach Demo.table (λ p n, (if p =? 77 then 0 else p, n + 1)) 0 = (55, 2).
Proof.
  destruct (iteration_visits_entries Demo.table (λ p n, (if p =? 77 then 0 else p, n + 1)) 0
    Demo.table_inv) as [Hi Hf].
  split; [exact Hi|exact Hf].
Defined.
