(* ===== verification/CString.v ===== *)
(** * CString

    The string.h functions the recovery sources call, on C strings given as the
    list of the bytes before their NUL. [char] is unsigned on ARM. *)
From S2P Require Import Prelude.
From Stdlib Require Ascii String.

(** ** Literals and characters *)

(** The bytes of a literal. *)
Definition str (s : string) : list Z :=
  (λ c, Z.of_nat (Ascii.nat_of_ascii c)) <$> String.list_ascii_of_string s.

Definition chr (c : Ascii.ascii) : Z := Z.of_nat (Ascii.nat_of_ascii c).

(** The byte at position [i] of a string, its NUL included. *)
Definition char_at (s : list Z) (i : nat) : Z := default 0 (s !! i).

(** ** Comparisons *)

(** [strncmp(a, b, n)]: the difference at the first place where they differ,
    the strings read no further than their NULs and [n] characters. *)
Fixpoint strncmp (n : nat) (a b : list Z) : Z :=
  match n, a, b with
  | O, _, _ => 0
  | S n, x :: a, y :: b => if x =? y then strncmp n a b else x - y
  | S _, [], [] => 0
  | S _, x :: _, [] => x
  | S _, [], y :: _ => - y
  end.

Fixpoint strcmp (a b : list Z) : Z :=
  match a, b with
  | x :: a, y :: b => if x =? y then strcmp a b else x - y
  | [], [] => 0
  | x :: _, [] => x
  | [], y :: _ => - y
  end.

(** [memcmp(a, b, n)] on objects of at least [n] bytes. *)
Definition memcmp (a b : list Z) (n : Z) : Z := strncmp (Z.to_nat n) a b.

(** The C string at the start of a buffer. *)
Fixpoint c_string (l : list Z) : list Z :=
  match l with [] => [] | c :: l => if c =? 0 then [] else c :: c_string l end.

(** Bytes of a C string: none of them is NUL. *)
Abbreviation cstr s := (Forall (λ b : Z, 0 < b < 256) s).

(** ** Search *)

(** [strchr] and [strrchr], as the index of the character. *)
Fixpoint strchr (s : list Z) (c : Z) : option nat :=
  match s with
  | [] => if c =? 0 then Some O else None
  | x :: s => if x =? c then Some O else S <$> strchr s c
  end.

Fixpoint strrchr (s : list Z) (c : Z) : option nat :=
  match s with
  | [] => if c =? 0 then Some O else None
  | x :: s =>
      match strrchr s c with
      | Some i => Some (S i)
      | None => if x =? c then Some O else None
      end
  end.

Fixpoint is_prefix (p s : list Z) : bool :=
  match p, s with
  | [], _ => true
  | x :: p, y :: s => (x =? y) && is_prefix p s
  | _ :: _, [] => false
  end.

(** [strstr(haystack, needle)], as an index. *)
Fixpoint strstr (s needle : list Z) : option nat :=
  if is_prefix needle s then Some O
  else match s with [] => None | _ :: s => S <$> strstr s needle end.

(** ** Order

    The order of byte strings that the comparisons decide. *)
Inductive lex_lt : list Z → list Z → Prop :=
  | lex_nil y b : lex_lt [] (y :: b)
  | lex_head x y a b : x < y → lex_lt (x :: a) (y :: b)
  | lex_tail x a b : lex_lt a b → lex_lt (x :: a) (x :: b).
Definition lex_le (a b : list Z) : Prop := lex_lt a b ∨ a = b.

#[export] Hint Constructors lex_lt : c_model.

Lemma lex_trans a b c : lex_lt a b → lex_lt b c → lex_lt a c.
Proof.
  intros Hab. revert c. induction Hab as [y b|x y a b Hxy|x a b Hab IH];
    intros c Hbc; inversion Hbc; subst; auto with c_model; constructor; lia.
Qed.

Lemma lex_irrefl a : ¬ lex_lt a a.
Proof. induction a; intros H; inversion H; subst; [lia|done]. Qed.

Lemma lex_total a b : lex_lt a b ∨ a = b ∨ lex_lt b a.
Proof.
  revert b. induction a as [|x a IH]; intros [|y b]; auto with c_model.
  destruct (Z.lt_trichotomy x y) as [?|[->|?]]; auto with c_model.
  destruct (IH b) as [?|[->|?]]; auto with c_model.
Qed.

#[export] Instance lex_le_refl : Reflexive lex_le.
Proof. by right. Qed.
#[export] Instance lex_le_trans : Transitive lex_le.
Proof.
  intros a b c [Hab| ->] [Hbc| ->]; unfold lex_le; eauto using lex_trans.
Qed.

Lemma lex_le_lt_trans a b c : lex_le a b → lex_lt b c → lex_lt a c.
Proof. intros [?| ->]; eauto using lex_trans. Qed.
Lemma lex_lt_le_trans a b c : lex_lt a b → lex_le b c → lex_lt a c.
Proof. intros ? [?| <-]; eauto using lex_trans. Qed.

(** ** Lemmas *)

Lemma strncmp_self n a : strncmp n a a = 0.
Proof. revert n. induction a; intros [|n]; simpl; rewrite ?Z.eqb_refl; auto. Qed.

(** [strncmp] over the shorter length, then the lengths: the lexicographic
    order. *)
Lemma strncmp_lt a b n :
  (n ≤ length a)%nat → (n ≤ length b)%nat → strncmp n a b < 0 → lex_lt a b.
Proof.
  revert a b. induction n as [|n IH]; intros [|x a] [|y b]; simpl; try lia.
  intros Ha Hb. destruct (Z.eqb_spec x y) as [->|].
  - intros. apply lex_tail, IH; lia.
  - intros. apply lex_head. lia.
Qed.

Lemma strncmp_gt a b n :
  (n ≤ length a)%nat → (n ≤ length b)%nat → 0 < strncmp n a b → lex_lt b a.
Proof.
  revert a b. induction n as [|n IH]; intros [|x a] [|y b]; simpl; try lia.
  intros Ha Hb. destruct (Z.eqb_spec x y) as [->|].
  - intros. apply lex_tail, IH; lia.
  - intros. apply lex_head. lia.
Qed.

Lemma strncmp_eq a b n :
  (n ≤ length a)%nat → (n ≤ length b)%nat → strncmp n a b = 0 ↔ take n a = take n b.
Proof.
  revert a b. induction n as [|n IH]; intros [|x a] [|y b]; simpl; try lia; try done.
  intros Ha Hb. destruct (Z.eqb_spec x y) as [->|].
  - rewrite IH by lia. split; [by intros ->|by intros [= ->]].
  - split; [lia|congruence].
Qed.

Lemma take_lex a b :
  take (length a) b = a → (length a < length b)%nat → lex_lt a b.
Proof.
  revert b. induction a as [|x a IH]; intros [|y b]; simpl; try lia; [constructor|].
  intros [= -> ?] ?. apply lex_tail, IH; [done|lia].
Qed.

Lemma strcmp_0 a b : cstr a → cstr b → strcmp a b = 0 ↔ a = b.
Proof.
  intros Ha. revert b. induction Ha as [|x a Hx Ha IH]; intros [|y b] Hb; simpl.
  - done.
  - apply Forall_cons in Hb as [? _]. split; [lia|done].
  - split; [lia|done].
  - apply Forall_cons in Hb as [? Hb]. destruct (Z.eqb_spec x y) as [->|].
    + rewrite IH by done. split; [by intros ->|by intros [= ->]].
    + split; [lia|congruence].
Qed.

Lemma strcmp_opp a b : strcmp a b = - strcmp b a.
Proof.
  revert b. induction a as [|x a IH]; intros [|y b]; simpl; try lia.
  rewrite (Z.eqb_sym y x). destruct (x =? y); [apply IH|lia].
Qed.

Lemma strcmp_lt a b : cstr a → cstr b → strcmp a b < 0 ↔ lex_lt a b.
Proof.
  intros Ha. revert b. induction Ha as [|x a Hx Ha IH]; intros [|y b] Hb; simpl.
  - split; [lia|inversion 1].
  - apply Forall_cons in Hb as [? _]. split; [constructor|lia].
  - split; [lia|inversion 1].
  - apply Forall_cons in Hb as [? Hb]. destruct (Z.eqb_spec x y) as [->|].
    + rewrite IH by done. split; [by constructor|]. inversion 1; subst; [lia|done].
    + split; [intros; constructor; lia|]. inversion 1; subst; lia.
Qed.

Lemma strcmp_le a b : cstr a → cstr b → strcmp a b ≤ 0 ↔ lex_le a b.
Proof.
  intros Ha Hb. unfold lex_le. rewrite <- (strcmp_lt a b), <- (strcmp_0 a b) by done. lia.
Qed.

Lemma memcmp_0 a b : length a = length b → memcmp a b (zlen a) = 0 ↔ a = b.
Proof.
  intros Hlen. unfold memcmp. rewrite Nat2Z.id, strncmp_eq by lia.
  by rewrite firstn_all, take_ge by lia.
Qed.

Lemma c_string_all l : Forall (λ c, c ≠ 0) l → c_string l = l.
Proof. induction 1 as [|c l Hc Hl IH]; [done|]. simpl. by rewrite (proj2 (Z.eqb_neq c 0)), IH. Qed.
Lemma c_string_app l r : Forall (λ c, c ≠ 0) l → c_string (l ++ 0 :: r) = l.
Proof.
  induction 1 as [|c l Hc _ IH]; [done|]. simpl.
  by rewrite (proj2 (Z.eqb_neq c 0)), IH.
Qed.

Lemma is_prefix_spec p s : is_prefix p s = true ↔ p `prefix_of` s.
Proof.
  revert s. induction p as [|x p IH]; intros [|y s]; simpl.
  - split; [intros; apply prefix_nil|done].
  - split; [intros; apply prefix_nil|done].
  - split; [done|]. by intros ?%prefix_nil_not.
  - rewrite andb_true_iff, Z.eqb_eq, IH. split.
    + intros [-> ?]. by apply prefix_cons.
    + intros Hp. split; [by apply prefix_cons_inv_1 in Hp|by apply prefix_cons_inv_2 in Hp].
Qed.

(** The names with a given prefix are contiguous in the order. *)
Lemma prefix_between p a b c :
  p `prefix_of` a → p `prefix_of` c → lex_le a b → lex_le b c → p `prefix_of` b.
Proof.
  intros Ha Hc [Hab| <-] [Hbc| ->]; try done. revert b a c Ha Hc Hab Hbc.
  induction p as [|x p IH]; intros b a c Ha Hc Hab Hbc; [apply prefix_nil|].
  destruct a as [|x1 a]; [by apply prefix_nil_not in Ha|].
  destruct c as [|x2 c]; [by apply prefix_nil_not in Hc|].
  pose proof (prefix_cons_inv_1 _ _ _ _ Ha) as <-. pose proof (prefix_cons_inv_1 _ _ _ _ Hc) as <-.
  apply prefix_cons_inv_2 in Ha, Hc.
  inversion Hab; subst; inversion Hbc; subst; try lia.
  apply prefix_cons. eauto.
Qed.

(** ** Numbers *)
Definition is_space (c : Z) : bool := (c =? 32) || ((9 <=? c) && (c <=? 13)).
Definition is_digit (c : Z) : bool := (48 <=? c) && (c <=? 57).

Fixpoint count_while (f : Z → bool) (s : list Z) : nat :=
  match s with c :: s => if f c then S (count_while f s) else O | [] => O end.

Definition digits_value (s : list Z) : Z := foldl (λ a c, a * 10 + (c - 48)) 0 s.

(** [strtol(s, &end, 10)] for a 32-bit [long]: the value, saturated at the limits,
    and the index of [end]. Without digits the value is 0 and [end] is [s]. *)
Definition strtol (s : list Z) : Z * nat :=
  let i := count_while is_space s in
  let sign := char_at s i in
  let j := if (sign =? 43) || (sign =? 45) then S i else i in
  let n := count_while is_digit (drop j s) in
  let v := digits_value (take n (drop j s)) in
  let v := if sign =? 45 then - v else v in
  if bool_decide (n = O) then (0, O)
  else (Z.max (- 2 ^ 31) (Z.min (2 ^ 31 - 1) v), (j + n)%nat).

(** [%d] *)
Fixpoint dec_digits (fuel : nat) (n : Z) : list Z :=
  match fuel with
  | O => []
  | S fuel => (if n <? 10 then [] else dec_digits fuel (n / 10)) ++ [48 + n mod 10]
  end.
Definition decimal (n : Z) : list Z :=
  if n <? 0 then 45 :: dec_digits 20 (- n) else dec_digits 20 n.

Example strtol_1 : strtol (str " -12x") = (-12, 4%nat).
Proof. reflexivity. Qed.
Example strtol_2 : strtol (str "99999999999") = (2 ^ 31 - 1, 11%nat).
Proof. reflexivity. Qed.
Example decimal_1 : decimal (-250) = str "-250".
Proof. reflexivity. Qed.
