(* ===== verification/ZipParse.v ===== *)
(** * ZipParse

    The first half of minzip/Zip.c, with the mapping functions of SysUtil.c it
    calls: opening an archive, scanning its central directory into a sorted array
    of entries and a hash table of their names, and looking up a name. *)
From stdpp Require Import sorting.
From S2P Require Import Prelude Bits Hash CString.

(** ** What the code calls outside the repository *)

(** external/safe_iop: [safe_add] at the two types the code uses it at. *)
Class SafeIop := {
  safe_add_uptr : Z → Z → option Z;
  safe_add_long : Z → Z → bool;
  safe_add_uptr_spec a b : 0 ≤ a < 2 ^ 32 → 0 ≤ b < 2 ^ 32 →
    safe_add_uptr a b = if a + b <? 2 ^ 32 then Some (a + b) else None;
  safe_add_long_spec a b : - 2 ^ 31 ≤ a < 2 ^ 31 → - 2 ^ 31 ≤ b < 2 ^ 31 →
    safe_add_long a b = (- 2 ^ 31 <=? a + b) && (a + b <? 2 ^ 31)
}.

(** ** Constants *)
Definition CENSIG : Z := 0x02014b50.
Definition CENHDR : Z := 46.
Definition CENVEM : Z := 4.
Definition CENHOW : Z := 10.
Definition CENTIM : Z := 12.
Definition CENCRC : Z := 16.
Definition CENSIZ : Z := 20.
Definition CENLEN : Z := 24.
Definition CENNAM : Z := 28.
Definition CENEXT : Z := 30.
Definition CENCOM : Z := 32.
Definition CENATX : Z := 38.
Definition CENOFF : Z := 42.
Definition ENDSIG : Z := 0x06054b50.
Definition ENDHDR : Z := 22.
Definition ENDSUB : Z := 8.
Definition ENDOFF : Z := 16.
Definition LOCSIG : Z := 0x04034b50.
Definition LOCHDR : Z := 30.
Definition LOCNAM : Z := 26.
Definition LOCEXT : Z := 28.
Definition STORED : Z := 0.
Definition DEFLATED : Z := 8.
Definition CENVEM_UNIX : Z := Z.shiftl 3 8.
Definition PATH_MAX : Z := 4096.

(** ** Data *)

(** A mapping of the file at [addr]. A pointer into it is given as its offset
    from [addr]. *)
Record MemMapping := mk_map { addr : Z; bytes : list Z }.

(** [fileName] holds the [fileNameLen] bytes that the pointer of the code
    points at; [long] has 32 bits. *)
Record ZipEntry := mk_zip_entry {
  fileNameLen : Z;
  fileName : list Z;
  offset : Z;
  compLen : Z;
  uncompLen : Z;
  compression : Z;
  modTime : Z;
  crc32 : Z;
  versionMadeBy : Z;
  externalFileAttributes : Z
}.

(** An entry as [calloc] leaves it. *)
Definition zero_entry : ZipEntry := mk_zip_entry 0 [] 0 0 0 0 0 0 0 0.
Definition sizeof_ZipEntry : Z := 40.

(** The pointers the hash table sees: into the array of entries, and the names
    that a lookup passes as its item. *)
Inductive zptr : Type :=
  | ZNull
  | ZTomb
  | ZEntry (i : nat)
  | ZName (name : list Z).

#[export] Instance zptr_eq_dec : EqDecision zptr.
Proof. solve_decision. Defined.
#[export] Instance hash_ptr_zptr : HashPtr zptr.
Proof. refine {| null := ZNull; tombstone := ZTomb |}. done. Defined.

Abbreviation ZipHash := (HashTable zptr unit).

Record ZipArchive := mk_archive {
  fd : Z;
  za_numEntries : Z;
  za_pEntries : list ZipEntry;
  pHash : option ZipHash;
  za_map : option MemMapping
}.

(** ** The hash table of names *)
Section names.
Context (entries : list ZipEntry).

(** [hashcmpZipEntry] on two entries, [hashcmpZipName] on an entry and a name.
    The table never compares anything else. *)
Definition entry_at (i : nat) : ZipEntry := default zero_entry (entries !! i).

Definition hashcmpZipEntry (p1 p2 : zptr) : Z :=
  match p1, p2 with
  | ZEntry i, ZEntry j =>
      let e1 := entry_at i in
      let e2 := entry_at j in
      if negb (fileNameLen e1 =? fileNameLen e2) then s32 (fileNameLen e1 - fileNameLen e2)
      else memcmp (fileName e1) (fileName e2) (fileNameLen e1)
  | _, _ => 1
  end.

Definition hashcmpZipName (p1 p2 : zptr) : Z :=
  match p1, p2 with
  | ZEntry i, ZName name =>
      let entry := entry_at i in
      let nameLen := zlen name in
      if negb (fileNameLen entry =? nameLen) then s32 (fileNameLen entry - nameLen)
      else memcmp (fileName entry) name nameLen
  | _, _ => 1
  end.

Definition computeHash (name : list Z) : Z :=
  foldl (λ hash c, u32 (hash * 31 + c)) 2 name.

Definition addEntryToHashTable (alloc_ok : Z → bool) (h : ZipHash) (i : nat) : outcome ZipHash :=
  let itemHash := computeHash (fileName (entry_at i)) in
  '(_, h) ← mzHashTableLookup alloc_ok h itemHash (ZEntry i) hashcmpZipEntry true;
  mret h.

(** [for (i = 0; i < numEntries; i++) addEntryToHashTable(pHash, &pEntries[i]);] *)
Fixpoint add_entries (alloc_ok : Z → bool) (n i : nat) (h : ZipHash) : outcome ZipHash :=
  match n with
  | O => mret h
  | S n => h ← addEntryToHashTable alloc_ok h i; add_entries alloc_ok n (S i) h
  end.
End names.

(** ** The central directory *)
Definition validFilename (name : list Z) (len : Z) : bool :=
  (len <? PATH_MAX) && forallb (λ c, negb ((c <? 32) || (127 <=? c))) name.

(** The backward scan, from the pointer [n - 1] down to the start. *)
Fixpoint find_eocd (l : list Z) (n : nat) : outcome (option Z) :=
  match n with
  | O => mret None
  | S n =>
      b ← rd l (Z.of_nat n);
      if b =? Z.land ENDSIG 0xff then
        v ← get4LE l (Z.of_nat n);
        if v =? ENDSIG then mret (Some (Z.of_nat n)) else find_eocd l n
      else find_eocd l n
  end.

(** The three-way comparison of the binary search. *)
Definition compare_names (e : ZipEntry) (name : list Z) (len : Z) : Z :=
  let diffLen := if fileNameLen e <? len then fileNameLen e else len in
  let diff := strncmp (Z.to_nat diffLen) (fileName e) name in
  if diff =? 0 then s32 (u32 (fileNameLen e - len)) else diff.

(** The value of [high] when the search ends. *)
Fixpoint bsearch (fuel : nat) (arr : list ZipEntry) (name : list Z) (len low high : Z)
    : outcome Z :=
  match fuel with
  | O => Diverge
  | S fuel =>
      if low <=? high then
        let mid := low + Z.quot (high - low) 2 in
        e ← rd arr mid;
        let diff := compare_names e name len in
        if diff <? 0 then bsearch fuel arr name len (mid + 1) high
        else if 0 <? diff then bsearch fuel arr name len low (mid - 1)
        else mret mid
      else mret high
  end.

(** The place for the [i]th entry, and the array with room there. *)
Definition make_room (arr : list ZipEntry) (i : Z) (name : list Z) (len : Z)
    : outcome (list ZipEntry * Z) :=
  if 0 <? i then
    high ← bsearch (Z.to_nat i + 1) arr name len 0 (i - 1);
    let target := u32 (high + 1) in
    _ ← c_assert (target <=? i);
    if negb (target =? i) then
      moved ← rd_n arr target (i - target);
      arr ← wr_n arr (target + 1) moved;
      mret (arr, target)
    else mret (arr, target)
  else mret (arr, 0).

(** The checks of a record up to its name. *)
Definition read_name (m : MemMapping) (ptr : Z) : outcome (option (Z * list Z)) :=
  let l := bytes m in
  if zlen l <? ptr + CENHDR then mret None
  else
    sig ← get4LE l ptr;
    if negb (sig =? CENSIG) then mret None
    else
      fileNameLen ← get2LE l (ptr + CENNAM);
      if zlen l <? ptr + CENHDR + fileNameLen then mret None
      else
        fileName ← rd_n l (ptr + CENHDR) fileNameLen;
        if negb (validFilename fileName fileNameLen) then mret None
        else mret (Some (fileNameLen, fileName)).

(** The rest of the record: its fields, the local header it points at, and the
    extent of the data. *)
Section record.
Context `{SafeIop}.

Definition local_header (m : MemMapping) (localHdrOffset : Z) : outcome (option Z) :=
  match safe_add_uptr (addr m) localHdrOffset with
  | None => mret None
  | Some localHdr =>
      if u32 (addr m + zlen (bytes m)) <? u32 (localHdr + LOCHDR) then mret None
      else
        sig ← get4LE (bytes m) (localHdr - addr m);
        if negb (sig =? LOCSIG) then mret None else mret (Some (localHdr - addr m))
  end.

Definition read_fields (m : MemMapping) (ptr : Z) (fileNameLen : Z) (fileName : list Z)
    : outcome (option ZipEntry) :=
  let l := bytes m in
  localHdrOffset ← get4LE l (ptr + CENOFF);
  comp ← get4LE l (ptr + CENSIZ);
  uncompLen ← get4LE l (ptr + CENLEN);
  compression ← get2LE l (ptr + CENHOW);
  modTime ← get4LE l (ptr + CENTIM);
  crc32 ← get4LE l (ptr + CENCRC);
  versionMadeBy ← get2LE l (ptr + CENVEM);
  let made := Z.land versionMadeBy 0xff00 in
  if negb (made =? 0) && negb (made =? CENVEM_UNIX) then mret None
  else
    attributes ← get4LE l (ptr + CENATX);
    r ← local_header m localHdrOffset;
    match r with
    | None => mret None
    | Some localHdr =>
        nam ← get2LE l (localHdr + LOCNAM);
        ext ← get2LE l (localHdr + LOCEXT);
        let e := mk_zip_entry fileNameLen fileName
          (s32 (u32 (localHdrOffset + LOCHDR + nam + ext)))
          (s32 comp) (s32 uncompLen) compression (s32 modTime) (s32 crc32)
          versionMadeBy (s32 attributes) in
        if negb (safe_add_long (offset e) (compLen e)) then mret None
        else if zlen l <? u32 (u32 (offset e) + u32 (compLen e)) then mret None
        else mret (Some e)
    end.

(** [ptr += CENHDR + fileNameLen + extraLen + commentLen] *)
Definition next_record (m : MemMapping) (ptr fileNameLen : Z) : outcome Z :=
  extraLen ← get2LE (bytes m) (ptr + CENEXT);
  commentLen ← get2LE (bytes m) (ptr + CENCOM);
  mret (ptr + (CENHDR + fileNameLen + extraLen + commentLen)).

(** One round of the loop over the records: the [i]th entry is placed in the
    array. *)
Definition parse_entry (m : MemMapping) (arr : list ZipEntry) (i ptr : Z)
    : outcome (option (list ZipEntry * Z)) :=
  r ← read_name m ptr;
  match r with
  | None => mret None
  | Some (fileNameLen, fileName) =>
      '(arr, target) ← make_room arr i fileName fileNameLen;
      r ← read_fields m ptr fileNameLen fileName;
      match r with
      | None => mret None
      | Some e =>
          arr ← wr arr target e;
          ptr ← next_record m ptr fileNameLen;
          mret (Some (arr, ptr))
      end
  end.

Fixpoint parse_loop (n : nat) (m : MemMapping) (arr : list ZipEntry) (i ptr : Z)
    : outcome (option (list ZipEntry)) :=
  match n with
  | O => mret (Some arr)
  | S n =>
      r ← parse_entry m arr i ptr;
      match r with
      | None => mret None
      | Some (arr, ptr) => parse_loop n m arr (i + 1) ptr
      end
  end.

(** The number of entries and the offset of the directory. *)
Definition read_eocd (m : MemMapping) : outcome (option (Z * Z)) :=
  let l := bytes m in
  val ← get4LE l 0;
  if val =? ENDSIG then mret None
  else if negb (val =? LOCSIG) then mret None
  else
    r ← find_eocd l (Z.to_nat (zlen l - ENDHDR + 1));
    match r with
    | None => mret None
    | Some ptr =>
        numEntries ← get2LE l (ptr + ENDSUB);
        cdOffset ← get4LE l (ptr + ENDOFF);
        if (numEntries =? 0) || (zlen l <=? cdOffset) then mret None
        else mret (Some (numEntries, cdOffset))
    end.

(** On success the entries and the hash table. On failure [parseZipArchive]
    has freed the table. *)
Definition parseZipArchive (alloc_ok : Z → bool) (m : MemMapping)
    : outcome (option (list ZipEntry * ZipHash)) :=
  r ← read_eocd m;
  match r with
  | None => mret None
  | Some (numEntries, cdOffset) =>
      r ← mzHashTableCreate alloc_ok (mzHashSize numEntries) None;
      match alloc_ok (numEntries * sizeof_ZipEntry), r with
      | true, Some h =>
          let n := Z.to_nat numEntries in
          r ← parse_loop n m (replicate n zero_entry) 0 cdOffset;
          match r with
          | None => mret None
          | Some arr => h ← add_entries arr alloc_ok n 0 h; mret (Some (arr, h))
          end
      | _, _ => mret None
      end
  end.
End record.

(** ** Lookups and accessors *)

(** The result is NULL or a pointer to an entry of the archive. *)
Definition mzFindZipEntry (a : ZipArchive) (entryName : list Z) : outcome zptr :=
  let itemHash := computeHash entryName in
  h ← of_option NullPointer (pHash a);
  '(r, _) ← mzHashTableLookup (λ _, true) h itemHash (ZName entryName)
    (hashcmpZipName (za_pEntries a)) false;
  mret r.

Definition mzZipEntryCount (a : ZipArchive) : Z := za_numEntries a.

Definition mzGetZipEntryAt (a : ZipArchive) (index : Z) : zptr :=
  if index <? za_numEntries a then ZEntry (Z.to_nat index) else ZNull.

(** [S_ISLNK] *)
Definition S_ISLNK (mode : Z) : bool := Z.land mode 0xf000 =? 0xa000.

Definition mzIsZipEntrySymlink (e : ZipEntry) : bool :=
  if Z.land (versionMadeBy e) 0xff00 =? CENVEM_UNIX
  then S_ISLNK (Z.shiftr (externalFileAttributes e) 16) else false.

(** ** Opening and closing *)

(** What the system calls on the file answer: [open] an error number or a
    descriptor, [lseek] the current position and the end, [mmap] an address. *)
Record FileEnv := mk_file_env {
  fe_open : Z + Z;
  fe_cur : Z;
  fe_end : Z;
  fe_mmap : option Z;
  fe_data : list Z
}.

(** Calls that give resources back. *)
Inductive release : Type :=
  | Close (fd : Z)
  | Unmap (addr : Z).

Definition getFileStartAndLength (fe : FileEnv) : option (Z * Z) :=
  if (fe_cur fe =? -1) || (fe_end fe =? -1) then None
  else
    let length := u32 (fe_end fe - fe_cur fe) in
    if length =? 0 then None else Some (fe_cur fe, length).

Definition sysMapFileInShmem (fe : FileEnv) : option MemMapping :=
  match getFileStartAndLength fe with
  | None => None
  | Some (start, length) =>
      match fe_mmap fe with
      | None => None
      | Some a => Some (mk_map a (take (Z.to_nat length) (drop (Z.to_nat start) (fe_data fe))))
      end
  end.

Definition sysReleaseShmem (map : option MemMapping) : list release :=
  match map with Some m => [Unmap (addr m)] | None => [] end.

Definition mzCloseZipArchive (a : ZipArchive) : ZipArchive * list release :=
  let closed := if 0 <=? fd a then [Close (fd a)] else [] in
  let unmapped := sysReleaseShmem (za_map a) in
  (mk_archive (-1) (za_numEntries a) [] None None, closed ++ unmapped).

(** The code behind [bail] when [err] is not 0. *)
Definition open_bail (err : Z) (a : ZipArchive) (map : option MemMapping)
    : Z * ZipArchive * list release :=
  let '(a, rel) := mzCloseZipArchive a in
  (err, a, rel ++ sysReleaseShmem map).

Definition mzOpenZipArchive `{SafeIop} (alloc_ok : Z → bool) (fe : FileEnv)
    : outcome (Z * ZipArchive * list release) :=
  match fe_open fe with
  | inl errno =>
      let err := if negb (errno =? 0) then errno else -1 in
      mret (open_bail err (mk_archive (-1) 0 [] None None) None)
  | inr fd =>
      let a := mk_archive fd 0 [] None None in
      match sysMapFileInShmem fe with
      | None => mret (open_bail (-1) a None)
      | Some m =>
          if zlen (bytes m) <? ENDHDR then mret (open_bail (-1) a (Some m))
          else
            r ← parseZipArchive alloc_ok m;
            match r with
            | None => mret (open_bail (-1) a (Some m))
            | Some (arr, h) => mret (0, mk_archive fd (zlen arr) arr (Some h) (Some m), [])
            end
      end
  end.

(** ** Executable check on a concrete archive *)
Module ZipDemo.
#[export] Instance safe_iop : SafeIop.
Proof.
  refine {|
    safe_add_uptr := λ a b, if a + b <? 2 ^ 32 then Some (a + b) else None;
    safe_add_long := λ a b, (- 2 ^ 31 <=? a + b) && (a + b <? 2 ^ 31) |}; done.
Defined.

Definition le (n : nat) (v : Z) : list Z := le_bytes n v.
Definition local_hdr (name data : list Z) : list Z :=
  le 4 LOCSIG ++ le 22 0 ++ le 2 (zlen name) ++ le 2 0 ++ name ++ data.
Definition central_hdr (name : list Z) (compLen off : Z) : list Z :=
  le 4 CENSIG ++ le 2 (CENVEM_UNIX + 20) ++ le 2 20 ++ le 2 0 ++ le 2 STORED ++ le 4 0 ++ le 4 0 ++
  le 4 compLen ++ le 4 compLen ++ le 2 (zlen name) ++ le 2 0 ++ le 2 0 ++ le 4 0 ++
  le 4 0 ++ le 4 off ++ name.
Definition end_hdr (n off : Z) : list Z :=
  le 4 ENDSIG ++ le 4 0 ++ le 2 n ++ le 2 n ++ le 4 0 ++ le 4 off ++ le 2 0.

Definition archive : list Z :=
  let l1 := local_hdr (str "b/y") (str "1") in
  let l2 := local_hdr (str "a") (str "22") in
  let l3 := local_hdr (str "b/x") (str "333") in
  let c := l1 ++ l2 ++ l3 in
  c ++ central_hdr (str "b/y") 1 0 ++ central_hdr (str "a") 2 (zlen l1) ++
  central_hdr (str "b/x") 3 (zlen l1 + zlen l2) ++ end_hdr 3 (zlen c).
End ZipDemo.

(** ** Names and their order *)

(** A name as [validFilename] accepts it, with its length. *)
Definition name_ok (name : list Z) (len : Z) : Prop :=
  len = zlen name ∧ len < PATH_MAX ∧ Forall (λ c, 32 ≤ c < 127) name.
Definition entry_ok (e : ZipEntry) : Prop := name_ok (fileName e) (fileNameLen e).
Definition name_le (e1 e2 : ZipEntry) : Prop := lex_le (fileName e1) (fileName e2).

Lemma validFilename_spec name :
  validFilename name (zlen name) = true ↔ name_ok name (zlen name).
Proof.
  unfold validFilename, name_ok.
  rewrite andb_true_iff, Z.ltb_lt, List.forallb_forall, Forall_forall.
  setoid_rewrite list_elem_of_In. split.
  - intros [? Hc]. do 2 (split; [done|]). intros c Hin. specialize (Hc c Hin).
    apply negb_true_iff, orb_false_iff in Hc as [??]. lia.
  - intros (_ & ? & Hc). split; [done|]. intros c Hin. specialize (Hc c Hin).
    apply negb_true_iff, orb_false_iff. lia.
Qed.

Lemma compare_names_spec e name len :
  entry_ok e → name_ok name len →
  (compare_names e name len < 0 → lex_lt (fileName e) name) ∧
  (0 < compare_names e name len → lex_lt name (fileName e)) ∧
  (compare_names e name len = 0 → fileName e = name).
Proof.
  intros (He & Hemax & _) (-> & Hmax & _). unfold compare_names, PATH_MAX in *.
  rewrite He in *.
  set (n := Z.to_nat (if _ <? _ then _ else _)).
  assert (Hn : n = Nat.min (length (fileName e)) (length name)).
  { unfold n. destruct (Z.ltb_spec (zlen (fileName e)) (zlen name)); lia. }
  destruct (Z.eqb_spec (strncmp n (fileName e) name) 0) as [Heq|Hne].
  - apply strncmp_eq in Heq; [|lia|lia]. rewrite Hn in Heq.
    assert (Hs : s32 (u32 (zlen (fileName e) - zlen name)) = zlen (fileName e) - zlen name)
      by (widths; zdiv).
    rewrite Hs. split; [|split]; intros Hd.
    + apply take_lex; [|lia]. rewrite Nat.min_l in Heq by lia. by rewrite <- Heq, firstn_all.
    + apply take_lex; [|lia]. rewrite Nat.min_r in Heq by lia. by rewrite Heq, firstn_all.
    + rewrite Nat.min_l in Heq by lia. rewrite firstn_all, take_ge in Heq by lia. done.
  - split; [|split]; intros Hd; [by eapply (strncmp_lt _ _ n); [lia|lia|]
      |by eapply (strncmp_gt _ _ n); [lia|lia|]|done].
Qed.

(** ** The sorted array *)

(** What a position [k] in a sorted list needs to receive [name]. *)
Definition fits (es : list ZipEntry) (name : list Z) (low high : Z) : Prop :=
  (∀ j e, es !! j = Some e → Z.of_nat j < low → lex_le (fileName e) name) ∧
  (∀ j e, es !! j = Some e → high < Z.of_nat j → lex_le name (fileName e)).

Lemma sorted_lookup es i j e1 e2 :
  StronglySorted name_le es → (i ≤ j)%nat → es !! i = Some e1 → es !! j = Some e2 →
  name_le e1 e2.
Proof.
  intros Hs Hij Hi Hj. destruct (decide (i = j)) as [->|]; [simplify_eq; by right|].
  destruct (lookup_split _ _ _ Hi) as (l1 & l2 & -> & <- & _).
  apply StronglySorted_app_1_r, StronglySorted_inv in Hs as [_ Hs].
  rewrite lookup_app_r in Hj by lia.
  destruct (j - length l1)%nat as [|k] eqn:?; [lia|]. simpl in Hj.
  by eapply Forall_lookup_1.
Qed.

Lemma bsearch_spec es rest name len : ∀ fuel low high,
  StronglySorted name_le es → Forall entry_ok es → name_ok name len → zlen es < 2 ^ 31 →
  0 ≤ low ≤ high + 1 → high < zlen es → fits es name low high → high + 1 - low < Z.of_nat fuel →
  wp (bsearch fuel (es ++ rest) name len low high) (λ r, -1 ≤ r < zlen es ∧ fits es name (r + 1) r).
Proof.
  induction fuel as [|fuel IH]; intros low high Hs Hok Hname Hlen Hlow Hhigh Hfit Hf; [lia|].
  cbn [bsearch]. destruct (Z.leb_spec low high).
  2:{ replace low with (high + 1) in Hfit by lia. simpl. split; [lia|done]. }
  rewrite Z.quot_div_nonneg by lia. set (mid := low + (high - low) / 2).
  assert (Hmid : low ≤ mid ≤ high) by (unfold mid; zdiv).
  apply wp_bind, wp_rd; [len|]. intros e He.
  rewrite lookup_app_l in He by lia.
  destruct (compare_names_spec e name len) as (Hlt & Hgt & Heq); [by eapply Forall_lookup_1|done|].
  destruct Hfit as [Hfl Hfh].
  destruct (Z.ltb_spec (compare_names e name len) 0) as [Hc|Hc].
  - apply IH; try done; try lia. split; [|done]. intros j ej Hj ?.
    etransitivity; [|left; by apply Hlt].
    eapply (sorted_lookup es j (Z.to_nat mid)); eauto; lia.
  - destruct (Z.ltb_spec 0 (compare_names e name len)) as [Hc'|Hc'].
    + apply IH; try done; try lia. split; [done|]. intros j ej Hj ?.
      etransitivity; [left; by apply Hgt|].
      eapply (sorted_lookup es (Z.to_nat mid) j); eauto; lia.
    + simpl. split; [lia|].
      rewrite <- Heq by lia. split; intros j ej Hj ?.
      * eapply (sorted_lookup es j (Z.to_nat mid)); eauto; lia.
      * eapply (sorted_lookup es (Z.to_nat mid) j); eauto; lia.
Qed.

Lemma fits_split es name k :
  fits es name k (k - 1) →
  Forall (λ e, lex_le (fileName e) name) (take (Z.to_nat k) es) ∧
  Forall (λ e, lex_le name (fileName e)) (drop (Z.to_nat k) es).
Proof.
  intros [Hl Hh]. split; apply Forall_lookup; intros j e Hj.
  - apply lookup_take_Some in Hj as [? ?]. eapply Hl; [done|lia].
  - rewrite lookup_drop in Hj. eapply Hh; [done|lia].
Qed.

(** The array of the entries so far, with room made for one more. *)
Lemma make_room_spec es e0 rest name len :
  StronglySorted name_le es → Forall entry_ok es → name_ok name len → zlen es < 2 ^ 16 →
  wp (make_room (es ++ e0 :: rest) (zlen es) name len) (λ '(arr, target),
    ∃ l1 l2 e1, es = l1 ++ l2 ∧ target = zlen l1 ∧ arr = l1 ++ e1 :: l2 ++ rest ∧
      Forall (λ e, lex_le (fileName e) name) l1 ∧ Forall (λ e, lex_le name (fileName e)) l2).
Proof.
  intros Hs Hok Hname Hlen. unfold make_room.
  destruct (Z.ltb_spec 0 (zlen es)).
  2:{ destruct es; simpl in *; [|lia]. by exists [], [], e0. }
  apply wp_bind. eapply wp_mono; [apply bsearch_spec; try done; try lia|].
  { split; [intros; lia|]. intros j e Hj%lookup_lt_Some ?. lia. }
  intros high [Hr Hfit]. rewrite u32_small by lia.
  apply wp_bind, wp_assert; [apply Z.leb_le; lia|].
  replace high with (high + 1 - 1) in Hfit at 2 by lia.
  destruct (fits_split _ _ _ Hfit) as [H1 H2].
  destruct (Z.eqb_spec (high + 1) (zlen es)) as [Heq|Hne]; simpl.
  - exists es, [], e0. rewrite app_nil_r. rewrite take_ge in H1 by lia. done.
  - set (l1 := take _ es) in *. set (l2 := drop _ es) in *.
    assert (Hes : es = l1 ++ l2) by (unfold l1, l2; by rewrite take_drop).
    assert (Hl1 : zlen l1 = high + 1) by (unfold l1; len).
    assert (Hl2 : zlen l2 = zlen es - (high + 1)) by (unfold l2; len).
    destruct l2 as [|e1 l2']; [simpl in Hl2; lia|].
    rewrite <- Hl2, <- Hl1, Hes, <- app_assoc, rd_n_app. cbn [mbind outcome_bind].
    change ((e1 :: l2') ++ e0 :: rest) with (e1 :: (l2' ++ e0 :: rest)).
    rewrite cons_middle, app_assoc.
    replace (zlen l1 + 1) with (zlen (l1 ++ [e1])) by len.
    replace (l2' ++ e0 :: rest) with ((l2' ++ [e0]) ++ rest) by (by rewrite <- app_assoc).
    rewrite wr_n_app by (rewrite length_app; simpl; lia). simpl.
    exists l1, (e1 :: l2'), e1. rewrite <- app_assoc. done.
Qed.

Lemma sorted_insert l1 l2 e :
  StronglySorted name_le (l1 ++ l2) → Forall (λ x, name_le x e) l1 → Forall (name_le e) l2 →
  StronglySorted name_le (l1 ++ e :: l2).
Proof.
  intros (Hx & H1 & H2)%StronglySorted_app HF1 HF2. rewrite Forall_forall in HF1.
  apply StronglySorted_app. split; [|split; [done|by constructor]].
  intros x y Hin [->|Hy]%elem_of_cons; auto.
Qed.

(** ** Reading records *)

(** A mapping as Linux makes it on a 32-bit ARM: below the kernel's part of the
    address space. *)
Record mapping_ok (m : MemMapping) : Prop := {
  mp_bytes : bytes_ok (bytes m);
  mp_addr : 0 < addr m;
  mp_top : addr m + zlen (bytes m) ≤ 0xC0000000
}.

(** No word of the file is an offset that leads to the last bytes of the address
    space, where adding the size of a local header wraps around. *)
Definition no_wrapping_offset (m : MemMapping) : Prop :=
  ∀ p v, get4LE (bytes m) p = Ret v →
    addr m + v < 2 ^ 32 - LOCHDR ∨ 2 ^ 32 ≤ addr m + v.

(** The data of an entry is in the file, when its fields are not negative. *)
Definition data_in_file (m : MemMapping) (e : ZipEntry) : Prop :=
  0 ≤ offset e → 0 ≤ compLen e → offset e + compLen e ≤ zlen (bytes m).

Lemma get4LE_ret l p :
  bytes_ok l → 0 ≤ p → p + 4 ≤ zlen l → ∃ v, get4LE l p = Ret v ∧ 0 ≤ v < 2 ^ 32.
Proof. intros. by apply wp_Ret_inv, wp_get4LE. Qed.
Lemma get2LE_ret l p :
  bytes_ok l → 0 ≤ p → p + 2 ≤ zlen l → ∃ v, get2LE l p = Ret v ∧ 0 ≤ v < 2 ^ 16.
Proof. intros. by apply wp_Ret_inv, wp_get2LE. Qed.

Ltac zip_consts := unfold CENHDR, CENVEM, CENHOW, CENTIM, CENCRC, CENSIZ, CENLEN, CENNAM,
  CENEXT, CENCOM, CENATX, CENOFF, ENDHDR, ENDSUB, ENDOFF, LOCHDR, LOCNAM, LOCEXT, PATH_MAX in *.

(** [get v Hv] reads the next field of the record. *)
Ltac get v Hv :=
  match goal with
  | |- wp (get4LE ?l ?p ≫= _) _ =>
      destruct (get4LE_ret l p) as (v & Hv & ?); [done|zip_consts; lia|zip_consts; lia|]
  | |- wp (get2LE ?l ?p ≫= _) _ =>
      destruct (get2LE_ret l p) as (v & Hv & ?); [done|zip_consts; lia|zip_consts; lia|]
  end; rewrite Hv; cbn [mbind outcome_bind].

Lemma read_name_spec m ptr :
  mapping_ok m → 0 ≤ ptr →
  wp (read_name m ptr) (λ r, match r with
    | None => True
    | Some (len, name) => name_ok name len ∧ ptr + CENHDR + len ≤ zlen (bytes m)
    end).
Proof.
  intros [Hb _ _] Hptr. unfold read_name.
  destruct (Z.ltb_spec (zlen (bytes m)) (ptr + CENHDR)) as [|Hin]; [done|].
  get magic Hmagic. destruct (negb _); [done|]. get n Hn.
  destruct (Z.ltb_spec (zlen (bytes m)) (ptr + CENHDR + n)); [done|].
  rewrite rd_n_in_bounds by (zip_consts; lia). cbn [mbind outcome_bind].
  set (name := take _ _). assert (Hz : zlen name = n) by (unfold name; zip_consts; len).
  destruct (validFilename name n) eqn:Hv; simpl; [|done]. split; [|done].
  rewrite <- Hz in *. by apply validFilename_spec.
Qed.

Section record_specs.
Context `{SafeIop}.

Lemma local_header_spec m off :
  mapping_ok m → 0 ≤ off < 2 ^ 32 →
  addr m + off < 2 ^ 32 - LOCHDR ∨ 2 ^ 32 ≤ addr m + off →
  wp (local_header m off) (λ r, match r with
    | None => True
    | Some p => p = off ∧ off + LOCHDR ≤ zlen (bytes m)
    end).
Proof.
  intros [Hb Ha Htop] Hoff Hwrap. unfold local_header.
  rewrite safe_add_uptr_spec by lia. destruct (Z.ltb_spec (addr m + off) (2 ^ 32)); [|done].
  rewrite !u32_small by (zip_consts; lia).
  destruct (Z.ltb_spec (addr m + zlen (bytes m)) (addr m + off + LOCHDR)); [done|].
  replace (addr m + off - addr m) with off by lia.
  get magic Hmagic. destruct (negb _); [done|]. simpl. split; [done|lia].
Qed.

Lemma read_fields_spec m ptr len name :
  mapping_ok m → no_wrapping_offset m → 0 ≤ ptr → ptr + CENHDR ≤ zlen (bytes m) →
  wp (read_fields m ptr len name) (λ r, match r with
    | None => True
    | Some e => fileName e = name ∧ fileNameLen e = len ∧ data_in_file m e
    end).
Proof.
  intros Hm Hwrap Hptr Hin. pose proof Hm as [Hb Ha Htop]. unfold read_fields; cbv zeta.
  get off Hoff. get v Hv. get v1 Hv1. get v2 Hv2. get v3 Hv3. get v4 Hv4. get v5 Hv5.
  destruct (_ && _); [done|]. get attrs Hattrs. clear Hv1 Hv2 Hv3 Hv4 Hv5.
  apply wp_bind. eapply wp_mono; [apply local_header_spec; eauto|].
  intros [p|] Hp; [|done]. destruct Hp as [-> Hp].
  get nam Hnam. get ext Hext.
  cbn [offset compLen].
  rewrite safe_add_long_spec by apply s32_range.
  destruct (Z.leb_spec (- 2 ^ 31) (s32 (u32 (off + LOCHDR + nam + ext)) + s32 v)); [|done].
  destruct (Z.ltb_spec (s32 (u32 (off + LOCHDR + nam + ext)) + s32 v) (2 ^ 31)); [|done].
  cbn [andb negb]. destruct (Z.ltb_spec (zlen (bytes m))
    (u32 (u32 (s32 (u32 (off + LOCHDR + nam + ext))) + u32 (s32 v)))) as [|Hle]; [done|].
  simpl. split; [done|]. split; [done|]. unfold data_in_file. simpl. intros Ho Hc.
  pose proof (s32_range (u32 (off + LOCHDR + nam + ext))). pose proof (s32_range v).
  rewrite (u32_small (s32 v)), (u32_small (s32 _)) in Hle by lia.
  by rewrite u32_small in Hle by lia.
Qed.

Lemma next_record_spec m ptr len :
  mapping_ok m → 0 ≤ ptr → ptr + CENHDR ≤ zlen (bytes m) → 0 ≤ len →
  wp (next_record m ptr len) (λ p, 0 ≤ p).
Proof.
  intros [Hb _ _] Hptr Hin Hlen. unfold next_record. get ext Hext. get com Hcom. simpl.
  zip_consts. lia.
Qed.

(** The directory, decoded record by record in its own order. *)
Definition read_record (m : MemMapping) (ptr : Z) : outcome (option (ZipEntry * Z)) :=
  r ← read_name m ptr;
  match r with
  | None => mret None
  | Some (len, name) =>
      r ← read_fields m ptr len name;
      match r with
      | None => mret None
      | Some e => ptr ← next_record m ptr len; mret (Some (e, ptr))
      end
  end.

Fixpoint read_directory (n : nat) (m : MemMapping) (ptr : Z) : outcome (option (list ZipEntry)) :=
  match n with
  | O => mret (Some [])
  | S n =>
      r ← read_record m ptr;
      match r with
      | None => mret None
      | Some (e, ptr) =>
          r ← read_directory n m ptr;
          mret (cons e <$> r)
      end
  end.

Lemma read_directory_length m n : ∀ ptr ds,
  read_directory n m ptr = Ret (Some ds) → length ds = n.
Proof.
  induction n as [|n IH]; intros ptr ds Hr; cbn [read_directory] in Hr; inv_ret.
  { by simplify_eq. }
  destruct a as [[e p]|]; inv_ret; [|done].
  destruct a as [ds'|]; simplify_eq/=. f_equal. by eapply IH.
Qed.

(** One round of the loop inserts the next record of the directory into the
    sorted array. *)
Lemma parse_entry_spec m es e0 rest ptr :
  mapping_ok m → no_wrapping_offset m → 0 ≤ ptr → zlen es < 2 ^ 16 →
  StronglySorted name_le es → Forall entry_ok es →
  ∃ r, read_record m ptr = Ret r ∧
    match r with
    | None => parse_entry m (es ++ e0 :: rest) (zlen es) ptr = Ret None
    | Some (e, ptr') => ∃ es', parse_entry m (es ++ e0 :: rest) (zlen es) ptr =
          Ret (Some (es' ++ rest, ptr')) ∧
        es' ≡ₚ e :: es ∧ StronglySorted name_le es' ∧ entry_ok e ∧ data_in_file m e ∧ 0 ≤ ptr'
    end.
Proof.
  intros Hm Hwrap Hptr Hn Hs Hok. unfold read_record, parse_entry.
  destruct (wp_Ret_inv _ _ (read_name_spec m ptr Hm Hptr)) as (r & -> & Hr).
  destruct r as [[len name]|]; [|by exists None]. destruct Hr as [Hname Hin].
  pose proof Hname as [Hlen _].
  destruct (wp_Ret_inv _ _ (make_room_spec es e0 rest name len Hs Hok Hname Hn))
    as ([arr target] & Hroom & l1 & l2 & e1 & -> & -> & -> & H1 & H2).
  cbn [mbind outcome_bind]. rewrite Hroom. cbn [mbind outcome_bind].
  destruct (wp_Ret_inv _ _ (read_fields_spec m ptr len name Hm Hwrap Hptr ltac:(lia)))
    as (r & -> & Hr). cbn [mbind outcome_bind].
  destruct r as [e|]; [|by exists None]. destruct Hr as (<- & <- & Hdata).
  destruct (wp_Ret_inv _ _ (next_record_spec m ptr (fileNameLen e) Hm Hptr ltac:(lia) ltac:(lia)))
    as (ptr' & -> & Hptr').
  cbn [mbind outcome_bind]. eexists. split; [done|]. simpl.
  exists (l1 ++ e :: l2). rewrite wr_in_bounds by len. simpl.
  rewrite Nat2Z.id, list_insert_alter, alter_app_r_alt, Nat.sub_diag by lia. simpl.
  rewrite <- app_assoc. split; [done|]. split; [by rewrite Permutation_middle|].
  split; [by apply sorted_insert|]. done.
Qed.

Lemma parse_loop_spec m : ∀ n es ptr,
  mapping_ok m → no_wrapping_offset m → 0 ≤ ptr → zlen es + Z.of_nat n < 2 ^ 16 →
  StronglySorted name_le es → Forall entry_ok es → Forall (data_in_file m) es →
  ∃ d, read_directory n m ptr = Ret d ∧
    match d with
    | None => parse_loop n m (es ++ replicate n zero_entry) (zlen es) ptr = Ret None
    | Some ds => ∃ arr,
        parse_loop n m (es ++ replicate n zero_entry) (zlen es) ptr = Ret (Some arr) ∧
        arr ≡ₚ es ++ ds ∧ StronglySorted name_le arr ∧ Forall entry_ok arr ∧
        Forall (data_in_file m) arr
    end.
Proof.
  induction n as [|n IH]; intros es ptr Hm Hwrap Hptr Hn Hs Hok Hd; cbn [read_directory parse_loop].
  { eexists. split; [done|]. exists es. simpl. rewrite app_nil_r. done. }
  destruct (parse_entry_spec m es zero_entry (replicate n zero_entry) ptr) as (r & -> & Hr);
    try done; [lia|].
  cbn [replicate mbind outcome_bind]. destruct r as [[e ptr']|].
  2:{ exists None. split; [done|]. by rewrite Hr. }
  destruct Hr as (es' & -> & Hp & Hs' & He & Hde & Hptr'). cbn [mbind outcome_bind].
  assert (Hlen : zlen es' = zlen es + 1) by (apply Permutation_length in Hp; simpl in Hp; lia).
  rewrite <- Hlen. destruct (IH es' ptr') as (d & -> & Hd'); try done; try lia.
  1,2: rewrite Hp; by constructor.
  cbn [mbind outcome_bind]. exists (cons e <$> d). split; [done|].
  destruct d as [ds|]; [|done]. destruct Hd' as (arr & -> & Harr & ?). simpl.
  exists arr. split; [done|]. split; [|done]. rewrite Harr, Hp. simpl.
  by rewrite Permutation_middle.
Qed.
End record_specs.

(** ** The end-of-central-directory record *)
Lemma get4LE_first_byte l p b v :
  bytes_ok l → rd l p = Ret b → get4LE l p = Ret v → b = v mod 256.
Proof.
  intros Hb Hrd Hget.
  assert (Hin : 0 ≤ p ∧ p + 4 ≤ zlen l).
  { apply rd_bounds in Hrd. unfold get4LE in Hget. inv_ret.
    repeat match goal with E : rd l (p + 3) = Ret _ |- _ => apply rd_bounds in E end. lia. }
  destruct (split_range l p 4) as (pre & mid & post & -> & <- & Hm); [lia..|].
  split_list mid Hm. destruct mid; [|simpl in Hm; lia].
  cbn [app] in *. rewrite Forall_app, !Forall_cons in Hb. destruct Hb as (_ & ? & ? & ? & ? & _).
  rewrite (get4LE_at pre) in Hget by (by rewrite !Forall_cons). injection Hget as <-.
  replace (zlen pre) with (zlen pre + 0) in Hrd by lia. rewrite rd_app_r in Hrd by lia.
  injection Hrd as <-. cbn [le_value]. zdiv.
Qed.

(** The scan returns the last place, below its start, that has the signature. *)
Lemma find_eocd_spec l n :
  bytes_ok l → Z.of_nat n + 3 ≤ zlen l →
  ∃ r, find_eocd l n = Ret r ∧ match r with
    | Some p => 0 ≤ p < Z.of_nat n ∧ get4LE l p = Ret ENDSIG ∧
        ∀ q, p < q < Z.of_nat n → get4LE l q ≠ Ret ENDSIG
    | None => ∀ q, 0 ≤ q < Z.of_nat n → get4LE l q ≠ Ret ENDSIG
    end.
Proof.
  intros Hb. induction n as [|n IH]; intros Hn; cbn [find_eocd].
  { exists None. split; [done|]. lia. }
  destruct (rd_in_bounds l (Z.of_nat n)) as [b Hrd]; [lia|].
  destruct (get4LE_ret l (Z.of_nat n)) as (v & Hv & _); [done|lia|lia|].
  rewrite Hrd, Hv. cbn [mbind outcome_bind].
  assert (Hfound : v = ENDSIG → b = Z.land ENDSIG 0xff).
  { intros ->. by rewrite (get4LE_first_byte _ _ _ _ Hb Hrd Hv). }
  assert (Hgo : v ≠ ENDSIG → ∃ r, find_eocd l n = Ret r ∧ match r with
    | Some p => 0 ≤ p < Z.of_nat (S n) ∧ get4LE l p = Ret ENDSIG ∧
        ∀ q, p < q < Z.of_nat (S n) → get4LE l q ≠ Ret ENDSIG
    | None => ∀ q, 0 ≤ q < Z.of_nat (S n) → get4LE l q ≠ Ret ENDSIG
    end).
  { intros Hne. destruct IH as (r & -> & Hr); [lia|]. exists r. split; [done|].
    destruct r as [p|].
    - destruct Hr as (? & ? & Hq). split; [lia|]. split; [done|]. intros q ?.
      destruct (decide (q = Z.of_nat n)) as [->|]; [congruence|apply Hq; lia].
    - intros q ?. destruct (decide (q = Z.of_nat n)) as [->|]; [congruence|apply Hr; lia]. }
  destruct (Z.eqb_spec b (Z.land ENDSIG 0xff)); [|apply Hgo; tauto].
  destruct (Z.eqb_spec v ENDSIG) as [->|]; [|by apply Hgo].
  exists (Some (Z.of_nat n)). split; [done|]. split; [lia|]. split; [done|]. lia.
Qed.

Lemma read_eocd_spec m :
  mapping_ok m → ENDHDR ≤ zlen (bytes m) →
  wp (read_eocd m) (λ r, match r with
    | None => True
    | Some (n, cd) => 0 < n < 2 ^ 16 ∧ 0 ≤ cd < zlen (bytes m) ∧
        ∃ p, 0 ≤ p ≤ zlen (bytes m) - ENDHDR ∧ get4LE (bytes m) p = Ret ENDSIG ∧
          get2LE (bytes m) (p + ENDSUB) = Ret n ∧ get4LE (bytes m) (p + ENDOFF) = Ret cd ∧
          ∀ q, p < q ≤ zlen (bytes m) - ENDHDR → get4LE (bytes m) q ≠ Ret ENDSIG
    end).
Proof.
  intros [Hb _ _] Hlen. unfold read_eocd; cbv zeta. get val Hval.
  destruct (val =? ENDSIG); [done|]. destruct (negb _); [done|].
  destruct (find_eocd_spec (bytes m) (Z.to_nat (zlen (bytes m) - ENDHDR + 1))) as (r & -> & Hr);
    [done|zip_consts; lia|]. cbn [mbind outcome_bind].
  destruct r as [p|]; [|done]. destruct Hr as (Hp & Hsig & Hlast).
  get num Hnum. get cd Hcd.
  destruct (Z.eqb_spec num 0); [done|]. destruct (Z.leb_spec (zlen (bytes m)) cd); [done|].
  simpl. split; [lia|]. split; [lia|]. exists p. split; [zip_consts; lia|].
  split; [done|]. split; [done|]. split; [done|]. intros q ?. apply Hlast. zip_consts. lia.
Qed.

(** ** The hash table of the entries *)
Section hash.
Context (entries : list ZipEntry).

(** The entries with index below [k] are in the table, represented by the first
    of those with their name. *)
Record indexed (k : nat) (h : ZipHash) : Prop := {
  ix_inv : hash_inv h;
  ix_sound : ∀ hv p, (hv, p) ∈ entries_of h → ∃ i, p = ZEntry i ∧ (i < k)%nat ∧
    hv = computeHash (fileName (entry_at entries i)) ∧
    ∀ j, (j < i)%nat → fileName (entry_at entries j) ≠ fileName (entry_at entries i);
  ix_complete : ∀ i, (i < k)%nat → ∃ j, (j ≤ i)%nat ∧
    fileName (entry_at entries j) = fileName (entry_at entries i) ∧
    (computeHash (fileName (entry_at entries j)), ZEntry j) ∈ entries_of h
}.

Lemma computeHash_range name : 0 ≤ computeHash name < 2 ^ 32.
Proof.
  unfold computeHash. set (f := λ hash c, _).
  cut (∀ z, 0 ≤ z < 2 ^ 32 → 0 ≤ foldl f z name < 2 ^ 32); [intros H; apply H; lia|].
  induction name as [|c name IH]; intros z Hz; simpl; [lia|]. apply IH, u32_range.
Qed.

Lemma hashcmpZipEntry_0 i j :
  entry_ok (entry_at entries i) → entry_ok (entry_at entries j) →
  hashcmpZipEntry entries (ZEntry i) (ZEntry j) = 0 ↔
    fileName (entry_at entries i) = fileName (entry_at entries j).
Proof.
  intros (Hi & ? & _) (Hj & ? & _). unfold hashcmpZipEntry, PATH_MAX in *.
  destruct (Z.eqb_spec (fileNameLen (entry_at entries i)) (fileNameLen (entry_at entries j)));
    simpl.
  - rewrite Hi. apply memcmp_0. lia.
  - rewrite s32_small by lia. split; [lia|]. intros He. rewrite He in *. lia.
Qed.

Lemma hashcmpZipName_0 i name :
  entry_ok (entry_at entries i) → zlen name < 2 ^ 31 →
  hashcmpZipName entries (ZEntry i) (ZName name) = 0 ↔ fileName (entry_at entries i) = name.
Proof.
  intros (Hi & ? & _) ?. unfold hashcmpZipName, PATH_MAX in *.
  destruct (Z.eqb_spec (fileNameLen (entry_at entries i)) (zlen name)) as [e|]; simpl.
  - rewrite <- e, Hi. apply memcmp_0. lia.
  - rewrite s32_small by lia. split; [lia|]. intros He. rewrite He in *. lia.
Qed.

Lemma entry_at_ok i :
  Forall entry_ok entries → entry_ok (entry_at entries i).
Proof.
  intros Hok. unfold entry_at. destruct (entries !! i) as [e|] eqn:He; simpl.
  - by eapply Forall_lookup_1.
  - unfold entry_ok, name_ok. simpl. done.
Qed.

Lemma add_entry_spec alloc_ok k h :
  Forall entry_ok entries → indexed k h →
  (numEntries h + 1 + numDeadEntries h) * LOAD_DENOM ≤ tableSize h * LOAD_NUMER →
  wp (addEntryToHashTable entries alloc_ok h k) (λ h', indexed (S k) h' ∧
    tableSize h' = tableSize h ∧ numDeadEntries h' = numDeadEntries h ∧
    numEntries h' ≤ numEntries h + 1).
Proof.
  intros Hok [Hinv Hsound Hcomp] Hload. unfold addEntryToHashTable. apply wp_bind.
  set (hv := computeHash _). set (cmp := hashcmpZipEntry entries).
  pose proof (lookup_spec alloc_ok h hv (ZEntry k) cmp true Hinv
    (λ _, below_load_can_grow alloc_ok h Hload) (computeHash_range _) ltac:(done) ltac:(done)) as Hlook.
  destruct (mzHashTableLookup _ _ _ _ _ _) as [[r h']| |] eqn:Hrun; try done.
  assert (Hadd : addable (hv, ZEntry k)) by (split; [apply computeHash_range|done]).
  pose proof (lookup_no_resize _ _ _ _ _ _ _ Hinv Hadd Hload Hrun) as Hsize. simpl.
  split; [|done]. destruct Hlook as [Hinv' Hlook]. simpl in Hlook.
  destruct (decide _) as [Hex|Hno].
  - destruct Hlook as [_ ->]. apply Exists_exists in Hex as ([hv' p] & Hin & Hhv & Hm).
    simpl in *. destruct (Hsound _ _ Hin) as (i & -> & Hi & -> & Hfirst).
    apply hashcmpZipEntry_0 in Hm; [|by apply entry_at_ok..].
    split; [done| |].
    + intros hv2 p2 Hin2. destruct (Hsound _ _ Hin2) as (j & -> & ? & ?). exists j.
      split; [done|]. split; [lia|done].
    + intros j Hj. destruct (decide (j = k)) as [->|]; [|apply Hcomp; lia].
      exists i. split; [lia|]. split; done.
  - destruct Hlook as [_ Hperm]. split; [done| |].
    + intros hv2 p2 Hin2. rewrite Hperm in Hin2. apply elem_of_cons in Hin2 as [Heq|Hin2].
      * simplify_eq. exists k. split; [done|]. split; [lia|]. split; [done|].
        intros j Hj Hname. destruct (Hcomp j Hj) as (j' & Hj' & Hname' & Hin').
        apply Hno, Exists_exists. eexists. split; [done|]. split; simpl.
        { by rewrite Hname', Hname. }
        apply hashcmpZipEntry_0; [by apply entry_at_ok..|congruence].
      * destruct (Hsound _ _ Hin2) as (j & -> & ? & ?). exists j.
        split; [done|]. split; [lia|done].
    + intros j Hj. destruct (decide (j = k)) as [->|].
      * exists k. split; [done|]. split; [done|]. rewrite Hperm. constructor.
      * destruct (Hcomp j) as (j' & ? & ? & Hin); [lia|]. exists j'.
        split; [done|]. split; [done|]. rewrite Hperm. by constructor.
Qed.

Lemma add_entries_spec alloc_ok n : ∀ k h,
  Forall entry_ok entries → indexed k h → numDeadEntries h = 0 →
  (numEntries h + Z.of_nat n) * LOAD_DENOM ≤ tableSize h * LOAD_NUMER →
  wp (add_entries entries alloc_ok n k h) (indexed (k + n)).
Proof.
  induction n as [|n IH]; intros k h Hok Hix Hdead Hload; cbn [add_entries].
  { simpl. by rewrite Nat.add_0_r. }
  unfold LOAD_DENOM, LOAD_NUMER in *. apply wp_bind.
  eapply wp_mono; [apply add_entry_spec; try done; unfold LOAD_DENOM, LOAD_NUMER; lia|].
  intros h' (Hix' & Hs & Hd & Hn). rewrite <- Nat.add_succ_comm.
  apply IH; try done; [congruence|]. lia.
Qed.

(** The lookup of a name in the table of all entries. *)
Lemma find_spec h name :
  Forall entry_ok entries → indexed (length entries) h → zlen name < 2 ^ 31 →
  wp (mzFindZipEntry (mk_archive 0 0 entries (Some h) None) name) (λ r, match r with
    | ZEntry i => ∃ e, entries !! i = Some e ∧ fileName e = name ∧
        ∀ j e', (j < i)%nat → entries !! j = Some e' → fileName e' ≠ name
    | ZNull => Forall (λ e, fileName e ≠ name) entries
    | _ => False
    end).
Proof.
  intros Hok [Hinv Hsound Hcomp] Hlen. unfold mzFindZipEntry. cbn [pHash za_pEntries of_option].
  apply wp_bind. cbn [wp]. apply wp_bind.
  eapply wp_mono; [apply (lookup_spec (λ _, true) h _ (ZName name) _ false Hinv)|];
    [done|apply computeHash_range|done|done|].
  intros [r h'] [_ Hlook]. destruct (decide _) as [_|Hno].
  - destruct Hlook as [Hex _]. apply Exists_exists in Hex as ([hv p] & Hin & [Hhv Hm] & ->).
    simpl in *. destruct (Hsound _ _ Hin) as (i & -> & Hi & -> & Hfirst).
    apply hashcmpZipName_0 in Hm; [|by apply entry_at_ok|done].
    destruct (lookup_lt_is_Some_2 entries i) as [e He]; [done|].
    unfold entry_at in Hm, Hfirst. rewrite He in Hm, Hfirst. simpl in *.
    exists e. split; [done|]. split; [done|]. intros j e' Hj He'.
    specialize (Hfirst j Hj). rewrite He' in Hfirst. simpl in Hfirst. congruence.
  - destruct Hlook as [-> _]. simpl. apply Forall_lookup. intros i e He Hname.
    destruct (Hcomp i) as (j & Hj & Hname' & Hin); [by eapply lookup_lt_Some|].
    assert (Hi : fileName (entry_at entries i) = name) by (unfold entry_at; by rewrite He).
    apply Hno, Exists_exists. eexists. split; [done|]. split; simpl.
    { by rewrite Hname', Hi. }
    apply hashcmpZipName_0; [by apply entry_at_ok|done|congruence].
Qed.
End hash.

(** ** Properties *)
Section properties.
Context `{SafeIop}.

Lemma parse_spec alloc_ok m :
  mapping_ok m → no_wrapping_offset m → ENDHDR ≤ zlen (bytes m) →
  wp (parseZipArchive alloc_ok m) (λ r, ∃ eocd, read_eocd m = Ret eocd ∧
    match eocd with
    | None => r = None
    | Some (n, cd) => ∃ d, read_directory (Z.to_nat n) m cd = Ret d ∧
        match d, r with
        | None, _ => r = None
        | Some _, None => ∃ z, alloc_ok z = false
        | Some ds, Some (arr, h) => arr ≡ₚ ds ∧ StronglySorted name_le arr ∧
            Forall entry_ok arr ∧ Forall (data_in_file m) arr ∧ indexed arr (length arr) h
        end
    end).
Proof.
  intros Hm Hwrap Hlen. unfold parseZipArchive.
  destruct (wp_Ret_inv _ _ (read_eocd_spec m Hm Hlen)) as ([[n cd]|] & -> & Hr);
    cbn [mbind outcome_bind]; [|by exists None].
  destruct Hr as (Hn & Hcd & _).
  destruct (wp_Ret_inv _ _ (create_spec (P := zptr) (W := unit) alloc_ok n None ltac:(lia)))
    as (oh & -> & Hh). cbn [mbind outcome_bind].
  destruct (parse_loop_spec m (Z.to_nat n) [] cd) as (d & Hd & Hloop);
    [done|done|lia|simpl; lia|constructor..|].
  change (zlen (@nil ZipEntry)) with 0 in Hloop. rewrite app_nil_l in Hloop.
  eapply wp_mono.
  2:{ intros r Hr. exists (Some (n, cd)). split; [done|]. exists d. split; [done|]. exact Hr. }
  destruct (alloc_ok (n * sizeof_ZipEntry)) eqn:Ha, oh as [h|]; simpl; [|destruct d; eauto..].
  destruct Hh as (Hinv & Hempty & Hn0 & Hd0 & _ & Hload).
  destruct d as [ds|]; [|by rewrite Hloop].
  destruct Hloop as (arr & Hloop & Hp & Hs & Hok & Hdata). simpl in Hp. rewrite Hloop.
  cbn [mbind outcome_bind]. apply wp_bind.
  assert (Hlen' : zlen arr = n).
  { apply Permutation_length in Hp. apply read_directory_length in Hd. lia. }
  eapply wp_mono; [apply add_entries_spec; try done|].
  - split; [done| |lia]. intros hv p Hin. rewrite Hempty in Hin. by apply elem_of_nil in Hin.
  - unfold LOAD_DENOM, LOAD_NUMER in *. lia.
  - intros h' Hix. simpl. do 4 (split; [done|]). by replace (length arr) with (Z.to_nat n) by lia.
Qed.

(** C29: on a mapped file without an offset that wraps the address space,
    [parseZipArchive] never reads outside the mapping and always returns. It fails
    exactly when the end record or a record of the directory is rejected, or
    memory runs out. Otherwise the array holds the records of the directory,
    sorted by name, each with a printable name, and the table leads from each name
    to the first entry that has it. An entry whose offset and compressed length are not negative
    has its data within the file; others, which a length above 2^31 makes, are accepted
    as well ([negative_compLen_accepted]). *)
Theorem parseZipArchive_correct alloc_ok m :
  mapping_ok m → no_wrapping_offset m → ENDHDR ≤ zlen (bytes m) →
  wp (parseZipArchive alloc_ok m) (λ r, ∃ eocd, read_eocd m = Ret eocd ∧
    match eocd with
    | None => r = None
    | Some (n, cd) => ∃ d, read_directory (Z.to_nat n) m cd = Ret d ∧
        match d, r with
        | None, _ => r = None
        | Some _, None => ∃ z, alloc_ok z = false
        | Some ds, Some (arr, h) => arr ≡ₚ ds ∧ StronglySorted name_le arr ∧
            Forall entry_ok arr ∧ Forall (data_in_file m) arr ∧ indexed arr (length arr) h
        end
    end).
Proof. apply parse_spec. Qed.

(** After a successful parse, [mzFindZipEntry] returns the first of the
    sorted entries that has the given name, and NULL exactly when the directory
    has no record of that name. *)
Theorem mzFindZipEntry_correct alloc_ok m arr h fd name :
  mapping_ok m → no_wrapping_offset m → ENDHDR ≤ zlen (bytes m) → zlen name < 2 ^ 31 →
  parseZipArchive alloc_ok m = Ret (Some (arr, h)) →
  wp (mzFindZipEntry (mk_archive fd (zlen arr) arr (Some h) (Some m)) name) (λ r, match r with
    | ZEntry i => ∃ e, arr !! i = Some e ∧ fileName e = name ∧
        ∀ j e', (j < i)%nat → arr !! j = Some e' → fileName e' ≠ name
    | ZNull => Forall (λ e, fileName e ≠ name) arr
    | _ => False
    end).
Proof.
  intros Hm Hwrap Hlen Hname Hrun.
  pose proof (parse_spec alloc_ok m Hm Hwrap Hlen) as Hp. rewrite Hrun in Hp.
  destruct Hp as ([[n cd]|] & _ & Hp); [|done]. destruct Hp as ([ds|] & _ & Hp); [|done].
  destruct Hp as (_ & _ & Hok & _ & Hix). by apply (find_spec arr h name).
Qed.

(** The end record is the last place in the file that has its signature
    and room for the record, and the number of entries and the offset of the
    directory come from there. *)
Theorem read_eocd_last m n cd :
  mapping_ok m → ENDHDR ≤ zlen (bytes m) → read_eocd m = Ret (Some (n, cd)) →
  0 < n < 2 ^ 16 ∧ 0 ≤ cd < zlen (bytes m) ∧
  ∃ p, 0 ≤ p ≤ zlen (bytes m) - ENDHDR ∧ get4LE (bytes m) p = Ret ENDSIG ∧
    get2LE (bytes m) (p + ENDSUB) = Ret n ∧ get4LE (bytes m) (p + ENDOFF) = Ret cd ∧
    ∀ q, p < q ≤ zlen (bytes m) - ENDHDR → get4LE (bytes m) q ≠ Ret ENDSIG.
Proof.
  intros Hm Hlen Hrun. pose proof (read_eocd_spec m Hm Hlen) as Hr. by rewrite Hrun in Hr.
Qed.

(** : [mzOpenZipArchive] returns 0 with an archive that holds the descriptor and
    the mapping and gives nothing back, or an error with an empty archive after
    closing the descriptor and unmapping the file, each exactly once, if they were
    acquired. *)
Theorem mzOpenZipArchive_resources alloc_ok fe :
  (∀ m, sysMapFileInShmem fe = Some m → mapping_ok m ∧ no_wrapping_offset m) →
  (∀ fd, fe_open fe = inr fd → 0 ≤ fd) →
  wp (mzOpenZipArchive alloc_ok fe) (λ '(err, a, released),
    let opened := match fe_open fe with inl _ => [] | inr fd => [Close fd] end in
    let mapped := match fe_open fe, sysMapFileInShmem fe with
      | inr _, Some m => [Unmap (addr m)] | _, _ => [] end in
    if err =? 0
    then released = [] ∧ za_map a = sysMapFileInShmem fe ∧ fe_open fe = inr (fd a) ∧
      is_Some (pHash a) ∧ za_numEntries a = zlen (za_pEntries a)
    else released = opened ++ mapped ∧ fd a = -1 ∧ pHash a = None ∧ za_pEntries a = []).
Proof.
  intros Hmap Hfd. unfold mzOpenZipArchive.
  destruct (fe_open fe) as [errno|fd].
  { simpl. destruct (Z.eqb_spec errno 0) as [->|Hne]; simpl; [done|].
    by rewrite (proj2 (Z.eqb_neq errno 0)). }
  assert (Hbail : ∀ m, open_bail (-1) (mk_archive fd 0 [] None None) m =
    (-1, mk_archive (-1) 0 [] None None, Close fd :: sysReleaseShmem m)).
  { intros m. unfold open_bail, mzCloseZipArchive. simpl.
    by rewrite (proj2 (Z.leb_le 0 fd)) by (by apply Hfd). }
  destruct (sysMapFileInShmem fe) as [m|]; [|by rewrite Hbail].
  destruct (Hmap m) as [Hm Hw]; [done|].
  destruct (Z.ltb_spec (zlen (bytes m)) ENDHDR); [by rewrite Hbail|].
  apply wp_bind. eapply wp_mono; [by apply parse_spec|]. intros [[arr h]|] _.
  - simpl. by repeat split.
  - by rewrite Hbail.
Qed.
End properties.

(** ** Archives that the checks let through *)
Section crafted.
Import ZipDemo.

(** One record, with the given offset of its local header and compressed size. *)
Definition crafted (off comp : Z) : list Z :=
  let l := local_hdr (str "a") (str "1") in
  l ++ central_hdr (str "a") comp off ++ end_hdr 1 (zlen l).

(** : [parseZipArchive] does not catch every bad offset of a local header: one
    that leads to the last bytes of the address space passes the check against
    the end of the mapping, since adding LOCHDR wraps around, and the
    signature is read outside the mapping. *)
Theorem localHdrOffset_wraps :
  let m := mk_map 0x40000000 (crafted (2 ^ 32 - 0x40000000 - 10) 1) in
  mapping_ok m ∧ parseZipArchive (λ _, true) m = Fault OutOfBounds.
Proof.
  split; [|by vm_compute]. split; [|done|vm_compute; congruence].
  apply (bool_decide_unpack _). by vm_compute.
Qed.

(** An entry whose compressed size is above 2^31 gets a negative size, for
    which the check against the end of the data passes. *)
Theorem negative_compLen_accepted :
  ∃ arr h e, parseZipArchive (λ _, true) (mk_map 0x40000000 (crafted 0 0xffffffff)) =
    Ret (Some (arr, h)) ∧ e ∈ arr ∧ compLen e = -1.
Proof. do 3 eexists. split; [by vm_compute|]. split; [by constructor|done]. Qed.
End crafted.

(** ** Witnesses *)
#[local] Existing Instance ZipDemo.safe_iop.
Module ZipWitness.
Definition m : MemMapping := mk_map 0x40000000 ZipDemo.archive.

Definition wrap_check (m : MemMapping) : bool :=
  forallb (λ p, match get4LE (bytes m) (Z.of_nat p) with
    | Ret v => (addr m + v <? 2 ^ 32 - LOCHDR) || (2 ^ 32 <=? addr m + v)
    | _ => true
    end) (seq 0 (length (bytes m))).

Lemma wrap_check_ok m : wrap_check m = true → no_wrapping_offset m.
Proof.
  intros Hc p v Hget. unfold wrap_check in Hc. rewrite List.forallb_forall in Hc.
  assert (Hp : 0 ≤ p < zlen (bytes m)).
  { unfold get4LE in Hget. step_ret Hget. by apply rd_bounds in E. }
  specialize (Hc (Z.to_nat p)). rewrite Z2Nat.id, Hget in Hc by lia.
  assert (Hin : In (Z.to_nat p) (seq 0 (length (bytes m)))) by (apply in_seq; lia).
  specialize (Hc Hin). apply orb_true_iff in Hc as [?%Z.ltb_lt|?%Z.leb_le]; auto.
Qed.

Lemma m_ok : mapping_ok m.
Proof.
  split; [|done|vm_compute; congruence]. apply (bool_decide_unpack _). by vm_compute.
Qed.
Lemma m_no_wrap : no_wrapping_offset m.
Proof. apply wrap_check_ok. by vm_compute. Qed.

Definition parsed := parseZipArchive (λ _, true) m.
Definition arr : list ZipEntry :=
  match parsed with Ret (Some (arr, _)) => arr | _ => [] end.
Definition h : ZipHash :=
  match parsed with Ret (Some (_, h)) => h | _ => mk_table 0 0 0 [] None end.
Definition fe : FileEnv := mk_file_env (inr 5) 0 (zlen ZipDemo.archive) (Some 0x40000000) ZipDemo.archive.
End ZipWitness.

Lemma parseZipArchive_correct_witness :
  wp (parseZipArchive (λ _, true) ZipWitness.m) (λ r, ∃ eocd, read_eocd ZipWitness.m = Ret eocd ∧
    match eocd with
    | None => r = None
    | Some (n, cd) => ∃ d, read_directory (Z.to_nat n) ZipWitness.m cd = Ret d ∧
        match d, r with
        | None, _ => r = None
        | Some _, None => ∃ z, (λ _ : Z, true) z = false
        | Some ds, Some (arr, h) => arr ≡ₚ ds ∧ StronglySorted name_le arr ∧
            Forall entry_ok arr ∧ Forall (data_in_file ZipWitness.m) arr ∧
            indexed arr (length arr) h
        end
    end).
Proof.
  apply (parseZipArchive_correct (λ _, true) ZipWitness.m);
    [apply ZipWitness.m_ok|apply ZipWitness.m_no_wrap|vm_compute; congruence].
Defined.

Lemma mzFindZipEntry_correct_witness :
  wp (mzFindZipEntry (mk_archive 5 3 ZipWitness.arr (Some ZipWitness.h) (Some ZipWitness.m))
    (str "b/x")) (λ r, match r with
    | ZEntry i => ∃ e, ZipWitness.arr !! i = Some e ∧ fileName e = str "b/x" ∧
        ∀ j e', (j < i)%nat → ZipWitness.arr !! j = Some e' → fileName e' ≠ str "b/x"
    | ZNull => Forall (λ e, fileName e ≠ str "b/x") ZipWitness.arr
    | _ => False
    end).
Proof.
  apply (mzFindZipEntry_correct (λ _, true) ZipWitness.m ZipWitness.arr ZipWitness.h 5 (str "b/x"));
    [apply ZipWitness.m_ok|apply ZipWitness.m_no_wrap|vm_compute; congruence|done|by vm_compute].
Defined.

Lemma read_eocd_last_witness :
  0 < 3 < 2 ^ 16 ∧ 0 ≤ 103 < zlen (bytes ZipWitness.m) ∧
  ∃ p, 0 ≤ p ≤ zlen (bytes ZipWitness.m) - ENDHDR ∧ get4LE (bytes ZipWitness.m) p = Ret ENDSIG ∧
    get2LE (bytes ZipWitness.m) (p + ENDSUB) = Ret 3 ∧
    get4LE (bytes ZipWitness.m) (p + ENDOFF) = Ret 103 ∧
    ∀ q, p < q ≤ zlen (bytes ZipWitness.m) - ENDHDR →
      get4LE (bytes ZipWitness.m) q ≠ Ret ENDSIG.
Proof.
  apply (read_eocd_last ZipWitness.m 3 103);
    [apply ZipWitness.m_ok|vm_compute; congruence|by vm_compute].
Defined.

Lemma mzOpenZipArchive_resources_witness :
  wp (mzOpenZipArchive (λ _, true) ZipWitness.fe) (λ '(err, a, released),
    let opened := match fe_open ZipWitness.fe with inl _ => [] | inr fd => [Close fd] end in
    let mapped := match fe_open ZipWitness.fe, sysMapFileInShmem ZipWitness.fe with
      | inr _, Some m => [Unmap (addr m)] | _, _ => [] end in
    if err =? 0
    then released = [] ∧ za_map a = sysMapFileInShmem ZipWitness.fe ∧
      fe_open ZipWitness.fe = inr (fd a) ∧
      is_Some (pHash a) ∧ za_numEntries a = zlen (za_pEntries a)
    else released = opened ++ mapped ∧ fd a = -1 ∧ pHash a = None ∧ za_pEntries a = []).
Proof.
  apply (mzOpenZipArchive_resources (λ _, true) ZipWitness.fe).
  - intros m Hm. replace m with ZipWitness.m by (vm_compute in Hm; by injection Hm).
    split; [apply ZipWitness.m_ok|apply ZipWitness.m_no_wrap].
  - intros fd [= <-]. lia.
Defined.
