(* ===== verification/DirUtil.v ===== *)
(** * DirUtil

    minzip/DirUtil.c: creating a directory with its parents, and the two walks
    over a directory tree that remove it and set its owner and modes. *)
From S2P Require Import Prelude CString.

(** ** File systems

    The system calls the code makes, over the state [W] of the file system. A
    call answers an error number or its result. *)
Class FileSystem (W : Type) := {
  DirStream : Type;
  sys_stat : list Z → W → (Z + Z) * W;
  sys_lstat : list Z → W → (Z + Z) * W;
  sys_mkdir : list Z → Z → W → (Z + unit) * W;
  sys_utime : list Z → Z → W → (Z + unit) * W;
  sys_unlink : list Z → W → (Z + unit) * W;
  sys_rmdir : list Z → W → (Z + unit) * W;
  sys_chown : list Z → Z → Z → W → (Z + unit) * W;
  sys_chmod : list Z → Z → W → (Z + unit) * W;
  sys_symlink : list Z → list Z → W → (Z + unit) * W;
  sys_opendir : list Z → W → (Z + DirStream) * W;
  (** The next name with the stream behind it, or the end. *)
  sys_readdir : DirStream → W → (Z + option (list Z * DirStream)) * W;
  sys_closedir : DirStream → W → (Z + unit) * W
}.

Definition ENOENT : Z := 2.
Definition ENOMEM : Z := 12.
Definition ENOTDIR : Z := 20.
Definition SLASH : Z := 47.

(** PATH_MAX, less the NUL that [snprintf] puts at the end. *)
Definition PATH_LEN : nat := 4095.

Definition S_ISDIR (mode : Z) : bool := Z.land mode 0xf000 =? 0x4000.
Definition S_ISLNK (mode : Z) : bool := Z.land mode 0xf000 =? 0xa000.

Inductive DirStatus : Type := DMISSING | DDIR | DILLEGAL.

Section code.
Context {W : Type} `{FileSystem W}.
Implicit Types (path : list Z) (w : W).

(** The status, with the error number that goes with [DILLEGAL]. *)
Definition getPathDirStatus path w : DirStatus * Z * W :=
  match sys_stat path w with
  | (inr mode, w) => if S_ISDIR mode then (DDIR, 0, w) else (DILLEGAL, ENOTDIR, w)
  | (inl errno, w) => if negb (errno =? ENOENT) then (DILLEGAL, errno, w) else (DMISSING, errno, w)
  end.

(** ** dirCreateHierarchy *)

(** [while (c != cpath && *c != '/') c--;] from [c = cpath + n]. *)
Fixpoint last_slash path (n : nat) : nat :=
  match n with
  | O => O
  | S n' => if char_at path n =? SLASH then n else last_slash path n'
  end.

(** The copy of the path that the walk works on, always ending in a slash. *)
Definition walk_path path (stripFileName : bool) : option (list Z) :=
  if stripFileName then
    match last_slash path (length path - 1) with
    | O => None
    | c => Some (take (S c) path)
    end
  else Some (path ++ [SLASH]).

(** One level of the walk. [timestamp] is NULL or a time. *)
Definition make_level (mode : Z) (timestamp : option Z) path w : (Z + unit) * W :=
  match getPathDirStatus path w with
  | (DILLEGAL, errno, w) => (inl errno, w)
  | (DMISSING, _, w) =>
      match sys_mkdir path mode w with
      | (inl errno, w) => (inl errno, w)
      | (inr _, w) =>
          match timestamp with
          | None => (inr tt, w)
          | Some t => sys_utime path t w
          end
      end
  | (DDIR, _, w) => (inr tt, w)
  end.

Fixpoint skip_slashes (l : list Z) : nat :=
  match l with [] => O | c :: l => if c =? SLASH then S (skip_slashes l) else O end.

(** The inner loop that advances to the next slash, as the distance to it. *)
Fixpoint to_slash (l : list Z) : option nat :=
  match l with
  | [] => None
  | c :: l => if c =? SLASH then Some O else S <$> to_slash l
  end.

Fixpoint create_levels (fuel : nat) (mode : Z) (timestamp : option Z) (cpath : list Z) (p : nat) w
    : outcome ((Z + unit) * W) :=
  match fuel with
  | O => Diverge
  | S fuel =>
      if bool_decide (length cpath ≤ p)%nat then mret (inr tt, w)
      else
        let p := (p + skip_slashes (drop p cpath))%nat in
        if bool_decide (length cpath ≤ p)%nat then mret (inr tt, w)
        else
          n ← of_option OutOfBounds (to_slash (drop p cpath));
          let p := (p + n)%nat in
          match make_level mode timestamp (take p cpath) w with
          | (inl errno, w) => mret (inl errno, w)
          | (inr _, w) => create_levels fuel mode timestamp cpath p w
          end
  end.

Definition dirCreateHierarchy (alloc_ok : Z → bool) path (mode : Z) (timestamp : option Z)
    (stripFileName : bool) w : outcome ((Z + unit) * W) :=
  if bool_decide (path = []) then mret (inl ENOENT, w)
  else if negb (alloc_ok (zlen path + 2)) then mret (inl ENOMEM, w)
  else
    match walk_path path stripFileName with
    | None => mret (inl ENOENT, w)
    | Some cpath =>
        match getPathDirStatus cpath w with
        | (DDIR, _, w) => mret (inr tt, w)
        | (DILLEGAL, errno, w) => mret (inl errno, w)
        | (DMISSING, _, w) => create_levels (S (length cpath)) mode timestamp cpath 0 w
        end
    end.

(** ** dirUnlinkHierarchy *)

(** [snprintf(dn, sizeof(dn), "%s/%s", path, name)] *)
Definition child_path path (name : list Z) : list Z := take PATH_LEN (path ++ SLASH :: name).

Definition is_dot (name : list Z) : bool :=
  (strcmp name (str "..") =? 0) || (strcmp name (str ".") =? 0).

(** The loop over the entries of a directory; [rec] is the recursive call. The
    result tells whether it failed, and the [errno] of the failure. *)
Fixpoint unlink_entries (fuel : nat) (rec : list Z → W → outcome ((Z + unit) * W))
    path (dir : DirStream) w : outcome (option Z * DirStream * W) :=
  match fuel with
  | O => Diverge
  | S fuel =>
      match sys_readdir dir w with
      | (inl _, w) => mret (None, dir, w)
      | (inr None, w) => mret (None, dir, w)
      | (inr (Some (name, dir)), w) =>
          if is_dot name then unlink_entries fuel rec path dir w
          else
            '(r, w) ← rec (child_path path name) w;
            match r with
            | inl errno => mret (Some errno, dir, w)
            | inr _ => unlink_entries fuel rec path dir w
            end
      end
  end.

(** [depth] bounds the nesting of the calls, [width] the rounds of each loop. *)
Fixpoint dirUnlinkHierarchy (depth width : nat) path w : outcome ((Z + unit) * W) :=
  match depth with
  | O => Diverge
  | S depth =>
      match sys_lstat path w with
      | (inl errno, w) => mret (inl errno, w)
      | (inr mode, w) =>
          if negb (S_ISDIR mode) then mret (sys_unlink path w)
          else
            match sys_opendir path w with
            | (inl errno, w) => mret (inl errno, w)
            | (inr dir, w) =>
                '(fail, dir, w) ← unlink_entries width (dirUnlinkHierarchy depth width) path dir w;
                match fail with
                | Some errno => let '(_, w) := sys_closedir dir w in mret (inl errno, w)
                | None =>
                    match sys_closedir dir w with
                    | (inl errno, w) => mret (inl errno, w)
                    | (inr _, w) => mret (sys_rmdir path w)
                    end
                end
            end
      end
  end.

(** ** dirSetHierarchyPermissions *)

(** The loop ends with [errno] not 0 when [readdir] or a recursive call failed. *)
Fixpoint permission_entries (fuel : nat) (rec : list Z → W → outcome ((Z + unit) * W))
    path (dir : DirStream) w : outcome (option Z * DirStream * W) :=
  match fuel with
  | O => Diverge
  | S fuel =>
      match sys_readdir dir w with
      | (inl errno, w) => mret (Some errno, dir, w)
      | (inr None, w) => mret (None, dir, w)
      | (inr (Some (name, dir)), w) =>
          if is_dot name then permission_entries fuel rec path dir w
          else
            '(r, w) ← rec (child_path path name) w;
            match r with
            | inl errno => mret (Some (if errno =? 0 then -1 else errno), dir, w)
            | inr _ => permission_entries fuel rec path dir w
            end
      end
  end.

Fixpoint dirSetHierarchyPermissions (depth width : nat) path (uid gid dirMode fileMode : Z) w
    : outcome ((Z + unit) * W) :=
  match depth with
  | O => Diverge
  | S depth =>
      match sys_lstat path w with
      | (inl errno, w) => mret (inl errno, w)
      | (inr mode, w) =>
          if S_ISLNK mode then mret (inr tt, w)
          else
            match sys_chown path uid gid w with
            | (inl errno, w) => mret (inl errno, w)
            | (inr _, w) =>
                match sys_chmod path (if S_ISDIR mode then dirMode else fileMode) w with
                | (inl errno, w) => mret (inl errno, w)
                | (inr _, w) =>
                    if S_ISDIR mode then
                      match sys_opendir path w with
                      | (inl errno, w) => mret (inl errno, w)
                      | (inr dir, w) =>
                          '(fail, dir, w) ← permission_entries width (λ path w,
                            dirSetHierarchyPermissions depth width path uid gid dirMode fileMode w)
                            path dir w;
                          match fail, sys_closedir dir w with
                          | Some errno, (_, w) => mret (inl errno, w)
                          | None, (inl errno, w) => mret (inl errno, w)
                          | None, (inr _, w) => mret (inr tt, w)
                          end
                      end
                    else mret (inr tt, w)
                end
            end
      end
  end.
End code.

(** ** The levels of a path *)

(** The prefixes of [pre ++ rest] that end a component of [rest], in the order
    of the walk. [inside] tells whether [pre] ends within a component. *)
Fixpoint levels (pre rest : list Z) (inside : bool) : list (list Z) :=
  match rest with
  | [] => []
  | c :: rest =>
      if c =? SLASH then (if inside then [pre] else []) ++ levels (pre ++ [c]) rest false
      else levels (pre ++ [c]) rest true
  end.

Lemma levels_skip pre rest :
  levels pre rest false =
    levels (pre ++ take (skip_slashes rest) rest) (drop (skip_slashes rest) rest) false.
Proof.
  revert pre. induction rest as [|c rest IH]; intros pre; simpl; [done|].
  destruct (Z.eqb_spec c SLASH) as [->|Hc]; simpl.
  - by rewrite IH, <- app_assoc.
  - rewrite app_nil_r, (proj2 (Z.eqb_neq c SLASH)) by done. done.
Qed.

Lemma skip_slashes_head rest c l :
  drop (skip_slashes rest) rest = c :: l → c ≠ SLASH.
Proof.
  induction rest as [|d rest IH]; simpl; [done|].
  destruct (Z.eqb_spec d SLASH); [done|]. by intros [= <- _].
Qed.

Lemma levels_component pre rest n :
  to_slash rest = Some n →
  levels pre rest true = (pre ++ take n rest) :: levels (pre ++ take n rest) (drop n rest) false.
Proof.
  revert pre n. induction rest as [|c rest IH]; intros pre n; simpl; [done|].
  destruct (Z.eqb_spec c SLASH) as [->|Hc].
  - intros [= <-]. simpl. by rewrite app_nil_r.
  - intros (m & Hm & ->)%fmap_Some. simpl. rewrite (IH _ m) by done. by rewrite <- app_assoc.
Qed.

Lemma to_slash_lt rest n : to_slash rest = Some n → (n < length rest)%nat.
Proof.
  revert n. induction rest as [|c rest IH]; intros n; simpl; [done|].
  destruct (c =? SLASH); [intros [= <-]; lia|].
  intros (m & ?%IH & ->)%fmap_Some. lia.
Qed.

Lemma to_slash_app l rest : is_Some (to_slash (l ++ SLASH :: rest)).
Proof.
  induction l as [|c l IH]; simpl; [by eexists|].
  destruct (c =? SLASH); [by eexists|]. by apply fmap_is_Some.
Qed.

Lemma levels_app pre l rest b :
  levels pre (l ++ SLASH :: rest) b =
    levels pre (l ++ [SLASH]) b ++ levels (pre ++ l ++ [SLASH]) rest false.
Proof.
  revert pre b. induction l as [|c l IH]; intros pre b; simpl.
  - by rewrite app_nil_r.
  - destruct (c =? SLASH); rewrite IH, <- ?app_assoc; done.
Qed.

Lemma levels_full pre l b :
  l ≠ [] → last l ≠ Some SLASH → (pre ++ l) ∈ levels pre (l ++ [SLASH]) b.
Proof.
  revert pre b. induction l as [|c l IH]; intros pre b Hne Hlast; [done|]. simpl.
  destruct l as [|d l].
  - destruct (Z.eqb_spec c SLASH) as [->|]; [done|]. simpl. constructor.
  - rewrite last_cons_cons in Hlast. rewrite cons_middle, app_assoc.
    destruct (c =? SLASH); [apply elem_of_app; right|]; by apply IH.
Qed.

Lemma elem_of_levels pre rest b q :
  q ∈ levels pre rest b → ∃ l rest', rest = l ++ SLASH :: rest' ∧ q = pre ++ l.
Proof.
  revert pre b. induction rest as [|c rest IH]; intros pre b; simpl;
    [by intros ?%elem_of_nil|].
  destruct (Z.eqb_spec c SLASH) as [->|Hc].
  - intros [Hq|Hq]%elem_of_app.
    + destruct b; [|by apply elem_of_nil in Hq]. apply list_elem_of_singleton in Hq as ->.
      exists [], rest. by rewrite app_nil_r.
    + apply IH in Hq as (l & rest' & -> & ->). exists (SLASH :: l), rest'.
      by rewrite <- app_assoc.
  - intros (l & rest' & -> & ->)%IH. exists (c :: l), rest'. by rewrite <- app_assoc.
Qed.

(** ** The walk makes the levels one by one *)
Section walk.
Context {W : Type} `{FileSystem W}.
Implicit Types (path : list Z) (w : W).

Fixpoint run_levels (mode : Z) (timestamp : option Z) (ls : list (list Z)) w : (Z + unit) * W :=
  match ls with
  | [] => (inr tt, w)
  | l :: ls =>
      match make_level mode timestamp l w with
      | (inl errno, w) => (inl errno, w)
      | (inr _, w) => run_levels mode timestamp ls w
      end
  end.

Lemma create_levels_spec mode ts cpath : ∀ fuel p w,
  (p ≤ length cpath)%nat → last cpath = Some SLASH → (length cpath - p < fuel)%nat →
  create_levels fuel mode ts cpath p w =
    Ret (run_levels mode ts (levels (take p cpath) (drop p cpath) false) w).
Proof.
  induction fuel as [|fuel IH]; intros p w Hp Hlast Hf; [lia|]. cbn [create_levels].
  case_bool_decide as Hend; [by rewrite drop_ge by lia|].
  rewrite levels_skip, take_take_drop, drop_drop. set (s := skip_slashes _).
  case_bool_decide as Hend'; [by rewrite (drop_ge _ (p + s)) by lia|].
  assert (Hto : is_Some (to_slash (drop (p + s) cpath))).
  { apply last_Some in Hlast as [l ->]. rewrite length_app in Hend'. simpl in Hend'.
    rewrite drop_app_le by lia. apply to_slash_app. }
  destruct (drop (p + s) cpath) as [|c rest] eqn:Hd; [by destruct Hto|].
  assert (Hc : c ≠ SLASH) by (rewrite <- drop_drop in Hd; by apply skip_slashes_head in Hd).
  destruct Hto as [n Hn]. rewrite Hn. cbn [of_option mbind outcome_bind].
  assert (Hlev : levels (take (p + s) cpath) (c :: rest) false =
    levels (take (p + s) cpath) (c :: rest) true).
  { simpl. by rewrite (proj2 (Z.eqb_neq c SLASH)). }
  rewrite Hlev, (levels_component _ _ _ Hn), <- Hd, take_take_drop, drop_drop.
  assert (Hn0 : (0 < n)%nat).
  { simpl in Hn. rewrite (proj2 (Z.eqb_neq c SLASH)) in Hn by done.
    apply fmap_Some in Hn as (? & _ & ->). lia. }
  assert (Hle : (p + s + n ≤ length cpath)%nat).
  { apply to_slash_lt in Hn. rewrite <- Hd, length_drop in Hn. lia. }
  cbn [run_levels]. destruct (make_level mode ts _ w) as [[errno|[]] w']; [done|].
  apply IH; [lia|done|lia].
Qed.

Lemma last_slash_spec dir file :
  SLASH ∉ file → last_slash (dir ++ SLASH :: file) (length (dir ++ SLASH :: file) - 1) = length dir.
Proof.
  intros Hf. rewrite length_app. simpl.
  replace (length dir + S (length file) - 1)%nat with (length dir + length file)%nat by lia.
  assert (Hk : ∀ k, (k ≤ length file)%nat →
    last_slash (dir ++ SLASH :: file) (length dir + k) = length dir); [|by apply Hk].
  induction k as [|k IH]; intros Hk.
  - rewrite Nat.add_0_r. destruct (length dir) as [|n] eqn:Hd; [done|].
    cbn [last_slash]. unfold char_at. by rewrite <- Hd, list_lookup_middle.
  - rewrite Nat.add_succ_r. cbn [last_slash].
    assert (Hne : char_at (dir ++ SLASH :: file) (S (length dir + k)) ≠ SLASH).
    { unfold char_at. replace (S (length dir + k)) with (length dir + S k)%nat by lia.
      rewrite lookup_app_r by lia. rewrite Nat.add_sub_swap, Nat.sub_diag by lia. simpl.
      destruct (lookup_lt_is_Some_2 file k) as [c Hc]; [lia|]. rewrite Hc. simpl.
      intros ->. by apply Hf, list_elem_of_lookup; exists k. }
    rewrite (proj2 (Z.eqb_neq _ _)) by done. apply IH. lia.
Qed.

Lemma last_slash_le path n : (last_slash path n ≤ n)%nat.
Proof. induction n; simpl; [done|]. destruct (_ =? _); lia. Qed.

Lemma last_slash_char path n c :
  last_slash path n = S c → char_at path (S c) = SLASH.
Proof.
  induction n as [|n IH]; cbn [last_slash]; [done|].
  destruct (Z.eqb_spec (char_at path (S n)) SLASH); [by intros [= <-]|done].
Qed.

Lemma walk_path_last path strip cpath :
  path ≠ [] → walk_path path strip = Some cpath → last cpath = Some SLASH.
Proof.
  unfold walk_path. intros Hne. destruct strip; [|intros [= <-]; apply last_snoc].
  destruct (last_slash path (length path - 1)) as [|c] eqn:Hc; [done|]. intros [= <-].
  pose proof (last_slash_le path (length path - 1)) as Hle. rewrite Hc in Hle.
  apply last_slash_char in Hc. unfold char_at in Hc.
  destruct (lookup_lt_is_Some_2 path (S c)) as [x Hx]; [lia|].
  rewrite Hx in Hc. simpl in Hc. subst. rewrite (take_S_r _ _ _ Hx). apply last_snoc.
Qed.
End walk.

(** ** Directories *)

(** What POSIX says of the calls, for the directories of a file system: [stat]
    only looks; a successful [mkdir] makes its directory; neither [mkdir] nor
    [utime] removes one; a path resolves only through directories. *)
Class PosixDirs (W : Type) `{FileSystem W} := {
  is_dir : W → list Z → Prop;
  stat_law p w : (sys_stat p w).2 = w ∧
    ∀ mode, (sys_stat p w).1 = inr mode → S_ISDIR mode = true → is_dir w p;
  mkdir_law p mode w : ((sys_mkdir p mode w).1 = inr tt → is_dir (sys_mkdir p mode w).2 p) ∧
    ∀ q, is_dir w q → is_dir (sys_mkdir p mode w).2 q;
  utime_law p t w q : is_dir w q → is_dir (sys_utime p t w).2 q;
  resolve_law p q w : is_dir w p → q ∈ levels [] p false → is_dir w q
}.

Section directories.
Context {W : Type} `{PosixDirs W}.
Implicit Types (path : list Z) (w : W).

Lemma getPathDirStatus_spec path w ds errno w' :
  getPathDirStatus path w = (ds, errno, w') → w' = w ∧ (ds = DDIR → is_dir w path).
Proof.
  unfold getPathDirStatus. destruct (stat_law path w) as [Hw Hd].
  destruct (sys_stat path w) as [[e|mode] w0]; simpl in *; subst.
  - destruct (negb _); by intros [= <- _ <-].
  - destruct (S_ISDIR mode) eqn:?; intros [= <- _ <-]; [eauto|done].
Qed.

Lemma make_level_spec mode ts path w :
  let '(r, w') := make_level mode ts path w in
  (∀ q, is_dir w q → is_dir w' q) ∧ (r = inr tt → is_dir w' path).
Proof.
  unfold make_level.
  destruct (getPathDirStatus path w) as [[ds errno] w0] eqn:Hs.
  apply getPathDirStatus_spec in Hs as [-> Hd].
  destruct ds; [|by auto|done].
  destruct (mkdir_law path mode w) as [Hm Hkeep].
  destruct (sys_mkdir path mode w) as [[e|[]] w1]; simpl in *; [done|].
  destruct ts as [t|]; [|by auto].
  pose proof (utime_law path t w1) as Hu.
  destruct (sys_utime path t w1) as [r w2]. simpl in *. auto.
Qed.

Lemma run_levels_spec mode ts ls w :
  let '(r, w') := run_levels mode ts ls w in
  (∀ q, is_dir w q → is_dir w' q) ∧ (r = inr tt → ∀ q, q ∈ ls → is_dir w' q).
Proof.
  revert w. induction ls as [|l ls IH]; intros w; simpl.
  { split; [done|]. by intros _ q ?%elem_of_nil. }
  pose proof (make_level_spec mode ts l w) as Hl.
  destruct (make_level mode ts l w) as [[e|[]] w']; [by destruct Hl|].
  destruct Hl as [Hkeep Hl]. specialize (IH w').
  destruct (run_levels mode ts ls w') as [r w'']. destruct IH as [Hkeep' Hls].
  split; [auto|]. intros -> q [->|Hq]%elem_of_cons; auto.
Qed.

(** C34: [dirCreateHierarchy] always returns and removes no directory. When it
    reports success, every level of the path is a directory: the path itself, or
    with [stripFileName] what is before its last slash. *)
Theorem dirCreateHierarchy_correct alloc_ok path mode ts strip w :
  wp (dirCreateHierarchy alloc_ok path mode ts strip w) (λ '(r, w'),
    (∀ q, is_dir w q → is_dir w' q) ∧
    (r = inr tt →
      (∃ cpath, walk_path path strip = Some cpath ∧ ∀ q, q ∈ levels [] cpath false → is_dir w' q) ∧
      (strip = false → last path ≠ Some SLASH → is_dir w' path) ∧
      (∀ dir file, strip = true → path = dir ++ SLASH :: file → SLASH ∉ file →
        last dir ≠ Some SLASH → is_dir w' dir))).
Proof.
  unfold dirCreateHierarchy. case_bool_decide as Hne; [done|].
  destruct (negb (alloc_ok _)); [done|].
  destruct (walk_path path strip) as [cpath|] eqn:Hwalk; [|done].
  set (goal := λ '((r, w') : (Z + unit) * W), (∀ q, is_dir w q → is_dir w' q) ∧
    (r = inr tt → ∀ q, q ∈ levels [] cpath false → is_dir w' q)).
  assert (Hgoal : ∀ m, wp m goal → wp m (λ '(r, w'), (∀ q, is_dir w q → is_dir w' q) ∧
    (r = inr tt →
      (∃ cpath', Some cpath = Some cpath' ∧ ∀ q, q ∈ levels [] cpath' false → is_dir w' q) ∧
      (strip = false → last path ≠ Some SLASH → is_dir w' path) ∧
      (∀ dir file, strip = true → path = dir ++ SLASH :: file → SLASH ∉ file →
        last dir ≠ Some SLASH → is_dir w' dir)))).
  { intros m Hm. eapply wp_mono; [exact Hm|]. intros [r w'] [Hkeep Hdirs].
    split; [done|]. intros Hr. specialize (Hdirs Hr). split; [by exists cpath|]. split.
    - intros -> Hl. injection Hwalk as <-. apply Hdirs. by apply (levels_full []).
    - intros dir file -> -> Hf Hl. unfold walk_path in Hwalk.
      rewrite last_slash_spec in Hwalk by done.
      destruct dir as [|c dir]; [done|]. injection Hwalk as <-. apply Hdirs.
      change (c :: take _ _) with (take (S (length (c :: dir))) ((c :: dir) ++ SLASH :: file)).
      rewrite take_app_ge by (simpl; lia).
      replace (S (length (c :: dir)) - length (c :: dir))%nat with 1%nat by (simpl; lia).
      by apply (levels_full []). }
  apply Hgoal. clear Hgoal.
  destruct (getPathDirStatus cpath w) as [[ds errno] w0] eqn:Hs.
  apply getPathDirStatus_spec in Hs as [-> Hd].
  destruct ds; [|by split; eauto using resolve_law|by split].
  rewrite create_levels_spec by (try lia; by eapply walk_path_last).
  simpl. pose proof (run_levels_spec mode ts (levels [] cpath false) w) as Hrun.
  by destruct (run_levels _ _ _ w).
Qed.
End directories.

(** For a file directly in the root directory, such as [/file], the parent
    directory exists, but with [stripFileName] the code takes the path for one
    without a directory part and fails. *)
Theorem dirCreateHierarchy_root_file {W} `{FileSystem W} file mode ts w :
  SLASH ∉ file →
  dirCreateHierarchy (λ _, true) (SLASH :: file) mode ts true w = Ret (inl ENOENT, w).
Proof.
  intros Hf. pose proof (last_slash_spec [] file Hf) as Hl.
  unfold dirCreateHierarchy. rewrite bool_decide_false by done.
  cbn [negb walk_path]. simpl app in Hl. by rewrite Hl.
Qed.

(** ** Walks over a tree *)

(** A name of an entry of a directory: not empty, without a slash, at most NAME_MAX long. *)
Definition NAME_MAX : nat := 255.
Definition entry_name (name : list Z) : Prop := name ≠ [] ∧ (SLASH ∉ name) ∧ (length name ≤ NAME_MAX)%nat.
#[export] Instance entry_name_dec name : Decision (entry_name name).
Proof. unfold entry_name. apply _. Defined.

(** The paths inside the tree at [root]: the root, and what is reached from it through names of
    entries that are neither the directory itself nor its parent. *)
Inductive inside (root : list Z) : list Z → Prop :=
  | inside_root : inside root root
  | inside_child p name : inside root p → entry_name name → name ≠ str "." → name ≠ str ".." →
      inside root (p ++ SLASH :: name).
#[export] Hint Constructors inside : core.

Lemma is_dot_false name : is_dot name = false → name ≠ str "." ∧ name ≠ str "..".
Proof. intros Hd. split; intros ->; by vm_compute in Hd. Qed.

(** In a directory with a path that is short enough, [snprintf] does not cut off the name. *)
Lemma child_inside root p name :
  inside root p → entry_name name → is_dot name = false → (length p + NAME_MAX < PATH_LEN)%nat →
  inside root (child_path p name) ∧ (length p < length (child_path p name) ≤ PATH_LEN)%nat.
Proof.
  intros Hp Hname [? ?]%is_dot_false Hlen. pose proof Hname as (_ & _ & Hn).
  unfold child_path. rewrite take_ge by (rewrite length_app, length_cons; lia).
  split; [by constructor|]. rewrite length_app, length_cons. lia.
Qed.

Section trees.
Context {W : Type} `{FileSystem W}.

(** Directories are finite, the names in them are names, and no directory has so long a path that
    [snprintf] would cut off the name of a child. *)
Variables (stream_len : DirStream → nat) (width : nat).
Hypothesis opendir_len : ∀ p w d w', sys_opendir p w = (inr d, w') → (stream_len d < width)%nat.
Hypothesis readdir_len : ∀ d w n d' w', sys_readdir d w = (inr (Some (n, d')), w') →
  (stream_len d' < stream_len d)%nat.
Hypothesis readdir_name : ∀ d w n d' w', sys_readdir d w = (inr (Some (n, d')), w') → entry_name n.
Hypothesis short_dirs : ∀ p w mode w', sys_lstat p w = (inr mode, w') → S_ISDIR mode = true →
  (length p + NAME_MAX < PATH_LEN)%nat.

(** A relation between the states before and after, kept by every call that
    does not change anything outside the tree. *)
Variables (root : list Z) (R : W → W → Prop).
Context `{!PreOrder R}.
Hypothesis lstat_R : ∀ p w, R w (sys_lstat p w).2.
Hypothesis opendir_R : ∀ p w, R w (sys_opendir p w).2.
Hypothesis readdir_R : ∀ d w, R w (sys_readdir d w).2.
Hypothesis closedir_R : ∀ d w, R w (sys_closedir d w).2.

Lemma unlink_entries_spec rec path : ∀ fuel dir w,
  (stream_len dir < fuel)%nat →
  (∀ name w, entry_name name → is_dot name = false → wp (rec (child_path path name) w) (λ '(_, w'), R w w')) →
  wp (unlink_entries fuel rec path dir w) (λ '(_, _, w'), R w w').
Proof.
  induction fuel as [|fuel IH]; intros dir w Hf Hrec; [lia|]. cbn [unlink_entries].
  pose proof (readdir_R dir w) as Hr. destruct (sys_readdir dir w) as [[e|[[n d]|]] w1] eqn:Hrd;
    simpl in *; [done| |done].
  apply readdir_name in Hrd as Hname. apply readdir_len in Hrd.
  destruct (is_dot n) eqn:Hdot.
  { eapply wp_mono; [apply IH; [lia|done]|]. intros [[? ?] w2] ?. by etrans. }
  apply wp_bind. eapply wp_mono; [by apply Hrec|]. intros [[e|u] w2] ?; simpl; [by etrans|].
  eapply wp_mono; [apply IH; [lia|done]|]. intros [[? ?] w3] ?. by do 2 (etrans; [done|]).
Qed.

Lemma permission_entries_spec rec path : ∀ fuel dir w,
  (stream_len dir < fuel)%nat →
  (∀ name w, entry_name name → is_dot name = false → wp (rec (child_path path name) w) (λ '(_, w'), R w w')) →
  wp (permission_entries fuel rec path dir w) (λ '(_, _, w'), R w w').
Proof.
  induction fuel as [|fuel IH]; intros dir w Hf Hrec; [lia|]. cbn [permission_entries].
  pose proof (readdir_R dir w) as Hr. destruct (sys_readdir dir w) as [[e|[[n d]|]] w1] eqn:Hrd;
    simpl in *; [done| |done].
  apply readdir_name in Hrd as Hname. apply readdir_len in Hrd.
  destruct (is_dot n) eqn:Hdot.
  { eapply wp_mono; [apply IH; [lia|done]|]. intros [[? ?] w2] ?. by etrans. }
  apply wp_bind. eapply wp_mono; [by apply Hrec|]. intros [[e|u] w2] ?; simpl; [by etrans|].
  eapply wp_mono; [apply IH; [lia|done]|]. intros [[? ?] w3] ?. by do 2 (etrans; [done|]).
Qed.

Lemma unlink_spec depth : ∀ path w,
  (∀ p w, inside root p → R w (sys_unlink p w).2 ∧ R w (sys_rmdir p w).2) →
  inside root path → (PATH_LEN - length path < depth)%nat →
  wp (dirUnlinkHierarchy depth width path w) (λ '(r, w'), R w w' ∧
    (r = inr tt → ∃ w0, sys_unlink path w0 = (r, w') ∨ sys_rmdir path w0 = (r, w'))).
Proof.
  induction depth as [|depth IH]; intros path w Hrm Hin Hdepth; [lia|].
  cbn [dirUnlinkHierarchy]. destruct (Hrm path w Hin) as [_ _].
  pose proof (lstat_R path w). destruct (sys_lstat path w) as [[e|mode] w1] eqn:Hl; [done|].
  simpl in *. destruct (S_ISDIR mode) eqn:Hdir; simpl.
  2:{ destruct (Hrm path w1 Hin) as [Hu _]. destruct (sys_unlink path w1) as [r w2] eqn:?.
      split; [by etrans|]. eauto. }
  apply short_dirs in Hl as Hlen; [|done].
  pose proof (opendir_R path w1). destruct (sys_opendir path w1) as [[e|d] w2] eqn:Ho;
    simpl in *; [split; [by etrans|done]|].
  apply wp_bind. eapply wp_mono; [apply unlink_entries_spec; [by eapply opendir_len|]|].
  { intros name w3 Hname Hdot. destruct (child_inside root path name Hin Hname Hdot Hlen).
    eapply wp_mono; [apply IH; [done|done|lia]|]. by intros [r w4] [? _]. }
  intros [[fail d'] w3] ?. pose proof (closedir_R d' w3).
  destruct (sys_closedir d' w3) as [r w4]. simpl in *.
  assert (R w w4) by (etrans; [done|]; etrans; [done|]; by etrans).
  destruct fail; simpl; [done|]. destruct r; simpl; [done|].
  destruct (Hrm path w4 Hin) as [_ Hr]. destruct (sys_rmdir path w4) as [r w5] eqn:?.
  split; [by etrans|]. eauto.
Qed.

Lemma permissions_spec depth uid gid dirMode fileMode : ∀ path w,
  (∀ p w0 mode w1 w, inside root p → sys_lstat p w0 = (inr mode, w1) → S_ISLNK mode = false →
    R w (sys_chown p uid gid w).2 ∧
    R w (sys_chmod p (if S_ISDIR mode then dirMode else fileMode) w).2) →
  inside root path → (PATH_LEN - length path < depth)%nat →
  wp (dirSetHierarchyPermissions depth width path uid gid dirMode fileMode w) (λ '(_, w'), R w w').
Proof.
  induction depth as [|depth IH]; intros path w Hset Hin Hdepth; [lia|].
  cbn [dirSetHierarchyPermissions].
  pose proof (lstat_R path w). destruct (sys_lstat path w) as [[e|mode] w1] eqn:Hl; [done|].
  simpl in *. destruct (S_ISLNK mode) eqn:Hlnk; [done|].
  destruct (Hset _ _ _ _ w1 Hin Hl Hlnk) as [Ho _].
  destruct (sys_chown path uid gid w1) as [[e|u] w2]; simpl in *; [by etrans|].
  destruct (Hset _ _ _ _ w2 Hin Hl Hlnk) as [_ Hm].
  destruct (sys_chmod path _ w2) as [[e|u'] w3]; simpl in *;
    [etrans; [done|]; by etrans|].
  assert (R w w3) by (etrans; [done|]; by etrans).
  destruct (S_ISDIR mode) eqn:Hdir; [|done].
  apply short_dirs in Hl as Hlen; [|done].
  pose proof (opendir_R path w3). destruct (sys_opendir path w3) as [[e|d] w4] eqn:Hod;
    simpl in *; [by etrans|].
  apply wp_bind. eapply wp_mono; [apply permission_entries_spec; [by eapply opendir_len|]|].
  { intros name w5 Hname Hdot. destruct (child_inside root path name Hin Hname Hdot Hlen).
    apply IH; [done|done|lia]. }
  intros [[fail d'] w5] ?. pose proof (closedir_R d' w5).
  destruct (sys_closedir d' w5) as [r w6]. simpl in *.
  assert (R w w6) by (etrans; [done|]; etrans; [done|]; by etrans).
  by destruct fail, r.
Qed.

(** C35: on a file system whose directories are finite and have names of at most 255 characters and
    paths of less than 3840, [dirUnlinkHierarchy] returns, and everything it
    unlinks or removes is its argument or is reached from it through names other than . and ..:
    a relation that such removals keep holds between the states. It reports success only
    when its last step unlinked or removed the argument itself. *)
Theorem dirUnlinkHierarchy_stays_inside w :
  (∀ p w, inside root p → R w (sys_unlink p w).2 ∧ R w (sys_rmdir p w).2) →
  wp (dirUnlinkHierarchy (S PATH_LEN) width root w) (λ '(r, w'), R w w' ∧
    (r = inr tt → ∃ w0, sys_unlink root w0 = (r, w') ∨ sys_rmdir root w0 = (r, w'))).
Proof. intros. apply unlink_spec; [done|done|lia]. Qed.

(** On a finite file system [dirSetHierarchyPermissions] returns, and it
    changes owner and mode only inside the tree and only of files that are not
    symbolic links, directories with [dirMode] and others with [fileMode]. *)
Theorem dirSetHierarchyPermissions_skips_links uid gid dirMode fileMode w :
  (∀ p w0 mode w1 w, inside root p → sys_lstat p w0 = (inr mode, w1) → S_ISLNK mode = false →
    R w (sys_chown p uid gid w).2 ∧
    R w (sys_chmod p (if S_ISDIR mode then dirMode else fileMode) w).2) →
  wp (dirSetHierarchyPermissions (S PATH_LEN) width root uid gid dirMode fileMode w)
    (λ '(_, w'), R w w').
Proof. intros. apply permissions_spec; [done|done|lia]. Qed.
End trees.

(** ** A small file system *)

(** A list of paths with their modes, directories with at most ten entries. *)
Module DirDemo.
Definition files : Type := list (list Z * Z).

Fixpoint find (w : files) (p : list Z) : option Z :=
  match w with
  | [] => None
  | (q, mode) :: w => if bool_decide (q = p) then Some mode else find w p
  end.
Definition dir_at (w : files) (p : list Z) : bool :=
  match find w p with Some mode => S_ISDIR mode | None => false end.
Definition dirs_to (p : list Z) : list (list Z) := levels [] (p ++ [SLASH]) false.
Definition lstat (p : list Z) (w : files) : (Z + Z) * files :=
  if bool_decide (PATH_LEN ≤ length p + NAME_MAX)%nat then (inl 36, w)
  else (match find w p with Some mode => inr mode | None => inl ENOENT end, w).
Definition remove (p : list Z) (w : files) : (Z + unit) * files :=
  match find w p with
  | Some _ => (inr tt, filter (λ x, x.1 ≠ p) w)
  | None => (inl ENOENT, w)
  end.
(** Every directory lists itself and its parent, too. *)
Definition names (p : list Z) (w : files) : list (list Z) :=
  str "." :: str ".." :: take 10 (omap (λ x : list Z * Z,
    if is_prefix (p ++ [SLASH]) x.1 then
      let n := drop (S (length p)) x.1 in
      if bool_decide (SLASH ∈ n) then None else Some n
    else None) w).

Fixpoint next (d : list (list Z)) : option (list Z * list (list Z)) :=
  match d with
  | [] => None
  | n :: d => if decide (entry_name n) then Some (n, d) else next d
  end.
Lemma next_spec d n d' : next d = Some (n, d') → entry_name n ∧ (length d' < length d)%nat.
Proof.
  induction d as [|m d IH]; cbn [next]; [done|]. case_decide; [intros [= <- <-]; simpl; auto|].
  intros [? ?]%IH. simpl. split; [done|lia].
Qed.

#[export] Instance fs : FileSystem files := {|
  DirStream := list (list Z);
  sys_stat p w := (if forallb (dir_at w) (dirs_to p) then inr 0x41ed else inl ENOENT, w);
  sys_lstat := lstat;
  sys_mkdir p mode w :=
    if forallb (λ q, bool_decide (q = p) || dir_at w q) (dirs_to p)
    then (inr tt, (p, 0x41ed) :: w) else (inl ENOENT, w);
  sys_utime p t w := (inr tt, w);
  sys_unlink := remove;
  sys_rmdir := remove;
  sys_chown p uid gid w := (inr tt, w);
  sys_chmod p mode w := (inr tt, w);
  sys_symlink target p w := (inr tt, (p, 0xa1ff) :: w);
  sys_opendir p w := (inr (names p w), w);
  sys_readdir d w := (inr (next d), w);
  sys_closedir d w := (inr tt, w)
|}.

Definition w0 : files :=
  [(str "/a", 0x41ed); (str "/a/f", 0x81a4); (str "/a/d", 0x41ed); (str "/a/d/l", 0xa1ff);
   (str "/ab", 0x81a4)].

(** The files outside [/a]. *)
Definition outside (w w' : files) : Prop :=
  ∀ x, ¬ inside (str "/a") x.1 → x ∈ w ↔ x ∈ w'.

#[export] Instance outside_preorder : PreOrder outside.
Proof.
  split; [by intros w x|]. intros w1 w2 w3 H12 H23 x Hx. by rewrite (H12 x Hx), (H23 x Hx).
Qed.

Lemma remove_outside p w : inside (str "/a") p → outside w (remove p w).2.
Proof.
  intros Hp x Hx. unfold remove. destruct (find w p); [|done]. simpl.
  rewrite list_elem_of_filter. split; [|by intros [_ ?]]. intros. split; [|done].
  intros Heq. by rewrite Heq in Hx.
Qed.

Lemma names_len p w : (length (names p w) < 13)%nat.
Proof. unfold names. simpl. rewrite length_take. lia. Qed.

Lemma lstat_short p w mode w' : sys_lstat p w = (inr mode, w') → (length p + NAME_MAX < PATH_LEN)%nat.
Proof. cbn [sys_lstat fs]. unfold lstat. case_bool_decide; [done|]. intros _. lia. Qed.

Lemma lstat_same p w : (lstat p w).2 = w.
Proof. unfold lstat. by case_bool_decide. Qed.

(** Every level of a level of a path is a level of the path. *)
Lemma dirs_to_level p q r :
  q ∈ levels [] p false → r ∈ dirs_to q → r ∈ dirs_to p.
Proof.
  intros (l & rest & -> & ->)%elem_of_levels Hr. unfold dirs_to in *. simpl in Hr.
  rewrite <- app_assoc. simpl. rewrite levels_app. apply elem_of_app. by left.
Qed.

Lemma dir_at_mkdir p q w : dir_at w q = true → dir_at ((p, 0x41ed) :: w) q = true.
Proof. unfold dir_at. simpl. by case_bool_decide. Qed.

#[export] Instance posix : PosixDirs files.
Proof.
  refine {| is_dir w p := ∀ q, q ∈ dirs_to p → dir_at w q = true |}.
  - intros p w. split; [done|]. simpl. destruct (forallb _ _) eqn:Hall; [|done].
    intros mode _ _ q Hq. rewrite List.forallb_forall in Hall. by apply Hall, list_elem_of_In.
  - intros p mode w. simpl. destruct (forallb _ _) eqn:Hall; simpl; [|done].
    rewrite List.forallb_forall in Hall. split.
    + intros _ q Hq. specialize (Hall q (proj1 (list_elem_of_In _ _) Hq)).
      apply orb_true_iff in Hall as [->%bool_decide_eq_true|Hd]; [|by apply dir_at_mkdir].
      unfold dir_at. simpl. by rewrite bool_decide_true.
    + intros q Hq r Hr. by apply dir_at_mkdir, Hq.
  - done.
  - intros p q w Hp Hq r Hr. apply Hp. by eapply dirs_to_level.
Defined.
End DirDemo.

(** ** Witnesses *)
#[local] Existing Instances DirDemo.fs DirDemo.posix DirDemo.outside_preorder.

Lemma dirCreateHierarchy_correct_witness :
  wp (dirCreateHierarchy (λ _, true) (str "/a//x/y/f") 0x1ed None true DirDemo.w0) (λ '(r, w'),
    (∀ q, is_dir DirDemo.w0 q → is_dir w' q) ∧
    (r = inr tt →
      (∃ cpath, walk_path (str "/a//x/y/f") true = Some cpath ∧
        ∀ q, q ∈ levels [] cpath false → is_dir w' q) ∧
      (true = false → last (str "/a//x/y/f") ≠ Some SLASH → is_dir w' (str "/a//x/y/f")) ∧
      (∀ dir file, true = true → str "/a//x/y/f" = dir ++ SLASH :: file → SLASH ∉ file →
        last dir ≠ Some SLASH → is_dir w' dir))).
Proof.
  apply (dirCreateHierarchy_correct (λ _, true) (str "/a//x/y/f") 0x1ed None true DirDemo.w0).
Defined.

Lemma dirCreateHierarchy_root_file_witness :
  dirCreateHierarchy (λ _, true) (str "/file") 0x1ed None true DirDemo.w0 =
    Ret (inl ENOENT, DirDemo.w0).
Proof.
  apply (dirCreateHierarchy_root_file (str "file") 0x1ed None DirDemo.w0).
  apply (bool_decide_unpack _). by vm_compute.
Defined.

Lemma dirUnlinkHierarchy_stays_inside_witness :
  wp (dirUnlinkHierarchy (S PATH_LEN) 13 (str "/a") DirDemo.w0) (λ '(r, w'),
    DirDemo.outside DirDemo.w0 w' ∧
    (r = inr tt → ∃ w0, sys_unlink (str "/a") w0 = (r, w') ∨ sys_rmdir (str "/a") w0 = (r, w'))).
Proof.
  apply (dirUnlinkHierarchy_stays_inside (W := DirDemo.files) (H := DirDemo.fs) (@length (list Z)) 13) with (R := DirDemo.outside).
  - intros p w d w' [= <- <-]. apply DirDemo.names_len.
  - intros d w n d' w' [= Hn <-]. by apply DirDemo.next_spec in Hn as [_ ?].
  - intros d w n d' w' [= Hn <-]. by apply DirDemo.next_spec in Hn as [? _].
  - intros p w mode w' Hl _. exact (DirDemo.lstat_short p w mode w' Hl).
  - apply _.
  - intros p w. simpl. by rewrite DirDemo.lstat_same.
  - done.
  - done.
  - done.
  - intros p w Hp. split; by apply DirDemo.remove_outside.
Defined.

Lemma dirSetHierarchyPermissions_skips_links_witness :
  wp (dirSetHierarchyPermissions (S PATH_LEN) 13 (str "/a") 0 0 0x1ed 0x1a4 DirDemo.w0)
    (λ '(_, w'), DirDemo.outside DirDemo.w0 w').
Proof.
  apply (dirSetHierarchyPermissions_skips_links (W := DirDemo.files) (H := DirDemo.fs) (@length (list Z)) 13) with (R := DirDemo.outside).
  - intros p w d w' [= <- <-]. apply DirDemo.names_len.
  - intros d w n d' w' [= Hn <-]. by apply DirDemo.next_spec in Hn as [_ ?].
  - intros d w n d' w' [= Hn <-]. by apply DirDemo.next_spec in Hn as [? _].
  - intros p w mode w' Hl _. exact (DirDemo.lstat_short p w mode w' Hl).
  - apply _.
  - intros p w. simpl. by rewrite DirDemo.lstat_same.
  - done.
  - done.
  - done.
  - done.
Defined.

(** The tree at [/a] goes, and [/ab] stays. *)
Example unlink_a : ∃ w', dirUnlinkHierarchy 4 13 (str "/a") DirDemo.w0 = Ret (inr tt, w') ∧
  w' = [(str "/ab", 0x81a4)].
Proof. eexists. split; by vm_compute. Qed.

Example create_x_y : ∃ w', dirCreateHierarchy (λ _, true) (str "/a//x/y/f") 0x1ed None true DirDemo.w0 =
  Ret (inr tt, w') ∧ w' = (str "/a//x/y", 0x41ed) :: (str "/a//x", 0x41ed) :: DirDemo.w0.
Proof. eexists. split; by vm_compute. Qed.
