(* ===== verification/ZipExtract.v ===== *)
(** * ZipExtract

    The second half of minzip/Zip.c: streaming the contents of an entry through a
    function, the clients of that (checksum, buffers, files), and the extraction
    of a directory of the archive. *)
From stdpp Require Import sorting.
From S2P Require Import Prelude Bits Hash CString ZipParse DirUtil.

(** ** What the code calls outside the repository *)

(** The open archive: [read] and [lseek] on its descriptor. *)
Class ArchiveFile (F : Type) := {
  sys_read : F → Z → (Z + list Z) * F;
  lseek_cur : F → Z * F;
  lseek_set : F → Z → F
}.

(** zlib. [inflate zs input avail_out] answers the status, how much of the input
    it has consumed, the output and the new state. *)
Class Zlib := {
  zstate : Type;
  inflateInit2 : Z + zstate;
  inflate : zstate → list Z → Z → Z * nat * list Z * zstate;
  zlib_crc32 : Z → list Z → Z
}.

Definition Z_OK : Z := 0.
Definition Z_STREAM_END : Z := 1.
Definition BUF_SIZE : Z := 32 * 1024.

(** Files that are written: [write] answers its result and [errno]. *)
Class FileWriter (W : Type) := {
  sys_creat : list Z → Z → W → (Z + Z) * W;
  sys_write : Z → list Z → W → Z * Z * W;
  sys_close : Z → W → W
}.
Definition EINTR : Z := 4.

(** ** Streaming *)
Section stream.
Context {F : Type} `{ArchiveFile F} `{Zlib} {C : Type}.
Implicit Types (f : F) (e : ZipEntry) (c : C).

(** A ProcessZipEntryContentsFunction with its cookie. *)
Variable processFunction : list Z → C → outcome (bool * C).

Fixpoint stored_loop (fuel : nat) f (bytesLeft : Z) c : outcome (bool * F * C) :=
  match fuel with
  | O => Diverge
  | S fuel =>
      if 0 <? bytesLeft then
        let count := if BUF_SIZE <? bytesLeft then BUF_SIZE else bytesLeft in
        match sys_read f count with
        | (inl _, f) => mret (false, f, c)
        | (inr data, f) =>
            if negb (zlen data =? count) then mret (false, f, c)
            else
              '(ret, c) ← processFunction data c;
              if negb ret then mret (false, f, c)
              else stored_loop fuel f (bytesLeft - count) c
        end
      else mret (true, f, c)
  end.

Definition processStoredEntry f e c : outcome (bool * F * C) :=
  let bytesLeft := u32 (compLen e) in
  stored_loop (S (Z.to_nat (bytesLeft / BUF_SIZE + 1))) f bytesLeft c.

(** The state of the loop around [inflate]: the rest of the input in [readBuf],
    and the output in [procBuf]. *)
Record inflate_state := mk_inflate {
  is_z : zstate;
  is_in : list Z;
  is_out : list Z;
  total_out : Z;
  compRemaining : Z;
  is_file : F
}.

(** Reading more input when there is none. [None] stands for [goto z_bail]. The
    count is passed as a [size_t], and the input that [inflate] is given must
    be in the buffer. *)
Definition refill (s : inflate_state) : outcome (option inflate_state * F) :=
  if bool_decide (is_in s = []) then
    let getSize := if BUF_SIZE <? compRemaining s then BUF_SIZE else compRemaining s in
    let '(r, f) := sys_read (is_file s) (u32 getSize) in
    let cc := match r with inl _ => -1 | inr data => zlen data end in
    if negb (cc =? getSize) then mret (None, f)
    else if BUF_SIZE <? u32 getSize then Fault OutOfBounds
    else
      let data := match r with inl _ => [] | inr data => data end in
      mret (Some (mk_inflate (is_z s) data (is_out s) (total_out s)
                    (compRemaining s - getSize) f), f)
  else mret (Some s, is_file s).

(** The [do] loop; it yields [total_out], or -1 behind [z_bail]. *)
Fixpoint inflate_loop (fuel : nat) (s : inflate_state) c : outcome (Z * F * C) :=
  match fuel with
  | O => Diverge
  | S fuel =>
      '(r, f) ← refill s;
      match r with
      | None => mret (-1, f, c)
      | Some s =>
          let '(zerr, k, out, z) := inflate (is_z s) (is_in s) (BUF_SIZE - zlen (is_out s)) in
          if negb (zerr =? Z_OK) && negb (zerr =? Z_STREAM_END) then mret (-1, f, c)
          else
            let out' := is_out s ++ out in
            let s := mk_inflate z (drop k (is_in s)) out' (u32 (total_out s + zlen out))
                       (compRemaining s) (is_file s) in
            let avail_out := BUF_SIZE - zlen out' in
            if (avail_out =? 0) || ((zerr =? Z_STREAM_END) && negb (avail_out =? BUF_SIZE)) then
              '(ret, c) ← processFunction out' c;
              if negb ret then mret (-1, f, c)
              else
                let s := mk_inflate z (is_in s) [] (total_out s) (compRemaining s) (is_file s) in
                if zerr =? Z_OK then inflate_loop fuel s c
                else mret (s32 (total_out s), f, c)
            else if zerr =? Z_OK then inflate_loop fuel s c
            else mret (s32 (total_out s), f, c)
      end
  end.

Definition processDeflatedEntry (fuel : nat) f e c : outcome (bool * F * C) :=
  '(result, f, c) ←
    match inflateInit2 with
    | inl _ => mret (-1, f, c)
    | inr z => inflate_loop fuel (mk_inflate z [] [] 0 (compLen e) f) c
    end;
  mret (result =? uncompLen e, f, c).

(** [fuel] bounds the calls of [inflate]. *)
Definition mzProcessZipEntryContents (fuel : nat) f e c : outcome (bool * F * C) :=
  let '(oldOff, f) := lseek_cur f in
  let f := lseek_set f (offset e) in
  '(ret, f, c) ←
    (if compression e =? STORED then processStoredEntry f e c
     else if compression e =? DEFLATED then processDeflatedEntry fuel f e c
     else mret (false, f, c));
  mret (ret, lseek_set f oldOff, c).
End stream.
Arguments inflate_state : clear implicits.
Arguments inflate_state F {_}.

(** ** The clients *)
Section clients.
Context {F : Type} `{ArchiveFile F} `{Zlib}.
Context (fuel : nat).
Implicit Types (f : F) (e : ZipEntry).

Definition crcProcessFunction (data : list Z) (crc : Z) : outcome (bool * Z) :=
  mret (true, zlib_crc32 crc data).

Definition mzIsZipEntryIntact f e : outcome (bool * F) :=
  '(ret, f, crc) ← mzProcessZipEntryContents crcProcessFunction fuel f e (zlib_crc32 0 []);
  mret (ret && (crc =? u32 (crc32 e)), f).

(** The destination with the place to write at, and the room left. *)
Record CopyProcessArgs := mk_copy { cp_mem : list Z; cp_buf : Z; cp_bufLen : Z }.

Definition copyProcessFunction (data : list Z) (args : CopyProcessArgs)
    : outcome (bool * CopyProcessArgs) :=
  if zlen data <=? cp_bufLen args then
    mem ← wr_n (cp_mem args) (cp_buf args) data;
    mret (true, mk_copy mem (cp_buf args + zlen data) (cp_bufLen args - zlen data))
  else mret (false, args).

(** The result holds the contents of the caller's buffer. *)
Definition mzReadZipEntry f e (buf : list Z) (bufLen : Z) : outcome (bool * F * list Z) :=
  '(ret, f, args) ← mzProcessZipEntryContents copyProcessFunction fuel f e (mk_copy buf 0 bufLen);
  mret (ret, f, cp_mem args).

(** The cookie of [bufferProcessFunction]: [buffer] is a place in [mem]. *)
Record BufferExtractCookie := mk_bec { bec_mem : list Z; buffer : Z; bec_len : Z }.

Definition bufferProcessFunction (data : list Z) (bec : BufferExtractCookie)
    : outcome (bool * BufferExtractCookie) :=
  mem ← wr_n (bec_mem bec) (buffer bec) data;
  mret (true, mk_bec mem (buffer bec + zlen data) (bec_len bec - zlen data)).

Definition mzExtractZipEntryToBuffer f e (buf : list Z) : outcome (bool * F * list Z) :=
  '(ret, f, bec) ← mzProcessZipEntryContents bufferProcessFunction fuel f e
    (mk_bec buf 0 (uncompLen e));
  mret (ret && (bec_len bec =? 0), f, bec_mem bec).

Context {W : Type} `{FileWriter W}.

(** The loop of [writeProcessFunction] from [soFar] on; [tries] bounds the calls of
    [write]. *)
Fixpoint write_loop (tries : nat) (fd : Z) (data : list Z) (soFar : Z) (w : W) : outcome (bool * W) :=
  match tries with
  | O => Diverge
  | S tries =>
      rest ← rd_n data soFar (zlen data - soFar);
      let '(n, errno, w) := sys_write fd rest w in
      if n <=? 0 then
        if negb (errno =? EINTR) then mret (false, w) else write_loop tries fd data soFar w
      else
        let soFar := soFar + n in
        if soFar =? zlen data then mret (true, w)
        else if zlen data <? soFar then mret (false, w)
        else write_loop tries fd data soFar w
  end.

Context (tries : nat).

Definition writeProcessFunction (fd : Z) (data : list Z) (w : W) : outcome (bool * W) :=
  write_loop tries fd data 0 w.

Definition mzExtractZipEntryToFile f e (fd : Z) (w : W) : outcome (bool * F * W) :=
  mzProcessZipEntryContents (writeProcessFunction fd) fuel f e w.
End clients.

(** ** Extraction of a directory *)

(** The helper. [buf] is NULL or a buffer of [bufLen] bytes. *)
Record MzPathHelper := mk_helper {
  targetDir : list Z;
  zipDir : list Z;
  buf : option (list Z);
  targetDirLen : Z;
  zipDirLen : Z;
  bufLen : Z
}.

(** [realloc(buf, n)]; the bytes it adds are indeterminate and shown as 0. *)
Definition realloc (buf : option (list Z)) (n : Z) : list Z :=
  let old := default [] buf in
  take (Z.to_nat n) old ++ replicate (Z.to_nat n - length old) 0.

Section extract.
Context (alloc_ok : Z → bool).

(** Every path starts with the target directory and a slash. *)
Definition write_base (h : MzPathHelper) (b : list Z) : outcome (MzPathHelper * list Z) :=
  dir ← rd_n (targetDir h) 0 (targetDirLen h);
  b ← wr_n b 0 dir;
  let p := targetDirLen h in
  add ← (if p =? 0 then mret true else last ← rd b (p - 1); mret (negb (last =? SLASH)));
  if (add : bool) then
    b ← wr b p SLASH;
    mret (mk_helper (targetDir h) (zipDir h) (buf h) (targetDirLen h + 1) (zipDirLen h) (bufLen h), b)
  else mret (h, b).

(** A buffer of at least [needLen] bytes, and its size; [None] without memory. *)
Definition grow_buffer (h : MzPathHelper) (needLen : Z) : outcome (option (list Z * Z)) :=
  if bufLen h <? needLen then
    needLen ← int_ok (needLen * 2);
    if negb (alloc_ok (u32 needLen)) then mret None
    else mret (Some (realloc (buf h) needLen, needLen))
  else b ← of_option NullPointer (buf h); mret (Some (b, bufLen h)).

(** The part of the path that the entry makes. *)
Definition write_entry_part (h : MzPathHelper) (e : ZipEntry) (b : list Z)
    : outcome (option (list Z) * MzPathHelper) :=
  let n := fileNameLen e - zipDirLen h in
  part ← rd_n (fileName e) (zipDirLen h) n;
  b ← wr_n b (targetDirLen h) part;
  b ← wr b (targetDirLen h + n) 0;
  mret (Some (c_string b),
        mk_helper (targetDir h) (zipDir h) (Some b) (targetDirLen h) (zipDirLen h) (bufLen h)).

Definition targetEntryPath (h : MzPathHelper) (e : ZipEntry) : outcome (option (list Z) * MzPathHelper) :=
  let firstTime := bool_decide (buf h = None) in
  let needLen := s32 (u32 (targetDirLen h + 1 + fileNameLen e - zipDirLen h + 1)) in
  r ← grow_buffer h needLen;
  match r with
  | None => mret (None, h)
  | Some (b, blen) =>
      let h := mk_helper (targetDir h) (zipDir h) (Some b) (targetDirLen h) (zipDirLen h) blen in
      '(h, b) ← (if firstTime then write_base h b else mret (h, b));
      write_entry_part h e b
  end.

Definition MZ_EXTRACT_FILES_ONLY : Z := 1.
Definition MZ_EXTRACT_DRY_RUN : Z := 2.
Definition UNZIP_DIRMODE : Z := 0x1ed.
Definition UNZIP_FILEMODE : Z := 0x1a4.

Context {F : Type} `{ArchiveFile F} `{Zlib}.
Context {W : Type} `{FileSystem W} `{FileWriter W} {A : Type}.
Context (fuel tries : nat).
Context (flags : Z) (timestamp : option Z) (callback : option (list Z → A → A)).

(** What the loop of [mzExtractRecursive] changes; [x_arg] is the state behind the
    cookie of the callback. *)
Record XState := mk_x { x_file : F; x_w : W; x_arg : A; x_helper : MzPathHelper; x_ok : bool }.

Definition has_flag (flag : Z) : bool := negb (Z.land flags flag =? 0).

Definition call_back (fn : list Z) (s : XState) : XState :=
  match callback with
  | Some g => mk_x (x_file s) (x_w s) (g fn (x_arg s)) (x_helper s) (x_ok s)
  | None => s
  end.

Definition set_world (w : W) (s : XState) : XState :=
  mk_x (x_file s) w (x_arg s) (x_helper s) (x_ok s).
Definition set_file (f : F) (s : XState) : XState :=
  mk_x f (x_w s) (x_arg s) (x_helper s) (x_ok s).
Definition set_ok (ok : bool) (s : XState) : XState :=
  mk_x (x_file s) (x_w s) (x_arg s) (x_helper s) ok.

(** The branches below yield whether the loop goes on, and the state. *)

(** The entry is a symbolic link. *)
Definition extract_symlink (targetFile : list Z) (e : ZipEntry) (s : XState) : outcome (bool * XState) :=
  if uncompLen e =? 0 then mret (false, set_ok false s)
  else if negb (alloc_ok (u32 (uncompLen e + 1))) then mret (false, set_ok false s)
  else
    '(ok, f, linkTarget) ← mzReadZipEntry fuel (x_file s) e
      (replicate (Z.to_nat (u32 (uncompLen e + 1))) 0) (uncompLen e);
    let s := set_ok ok (set_file f s) in
    if negb ok then mret (false, s)
    else
      linkTarget ← wr linkTarget (uncompLen e) 0;
      match sys_symlink (c_string linkTarget) targetFile (x_w s) with
      | (inl _, w) => mret (false, set_ok false (set_world w s))
      | (inr _, w) => mret (true, set_world w s)
      end.

(** The entry is a regular file. The [ok] that this branch assigns is declared in
    it, so that the [ok] of the function keeps its value. *)
Definition extract_file (targetFile : list Z) (e : ZipEntry) (s : XState) : outcome (bool * XState) :=
  match sys_creat targetFile UNZIP_FILEMODE (x_w s) with
  | (inl _, w) => mret (false, set_ok false (set_world w s))
  | (inr fd, w) =>
      '(ok, f, w) ← mzExtractZipEntryToFile fuel tries (x_file s) e fd w;
      let s := set_world (sys_close fd w) (set_file f s) in
      if negb ok then mret (false, s)
      else
        match timestamp with
        | None => mret (true, s)
        | Some t =>
            match sys_utime targetFile t (x_w s) with
            | (inl _, w) => mret (false, set_world w s)
            | (inr _, w) => mret (true, set_world w s)
            end
        end
  end.

(** An entry whose name begins with [zpath]. *)
Definition extract_entry (e : ZipEntry) (s : XState) : outcome (bool * XState) :=
  '(path, h) ← targetEntryPath (x_helper s) e;
  let s := mk_x (x_file s) (x_w s) (x_arg s) h (x_ok s) in
  match path with
  | None => mret (false, set_ok false s)
  | Some targetFile =>
      if has_flag MZ_EXTRACT_DRY_RUN then mret (true, call_back targetFile s)
      else
        last ← rd (fileName e) (fileNameLen e - 1);
        '(go, s) ←
          (if last =? SLASH then
             if negb (has_flag MZ_EXTRACT_FILES_ONLY) then
               '(ret, w) ← dirCreateHierarchy alloc_ok targetFile UNZIP_DIRMODE timestamp false (x_w s);
               match ret with
               | inl _ => mret (false, set_ok false (set_world w s))
               | inr _ => mret (true, set_world w s)
               end
             else mret (true, s)
           else
             '(ret, w) ← dirCreateHierarchy alloc_ok targetFile UNZIP_DIRMODE timestamp true (x_w s);
             let s := set_world w s in
             match ret with
             | inl _ => mret (false, set_ok false s)
             | inr _ =>
                 if negb (has_flag MZ_EXTRACT_FILES_ONLY) && mzIsZipEntrySymlink e
                 then extract_symlink targetFile e s
                 else extract_file targetFile e s
             end : outcome (bool * XState));
        mret (go, if (go : bool) then call_back targetFile s else s)
  end.

Fixpoint extract_loop (zpath : list Z) (es : list ZipEntry) (seenMatch : bool) (s : XState)
    : outcome XState :=
  match es with
  | [] => mret s
  | e :: es =>
      if fileNameLen e <? zlen zpath then
        if seenMatch then mret s else extract_loop zpath es seenMatch s
      else if negb (strncmp (length zpath) (fileName e) zpath =? 0) then
        if seenMatch then mret s else extract_loop zpath es seenMatch s
      else
        '(go, s) ← extract_entry e s;
        if (go : bool) then extract_loop zpath es true s else mret s
  end.

(** The directory with a slash at its end, unless it is empty. *)
Definition canonical_zip_dir (zipDir : list Z) : list Z :=
  match last zipDir with
  | Some c => if negb (c =? SLASH) then zipDir ++ [SLASH] else zipDir
  | None => zipDir
  end.

Definition mzExtractRecursive (entries : list ZipEntry) (f : F) (zipDir targetDir : list Z)
    (w : W) (cookie : A) : outcome (bool * F * W * A) :=
  if char_at zipDir 0 =? SLASH then mret (false, f, w, cookie)
  else if negb (char_at targetDir 0 =? SLASH) then mret (false, f, w, cookie)
  else if negb (alloc_ok (zlen zipDir + 2)) then mret (false, f, w, cookie)
  else
    let zpath := canonical_zip_dir zipDir in
    let h := mk_helper targetDir zpath None (zlen targetDir) (zlen zpath) 0 in
    s ← extract_loop zpath entries false (mk_x f w cookie h true);
    mret (x_ok s, x_file s, x_w s, x_arg s).
End extract.
Arguments XState : clear implicits.

(** ** Laws of what is called *)

(** Regular files, as POSIX has them: a read yields what is left up to its count,
    and one of more than [SSIZE_MAX] bytes fails. *)
Class RegularFile (F : Type) `{ArchiveFile F} := {
  fdata : F → list Z;
  fpos : F → Z;
  read_law f n : 0 ≤ n < 2 ^ 31 → 0 ≤ fpos f → ∃ f',
    let data := take (Z.to_nat n) (drop (Z.to_nat (fpos f)) (fdata f)) in
    sys_read f n = (inr data, f') ∧ fdata f' = fdata f ∧ fpos f' = fpos f + zlen data;
  read_too_long f n : 2 ^ 31 ≤ n < 2 ^ 32 → ∃ errno f', sys_read f n = (inl errno, f');
  lseek_cur_law f : lseek_cur f = (fpos f, f);
  lseek_set_law f off : 0 ≤ off → fdata (lseek_set f off) = fdata f ∧ fpos (lseek_set f off) = off
}.

(** zlib on a complete stream [c] of the data [d]: [inflate] consumes and produces
    the next pieces, makes progress when it answers Z_OK, and answers
    Z_STREAM_END when all is produced. The checksum of a concatenation
    continues from the checksum of its first part. *)
Class ZlibLaws `{Zlib} := {
  deflated : list Z → list Z → Prop;
  z_in : zstate → list Z;
  z_out : zstate → list Z;
  init_law : ∃ z, inflateInit2 = inr z ∧ z_in z = [] ∧ z_out z = [];
  inflate_law c d z inp rest avail :
    deflated c d → c = z_in z ++ inp ++ rest → z_out z `prefix_of` d →
    (inp = [] → rest = []) → 0 < avail →
    ∃ zerr k out z', inflate z inp avail = (zerr, k, out, z') ∧ (k ≤ length inp)%nat ∧
      z_in z' = z_in z ++ take k inp ∧ z_out z' = z_out z ++ out ∧ zlen out ≤ avail ∧
      z_out z' `prefix_of` d ∧
      (zerr = Z_OK ∧ (0 < k + length out)%nat ∨ zerr = Z_STREAM_END ∧ z_out z' = d);
  crc_app crc a b : zlib_crc32 (zlib_crc32 crc a) b = zlib_crc32 crc (a ++ b);
  crc_range crc a : 0 ≤ zlib_crc32 crc a < 2 ^ 32
}.

(** ** The data in pieces *)
Lemma buf_size_exists : { n : nat | Z.of_nat n = BUF_SIZE }.
Proof. exists (Z.to_nat BUF_SIZE). unfold BUF_SIZE. lia. Qed.
(** The size of the buffers as a number whose unary form is never computed. *)
Definition buf_size : nat := proj1_sig buf_size_exists.
Lemma buf_size_Z : Z.of_nat buf_size = BUF_SIZE.
Proof. exact (proj2_sig buf_size_exists). Qed.
Lemma buf_size_pos : (0 < buf_size)%nat ∧ 0 < BUF_SIZE < 2 ^ 31.
Proof. pose proof buf_size_Z. unfold BUF_SIZE in *. lia. Qed.

Fixpoint chunks_of (fuel : nat) (l : list Z) : list (list Z) :=
  match fuel, l with
  | S fuel, _ :: _ => take buf_size l :: chunks_of fuel (drop buf_size l)
  | _, _ => []
  end.

(** The data in pieces of the size of the buffer, the last one shorter. *)
Definition chunks (l : list Z) : list (list Z) := chunks_of (length l) l.

Lemma chunks_of_enough fuel l : (length l ≤ fuel)%nat → chunks_of fuel l = chunks l.
Proof.
  unfold chunks. pose proof buf_size_pos as [? _].
  assert (Hgen : ∀ f1 f2 l, (length l ≤ f1)%nat → (length l ≤ f2)%nat → chunks_of f1 l = chunks_of f2 l).
  { induction f1 as [|f1 IH]; intros f2 [|x l'] H1 H2; simpl in *; try lia; [by destruct f2..|].
    destruct f2 as [|f2]; [lia|]. cbn [chunks_of]. f_equal.
    apply IH; rewrite length_drop; simpl; lia. }
  intros. by apply Hgen.
Qed.

Lemma chunks_cons l : l ≠ [] → chunks l = take buf_size l :: chunks (drop buf_size l).
Proof.
  intros Hl. pose proof buf_size_pos as [? _]. destruct l as [|x l]; [done|].
  change (chunks (x :: l)) with
    (take buf_size (x :: l) :: chunks_of (length l) (drop buf_size (x :: l))).
  f_equal. apply chunks_of_enough. rewrite length_drop. simpl. lia.
Qed.

Lemma chunks_full l1 l2 : length l1 = buf_size → chunks (l1 ++ l2) = l1 :: chunks l2.
Proof.
  intros Hl. pose proof buf_size_pos as [? _].
  rewrite chunks_cons by (destruct l1; simpl in *; [lia|done]). by rewrite <- Hl, take_app_length, drop_app_length.
Qed.

Lemma chunks_short l : l ≠ [] → (length l ≤ buf_size)%nat → chunks l = [l].
Proof. intros. rewrite chunks_cons by done. by rewrite take_ge, drop_ge by lia. Qed.

Lemma concat_chunks l : concat (chunks l) = l.
Proof.
  pose proof buf_size_pos as [? _].
  induction l as [l IH] using (induction_ltof1 _ length). unfold ltof in IH.
  destruct l as [|x l]; [done|]. rewrite chunks_cons by done. simpl concat.
  rewrite IH by (rewrite length_drop; simpl; lia). apply take_drop.
Qed.

Lemma chunks_length l x : x ∈ chunks l → (length x ≤ buf_size)%nat.
Proof.
  pose proof buf_size_pos as [? _].
  induction l as [l IH] using (induction_ltof1 _ length). unfold ltof in IH.
  destruct l as [|y l]; [by intros ?%elem_of_nil|]. rewrite chunks_cons by done.
  intros [->|Hx]%elem_of_cons; [rewrite length_take; lia|].
  apply (IH _) in Hx; [done|]. rewrite length_drop. simpl. lia.
Qed.

Section feed.
Context {C : Type} (pf : list Z → C → outcome (bool * C)).

(** The calls that the client sees. *)
Fixpoint feed (ds : list (list Z)) (c : C) : outcome (bool * C) :=
  match ds with
  | [] => mret (true, c)
  | d :: ds => '(ret, c) ← pf d c; if negb ret then mret (false, c) else feed ds c
  end.
End feed.

(** [m] ends as the calls [r] of the client do, and leaves a file with [P]. *)
Definition ends_as {F C} (m : outcome (bool * F * C)) (r : outcome (bool * C)) (P : F → Prop) : Prop :=
  match r with
  | Ret (b, c) => ∃ f, m = Ret (b, f, c) ∧ P f
  | Fault x => m = Fault x
  | Diverge => m = Diverge
  end.

Section streaming.
Context {F : Type} `{RegularFile F} `{ZlibLaws} {C : Type}.
Context (pf : list Z → C → outcome (bool * C)).
Implicit Types (f : F) (c : C) (e : ZipEntry).

(** The bytes of the file from its position on. *)
Definition ahead f : list Z := drop (Z.to_nat (fpos f)) (fdata f).

Lemma read_ahead f n data post :
  0 ≤ fpos f → ahead f = data ++ post → zlen data = n → n < 2 ^ 31 →
  ∃ f', sys_read f n = (inr data, f') ∧ fdata f' = fdata f ∧ 0 ≤ fpos f' ∧ ahead f' = post.
Proof.
  intros Hp Ha Hn Hmax. destruct (read_law f n) as (f' & Hr & Hd & Hpos); [lia|done|].
  unfold ahead in Ha.
  assert (Htake : take (Z.to_nat n) (drop (Z.to_nat (fpos f)) (fdata f)) = data).
  { rewrite Ha, <- Hn, Nat2Z.id. apply take_app_length. }
  simpl in *. rewrite Htake in *. exists f'. split; [done|]. split; [done|]. split; [lia|].
  unfold ahead. rewrite Hd, Hpos, Z2Nat.inj_add, Nat2Z.id, <- drop_drop, Ha by lia.
  apply drop_app_length.
Qed.

Lemma stored_loop_spec fuel : ∀ f data post c,
  0 ≤ fpos f → ahead f = data ++ post → zlen data + BUF_SIZE ≤ Z.of_nat fuel * BUF_SIZE →
  ends_as (stored_loop pf fuel f (zlen data) c) (feed pf (chunks data) c)
    (λ f', fdata f' = fdata f).
Proof.
  pose proof buf_size_pos as [? ?]. pose proof buf_size_Z.
  induction fuel as [|fuel IH]; intros f data post c Hp Ha Hf; [lia|]. cbn [stored_loop].
  destruct (Z.ltb_spec 0 (zlen data)) as [Hpos|].
  2:{ destruct data; [|simpl in *; lia]. simpl. eauto. }
  set (count := if _ <? _ then _ else _).
  assert (Hcount : count = zlen (take buf_size data)).
  { unfold count. rewrite length_take.
    destruct (Z.ltb_spec BUF_SIZE (zlen data)); lia. }
  rewrite chunks_cons by (by destruct data). cbn [feed].
  destruct (read_ahead f count (take buf_size data) (drop buf_size data ++ post))
    as (f1 & -> & Hd1 & Hp1 & Ha1);
    [done|by rewrite app_assoc, take_drop|done|rewrite Hcount, length_take; lia|].
  rewrite Hcount, Z.eqb_refl. simpl.
  destruct (pf (take buf_size data) c) as [[[|] c1]|x|]; simpl; [|eauto|done|done].
  replace (zlen data - zlen (take buf_size data)) with (zlen (drop buf_size data))
    by (rewrite length_take, length_drop; lia).
  rewrite <- Hd1. eapply IH; [done|done|]. rewrite length_drop.
  destruct fuel; [lia|]. rewrite !Nat2Z.inj_succ, !Z.mul_succ_l in *. lia.
Qed.

Lemma processStoredEntry_spec f e data post c :
  0 ≤ fpos f → ahead f = data ++ post → compLen e = zlen data → zlen data < 2 ^ 32 →
  ends_as (processStoredEntry pf f e c) (feed pf (chunks data) c) (λ f', fdata f' = fdata f).
Proof.
  intros. unfold processStoredEntry. rewrite u32_small by lia.
  pose proof buf_size_pos as [? ?].
  replace (compLen e) with (zlen data) by done. eapply stored_loop_spec; [done|done|].
  pose proof (Z.mod_pos_bound (zlen data) BUF_SIZE). pose proof (Z.div_mod (zlen data) BUF_SIZE).
  rewrite Nat2Z.inj_succ, Z2Nat.id by (pose proof (Z.div_pos (zlen data) BUF_SIZE); lia). lia.
Qed.

(** The stream [c], of which [tail] is still in the file, decodes to [d]. *)
Record inflating (strm d tail post : list Z) (s : inflate_state F) : Prop := {
  in_stream : deflated strm d;
  in_input : strm = z_in (is_z s) ++ is_in s ++ tail;
  in_prefix : z_out (is_z s) `prefix_of` d;
  in_room : zlen (is_out s) < BUF_SIZE;
  in_total : total_out s = zlen (z_out (is_z s));
  in_file : 0 ≤ fpos (is_file s) ∧ ahead (is_file s) = tail ++ post;
  in_remaining : compRemaining s = zlen tail
}.

Lemma refill_spec strm d tail post s :
  inflating strm d tail post s → zlen strm < 2 ^ 31 →
  ∃ s' tail', refill s = Ret (Some s', is_file s') ∧ inflating strm d tail' post s' ∧
    (is_in s' = [] → tail' = []) ∧ is_z s' = is_z s ∧ is_out s' = is_out s ∧
    total_out s' = total_out s ∧ fdata (is_file s') = fdata (is_file s).
Proof.
  intros Hs Hc. pose proof Hs as [Hd Hin Hpre Hroom Htot [Hp Ha] Hrem].
  pose proof buf_size_pos as [? ?]. pose proof buf_size_Z. unfold refill.
  case_bool_decide as Hempty; 
    [|exists s, tail; split_and!; first [exact Hs|reflexivity|by intros ?]].
  rewrite Hrem. set (getSize := if _ <? _ then _ else _).
  assert (Hg : getSize = zlen (take buf_size tail)).
  { unfold getSize. rewrite length_take. destruct (Z.ltb_spec BUF_SIZE (zlen tail)); lia. }
  rewrite Hin in Hc. rewrite !length_app in Hc.
  destruct (read_ahead (is_file s) getSize (take buf_size tail) (drop buf_size tail ++ post))
    as (f1 & Hr & Hd1 & Hp1 & Ha1);
    [done|by rewrite app_assoc, take_drop|done|rewrite Hg, length_take; lia|].
  assert (0 ≤ getSize ≤ BUF_SIZE) by (rewrite Hg, length_take; lia).
  rewrite u32_small, Hr by lia. rewrite Hg, Z.eqb_refl. simpl. rewrite <- Hg.
  destruct (Z.ltb_spec BUF_SIZE getSize); [lia|].
  exists (mk_inflate (is_z s) (take buf_size tail) (is_out s) (total_out s) (zlen tail - getSize) f1),
    (drop buf_size tail). split; [reflexivity|]. simpl. split; [constructor; simpl;
    [exact Hd| |exact Hpre|exact Hroom|exact Htot|by split|]|].
  - by rewrite take_drop, Hin, Hempty.
  - rewrite Hg, length_take, length_drop. lia.
  - split_and!; [|reflexivity|reflexivity|reflexivity|exact Hd1]. intros Ht.
    apply (f_equal length) in Ht. rewrite length_take in Ht. simpl in Ht.
    apply nil_length_inv. rewrite length_drop. lia.
Qed.

Lemma inflate_loop_spec strm d post fuel : ∀ s tail c,
  inflating strm d tail post s → zlen strm < 2 ^ 31 → zlen d < 2 ^ 31 →
  (length strm + length d < fuel + length (z_in (is_z s)) + length (z_out (is_z s)))%nat →
  match feed pf (chunks (is_out s ++ drop (length (z_out (is_z s))) d)) c with
  | Ret (b, c') => ∃ f', inflate_loop pf fuel s c =
      Ret (if b then zlen d else -1, f', c') ∧ fdata f' = fdata (is_file s)
  | Fault x => inflate_loop pf fuel s c = Fault x
  | Diverge => inflate_loop pf fuel s c = Diverge
  end.
Proof.
  pose proof buf_size_pos as [? ?]. pose proof buf_size_Z as Hbz.
  induction fuel as [|fuel IH]; intros s tail c Hs Hc Hd Hf.
  { destruct Hs as [_ Hin Hpre _ _ _ _]. apply prefix_length in Hpre.
    rewrite Hin in Hf. rewrite !length_app in Hf. lia. }
  cbn [inflate_loop].
  destruct (refill_spec _ _ _ _ _ Hs Hc) as (s1 & tail1 & -> & Hs1 & Hmore & Hz & Ho & _ & Hfd).
  rewrite <- Hz, <- Ho, <- Hfd in *. clear Hs Hz Ho Hfd. cbn [mbind outcome_bind].
  pose proof Hs1 as [Hst Hin Hpre Hroom Htot Hfile Hrem].
  destruct (inflate_law strm d (is_z s1) (is_in s1) tail1 (BUF_SIZE - zlen (is_out s1)))
    as (zerr & k & out & z & -> & Hk & Hzin & Hzout & Hout & Hpre' & Hres); try done; [lia|].
  set (out' := is_out s1 ++ out).
  assert (Hd' : is_out s1 ++ drop (length (z_out (is_z s1))) d =
    out' ++ drop (length (z_out z)) d).
  { unfold out'. destruct Hpre' as [more ->]. rewrite drop_app_length, <- app_assoc. f_equal.
    by rewrite Hzout, <- app_assoc, drop_app_length. }
  assert (Hzs : zlen (z_out z) ≤ zlen d) by (apply prefix_length in Hpre'; lia).
  assert (Htot' : u32 (total_out s1 + zlen out) = zlen (z_out z)).
  { rewrite Hzout, length_app in *. rewrite Htot, u32_small; lia. }
  assert (Hnext : ∀ o, zlen o < BUF_SIZE → inflating strm d tail1 post
    (mk_inflate z (drop k (is_in s1)) o (zlen (z_out z)) (compRemaining s1) (is_file s1))).
  { intros o ?. split; simpl; try done. rewrite Hzin, <- app_assoc, (app_assoc (take k _)).
    by rewrite take_drop. }
  rewrite Hd', Htot'.
  assert (Hlen' : zlen out' ≤ BUF_SIZE) by (unfold out'; rewrite length_app; lia).
  assert (Herr : negb (zerr =? Z_OK) && negb (zerr =? Z_STREAM_END) = false)
    by (destruct Hres as [[-> _]|[-> _]]; done).
  rewrite Herr. cbn [is_in is_file compRemaining total_out is_z is_out].
  assert (Hdone : zerr = Z_STREAM_END → drop (length (z_out z)) d = [] ∧
    s32 (zlen (z_out z)) = zlen d).
  { intros ->. destruct Hres as [[? _]|[_ ->]]; [done|]. rewrite drop_ge by lia.
    by rewrite s32_small by lia. }
  assert (Hstep : ∀ o, zerr = Z_OK → zlen o < BUF_SIZE → ∀ c,
    match feed pf (chunks (o ++ drop (length (z_out z)) d)) c with
    | Ret (b, c') => ∃ f', inflate_loop pf fuel
        (mk_inflate z (drop k (is_in s1)) o (zlen (z_out z)) (compRemaining s1) (is_file s1)) c =
        Ret (if b then zlen d else -1, f', c') ∧ fdata f' = fdata (is_file s1)
    | Fault x => inflate_loop pf fuel
        (mk_inflate z (drop k (is_in s1)) o (zlen (z_out z)) (compRemaining s1) (is_file s1)) c = Fault x
    | Diverge => inflate_loop pf fuel
        (mk_inflate z (drop k (is_in s1)) o (zlen (z_out z)) (compRemaining s1) (is_file s1)) c = Diverge
    end).
  { intros o -> Ho c1. destruct Hres as [[_ Hprog]|[? _]]; [|done].
    apply (IH (mk_inflate z (drop k (is_in s1)) o (zlen (z_out z)) (compRemaining s1) (is_file s1)) tail1);
      [by apply Hnext|done|done|]. simpl.
    rewrite Hzin, Hzout, !length_app, length_take. lia. }
  destruct (Z.eqb_spec (BUF_SIZE - zlen out') 0) as [Hfull|Hroom']; cbn [orb].
  - rewrite chunks_full by lia. cbn [feed].
    destruct (pf out' c) as [[[|] c1]|x|]; simpl; [|eauto|done|done].
    destruct Hres as [[-> _]|[-> Hd2]]; cbn [Z.eqb Z_OK Z_STREAM_END].
    + apply (Hstep []); [done|simpl; lia].
    + destruct Hdone as [-> ->]; [done|]. simpl. eauto.
  - destruct Hres as [[-> _]|[-> Hd2]]; cbn [Z.eqb Z_OK Z_STREAM_END andb].
    + apply Hstep; [done|lia].
    + destruct Hdone as [-> Hs32]; [done|]. rewrite app_nil_r.
      destruct (Z.eqb_spec (BUF_SIZE - zlen out') BUF_SIZE) as [Hnil|Hne]; simpl.
      * destruct out' as [|? ?]; [|simpl in Hnil; lia]. simpl. rewrite Hs32. eauto.
      * rewrite chunks_short by (try lia; intros ->; simpl in Hne; lia). simpl.
        destruct (pf out' c) as [[[|] c1]|x|]; simpl; [|eauto|done|done].
        rewrite Hs32. eauto.
Qed.

(** The entry holds the data [d]: its part of the file is [d] itself, or a stream
    of [d] whose length the entry states. *)
Definition entry_contents f e (d : list Z) : Prop :=
  0 ≤ offset e ∧ compLen e < 2 ^ 31 ∧ zlen d < 2 ^ 31 ∧
  ∃ raw post, drop (Z.to_nat (offset e)) (fdata f) = raw ++ post ∧ compLen e = zlen raw ∧
    (compression e = STORED ∧ d = raw ∨
     compression e = DEFLATED ∧ deflated raw d ∧ uncompLen e = zlen d).

Lemma processDeflatedEntry_spec fuel f e raw d post c :
  0 ≤ fpos f → ahead f = raw ++ post → compLen e = zlen raw → zlen raw < 2 ^ 31 → zlen d < 2 ^ 31 →
  deflated raw d → uncompLen e = zlen d → (length raw + length d < fuel)%nat →
  ends_as (processDeflatedEntry pf fuel f e c) (feed pf (chunks d) c) (λ f', fdata f' = fdata f).
Proof.
  intros Hp Ha Hcomp Hr Hd Hdef Hlen Hf. unfold processDeflatedEntry.
  pose proof buf_size_pos as [? ?].
  destruct init_law as (z & -> & Hin & Hout).
  pose proof (inflate_loop_spec raw d post fuel (mk_inflate z [] [] 0 (compLen e) f) raw c) as Hl.
  cbn [is_z is_out is_file] in Hl. rewrite Hout in Hl. cbn [length app] in Hl. rewrite drop_0 in Hl.
  lapply Hl; [clear Hl; intros Hl|].
  2:{ constructor; simpl; [done|by rewrite Hin|rewrite Hout; apply prefix_nil|lia|by rewrite Hout|
        done|done]. }
  specialize (Hl Hr Hd). rewrite Hin in Hl. specialize (Hl ltac:(simpl; lia)).
  destruct (feed pf (chunks d) c) as [[b c']|x|]; [|by rewrite Hl..].
  destruct Hl as (f' & -> & Hf'). simpl. exists f'. split; [|done].
  rewrite Hlen. destruct b; [by rewrite Z.eqb_refl|].
  by rewrite (proj2 (Z.eqb_neq _ _)) by lia.
Qed.

(** Streaming an entry shows the client its data in pieces, and puts the file
    offset back. *)
Lemma process_spec fuel f e d c :
  0 ≤ fpos f → entry_contents f e d → compLen e + zlen d < Z.of_nat fuel →
  ends_as (mzProcessZipEntryContents pf fuel f e c) (feed pf (chunks d) c)
    (λ f', fdata f' = fdata f ∧ fpos f' = fpos f).
Proof.
  intros Hp (Ho & Hmax & Hd & raw & post & Hraw & Hcomp & Hkind) Hf.
  unfold mzProcessZipEntryContents. rewrite lseek_cur_law.
  destruct (lseek_set_law f (offset e) Ho) as [Hfd Hpos].
  assert (Ha : ahead (lseek_set f (offset e)) = raw ++ post) by (unfold ahead; by rewrite Hfd, Hpos).
  assert (Hgoal : ∀ m, ends_as m (feed pf (chunks d) c) (λ f', fdata f' = fdata f) →
    ends_as ('(ret, f', c') ← m; mret (ret, lseek_set f' (fpos f), c')) (feed pf (chunks d) c)
      (λ f', fdata f' = fdata f ∧ fpos f' = fpos f)).
  { intros m Hm. destruct (feed pf (chunks d) c) as [[b c']|x|]; simpl in *; [|by rewrite Hm..].
    destruct Hm as (f' & -> & Hf'). simpl. eexists. split; [done|].
    destruct (lseek_set_law f' (fpos f) Hp) as [-> ?]. done. }
  apply Hgoal. rewrite <- Hfd.
  destruct Hkind as [[-> ->]|(-> & Hdef & Hlen)].
  - eapply processStoredEntry_spec; [by rewrite Hpos|done|done|lia].
  - eapply processDeflatedEntry_spec; [by rewrite Hpos|done|done|lia|done|done|done|lia].
Qed.
End streaming.

(** ** What the clients make of the pieces *)
Section client_specs.
Context {F : Type} `{RegularFile F} `{ZlibLaws}.
Implicit Types (f : F) (e : ZipEntry) (d : list Z).

Lemma feed_crc ds crc :
  feed crcProcessFunction ds (zlib_crc32 0 crc) = Ret (true, zlib_crc32 0 (crc ++ concat ds)).
Proof.
  revert crc. induction ds as [|d ds IH]; intros crc; simpl; [by rewrite app_nil_r|].
  by rewrite crc_app, IH, <- app_assoc.
Qed.

Lemma copy_step data mem p n :
  copyProcessFunction data (mk_copy mem p n) =
    if zlen data <=? n
    then mem ← wr_n mem p data; mret (true, mk_copy mem (p + zlen data) (n - zlen data))
    else mret (false, mk_copy mem p n).
Proof. done. Qed.

Lemma buffer_step data mem p n :
  bufferProcessFunction data (mk_bec mem p n) =
    mem ← wr_n mem p data; mret (true, mk_bec mem (p + zlen data) (n - zlen data)).
Proof. done. Qed.

(** Copying never writes behind the room it was given, and ends with the data
    in place or with [false]. *)
Lemma feed_copy ds : ∀ pre room post,
  wp (feed copyProcessFunction ds (mk_copy (pre ++ room ++ post) (zlen pre) (zlen room)))
    (λ '(b, args), b = (zlen (concat ds) <=? zlen room) ∧
      ∃ room', cp_mem args = pre ++ room' ++ post ∧ length room' = length room ∧
        (b = true → room' = concat ds ++ drop (length (concat ds)) room)).
Proof.
  induction ds as [|d ds IH]; intros pre room post; cbn [feed].
  { simpl. split; [symmetry; apply Z.leb_le; lia|]. exists room. by rewrite drop_0. }
  rewrite copy_step. simpl concat.
  rewrite length_app.
  destruct (Z.leb_spec (zlen d) (zlen room)) as [Hle|Hgt].
  2:{ cbn [mbind outcome_bind mret outcome_ret negb wp]. split; [symmetry; apply Z.leb_gt; lia|]. by exists room. }
  destruct (split_range room 0 (zlen d)) as (r0 & r1 & r2 & -> & Hr0 & Hr1); [lia..|].
  destruct r0; [|simpl in Hr0; lia]. cbn [app]. rewrite <- (app_assoc r1), wr_n_app by lia.
  cbn [mbind outcome_bind mret outcome_ret negb].
  replace (pre ++ d ++ r2 ++ post) with ((pre ++ d) ++ r2 ++ post) by (by rewrite <- app_assoc).
  replace (zlen pre + zlen d) with (zlen (pre ++ d)) by (rewrite length_app; lia).
  replace (zlen (r1 ++ r2) - zlen d) with (zlen r2) by (rewrite length_app; lia).
  eapply wp_mono; [apply IH|]. intros [b args] (-> & room' & Hmem & Hlen & Hroom).
  split.
  { apply eq_true_iff_eq. rewrite !Z.leb_le, length_app. lia. }
  exists (d ++ room'). rewrite Hmem, <- !app_assoc. split; [done|]. rewrite !length_app.
  split; [lia|]. intros Hb. rewrite Hroom by done. f_equal. f_equal.
  replace (length d) with (length r1) by lia.
  by rewrite <- drop_drop, drop_app_length.
Qed.

Lemma feed_buffer ds : ∀ pre room l,
  feed bufferProcessFunction ds (mk_bec (pre ++ room) (zlen pre) l) =
    if zlen (concat ds) <=? zlen room
    then Ret (true, mk_bec (pre ++ concat ds ++ drop (length (concat ds)) room)
                (zlen pre + zlen (concat ds)) (l - zlen (concat ds)))
    else Fault OutOfBounds.
Proof.
  induction ds as [|d ds IH]; intros pre room l; cbn [feed].
  { simpl. rewrite (proj2 (Z.leb_le 0 _)) by lia. unfold mret, outcome_ret.
    do 3 f_equal; [|lia]. lia. }
  rewrite buffer_step. simpl concat.
  rewrite length_app.
  destruct (decide (zlen d ≤ zlen room)) as [Hle|Hgt].
  - destruct (split_range room 0 (zlen d)) as (r0 & r1 & r2 & -> & Hr0 & Hr1); [lia..|].
    destruct r0; [|simpl in Hr0; lia]. simpl. rewrite wr_n_app by lia.
    cbn [mbind outcome_bind negb mret outcome_ret].
    rewrite (app_assoc pre).
    replace (zlen pre + zlen d) with (zlen (pre ++ d)) by (rewrite length_app; lia).
    rewrite IH, !length_app.
    destruct (Z.leb_spec (zlen (concat ds)) (zlen r2)),
      (Z.leb_spec (Z.of_nat (length d + length (concat ds))) (Z.of_nat (length r1 + length r2)));
      try lia; [|done].
    assert (drop (length d + length (concat ds)) (r1 ++ r2) = drop (length (concat ds)) r2) as ->.
    { replace (length d) with (length r1) by lia. by rewrite <- drop_drop, drop_app_length. }
    rewrite <- !app_assoc. do 3 f_equal; lia.
  - unfold wr_n. rewrite !length_app. rewrite (proj2 (Z.ltb_ge (zlen pre) 0)) by lia.
    rewrite (proj2 (Z.ltb_lt _ _)) by lia. simpl.
    by rewrite (proj2 (Z.leb_gt _ _)) by lia.
Qed.

(** : [mzIsZipEntryIntact] computes the checksum of the data of the entry and
    compares it with the stored one. *)
Theorem mzIsZipEntryIntact_correct fuel f e d :
  0 ≤ fpos f → entry_contents f e d → compLen e + zlen d < Z.of_nat fuel →
  ∃ f', mzIsZipEntryIntact fuel f e = Ret (zlib_crc32 0 d =? u32 (crc32 e), f') ∧
    fdata f' = fdata f ∧ fpos f' = fpos f.
Proof.
  intros Hp He Hf. unfold mzIsZipEntryIntact.
  pose proof (process_spec crcProcessFunction fuel f e d (zlib_crc32 0 []) Hp He Hf) as Hspec.
  rewrite feed_crc, concat_chunks in Hspec. destruct Hspec as (f' & -> & ?). simpl. eauto.
Qed.

(** C38: [mzReadZipEntry] succeeds exactly when the data fits the length it is
    given, and then the buffer starts with the data. It never changes a byte
    behind that length. *)
Theorem mzReadZipEntry_correct fuel f e d buf bufLen :
  0 ≤ fpos f → entry_contents f e d → compLen e + zlen d < Z.of_nat fuel →
  0 ≤ bufLen ≤ zlen buf →
  wp (mzReadZipEntry fuel f e buf bufLen) (λ '(b, f', buf'), fdata f' = fdata f ∧ fpos f' = fpos f ∧
    b = (zlen d <=? bufLen) ∧ length buf' = length buf ∧
    drop (Z.to_nat bufLen) buf' = drop (Z.to_nat bufLen) buf ∧
    (b = true → buf' = d ++ drop (length d) buf)).
Proof.
  intros Hp He Hf Hb. unfold mzReadZipEntry.
  destruct (split_range buf 0 bufLen) as (r0 & room & post & -> & Hr0 & Hroom); [lia..|].
  destruct r0; [|simpl in Hr0; lia]. simpl app in *.
  pose proof (process_spec copyProcessFunction fuel f e d (mk_copy (room ++ post) 0 bufLen) Hp He Hf)
    as Hspec.
  pose proof (feed_copy (chunks d) [] room post) as Hcopy. simpl app in Hcopy.
  change (zlen (@nil Z)) with 0 in Hcopy. rewrite concat_chunks in Hcopy.
  rewrite <- Hroom in *.
  destruct (feed copyProcessFunction (chunks d) _) as [[b args]|x|]; [|done..].
  destruct Hspec as (f' & -> & Hfd & Hpos). destruct Hcopy as (-> & room' & Hmem & Hlen & Hdone).
  simpl. rewrite Hmem. do 3 (split; [done|]). rewrite Nat2Z.id, !length_app.
  split; [lia|]. split; [by rewrite <- Hlen at 1; rewrite !drop_app_length|].
  intros Hle. rewrite (Hdone Hle), <- app_assoc. apply Z.leb_le in Hle.
  by rewrite drop_app_le by lia.
Qed.

(** C39: [mzExtractZipEntryToBuffer] has no bound of its own: when the data is
    longer than the buffer it writes behind the end, and otherwise the buffer
    starts with the data and the result tells whether its length is the one
    that the entry states. *)
Theorem mzExtractZipEntryToBuffer_correct fuel f e d buf :
  0 ≤ fpos f → entry_contents f e d → compLen e + zlen d < Z.of_nat fuel →
  if zlen d <=? zlen buf
  then ∃ f', mzExtractZipEntryToBuffer fuel f e buf =
      Ret (uncompLen e =? zlen d, f', d ++ drop (length d) buf)
  else mzExtractZipEntryToBuffer fuel f e buf = Fault OutOfBounds.
Proof.
  intros Hp He Hf. unfold mzExtractZipEntryToBuffer.
  pose proof (process_spec bufferProcessFunction fuel f e d (mk_bec buf 0 (uncompLen e)) Hp He Hf)
    as Hspec.
  pose proof (feed_buffer (chunks d) [] buf (uncompLen e)) as Hbuf. simpl app in Hbuf.
  change (zlen (@nil Z)) with 0 in Hbuf. rewrite concat_chunks in Hbuf. rewrite Hbuf in Hspec.
  destruct (zlen d <=? zlen buf); [|simpl in Hspec; by rewrite Hspec].
  destruct Hspec as (f' & -> & _). simpl. exists f'. do 3 f_equal.
  apply eq_true_iff_eq. rewrite !Z.eqb_eq. lia.
Qed.
End client_specs.

(** ** Writing an entry to a file *)

(** What POSIX says of [write]: it takes at least one byte of a non-empty piece,
    or fails; a handled signal interrupts it only if the process has installed a
    handler, which the recovery process does not. *)
Class WriterLaws (W : Type) `{FileWriter W} := {
  fcontents : W → Z → list Z;
  write_law fd data w : data ≠ [] → ∃ n errno w', sys_write fd data w = (n, errno, w') ∧
    (0 < n ≤ zlen data ∧ fcontents w' fd = fcontents w fd ++ take (Z.to_nat n) data ∨
     n ≤ 0 ∧ errno ≠ EINTR ∧ fcontents w' fd = fcontents w fd)
}.

Section to_file.
Context {F : Type} `{RegularFile F} `{ZlibLaws} {W : Type} `{WriterLaws W}.
Implicit Types (f : F) (e : ZipEntry) (d : list Z) (w : W).

Lemma write_loop_spec fd data tries : ∀ done todo w,
  data = done ++ todo → todo ≠ [] → (length todo ≤ tries)%nat →
  wp (write_loop tries fd data (zlen done) w) (λ '(b, w'), ∃ more, more `prefix_of` todo ∧
    fcontents w' fd = fcontents w fd ++ more ∧ (b = true → more = todo)).
Proof.
  induction tries as [|tries IH]; intros done todo w -> Hne Hlen; [by destruct todo; simpl in *; [|lia]|].
  cbn [write_loop]. rewrite length_app.
  replace (Z.of_nat (length done + length todo) - zlen done) with (zlen todo) by lia.
  rewrite <- (app_nil_r todo) at 1. rewrite rd_n_app. cbn [mbind outcome_bind].
  destruct (write_law fd todo w Hne) as (n & errno & w1 & -> & Hw).
  destruct Hw as [[Hn Hc]|(Hn & Herr & Hc)].
  - rewrite (proj2 (Z.leb_gt n 0)) by lia.
    destruct (split_range todo 0 n) as (t0 & t1 & t2 & -> & Ht0 & Ht1); [lia..|].
    destruct t0; [|simpl in Ht0; lia]. simpl app in *. rewrite <- Ht1 in *.
    rewrite Nat2Z.id, take_app_length in Hc. rewrite !length_app in *.
    destruct (Z.eqb_spec (zlen done + zlen t1) (Z.of_nat (length done + (length t1 + length t2)))).
    + simpl. exists t1. assert (t2 = []) as -> by (apply nil_length_inv; lia).
      rewrite app_nil_r. done.
    + rewrite (proj2 (Z.ltb_ge _ _)) by lia.
      replace (zlen done + zlen t1) with (zlen (done ++ t1)) by (rewrite length_app; lia).
      eapply wp_mono; [apply (IH (done ++ t1) t2)|].
      * by rewrite <- app_assoc.
      * intros ->. simpl in *. lia.
      * lia.
      * intros [b w2] (more & Hpre & Hmore & Hb). exists (t1 ++ more).
        split; [by apply prefix_app|]. rewrite Hmore, Hc, <- app_assoc. split; [done|].
        intros. by rewrite Hb.
  - rewrite (proj2 (Z.leb_le n 0)), (proj2 (Z.eqb_neq errno EINTR)) by done. simpl.
    exists []. rewrite app_nil_r. split; [apply prefix_nil|]. split; [done|done].
Qed.

Lemma chunks_not_nil d x : x ∈ chunks d → x ≠ [].
Proof.
  pose proof buf_size_pos as [? _].
  induction d as [d IH] using (induction_ltof1 _ length). unfold ltof in IH.
  destruct d as [|y d]; [by intros ?%elem_of_nil|]. rewrite chunks_cons by done.
  intros [->|Hx]%elem_of_cons.
  - destruct buf_size; [lia|done].
  - apply (IH _) in Hx; [done|]. rewrite length_drop. simpl. lia.
Qed.

Lemma feed_write fd tries ds : ∀ w,
  (∀ x, x ∈ ds → x ≠ [] ∧ (length x ≤ tries)%nat) →
  wp (feed (writeProcessFunction tries fd) ds w) (λ '(b, w'), ∃ done, done `prefix_of` concat ds ∧
    fcontents w' fd = fcontents w fd ++ done ∧ (b = true → done = concat ds)).
Proof.
  induction ds as [|d ds IH]; intros w Hds; cbn [feed concat].
  { exists []. rewrite app_nil_r. done. }
  destruct (Hds d) as [Hne Hlen]; [constructor|]. unfold writeProcessFunction at 1.
  apply wp_bind. eapply wp_mono; [by apply (write_loop_spec fd d tries [] d)|].
  intros [b w1] (more & Hpre & Hc & Hb). destruct b; simpl.
  - rewrite Hb in Hc by done. eapply wp_mono; [apply IH; intros x Hx; apply Hds; by constructor|].
    intros [b w2] (done & Hpre2 & Hc2 & Hb2). exists (d ++ done).
    split; [by apply prefix_app|]. rewrite Hc2, Hc, <- app_assoc. split; [done|].
    intros. by rewrite Hb2.
  - exists more. split; [by apply prefix_app_r|]. done.
Qed.

(** : [mzExtractZipEntryToFile] appends to the file a prefix of the data of the
    entry, and reports success only when that is all of it. *)
Theorem mzExtractZipEntryToFile_correct fuel tries f e d fd w :
  0 ≤ fpos f → entry_contents f e d → compLen e + zlen d < Z.of_nat fuel →
  BUF_SIZE ≤ Z.of_nat tries →
  wp (mzExtractZipEntryToFile fuel tries f e fd w) (λ '(b, f', w'),
    fdata f' = fdata f ∧ fpos f' = fpos f ∧ ∃ done, done `prefix_of` d ∧
      fcontents w' fd = fcontents w fd ++ done ∧ (b = true → done = d)).
Proof.
  intros Hp He Hf Ht. unfold mzExtractZipEntryToFile.
  pose proof (process_spec (writeProcessFunction tries fd) fuel f e d w Hp He Hf) as Hspec.
  pose proof (feed_write fd tries (chunks d) w) as Hw. rewrite concat_chunks in Hw.
  lapply Hw; [clear Hw; intros Hw|].
  2:{ intros x Hx. split; [by eapply chunks_not_nil|].
      pose proof (chunks_length d x Hx). pose proof buf_size_Z. lia. }
  destruct (feed _ (chunks d) w) as [[b w']|x|]; [|done..].
  destruct Hspec as (f' & -> & Hfd & Hpos). simpl. done.
Qed.
End to_file.

(** ** Target paths *)

(** The target directory with a slash at its end. *)
Definition base_path (dir : list Z) : list Z :=
  if bool_decide (last dir = Some SLASH) then dir else dir ++ [SLASH].

(** The helper before the first path, and afterwards. *)
Definition helper_ok (dir : list Z) (h : MzPathHelper) : Prop :=
  targetDir h = dir ∧
  match buf h with
  | None => bufLen h = 0 ∧ targetDirLen h = zlen dir
  | Some b => bufLen h = zlen b ∧ targetDirLen h = zlen (base_path dir) ∧
      ∃ rest, b = base_path dir ++ rest
  end.

Lemma base_path_length dir : zlen dir ≤ zlen (base_path dir) ≤ zlen dir + 1.
Proof. unfold base_path. case_bool_decide; rewrite ?length_app; simpl; lia. Qed.

Lemma write_base_spec h dir b :
  targetDir h = dir → targetDirLen h = zlen dir → zlen dir < zlen b →
  wp (write_base h b) (λ '(h', b'), length b' = length b ∧ (∃ rest, b' = base_path dir ++ rest) ∧
    targetDir h' = dir ∧ targetDirLen h' = zlen (base_path dir) ∧ zipDirLen h' = zipDirLen h ∧
    bufLen h' = bufLen h).
Proof.
  intros Hdir Hlen Hb. unfold write_base. rewrite Hdir, Hlen.
  pose proof (rd_n_app [] [] dir) as Hrd. rewrite app_nil_r in Hrd.
  change (rd_n dir 0 (zlen dir) = Ret dir) in Hrd. rewrite Hrd. cbn [mbind outcome_bind].
  destruct (split_range b 0 (zlen dir + 1)) as (r0 & mid & post & -> & Hr0 & Hm); [lia..|].
  destruct r0; [|simpl in Hr0; lia]. simpl app.
  destruct (split_range mid 0 (zlen dir)) as (r0 & m1 & m2 & -> & Hr0' & Hm1); [lia..|].
  destruct r0; [|simpl in Hr0'; lia]. simpl app in *. rewrite length_app in Hm.
  destruct m2 as [|x [|? ?]]; simpl in Hm; [lia| |lia].
  rewrite <- app_assoc. pose proof (wr_n_app [] m1 ([x] ++ post) dir ltac:(lia)) as Hw.
  simpl app in *. change (zlen (@nil Z)) with 0 in Hw. rewrite Hw. cbn [mbind outcome_bind].
  clear Hw.
  destruct (Z.eqb_spec (zlen dir) 0) as [Hz|Hz].
  - destruct dir; [|simpl in *; lia]. destruct m1; [|simpl in *; lia]. simpl.
    split; [done|]. split; [by eexists|]. done.
  - destruct (last dir) as [c|] eqn:Hlast; [|apply last_None in Hlast; rewrite Hlast in Hz; simpl in Hz; lia].
    apply last_Some in Hlast as [d' ->]. rewrite length_app in *. simpl length in *.
    replace (Z.of_nat (length d' + 1) - 1) with (zlen d' + 0) by lia.
    rewrite <- app_assoc, rd_app_r, rd_lookup by lia. unfold base_path. rewrite last_snoc. simpl.
    destruct (Z.eqb_spec c SLASH) as [->|Hc]; simpl.
    + rewrite !length_app. simpl.
      split; [lia|]. split; [by exists (x :: post); rewrite <- app_assoc|]. done.
    + rewrite bool_decide_false by congruence.
      replace (Z.of_nat (length d' + 1)) with (zlen (d' ++ [c]) + 0) by (rewrite length_app; simpl; lia).
      rewrite (cons_middle c d' (x :: post)), (app_assoc d' [c]), wr_app_r by lia. simpl.
      rewrite !length_app. simpl. split; [lia|]. split; [by exists post; rewrite <- !app_assoc|].
      split; [done|]. split; [lia|done].
Qed.

Lemma grow_buffer_spec alloc_ok h needLen :
  match buf h with None => bufLen h = 0 | Some b => bufLen h = zlen b end →
  0 < needLen < 2 ^ 30 →
  wp (grow_buffer alloc_ok h needLen) (λ r, match r with
    | None => ∃ z, alloc_ok z = false
    | Some (b, blen) => zlen b = blen ∧ needLen ≤ blen ∧
        match buf h with Some b0 => b0 `prefix_of` b | None => True end
    end).
Proof.
  intros Hb Hn. unfold grow_buffer. destruct (Z.ltb_spec (bufLen h) needLen).
  - rewrite int_ok_small by lia. cbn [mbind outcome_bind].
    destruct (alloc_ok (u32 (needLen * 2))) eqn:?; simpl; [|eauto]. unfold realloc.
    rewrite length_app, length_take, length_replicate.
    destruct (buf h) as [b0|]; simpl; [|split; [lia|]; split; [lia|done]].
    split; [lia|]. split; [lia|]. rewrite take_ge by lia. by apply prefix_app_r.
  - destruct (buf h) as [b0|]; simpl; [|lia]. split; [lia|]. by split; [lia|].
Qed.

Lemma write_entry_part_spec dir h e base rest :
  targetDir h = dir → entry_ok e → 0 ≤ zipDirLen h ≤ fileNameLen e → Forall (λ c, c ≠ 0) base →
  targetDirLen h = zlen base → zlen base + (fileNameLen e - zipDirLen h) < zlen (base ++ rest) →
  wp (write_entry_part h e (base ++ rest)) (λ '(p, h'), ∃ rest',
    p = Some (base ++ drop (Z.to_nat (zipDirLen h)) (fileName e)) ∧
    h' = mk_helper dir (zipDir h) (Some (base ++ rest')) (zlen base) (zipDirLen h) (bufLen h) ∧
    length rest' = length rest).
Proof.
  intros <- (Hname & _ & Hchars) Hz Hbase Htd Hlen. unfold write_entry_part.
  rewrite Htd, Hname in *. rewrite rd_n_in_bounds by lia. cbn [mbind outcome_bind].
  rewrite take_ge by (rewrite length_drop; lia). set (part := drop _ _).
  assert (Hpart : zlen part = zlen (fileName e) - zipDirLen h) by (unfold part; rewrite length_drop; lia).
  rewrite <- Hpart in *. rewrite length_app in Hlen.
  destruct (split_range rest 0 (zlen part)) as (r0 & m & [|x post] & -> & Hr0 & Hm);
    [lia..|rewrite !length_app in Hlen; simpl in *; lia|].
  destruct r0; [|simpl in Hr0; lia]. simpl app. rewrite wr_n_app by lia. cbn [mbind outcome_bind].
  replace (zlen base + zlen part) with (zlen (base ++ part) + 0) by (rewrite length_app; lia).
  rewrite app_assoc, wr_app_r by lia. simpl.
  exists (part ++ 0 :: post). rewrite c_string_app.
  - rewrite app_assoc. split; [done|]. split; [done|]. rewrite !length_app. simpl. lia.
  - apply Forall_app. split; [done|]. apply Forall_drop. eapply Forall_impl; [done|]. simpl. lia.
Qed.

Lemma base_path_ok dir : cstr dir → Forall (λ c, c ≠ 0) (base_path dir).
Proof.
  intros Hd. assert (Forall (λ c, c ≠ 0) dir) by (eapply Forall_impl; [done|]; simpl; lia).
  unfold base_path. case_bool_decide; [done|]. apply Forall_app. by repeat constructor.
Qed.

Lemma targetEntryPath_spec alloc_ok dir h e :
  helper_ok dir h → entry_ok e → 0 ≤ zipDirLen h ≤ fileNameLen e → zlen dir ≤ 2 ^ 20 → cstr dir →
  wp (targetEntryPath alloc_ok h e) (λ '(p, h'), helper_ok dir h' ∧ zipDirLen h' = zipDirLen h ∧
    match p with
    | Some p => p = base_path dir ++ drop (Z.to_nat (zipDirLen h)) (fileName e)
    | None => ∃ z, alloc_ok z = false
    end).
Proof.
  intros [Hdir Hh] Hok Hz Hmax Hc. unfold targetEntryPath. pose proof Hok as (_ & Hname & _).
  unfold PATH_MAX in *. pose proof (base_path_length dir). apply base_path_ok in Hc.
  assert (Htd : 0 ≤ targetDirLen h ≤ zlen dir + 1)
    by (destruct (buf h); [destruct Hh as (? & ? & _)|destruct Hh]; lia).
  rewrite u32_small, s32_small by lia.
  apply wp_bind. eapply wp_mono; [apply grow_buffer_spec; [|lia]|].
  { destruct (buf h); apply Hh. }
  intros [[b blen]|] Hb; [|simpl; by repeat split]. destruct Hb as (Hlen & Hneed & Hpre).
  apply wp_bind. destruct (buf h) as [b0|] eqn:Hbuf.
  - rewrite bool_decide_false by done. destruct Hh as (_ & Htl & rest & ->).
    destruct Hpre as [more ->]. simpl. rewrite <- app_assoc in *. rewrite Htl in *.
    eapply wp_mono; [eapply write_entry_part_spec; try done; simpl; lia|].
    intros [p h'] (rest' & -> & -> & Hr). simpl. split; [|done]. split; [done|]. simpl.
    rewrite !length_app in *. split; [lia|]. split; [done|by eexists].
  - rewrite bool_decide_true by done. destruct Hh as (_ & Htl).
    eapply wp_mono; [apply (write_base_spec _ dir); try done; lia|].
    intros [h1 b1] (Hl1 & (rest & ->) & Hd1 & Htl1 & Hz1 & Hb1). simpl in Hz1, Hb1.
    rewrite <- Hz1 in *.
    eapply wp_mono; [eapply write_entry_part_spec; try done; lia|].
    intros [p h'] (rest' & -> & -> & Hr). simpl. split; [|done]. split; [done|]. simpl.
    rewrite !length_app in *. split; [lia|]. split; [done|by eexists].
Qed.

(** The path of an entry is the target directory, a slash if it does not end in
    one, and the name of the entry behind the zip directory. It is assembled
    within the buffer, which is kept and grown over the calls, and fails only
    when there is no memory. *)
Theorem targetEntryPath_correct alloc_ok dir h e :
  helper_ok dir h → entry_ok e → 0 ≤ zipDirLen h ≤ fileNameLen e → zlen dir ≤ 2 ^ 20 → cstr dir →
  wp (targetEntryPath alloc_ok h e) (λ '(p, h'), helper_ok dir h' ∧ zipDirLen h' = zipDirLen h ∧
    match p with
    | Some p => p = base_path dir ++ drop (Z.to_nat (zipDirLen h)) (fileName e)
    | None => ∃ z, alloc_ok z = false
    end).
Proof. apply targetEntryPath_spec. Qed.

(** ** The walk over the entries *)
Section recursive.
Context (alloc_ok : Z → bool).
Context {F : Type} `{ArchiveFile F} `{Zlib}.
Context {W : Type} `{FileSystem W} `{FileWriter W} {A : Type}.
Context (fuel tries : nat).
Context (flags : Z) (timestamp : option Z) (callback : option (list Z → A → A)).
Implicit Types (e : ZipEntry) (s : XState F W A).

Abbreviation entry_step := (extract_entry alloc_ok fuel tries flags timestamp callback).
Abbreviation loop := (extract_loop alloc_ok fuel tries flags timestamp callback).

(** Every entry of a list, until one stops the extraction. *)
Fixpoint extract_each (es : list ZipEntry) s : outcome (XState F W A) :=
  match es with
  | [] => mret s
  | e :: es =>
      '(go, s) ← entry_step e s;
      if (go : bool) then extract_each es s else mret s
  end.

Definition inside (zpath : list Z) e : Prop := zpath `prefix_of` fileName e.
#[global] Instance inside_dec zpath e : Decision (inside zpath e).
Proof. unfold inside. apply _. Defined.

Lemma match_spec zpath e :
  entry_ok e →
  (fileNameLen e <? zlen zpath) || negb (strncmp (length zpath) (fileName e) zpath =? 0) = false ↔
    inside zpath e.
Proof.
  intros (Hlen & _). unfold inside. rewrite Hlen, orb_false_iff, Z.ltb_ge, negb_false_iff, Z.eqb_eq.
  split.
  - intros [Hle Heq]. apply strncmp_eq in Heq; [|lia|lia]. rewrite firstn_all in Heq.
    exists (drop (length zpath) (fileName e)). rewrite <- Heq at 1. by rewrite take_drop.
  - intros [rest ->]. rewrite length_app. split; [lia|]. apply strncmp_eq; rewrite ?length_app; [lia|lia|].
    by rewrite take_app_length, firstn_all.
Qed.

(** A step of the loop, by whether the entry matches. *)
Lemma loop_cons zpath e es seen s :
  entry_ok e →
  loop zpath (e :: es) seen s =
    if decide (inside zpath e)
    then '(go, s) ← entry_step e s; if (go : bool) then loop zpath es true s else mret s
    else if seen then mret s else loop zpath es seen s.
Proof.
  intros He. pose proof (match_spec zpath e He) as Hm. cbn [extract_loop].
  destruct (decide (inside zpath e)) as [Hin|Hout].
  - apply Hm, orb_false_iff in Hin as [-> ->]. done.
  - destruct (fileNameLen e <? zlen zpath); [done|].
    destruct (negb _); [done|]. by destruct Hout; apply Hm.
Qed.

Lemma loop_seen zpath e0 es s :
  Forall entry_ok es → StronglySorted name_le (e0 :: es) → inside zpath e0 →
  loop zpath es true s = extract_each (filter (inside zpath) es) s.
Proof.
  revert e0 s. induction es as [|e es IH]; intros e0 s Hok Hs Hin; [done|].
  apply Forall_cons in Hok as [He Hok]. rewrite loop_cons by done.
  apply StronglySorted_inv in Hs as [Hs He0]. apply Forall_cons in He0 as [He0 _].
  rewrite filter_cons. destruct (decide (inside zpath e)) as [Hie|Hie].
  - cbn [extract_each]. destruct (entry_step e s) as [[[|] s1]|x|]; try done. simpl. by eapply IH.
  - replace (filter (inside zpath) es) with (@nil ZipEntry); [done|].
    symmetry. apply elem_of_nil_inv. intros e' [Hie' Hin']%list_elem_of_filter. apply Hie. unfold inside in *.
    eapply (prefix_between _ (fileName e0) _ (fileName e')); try done.
    apply StronglySorted_inv in Hs as [_ Hs]. rewrite Forall_forall in Hs. by apply Hs.
Qed.

Lemma loop_spec zpath es s :
  Forall entry_ok es → StronglySorted name_le es →
  loop zpath es false s = extract_each (filter (inside zpath) es) s.
Proof.
  revert s. induction es as [|e es IH]; intros s Hok Hs; [done|].
  apply Forall_cons in Hok as [He Hok]. rewrite loop_cons by done. rewrite filter_cons.
  destruct (decide (inside zpath e)) as [Hie|Hie].
  - cbn [extract_each]. destruct (entry_step e s) as [[[|] s1]|x|]; try done. simpl.
    by eapply loop_seen.
  - apply IH; [done|]. by apply StronglySorted_inv in Hs as [? _].
Qed.

(** C8: giving up at the first entry that does not match behind one that does, as
    [mzExtractRecursive] does, misses nothing in a sorted archive: it treats the
    entries below the zip directory, all of them and only those, in the order
    of the archive, until one of them fails. *)
Theorem mzExtractRecursive_all entries f zipDir targetDir w cookie :
  Forall entry_ok entries → StronglySorted name_le entries →
  char_at zipDir 0 ≠ SLASH → char_at targetDir 0 = SLASH → alloc_ok (zlen zipDir + 2) = true →
  mzExtractRecursive alloc_ok fuel tries flags timestamp callback entries f zipDir targetDir w cookie =
    let zpath := canonical_zip_dir zipDir in
    s ← extract_each (filter (inside zpath) entries)
      (mk_x f w cookie (mk_helper targetDir zpath None (zlen targetDir) (zlen zpath) 0) true);
    mret (x_ok s, x_file s, x_w s, x_arg s).
Proof.
  intros Hok Hs Hz Ht Ha. unfold mzExtractRecursive.
  rewrite (proj2 (Z.eqb_neq _ _)), (proj2 (Z.eqb_eq _ _)), Ha by done. simpl negb.
  cbn [negb]. by rewrite loop_spec.
Qed.

(** The failure to write the contents of a regular file ends the extraction,
    but leaves the result as it was, true unless an earlier entry set it. *)
Theorem extract_file_failure_unreported targetFile e s fd w f' w' :
  sys_creat targetFile UNZIP_FILEMODE (x_w s) = (inr fd, w) →
  mzExtractZipEntryToFile fuel tries (x_file s) e fd w = Ret (false, f', w') →
  ∃ s', extract_file fuel tries timestamp targetFile e s = Ret (false, s') ∧ x_ok s' = x_ok s.
Proof. intros Hc Hx. unfold extract_file. rewrite Hc, Hx. simpl. eauto. Qed.

(** The path that an entry is extracted to. *)
Definition target_path (dir zpath : list Z) e : list Z :=
  base_path dir ++ drop (length zpath) (fileName e).

Lemma extract_each_dry dir zpath es : ∀ s,
  has_flag flags MZ_EXTRACT_DRY_RUN = true → (∀ z, alloc_ok z = true) →
  zlen dir ≤ 2 ^ 20 → cstr dir → Forall entry_ok es → Forall (inside zpath) es →
  helper_ok dir (x_helper s) → zipDirLen (x_helper s) = zlen zpath →
  ∃ h, extract_each es s = Ret (mk_x (x_file s) (x_w s)
    (match callback with
     | Some g => foldl (λ a e, g (target_path dir zpath e) a) (x_arg s) es
     | None => x_arg s
     end) h (x_ok s)).
Proof.
  intros s Hdry Ha Hmax Hc Hok. revert s. induction Hok as [|e es He Hok IH];
    intros s Hin Hh Hz; cbn [extract_each].
  { exists (x_helper s). destruct s. by destruct callback. }
  apply Forall_cons in Hin as [Hie Hin].
  pose proof (targetEntryPath_spec alloc_ok dir (x_helper s) e Hh He) as Hp.
  rewrite Hz in Hp. unfold inside in Hie. pose proof (prefix_length _ _ Hie).
  pose proof He as [Hlen _]. specialize (Hp ltac:(lia) Hmax Hc).
  unfold extract_entry.
  destruct (targetEntryPath alloc_ok (x_helper s) e) as [[[p|] h]| |]; try done.
  2:{ destruct Hp as (_ & _ & z & Hf). by rewrite Ha in Hf. }
  destruct Hp as (Hh' & Hz' & ->). cbn [mbind outcome_bind]. rewrite Hdry.
  cbn [mbind outcome_bind mret outcome_ret]. rewrite Nat2Z.id in *.
  set (s1 := call_back callback _ _).
  assert (x_helper s1 = h ∧ x_file s1 = x_file s ∧ x_w s1 = x_w s ∧ x_ok s1 = x_ok s ∧
    x_arg s1 = match callback with
      | Some g => g (target_path dir zpath e) (x_arg s)
      | None => x_arg s
      end) as (Hs & <- & <- & <- & Harg) by (unfold s1, call_back; by destruct callback).
  destruct (IH s1) as [h' ->]; [done|by rewrite Hs|by rewrite Hs, Hz'|].
  exists h'. rewrite Harg. by destruct callback.
Qed.

(** A dry run writes nothing: it succeeds and calls the callback with the
    target path of each entry below the zip directory, in the order of the
    archive. *)
Theorem mzExtractRecursive_dry_run entries f zipDir targetDir w cookie :
  has_flag flags MZ_EXTRACT_DRY_RUN = true → (∀ z, alloc_ok z = true) →
  Forall entry_ok entries → StronglySorted name_le entries →
  char_at zipDir 0 ≠ SLASH → char_at targetDir 0 = SLASH → zlen targetDir ≤ 2 ^ 20 → cstr targetDir →
  let zpath := canonical_zip_dir zipDir in
  mzExtractRecursive alloc_ok fuel tries flags timestamp callback entries f zipDir targetDir w cookie =
    Ret (true, f, w,
      match callback with
      | Some g => foldl (λ a e, g (target_path targetDir zpath e) a) cookie
                    (filter (inside zpath) entries)
      | None => cookie
      end).
Proof.
  intros Hdry Ha Hok Hs Hz Ht Hmax Hc zpath. unfold mzExtractRecursive.
  rewrite (proj2 (Z.eqb_neq _ _)), (proj2 (Z.eqb_eq _ _)), Ha by done. cbn [negb].
  rewrite loop_spec by done.
  destruct (extract_each_dry targetDir zpath (filter (inside zpath) entries)
    (mk_x f w cookie (mk_helper targetDir zpath None (zlen targetDir) (zlen zpath) 0) true))
    as [h Hrun]; try done.
  - apply Forall_forall. intros e [_ Hin]%list_elem_of_filter. rewrite Forall_forall in Hok. auto.
  - apply Forall_forall. by intros e [Hin _]%list_elem_of_filter.
  - unfold zpath in *. rewrite Hrun. done.
Qed.
End recursive.

(** ** Negative sizes *)
Section negative.
Context {F : Type} `{RegularFile F} `{Zlib} {C : Type} (pf : list Z → C → outcome (bool * C)).

(** For a deflated entry whose compressed size has become -1, the failure
    of the [read] of [(size_t)-1] bytes, which also yields -1, passes for
    success, and [inflate] is told that the buffer holds 4 GB. *)
Theorem negative_compLen_overreads fuel f e c z :
  compLen e = -1 → inflateInit2 = inr z →
  processDeflatedEntry pf (S fuel) f e c = Fault OutOfBounds.
Proof.
  intros He Hz. unfold processDeflatedEntry. rewrite Hz. cbn [inflate_loop]. unfold refill.
  rewrite bool_decide_true by done. simpl compRemaining. rewrite He.
  change (if BUF_SIZE <? -1 then BUF_SIZE else -1) with (-1).
  destruct (read_too_long f (u32 (-1))) as (errno & f' & Hr); [by vm_compute|].
  simpl is_file. rewrite Hr. done.
Qed.

(** When the stated size has become -1, every failure of the inflation
    passes for success, since the code marks a failure with the size -1. *)
Theorem negative_uncompLen_hides_failure fuel f e c zerr :
  uncompLen e = -1 → inflateInit2 = inl zerr →
  processDeflatedEntry pf fuel f e c = Ret (true, f, c).
Proof. intros He Hz. unfold processDeflatedEntry. rewrite Hz, He. done. Qed.
End negative.

(** ** Witnesses

    A file in memory, a codec that marks the end of its data with a zero byte, and
    files that take three bytes a call. *)
Module ExtractDemo.
Record mem_file := mk_mem { m_data : list Z; m_pos : Z }.

#[export] Instance mem_archive : ArchiveFile mem_file := {|
  sys_read f n :=
    if n <? 2 ^ 31 then
      let data := take (Z.to_nat n) (drop (Z.to_nat (m_pos f)) (m_data f)) in
      (inr data, mk_mem (m_data f) (m_pos f + zlen data))
    else (inl 22, f);
  lseek_cur f := (m_pos f, f);
  lseek_set f off := mk_mem (m_data f) off
|}.

#[export] Instance mem_regular : RegularFile mem_file.
Proof.
  refine {| fdata := m_data; fpos := m_pos |}.
  - intros f n Hn Hp. eexists. simpl. rewrite (proj2 (Z.ltb_lt n (2 ^ 31))) by lia. done.
  - intros f n Hn. do 2 eexists. simpl. rewrite (proj2 (Z.ltb_ge n (2 ^ 31))) by lia. done.
  - done.
  - done.
Defined.

(** The state is the input consumed. *)
Definition toy_inflate (z inp : list Z) (avail : Z) : Z * nat * list Z * list Z :=
  if bool_decide (0 ∈ z) then (Z_STREAM_END, O, [], z)
  else
    let out := take (Z.to_nat avail) (c_string inp) in
    if bool_decide (out = c_string inp ∧ 0 ∈ inp)
    then (Z_STREAM_END, S (length out), out, z ++ take (S (length out)) inp)
    else if bool_decide (out = []) then (-5, O, [], z)
    else (Z_OK, length out, out, z ++ out).

#[export] Instance toy_zlib : Zlib := {|
  zstate := list Z;
  inflateInit2 := inr [];
  inflate := toy_inflate;
  zlib_crc32 crc l := foldl (λ a b, (a + b) mod 2 ^ 32) (crc mod 2 ^ 32) l
|}.

Lemma c_string_prefix l : ∃ r, l = c_string l ++ r ∧ (0 ∈ l → ∃ r', r = 0 :: r') ∧ (0 ∉ c_string l) ∧
  (0 ∉ l → r = []).
Proof.
  induction l as [|c l (r & Hl & Hz & Hn & Hr)]; simpl.
  { exists []. split_and!; [done|by intros ?%elem_of_nil|by intros ?%elem_of_nil|done]. }
  destruct (Z.eqb_spec c 0) as [->|Hc].
  { exists (0 :: l). split_and!; [done|eauto|by intros ?%elem_of_nil|].
    intros Hno. destruct Hno. constructor. }
  exists r. split; [simpl; f_equal; exact Hl|]. split.
  { intros [?|?]%elem_of_cons; [done|auto]. }
  split; [by intros [?|?]%elem_of_cons|]. intros Hno. apply Hr. intros ?. apply Hno. by constructor.
Qed.

Lemma c_string_no_zero l : 0 ∉ l → c_string l = l.
Proof.
  intros Hl. destruct (c_string_prefix l) as (r & Hr & _ & _ & Hn).
  rewrite Hn, app_nil_r in Hr by done. done.
Qed.

Lemma c_string_zero l r : 0 ∉ l → c_string (l ++ 0 :: r) = l.
Proof.
  intros Hl. apply c_string_app, Forall_forall. intros x Hx ->. done.
Qed.

(** How a stream that is not finished splits. *)
Lemma toy_split d z inp rest :
  0 ∉ d → d ++ [0] = z ++ inp ++ rest → 0 ∉ z →
  ∃ more, d = z ++ more ∧ inp ++ rest = more ++ [0] ∧
    (0 ∈ inp → inp = more ++ [0]) ∧ (0 ∉ inp → inp `prefix_of` more).
Proof.
  intros Hd Hc Hz. destruct (inp ++ rest) as [|x l] eqn:Hl using rev_ind.
  { rewrite app_nil_r in Hc. destruct Hz. rewrite <- Hc. apply elem_of_app. right. constructor. }
  clear IHl. rewrite app_assoc in Hc. apply app_inj_2 in Hc as [-> [= <-]]; [|done].
  exists l. split; [done|]. split; [done|].
  assert (Hl0 : 0 ∉ l) by (intros ?; apply Hd, elem_of_app; by right).
  destruct rest as [|y rest] using rev_ind.
  { rewrite app_nil_r in Hl. subst. split; [done|]. intros Hno. destruct Hno.
    apply elem_of_app. right. constructor. }
  clear IHrest. rewrite app_assoc in Hl. apply app_inj_2 in Hl as [<- [= ->]]; [|done].
  split; [intros ?; destruct Hl0; apply elem_of_app; by left|]. intros _. by apply prefix_app_r.
Qed.

#[export] Instance toy_laws : ZlibLaws.
Proof.
  refine {| deflated c d := c = d ++ [0] ∧ 0 ∉ d; z_in z := z : list Z; z_out z := c_string z |}.
  - by exists [].
  - intros c d z inp rest avail [-> Hd] Hc Hpre Hmore Ha. simpl. unfold toy_inflate.
    case_bool_decide as Hz.
    { do 4 eexists. split; [done|]. simpl. rewrite !app_nil_r. split_and!; try done; try lia.
      right. split; [done|]. destruct (c_string_prefix z) as (r & Hzr & Hr & Hno & _).
      destruct (Hr Hz) as [r' ->].
      assert (Heq : d ++ [0] = c_string z ++ 0 :: (r' ++ inp ++ rest)).
      { rewrite Hc. rewrite Hzr at 1. by rewrite <- app_assoc. }
      destruct Hpre as [more ->]. rewrite <- app_assoc in Heq. simplify_list_eq.
      destruct more as [|x more]; [by rewrite app_nil_r|]. simplify_list_eq.
      destruct Hd. apply elem_of_app. right. constructor. }
    destruct (toy_split d z inp rest Hd Hc Hz) as (more & -> & Hsplit & Hin & Hnot).
    assert (Hm0 : 0 ∉ more) by (intros ?; apply Hd, elem_of_app; by right).
    rewrite (c_string_no_zero z) in * by done.
    assert (Hok : ∀ pre, pre `prefix_of` more → c_string (z ++ pre) = z ++ pre ∧ (z ++ pre) `prefix_of` (z ++ more)).
    { intros pre [r ->]. split; [|apply prefix_app, prefix_app_r; done]. apply c_string_no_zero.
      intros [?|?]%elem_of_app; [done|]. apply Hm0, elem_of_app. by left. }
    assert (Hcs : c_string inp `prefix_of` more ∧ ∃ r, inp = c_string inp ++ r ∧ (0 ∈ inp → c_string inp = more)).
    { destruct (decide (0 ∈ inp)) as [Hi|Hi].
      - rewrite (Hin Hi), c_string_zero by done. split; [done|]. eauto.
      - rewrite (c_string_no_zero inp) by done. split; [by apply Hnot|]. exists [].
        by rewrite app_nil_r. }
    destruct Hcs as [Hcp (r & Hr & Hfull)].
    set (out := take (Z.to_nat avail) (c_string inp)).
    assert (Hop : out `prefix_of` more).
    { etrans; [|exact Hcp]. exists (drop (Z.to_nat avail) (c_string inp)). unfold out. by rewrite take_drop. }
    destruct (Hok out Hop) as [Hco Hpo].
    assert (Hlen : zlen out ≤ avail) by (unfold out; rewrite length_take; lia).
    assert (Htake : take (length out) inp = out).
    { rewrite Hr. unfold out. rewrite <- (take_drop (Z.to_nat avail) (c_string inp)) at 2.
      rewrite <- app_assoc. apply take_app_length. }
    case_bool_decide as Hend.
    + destruct Hend as [Hout Hi]. rewrite Hout, (Hfull Hi) in *. rewrite (Hin Hi) in *.
      do 4 eexists. split; [done|]. rewrite length_app. simpl.
      rewrite (take_ge (more ++ [0])) by (rewrite length_app; simpl; lia).
      rewrite app_assoc, c_string_zero by done. split_and!; try done; try lia. by right.
    + case_bool_decide as Hnil.
      * exfalso. assert (Hce : c_string inp = []).
        { unfold out in Hnil. destruct (c_string inp); [done|]. destruct (Z.to_nat avail) eqn:?; [lia|done]. }
        destruct (decide (0 ∈ inp)) as [Hi|Hi]; [by destruct Hend; rewrite Hnil, Hce|].
        rewrite c_string_no_zero in Hce by done. subst inp. rewrite Hmore in Hsplit by done.
        by destruct more.
      * do 4 eexists. split; [done|]. rewrite Htake. split_and!; try done.
        { rewrite <- Htake, length_take. lia. }
        { by rewrite Hco. }
        left. split; [done|]. destruct out; [done|]. simpl. lia.
  - intros crc a b. simpl. rewrite foldl_app. f_equal.
    assert (Hr : ∀ l c, foldl (λ a b, (a + b) mod 2 ^ 32) (c mod 2 ^ 32) l mod 2 ^ 32 =
      foldl (λ a b, (a + b) mod 2 ^ 32) (c mod 2 ^ 32) l).
    { induction l as [|x l IH]; intros c; simpl; [by rewrite Z.mod_mod|]. apply IH. }
    apply Hr.
  - intros crc a. simpl.
    assert (Hr : ∀ l c, 0 ≤ foldl (λ a b, (a + b) mod 2 ^ 32) (c mod 2 ^ 32) l < 2 ^ 32).
    { induction l as [|x l IH]; intros c; simpl; [by apply Z.mod_pos_bound|]. apply IH. }
    apply Hr.
Defined.

#[export] Instance demo_writer : FileWriter DirDemo.files := {|
  sys_creat p mode w := (inr 3, (p, Z.lor 0x8000 mode) :: w);
  sys_write fd data w := (zlen data, 0, w);
  sys_close fd w := w
|}.

(** One file, written at most three bytes a call. *)
#[export] Instance slow_writer : FileWriter (list Z) := {|
  sys_creat p mode w := (inr 3, []);
  sys_write fd data w := (Z.min 3 (zlen data), 0, w ++ take 3 data);
  sys_close fd w := w
|}.
#[export] Instance slow_laws : WriterLaws (list Z).
Proof.
  refine {| fcontents w fd := w |}. intros fd data w Hne. do 3 eexists. split; [done|].
  left. destruct data; [done|]. split; [simpl; lia|].
  f_equal. destruct (decide (zlen (z :: data) ≤ 3)).
  - by rewrite !take_ge by (simpl in *; lia).
  - by rewrite Z.min_l by lia.
Defined.

(** A file with a stored and a deflated entry. *)
Definition data : list Z := [9; 9] ++ str "hello" ++ str "abcdef" ++ [0; 7].
Definition f : mem_file := mk_mem data 4.
Definition stored : ZipEntry := mk_zip_entry 3 (str "d/s") 2 5 5 STORED 0 532 788 0.
Definition deflated_entry : ZipEntry := mk_zip_entry 3 (str "d/t") 7 7 6 DEFLATED 0 597 788 0.

Lemma stored_contents : entry_contents f stored (str "hello").
Proof.
  split; [done|]. split; [done|]. split; [done|]. exists (str "hello"), (str "abcdef" ++ [0; 7]).
  split; [by vm_compute|]. split; [done|]. by left.
Qed.
Lemma deflated_contents : entry_contents f deflated_entry (str "abcdef").
Proof.
  split; [done|]. split; [done|]. split; [done|]. exists (str "abcdef" ++ [0]), [7].
  split; [by vm_compute|]. split; [done|]. right. split; [done|]. split; [|done].
  split; [done|]. apply (bool_decide_unpack _). by vm_compute.
Qed.

(** The helper in the middle of an extraction. *)
Definition helper : MzPathHelper :=
  mk_helper (str "/tmp") (str "d/") (Some (str "/tmp/old" ++ [0; 0; 0; 0; 0; 0])) 5 2 14.
Definition entries : list ZipEntry := [stored; deflated_entry].
End ExtractDemo.
#[local] Existing Instances ExtractDemo.mem_archive ExtractDemo.mem_regular ExtractDemo.toy_zlib
  ExtractDemo.toy_laws ExtractDemo.slow_writer ExtractDemo.slow_laws DirDemo.fs.

Lemma mzIsZipEntryIntact_correct_witness :
  ∃ f', mzIsZipEntryIntact 20 ExtractDemo.f ExtractDemo.stored =
      Ret (zlib_crc32 0 (str "hello") =? u32 532, f') ∧
    fdata f' = fdata ExtractDemo.f ∧ fpos f' = fpos ExtractDemo.f.
Proof.
  apply (mzIsZipEntryIntact_correct 20 ExtractDemo.f ExtractDemo.stored (str "hello"));
    [done|apply ExtractDemo.stored_contents|done].
Defined.

Lemma mzReadZipEntry_correct_witness :
  wp (mzReadZipEntry 20 ExtractDemo.f ExtractDemo.deflated_entry (replicate 9 1) 8)
    (λ '(b, f', buf'), fdata f' = fdata ExtractDemo.f ∧ fpos f' = fpos ExtractDemo.f ∧
    b = (zlen (str "abcdef") <=? 8) ∧ length buf' = length (replicate 9 1) ∧
    drop (Z.to_nat 8) buf' = drop (Z.to_nat 8) (replicate 9 1) ∧
    (b = true → buf' = str "abcdef" ++ drop (length (str "abcdef")) (replicate 9 1))).
Proof.
  apply (mzReadZipEntry_correct 20 ExtractDemo.f ExtractDemo.deflated_entry (str "abcdef")
    (replicate 9 1) 8); [done|apply ExtractDemo.deflated_contents|done|split; done].
Defined.

Lemma mzExtractZipEntryToBuffer_correct_witness :
  mzExtractZipEntryToBuffer 20 ExtractDemo.f ExtractDemo.deflated_entry [1; 1; 1; 1; 1] =
    Fault OutOfBounds.
Proof.
  apply (mzExtractZipEntryToBuffer_correct 20 ExtractDemo.f ExtractDemo.deflated_entry
    (str "abcdef") [1; 1; 1; 1; 1]); [done|apply ExtractDemo.deflated_contents|done].
Defined.

Lemma mzExtractZipEntryToFile_correct_witness :
  wp (mzExtractZipEntryToFile 20 (Z.to_nat BUF_SIZE) ExtractDemo.f ExtractDemo.stored 3 [5])
    (λ '(b, f', w'), fdata f' = fdata ExtractDemo.f ∧ fpos f' = fpos ExtractDemo.f ∧
    ∃ done, done `prefix_of` str "hello" ∧
      fcontents w' 3 = fcontents [5] 3 ++ done ∧ (b = true → done = str "hello")).
Proof.
  apply (mzExtractZipEntryToFile_correct 20 (Z.to_nat BUF_SIZE) ExtractDemo.f ExtractDemo.stored
    (str "hello") 3 [5]); [done|apply ExtractDemo.stored_contents|done|].
  rewrite Z2Nat.id; [reflexivity|done].
Defined.

Lemma targetEntryPath_correct_witness :
  wp (targetEntryPath (λ _, true) ExtractDemo.helper ExtractDemo.stored) (λ '(p, h'),
    helper_ok (str "/tmp") h' ∧ zipDirLen h' = zipDirLen ExtractDemo.helper ∧
    match p with
    | Some p => p = base_path (str "/tmp") ++ drop (Z.to_nat 2) (str "d/s")
    | None => ∃ z, (λ _ : Z, true) z = false
    end).
Proof.
  apply (targetEntryPath_correct (λ _, true) (str "/tmp") ExtractDemo.helper ExtractDemo.stored).
  - split; [done|]. split; [done|]. split; [done|]. by eexists.
  - split; [done|]. split; [done|]. apply (bool_decide_unpack _). by vm_compute.
  - done.
  - done.
  - apply (bool_decide_unpack _). by vm_compute.
Defined.

Lemma demo_entries_ok : Forall entry_ok ExtractDemo.entries.
Proof.
  repeat constructor; simpl; try done; apply (bool_decide_unpack _); by vm_compute.
Qed.
Lemma demo_entries_sorted : StronglySorted name_le ExtractDemo.entries.
Proof.
  apply SSorted_cons; [by repeat constructor|]. apply Forall_cons. split; [|constructor].
  left. by apply lex_tail, lex_tail, lex_head.
Qed.

#[local] Existing Instance ExtractDemo.demo_writer.
Lemma mzExtractRecursive_all_witness :
  mzExtractRecursive (λ _, true) 20 9 0 None (Some (λ p l, l ++ [p])) ExtractDemo.entries
      ExtractDemo.f (str "d") (str "/a") DirDemo.w0 [] =
    let zpath := canonical_zip_dir (str "d") in
    s ← extract_each (λ _, true) 20 9 0 None (Some (λ p l, l ++ [p]))
      (filter (inside zpath) ExtractDemo.entries)
      (mk_x ExtractDemo.f DirDemo.w0 [] (mk_helper (str "/a") zpath None 2 (zlen zpath) 0) true);
    mret (x_ok s, x_file s, x_w s, x_arg s).
Proof.
  apply (mzExtractRecursive_all (λ _, true) 20 9 0 None (Some (λ p l, l ++ [p]))
    ExtractDemo.entries ExtractDemo.f (str "d") (str "/a") DirDemo.w0 []);
    [apply demo_entries_ok|apply demo_entries_sorted|done|done|done].
Defined.

Lemma mzExtractRecursive_dry_run_witness :
  mzExtractRecursive (λ _, true) 20 9 2 None (Some (λ p l, l ++ [p])) ExtractDemo.entries
      ExtractDemo.f (str "d") (str "/a") DirDemo.w0 [] =
    Ret (true, ExtractDemo.f, DirDemo.w0, [str "/a/s"; str "/a/t"]).
Proof.
  apply (mzExtractRecursive_dry_run (λ _, true) 20 9 2 None (Some (λ p l, l ++ [p]))
    ExtractDemo.entries ExtractDemo.f (str "d") (str "/a") DirDemo.w0 []);
    [done|done|apply demo_entries_ok|apply demo_entries_sorted|done|done|done|].
  apply (bool_decide_unpack _). by vm_compute.
Defined.

(** A disk that is full, and a zlib of another version. *)
Definition full_disk : FileWriter DirDemo.files := {|
  sys_creat p mode w := (inr 3, (p, Z.lor 0x8000 mode) :: w);
  sys_write fd data w := (-1, 28, w);
  sys_close fd w := w
|}.
Definition old_zlib : Zlib := {|
  zstate := list Z;
  inflateInit2 := inl (-6);
  inflate z inp avail := (-6, O, [], z);
  zlib_crc32 crc l := 0
|}.

Lemma extract_file_failure_unreported_witness :
  let s := mk_x ExtractDemo.f DirDemo.w0 tt ExtractDemo.helper true in
  ∃ s', extract_file (H2 := full_disk) 20 9 None (str "/a/s") ExtractDemo.stored s = Ret (false, s') ∧
    x_ok s' = true.
Proof.
  intros s.
  apply (extract_file_failure_unreported (H2 := full_disk) 20 9 None (str "/a/s") ExtractDemo.stored s
    3 ((str "/a/s", 0x81a4) :: DirDemo.w0) (ExtractDemo.mk_mem ExtractDemo.data 4)
    ((str "/a/s", 0x81a4) :: DirDemo.w0)); by vm_compute.
Defined.

Lemma negative_compLen_overreads_witness :
  processDeflatedEntry (λ _ c, Ret (true, c)) 1 ExtractDemo.f
    (mk_zip_entry 1 (str "a") 2 (-1) 5 DEFLATED 0 0 788 0) 0 = Fault OutOfBounds.
Proof.
  apply (negative_compLen_overreads (H1 := ExtractDemo.toy_zlib) (λ _ c, Ret (true, c)) 0 ExtractDemo.f
    (mk_zip_entry 1 (str "a") 2 (-1) 5 DEFLATED 0 0 788 0) 0 (@nil Z)); done.
Defined.

Lemma negative_uncompLen_hides_failure_witness :
  processDeflatedEntry (H0 := old_zlib) (λ _ c, Ret (true, c)) 1 ExtractDemo.f
    (mk_zip_entry 1 (str "a") 2 5 (-1) DEFLATED 0 0 788 0) 0 = Ret (true, ExtractDemo.f, 0).
Proof.
  apply (negative_uncompLen_hides_failure (H1 := old_zlib) (λ _ c, Ret (true, c)) 1 ExtractDemo.f
    (mk_zip_entry 1 (str "a") 2 5 (-1) DEFLATED 0 0 788 0) 0 (-6)); done.
Defined.
