(* ===== verification/Edify.v ===== *)
(** * Edify

    edify/expr.c: the evaluator of updater scripts, its built-in functions, the
    table of functions, and the helpers that extensions use. Strings and values
    live on a heap, so that ownership can be checked. *)
From stdpp Require Import gmap sorting.
From S2P Require Import Prelude CString.
#[local] Set Warnings "-register-all".

(** ** Expressions *)

(** The functions of this file; [Other] stands for those that other parts of the
    program register. *)
Inductive Function (X : Type) : Type :=
  | Literal | ConcatFn | IfElseFn | AbortFn | AssertFn | SleepFn | StdoutFn
  | LogicalAndFn | LogicalOrFn | LogicalNotFn | SubstringFn | EqualityFn | InequalityFn
  | SequenceFn | LessThanIntFn | GreaterThanIntFn
  | Other (x : X).
Arguments Literal {X}.
Arguments ConcatFn {X}.
Arguments IfElseFn {X}.
Arguments AbortFn {X}.
Arguments AssertFn {X}.
Arguments SleepFn {X}.
Arguments StdoutFn {X}.
Arguments LogicalAndFn {X}.
Arguments LogicalOrFn {X}.
Arguments LogicalNotFn {X}.
Arguments SubstringFn {X}.
Arguments EqualityFn {X}.
Arguments InequalityFn {X}.
Arguments SequenceFn {X}.
Arguments LessThanIntFn {X}.
Arguments GreaterThanIntFn {X}.
Arguments Other {X} x.

Inductive Expr (X : Type) : Type :=
  mk_expr (fn : Function X) (name : list Z) (argv : list (Expr X)) (start end_ : Z).
Arguments mk_expr {X} _ _ _ _ _.

(** ** Memory

    A block holds a C string or a blob, a [Value] (its type, size and data), or
    the array that collects the results of argument evaluations. The data of a value may be a
    null pointer. *)
Inductive block : Type :=
  | Bytes (l : list Z)
  | Val (type size : Z) (data : option nat)
  | Args.

Definition VAL_STRING : Z := 1.
Definition VAL_BLOB : Z := 2.

(** [perm] proves that two lists of blocks agree up to order, knowing how other
    lists of blocks split. *)
Definition one {A} (x : A) : list A := [x].
Lemma cons_one {A} (x : A) l : x :: l = one x ++ l.
Proof. done. Qed.
Ltac perm :=
  repeat match goal with H : ?T ≡ₚ _ |- _ => is_var T; rewrite H; clear H end;
  rewrite ?cons_one, ?app_nil_r; solve_Permutation.

(** [W] is the rest of the system, which other functions than those of this file use. *)
Section world.
Context {W : Type}.

(** The [State] of a script, the heap, what was printed and slept, and the rest of the
    system. [malloc] is taken to succeed, as the code does. *)
Record State := mk_state {
  script : list Z;
  errmsg : option nat;
  heap : gmap nat block;
  printed : list (list Z);
  slept : list Z;
  world : W
}.

Definition M (A : Type) : Type := State → outcome (A * State).
#[global] Instance M_ret : MRet M := λ A a s, Ret (a, s).
#[global] Instance M_bind : MBind M := λ A B k m s, '(a, s) ← m s; k a s.

Definition fault_m {A} (f : fault) : M A := λ s, Fault f.
Definition lift {A} (o : outcome A) : M A := λ s, a ← o; Ret (a, s).
Definition set_heap (h : gmap nat block) (s : State) : State :=
  mk_state (script s) (errmsg s) h (printed s) (slept s) (world s).

Definition malloc (b : block) : M nat := λ s,
  let p := fresh (dom (heap s)) in Ret (p, set_heap (<[p := b]> (heap s)) s).
Definition load (p : nat) : M block := λ s,
  match heap s !! p with Some b => Ret (b, s) | None => Fault UseAfterFree end.
Definition free (p : nat) : M unit := λ s,
  match heap s !! p with
  | Some _ => Ret (tt, set_heap (delete p (heap s)) s)
  | None => Fault UseAfterFree
  end.
Definition free_opt (p : option nat) : M unit :=
  match p with Some p => free p | None => mret tt end.

(** [*p = b;] *)
Definition store (p : nat) (b : block) : M unit := λ s,
  match heap s !! p with
  | Some _ => Ret (tt, set_heap (<[p := b]> (heap s)) s)
  | None => Fault UseAfterFree
  end.

(** The string at [p]; the fields of the [Value] at [v]. *)
Definition load_str (p : nat) : M (list Z) :=
  b ← load p; match b with Bytes l => mret l | _ => fault_m OutOfBounds end.
Definition load_val (v : nat) : M (Z * Z * option nat) :=
  b ← load v; match b with Val t n d => mret (t, n, d) | _ => fault_m OutOfBounds end.
Definition strdup (l : list Z) : M nat := malloc (Bytes (c_string l)).

(** [free(state->errmsg); state->errmsg = p;] *)
Definition set_errmsg (p : nat) : M unit :=
  λ s, '(_, s) ← free_opt (errmsg s) s;
       Ret (tt, mk_state (script s) (Some p) (heap s) (printed s) (slept s) (world s)).
Definition print (l : list Z) : M unit := λ s,
  Ret (tt, mk_state (script s) (errmsg s) (heap s) (printed s ++ [l]) (slept s) (world s)).
Definition sleep (n : Z) : M unit := λ s,
  Ret (tt, mk_state (script s) (errmsg s) (heap s) (printed s) (slept s ++ [n]) (world s)).
Definition get_script : M (list Z) := λ s, Ret (script s, s).

(** A call of the rest of the system. *)
Definition on_world {A} (f : W → outcome (A * W)) : M A := λ s,
  '(a, w) ← f (world s);
  Ret (a, mk_state (script s) (errmsg s) (heap s) (printed s) (slept s) w).

Section code.
Context {X : Type}.
Definition fn (e : Expr X) := let '(mk_expr f _ _ _ _) := e in f.
Definition name (e : Expr X) := let '(mk_expr _ n _ _ _) := e in n.
Definition argv (e : Expr X) := let '(mk_expr _ _ a _ _) := e in a.
Definition start (e : Expr X) := let '(mk_expr _ _ _ s _) := e in s.
Definition end_ (e : Expr X) := let '(mk_expr _ _ _ _ t) := e in t.

(** [argv[i]] *)
Definition arg (args : list (Expr X)) (i : nat) : M (Expr X) := lift (rd args (Z.of_nat i)).

Definition BooleanString (s : list Z) : bool := negb (char_at s 0 =? 0).

Definition ErrorAbort (msg : list Z) : M (option nat) :=
  buffer ← malloc (Bytes (take 4095 msg));
  _ ← set_errmsg buffer;
  mret None.

Definition StringValue (p : option nat) : M (option nat) :=
  match p with
  | None => mret None
  | Some p => l ← load_str p; v ← malloc (Val VAL_STRING (zlen l) (Some p)); mret (Some v)
  end.

Definition FreeValue (v : option nat) : M unit :=
  match v with
  | None => mret tt
  | Some v => '(_, _, d) ← load_val v; _ ← free_opt d; free v
  end.

(** [EvaluateValue], the call of the function of an expression. *)
Variable EvaluateValue : Expr X → M (option nat).

Definition Evaluate (e : Expr X) : M (option nat) :=
  v ← EvaluateValue e;
  match v with
  | None => mret None
  | Some v =>
      '(type, _, data) ← load_val v;
      if negb (type =? VAL_STRING) then
        _ ← ErrorAbort (str "expecting string, got value type " ++ decimal type);
        _ ← FreeValue (Some v);
        mret None
      else _ ← free v; mret data
  end.

(** ** Helpers for functions *)

(** Freeing the results of the arguments before the one that failed. *)
Fixpoint free_all (l : list nat) : M unit :=
  match l with [] => mret tt | p :: l => _ ← free p; free_all l end.
Fixpoint free_values (l : list nat) : M unit :=
  match l with [] => mret tt | v :: l => _ ← FreeValue (Some v); free_values l end.

(** The loops of [ReadArgs] and [ReadVarArgs], and of the functions for values, over
    [n] arguments from the [i]th on: [done] holds the results so far. *)
Fixpoint read_strings (args : list (Expr X)) (n i : nat) (done : list nat) : M (option (list nat)) :=
  match n with
  | O => mret (Some done)
  | S n =>
      e ← arg args i;
      r ← Evaluate e;
      match r with
      | None => _ ← free_all done; mret None
      | Some p => read_strings args n (S i) (done ++ [p])
      end
  end.
Fixpoint read_values (args : list (Expr X)) (n i : nat) (done : list nat) : M (option (list nat)) :=
  match n with
  | O => mret (Some done)
  | S n =>
      e ← arg args i;
      r ← EvaluateValue e;
      match r with
      | None => _ ← free_values done; mret None
      | Some v => read_values args n (S i) (done ++ [v])
      end
  end.

Definition ReadArgs (args : list (Expr X)) (count : nat) : M (option (list nat)) :=
  a ← malloc Args;
  r ← read_strings args count 0 [];
  _ ← free a;
  mret r.
Definition ReadValueArgs (args : list (Expr X)) (count : nat) : M (option (list nat)) :=
  a ← malloc Args;
  r ← read_values args count 0 [];
  _ ← free a;
  mret r.

(** The array is part of the result. *)
Definition ReadVarArgs (args : list (Expr X)) : M (option (nat * list nat)) :=
  a ← malloc Args;
  r ← read_strings args (length args) 0 [];
  match r with
  | None => _ ← free a; mret None
  | Some l => mret (Some (a, l))
  end.
Definition ReadValueVarArgs (args : list (Expr X)) : M (option (nat * list nat)) :=
  a ← malloc Args;
  r ← read_values args (length args) 0 [];
  match r with
  | None => _ ← free a; mret None
  | Some l => mret (Some (a, l))
  end.

(** ** The functions *)

(** [strdup(l)] as a value. *)
Definition new_string (l : list Z) : M (option nat) := p ← strdup l; StringValue (Some p).

Fixpoint load_strs (l : list nat) : M (list (list Z)) :=
  match l with [] => mret [] | p :: l => s ← load_str p; r ← load_strs l; mret (s :: r) end.

(** The loop of [ConcatFn] that copies the strings, with their NULs. *)
Fixpoint copy_strings (l : list (list Z)) (result : list Z) (p : Z) : outcome (list Z * Z) :=
  match l with
  | [] => mret (result, p)
  | s :: l => result ← wr_n result p (s ++ [0]); copy_strings l result (p + zlen s)
  end.

Definition concat_fn (args : list (Expr X)) : M (option nat) :=
  if bool_decide (args = []) then new_string []
  else
    strings ← malloc Args;
    r ← read_strings args (length args) 0 [];
    match r with
    | None => _ ← free strings; mret None
    | Some l =>
        ss ← load_strs l;
        '(buf, p) ← lift (copy_strings ss (replicate (length (concat ss) + 1) 0) 0);
        buf ← lift (wr buf p 0);
        result ← malloc (Bytes (c_string buf));
        _ ← free_all l;
        _ ← free strings;
        StringValue (Some result)
    end.

Definition ifelse_fn (args : list (Expr X)) : M (option nat) :=
  let argc := length args in
  if negb (bool_decide (argc = 2%nat)) && negb (bool_decide (argc = 3%nat)) then
    p ← strdup (str "ifelse expects 2 or 3 arguments"); _ ← set_errmsg p; mret None
  else
    e ← arg args 0;
    cond ← Evaluate e;
    match cond with
    | None => mret None
    | Some cond =>
        s ← load_str cond;
        if BooleanString s then _ ← free cond; e ← arg args 1; EvaluateValue e
        else if bool_decide (argc = 3%nat) then _ ← free cond; e ← arg args 2; EvaluateValue e
        else StringValue (Some cond)
    end.

Definition abort_fn (args : list (Expr X)) : M (option nat) :=
  msg ← (if bool_decide (0 < length args)%nat then e ← arg args 0; Evaluate e else mret None);
  p ← (match msg with Some p => mret p | None => strdup (str "called abort()") end);
  _ ← set_errmsg p;
  mret None.

(** The message that quotes the source of the condition, in a buffer of
    [len + 20] bytes. *)
Definition assert_message (script : list Z) (e : Expr X) : outcome (list Z) :=
  let len := end_ e - start e in
  let prefix := str "assert failed: " in
  err_src ← wr_n (replicate (Z.to_nat (len + 20)) 0) 0 (prefix ++ [0]);
  src ← rd_n script (start e) len;
  err_src ← wr_n err_src (zlen prefix) src;
  err_src ← wr err_src (zlen prefix + len) 0;
  mret (c_string err_src).

Fixpoint assert_loop (args : list (Expr X)) : M (option nat) :=
  match args with
  | [] => new_string []
  | e :: args =>
      v ← Evaluate e;
      match v with
      | None => mret None
      | Some v =>
          s ← load_str v;
          _ ← free v;
          if BooleanString s then assert_loop args
          else
            src ← get_script;
            msg ← lift (assert_message src e);
            p ← malloc (Bytes msg);
            _ ← set_errmsg p;
            mret None
      end
  end.

Definition sleep_fn (args : list (Expr X)) : M (option nat) :=
  e ← arg args 0;
  val ← Evaluate e;
  match val with
  | None => mret None
  | Some val =>
      s ← load_str val;
      _ ← sleep (u32 (strtol s).1);
      StringValue (Some val)
  end.

Fixpoint stdout_loop (args : list (Expr X)) : M (option nat) :=
  match args with
  | [] => new_string []
  | e :: args =>
      v ← Evaluate e;
      match v with
      | None => mret None
      | Some v =>
          s ← load_str v;
          _ ← print s;
          _ ← free v;
          stdout_loop args
      end
  end.

(** [LogicalAndFn] goes on when the left side is true, [LogicalOrFn] when it is
    false. *)
Definition logical_fn (go_on : bool) (args : list (Expr X)) : M (option nat) :=
  e ← arg args 0;
  lhs ← Evaluate e;
  match lhs with
  | None => mret None
  | Some lhs =>
      s ← load_str lhs;
      if Bool.eqb (BooleanString s) go_on then _ ← free lhs; e ← arg args 1; EvaluateValue e
      else StringValue (Some lhs)
  end.

Definition not_fn (args : list (Expr X)) : M (option nat) :=
  e ← arg args 0;
  val ← Evaluate e;
  match val with
  | None => mret None
  | Some val =>
      s ← load_str val;
      _ ← free val;
      new_string (if BooleanString s then [] else str "t")
  end.

(** The functions that compare two strings. *)
Definition compare_fn (test : list Z → list Z → bool) (args : list (Expr X)) : M (option nat) :=
  e ← arg args 0;
  lhs ← Evaluate e;
  match lhs with
  | None => mret None
  | Some lhs =>
      e ← arg args 1;
      rhs ← Evaluate e;
      match rhs with
      | None => _ ← free lhs; mret None
      | Some rhs =>
          l ← load_str lhs;
          r ← load_str rhs;
          result ← strdup (if test l r then str "t" else []);
          _ ← free lhs;
          _ ← free rhs;
          StringValue (Some result)
      end
  end.
Definition substring_test (needle haystack : list Z) : bool :=
  bool_decide (is_Some (strstr haystack needle)).
Definition equality_test (lhs rhs : list Z) : bool := strcmp lhs rhs =? 0.
Definition inequality_test (lhs rhs : list Z) : bool := negb (strcmp lhs rhs =? 0).

Definition sequence_fn (args : list (Expr X)) : M (option nat) :=
  e ← arg args 0;
  lhs ← EvaluateValue e;
  match lhs with
  | None => mret None
  | Some lhs => _ ← FreeValue (Some lhs); e ← arg args 1; EvaluateValue e
  end.

(** Whether [strtol] read all of a string that is not empty. *)
Definition is_int (s : list Z) : bool :=
  negb (char_at s 0 =? 0) && (char_at s (strtol s).2 =? 0).
Definition less_than_int (l r : list Z) : bool :=
  is_int l && is_int r && ((strtol l).1 <? (strtol r).1).

(** [msg] names the function that checks the number of arguments. *)
Definition less_than_fn (msg : list Z) (args : list (Expr X)) : M (option nat) :=
  if negb (bool_decide (length args = 2%nat)) then
    p ← strdup msg; _ ← set_errmsg p; mret None
  else
    r ← ReadArgs args 2;
    match r with
    | Some [p; q] =>
        l ← load_str p;
        r ← load_str q;
        _ ← free p;
        _ ← free q;
        new_string (if less_than_int l r then str "t" else [])
    | _ => mret None
    end.
Definition greater_than_fn (args : list (Expr X)) : M (option nat) :=
  if negb (bool_decide (length args = 2%nat)) then
    p ← strdup (str "greater_than_int expects 2 arguments"); _ ← set_errmsg p; mret None
  else
    a0 ← arg args 0;
    a1 ← arg args 1;
    less_than_fn (str "less_than_int expects 2 arguments") [a1; a0].

(** The functions of the rest of the program, which evaluate their arguments with
    the evaluator they are given. *)
Variable other : X → list Z → list (Expr X) → M (option nat).

Definition call (f : Function X) (n : list Z) (args : list (Expr X)) : M (option nat) :=
  match f with
  | Literal => new_string n
  | ConcatFn => concat_fn args
  | IfElseFn => ifelse_fn args
  | AbortFn => abort_fn args
  | AssertFn => assert_loop args
  | SleepFn => sleep_fn args
  | StdoutFn => stdout_loop args
  | LogicalAndFn => logical_fn true args
  | LogicalOrFn => logical_fn false args
  | LogicalNotFn => not_fn args
  | SubstringFn => compare_fn substring_test args
  | EqualityFn => compare_fn equality_test args
  | InequalityFn => compare_fn inequality_test args
  | SequenceFn => sequence_fn args
  | LessThanIntFn => less_than_fn (str "less_than_int expects 2 arguments") args
  | GreaterThanIntFn => greater_than_fn args
  | Other x => other x n args
  end.
End code.

(** Other functions of the program. *)
Class Extension (X : Type) :=
  ext_call : (Expr X → M (option nat)) → X → list Z → list (Expr X) → M (option nat).

(** Evaluation; [fuel] bounds the depth of the expression. *)
Fixpoint EvaluateValue {X} `{Extension X} (fuel : nat) (e : Expr X) : M (option nat) :=
  match fuel with
  | O => λ _, Diverge
  | S fuel => call (EvaluateValue fuel) (ext_call (EvaluateValue fuel)) (fn e) (name e) (argv e)
  end.

(** [Build]: the operators of the grammar. *)
Definition Build {X} (f : Function X) (args : list (Expr X)) (first last : Z) : Expr X :=
  mk_expr f (str "(operator)") args first last.

(** ** The function table

    The array holds [fn_size] slots, of which [fn_entries] are set; those that
    [realloc] added are not. [qsort] and [bsearch] are those of the C library: the
    order of equal keys, which the sort leaves open, is that of a merge sort. *)
Section table.
Context {X : Type}.
Record NamedFunction := mk_named { nf_name : list Z; nf_fn : Function X }.
Record FnTable := mk_table { fn_entries : Z; fn_size : Z; fn_table : list (option NamedFunction) }.

Definition no_functions : FnTable := mk_table 0 0 [].

Definition RegisterFunction (n : list Z) (f : Function X) (t : FnTable) : outcome FnTable :=
  t ← (if fn_size t <=? fn_entries t then
         size ← int_ok (fn_size t * 2 + 1);
         Ret (mk_table (fn_entries t) size
                (resize (Z.to_nat size) None (fn_table t)))
       else Ret t);
  tab ← wr (fn_table t) (fn_entries t) (Some (mk_named n f));
  entries ← int_ok (fn_entries t + 1);
  mret (mk_table entries (fn_size t) tab).

Definition fn_entry_compare (a b : NamedFunction) : Z := strcmp (nf_name a) (nf_name b).
Definition entry_le (a b : NamedFunction) : Prop := fn_entry_compare a b ≤ 0.
#[global] Instance entry_le_dec : RelDecision entry_le := λ a b, Z_le_dec _ _.

(** The entries that are set. *)
Definition entries (t : FnTable) : outcome (list NamedFunction) :=
  of_option OutOfBounds (mapM id (take (Z.to_nat (fn_entries t)) (fn_table t))).

Definition FinishRegistration (t : FnTable) : outcome FnTable :=
  es ← entries t;
  mret (mk_table (fn_entries t) (fn_size t)
          ((Some <$> merge_sort entry_le es) ++ drop (Z.to_nat (fn_entries t)) (fn_table t))).

Definition FindFunction (n : list Z) (t : FnTable) : outcome (option (Function X)) :=
  es ← entries t;
  mret (nf_fn <$> c_bsearch (length es) (fn_entry_compare (mk_named n Literal)) es 0 (length es)).

(** Registering in order. *)
Fixpoint register_all (l : list (list Z * Function X)) (t : FnTable) : outcome FnTable :=
  match l with
  | [] => Ret t
  | (n, f) :: l => t ← RegisterFunction n f t; register_all l t
  end.
Definition builtins : list (list Z * Function X) :=
  [(str "ifelse", IfElseFn); (str "abort", AbortFn); (str "assert", AssertFn);
   (str "concat", ConcatFn); (str "is_substring", SubstringFn); (str "stdout", StdoutFn);
   (str "sleep", SleepFn); (str "less_than_int", LessThanIntFn);
   (str "greater_than_int", GreaterThanIntFn)].
Definition RegisterBuiltins : FnTable → outcome FnTable := register_all builtins.
End table.

(** ** What scripts mean

    The same language without memory: a value is its type and contents, and a
    function that returns NULL gives [None]. *)
Record pval := mk_pv { pv_type : Z; pv_size : Z; pv_data : option (list Z) }.
Definition PStr (l : list Z) : pval := mk_pv VAL_STRING (zlen l) (Some l).

Record PState := mk_ps {
  p_script : list Z;
  p_err : option (list Z);
  p_printed : list (list Z);
  p_slept : list Z;
  p_world : W
}.

Definition P (A : Type) : Type := PState → outcome (A * PState).
#[global] Instance P_ret : MRet P := λ A a s, Ret (a, s).
#[global] Instance P_bind : MBind P := λ A B k m s, '(a, s) ← m s; k a s.

Definition p_lift {A} (o : outcome A) : P A := λ s, a ← o; Ret (a, s).
Definition p_error (m : list Z) : P unit := λ s,
  Ret (tt, mk_ps (p_script s) (Some m) (p_printed s) (p_slept s) (p_world s)).
Definition p_print (l : list Z) : P unit := λ s,
  Ret (tt, mk_ps (p_script s) (p_err s) (p_printed s ++ [l]) (p_slept s) (p_world s)).
Definition p_sleep (n : Z) : P unit := λ s,
  Ret (tt, mk_ps (p_script s) (p_err s) (p_printed s) (p_slept s ++ [n]) (p_world s)).
Definition p_get_script : P (list Z) := λ s, Ret (p_script s, s).
Definition p_on_world {A} (f : W → outcome (A * W)) : P A := λ s,
  '(a, w) ← f (p_world s);
  Ret (a, mk_ps (p_script s) (p_err s) (p_printed s) (p_slept s) w).

Section meaning.
Context {X : Type}.
Variable D : Expr X → P (option pval).

Definition p_arg (args : list (Expr X)) (i : nat) : P (Expr X) := p_lift (rd args (Z.of_nat i)).

(** The string an expression stands for. *)
Definition p_string (e : Expr X) : P (option (list Z)) :=
  v ← D e;
  match v with
  | None => mret None
  | Some v =>
      if negb (pv_type v =? VAL_STRING) then
        _ ← p_error (take 4095 (str "expecting string, got value type " ++ decimal (pv_type v)));
        mret None
      else mret (pv_data v)
  end.

Fixpoint p_strings (args : list (Expr X)) : P (option (list (list Z))) :=
  match args with
  | [] => mret (Some [])
  | e :: args =>
      r ← p_string e;
      match r with
      | None => mret None
      | Some s => rs ← p_strings args; mret (cons s <$> rs)
      end
  end.

(** The first [n] arguments from the [i]th on, as strings and as values. *)
Fixpoint p_read {A} (eval : Expr X → P (option A)) (args : list (Expr X)) (n i : nat) : P (option (list A)) :=
  match n with
  | O => mret (Some [])
  | S n =>
      e ← p_arg args i;
      r ← eval e;
      match r with
      | None => mret None
      | Some s => rs ← p_read eval args n (S i); mret (cons s <$> rs)
      end
  end.
Definition p_ReadArgs (args : list (Expr X)) (n : nat) : P (option (list (list Z))) :=
  p_read p_string args n 0.
Definition p_ReadValueArgs (args : list (Expr X)) : P (option (list pval)) :=
  p_read D args (length args) 0.

Definition p_concat (args : list (Expr X)) : P (option pval) :=
  r ← p_strings args; mret ((λ ss, PStr (concat ss)) <$> r).

Definition p_ifelse (args : list (Expr X)) : P (option pval) :=
  let argc := length args in
  if negb (bool_decide (argc = 2%nat)) && negb (bool_decide (argc = 3%nat)) then
    _ ← p_error (str "ifelse expects 2 or 3 arguments"); mret None
  else
    e ← p_arg args 0;
    cond ← p_string e;
    match cond with
    | None => mret None
    | Some s =>
        if BooleanString s then e ← p_arg args 1; D e
        else if bool_decide (argc = 3%nat) then e ← p_arg args 2; D e
        else mret (Some (PStr s))
    end.

Definition p_abort (args : list (Expr X)) : P (option pval) :=
  msg ← (if bool_decide (0 < length args)%nat then e ← p_arg args 0; p_string e else mret None);
  _ ← p_error (default (str "called abort()") msg);
  mret None.

Fixpoint p_assert (args : list (Expr X)) : P (option pval) :=
  match args with
  | [] => mret (Some (PStr []))
  | e :: args =>
      v ← p_string e;
      match v with
      | None => mret None
      | Some s =>
          if BooleanString s then p_assert args
          else
            src ← p_get_script;
            msg ← p_lift (assert_message src e);
            _ ← p_error msg;
            mret None
      end
  end.

Definition p_sleep_fn (args : list (Expr X)) : P (option pval) :=
  e ← p_arg args 0;
  val ← p_string e;
  match val with
  | None => mret None
  | Some s => _ ← p_sleep (u32 (strtol s).1); mret (Some (PStr s))
  end.

Fixpoint p_stdout (args : list (Expr X)) : P (option pval) :=
  match args with
  | [] => mret (Some (PStr []))
  | e :: args =>
      v ← p_string e;
      match v with
      | None => mret None
      | Some s => _ ← p_print s; p_stdout args
      end
  end.

Definition p_logical (go_on : bool) (args : list (Expr X)) : P (option pval) :=
  e ← p_arg args 0;
  lhs ← p_string e;
  match lhs with
  | None => mret None
  | Some s =>
      if Bool.eqb (BooleanString s) go_on then e ← p_arg args 1; D e else mret (Some (PStr s))
  end.

Definition p_not (args : list (Expr X)) : P (option pval) :=
  e ← p_arg args 0;
  val ← p_string e;
  match val with
  | None => mret None
  | Some s => mret (Some (PStr (if BooleanString s then [] else str "t")))
  end.

Definition p_compare (test : list Z → list Z → bool) (args : list (Expr X)) : P (option pval) :=
  e ← p_arg args 0;
  lhs ← p_string e;
  match lhs with
  | None => mret None
  | Some l =>
      e ← p_arg args 1;
      rhs ← p_string e;
      match rhs with
      | None => mret None
      | Some r => mret (Some (PStr (if test l r then str "t" else [])))
      end
  end.

Definition p_sequence (args : list (Expr X)) : P (option pval) :=
  e ← p_arg args 0;
  lhs ← D e;
  match lhs with
  | None => mret None
  | Some _ => e ← p_arg args 1; D e
  end.

Definition p_less_than (msg : list Z) (args : list (Expr X)) : P (option pval) :=
  if negb (bool_decide (length args = 2%nat)) then _ ← p_error msg; mret None
  else
    r ← p_strings args;
    match r with
    | Some [l; r] => mret (Some (PStr (if less_than_int l r then str "t" else [])))
    | _ => mret None
    end.
Definition p_greater_than (args : list (Expr X)) : P (option pval) :=
  if negb (bool_decide (length args = 2%nat)) then
    _ ← p_error (str "greater_than_int expects 2 arguments"); mret None
  else
    a0 ← p_arg args 0;
    a1 ← p_arg args 1;
    p_less_than (str "less_than_int expects 2 arguments") [a1; a0].

Variable p_other : X → list Z → list (Expr X) → P (option pval).

Definition meaning (f : Function X) (n : list Z) (args : list (Expr X)) : P (option pval) :=
  match f with
  | Literal => mret (Some (PStr (c_string n)))
  | ConcatFn => p_concat args
  | IfElseFn => p_ifelse args
  | AbortFn => p_abort args
  | AssertFn => p_assert args
  | SleepFn => p_sleep_fn args
  | StdoutFn => p_stdout args
  | LogicalAndFn => p_logical true args
  | LogicalOrFn => p_logical false args
  | LogicalNotFn => p_not args
  | SubstringFn => p_compare substring_test args
  | EqualityFn => p_compare equality_test args
  | InequalityFn => p_compare inequality_test args
  | SequenceFn => p_sequence args
  | LessThanIntFn => p_less_than (str "less_than_int expects 2 arguments") args
  | GreaterThanIntFn => p_greater_than args
  | Other x => p_other x n args
  end.
End meaning.

(** ** Ownership *)

(** The state [s] has the visible part [ps] and owns exactly the blocks [T], besides
    the error message. *)
Definition state_is (s : State) (T : list (nat * block)) (ps : PState) : Prop :=
  script s = p_script ps ∧ printed s = p_printed ps ∧ slept s = p_slept ps ∧ world s = p_world ps ∧
  ∃ E, heap s = list_to_map (E ++ T) ∧ NoDup (E ++ T).*1 ∧
    match errmsg s, p_err ps with
    | None, None => E = []
    | Some p, Some m => E = [(p, Bytes m)]
    | _, _ => False
    end.

(** [m] does what [d] says, and [R] relates the results and the blocks owned
    afterwards. *)
Definition sim {A B} (T : list (nat * block)) (m : M A) (d : P B)
    (R : A → B → list (nat * block) → Prop) : Prop :=
  ∀ s ps, state_is s T ps →
    match d ps with
    | Ret (b, ps') => ∃ a s' T', m s = Ret (a, s') ∧ state_is s' T' ps' ∧ R a b T'
    | Fault f => m s = Fault f
    | Diverge => m s = Diverge
    end.

Lemma state_is_perm s T T' ps : T ≡ₚ T' → state_is s T ps → state_is s T' ps.
Proof.
  intros Hp (? & ? & ? & ? & E & Hh & Hnd & He). do 4 (split; [done|]). exists E.
  assert (Hp' : E ++ T ≡ₚ E ++ T') by (by rewrite Hp).
  split; [rewrite Hh; by apply list_to_map_proper|]. split; [by rewrite <- Hp'|done].
Qed.

Section rules.
Context {A B A' B' : Type}.
Implicit Types (T : list (nat * block)).

Lemma sim_perm T T' (m : M A) (d : P B) R : T ≡ₚ T' → sim T' m d R → sim T m d R.
Proof. intros Hp Hm s ps Hs. apply Hm. by eapply state_is_perm. Qed.

Lemma sim_mono T (m : M A) (d : P B) (R R' : A → B → list (nat * block) → Prop) :
  sim T m d R → (∀ a b T', R a b T' → R' a b T') → sim T m d R'.
Proof.
  intros Hm HR s ps Hs. specialize (Hm s ps Hs). destruct (d ps) as [[b ps']| |]; [|done..].
  destruct Hm as (a & s' & T' & ? & ? & ?). eauto 10.
Qed.

Lemma sim_ret T a b (R : A → B → list (nat * block) → Prop) : R a b T → sim T (mret a) (mret b) R.
Proof. intros HR s ps Hs. simpl. eauto 10. Qed.

Lemma sim_bind T (m : M A) (d : P B) R (k : A → M A') (kd : B → P B') R' :
  sim T m d R → (∀ a b T', R a b T' → sim T' (k a) (kd b) R') → sim T (m ≫= k) (d ≫= kd) R'.
Proof.
  intros Hm Hk s ps Hs. specialize (Hm s ps Hs). unfold mbind, M_bind, P_bind.
  destruct (d ps) as [[b ps']|f|]; [|by rewrite Hm..].
  destruct Hm as (a & s' & T' & -> & Hs' & HR). by apply (Hk a b T').
Qed.

Lemma sim_lift T (o : outcome A) (k : A → M A') (kd : A → P B') R :
  (∀ a, o = Ret a → sim T (k a) (kd a) R) → sim T (lift o ≫= k) (p_lift o ≫= kd) R.
Proof.
  intros Hk s ps Hs. unfold mbind, M_bind, P_bind, lift, p_lift.
  destruct o as [a|f|]; simpl; [|done..]. by apply Hk.
Qed.
End rules.

Section memory_rules.
Context {A B : Type}.
Implicit Types (T : list (nat * block)) (d : P B) (R : A → B → list (nat * block) → Prop).

Lemma state_is_lookup s T ps p b : state_is s T ps → (p, b) ∈ T → heap s !! p = Some b.
Proof.
  intros (_ & _ & _ & _ & E & -> & Hnd & _) Hin. apply elem_of_list_to_map; [done|].
  apply elem_of_app. by right.
Qed.

Lemma sim_malloc T b k d R :
  (∀ p, sim ((p, b) :: T) (k p) d R) → sim T (malloc b ≫= k) d R.
Proof.
  intros Hk s ps (Hsc & Hpr & Hsl & Hwo & E & Hh & Hnd & He). unfold mbind, M_bind, malloc; cbv zeta.
  set (p := fresh (dom (heap s))).
  assert (Hp : p ∉ (E ++ T).*1).
  { assert (Hf : p ∉ dom (heap s)) by apply is_fresh. rewrite Hh, dom_list_to_map_L in Hf.
    by rewrite elem_of_list_to_set in Hf. }
  assert (Hperm : E ++ (p, b) :: T ≡ₚ (p, b) :: E ++ T) by (symmetry; apply Permutation_middle).
  assert (Hnd' : NoDup (E ++ (p, b) :: T).*1) by (rewrite Hperm; by constructor).
  apply Hk. do 4 (split; [done|]). exists E. split; [|done]. cbn [heap set_heap].
  rewrite Hh. change (<[p:=b]> (list_to_map (E ++ T))) with
    (list_to_map (M := gmap nat block) ((p, b) :: E ++ T)).
  by apply list_to_map_proper; [rewrite <- Hperm|].
Qed.

Lemma sim_load T p b k d R :
  (p, b) ∈ T → sim T (k b) d R → sim T (load p ≫= k) d R.
Proof.
  intros Hin Hk s ps Hs. unfold mbind, M_bind, load.
  rewrite (state_is_lookup _ _ _ _ _ Hs Hin). by apply Hk.
Qed.

Lemma sim_load_str T p l k d R :
  (p, Bytes l) ∈ T → sim T (k l) d R → sim T (load_str p ≫= k) d R.
Proof.
  intros Hin Hk s ps Hs. unfold load_str, load, mbind, M_bind.
  rewrite (state_is_lookup _ _ _ _ _ Hs Hin). by apply Hk.
Qed.

Lemma sim_load_val T v t n q k d R :
  (v, Val t n q) ∈ T → sim T (k (t, n, q)) d R → sim T (load_val v ≫= k) d R.
Proof.
  intros Hin Hk s ps Hs. unfold load_val, load, mbind, M_bind.
  rewrite (state_is_lookup _ _ _ _ _ Hs Hin). by apply Hk.
Qed.

Lemma state_is_free s T T' ps p b :
  T ≡ₚ (p, b) :: T' → state_is s T ps → state_is (set_heap (delete p (heap s)) s) T' ps.
Proof.
  intros Hp Hs. apply (state_is_perm _ _ _ _ Hp) in Hs.
  destruct Hs as (Hsc & Hpr & Hsl & Hwo & E & Hh & Hnd & He). do 4 (split; [done|]). exists E.
  assert (Hperm : E ++ (p, b) :: T' ≡ₚ (p, b) :: E ++ T') by (symmetry; apply Permutation_middle).
  rewrite Hperm in Hnd. simpl in Hnd. apply NoDup_cons in Hnd as [Hnin Hnd'].
  split; [|done]. cbn [heap set_heap]. rewrite Hh.
  rewrite (list_to_map_proper (E ++ (p, b) :: T') ((p, b) :: E ++ T'));
    [|rewrite Hperm; by constructor|done].
  simpl. rewrite delete_insert_id; [done|]. by apply not_elem_of_list_to_map_1.
Qed.

Lemma sim_store T T' p b b' k d R :
  T ≡ₚ (p, b) :: T' → sim ((p, b') :: T') (k tt) d R → sim T (store p b' ≫= k) d R.
Proof.
  intros Hp Hk s ps Hs. unfold mbind, M_bind, store.
  rewrite (state_is_lookup _ _ _ p b Hs) by (rewrite Hp; constructor).
  apply Hk. pose proof (state_is_free _ _ _ _ _ _ Hp Hs) as (Hsc & Hpr & Hsl & Hwo & E & Hh & Hnd & He).
  do 4 (split; [done|]). exists E. cbn [heap set_heap] in Hh |- *.
  apply (state_is_perm _ _ _ _ Hp) in Hs. destruct Hs as (_ & _ & _ & _ & E' & Hh' & Hnd' & He').
  assert (E = E') as ->.
  { cbn [errmsg set_heap] in He. destruct (errmsg s), (p_err ps); congruence || done. }
  assert (Hperm : E' ++ (p, b') :: T' ≡ₚ (p, b') :: E' ++ T') by (symmetry; apply Permutation_middle).
  assert (Hfst : (E' ++ (p, b') :: T').*1 = (E' ++ (p, b) :: T').*1) by (by rewrite !fmap_app).
  split; [|split; [by rewrite Hfst|done]].
  rewrite <- insert_delete_eq, Hh.
  change (<[p:=b']> (list_to_map (E' ++ T'))) with (list_to_map (M := gmap nat block) ((p, b') :: E' ++ T')).
  by apply list_to_map_proper; [rewrite <- Hperm, Hfst|].
Qed.

Lemma sim_free T T' p b k d R :
  T ≡ₚ (p, b) :: T' → sim T' (k tt) d R → sim T (free p ≫= k) d R.
Proof.
  intros Hp Hk s ps Hs. unfold mbind, M_bind, free.
  rewrite (state_is_lookup _ _ _ p b Hs) by (rewrite Hp; constructor).
  apply Hk. by eapply state_is_free.
Qed.
End memory_rules.

Lemma sim_set_errmsg {A B} T T' p l (k : unit → M A) (kd : unit → P B) R :
  T ≡ₚ (p, Bytes l) :: T' → sim T' (k tt) (kd tt) R →
  sim T (set_errmsg p ≫= k) (p_error l ≫= kd) R.
Proof.
  intros Hp Hk s ps Hs. apply (state_is_perm _ _ _ _ Hp) in Hs.
  destruct Hs as (Hsc & Hpr & Hsl & Hwo & E & Hh & Hnd & He).
  unfold mbind, M_bind, P_bind, set_errmsg, p_error. cbn [mret].
  assert (Hperm : E ++ (p, Bytes l) :: T' ≡ₚ (p, Bytes l) :: E ++ T')
    by (symmetry; apply Permutation_middle).
  assert (Hafter : ∀ h, h = list_to_map ((p, Bytes l) :: T') → NoDup ((p, Bytes l) :: T').*1 →
    state_is (mk_state (script s) (Some p) h (printed s) (slept s) (world s)) T'
      (mk_ps (p_script ps) (Some l) (p_printed ps) (p_slept ps) (p_world ps))).
  { intros h -> Hn. do 4 (split; [done|]). exists [(p, Bytes l)]. done. }
  destruct (errmsg s) as [q|], (p_err ps) as [m|]; try done; subst E.
  - set (T1 := (p, Bytes l) :: T') in *. cbn [free_opt]. unfold free.
    assert (Hh' : heap s = <[q := Bytes m]> (list_to_map T1)) by done.
    change (NoDup (q :: T1.*1)) in Hnd. apply NoDup_cons in Hnd as [Hnin Hnd].
    rewrite Hh', lookup_insert_eq. apply Hk. apply Hafter; [|done].
    cbn [set_heap heap]. rewrite delete_insert_id; [done|]. by apply not_elem_of_list_to_map_1.
  - apply Hk. by apply Hafter.
Qed.

Lemma sim_print {A B} T l (k : unit → M A) (kd : unit → P B) R :
  sim T (k tt) (kd tt) R → sim T (print l ≫= k) (p_print l ≫= kd) R.
Proof.
  intros Hk s ps (Hsc & Hpr & Hsl & He). apply (Hk (mk_state _ _ _ _ _ _) (mk_ps _ _ _ _ _)).
  split; [done|]. split; [by simpl; rewrite Hpr|]. done.
Qed.

Lemma sim_sleep {A B} T n (k : unit → M A) (kd : unit → P B) R :
  sim T (k tt) (kd tt) R → sim T (sleep n ≫= k) (p_sleep n ≫= kd) R.
Proof.
  intros Hk s ps (Hsc & Hpr & Hsl & He). apply (Hk (mk_state _ _ _ _ _ _) (mk_ps _ _ _ _ _)).
  split; [done|]. split; [done|]. split; [by simpl; rewrite Hsl|]. done.
Qed.

Lemma sim_get_script {A B} T (k : list Z → M A) (kd : list Z → P B) R :
  (∀ l, sim T (k l) (kd l) R) → sim T (get_script ≫= k) (p_get_script ≫= kd) R.
Proof.
  intros Hk s ps Hs. unfold mbind, M_bind, P_bind, get_script, p_get_script.
  replace (script s) with (p_script ps) by (symmetry; apply Hs). by apply Hk.
Qed.

Lemma sim_on_world {A B C} T (f : W → outcome (C * W)) (k : C → M A) (kd : C → P B) R :
  (∀ c, sim T (k c) (kd c) R) → sim T (on_world f ≫= k) (p_on_world f ≫= kd) R.
Proof.
  intros Hk s ps (Hsc & Hpr & Hsl & Hwo & He). unfold mbind, M_bind, P_bind, on_world, p_on_world.
  rewrite Hwo. destruct (f (p_world ps)) as [[c w]| |]; [|done..]. cbn [mbind outcome_bind].
  apply (Hk c (mk_state _ _ _ _ _ _) (mk_ps _ _ _ _ _)). by repeat split.
Qed.

(** Equality of computations up to the state. *)
Lemma M_assoc {A B C} (m : M A) (k : A → M B) (k' : B → M C) :
  ∀ s, ((m ≫= k) ≫= k') s = (m ≫= λ a, k a ≫= k') s.
Proof. intros s. unfold mbind, M_bind. by destruct (m s) as [[a s']| |]. Qed.
Lemma P_assoc {A B C} (m : P A) (k : A → P B) (k' : B → P C) :
  ∀ s, ((m ≫= k) ≫= k') s = (m ≫= λ a, k a ≫= k') s.
Proof. intros s. unfold mbind, P_bind. by destruct (m s) as [[a s']| |]. Qed.

Lemma sim_ext {A B} T (m m' : M A) (d d' : P B) R :
  (∀ s, m s = m' s) → (∀ s, d s = d' s) → sim T m' d' R → sim T m d R.
Proof. intros Hm Hd Hs s ps H. rewrite Hm, Hd. by apply Hs. Qed.
Lemma sim_assoc {A B C} T (m : M A) (k : A → M B) (k' : B → M C) {D} (d : P D) R :
  sim T (m ≫= λ a, k a ≫= k') d R → sim T ((m ≫= k) ≫= k') d R.
Proof. intros H. by eapply sim_ext; [apply M_assoc| |]. Qed.

(** The blocks [T] are still there; [leaky] allows others that nothing points to. *)
Definition grows (leaky : bool) (T T' : list (nat * block)) : Prop :=
  ∃ L, T' ≡ₚ L ++ T ∧ (leaky = false → L = []).

Section growing.
Context (leaky : bool).
Implicit Types (T : list (nat * block)).
Lemma grows_perm T T' : T' ≡ₚ T → grows leaky T T'.
Proof. by exists []. Qed.
#[global] Instance grows_refl : Reflexive (grows leaky).
Proof. intros T. by apply grows_perm. Qed.
#[global] Instance grows_trans : Transitive (grows leaky).
Proof.
  intros T1 T2 T3 (L1 & H1 & E1) (L2 & H2 & E2). exists (L2 ++ L1).
  split; [by rewrite H2, H1, app_assoc|]. intros Hl. by rewrite E1, E2.
Qed.
#[global] Instance grows_proper : Proper ((≡ₚ) ==> (≡ₚ) ==> iff) (grows leaky).
Proof.
  intros T1 T1' H1 T2 T2' H2. unfold grows. split; intros (L & HL & Hl); exists L; (split; [|done]).
  - by rewrite <- H1, <- H2.
  - by rewrite H1, H2.
Qed.
Lemma grows_app A T T' : grows leaky (A ++ T) T' → ∃ T1, T' ≡ₚ A ++ T1 ∧ grows leaky T T1.
Proof.
  intros (L & HL & Hl). exists (L ++ T). split; [rewrite HL; perm|]. by exists L.
Qed.
Lemma grows_cons x T T' : grows leaky (x :: T) T' → ∃ T1, T' ≡ₚ x :: T1 ∧ grows leaky T T1.
Proof. apply (grows_app [x]). Qed.
End growing.
Lemma grows_leak L T : grows true T (L ++ T).
Proof. by exists L. Qed.

Section functions.
Context (leaky : bool) {X : Type}.
Implicit Types (T : list (nat * block)) (l : list Z).

Abbreviation no_nul l := (Forall (λ c : Z, c ≠ 0) l).

Lemma c_string_no_nul l : no_nul (c_string l).
Proof.
  induction l as [|c l IH]; simpl; [constructor|].
  destruct (Z.eqb_spec c 0); by constructor.
Qed.

(** The block of the data of a value, if there are data. *)
Definition data_at (q : option nat) (d : option (list Z)) (D : list (nat * block)) : Prop :=
  match q, d with
  | Some q, Some l => D = [(q, Bytes l)]
  | None, None => D = []
  | _, _ => False
  end.

(** The result is a new value that the caller owns, or NULL. *)
Definition val_of T (a : option nat) (b : option pval) T' : Prop :=
  match a, b with
  | None, None => grows leaky T T'
  | Some v, Some pv => ∃ q D T1, T' ≡ₚ (v, Val (pv_type pv) (pv_size pv) q) :: D ++ T1 ∧ grows leaky T T1 ∧
      data_at q (pv_data pv) D ∧
      (pv_type pv = VAL_STRING → ∃ l, pv_data pv = Some l ∧ no_nul l ∧ pv_size pv = zlen l)
  | _, _ => False
  end.
Definition str_of T (a : option nat) (b : option (list Z)) T' : Prop :=
  match a, b with
  | None, None => grows leaky T T'
  | Some p, Some l => ∃ T1, T' ≡ₚ (p, Bytes l) :: T1 ∧ grows leaky T T1 ∧ no_nul l
  | _, _ => False
  end.

Lemma val_of_grows T0 T a b T' : grows leaky T0 T → val_of T a b T' → val_of T0 a b T'.
Proof.
  intros Hg. destruct a, b; simpl; try done.
  - intros (q & D & T1 & ? & ? & ? & ?). exists q, D, T1. split; [done|]. split; [|done]. by transitivity T.
  - intros. by transitivity T.
Qed.

Lemma sim_StringValue T T0 T1 p l :
  T ≡ₚ (p, Bytes l) :: T1 → grows leaky T0 T1 → no_nul l →
  sim T (StringValue (Some p)) (mret (Some (PStr l))) (val_of T0).
Proof.
  intros Hp Hg Hl. unfold StringValue. eapply sim_load_str; [rewrite Hp; constructor|].
  apply sim_malloc. intros v. apply sim_ret. exists (Some p), [(p, Bytes l)], T1. split; [by rewrite Hp|].
  split; [done|]. split; [done|]. by exists l.
Qed.

Lemma sim_new_string T T0 l :
  grows leaky T0 T → sim T (new_string l) (mret (Some (PStr (c_string l)))) (val_of T0).
Proof.
  intros Hg. unfold new_string, strdup. apply sim_malloc. intros p.
  by eapply sim_StringValue; [|exact Hg|apply c_string_no_nul].
Qed.

Lemma sim_ErrorAbort {A B} T msg (k : option nat → M A) (kd : unit → P B) R :
  sim T (k None) (kd tt) R →
  sim T (ErrorAbort msg ≫= k) (p_error (take 4095 msg) ≫= kd) R.
Proof.
  intros Hk. unfold ErrorAbort. apply sim_assoc, sim_malloc. intros p. apply sim_assoc.
  eapply sim_set_errmsg; [done|]. exact Hk.
Qed.

Lemma sim_FreeValue {A B} T T' v t n q d D0 (k : unit → M A) (c : P B) R :
  T ≡ₚ (v, Val t n q) :: D0 ++ T' → data_at q d D0 → sim T' (k tt) c R →
  sim T (FreeValue (Some v) ≫= k) c R.
Proof.
  intros Hp Hd Hk. unfold FreeValue. apply sim_assoc.
  eapply sim_load_val; [rewrite Hp; constructor|]. apply sim_assoc.
  destruct q as [q|], d as [l|]; try done; simpl in Hd; subst D0; cbn [free_opt].
  - eapply (sim_free T ((v, Val t n (Some q)) :: T') q); [rewrite Hp; perm|].
    eapply sim_free; [done|exact Hk].
  - eapply sim_free; [exact Hp|exact Hk].
Qed.

Variables (EV : Expr X → M (option nat)) (D : Expr X → P (option pval)).
Hypothesis EV_ok : ∀ e T, sim T (EV e) (D e) (val_of T).

Lemma sim_Evaluate e T : sim T (Evaluate EV e) (p_string D e) (str_of T).
Proof.
  unfold Evaluate, p_string. eapply sim_bind; [apply EV_ok|].
  intros [v|] [pv|] T' Hv; try done; [|by apply sim_ret].
  destruct Hv as (q & D0 & T1 & Hp & Hg & Hd & Hs). eapply sim_load_val; [rewrite Hp; constructor|].
  destruct (Z.eqb_spec (pv_type pv) VAL_STRING) as [Ht|Ht]; simpl negb; cbn iota.
  - destruct (Hs Ht) as (l & Hl & Hnul & _). rewrite Hl in Hd |- *. destruct q as [q|]; [|done]. simpl in Hd. subst D0.
    eapply sim_free; [exact Hp|]. apply sim_ret. by exists T1.
  - apply sim_ErrorAbort. eapply sim_FreeValue; [exact Hp|exact Hd|]. by apply sim_ret.
Qed.

Lemma sim_arg {A B} T (args : list (Expr X)) i (k : Expr X → M A) (kd : Expr X → P B) R :
  (∀ e, args !! i = Some e → sim T (k e) (kd e) R) → sim T (arg args i ≫= k) (p_arg args i ≫= kd) R.
Proof.
  intros Hk. apply sim_lift. intros e He. apply Hk.
  apply rd_Some in He as [_ He]. by rewrite Nat2Z.id in He.
Qed.

Lemma sim_map_r {A B C} T (m : M A) (d : P B) (f : B → C) R R' :
  sim T m d R → (∀ a b T', R a b T' → R' a (f b) T') → sim T m (b ← d; mret (f b)) R'.
Proof.
  intros Hm HR s ps Hs. specialize (Hm s ps Hs). unfold mbind, P_bind.
  destruct (d ps) as [[b ps']| |]; [|done..]. destruct Hm as (a & s' & T' & ? & ? & ?).
  exists a, s', T'. eauto.
Qed.

(** Strings at their places. *)
Definition strings_at (ps : list nat) (ls : list (list Z)) : list (nat * block) :=
  zip_with (λ p l, (p, Bytes l)) ps ls.

Lemma strings_at_snoc ps ls p l :
  length ps = length ls → strings_at (ps ++ [p]) (ls ++ [l]) = strings_at ps ls ++ [(p, Bytes l)].
Proof. intros. unfold strings_at. by rewrite zip_with_app. Qed.

Lemma sim_free_all {A B} T T0 ps ls (k : unit → M A) (d : P B) R :
  T ≡ₚ strings_at ps ls ++ T0 → length ps = length ls →
  sim T0 (k tt) d R → sim T (free_all ps ≫= k) d R.
Proof.
  revert T ls. induction ps as [|p ps IH]; intros T [|l ls] Hp Hlen Hk; try done.
  - by eapply sim_perm.
  - simpl. apply sim_assoc. eapply (sim_free T (strings_at ps ls ++ T0) p); [exact Hp|].
    eapply IH; [done| |done]. by injection Hlen.
Qed.

Lemma sim_load_strs {A B} T T0 ps ls (k : list (list Z) → M A) (d : P B) R :
  T ≡ₚ strings_at ps ls ++ T0 → length ps = length ls →
  sim T (k ls) d R → sim T (load_strs ps ≫= k) d R.
Proof.
  revert T0 ls k. induction ps as [|p ps IH]; intros T0 [|l ls] k Hp Hlen Hk; try done.
  simpl. apply sim_assoc. eapply sim_load_str; [rewrite Hp; constructor|].
  apply sim_assoc. apply (IH ((p, Bytes l) :: T0) ls); [| by injection Hlen|done].
  rewrite Hp. simpl. apply Permutation_middle.
Qed.

(** The results of the arguments from [i] on, after those in [done]. *)
Definition strs_of T0 T (done : list nat) (n : nat) (a : option (list nat)) (b : option (list (list Z))) T' :=
  match a, b with
  | None, None => grows leaky T0 T'
  | Some l, Some ls =>
      ∃ new T1, l = done ++ new ∧ length new = length ls ∧ length new = n ∧ T' ≡ₚ strings_at new ls ++ T1 ∧
        grows leaky T T1 ∧ Forall (λ l, no_nul l) ls
  | _, _ => False
  end.

(** One step of a function: an argument is evaluated to a string [l] at [p] or to a failure,
    which ends the function. *)
Lemma sim_string_step {A B} e T (k : option nat → M A) (kd : option (list Z) → P B) R :
  (∀ p l T1, grows leaky T T1 → no_nul l → sim ((p, Bytes l) :: T1) (k (Some p)) (kd (Some l)) R) →
  (∀ T1, grows leaky T T1 → sim T1 (k None) (kd None) R) →
  sim T (Evaluate EV e ≫= k) (p_string D e ≫= kd) R.
Proof.
  intros HS HN. eapply sim_bind; [apply sim_Evaluate|].
  intros [p|] [l|] T' Hr; try done; [|by apply HN].
  destruct Hr as (T1 & Hp & ? & ?). eapply sim_perm; [exact Hp|]. by apply HS.
Qed.

Lemma p_strings_read args n i :
  length (drop i args) = n → ∀ s, p_strings D (drop i args) s = p_read (p_string D) args n i s.
Proof.
  revert i. induction n as [|n IH]; intros i Hn s.
  { apply nil_length_inv in Hn. by rewrite Hn. }
  assert (∃ e, args !! i = Some e) as [e He].
  { apply lookup_lt_is_Some_2. rewrite length_drop in Hn. lia. }
  pose proof (drop_S _ _ _ He) as Hdrop. rewrite Hdrop in Hn |- *. simpl in Hn. injection Hn as Hn.
  cbn [p_strings p_read]. unfold p_arg. rewrite rd_lookup, Nat2Z.id, He by lia.
  unfold mbind, P_bind, p_lift. simpl. destruct (p_string D e s) as [[[r|] s']| |]; try done.
  cbn [outcome_bind mbind]. by rewrite (IH (S i) Hn s').
Qed.

Lemma sim_read_strings args n i done ls T T0 :
  T ≡ₚ strings_at done ls ++ T0 → length done = length ls →
  sim T (read_strings EV args n i done) (p_read (p_string D) args n i) (strs_of T0 T done n).
Proof.
  revert i done ls T T0. induction n as [|n IH]; intros i done ls T T0 Hp Hlen.
  { apply sim_ret. exists [], T. by rewrite app_nil_r. }
  cbn [read_strings p_read]. apply sim_arg. intros e He. apply sim_string_step.
  - intros p l T1 Hg0 Hl. pose proof Hg0 as Hg.
    rewrite Hp in Hg. apply grows_app in Hg as (T2 & HT2 & Hg). eapply sim_map_r.
    + apply (IH (S i) (done ++ [p]) (ls ++ [l]) _ T2).
      * rewrite strings_at_snoc by done. rewrite HT2. perm.
      * rewrite !length_app; simpl; lia.
    + intros [r|] [rs|] T'' Hrs; try done; simpl in Hrs |- *.
      * destruct Hrs as (new & T3 & -> & Hnew & Hn' & HT'' & Hg' & Hnul).
        apply grows_cons in Hg' as (T4 & HT4 & Hg'). exists (p :: new), T4.
        rewrite <- app_assoc. split; [done|]. split; [by simpl; rewrite Hnew|].
        split; [by simpl; rewrite Hn'|].
        split; [rewrite HT'', HT4; simpl; symmetry; apply Permutation_middle|].
        split; [by transitivity T1|by constructor].
      * by transitivity T2.
  - intros T1 Hg. rewrite Hp in Hg. apply grows_app in Hg as (T2 & HT2 & Hg).
    eapply sim_free_all; [exact HT2|done|]. by apply sim_ret.
Qed.

Lemma sim_read_all args T T0 :
  T ≡ₚ T0 → sim T (read_strings EV args (length args) 0 []) (p_strings D args) (strs_of T0 T [] (length args)).
Proof.
  intros Hp. eapply sim_ext; [done|exact (p_strings_read args (length args) 0 eq_refl)|].
  by eapply (sim_read_strings _ _ _ [] []).
Qed.

Lemma copy_strings_spec ss pre junk :
  length junk = S (length (concat ss)) →
  ∃ x, copy_strings ss (pre ++ junk) (zlen pre) =
    Ret (pre ++ concat ss ++ [x], zlen pre + zlen (concat ss)).
Proof.
  revert pre junk. induction ss as [|s ss IH]; intros pre junk Hlen; simpl in *.
  - destruct junk as [|x [|]]; try done. exists x. simpl. do 2 f_equal. lia.
  - rewrite length_app in Hlen.
    assert (∃ mid post, junk = mid ++ post ∧ length mid = S (length s)) as (mid & post & -> & Hmid).
    { exists (take (S (length s)) junk), (drop (S (length s)) junk).
      rewrite take_drop, length_take. split; [done|lia]. }
    rewrite length_app in Hlen.
    rewrite (wr_n_app pre mid) by (rewrite length_app; simpl; lia). cbn [mbind outcome_bind].
    replace (zlen pre + zlen s) with (zlen (pre ++ s)) by (rewrite length_app; lia).
    rewrite <- app_assoc, (app_assoc pre s). simpl ([0] ++ _).
    destruct (IH (pre ++ s) (0 :: post)) as [x Hx]; [simpl; lia|].
    exists x. rewrite Hx, <- !app_assoc. do 2 f_equal. rewrite !length_app. lia.
Qed.

Lemma concat_no_nul ls : Forall (λ l, no_nul l) ls → no_nul (concat ls).
Proof. induction 1; simpl; [constructor|]. by apply Forall_app. Qed.

Lemma sim_lift_eq {A A' B} T (o : outcome A) a (k : A → M A') (d : P B) R :
  o = Ret a → sim T (k a) d R → sim T (lift o ≫= k) d R.
Proof. by intros ->. Qed.

Lemma sim_null T0 T : grows leaky T0 T → sim T (mret None) (mret None) (val_of T0).
Proof. intros. by apply sim_ret; simpl. Qed.

Lemma sim_value e T T0 : grows leaky T0 T → sim T (EV e) (D e) (val_of T0).
Proof. intros Hp. eapply sim_mono; [apply EV_ok|]. intros a b T'. by apply val_of_grows. Qed.

Lemma sim_error_null T T0 T1 p l :
  T ≡ₚ (p, Bytes l) :: T1 → grows leaky T0 T1 →
  sim T (_ ← set_errmsg p; mret None) (_ ← p_error l; mret None) (val_of T0).
Proof. intros Hp Hg. eapply sim_set_errmsg; [exact Hp|]. by apply sim_null. Qed.

Lemma sim_msg T T0 l :
  grows leaky T0 T → c_string l = l →
  sim T (p ← strdup l; _ ← set_errmsg p; mret None) (_ ← p_error l; mret None) (val_of T0).
Proof.
  intros Hp Hl. unfold strdup. rewrite Hl. apply sim_malloc. intros p.
  by eapply sim_error_null.
Qed.

Lemma sim_new_string_at T T0 l :
  grows leaky T0 T → c_string l = l → sim T (new_string l) (mret (Some (PStr l))) (val_of T0).
Proof. intros Hp Hl. pose proof (sim_new_string T T0 l Hp) as H. by rewrite Hl in H. Qed.

Lemma c_string_id l : no_nul l → c_string l = l.
Proof.
  induction 1 as [|c l Hc Hl IH]; simpl; [done|]. destruct (Z.eqb_spec c 0); [done|]. by rewrite IH.
Qed.

Lemma sim_concat_fn args T : sim T (concat_fn EV args) (p_concat D args) (val_of T).
Proof.
  unfold concat_fn, p_concat. case_bool_decide as Hnil.
  { subst args. simpl. eapply (sim_ext T _ (new_string [])); [done| |by apply sim_new_string_at].
    done. }
  apply sim_malloc. intros a.
  eapply sim_bind; [by apply sim_read_all|].
  intros [ps|] [ls|] T' Hr; try done; simpl in Hr.
  - destruct Hr as (new & T1 & -> & Hlen & Hn & HT' & Hg & Hnul). simpl app.
    apply grows_cons in Hg as (T2 & HT2 & Hg). rewrite HT2 in HT'.
    eapply sim_load_strs; [exact HT'|done|].
    destruct (copy_strings_spec ls [] (replicate (length (concat ls) + 1) 0)) as [x Hx];
      [rewrite length_replicate; lia|].
    simpl app in Hx. rewrite Z.add_0_l in Hx. eapply sim_lift_eq; [exact Hx|]. cbn iota beta.
    eapply sim_lift_eq; [by apply wr_in_bounds; rewrite length_app; simpl; lia|].
    rewrite Nat2Z.id, insert_app_r_alt, Nat.sub_diag by lia. simpl insert.
    rewrite c_string_app by by apply concat_no_nul.
    apply sim_malloc. intros p.
    eapply (sim_free_all _ ((p, Bytes (concat ls)) :: (a, Args) :: T2)); [|exact Hlen|].
    { rewrite HT'. perm. }
    eapply (sim_free _ ((p, Bytes (concat ls)) :: T2)); [perm|].
    eapply sim_StringValue; [done|done|by apply concat_no_nul].
  - apply grows_cons in Hr as (T2 & HT2 & Hg). eapply sim_free; [exact HT2|]. by apply sim_null.
Qed.

Lemma sim_ifelse_fn args T : sim T (ifelse_fn EV args) (p_ifelse D args) (val_of T).
Proof.
  unfold ifelse_fn, p_ifelse. cbv zeta. destruct (negb _ && negb _).
  { by apply sim_msg. }
  apply sim_arg. intros e _. apply sim_string_step.
  - intros p l T1 Hg Hl. eapply sim_load_str; [constructor|].
    destruct (BooleanString l); [|case_bool_decide].
    + eapply sim_free; [done|]. apply sim_arg. intros. by apply sim_value.
    + eapply sim_free; [done|]. apply sim_arg. intros. by apply sim_value.
    + by eapply sim_StringValue.
  - intros. by apply sim_null.
Qed.

Lemma sim_abort_fn args T : sim T (abort_fn EV args) (p_abort D args) (val_of T).
Proof.
  unfold abort_fn, p_abort. eapply (sim_bind _ _ _ (str_of T)).
  { case_bool_decide; [|by apply sim_ret; simpl]. apply sim_arg. intros. apply sim_Evaluate. }
  intros [p|] [l|] T' Hr; try done; simpl in Hr.
  - destruct Hr as (T1 & Hp & Hg & Hl). simpl. eapply (sim_ext _ _ (_ ← set_errmsg p; mret None)); [done|done|].
    by eapply sim_error_null.
  - eapply (sim_ext _ _ (p ← strdup (str "called abort()"); _ ← set_errmsg p; mret None));
      [done|done|]. by apply sim_msg.
Qed.

(** Loops start with more blocks than the function. *)
Lemma sim_assert_loop args T T0 : grows leaky T0 T → sim T (assert_loop EV args) (p_assert D args) (val_of T0).
Proof.
  revert T. induction args as [|e args IH]; intros T HT; simpl; [by apply sim_new_string_at|].
  apply sim_string_step.
  - intros p l T1 Hg Hl. assert (grows leaky T0 T1) by by transitivity T.
    eapply sim_load_str; [constructor|].
    eapply sim_free; [done|]. destruct (BooleanString l); [by apply IH|].
    apply sim_get_script. intros src. apply sim_lift. intros msg _.
    apply sim_malloc. intros q. by eapply sim_error_null.
  - intros T1 Hg. apply sim_null. by transitivity T.
Qed.

Lemma sim_sleep_fn args T : sim T (sleep_fn EV args) (p_sleep_fn D args) (val_of T).
Proof.
  unfold sleep_fn, p_sleep_fn. apply sim_arg. intros e _. apply sim_string_step.
  - intros p l T1 Hg Hl. eapply sim_load_str; [constructor|].
    apply sim_sleep. by eapply sim_StringValue.
  - intros. by apply sim_null.
Qed.

Lemma sim_stdout_loop args T T0 : grows leaky T0 T → sim T (stdout_loop EV args) (p_stdout D args) (val_of T0).
Proof.
  revert T. induction args as [|e args IH]; intros T HT; simpl; [by apply sim_new_string_at|].
  apply sim_string_step.
  - intros p l T1 Hg Hl. eapply sim_load_str; [constructor|].
    apply sim_print. eapply sim_free; [done|]. apply IH. by transitivity T.
  - intros T1 Hg. apply sim_null. by transitivity T.
Qed.

Lemma sim_logical_fn b args T : sim T (logical_fn EV b args) (p_logical D b args) (val_of T).
Proof.
  unfold logical_fn, p_logical. apply sim_arg. intros e _. apply sim_string_step.
  - intros p l T1 Hg Hl. eapply sim_load_str; [constructor|].
    destruct (Bool.eqb _ _); [|by eapply sim_StringValue].
    eapply sim_free; [done|]. apply sim_arg. intros. by apply sim_value.
  - intros. by apply sim_null.
Qed.

Lemma sim_not_fn args T : sim T (not_fn EV args) (p_not D args) (val_of T).
Proof.
  unfold not_fn, p_not. apply sim_arg. intros e _. apply sim_string_step.
  - intros p l T1 Hg Hl. eapply sim_load_str; [constructor|].
    eapply sim_free; [done|]. apply sim_new_string_at; [done|]. by destruct (BooleanString l).
  - intros. by apply sim_null.
Qed.

Lemma sim_compare_fn test args T :
  sim T (compare_fn EV test args) (p_compare D test args) (val_of T).
Proof.
  unfold compare_fn, p_compare. apply sim_arg. intros e _. apply sim_string_step.
  - intros p l T1 Hg Hl. apply sim_arg. intros e' _. apply sim_string_step.
    + intros q r T2 (T3 & Hp & Hg')%grows_cons Hr. assert (grows leaky T T3) by by transitivity T1.
      eapply sim_load_str; [rewrite Hp; do 2 constructor|].
      eapply sim_load_str; [constructor|].
      unfold strdup. replace (c_string _) with (if test l r then str "t" else [])
        by by destruct (test l r).
      apply sim_malloc. intros z. set (out := if test l r then _ else _).
      eapply (sim_free _ ((z, Bytes out) :: (q, Bytes r) :: T3) p); [rewrite Hp; perm|].
      eapply (sim_free _ ((z, Bytes out) :: T3) q); [perm|].
      eapply sim_StringValue; [done|done|]. subst out. destruct (test l r); repeat constructor; done.
    + intros T2 (T3 & Hp & Hg')%grows_cons. eapply sim_free; [exact Hp|].
      apply sim_null. by transitivity T1.
  - intros. by apply sim_null.
Qed.

Lemma sim_sequence_fn args T : sim T (sequence_fn EV args) (p_sequence D args) (val_of T).
Proof.
  unfold sequence_fn, p_sequence. apply sim_arg. intros e _.
  eapply sim_bind; [apply EV_ok|].
  intros [v|] [pv|] T' Hv; try done; [|by apply sim_null].
  destruct Hv as (q & D0 & T1 & Hp & Hg & Hd & _). eapply sim_FreeValue; [exact Hp|exact Hd|].
  apply sim_arg. intros. by apply sim_value.
Qed.

(** The arguments are strings at [ps], or one of them failed. *)
Lemma sim_ReadArgs {A B} args n T (k : option (list nat) → M A) (kd : option (list (list Z)) → P B) R :
  (∀ ps ls T1, length ps = length ls → length ps = n → grows leaky T T1 →
    Forall (λ l, no_nul l) ls → sim (strings_at ps ls ++ T1) (k (Some ps)) (kd (Some ls)) R) →
  (∀ T1, grows leaky T T1 → sim T1 (k None) (kd None) R) →
  sim T (ReadArgs EV args n ≫= k) (p_ReadArgs D args n ≫= kd) R.
Proof.
  intros HS HN. unfold ReadArgs, p_ReadArgs. apply sim_assoc, sim_malloc. intros a. apply sim_assoc.
  eapply sim_bind; [by apply (sim_read_strings args n 0 [] [] _ ((a, Args) :: T))|].
  intros [ps|] [ls|] T' Hr; try done; simpl in Hr; apply sim_assoc.
  - destruct Hr as (new & T1 & -> & Hlen & Hn & HT' & (T2 & HT2 & Hg)%grows_cons & Hnul). simpl app.
    eapply (sim_free _ (strings_at new ls ++ T2) a); [rewrite HT', HT2; perm|]. by apply HS.
  - apply grows_cons in Hr as (T2 & HT2 & Hg). eapply sim_free; [exact HT2|]. by apply HN.
Qed.

(** So are all arguments, with an array [a]. *)
Lemma sim_ReadVarArgs {A B} args T (k : option (nat * list nat) → M A) (kd : option (list (list Z)) → P B) R :
  (∀ a ps ls T1, length ps = length ls → length ps = length args → grows leaky T T1 →
    Forall (λ l, no_nul l) ls → sim (strings_at ps ls ++ (a, Args) :: T1) (k (Some (a, ps))) (kd (Some ls)) R) →
  (∀ T1, grows leaky T T1 → sim T1 (k None) (kd None) R) →
  sim T (ReadVarArgs EV args ≫= k) (p_ReadArgs D args (length args) ≫= kd) R.
Proof.
  intros HS HN. unfold ReadVarArgs, p_ReadArgs. apply sim_assoc, sim_malloc. intros a. apply sim_assoc.
  eapply sim_bind; [by apply (sim_read_strings args _ 0 [] [] _ ((a, Args) :: T))|].
  intros [ps|] [ls|] T' Hr; try done; simpl in Hr.
  - destruct Hr as (new & T1 & -> & Hlen & Hn & HT' & (T2 & HT2 & Hg)%grows_cons & Hnul). simpl app.
    eapply (sim_perm _ (strings_at new ls ++ (a, Args) :: T2)); [rewrite HT', HT2; perm|].
    eapply sim_ext; [|done|by apply (HS a new ls T2)]. done.
  - apply grows_cons in Hr as (T2 & HT2 & Hg). apply sim_assoc. eapply sim_free; [exact HT2|].
    eapply sim_ext; [|done|by apply HN]. done.
Qed.

(** A value at [v], in the blocks [B]. *)
Definition value_at (v : nat) (pv : pval) (B : list (nat * block)) : Prop :=
  ∃ q E, B = (v, Val (pv_type pv) (pv_size pv) q) :: E ∧ data_at q (pv_data pv) E ∧
    (pv_type pv = VAL_STRING → ∃ l, pv_data pv = Some l ∧ no_nul l ∧ pv_size pv = zlen l).
Fixpoint values_at (vs : list nat) (pvs : list pval) (B : list (nat * block)) : Prop :=
  match vs, pvs with
  | [], [] => B = []
  | v :: vs, pv :: pvs => ∃ B1 B2, B = B1 ++ B2 ∧ value_at v pv B1 ∧ values_at vs pvs B2
  | _, _ => False
  end.

Lemma val_of_value T v pv T' :
  val_of T (Some v) (Some pv) T' ↔ ∃ B T1, T' ≡ₚ B ++ T1 ∧ value_at v pv B ∧ grows leaky T T1.
Proof.
  simpl. split.
  - intros (q & E & T1 & HT & Hg & Hd & Hs). exists ((v, Val (pv_type pv) (pv_size pv) q) :: E), T1.
    split; [exact HT|]. split; [|done]. by exists q, E.
  - intros (B & T1 & HT & (q & E & -> & Hd & Hs) & Hg). by exists q, E, T1.
Qed.

Lemma values_at_snoc vs pvs B v pv B' :
  values_at vs pvs B → value_at v pv B' → values_at (vs ++ [v]) (pvs ++ [pv]) (B ++ B').
Proof.
  revert pvs B. induction vs as [|v0 vs IH]; intros [|pv0 pvs] B Hv Hv'; try done; simpl in *.
  - subst B. exists B', []. by rewrite app_nil_r.
  - destruct Hv as (B1 & B2 & -> & H1 & H2). exists B1, (B2 ++ B'). rewrite app_assoc. eauto.
Qed.
Lemma values_at_length vs pvs B : values_at vs pvs B → length vs = length pvs.
Proof.
  revert pvs B. induction vs as [|v vs IH]; intros [|pv pvs] B; simpl; try done.
  intros (B1 & B2 & _ & _ & H). by rewrite (IH _ _ H).
Qed.

Lemma sim_FreeValue_at {A B} T T' v pv Bv (k : unit → M A) (c : P B) R :
  T ≡ₚ Bv ++ T' → value_at v pv Bv → sim T' (k tt) c R → sim T (FreeValue (Some v) ≫= k) c R.
Proof. intros HT (q & E & -> & Hd & Hs) Hk. eapply sim_FreeValue; [exact HT|exact Hd|exact Hk]. Qed.

Lemma sim_free_values {A B} vs pvs T T' Bv (k : unit → M A) (c : P B) R :
  T ≡ₚ Bv ++ T' → values_at vs pvs Bv → sim T' (k tt) c R → sim T (free_values vs ≫= k) c R.
Proof.
  revert pvs T Bv. induction vs as [|v vs IH]; intros [|pv pvs] T Bv HT Hv Hk; try done; simpl in *.
  - subst Bv. eapply sim_perm; [exact HT|]. exact Hk.
  - destruct Hv as (B1 & B2 & -> & H1 & H2). rewrite <- app_assoc in HT. apply sim_assoc.
    eapply sim_FreeValue_at; [exact HT|exact H1|]. by eapply IH.
Qed.

Definition vals_of T0 T (done : list nat) (a : option (list nat)) (b : option (list pval)) T' :=
  match a, b with
  | None, None => grows leaky T0 T'
  | Some l, Some pvs => ∃ new T1 B, l = done ++ new ∧ T' ≡ₚ B ++ T1 ∧ grows leaky T T1 ∧ values_at new pvs B
  | _, _ => False
  end.

Lemma sim_read_values args n i done pvs B T T0 :
  T ≡ₚ B ++ T0 → values_at done pvs B →
  sim T (read_values EV args n i done) (p_read D args n i) (vals_of T0 T done).
Proof.
  revert i done pvs B T T0. induction n as [|n IH]; intros i done pvs B T T0 Hp Hd.
  { apply sim_ret. exists [], T, []. by rewrite app_nil_r. }
  cbn [read_values p_read]. apply sim_arg. intros e He. eapply sim_bind; [apply EV_ok|].
  intros [v|] [pv|] T' Hv; try done.
  - apply val_of_value in Hv as (Bv & T1 & HT' & Hv & Hg0). pose proof Hg0 as Hg.
    rewrite Hp in Hg. apply grows_app in Hg as (T2 & HT2 & Hg). eapply sim_map_r.
    + apply (IH (S i) (done ++ [v]) (pvs ++ [pv]) (B ++ Bv) _ T2); [|by apply values_at_snoc].
      rewrite HT', HT2. perm.
    + intros [r|] [rs|] T'' Hrs; try done; simpl in Hrs |- *.
      * destruct Hrs as (new & T3 & Bn & -> & HT'' & Hg' & Hnew). rewrite HT' in Hg'.
        apply grows_app in Hg' as (T4 & HT4 & Hg'). exists (v :: new), T4, (Bv ++ Bn).
        rewrite <- app_assoc. split; [done|]. split; [rewrite HT'', HT4; perm|].
        split; [by transitivity T1|]. by exists Bv, Bn.
      * by transitivity T2.
  - simpl in Hv. rewrite Hp in Hv. apply grows_app in Hv as (T2 & HT2 & Hg).
    eapply sim_free_values; [exact HT2|exact Hd|]. by apply sim_ret.
Qed.

Lemma sim_ReadValueVarArgs {A B} args T (k : option (nat * list nat) → M A) (kd : option (list pval) → P B) R :
  (∀ a vs pvs Bv T1, values_at vs pvs Bv → grows leaky T T1 →
    sim (Bv ++ (a, Args) :: T1) (k (Some (a, vs))) (kd (Some pvs)) R) →
  (∀ T1, grows leaky T T1 → sim T1 (k None) (kd None) R) →
  sim T (ReadValueVarArgs EV args ≫= k) (p_ReadValueArgs D args ≫= kd) R.
Proof.
  intros HS HN. unfold ReadValueVarArgs, p_ReadValueArgs. apply sim_assoc, sim_malloc. intros a. apply sim_assoc.
  eapply sim_bind; [by apply (sim_read_values args _ 0 [] [] [] _ ((a, Args) :: T))|].
  intros [vs|] [pvs|] T' Hr; try done; simpl in Hr.
  - destruct Hr as (new & T1 & Bv & -> & HT' & (T2 & HT2 & Hg)%grows_cons & Hv). simpl app.
    eapply (sim_perm _ (Bv ++ (a, Args) :: T2)); [rewrite HT', HT2; perm|].
    eapply sim_ext; [|done|by apply (HS a new pvs Bv T2)]. done.
  - apply grows_cons in Hr as (T2 & HT2 & Hg). apply sim_assoc. eapply sim_free; [exact HT2|].
    eapply sim_ext; [|done|by apply HN]. done.
Qed.

Lemma sim_less_than_fn msg args T :
  c_string msg = msg → sim T (less_than_fn EV msg args) (p_less_than D msg args) (val_of T).
Proof.
  intros Hmsg. unfold less_than_fn, p_less_than. case_bool_decide as Hargs; simpl negb; cbn iota.
  - eapply sim_ext; [done| |].
    { intros s. unfold mbind at 1, P_bind at 1. rewrite <- (drop_0 args) at 1.
      rewrite (p_strings_read args 2 0) by done. reflexivity. }
    apply (sim_ReadArgs args 2).
    + intros [|p [|q [|p3 ps]]] [|l [|r [|l3 ls]]] T1 Hlen Hlen' Hg _; simpl in *; try lia.
      eapply sim_load_str; [constructor|].
      eapply sim_load_str; [do 2 constructor|].
      eapply sim_free; [done|]. eapply sim_free; [done|].
      apply sim_new_string_at; [done|]. by destruct (less_than_int l r).
    + intros. by apply sim_null.
  - by apply sim_msg.
Qed.

Lemma sim_greater_than_fn args T :
  sim T (greater_than_fn EV args) (p_greater_than D args) (val_of T).
Proof.
  unfold greater_than_fn, p_greater_than. destruct (negb _); [by apply sim_msg|].
  apply sim_arg. intros a0 _. apply sim_arg. intros a1 _. by apply sim_less_than_fn.
Qed.

Variables (o : X → list Z → list (Expr X) → M (option nat))
  (po : X → list Z → list (Expr X) → P (option pval)).
Hypothesis o_ok : ∀ x n args T, sim T (o x n args) (po x n args) (val_of T).

Lemma sim_call f n args T : sim T (call EV o f n args) (meaning D po f n args) (val_of T).
Proof.
  destruct f; simpl; [by apply sim_new_string|apply sim_concat_fn|apply sim_ifelse_fn
    |apply sim_abort_fn|by apply sim_assert_loop|apply sim_sleep_fn|by apply sim_stdout_loop
    |apply sim_logical_fn|apply sim_logical_fn|apply sim_not_fn|apply sim_compare_fn..
    |apply sim_sequence_fn|by apply sim_less_than_fn|apply sim_greater_than_fn|apply o_ok].
Qed.
End functions.

(** ** The evaluator against the meaning of scripts *)

(** What functions of other parts of the program mean. *)
Class Extension_meaning (X : Type) :=
  ext_meaning : (Expr X → P (option pval)) → X → list Z → list (Expr X) → P (option pval).

(** They keep the conventions of ownership, when the evaluator they are given does; those
    that are [leaky] may forget blocks of their own. *)
Class ExtensionLaws (leaky : bool) (X : Type) `{Extension X, Extension_meaning X} :=
  ext_ok EV D :
    (∀ e T, sim T (EV e) (D e) (val_of leaky T)) →
    ∀ x n args T, sim T (ext_call EV x n args) (ext_meaning D x n args) (val_of leaky T).

Section evaluator.
Context {X : Type} `{Extension X, Extension_meaning X}.

Fixpoint denote (fuel : nat) (e : Expr X) : P (option pval) :=
  match fuel with
  | O => λ _, Diverge
  | S fuel => meaning (denote fuel) (ext_meaning (denote fuel)) (fn e) (name e) (argv e)
  end.

Context (leaky : bool) `{!ExtensionLaws leaky X}.

Lemma EvaluateValue_sim fuel e T : sim T (EvaluateValue fuel e) (denote fuel e) (val_of leaky T).
Proof.
  revert e T. induction fuel as [|fuel IH]; intros e T.
  { by intros s ps _. }
  apply sim_call; [done|]. by apply ext_ok.
Qed.

Lemma Evaluate_sim fuel e T :
  sim T (Evaluate (EvaluateValue fuel) e) (p_string (denote fuel) e) (str_of leaky T).
Proof. apply sim_Evaluate. intros. apply EvaluateValue_sim. Qed.

(** The state at the start of an evaluation: an error message, if there is one, is a
    string on the heap. The rest of the heap belongs to the caller. *)
Definition errmsg_ok (s : State) : Prop :=
  match errmsg s with Some p => ∃ m, heap s !! p = Some (Bytes m) | None => True end.
Definition rest (s : State) : gmap nat block :=
  match errmsg s with Some p => delete p (heap s) | None => heap s end.
Definition message (s : State) : option (list Z) :=
  p ← errmsg s; b ← heap s !! p; match b with Bytes m => Some m | _ => None end.
Definition visible (s : State) : PState := mk_ps (script s) (message s) (printed s) (slept s) (world s).

Lemma state_is_visible s : errmsg_ok s → state_is s (map_to_list (rest s)) (visible s).
Proof.
  unfold errmsg_ok, rest, visible, message. intros Hok. do 4 (split; [done|]). simpl.
  destruct (errmsg s) as [p|]; simpl.
  - destruct Hok as [m Hm]. rewrite Hm. simpl. exists [(p, Bytes m)]. split; [|split; [|done]].
    + simpl. rewrite list_to_map_to_list. by rewrite insert_delete_id.
    + simpl. constructor; [|apply NoDup_fst_map_to_list].
      intros ([q b] & Heq & Hin)%list_elem_of_fmap. simpl in Heq. subst q.
      apply elem_of_map_to_list in Hin. by rewrite lookup_delete_eq in Hin.
  - exists []. split; [by simpl; rewrite list_to_map_to_list|]. split; [|done].
    apply NoDup_fst_map_to_list.
Qed.

Lemma state_is_rest s T ps : state_is s T ps → rest s = list_to_map T ∧ NoDup T.*1 ∧
  visible s = ps ∧ errmsg_ok s ∧ ∀ p, errmsg s = Some p → p ∉ T.*1.
Proof.
  intros (Hsc & Hpr & Hsl & Hwo & E & Hh & Hnd & He). unfold rest, visible, message, errmsg_ok.
  destruct ps as [psc perr ppr psl pwo]. simpl in *. subst.
  destruct (errmsg s) as [p|], perr as [m|]; try done; subst E; simpl in *.
  - apply NoDup_cons in Hnd as [Hnin Hnd].
    rewrite Hh, lookup_insert_eq. simpl. split; [|split; [done|]].
    + rewrite delete_insert_id; [done|]. by apply not_elem_of_list_to_map_1.
    + split; [done|]. split; [eauto|]. by intros q [= <-].
  - done.
Qed.

(** What a completed evaluation to a string leaves: none of the caller's blocks is lost or
    touched, none that it has allocated is left unless [leaky], and the result is a fresh
    string. *)
Definition owns_result (s : State) (r : option nat) (s' : State) : Prop :=
  errmsg_ok s' ∧
  ∃ left : gmap nat block, left ##ₘ rest s ∧ (leaky = false → left = ∅) ∧
    match r with
    | None => rest s' = left ∪ rest s
    | Some p => ∃ l, rest s' = <[p := Bytes l]> (left ∪ rest s) ∧ (left ∪ rest s) !! p = None ∧
        Forall (λ c, c ≠ 0) l
    end.

Lemma grows_map (m : gmap nat block) T : grows leaky (map_to_list m) T → NoDup T.*1 →
  ∃ left : gmap nat block, list_to_map T = left ∪ m ∧ left ##ₘ m ∧ (leaky = false → left = ∅).
Proof.
  intros (L & HL & Hleaky) Hnd. exists (list_to_map L). split; [|split].
  - rewrite (list_to_map_proper T (L ++ map_to_list m)), list_to_map_app, list_to_map_to_list by done.
    done.
  - rewrite HL, fmap_app in Hnd. apply NoDup_app in Hnd as (_ & Hd & _).
    apply map_disjoint_dom. rewrite dom_list_to_map_L. intros p Hp%elem_of_list_to_set Hm.
    apply (Hd p Hp). apply elem_of_dom in Hm as [b Hb]. apply list_elem_of_fmap.
    exists (p, b). split; [done|]. by apply elem_of_map_to_list.
  - intros Hl. by rewrite Hleaky.
Qed.

Lemma Evaluate_owns_spec fuel e s r s' :
  errmsg_ok s → Evaluate (EvaluateValue fuel) e s = Ret (r, s') → owns_result s r s'.
Proof.
  intros Hok Hrun.
  pose proof (Evaluate_sim fuel e _ s _ (state_is_visible s Hok)) as Hsim.
  destruct (p_string (denote fuel) e (visible s)) as [[b ps']| |]; [|congruence..].
  destruct Hsim as (a & s1 & T' & Hs1 & Hst & HR). rewrite Hrun in Hs1.
  injection Hs1 as <- <-. apply state_is_rest in Hst as (Hrest & Hnd & _ & Hok' & _).
  split; [done|]. destruct r as [p|], b as [l|]; try done; simpl in HR.
  - destruct HR as (T1 & HT' & Hg & Hl). rewrite HT' in Hnd. simpl in Hnd. apply NoDup_cons in Hnd as [Hnin Hnd].
    destruct (grows_map _ _ Hg Hnd) as (left & Heq & Hd & Hleaky). exists left. split; [done|]. split; [done|].
    exists l. rewrite Hrest, <- Heq. split; [|split; [|done]].
    + rewrite (list_to_map_proper T' ((p, Bytes l) :: T1)); [done| |done]. by rewrite HT'; constructor.
    + by apply not_elem_of_list_to_map_1.
  - destruct (grows_map _ _ HR Hnd) as (left & Heq & Hd & Hleaky). exists left. by rewrite Hrest.
Qed.
End evaluator.

(** ** Termination *)

(** [d] returns and leaves the script, whatever the state. *)
Definition total {A} (src : list Z) (d : P A) : Prop :=
  ∀ ps, p_script ps = src → ∃ a ps', d ps = Ret (a, ps') ∧ p_script ps' = src.

Section total_rules.
Context (src : list Z).
Lemma total_ret {A} (a : A) : total src (mret a).
Proof. intros ps ?. by exists a, ps. Qed.
Lemma total_bind {A B} (d : P A) (k : A → P B) :
  total src d → (∀ a, total src (k a)) → total src (d ≫= k).
Proof.
  intros Hd Hk ps Hps. destruct (Hd ps Hps) as (a & ps' & Hrun & Hps').
  destruct (Hk a ps' Hps') as (b & ps'' & ? & ?). exists b, ps''.
  unfold mbind, P_bind. by rewrite Hrun.
Qed.
Lemma total_error {A} m (k : unit → P A) : total src (k tt) → total src (p_error m ≫= k).
Proof. intros Hk ps Hps. by apply Hk. Qed.
Lemma total_print {A} m (k : unit → P A) : total src (k tt) → total src (p_print m ≫= k).
Proof. intros Hk ps Hps. by apply Hk. Qed.
Lemma total_sleep {A} n (k : unit → P A) : total src (k tt) → total src (p_sleep n ≫= k).
Proof. intros Hk ps Hps. by apply Hk. Qed.
Lemma total_lift {A B} (o : outcome A) (k : A → P B) (Q : A → Prop) :
  wp o Q → (∀ a, Q a → total src (k a)) → total src (p_lift o ≫= k).
Proof.
  intros (a & -> & HQ)%wp_Ret_inv Hk ps Hps. by apply (Hk a HQ).
Qed.
Lemma total_on_world {A C} (f : W → outcome (C * W)) (k : C → P A) :
  (∀ w, wp (f w) (λ _, True)) → (∀ c, total src (k c)) → total src (p_on_world f ≫= k).
Proof.
  intros Hf Hk ps Hps. destruct (wp_Ret_inv _ _ (Hf (p_world ps))) as ([c w] & Hrun & _).
  destruct (Hk c (mk_ps (p_script ps) (p_err ps) (p_printed ps) (p_slept ps) w) Hps) as (a & ps' & ? & ?).
  exists a, ps'. unfold mbind, P_bind, p_on_world. rewrite Hrun. done.
Qed.
End total_rules.
Create HintDb edify_total.
#[local] Hint Resolve total_ret total_bind total_error total_print total_sleep : edify_total.

Section termination.
Context {X : Type} `{Extension X, Extension_meaning X} (src : list Z).

(** The place in the script that the message of a failed [assert] quotes. *)
Definition span_ok (e : Expr X) : Prop := 0 ≤ start e ≤ end_ e ∧ end_ e ≤ zlen src.

(** Enough arguments for the functions that do not check them. *)
Definition arity_ok (other_ok : X → list (Expr X) → Prop) (f : Function X) (args : list (Expr X)) : Prop :=
  match f with
  | SleepFn | LogicalNotFn => (1 ≤ length args)%nat
  | LogicalAndFn | LogicalOrFn | SubstringFn | EqualityFn | InequalityFn | SequenceFn =>
      (2 ≤ length args)%nat
  | AssertFn => Forall span_ok args
  | Other x => other_ok x args
  | _ => True
  end.

Variable other_ok : X → list (Expr X) → Prop.
Fixpoint expr_ok (fuel : nat) (e : Expr X) : Prop :=
  match fuel with
  | O => False
  | S fuel => arity_ok other_ok (fn e) (argv e) ∧ Forall (expr_ok fuel) (argv e)
  end.

Variable D : Expr X → P (option pval).
Abbreviation args_total args := (Forall (λ e, total src (D e)) args).

Lemma total_arg {A} args i (k : Expr X → P A) :
  (i < length args)%nat → args_total args → (∀ e, total src (D e) → total src (k e)) →
  total src (p_arg args i ≫= k).
Proof.
  intros Hi Hargs Hk. eapply (total_lift _ _ _ (λ e, total src (D e))); [|done].
  apply wp_rd; [lia|]. intros e He. rewrite Nat2Z.id in He. by eapply Forall_lookup_1 in Hargs.
Qed.

Lemma total_string e : total src (D e) → total src (p_string D e).
Proof.
  intros He. unfold p_string. apply total_bind; [done|]. intros [v|]; [|apply total_ret].
  destruct (negb _); auto with edify_total.
Qed.

(** A function that evaluates an argument to a string and then, on NULL, ends. *)
Lemma total_string_step {A} e (k : list Z → P (option A)) :
  total src (D e) → (∀ l, total src (k l)) →
  total src (v ← p_string D e; match v with None => mret None | Some l => k l end).
Proof.
  intros He Hk. apply total_bind; [by apply total_string|]. intros [l|]; auto with edify_total.
Qed.

Lemma total_strings args : args_total args → total src (p_strings D args).
Proof.
  induction 1 as [|e args He Hargs IH]; simpl; [apply total_ret|].
  apply total_string_step; [done|]. auto with edify_total.
Qed.

Lemma assert_message_wp e : span_ok e → wp (assert_message src e) (λ _, True).
Proof.
  intros [[Hs He] Hl]. unfold assert_message. cbv zeta.
  set (n := end_ e - start e). assert (0 ≤ n) by lia. change (zlen (str "assert failed: ")) with 15.
  rewrite wr_n_in_bounds by (rewrite ?length_replicate; simpl; lia).
  set (buf := take _ _ ++ _). assert (Hbuf : zlen buf = n + 20).
  { subst buf. rewrite !length_app, length_take, length_drop, length_replicate. simpl. lia. }
  clearbody buf. cbn [mbind outcome_bind].
  rewrite rd_n_in_bounds by lia. cbn [mbind outcome_bind].
  set (t := take _ _). assert (Ht : zlen t = n) by (subst t; rewrite length_take, length_drop; lia).
  clearbody t. destruct (wr_n buf 15 t) as [buf'| |] eqn:Hw.
  - apply wr_n_length in Hw. cbn [mbind outcome_bind]. by rewrite wr_in_bounds by lia.
  - rewrite wr_n_in_bounds in Hw by lia. done.
  - rewrite wr_n_in_bounds in Hw by lia. done.
Qed.

Lemma total_less_than msg args : args_total args → total src (p_less_than D msg args).
Proof.
  intros Hargs. unfold p_less_than. destruct (negb _); [auto with edify_total|].
  apply total_bind; [by apply total_strings|].
  intros [[|l [|r [|? ?]]]|]; auto with edify_total.
Qed.

Lemma total_loop (step : list (Expr X) → P (option pval)) (body : list Z → list (Expr X) → P (option pval)) args :
  total src (step []) →
  (∀ e args, step (e :: args) =
     (v ← p_string D e; match v with None => mret None | Some l => body l args end)) →
  (∀ l args', total src (step args') → total src (body l args')) →
  args_total args → total src (step args).
Proof.
  intros Hnil Hcons Hbody. induction 1 as [|e args He Hargs IH]; [done|].
  rewrite Hcons. apply total_string_step; auto.
Qed.

Lemma total_assert args : Forall span_ok args → args_total args → total src (p_assert D args).
Proof.
  induction 1 as [|e args He _ IH]; intros Hargs; [apply total_ret|]. simpl.
  apply Forall_cons in Hargs as [Ht Hargs]. apply total_string_step; [done|]. intros l.
  destruct (BooleanString l); [auto|]. intros ps Hps.
  pose proof (assert_message_wp e He) as Hm. apply wp_Ret_inv in Hm as (m & Hm & _).
  exists None. eexists. unfold mbind, P_bind, p_get_script, p_lift. rewrite Hps.
  cbn [outcome_bind mbind]. rewrite Hm. split; [reflexivity|exact Hps].
Qed.

Lemma total_compare test args :
  (2 ≤ length args)%nat → args_total args → total src (p_compare D test args).
Proof.
  intros Hlen Hargs. apply total_arg; [lia|done|]. intros e He. apply total_string_step; [done|].
  intros l. apply total_arg; [lia|done|]. intros e' He'. apply total_string_step; auto with edify_total.
Qed.

(** Every function returns when its arguments do. *)
Variable po : X → list Z → list (Expr X) → P (option pval).
Hypothesis po_total : ∀ x n args,
  other_ok x args → args_total args → total src (po x n args).

Lemma total_meaning f n args :
  arity_ok other_ok f args → args_total args → total src (meaning D po f n args).
Proof.
  intros Hok Hargs. pose proof Hargs as Hall.
  destruct f; simpl in *; try (by apply total_less_than).
  - apply total_ret.
  - apply total_bind; [by apply total_strings|]. intros. apply total_ret.
  - unfold p_ifelse. cbv zeta. repeat case_bool_decide; simpl; try lia.
    all: first [solve [auto with edify_total] | apply total_arg; [lia|done|]; intros e He;
      apply total_string_step; [done|]; intros l; destruct (BooleanString l);
      first [apply total_ret | apply total_arg; [lia|done|auto]]].
  - unfold p_abort. apply total_bind; [|auto with edify_total].
    case_bool_decide; [|apply total_ret]. apply total_arg; [lia|done|]. apply total_string.
  - by apply total_assert.
  - apply total_arg; [lia|done|]. intros e He. apply total_string_step; auto with edify_total.
  - eapply (total_loop (p_stdout D) (λ l args, _ ← p_print l; p_stdout D args));
      auto with edify_total.
    apply total_ret.
  - apply total_arg; [lia|done|]. intros e He. apply total_string_step; [done|]. intros l.
    destruct (Bool.eqb _ _); [|apply total_ret]. apply total_arg; [lia|done|auto].
  - apply total_arg; [lia|done|]. intros e He. apply total_string_step; [done|]. intros l.
    destruct (Bool.eqb _ _); [|apply total_ret]. apply total_arg; [lia|done|auto].
  - apply total_arg; [lia|done|]. intros e He. apply total_string_step; auto with edify_total.
  - apply total_compare; done.
  - apply total_compare; done.
  - apply total_compare; done.
  - apply total_arg; [lia|done|]. intros e He. apply total_bind; [done|].
    intros [v|]; [|apply total_ret]. apply total_arg; [lia|done|auto].
  - unfold p_greater_than. case_bool_decide; simpl; [|auto with edify_total].
    apply total_arg; [lia|done|]. intros a0 Ha0. apply total_arg; [lia|done|]. intros a1 Ha1.
    apply total_less_than. repeat constructor; done.
  - by apply po_total.
Qed.
End termination.

(** ** The function table *)

Lemma mapM_id_Some {A} (l : list A) : mapM id (Some <$> l) = Some l.
Proof. induction l as [|x l IH]; [done|]. cbn. rewrite IH. done. Qed.

Section table_lemmas.
Context {X : Type}.
Implicit Types (t : FnTable (X := X)) (l : list (list Z * Function X)).

Abbreviation named := (λ p, mk_named p.1 p.2).

(** The table holds the functions of [l] in this order. *)
Definition table_is t l : Prop :=
  ∃ free, fn_table t = (Some ∘ named <$> l) ++ replicate free None ∧
    fn_entries t = zlen l ∧ fn_size t = zlen l + Z.of_nat free.

Lemma RegisterFunction_spec n f t l :
  table_is t l → 2 * fn_size t + 1 < 2 ^ 31 →
  ∃ t', RegisterFunction n f t = Ret t' ∧ table_is t' (l ++ [(n, f)]) ∧
    fn_size t' ≤ Z.max (fn_size t) (2 * zlen l + 1).
Proof.
  intros (free & Htab & Hent & Hsize) Hb. unfold RegisterFunction. rewrite Hent, Hsize.
  set (m := Z.of_nat free). set (used := Some ∘ named <$> l) in *.
  assert (Hused : length used = length l) by (subst used; by rewrite length_fmap).
  assert (Hput : ∀ k, wr (used ++ replicate (S k) None) (zlen l) (Some (mk_named n f)) =
    Ret ((Some ∘ named <$> l ++ [(n, f)]) ++ replicate k None)).
  { intros k. rewrite <- Hused, <- (Z.add_0_r (zlen used)), wr_app_r by lia. simpl.
    subst used. by rewrite fmap_app, <- app_assoc. }
  destruct (Z.leb_spec (zlen l + m) (zlen l)); cbn [mbind outcome_bind].
  - assert (free = O) as -> by lia. subst m. rewrite int_ok_small by lia.
    cbn [mbind outcome_bind fn_table fn_entries fn_size]. rewrite Htab.
    set (size := Z.to_nat _). assert (Hsz : (size = length used + S (length l))%nat) by lia.
    rewrite Hsz, resize_add_eq, app_nil_r by (by simpl; rewrite app_nil_r).
    rewrite Hput. cbn [mbind outcome_bind]. rewrite int_ok_small by lia.
    eexists. split; [reflexivity|]. split; [|simpl; lia].
    exists (length l). simpl. rewrite length_app. simpl. split; [done|]. lia.
  - destruct free as [|free]; [lia|]. rewrite Htab, Hent, Hput. cbn [mbind outcome_bind].
    rewrite int_ok_small by lia. eexists. split; [reflexivity|].
    split; [|simpl; lia]. exists free. simpl. rewrite length_app. simpl. split; [done|]. lia.
Qed.

Lemma register_all_spec l t l0 :
  table_is t l0 → fn_size t < 2 ^ 30 → zlen (l0 ++ l) < 2 ^ 29 →
  ∃ t', register_all l t = Ret t' ∧ table_is t' (l0 ++ l).
Proof.
  revert t l0. induction l as [|[n f] l IH]; intros t l0 Ht Hs Hl; simpl.
  { exists t. by rewrite app_nil_r. }
  rewrite length_app in Hl. simpl in Hl.
  destruct (RegisterFunction_spec n f t l0 Ht) as (t1 & -> & Ht1 & Hs1); [lia|].
  simpl. destruct (IH t1 (l0 ++ [(n, f)])) as (t2 & -> & Ht2); [done|lia|len|].
  exists t2. by rewrite <- app_assoc in Ht2.
Qed.

Lemma entries_spec t l : table_is t l → entries t = Ret (named <$> l).
Proof.
  intros (free & Htab & Hent & _). unfold entries. rewrite Htab, Hent, Nat2Z.id.
  rewrite take_app_length' by (by rewrite length_fmap).
  assert (mapM id (Some ∘ named <$> l) = Some (named <$> l)) as ->; [|done].
  rewrite list_fmap_compose. apply mapM_id_Some.
Qed.

(** [strcmp] decides the order of names. *)
#[local] Instance entry_le_total : Total (entry_le (X := X)).
Proof.
  intros [a fa] [b fb]. unfold entry_le, fn_entry_compare. simpl.
  rewrite (strcmp_opp b a). lia.
Qed.

Lemma sorted_entries es :
  Forall (λ e, cstr (nf_name e)) es → StronglySorted (entry_le (X := X)) (merge_sort entry_le es).
Proof.
  intros Hes. pose proof (Sorted_merge_sort entry_le es) as Hs.
  assert (Hc : Forall (λ e, cstr (nf_name e)) (merge_sort entry_le es))
    by by rewrite merge_sort_Permutation.
  revert Hc Hs. induction (merge_sort entry_le es) as [|e l IH]; intros Hc Hs; constructor.
  - apply Forall_cons in Hc as [_ Hc]. apply IH; [done|]. by inversion Hs.
  - clear IH. revert e Hc Hs. induction l as [|e' l IH]; intros e Hc Hs; constructor.
    + inversion Hs as [|? ? ? Hhd]; subst. by inversion Hhd.
    + apply Forall_cons in Hc as [He Hc]. apply Forall_cons in Hc as [He' Hc].
      apply IH; [by constructor|]. inversion Hs as [|? ? Hs' Hhd]; subst.
      inversion Hhd; subst. inversion Hs' as [|? ? Hs'' Hhd']; subst. constructor; [done|].
      destruct l as [|e'' l]; constructor. inversion Hhd'; subst.
      apply Forall_cons in Hc as [He'' _]. unfold entry_le, fn_entry_compare in *.
      rewrite strcmp_le in * by done. by transitivity (nf_name e').
Qed.

Lemma strongly_sorted_before {A} (R : relation A) (l : list A) i j x y :
  StronglySorted R l → l !! i = Some x → l !! j = Some y → (i < j)%nat → R x y.
Proof.
  intros Hs. revert i j. induction Hs as [|z l Hs IH Hz]; intros i j Hx Hy Hij; [done|].
  destruct j as [|j]; [lia|]. destruct i as [|i]; simpl in *; [|eapply IH; eauto; lia].
  injection Hx as ->. by eapply Forall_lookup_1 in Hz.
Qed.

Lemma search_order es n :
  StronglySorted (entry_le (X := X)) es → Forall (λ e, cstr (nf_name e)) es →
  NoDup (nf_name <$> es) → cstr n →
  ∀ i j x y, es !! i = Some x → es !! j = Some y → (i < j)%nat →
    fn_entry_compare (mk_named n Literal) x ≤ 0 → fn_entry_compare (mk_named n Literal) y < 0.
Proof.
  intros Hs Hes Hnd Hn i j x y Hx Hy Hij Hc.
  pose proof (strongly_sorted_before _ es i j x y Hs Hx Hy Hij) as Hle.
  pose proof (Forall_lookup_1 _ _ _ _ Hes Hx) as Hcx.
  pose proof (Forall_lookup_1 _ _ _ _ Hes Hy) as Hcy.
  unfold entry_le, fn_entry_compare in *. simpl in *.
  rewrite strcmp_le in Hc, Hle by done. rewrite strcmp_lt by done.
  eapply lex_le_lt_trans; [done|]. destruct Hle as [?|Heq]; [done|].
  assert (i = j); [|lia]. eapply (NoDup_lookup _ _ _ (nf_name x) Hnd).
  - by rewrite list_lookup_fmap, Hx.
  - by rewrite list_lookup_fmap, Hy, Heq.
Qed.

Lemma FindFunction_spec l :
  NoDup l.*1 → Forall (λ n, cstr n) l.*1 → zlen l < 2 ^ 29 →
  wp (t ← register_all l no_functions; FinishRegistration t) (λ t,
    ∀ n, cstr n → wp (FindFunction n t) (λ r,
      match r with Some f => (n, f) ∈ l | None => n ∉ l.*1 end)).
Proof.
  intros Hnd Hc Hlen.
  destruct (register_all_spec l no_functions []) as (t & -> & Ht); [by exists O|simpl; lia|done|].
  cbn [mbind outcome_bind]. pose proof (entries_spec t l Ht) as He. unfold FinishRegistration.
  rewrite He. cbn [mbind outcome_bind mret outcome_ret wp]. destruct Ht as (free & Htab & Hent & _).
  set (es := merge_sort entry_le (named <$> l)).
  assert (Hperm : es ≡ₚ named <$> l) by apply merge_sort_Permutation.
  assert (Hes : Forall (λ e, cstr (nf_name e)) (named <$> l)).
  { apply Forall_forall. intros ? ([n f] & -> & Hin)%list_elem_of_fmap.
    rewrite Forall_forall in Hc. apply Hc, list_elem_of_fmap. by exists (n, f). }
  pose proof (sorted_entries _ Hes) as Hsorted. fold es in Hsorted. rewrite <- Hperm in Hes.
  assert (Hln : length es = length l) by by rewrite Hperm, length_fmap.
  intros n Hn. unfold FindFunction, entries. cbn [fn_entries fn_table].
  rewrite Hent, Nat2Z.id, take_app_length' by (by rewrite length_fmap).
  rewrite mapM_id_Some. cbn [of_option mbind outcome_bind mret outcome_ret wp].
  assert (Hnd' : NoDup (nf_name <$> es)) by (rewrite Hperm, <- list_fmap_compose; exact Hnd).
  pose proof (search_order es n Hsorted Hes Hnd' Hn) as Ho.
  pose proof (c_bsearch_spec _ es Ho (length es) 0 (length es) ltac:(lia) ltac:(lia)) as Hb.
  assert (Hin : ∀ e, e ∈ es ↔ (nf_name e, nf_fn e) ∈ l).
  { intros e. rewrite Hperm, list_elem_of_fmap. split.
    - by intros ([? ?] & -> & ?).
    - intros. by exists (nf_name e, nf_fn e); destruct e. }
  destruct (c_bsearch _ _ es _ _) as [e|]; simpl.
  - destruct Hb as [He' Heq]. apply strcmp_0 in Heq; [|done|by eapply Forall_forall in Hes].
    simpl in Heq. subst n. by apply Hin.
  - intros ([? f] & -> & Hf)%list_elem_of_fmap. simpl in *.
    apply (Hin (mk_named l0 f)) in Hf. apply list_elem_of_lookup in Hf as [i Hi].
    apply (Hb i _) in Hi as Hneq; [|apply lookup_lt_Some in Hi; lia]. apply Hneq.
    by apply strcmp_0.
Qed.
End table_lemmas.

End world.
Arguments State : clear implicits.
Arguments PState : clear implicits.
Arguments M : clear implicits.
Arguments P : clear implicits.
Arguments Extension : clear implicits.
Arguments Extension_meaning : clear implicits.
Arguments ExtensionLaws W leaky X {_ _}.

(** ** A function of another part of the program

    As the functions of the updater that read files do, it makes a blob of its
    argument. *)
Module EdifyDemo.
Definition to_blob (EV : Expr unit → M unit (option nat)) (args : list (Expr unit)) : M unit (option nat) :=
  e ← arg args 0;
  r ← Evaluate EV e;
  match r with
  | None => mret None
  | Some p => l ← load_str p; v ← malloc (Val VAL_BLOB (zlen l) (Some p)); mret (Some v)
  end.
Definition p_to_blob (D : Expr unit → P unit (option pval)) (args : list (Expr unit)) : P unit (option pval) :=
  e ← p_arg args 0;
  r ← p_string D e;
  match r with None => mret None | Some l => mret (Some (mk_pv VAL_BLOB (zlen l) (Some l))) end.

Instance demo_ext : Extension unit unit := λ EV _ _ args, to_blob EV args.
Instance demo_meaning : Extension_meaning unit unit := λ D _ _ args, p_to_blob D args.
Instance demo_laws leaky : ExtensionLaws unit leaky unit.
Proof.
  intros EV D HD [] n args T. apply sim_arg. intros e _. eapply (sim_string_step leaky); [done| |].
  - intros p l T1 Hg Hl. eapply sim_load_str; [constructor|].
    apply sim_malloc. intros v. apply sim_ret. by exists (Some p), [(p, Bytes l)], T1.
  - intros. by apply sim_null.
Qed.

Definition lit (x : string) : Expr unit := mk_expr Literal (str x) [] 0 0.
Definition op (f : Function unit) (args : list (Expr unit)) : Expr unit := Build f args 0 0.
Definition init (src : string) : State unit := mk_state (str src) None ∅ [] [] tt.

(** The string that an evaluation returns, and the error message. *)
Definition result (m : M unit (option nat)) (s : State unit) : option (option (list Z) * option (list Z)) :=
  match m s with
  | Ret (r, s) =>
      Some (p ← r; b ← heap s !! p; match b with Bytes l => Some l | _ => None end, message s)
  | _ => None
  end.
Definition expect (e : Expr unit) (r : option string) : bool :=
  bool_decide (fst <$> result (Evaluate (EvaluateValue 9) e) (init EmptyString) = Some (str <$> r)).

(** Expectations of the self-test in edify/main.c. *)
Definition abort := op AbortFn [].
Example selftest : forallb (λ t, expect t.1 t.2)
  [(op SequenceFn [lit "a"; op SequenceFn [lit "b"; lit "c"]], Some "c"%string);
   (op ConcatFn [op ConcatFn [lit "a"; lit "b"]; lit "c"; lit "d"], Some "abcd"%string);
   (op LogicalAndFn [lit EmptyString; abort], Some EmptyString);
   (op LogicalAndFn [lit "t"; abort], None);
   (op LogicalOrFn [lit "a"; abort], Some "a"%string);
   (op LogicalOrFn [lit EmptyString; abort], None);
   (op LogicalNotFn [lit "a"], Some EmptyString);
   (op EqualityFn [lit "ab"; op ConcatFn [lit "a"; lit "b"]], Some "t"%string);
   (op SubstringFn [lit "cad"; lit "abracadabra"], Some "t"%string);
   (op SubstringFn [lit "cad"; lit "abracxadabra"], Some EmptyString);
   (op IfElseFn [lit "t"; lit "yes"; abort], Some "yes"%string);
   (op IfElseFn [lit EmptyString; abort; lit "no"], Some "no"%string);
   (op IfElseFn [lit EmptyString; lit "yes"], Some EmptyString);
   (op LessThanIntFn [lit "3"; lit "14"], Some "t"%string);
   (op LessThanIntFn [lit "14"; lit "3"], Some EmptyString);
   (op LessThanIntFn [lit "x"; lit "3"], Some EmptyString);
   (op GreaterThanIntFn [lit "14"; lit "3"], Some "t"%string)] = true.
Proof. vm_compute. reflexivity. Qed.
End EdifyDemo.

(** ** Properties *)

(** C7: the evaluator, its error paths and its memory management refine the meaning of
    scripts: for every expression, started with any blocks allocated, the code returns
    what the meaning of the expression says, with the same error message and output; a
    string value is NUL-free and has its length as size; and the blocks allocated
    afterwards are those before and, if the result is not NULL, the new value and its
    data. Functions of other parts that are leaky may add blocks that nothing points to. *)
Theorem EvaluateValue_refines {W} leaky `{ExtensionLaws W leaky X} fuel (e : Expr X) T :
  sim T (EvaluateValue fuel e) (denote fuel e) (val_of leaky T).
Proof. by apply EvaluateValue_sim. Qed.

(** Whatever [Evaluate] returns, it has freed all that it allocated except the
    result and the error message (if no function of another part is leaky), has touched no
    block of the caller, and has neither read freed memory nor freed a block twice. *)
Theorem Evaluate_owns {W} leaky `{ExtensionLaws W leaky X} fuel (e : Expr X) s r s' :
  errmsg_ok s → Evaluate (EvaluateValue fuel) e s = Ret (r, s') → owns_result leaky s r s'.
Proof. by apply Evaluate_owns_spec. Qed.

(** C36: a script whose functions have the arguments they read returns, and no access
    goes wrong, when the fuel is at least the depth of the expression. *)
Theorem EvaluateValue_total {W} leaky `{ExtensionLaws W leaky X} src (other_ok : X → list (Expr X) → Prop) fuel e s :
  (∀ D x n args, other_ok x args → Forall (λ e, total src (D e)) args →
    total src (ext_meaning D x n args)) →
  expr_ok src other_ok fuel e → script s = src → errmsg_ok s →
  wp (EvaluateValue fuel e s) (λ '(_, s'), script s' = src ∧ errmsg_ok s').
Proof.
  intros Hext He Hsrc Hs.
  assert (Ht : total src (denote fuel e)).
  { clear Hs Hsrc s. revert e He. induction fuel as [|fuel IH]; intros e He; [done|].
    destruct He as [Hok Hargs]. apply (total_meaning _ _ _ _ (Hext _)); [done|].
    eapply Forall_impl; [exact Hargs|]. intros e' He'. by apply IH. }
  pose proof (EvaluateValue_sim leaky fuel e _ s _ (state_is_visible s Hs)) as Hsim.
  destruct (Ht (visible s) Hsrc) as (b & ps' & Hd & Hps'). rewrite Hd in Hsim.
  destruct Hsim as (a & s' & T' & -> & Hst & _). simpl.
  pose proof Hst as (_ & _ & _ & Hok & _)%state_is_rest. split; [|done].
  by destruct Hst as [-> _].
Qed.

(** After registering functions under different names, [FindFunction] finds each
    under its name and NULL for any other name; the table never overflows. *)
Theorem FindFunction_correct {X} (l : list (list Z * Function X)) :
  NoDup l.*1 → Forall (λ n, cstr n) l.*1 → zlen l < 2 ^ 29 →
  wp (t ← register_all l no_functions; FinishRegistration t) (λ t,
    ∀ n, cstr n → wp (FindFunction n t) (λ r,
      match r with Some f => (n, f) ∈ l | None => n ∉ l.*1 end)).
Proof. apply FindFunction_spec. Qed.

(** The functions that compare or sleep read an argument that is not there when
    they are called with too few, instead of reporting an error. *)
Theorem missing_argument_read {W} `{Extension W X} fuel s :
  Forall (λ f, EvaluateValue (S fuel) (mk_expr f [] [] 0 0) s = Fault OutOfBounds)
    [SleepFn; SubstringFn].
Proof. repeat constructor. Qed.

(** ** Witnesses *)
Section witnesses.
Import EdifyDemo.
#[local] Existing Instances demo_ext demo_meaning demo_laws.

Lemma EvaluateValue_refines_witness :
  sim [] (EvaluateValue 3 (op (Other tt) [op ConcatFn [lit "a"; lit "b"]]))
    (denote 3 (op (Other tt) [op ConcatFn [lit "a"; lit "b"]])) (val_of false []).
Proof. apply EvaluateValue_refines. exact _. Defined.

Definition bad_concat := op ConcatFn [lit "a"; op (Other tt) [lit "b"]].
Definition run_bad := Evaluate (EvaluateValue 3) bad_concat (init EmptyString).
Definition run_bad_state : State unit :=
  match run_bad with Ret (_, s) => s | _ => init EmptyString end.
Lemma Evaluate_owns_witness :
  run_bad = Ret (None, run_bad_state) ∧ owns_result false (init EmptyString) None run_bad_state.
Proof.
  assert (run_bad = Ret (None, run_bad_state)) as Hrun by (vm_compute; reflexivity).
  split; [exact Hrun|]. apply (Evaluate_owns false 3 bad_concat); [exact I|exact Hrun].
Defined.

Definition failing_assert : Expr unit := 
  op AssertFn [mk_expr EqualityFn (str "(operator)") [lit "a"; lit "b"] 7 11].
Lemma EvaluateValue_total_witness :
  wp (EvaluateValue 3 failing_assert (init "assert(a==b)")) (λ '(_, s'),
    script s' = str "assert(a==b)" ∧ errmsg_ok s').
Proof.
  apply (EvaluateValue_total false (str "assert(a==b)") (λ _ args, 1 ≤ length args)%nat).
  - intros D [] n args Hlen Hargs. unfold ext_meaning, demo_meaning, p_to_blob.
    apply total_arg with (D := D); [exact Hlen|exact Hargs|].
    intros e He. apply total_string_step; [exact He|]. intros l. apply total_ret.
  - vm_compute. repeat constructor; discriminate.
  - reflexivity.
  - exact I.
Defined.

Lemma FindFunction_correct_witness :
  wp (t ← register_all (X := unit) builtins no_functions; FinishRegistration t) (λ t,
    ∀ n, cstr n → wp (FindFunction n t) (λ r,
      match r with Some f => (n, f) ∈ builtins (X := unit) | None => n ∉ (builtins (X := unit)).*1 end)).
Proof.
  apply FindFunction_correct.
  - apply (bool_decide_unpack _). vm_compute. exact I.
  - repeat constructor.
  - reflexivity.
Defined.
End witnesses.
