(* ===== verification/Bspatch.v ===== *)
(** * Bspatch

    applypatch/bspatch.c: applying a binary patch of the BSDIFF40 format. bzip2 and
    SHA-1 are parameters. *)
From S2P Require Import Prelude CString.

(** ** What the code calls outside the repository *)

(** bzip2. [BZ2_bzDecompress st input avail_out] answers the status, how much of the
    input it has consumed, the output and the new state. *)
Class Bzip2 := {
  bzstate : Type;
  BZ2_bzDecompressInit : Z * bzstate;
  BZ2_bzDecompress : bzstate → list Z → Z → Z * nat * list Z * bzstate
}.
Definition BZ_OK : Z := 0.
Definition BZ_STREAM_END : Z := 4.
Definition BZ_SEQUENCE_ERROR : Z := -1.

Class Sha1 := {
  SHA_CTX : Type;
  SHA_init : SHA_CTX;
  SHA_update : SHA_CTX → list Z → SHA_CTX;
  SHA_final : SHA_CTX → list Z
}.

(** ** The code *)

(** The [Value] of edify/expr.h that holds a patch. *)
Record Value := mk_value { v_type : Z; v_size : Z; v_data : list Z }.

(** [y = y*256; y += b;] [off_t] has 32 bits. *)
Definition shift_in (y b : Z) : outcome Z := y ← int_ok (y * 256); int_ok (y + b).

Definition offtin (buf : list Z) (at_ : Z) : outcome Z :=
  b7 ← rd buf (at_ + 7); b6 ← rd buf (at_ + 6); b5 ← rd buf (at_ + 5); b4 ← rd buf (at_ + 4);
  b3 ← rd buf (at_ + 3); b2 ← rd buf (at_ + 2); b1 ← rd buf (at_ + 1); b0 ← rd buf at_;
  y ← shift_in (Z.land b7 127) b6;
  y ← shift_in y b5; y ← shift_in y b4; y ← shift_in y b3;
  y ← shift_in y b2; y ← shift_in y b1; y ← shift_in y b0;
  mret (if Z.land b7 128 =? 0 then y else - y).

Section code.
Context `{Bzip2} `{Sha1}.

(** Input from [next_in] on in the data of the patch. *)
Record bz_stream := mk_stream { next_in : Z; avail_in : Z; bz : bzstate }.

(** The loop of [FillBuffer]: [avail_out] bytes are wanted at [pos]. The input that the
    library is given must be in the patch. *)
Fixpoint fill (fuel : nat) (patch buffer : list Z) (pos avail_out : Z) (stream : bz_stream)
    : outcome (Z * list Z * bz_stream) :=
  match fuel with
  | O => Diverge
  | S fuel =>
      if 0 <? avail_out then
        input ← rd_n patch (next_in stream) (avail_in stream);
        let '(bzerr, k, out, st) := BZ2_bzDecompress (bz stream) input avail_out in
        buffer ← wr_n buffer pos out;
        let stream := mk_stream (next_in stream + Z.of_nat k) (avail_in stream - Z.of_nat k) st in
        if negb (bzerr =? BZ_OK) && negb (bzerr =? BZ_STREAM_END) then mret (-1, buffer, stream)
        else fill fuel patch buffer (pos + zlen out) (avail_out - zlen out) stream
      else mret (0, buffer, stream)
  end.
Definition FillBuffer (fuel : nat) (patch buffer : list Z) (pos size : Z) (stream : bz_stream) :=
  fill fuel patch buffer pos (u32 size) stream.

(** Adding old data to the diff string: the [n] bytes from the [i]th on. *)
Fixpoint add_old (n : nat) (i : Z) (old_data new_data : list Z) (old_size oldpos newpos : Z)
    : outcome (list Z) :=
  match n with
  | O => mret new_data
  | S n =>
      j ← int_ok (oldpos + i);
      new_data ← (if (0 <=? j) && (j <? old_size) then
                    b ← rd new_data (newpos + i);
                    o ← rd old_data j;
                    wr new_data (newpos + i) (u8 (b + o))
                  else mret new_data);
      add_old n (i + 1) old_data new_data old_size oldpos newpos
  end.

(** The loop over the control triples; [fuel] bounds their number and the calls that a
    buffer takes. *)
Fixpoint patch_loop (fuel : nat) (patch old_data new_data : list Z)
    (old_size new_size oldpos newpos : Z) (cstream dstream estream : bz_stream)
    : outcome (Z * list Z) :=
  match fuel with
  | O => Diverge
  | S fuel =>
      if newpos <? new_size then
        '(r, buf, cstream) ← FillBuffer (S (S fuel)) patch (replicate 24 0) 0 24 cstream;
        if negb (r =? 0) then mret (1, new_data)
        else
          ctrl0 ← offtin buf 0;
          ctrl1 ← offtin buf 8;
          ctrl2 ← offtin buf 16;
          end_ ← int_ok (newpos + ctrl0);
          if new_size <? end_ then mret (1, new_data)
          else
            '(r, new_data, dstream) ← FillBuffer (S (S fuel)) patch new_data newpos ctrl0 dstream;
            if negb (r =? 0) then mret (1, new_data)
            else
              new_data ← add_old (Z.to_nat ctrl0) 0 old_data new_data old_size oldpos newpos;
              oldpos ← int_ok (oldpos + ctrl0);
              let newpos := end_ in
              end_ ← int_ok (newpos + ctrl1);
              if new_size <? end_ then mret (1, new_data)
              else
                '(r, new_data, estream) ← FillBuffer (S (S fuel)) patch new_data newpos ctrl1 estream;
                if negb (r =? 0) then mret (1, new_data)
                else
                  oldpos ← int_ok (oldpos + ctrl2);
                  patch_loop fuel patch old_data new_data old_size new_size oldpos end_
                    cstream dstream estream
      else mret (0, new_data)
  end.

Context (alloc_ok : Z → bool) (fuel : nat).

(** Result and new data. *)
Definition ApplyBSDiffPatchMem (old_data : list Z) (old_size : Z) (patch : Value) (patch_offset : Z)
    : outcome (Z * list Z) :=
  magic ← rd_n (v_data patch) patch_offset 8;
  if negb (memcmp magic (str "BSDIFF40") 8 =? 0) then mret (1, [])
  else
    ctrl_len ← offtin (v_data patch) (patch_offset + 8);
    data_len ← offtin (v_data patch) (patch_offset + 16);
    new_size ← offtin (v_data patch) (patch_offset + 24);
    if (ctrl_len <? 0) || (data_len <? 0) || (new_size <? 0) then mret (1, [])
    else
      let st := BZ2_bzDecompressInit.2 in
      let at_ := patch_offset + 32 in
      let cstream := mk_stream at_ (u32 ctrl_len) st in
      let dstream := mk_stream (at_ + ctrl_len) (u32 data_len) st in
      let estream := mk_stream (at_ + ctrl_len + data_len)
        (u32 (v_size patch - (at_ + ctrl_len + data_len))) st in
      if negb (alloc_ok new_size) then mret (1, [])
      else
        patch_loop fuel (v_data patch) old_data (replicate (Z.to_nat new_size) 0)
          old_size new_size 0 0 cstream dstream estream.

(** [sink] is a SinkFn with its token. *)
Definition ApplyBSDiffPatch {T} (old_data : list Z) (old_size : Z) (patch : Value) (patch_offset : Z)
    (sink : list Z → T → outcome (Z * T)) (token : T) (ctx : option SHA_CTX)
    : outcome (Z * T * option SHA_CTX) :=
  '(r, new_data) ← ApplyBSDiffPatchMem old_data old_size patch patch_offset;
  if negb (r =? 0) then mret (-1, token, ctx)
  else
    '(n, token) ← sink new_data token;
    if n <? zlen new_data then mret (1, token, ctx)
    else mret (0, token, (λ c, SHA_update c new_data) <$> ctx).
End code.

(** ** What the documentation of bzip2 says

    A block of compressed data has contents; a call yields as much of them as there is
    room for, reports the end of the data, and fails behind it. *)
Class Bzip2Laws `{Bzip2} := {
  bz_contents : list Z → option (list Z);
  decodes : bzstate → list Z → list Z → Prop;
  bz_ended : bzstate → Prop;
  bz_init_ok input d : bz_contents input = Some d → decodes BZ2_bzDecompressInit.2 input d;
  bz_step st input d n : decodes st input d → 0 < n →
    let '(ret, k, out, st') := BZ2_bzDecompress st input n in
    (k ≤ length input)%nat ∧ out = take (Z.to_nat n) d ∧
    if n <=? zlen d then
      (ret = BZ_OK ∨ ret = BZ_STREAM_END) ∧ decodes st' (drop k input) (drop (Z.to_nat n) d)
    else (ret = BZ_STREAM_END ∧ bz_ended st') ∨ (ret = BZ_SEQUENCE_ERROR ∧ d = []);
  bz_after st input n : bz_ended st → 0 < n →
    let '(ret, k, out, st') := BZ2_bzDecompress st input n in
    ret = BZ_SEQUENCE_ERROR ∧ (k ≤ length input)%nat ∧ out = []
}.

(** ** What a patch means

    The same on the contents of the three blocks, without buffers or streams. *)
Section meaning.
Context (old_data : list Z) (old_size : Z).

(** [size] bytes of the data [d], for a place with [room]: too few are an error, and
    bytes without room an access out of bounds. *)
Definition take_stream (d : list Z) (size room : Z) : outcome (option (list Z * list Z)) :=
  let n := u32 size in
  if n <=? zlen d then
    if n <=? room then Ret (Some (take (Z.to_nat n) d, drop (Z.to_nat n) d)) else Fault OutOfBounds
  else if zlen d <=? room then Ret None else Fault OutOfBounds.

Fixpoint add_bytes (pos : Z) (l : list Z) : outcome (list Z) :=
  match l with
  | [] => Ret []
  | b :: l =>
      j ← int_ok pos;
      b ← (if (0 <=? j) && (j <? old_size) then o ← rd old_data j; Ret (u8 (b + o)) else Ret b);
      r ← add_bytes (pos + 1) l;
      Ret (b :: r)
  end.

(** [None] is a corrupt patch. *)
Fixpoint bs_meaning (fuel : nat) (new_size : Z) (c d e : list Z) (oldpos : Z) (done : list Z)
    : outcome (option (list Z)) :=
  match fuel with
  | O => Diverge
  | S fuel =>
      let newpos := zlen done in
      if newpos <? new_size then
        if zlen c <? 24 then Ret None
        else
          x ← offtin c 0; y ← offtin c 8; z ← offtin c 16;
          end_ ← int_ok (newpos + x);
          if new_size <? end_ then Ret None
          else
            r ← take_stream d x (new_size - newpos);
            match r with
            | None => Ret None
            | Some (dx, d) =>
                added ← add_bytes oldpos dx;
                oldpos ← int_ok (oldpos + x);
                end2 ← int_ok (end_ + y);
                if new_size <? end2 then Ret None
                else
                  r ← take_stream e y (new_size - end_);
                  match r with
                  | None => Ret None
                  | Some (ey, e) =>
                      oldpos ← int_ok (oldpos + z);
                      bs_meaning fuel new_size (drop 24 c) d e oldpos (done ++ added ++ ey)
                  end
            end
      else Ret (Some done)
  end.
End meaning.

(** ** Lemmas *)

Lemma offtin_app l1 l2 at_ : 0 ≤ at_ → offtin (l1 ++ l2) (zlen l1 + at_) = offtin l2 at_.
Proof.
  intros. unfold offtin. rewrite <- !Z.add_assoc. by rewrite !rd_app_r by lia.
Qed.

Lemma rd_take {A} (l : list A) n i : i < n → rd (take (Z.to_nat n) l) i = rd l i.
Proof.
  intros. unfold rd. destruct (Z.ltb_spec i 0); [done|]. rewrite length_take. simpl.
  destruct (Z.leb_spec (zlen l) i), (Z.leb_spec (Z.of_nat (Z.to_nat n `min` length l)) i);
    try lia; [done|]. by rewrite lookup_take_lt by lia.
Qed.

Lemma offtin_take l n at_ : at_ + 8 ≤ n → offtin (take (Z.to_nat n) l) at_ = offtin l at_.
Proof. intros. unfold offtin. by rewrite !rd_take by lia. Qed.

Lemma rd_n_drop {A} (l r : list A) i n k :
  rd_n l i n = Ret r → (k ≤ length r)%nat →
  rd_n l (i + Z.of_nat k) (n - Z.of_nat k) = Ret (drop k r).
Proof.
  intros (Hi & Hn & Hl & ->)%rd_n_Ret_inv Hk. rewrite length_take, length_drop in Hk.
  rewrite rd_n_in_bounds by lia. f_equal.
  rewrite skipn_firstn_comm, drop_drop. f_equal; [lia|]. f_equal. lia.
Qed.

Section fill.
Context `{Bzip2Laws} (patch : list Z).

(** A stream that still has [d] to give. *)
Definition stream_has (s : bz_stream) (d : list Z) : Prop :=
  ∃ input, rd_n patch (next_in s) (avail_in s) = Ret input ∧ decodes (bz s) input d.

(** [FillBuffer] takes the bytes it wants from the stream, or fails. *)
Lemma FillBuffer_spec fuel pre junk s d size :
  stream_has s d →
  match take_stream d size (zlen junk) with
  | Ret (Some (x, d')) => ∃ s', stream_has s' d' ∧
      FillBuffer (S (S fuel)) patch (pre ++ junk) (zlen pre) size s =
        Ret (0, pre ++ x ++ drop (length x) junk, s')
  | Ret None => ∃ s' buf, length buf = length (pre ++ junk) ∧
      FillBuffer (S (S fuel)) patch (pre ++ junk) (zlen pre) size s = Ret (-1, buf, s')
  | Fault f => FillBuffer (S (S fuel)) patch (pre ++ junk) (zlen pre) size s = Fault f
  | Diverge => False
  end.
Proof.
  intros (input & Hin & Hd). unfold take_stream, FillBuffer.
  pose proof (u32_range size) as Hn. set (n := u32 size) in *. clearbody n.
  cbn [fill]. destruct (Z.ltb_spec 0 n) as [Hpos|]; cycle 1.
  { assert (n = 0) as -> by lia.
    destruct (Z.leb_spec 0 (zlen d)); [|lia]. destruct (Z.leb_spec 0 (zlen junk)); [|lia].
    exists s. split; [by exists input|done]. }
  rewrite Hin. cbn [mbind outcome_bind].
  pose proof (bz_step _ _ _ _ Hd Hpos) as Hstep.
  destruct (BZ2_bzDecompress (bz s) input n) as [[[ret k] out] st].
  destruct Hstep as (Hk & Hout & Hstep).
  assert (Hw : ∀ l, zlen l ≤ zlen junk →
    wr_n (pre ++ junk) (zlen pre) l = Ret (pre ++ l ++ drop (length l) junk)).
  { intros l Hl. rewrite wr_n_in_bounds by (rewrite ?length_app; lia).
    by rewrite Nat2Z.id, take_app_length, <- drop_drop, drop_app_length. }
  assert (Hf : ∀ l, zlen junk < zlen l → wr_n (pre ++ junk) (zlen pre) l = Fault OutOfBounds).
  { intros l Hl. unfold wr_n. rewrite length_app.
    destruct (Z.ltb_spec (zlen pre) 0), (Z.ltb_spec (Z.of_nat (length pre + length junk)) (zlen pre + zlen l));
      try lia; done. }
  destruct (Z.leb_spec n (zlen d)) as [Hle|Hgt].
  - assert (Hlen : zlen out = n) by (subst out; rewrite length_take; lia).
    destruct (Z.leb_spec n (zlen junk)); [|by rewrite Hf by lia].
    rewrite Hw by lia. cbn [mbind outcome_bind]. destruct Hstep as [Hret Hdec].
    exists (mk_stream (next_in s + Z.of_nat k) (avail_in s - Z.of_nat k) st). split.
    + exists (drop k input). split; [|done]. simpl. by apply rd_n_drop.
    + rewrite Hlen, Z.sub_diag. replace (_ && _) with false by by destruct Hret as [-> | ->].
      simpl. by rewrite <- Hout.
  - rewrite take_ge in Hout by lia. subst out.
    destruct (Z.leb_spec (zlen d) (zlen junk)); [|by rewrite Hf by lia].
    rewrite Hw by lia. cbn [mbind outcome_bind].
    assert (Hlen : length (pre ++ d ++ drop (length d) junk) = length (pre ++ junk)) by len.
    destruct Hstep as [[-> Hend]|[-> ->]]; [|eauto]. cbn -[rd_n wr_n].
    destruct (Z.ltb_spec 0 (n - zlen d)) as [Hpos'|]; [|lia].
    rewrite (rd_n_drop _ input) by done. cbn [mbind outcome_bind].
    pose proof (bz_after _ (drop k input) _ Hend Hpos') as Haft.
    destruct (BZ2_bzDecompress st (drop k input) (n - zlen d)) as [[[ret' k'] out'] st'].
    destruct Haft as (-> & _ & ->). rewrite wr_n_in_bounds by (simpl; rewrite ?length_app; lia).
    cbn. eexists _, _. split; [|reflexivity].
    rewrite Nat.add_0_r, take_drop. done.
Qed.
End fill.

Section loop.
Context (old_data : list Z) (old_size : Z).

Lemma add_bytes_length pos l r : add_bytes old_data old_size pos l = Ret r → length r = length l.
Proof.
  revert pos r. induction l as [|b l IH]; intros pos r; simpl; [by intros [= <-]|].
  intros Hr. inv_ret. simpl. erewrite IH; eauto.
Qed.

(** The loop that adds the old data rewrites the bytes in place. *)
Lemma add_old_spec l pre p post oldpos :
  add_old (length l) (zlen p) old_data (pre ++ p ++ l ++ post) old_size oldpos (zlen pre) =
  (λ a, pre ++ p ++ a ++ post) <$> add_bytes old_data old_size (oldpos + zlen p) l.
Proof.
  revert p. induction l as [|b l IH]; intros p; [done|]. cbn [length add_old add_bytes].
  destruct (int_ok (oldpos + zlen p)) as [j| |]; [|done..]. cbn [mbind outcome_bind].
  assert (Hrec : ∀ x, add_old (length l) (zlen p + 1) old_data (pre ++ p ++ x :: l ++ post)
      old_size oldpos (zlen pre) =
    (λ a, pre ++ p ++ a ++ post) <$>
      (r ← add_bytes old_data old_size (oldpos + zlen p + 1) l; Ret (x :: r))).
  { intros x. replace (zlen p + 1) with (zlen (p ++ [x])) by len.
    replace (p ++ x :: l ++ post) with ((p ++ [x]) ++ l ++ post) by by rewrite <- app_assoc.
    rewrite IH. replace (oldpos + zlen (p ++ [x])) with (oldpos + zlen p + 1) by len.
    destruct (add_bytes _ _ _ l); simpl; [|done..]. by rewrite <- app_assoc. }
  destruct ((0 <=? j) && (j <? old_size)); cbn [mbind outcome_bind mret outcome_ret]; [|apply Hrec].
  assert (Hrd : rd (pre ++ p ++ b :: l ++ post) (zlen pre + zlen p) = Ret b).
  { rewrite rd_app_r by lia. rewrite <- (Z.add_0_r (zlen p)), rd_app_r by lia. done. }
  simpl ((b :: l) ++ post). rewrite Hrd. cbn [mbind outcome_bind].
  destruct (rd old_data j) as [o| |]; [|done..]. cbn [mbind outcome_bind].
  rewrite wr_app_r by lia. rewrite <- (Z.add_0_r (zlen p)) at 1. rewrite wr_app_r by lia.
  rewrite wr_in_bounds by (simpl; lia). apply Hrec.
Qed.

Context `{Bzip2Laws} (patch : list Z).

Lemma take_stream_Some d size room x d' :
  room < 2 ^ 31 → - 2 ^ 31 ≤ size ≤ 2 ^ 31 →
  take_stream d size room = Ret (Some (x, d')) → zlen x = size ∧ 0 ≤ size ≤ room.
Proof.
  intros Hroom Hsize. unfold take_stream.
  destruct (Z.leb_spec (u32 size) (zlen d)); [|by destruct (_ <=? _)].
  destruct (Z.leb_spec (u32 size) room); [|done]. intros [= <- <-].
  assert (Hs : u32 size = size) by (widths; zdiv). pose proof (u32_range size).
  rewrite length_take. lia.
Qed.

Lemma shift_in_range y b r : shift_in y b = Ret r → - 2 ^ 31 ≤ r < 2 ^ 31.
Proof. unfold shift_in. intros Hr. step_ret Hr. by apply int_ok_inv in Hr as [-> ?]. Qed.

Lemma offtin_range l at_ r : offtin l at_ = Ret r → - 2 ^ 31 ≤ r ≤ 2 ^ 31.
Proof.
  intros Hr. unfold offtin in Hr. do 15 step_ret Hr. apply shift_in_range in E13.
  injection Hr as <-. destruct (_ =? 0); lia.
Qed.

Lemma stream_has_init input at_ n d :
  rd_n patch at_ n = Ret input → bz_contents input = Some d →
  stream_has patch (mk_stream at_ n BZ2_bzDecompressInit.2) d.
Proof. intros Hin Hd. exists input. split; [done|]. by apply bz_init_ok. Qed.

(** The outcome of the code for an outcome of the meaning. *)
Definition result_of (r : option (list Z)) (a : Z * list Z) : Prop :=
  match r with Some l => a = (0, l) | None => a.1 = 1 end.
Definition follows {A B} (m : outcome A) (d : outcome B) (R : B → A → Prop) : Prop :=
  match d with
  | Ret b => ∃ a, m = Ret a ∧ R b a
  | Fault f => m = Fault f
  | Diverge => True
  end.

Lemma follows_bind {A A' B} (o : outcome A) (k : A → outcome A') (kd : A → outcome B) R :
  (∀ a, o = Ret a → follows (k a) (kd a) R) → follows (o ≫= k) (o ≫= kd) R.
Proof. destruct o; simpl; auto. Qed.

Lemma follows_corrupt (l : list Z) : follows (Ret (1, l)) (Ret None) result_of.
Proof. by exists (1, l). Qed.

Lemma patch_loop_spec fuel new_size c d e oldpos done junk cs ds es :
  stream_has patch cs c → stream_has patch ds d → stream_has patch es e →
  new_size < 2 ^ 31 → zlen done + zlen junk = new_size →
  follows
    (patch_loop fuel patch old_data (done ++ junk) old_size new_size oldpos (zlen done) cs ds es)
    (bs_meaning old_data old_size fuel new_size c d e oldpos done) result_of.
Proof.
  revert c d e oldpos done junk cs ds es.
  induction fuel as [|fuel IH]; intros c d e oldpos done junk cs ds es Hc Hd He Hnew Hsize;
    [by simpl|]. cbn [patch_loop bs_meaning].
  destruct (Z.ltb_spec (zlen done) new_size); cycle 1.
  { exists (0, done ++ junk). split; [|simpl; f_equal]; [done|].
    destruct junk; [by rewrite app_nil_r|simpl in *; lia]. }
  pose proof (FillBuffer_spec patch fuel [] (replicate 24 0) cs c 24 Hc) as Hctrl.
  unfold take_stream in Hctrl. rewrite length_replicate in Hctrl. change (u32 24) with 24 in Hctrl.
  cbn [app] in Hctrl. change (zlen []) with 0 in Hctrl.
  destruct (Z.ltb_spec (zlen c) 24), (Z.leb_spec 24 (zlen c)); try lia.
  { destruct (Z.leb_spec (zlen c) (Z.of_nat 24)); [|lia]. destruct Hctrl as (s' & buf & _ & ->).
    apply follows_corrupt. }
  change (24 <=? Z.of_nat 24) with true in Hctrl. destruct Hctrl as (cs' & Hcs' & ->).
  cbn [mbind outcome_bind]. simpl negb. cbn iota.
  assert (Hb : ∀ i, 0 ≤ i → i + 8 ≤ 24 →
    offtin (take (Z.to_nat 24) c ++ drop (length (take (Z.to_nat 24) c)) (replicate 24 0)) i = offtin c i).
  { intros i ??. rewrite length_take, Nat.min_l, drop_replicate by lia.
    simpl (replicate _ _). rewrite app_nil_r. by apply offtin_take. }
  rewrite !Hb by lia. clear Hb.
  apply follows_bind. intros x Hx%offtin_range. apply follows_bind. intros y Hy%offtin_range.
  apply follows_bind. intros z _. apply follows_bind. intros end_ Hend.
  apply int_ok_inv in Hend as [-> Hend].
  destruct (Z.ltb_spec new_size (zlen done + x)); [apply follows_corrupt|].
  pose proof (FillBuffer_spec patch fuel done junk ds d x Hd) as Hdiff.
  replace (new_size - zlen done) with (zlen junk) by lia.
  destruct (take_stream d x (zlen junk)) as [[[dx d']|]|f|] eqn:Htx; [| |by rewrite Hdiff|done]; cycle 1.
  { destruct Hdiff as (s' & buf & _ & ->). apply follows_corrupt. }
  destruct Hdiff as (ds' & Hds' & ->). cbn [mbind outcome_bind]. simpl negb. cbn iota.
  apply take_stream_Some in Htx as [Hlx Hx']; [|lia..].
  pose proof (add_old_spec dx done [] (drop (length dx) junk) oldpos) as Hadd.
  cbn [app] in Hadd. change (zlen []) with 0 in Hadd. rewrite Z.add_0_r in Hadd.
  replace (Z.to_nat x) with (length dx) by lia. rewrite Hadd. clear Hadd.
  destruct (add_bytes old_data old_size oldpos dx) as [added| |] eqn:Hadded; [|done..].
  apply add_bytes_length in Hadded. cbn [fmap outcome_fmap mbind outcome_bind].
  apply follows_bind. intros op Hop. apply follows_bind. intros end2 Hend2.
  apply int_ok_inv in Hend2 as [-> Hend2].
  destruct (Z.ltb_spec new_size (zlen done + x + y)); [apply follows_corrupt|].
  set (junk' := drop (length dx) junk).
  assert (Hj : zlen junk' = new_size - (zlen done + x)) by (subst junk'; rewrite length_drop; lia).
  pose proof (FillBuffer_spec patch fuel (done ++ added) junk' es e y He) as Hextra.
  rewrite <- app_assoc in Hextra.
  replace (zlen (done ++ added)) with (zlen done + x) in Hextra by (rewrite length_app; lia).
  rewrite <- Hj.
  destruct (take_stream e y (zlen junk')) as [[[ey e']|]|f|] eqn:Hty; [| |by rewrite Hextra|done]; cycle 1.
  { destruct Hextra as (s' & buf & _ & ->). apply follows_corrupt. }
  destruct Hextra as (es' & Hes' & ->). cbn [mbind outcome_bind]. simpl negb. cbn iota.
  apply take_stream_Some in Hty as [Hly Hy']; [|lia..].
  apply follows_bind. intros op2 _.
  rewrite <- !app_assoc.
  replace (done ++ added ++ ey ++ drop (length ey) junk') with
    ((done ++ added ++ ey) ++ drop (length ey) junk') by by rewrite <- !app_assoc.
  replace (zlen done + x + y) with (zlen (done ++ added ++ ey)) by (rewrite !length_app; lia).
  apply IH; [exact Hcs'|done..|].
  rewrite !length_app, length_drop. lia.
Qed.
End loop.

(** With enough fuel the meaning is defined. *)
Lemma bs_meaning_total old_data old_size fuel new_size c d e oldpos done :
  (length c < 24 * fuel)%nat →
  bs_meaning old_data old_size fuel new_size c d e oldpos done ≠ Diverge.
Proof.
  revert c d e oldpos done. induction fuel as [|fuel IH]; intros c d e oldpos done Hc; [lia|].
  assert (Hint : ∀ z, int_ok z ≠ Diverge) by (intros z; unfold int_ok; by destruct (_ && _)).
  assert (Hrd : ∀ (l : list Z) i, rd l i ≠ Diverge).
  { intros l i. unfold rd. destruct (_ || _); [done|]. by destruct (l !! _). }
  assert (Hbind : ∀ A B (m : outcome A) (k : A → outcome B),
    m ≠ Diverge → (∀ a, k a ≠ Diverge) → m ≫= k ≠ Diverge).
  { intros A B [a| |] k Hm Hk; simpl; auto. }
  assert (Hshift : ∀ y b, shift_in y b ≠ Diverge) by (intros; apply Hbind; auto).
  assert (Hofft : ∀ l i, offtin l i ≠ Diverge).
  { intros l i. unfold offtin. repeat (apply Hbind; [auto|intros]). done. }
  assert (Hadd : ∀ pos l, add_bytes old_data old_size pos l ≠ Diverge).
  { intros pos l. revert pos. induction l as [|b l IHl]; intros pos; simpl; [done|].
    repeat (apply Hbind; [auto|intros]); [|done..]. destruct (_ && _); [|done].
    apply Hbind; [auto|done]. }
  assert (Htake : ∀ l n r, take_stream l n r ≠ Diverge).
  { intros. unfold take_stream. by repeat case_match. }
  simpl. destruct (_ <? new_size); [|done]. destruct (Z.ltb_spec (zlen c) 24); [done|].
  do 4 (apply Hbind; [auto|intros]). destruct (_ <? _); [done|]. apply Hbind; [auto|].
  intros [[dx d']|]; [|done]. do 3 (apply Hbind; [auto|intros]). destruct (_ <? _); [done|].
  apply Hbind; [auto|]. intros [[ey e']|]; [|done]. apply Hbind; [auto|intros].
  apply IH. rewrite length_drop. lia.
Qed.

(** The parts of a patch file: the header and three compressed blocks. *)
Record patch_file `{Bzip2Laws} (p : Value) (at_ new_size : Z) (c d e : list Z) := {
  pf_pre : list Z; pf_hdr : list Z; pf_c : list Z; pf_d : list Z; pf_e : list Z;
  pf_data : v_data p = pf_pre ++ pf_hdr ++ pf_c ++ pf_d ++ pf_e;
  pf_size : v_size p = zlen (v_data p) ∧ zlen (v_data p) < 2 ^ 31;
  pf_at : at_ = zlen pf_pre;
  pf_hdr_len : length pf_hdr = 32%nat;
  pf_magic : take 8 pf_hdr = str "BSDIFF40";
  pf_lens : offtin pf_hdr 8 = Ret (zlen pf_c) ∧ offtin pf_hdr 16 = Ret (zlen pf_d) ∧
            offtin pf_hdr 24 = Ret new_size;
  pf_new : 0 ≤ new_size < 2 ^ 31;
  pf_blocks : bz_contents pf_c = Some c ∧ bz_contents pf_d = Some d ∧ bz_contents pf_e = Some e
}.

Section apply.
Context `{Bzip2Laws} `{Sha1} (alloc_ok : Z → bool).

Lemma ApplyBSDiffPatchMem_spec fuel old_data old_size p at_ new_size c d e :
  patch_file p at_ new_size c d e → alloc_ok new_size = true →
  follows (ApplyBSDiffPatchMem alloc_ok fuel old_data old_size p at_)
    (bs_meaning old_data old_size fuel new_size c d e 0 []) result_of.
Proof.
  intros [pre hdr cb db eb Hdata [Hsize Hbound] -> Hlen Hmagic (Hc & Hd & Hn) Hnew (Bc & Bd & Be)] Halloc.
  unfold ApplyBSDiffPatchMem. rewrite Hsize, Hdata. rewrite Hdata in Hbound.
  rewrite !length_app, Hlen in Hbound |- *.
  rewrite <- (take_drop 8 hdr) at 1. rewrite <- app_assoc.
  assert (H8 : zlen (take 8 hdr) = 8) by (rewrite length_take; lia).
  rewrite <- H8 at 1. rewrite rd_n_app. cbn [mbind outcome_bind]. rewrite Hmagic.
  change (negb _) with false at 1. cbn iota.
  assert (Hoff : ∀ i, 0 ≤ i → i + 8 ≤ 32 →
    offtin (pre ++ hdr ++ cb ++ db ++ eb) (zlen pre + i) = offtin hdr i).
  { intros i ??. rewrite offtin_app by lia.
    rewrite <- (offtin_take (hdr ++ _) 32 i) by lia. change (Z.to_nat 32) with 32%nat.
    by rewrite <- Hlen, take_app_length. }
  rewrite !Hoff by lia. rewrite Hc, Hd, Hn. cbn [mbind outcome_bind].
  destruct (Z.ltb_spec (zlen cb) 0), (Z.ltb_spec (zlen db) 0), (Z.ltb_spec new_size 0); try lia.
  cbn [orb]. rewrite Halloc. cbn [negb]. cbn iota. rewrite !u32_small by lia.
  apply (patch_loop_spec old_data old_size _ fuel new_size c d e 0 []); [..|lia|].
  - apply (stream_has_init _ cb); [|done]. rewrite (app_assoc pre).
    replace (zlen pre + 32) with (zlen (pre ++ hdr)) by (rewrite length_app; lia). apply rd_n_app.
  - apply (stream_has_init _ db); [|done]. rewrite (app_assoc hdr), (app_assoc pre).
    replace (zlen pre + 32 + zlen cb) with (zlen (pre ++ hdr ++ cb)) by (rewrite !length_app; lia).
    apply rd_n_app.
  - apply (stream_has_init _ eb); [|done]. rewrite (app_assoc cb), (app_assoc hdr), (app_assoc pre).
    rewrite <- (app_nil_r eb) at 1.
    replace (zlen pre + 32 + zlen cb + zlen db) with (zlen (pre ++ hdr ++ cb ++ db))
      by (rewrite !length_app; lia).
    replace (Z.of_nat _ - _) with (zlen eb) by (rewrite !length_app; lia). apply rd_n_app.
  - rewrite length_replicate. simpl. lia.
Qed.
End apply.

Lemma negative_length_spec old_data old_size fuel new_size c d e x y z :
  0 < new_size < 2 ^ 31 → 24 ≤ zlen c → new_size < zlen d < 2 ^ 31 →
  offtin c 0 = Ret x → offtin c 8 = Ret y → offtin c 16 = Ret z → - 2 ^ 31 < x < 0 →
  bs_meaning old_data old_size (S fuel) new_size c d e 0 [] = Fault OutOfBounds.
Proof.
  intros Hn Hc Hd Hx Hy Hz Hneg. cbn [bs_meaning]. change (zlen []) with 0.
  destruct (Z.ltb_spec 0 new_size), (Z.ltb_spec (zlen c) 24); try lia.
  rewrite Hx, Hy, Hz. cbn [mbind outcome_bind]. rewrite int_ok_small by lia.
  cbn [mbind outcome_bind]. destruct (Z.ltb_spec new_size (0 + x)); [lia|].
  unfold take_stream. assert (Hu : u32 x = x + 2 ^ 32) by (widths; zdiv).
  destruct (Z.leb_spec (u32 x) (zlen d)), (Z.leb_spec (zlen d) (new_size - 0)); try lia; done.
Qed.

(** A stream that asks for more input than there is makes [FillBuffer] spin: the library
    reports success without progress. *)
Lemma FillBuffer_spins `{Bzip2} fuel patch buffer pos size st at_ :
  0 ≤ at_ ≤ zlen patch → 0 ≤ pos ≤ zlen buffer → 0 < size < 2 ^ 32 →
  (∀ n, BZ2_bzDecompress st [] n = (BZ_OK, 0%nat, [], st)) →
  FillBuffer fuel patch buffer pos size (mk_stream at_ 0 st) = Diverge.
Proof.
  intros Hat Hpos Hsize Hst. unfold FillBuffer. rewrite u32_small by lia.
  induction fuel as [|fuel IH]; [done|]. cbn [fill].
  destruct (Z.ltb_spec 0 size); [|lia]. cbn [next_in avail_in bz].
  rewrite rd_n_in_bounds by lia. cbn [mbind outcome_bind Z.to_nat take]. rewrite Hst.
  rewrite wr_n_in_bounds by (simpl; lia). cbn [mbind outcome_bind].
  rewrite Nat.add_0_r. cbn [app]. rewrite take_drop. change (Z.of_nat 0) with 0.
  rewrite Z.add_0_r. change (zlen []) with 0. rewrite Z.add_0_r, !Z.sub_0_r.
  exact IH.
Qed.

(** ** A model of bzip2: blocks that are not compressed

    The first byte is the number of those that follow; what is behind them is ignored. *)
Module BzDemo.
Inductive toy := Fresh | Left_ (n : nat) | Done.

Definition emit (m : nat) (k : nat) (input : list Z) (n : Z) : Z * nat * list Z * toy :=
  let want := Nat.min m (Z.to_nat n) in
  let out := take want input in
  if (length out <? want)%nat then (BZ_OK, (k + length out)%nat, out, Left_ (m - length out))
  else if n <=? Z.of_nat m then (BZ_OK, (k + want)%nat, out, Left_ (m - want))
  else (BZ_STREAM_END, (k + want)%nat, out, Done).

Instance toy_bzip2 : Bzip2 := {|
  bzstate := toy;
  BZ2_bzDecompressInit := (BZ_OK, Fresh);
  BZ2_bzDecompress st input n :=
    match st with
    | Fresh =>
        match input with
        | [] => (BZ_OK, 0%nat, [], Fresh)
        | h :: t => emit (Z.to_nat h) 1 t n
        end
    | Left_ m => emit m 0 input n
    | Done => (BZ_SEQUENCE_ERROR, 0%nat, [], Done)
    end
|}.

Definition toy_contents (l : list Z) : option (list Z) :=
  match l with
  | h :: t => if bool_decide (0 ≤ h ≤ zlen t) then Some (take (Z.to_nat h) t) else None
  | [] => None
  end.
Definition toy_decodes (st : toy) (input d : list Z) : Prop :=
  match st with
  | Fresh => ∃ r, input = zlen d :: d ++ r
  | Left_ m => (∃ r, input = d ++ r) ∧ length d = m
  | Done => False
  end.

Lemma emit_ok k d r n :
  0 < n →
  let '(ret, j, out, st) := emit (length d) k (d ++ r) n in
  (j ≤ k + length d)%nat ∧ out = take (Z.to_nat n) d ∧
  if n <=? zlen d then
    (ret = BZ_OK ∨ ret = BZ_STREAM_END) ∧ (k ≤ j)%nat ∧
      toy_decodes st (drop (j - k) (d ++ r)) (drop (Z.to_nat n) d)
  else (ret = BZ_STREAM_END ∧ st = Done) ∨ (ret = BZ_SEQUENCE_ERROR ∧ d = []).
Proof.
  intros Hn. unfold emit. set (want := Nat.min _ _).
  assert (Htake : take want (d ++ r) = take want d) by (apply take_app_le; subst want; lia).
  assert (Hlen : length (take want d) = want) by (rewrite length_take; subst want; lia).
  rewrite Htake, Hlen, Nat.ltb_irrefl. destruct (Z.leb_spec n (zlen d)).
  - assert (want = Z.to_nat n) as -> by (subst want; lia).
    split; [lia|]. split; [done|]. split; [by left|]. split; [lia|].
    replace (k + Z.to_nat n - k)%nat with (Z.to_nat n) by lia. simpl. split.
    + exists r. by rewrite drop_app_le by lia.
    + by rewrite length_drop.
  - assert (want = length d) as -> by (subst want; lia).
    split; [lia|]. rewrite !take_ge by lia. split; [done|]. by left.
Qed.

Instance toy_laws : Bzip2Laws.
Proof.
  refine {| bz_contents := toy_contents; decodes := toy_decodes; bz_ended st := st = Done |}.
  - intros [|h t] d; simpl; [done|]. case_bool_decide; [|done]. intros [= <-].
    exists (drop (Z.to_nat h) t). rewrite take_drop, length_take. f_equal. lia.
  - intros [|m|] input d n Hd Hn; simpl in Hd |- *; [| |done].
    + destruct Hd as [r ->]. rewrite Nat2Z.id. pose proof (emit_ok 1 d r n Hn) as Hok.
      destruct (emit _ _ _ _) as [[[ret j] out] st]. destruct Hok as (Hj & Hout & Hok).
      simpl. rewrite length_app. split; [lia|]. split; [done|]. destruct (n <=? zlen d); [|done].
      destruct Hok as (? & Hj' & Hdec). split; [done|]. destruct j as [|j]; [lia|]. simpl in *.
      by rewrite Nat.sub_0_r in Hdec.
    + destruct Hd as [[r ->] <-]. pose proof (emit_ok 0 d r n Hn) as Hok.
      destruct (emit _ _ _ _) as [[[ret j] out] st]. destruct Hok as (Hj & Hout & Hok).
      rewrite length_app. split; [lia|]. split; [done|]. destruct (n <=? zlen d); [|done].
      destruct Hok as (? & Hj' & Hdec). by rewrite Nat.sub_0_r in Hdec.
  - intros st input n -> Hn. simpl. split; [done|]. split; [lia|done].
Defined.

Lemma block_contents l r : toy_contents (zlen l :: l ++ r) = Some l.
Proof. simpl. rewrite bool_decide_eq_true_2, Nat2Z.id, take_app_length; [done|]. rewrite length_app. lia. Qed.

Definition num (n : Z) : list Z := [n mod 256; n / 256; 0; 0; 0; 0; 0; 0].
Definition minus (n : Z) : list Z := [n; 0; 0; 0; 0; 0; 0; 128].
Definition block (l : list Z) : list Z := zlen l :: l.
Definition header (c d : list Z) (new_size : Z) : list Z :=
  str "BSDIFF40" ++ num (zlen c + 1) ++ num (zlen d + 1) ++ num new_size.
Definition patch_of (c d e : list Z) (new_size : Z) : Value :=
  let data := header c d new_size ++ block c ++ block d ++ block e in mk_value 2 (zlen data) data.

(** From [abcd] to [abxyd]: two bytes with no difference, two new ones, and one byte at
    position 3. *)
Definition demo_ctrl := num 2 ++ num 2 ++ num 1 ++ num 1 ++ num 0 ++ num 0.
Definition demo_patch : Value := patch_of demo_ctrl [0; 0; 0] (str "xy") 5.
Example patch_demo :
  ApplyBSDiffPatchMem (λ _, true) 9 (str "abcd") 4 demo_patch 0 = Ret (0, str "abxyd").
Proof. vm_compute. reflexivity. Qed.

Definition bad_ctrl := minus 1 ++ num 0 ++ num 0.
Definition bad_patch : Value := patch_of bad_ctrl (replicate 9 0) [] 2.
End BzDemo.

(** ** Properties *)

(** C32: applying a patch yields what the contents of its three blocks mean: the new data,
    or an error for a corrupt patch, or the access out of bounds or overflow that the
    meaning predicts; with fuel for the length of the control block it always ends. *)
Theorem ApplyBSDiffPatchMem_correct `{Bzip2Laws} (alloc_ok : Z → bool)
    fuel old_data old_size p at_ new_size c d e :
  patch_file p at_ new_size c d e → alloc_ok new_size = true → (length c < 24 * fuel)%nat →
  match bs_meaning old_data old_size fuel new_size c d e 0 [] with
  | Ret (Some new) => ApplyBSDiffPatchMem alloc_ok fuel old_data old_size p at_ = Ret (0, new)
  | Ret None => ∃ l, ApplyBSDiffPatchMem alloc_ok fuel old_data old_size p at_ = Ret (1, l)
  | Fault f => ApplyBSDiffPatchMem alloc_ok fuel old_data old_size p at_ = Fault f
  | Diverge => False
  end.
Proof.
  intros Hp Halloc Hfuel.
  pose proof (ApplyBSDiffPatchMem_spec alloc_ok fuel old_data old_size p at_ new_size c d e Hp Halloc) as Hs.
  pose proof (bs_meaning_total old_data old_size fuel new_size c d e 0 [] Hfuel) as Ht.
  destruct (bs_meaning _ _ _ _ _ _ _ _ _) as [[new|]|f|]; simpl in Hs; [| |done|done].
  - by destruct Hs as (a & -> & ->).
  - destruct Hs as ([r l] & -> & Hr). simpl in Hr. subst r. by exists l.
Qed.

(** A negative length in the control block passes the checks, and the code writes the
    diff data behind the end of the new file. *)
Theorem negative_length_overflows `{Bzip2Laws} (alloc_ok : Z → bool)
    fuel old_data old_size p at_ new_size c d e x y z :
  patch_file p at_ new_size c d e → alloc_ok new_size = true →
  0 < new_size → 24 ≤ zlen c → new_size < zlen d < 2 ^ 31 →
  offtin c 0 = Ret x → offtin c 8 = Ret y → offtin c 16 = Ret z → - 2 ^ 31 < x < 0 →
  ApplyBSDiffPatchMem alloc_ok (S fuel) old_data old_size p at_ = Fault OutOfBounds.
Proof.
  intros Hp Halloc Hn Hc Hd Hx Hy Hz Hneg. pose proof (pf_new _ _ _ _ _ _ Hp).
  pose proof (ApplyBSDiffPatchMem_spec alloc_ok (S fuel) old_data old_size p at_ new_size c d e Hp Halloc) as Hs.
  by rewrite (negative_length_spec _ _ _ _ _ _ _ x y z) in Hs by (done || lia).
Qed.

(** ** Witnesses *)
Section witnesses.
Import BzDemo.
#[local] Existing Instances toy_bzip2 toy_laws.

Lemma demo_file : patch_file demo_patch 0 5 demo_ctrl [0; 0; 0] (str "xy").
Proof.
  apply (Build_patch_file _ _ _ _ _ _ _ _ [] (header demo_ctrl [0; 0; 0] 5) (block demo_ctrl)
    (block [0; 0; 0]) (block (str "xy"))); repeat split; vm_compute; congruence.
Qed.
Lemma bad_file : patch_file bad_patch 0 2 bad_ctrl (replicate 9 0) [].
Proof.
  apply (Build_patch_file _ _ _ _ _ _ _ _ [] (header bad_ctrl (replicate 9 0) 2) (block bad_ctrl)
    (block (replicate 9 0)) (block [])); repeat split; vm_compute; congruence.
Qed.

Lemma ApplyBSDiffPatchMem_correct_witness :
  match bs_meaning (str "abcd") 4 9 5 demo_ctrl [0; 0; 0] (str "xy") 0 [] with
  | Ret (Some new) => ApplyBSDiffPatchMem (λ _, true) 9 (str "abcd") 4 demo_patch 0 = Ret (0, new)
  | Ret None => ∃ l, ApplyBSDiffPatchMem (λ _, true) 9 (str "abcd") 4 demo_patch 0 = Ret (1, l)
  | Fault f => ApplyBSDiffPatchMem (λ _, true) 9 (str "abcd") 4 demo_patch 0 = Fault f
  | Diverge => False
  end.
Proof.
  apply ApplyBSDiffPatchMem_correct; [exact demo_file|reflexivity|vm_compute; lia].
Defined.

Lemma negative_length_overflows_witness :
  ApplyBSDiffPatchMem (λ _, true) 1 (str "abcd") 4 bad_patch 0 = Fault OutOfBounds.
Proof.
  apply (negative_length_overflows (λ _, true) 0 _ 4 bad_patch 0 2 bad_ctrl (replicate 9 0) [] (-1) 0 0);
    [exact bad_file|reflexivity|lia|simpl; lia|simpl; lia|reflexivity|reflexivity|reflexivity|lia].
Defined.
End witnesses.
