(* ===== verification/Bsdiff.v ===== *)
(** * Bsdiff

    applypatch/bsdiff.c: making a binary patch. The patch that it makes is the one that
    Bspatch.v applies, whatever order the suffix array has. *)
From S2P Require Import Prelude CString Bspatch.

(** ** The code

    The tool runs on the build machine, where [off_t] has 64 bits; its values stay
    below the sizes of the files, so they are plain integers here. *)

Section sort.
(** The arrays [I] (here [Ia]) and [V] of [qsufsort]. *)
Implicit Types (Ia V : list Z).

(** [for(i=1;k+i<start+len;i++) ...] of the small case of [split]: the least key so far
    is [x], and [j] places from [k] on have it. *)
Fixpoint select_min (fuel : nat) Ia V (end_ h k i j x : Z) : outcome (list Z * Z * Z) :=
  match fuel with
  | O => Diverge
  | S fuel =>
      if k + i <? end_ then
        a ← rd Ia (k + i);
        v ← rd V (a + h);
        let '(x, j) := if v <? x then (v, 0) else (x, j) in
        if v =? x then
          tmp ← rd Ia (k + j);
          Ia ← wr Ia (k + j) a;
          Ia ← wr Ia (k + i) tmp;
          select_min fuel Ia V end_ h k (i + 1) (j + 1) x
        else select_min fuel Ia V end_ h k (i + 1) j x
      else mret (Ia, j, x)
  end.

(** [for(i=0;i<n;i++) V[I[at+i]]=g;] *)
Fixpoint set_group (n : nat) Ia V (at_ g : Z) : outcome (list Z) :=
  match n with
  | O => mret V
  | S n => a ← rd Ia at_; V ← wr V a g; set_group n Ia V (at_ + 1) g
  end.

Fixpoint split_small (fuel : nat) Ia V (end_ h k : Z) : outcome (list Z * list Z) :=
  match fuel with
  | O => Diverge
  | S fuel =>
      if k <? end_ then
        a ← rd Ia k;
        x ← rd V (a + h);
        '(Ia, j, _) ← select_min (Z.to_nat (end_ - k)) Ia V end_ h k 1 1 x;
        V ← set_group (Z.to_nat j) Ia V k (k + j - 1);
        Ia ← (if j =? 1 then wr Ia k (-1) else mret Ia);
        split_small fuel Ia V end_ h (k + j)
      else mret (Ia, V)
  end.

(** How many of the [n] places from [i] on have a key less than [x], and equal to it. *)
Fixpoint count_keys (n : nat) Ia V (h x i : Z) : outcome (Z * Z) :=
  match n with
  | O => mret (0, 0)
  | S n =>
      a ← rd Ia i;
      v ← rd V (a + h);
      '(jj, kk) ← count_keys n Ia V h x (i + 1);
      mret (jj + (if v <? x then 1 else 0), kk + (if v =? x then 1 else 0))
  end.

Definition swap Ia (i j : Z) : outcome (list Z) :=
  a ← rd Ia i; b ← rd Ia j; Ia ← wr Ia i b; wr Ia j a.

Fixpoint partition_lt (fuel : nat) Ia V (h x i j k jj kk : Z) : outcome (list Z * Z * Z) :=
  match fuel with
  | O => Diverge
  | S fuel =>
      if i <? jj then
        a ← rd Ia i;
        v ← rd V (a + h);
        if v <? x then partition_lt fuel Ia V h x (i + 1) j k jj kk
        else if v =? x then Ia ← swap Ia i (jj + j); partition_lt fuel Ia V h x i (j + 1) k jj kk
        else Ia ← swap Ia i (kk + k); partition_lt fuel Ia V h x i j (k + 1) jj kk
      else mret (Ia, j, k)
  end.
Fixpoint partition_eq (fuel : nat) Ia V (h x j k jj kk : Z) : outcome (list Z) :=
  match fuel with
  | O => Diverge
  | S fuel =>
      if jj + j <? kk then
        a ← rd Ia (jj + j);
        v ← rd V (a + h);
        if v =? x then partition_eq fuel Ia V h x (j + 1) k jj kk
        else Ia ← swap Ia (jj + j) (kk + k); partition_eq fuel Ia V h x j (k + 1) jj kk
      else mret Ia
  end.

Fixpoint split (fuel : nat) Ia V (start len h : Z) : outcome (list Z * list Z) :=
  match fuel with
  | O => Diverge
  | S fuel' =>
      if len <? 16 then split_small (S (Z.to_nat len)) Ia V (start + len) h start
      else
        a ← rd Ia (start + len / 2);
        x ← rd V (a + h);
        '(jj, kk) ← count_keys (Z.to_nat len) Ia V h x start;
        let jj := jj + start in
        let kk := kk + jj in
        '(Ia, j, k) ← partition_lt (S (2 * Z.to_nat len)) Ia V h x start 0 0 jj kk;
        Ia ← partition_eq (S (2 * Z.to_nat len)) Ia V h x j k jj kk;
        '(Ia, V) ← (if start <? jj then split fuel' Ia V start (jj - start) h else mret (Ia, V));
        V ← set_group (Z.to_nat (kk - jj)) Ia V jj (kk - 1);
        Ia ← (if jj =? kk - 1 then wr Ia jj (-1) else mret Ia);
        if kk <? start + len then split fuel' Ia V kk (start + len - kk) h else mret (Ia, V)
  end.

(** [buckets[i] += buckets[i-1]] and the shift by one: how many bytes are less than
    each. *)
Definition count_bytes (old : list Z) (b : Z) : Z :=
  Z.of_nat (length (filter (λ c, c = b) old)).
Fixpoint cumulate (l : list Z) (sum : Z) : list Z :=
  match l with [] => [] | n :: l => (sum + n) :: cumulate l (sum + n) end.
Definition bucket_starts (old : list Z) : list Z :=
  0 :: take 255 (cumulate ((λ b, count_bytes old (Z.of_nat b)) <$> seq 0 256) 0).

(** [for(i=0;i<oldsize;i++) I[++buckets[old[i]]]=i;] *)
Fixpoint fill_buckets (l : list Z) (i : Z) Ia (buckets : list Z) : outcome (list Z * list Z) :=
  match l with
  | [] => mret (Ia, buckets)
  | c :: l =>
      b ← rd buckets c;
      buckets ← wr buckets c (b + 1);
      Ia ← wr Ia (b + 1) i;
      fill_buckets l (i + 1) Ia buckets
  end.
(** [for(i=0;i<oldsize;i++) V[i]=buckets[old[i]];] *)
Fixpoint first_ranks (l : list Z) (buckets : list Z) : outcome (list Z) :=
  match l with [] => mret [] | c :: l => b ← rd buckets c; r ← first_ranks l buckets; mret (b :: r) end.
(** [for(i=1;i<256;i++) if(buckets[i]==buckets[i-1]+1) I[buckets[i]]=-1;] *)
Fixpoint mark_single (n : nat) (i : Z) Ia (buckets : list Z) : outcome (list Z) :=
  match n with
  | O => mret Ia
  | S n =>
      a ← rd buckets (i - 1);
      b ← rd buckets i;
      Ia ← (if b =? a + 1 then wr Ia b (-1) else mret Ia);
      mark_single n (i + 1) Ia buckets
  end.

(** One pass over the groups. *)
Fixpoint sort_pass (fuel : nat) Ia V (oldsize h i len : Z) : outcome (list Z * list Z) :=
  match fuel with
  | O => Diverge
  | S fuel' =>
      if i <? oldsize + 1 then
        a ← rd Ia i;
        if a <? 0 then sort_pass fuel' Ia V oldsize h (i - a) (len - a)
        else
          Ia ← (if negb (len =? 0) then wr Ia (i - len) (- len) else mret Ia);
          v ← rd V a;
          let len := v + 1 - i in
          '(Ia, V) ← split (S (Z.to_nat len)) Ia V i len h;
          sort_pass fuel' Ia V oldsize h (i + len) 0
      else
        Ia ← (if negb (len =? 0) then wr Ia (i - len) (- len) else mret Ia);
        mret (Ia, V)
  end.
Fixpoint sort_passes (fuel : nat) Ia V (oldsize h : Z) : outcome (list Z * list Z) :=
  match fuel with
  | O => Diverge
  | S fuel =>
      a ← rd Ia 0;
      if a =? - (oldsize + 1) then mret (Ia, V)
      else
        '(Ia, V) ← sort_pass (Z.to_nat oldsize + 2) Ia V oldsize h 0 0;
        sort_passes fuel Ia V oldsize (h + h)
  end.
(** [for(i=0;i<oldsize+1;i++) I[V[i]]=i;] *)
Fixpoint invert (l : list Z) (i : Z) Ia : outcome (list Z) :=
  match l with [] => mret Ia | v :: l => Ia ← wr Ia v i; invert l (i + 1) Ia end.

Definition qsufsort (fuel : nat) (old : list Z) : outcome (list Z) :=
  let oldsize := zlen old in
  '(Ia, buckets) ← fill_buckets old 0 (replicate (S (length old)) 0) (bucket_starts old);
  Ia ← wr Ia 0 oldsize;
  ranks ← first_ranks old buckets;
  let V := ranks ++ [0] in
  Ia ← mark_single 255 1 Ia buckets;
  Ia ← wr Ia 0 (-1);
  '(Ia, V) ← sort_passes fuel Ia V oldsize 1;
  invert V 0 Ia.
End sort.

(** *** Matches *)

Section scan.
Context (old new Ia : list Z).
Let oldsize := zlen old.
Let newsize := zlen new.

(** The common prefix of [old] from [i] and [new] from [j], at most [n] bytes. *)
Fixpoint matchlen (n : nat) (i j : Z) : outcome Z :=
  match n with
  | O => mret 0
  | S n =>
      a ← rd old i;
      b ← rd new j;
      if negb (a =? b) then mret 0 else r ← matchlen n (i + 1) (j + 1); mret (r + 1)
  end.
Definition matchlen_at (i scan : Z) : outcome Z :=
  matchlen (Z.to_nat (Z.min (oldsize - i) (newsize - scan))) i scan.

(** The length of the match and its place. *)
Fixpoint search (fuel : nat) (scan st en : Z) : outcome (Z * Z) :=
  match fuel with
  | O => Diverge
  | S fuel =>
      if en - st <? 2 then
        i ← rd Ia st;
        x ← matchlen_at i scan;
        j ← rd Ia en;
        y ← matchlen_at j scan;
        mret (if y <? x then (x, i) else (y, j))
      else
        let x := st + (en - st) / 2 in
        i ← rd Ia x;
        let n := Z.min (oldsize - i) (newsize - scan) in
        a ← rd_n old i n;
        b ← rd_n new scan n;
        if memcmp a b n <? 0 then search fuel scan x en else search fuel scan st x
  end.

(** [(k+lastoffset<oldsize) && (old[k+lastoffset] == new[k])] *)
Definition same_at (off k : Z) : outcome bool :=
  if k + off <? oldsize then a ← rd old (k + off); b ← rd new k; mret (a =? b) else mret false.

(** [for(;scsc<scan+len;scsc++)] over [n] places. *)
Fixpoint count_same (n : nat) (off scsc oldscore : Z) : outcome Z :=
  match n with
  | O => mret oldscore
  | S n => m ← same_at off scsc; count_same n off (scsc + 1) (if (m : bool) then oldscore + 1 else oldscore)
  end.

(** The inner loop: [scan], [len], [pos] and [oldscore] when it ends. *)
Fixpoint find_match (fuel : nat) (off scan scsc oldscore len pos : Z) : outcome (Z * Z * Z * Z) :=
  match fuel with
  | O => Diverge
  | S fuel =>
      if scan <? newsize then
        '(len, pos) ← search (S (length old)) scan 0 oldsize;
        oldscore ← count_same (Z.to_nat (scan + len - scsc)) off scsc oldscore;
        if ((len =? oldscore) && negb (len =? 0)) || (oldscore + 8 <? len) then
          mret (scan, len, pos, oldscore)
        else
          m ← same_at off scan;
          find_match fuel off (scan + 1) (Z.max scsc (scan + len))
            (if (m : bool) then oldscore - 1 else oldscore) len pos
      else mret (scan, len, pos, oldscore)
  end.

(** *** Extension of the matches *)

Fixpoint extend_forward (fuel : nat) (scan lastscan lastpos i s Sf lenf : Z) : outcome Z :=
  match fuel with
  | O => Diverge
  | S fuel =>
      if (lastscan + i <? scan) && (lastpos + i <? oldsize) then
        a ← rd old (lastpos + i);
        b ← rd new (lastscan + i);
        let s := if a =? b then s + 1 else s in
        let i := i + 1 in
        if Sf * 2 - lenf <? s * 2 - i then extend_forward fuel scan lastscan lastpos i s s i
        else extend_forward fuel scan lastscan lastpos i s Sf lenf
      else mret lenf
  end.

Fixpoint extend_back (fuel : nat) (scan lastscan pos i s Sb lenb : Z) : outcome Z :=
  match fuel with
  | O => Diverge
  | S fuel =>
      if (lastscan + i <=? scan) && (i <=? pos) then
        a ← rd old (pos - i);
        b ← rd new (scan - i);
        let s := if a =? b then s + 1 else s in
        if Sb * 2 - lenb <? s * 2 - i then extend_back fuel scan lastscan pos (i + 1) s s i
        else extend_back fuel scan lastscan pos (i + 1) s Sb lenb
      else mret lenb
  end.

(** Where the overlap of the two extensions is cut. *)
Fixpoint cut_overlap (n : nat) (a1 b1 a2 b2 i s Ss lens : Z) : outcome Z :=
  match n with
  | O => mret lens
  | S n =>
      x ← rd new (a1 + i);
      y ← rd old (b1 + i);
      let s := if x =? y then s + 1 else s in
      x ← rd new (a2 + i);
      y ← rd old (b2 + i);
      let s := if x =? y then s - 1 else s in
      if Ss <? s then cut_overlap n a1 b1 a2 b2 (i + 1) s s (i + 1)
      else cut_overlap n a1 b1 a2 b2 (i + 1) s Ss lens
  end.

(** *** The blocks *)

(** [db] and [eb] have room for [newsize+1] bytes. *)
Definition push (l : list Z) (b : Z) : outcome (list Z) :=
  if zlen l <? newsize + 1 then mret (l ++ [b]) else Fault OutOfBounds.
Fixpoint push_diff (n : nat) (db : list Z) (i j : Z) : outcome (list Z) :=
  match n with
  | O => mret db
  | S n =>
      a ← rd new i;
      b ← rd old j;
      db ← push db (u8 (a - b));
      push_diff n db (i + 1) (j + 1)
  end.
Fixpoint push_extra (n : nat) (eb : list Z) (i : Z) : outcome (list Z) :=
  match n with
  | O => mret eb
  | S n => a ← rd new i; eb ← push eb a; push_extra n eb (i + 1)
  end.

Definition byte_out (y : Z) : Z * Z := (u8 (y mod 256), (y - u8 (y mod 256)) / 256).
Definition offtout (x : Z) : list Z :=
  let y := if x <? 0 then - x else x in
  let '(b0, y) := byte_out y in
  let '(b1, y) := byte_out y in
  let '(b2, y) := byte_out y in
  let '(b3, y) := byte_out y in
  let '(b4, y) := byte_out y in
  let '(b5, y) := byte_out y in
  let '(b6, y) := byte_out y in
  let '(b7, _) := byte_out y in
  [b0; b1; b2; b3; b4; b5; b6; if x <? 0 then Z.lor b7 128 else b7].

(** The variables of the loop. *)
Record diff_state := mk_diff {
  scan : Z; len_ : Z; pos : Z;
  lastscan : Z; lastpos : Z; lastoffset : Z;
  ctrl : list Z; db : list Z; eb : list Z
}.

(** Writing the triple up to [scan]. *)
Definition emit (s : diff_state) : outcome diff_state :=
  let n := S (S (length new)) in
  lenf ← extend_forward n (scan s) (lastscan s) (lastpos s) 0 0 0 0;
  lenb ← (if scan s <? newsize then extend_back n (scan s) (lastscan s) (pos s) 1 0 0 0 else mret 0);
  '(lenf, lenb) ←
    (if scan s - lenb <? lastscan s + lenf then
       let overlap := (lastscan s + lenf) - (scan s - lenb) in
       lens ← cut_overlap (Z.to_nat overlap) (lastscan s + lenf - overlap)
         (lastpos s + lenf - overlap) (scan s - lenb) (pos s - lenb) 0 0 0 0;
       mret (lenf + (lens - overlap), lenb - lens)
     else mret (lenf, lenb));
  let extra := (scan s - lenb) - (lastscan s + lenf) in
  db ← push_diff (Z.to_nat lenf) (db s) (lastscan s) (lastpos s);
  eb ← push_extra (Z.to_nat extra) (eb s) (lastscan s + lenf);
  let out := offtout lenf ++ offtout extra ++ offtout ((pos s - lenb) - (lastpos s + lenf)) in
  mret (mk_diff (scan s) (len_ s) (pos s) (scan s - lenb) (pos s - lenb) (pos s - scan s)
          (ctrl s ++ out) db eb).

Fixpoint diff_loop (fuel : nat) (s : diff_state) : outcome diff_state :=
  match fuel with
  | O => Diverge
  | S fuel =>
      if scan s <? newsize then
        let start := scan s + len_ s in
        '(sc, l, p, oldscore) ←
          find_match (S (length new)) (lastoffset s) start start 0 (len_ s) (pos s);
        let s := mk_diff sc l p (lastscan s) (lastpos s) (lastoffset s) (ctrl s) (db s) (eb s) in
        s ← (if negb (l =? oldscore) || (sc =? newsize) then emit s else mret s);
        diff_loop fuel s
      else mret s
  end.
End scan.

(** [IP] is the suffix array of an earlier call, if there is one. *)
Definition suffix_array (fuel : nat) (old : list Z) (IP : option (list Z)) : outcome (list Z) :=
  match IP with Some Ia => mret Ia | None => qsufsort fuel old end.

(** The bytes of the patch file; the calls of stdio are taken to succeed, since a failure
    ends the tool. *)
Definition bsdiff (bz_compress : list Z → list Z) (fuel : nat) (old : list Z)
    (IP : option (list Z)) (new : list Z) : outcome (list Z) :=
  Ia ← suffix_array fuel old IP;
  s ← diff_loop old new Ia (S (S (length new))) (mk_diff 0 0 0 0 0 0 [] [] []);
  let c := bz_compress (ctrl s) in
  let d := bz_compress (db s) in
  let e := bz_compress (eb s) in
  mret ((str "BSDIFF40" ++ offtout (zlen c) ++ offtout (zlen d) ++ offtout (zlen new)) ++ c ++ d ++ e).

(** Tests: a suffix array, and a patch that is applied. *)
Example qsufsort_banana :
  qsufsort 50 (str "bananabananabananabananaxbananab") =
    Ret [32; 30; 5; 11; 17; 28; 3; 9; 15; 26; 1; 7; 13; 19; 21; 23; 31; 25; 0; 6; 12; 18; 29; 4;
         10; 16; 27; 2; 8; 14; 20; 22; 24].
Proof. vm_compute. reflexivity. Qed.

Example bsdiff_bspatch :
  (file ← bsdiff BzDemo.block 50 (str "the quick brown fox jumps over the lazy dog") None
            (str "The quick brown cat jumps over the very lazy dog!");
   @ApplyBSDiffPatchMem BzDemo.toy_bzip2 (λ _, true) 50
     (str "the quick brown fox jumps over the lazy dog") 43 (mk_value 2 (zlen file) file) 0) =
  Ret (0, str "The quick brown cat jumps over the very lazy dog!").
Proof. vm_compute. reflexivity. Qed.

(** ** The numbers of the format *)

Lemma shift_in_small y b : 0 ≤ y → 0 ≤ b < 256 → y * 256 + b < 2 ^ 31 → shift_in y b = Ret (y * 256 + b).
Proof.
  intros. unfold shift_in. rewrite int_ok_small by lia. cbn [mbind outcome_bind].
  by rewrite int_ok_small by lia.
Qed.

Lemma byte_out_eq y : byte_out y = (y mod 256, y / 256).
Proof.
  unfold byte_out. assert (u8 (y mod 256) = y mod 256) as -> by (widths; zdiv). f_equal. zdiv.
Qed.

Lemma length_offtout x : length (offtout x) = 8%nat.
Proof. unfold offtout. by rewrite !byte_out_eq. Qed.

Lemma offtin_offtout x : - 2 ^ 31 < x < 2 ^ 31 → offtin (offtout x) 0 = Ret x.
Proof.
  intros Hx. unfold offtout. rewrite !byte_out_eq. set (y := if x <? 0 then - x else x).
  assert (Hy : 0 ≤ y < 2 ^ 31) by (subst y; destruct (Z.ltb_spec x 0); lia).
  assert (Hb : ∀ z, 0 ≤ z mod 256 < 256) by (intros; by apply Z.mod_pos_bound).
  set (z1 := y / 256). set (z2 := z1 / 256). set (z3 := z2 / 256).
  assert (H4 : z3 / 256 = 0) by (subst z1 z2 z3; zdiv). rewrite H4.
  assert (D0 : 0 / 256 = 0) by done. assert (M0 : 0 mod 256 = 0) by done. rewrite !D0, !M0.
  assert (E1 : y = z1 * 256 + y mod 256) by (subst z1; zdiv).
  assert (E2 : z1 = z2 * 256 + z1 mod 256) by (subst z2; zdiv).
  assert (E3 : z2 = z3 * 256 + z2 mod 256) by (subst z3; zdiv).
  assert (E4 : z3 = z3 mod 256) by zdiv.
  unfold offtin. cbn [rd orb Z.ltb Z.leb Z.add Z.compare].
  unfold rd. simpl.
  assert (H0 : shift_in 0 0 = Ret 0) by done.
  pose proof (Hb y). pose proof (Hb z1). pose proof (Hb z2). pose proof (Hb z3).
  assert (Hneg : Z.land (if x <? 0 then 128 else 0) 127 = 0) by by destruct (x <? 0).
  change (Z.lor 0 128) with 128. rewrite Hneg. do 3 (rewrite H0; cbn [mbind outcome_bind]).
  rewrite (shift_in_small 0 (z3 mod 256)) by lia. cbn [mbind outcome_bind].
  rewrite (shift_in_small _ (z2 mod 256)) by lia. cbn [mbind outcome_bind].
  rewrite (shift_in_small _ (z1 mod 256)) by lia. cbn [mbind outcome_bind].
  rewrite (shift_in_small _ (y mod 256)) by lia. cbn [mbind outcome_bind mret outcome_ret].
  f_equal. subst y. destruct (Z.ltb_spec x 0); simpl; lia.
Qed.

Lemma offtin_at l x r : - 2 ^ 31 < x < 2 ^ 31 → offtin (l ++ offtout x ++ r) (zlen l) = Ret x.
Proof.
  intros Hx. rewrite <- (Z.add_0_r (zlen l)), offtin_app by lia.
  rewrite <- (offtin_take (offtout x ++ r) 8 0) by lia. change (Z.to_nat 8) with 8%nat.
  rewrite <- (length_offtout x), take_app_length. by apply offtin_offtout.
Qed.

(** ** The scan stays inside its arrays *)

Lemma wp_rd_n {A} (l : list A) i n (Q : list A → Prop) :
  0 ≤ i → 0 ≤ n → i + n ≤ zlen l → Q (take (Z.to_nat n) (drop (Z.to_nat i) l)) → wp (rd_n l i n) Q.
Proof. intros. by rewrite rd_n_in_bounds. Qed.

Section scan_lemmas.
Context (old new Ia : list Z).
Abbreviation oldsize := (zlen old).
Abbreviation newsize := (zlen new).

(** What the scan needs of the suffix array: entries that are positions in [old], its
    end included. Their order matters only for the size of the patch. *)
Definition array_ok : Prop := length Ia = S (length old) ∧ Forall (λ i, 0 ≤ i ≤ oldsize) Ia.
Hypothesis Ia_ok : array_ok.

Lemma matchlen_wp n i j :
  0 ≤ i → 0 ≤ j → (0 < n)%nat → i + Z.of_nat n ≤ oldsize → j + Z.of_nat n ≤ newsize →
  wp (matchlen old new n i j) (λ r, 0 ≤ r ≤ Z.of_nat n).
Proof.
  revert i j. induction n as [|n IH]; intros i j Hi Hj Hn Hio Hjn; [lia|]. cbn [matchlen].
  apply wp_bind, wp_rd; [lia|]. intros a _. apply wp_bind, wp_rd; [lia|]. intros b _.
  destruct (negb _); [simpl; lia|]. destruct n as [|n]; [simpl; lia|].
  apply wp_bind. eapply wp_mono; [apply IH; lia|]. intros r Hr. simpl in *. lia.
Qed.

Lemma matchlen_at_wp i sc :
  0 ≤ i ≤ oldsize → 0 ≤ sc ≤ newsize →
  wp (matchlen_at old new i sc) (λ r, 0 ≤ r ≤ newsize - sc).
Proof.
  intros Hi Hsc. unfold matchlen_at. set (n := Z.to_nat _).
  destruct (decide (n = O)) as [->|Hn]; [simpl; lia|].
  eapply wp_mono; [apply matchlen_wp; lia|]. simpl. lia.
Qed.

Lemma wp_entry st (Q : Z → Prop) :
  0 ≤ st ≤ oldsize → (∀ i, 0 ≤ i ≤ oldsize → Q i) → wp (rd Ia st) Q.
Proof.
  destruct Ia_ok as [Hlen Hall]. intros Hst HQ. apply wp_rd; [lia|]. intros i Hi. apply HQ.
  by eapply Forall_lookup_1 in Hall.
Qed.

Lemma search_wp fuel sc st en :
  0 ≤ sc ≤ newsize → 0 ≤ st ≤ en → en ≤ oldsize → en - st < Z.of_nat fuel →
  wp (search old new Ia fuel sc st en) (λ '(l, p), 0 ≤ l ≤ newsize - sc ∧ 0 ≤ p ≤ oldsize).
Proof.
  intros Hsc. revert st en. induction fuel as [|fuel IH]; intros st en Hst Hen Hf; [lia|].
  cbn [search]. destruct (Z.ltb_spec (en - st) 2).
  - apply wp_bind, wp_entry; [lia|]. intros i Hi.
    apply wp_bind. eapply wp_mono; [by apply matchlen_at_wp|]. intros x Hx. simpl in Hx.
    apply wp_bind, wp_entry; [lia|]. intros j Hj.
    apply wp_bind. eapply wp_mono; [by apply matchlen_at_wp|]. intros y Hy. simpl in Hy.
    destruct (y <? x); simpl; lia.
  - assert (0 < (en - st) / 2 < en - st) by zdiv.
    apply wp_bind, wp_entry; [lia|]. intros i Hi. cbv zeta.
    apply wp_bind, wp_rd_n; [lia..|]. apply wp_bind, wp_rd_n; [lia..|].
    destruct (_ <? 0); apply IH; lia.
Qed.

Lemma same_at_wp off k : 0 ≤ k + off → 0 ≤ k < newsize → wp (same_at old new off k) (λ _, True).
Proof.
  intros. unfold same_at. destruct (Z.ltb_spec (k + off) oldsize); [|done].
  apply wp_bind, wp_rd; [lia|]. intros a _. by apply wp_bind, wp_rd; [lia|].
Qed.

Lemma count_same_wp n off sc score :
  0 ≤ sc + off → 0 ≤ sc → (0 < n)%nat → sc + Z.of_nat n ≤ newsize →
  wp (count_same old new n off sc score) (λ r, score ≤ r).
Proof.
  revert sc score. induction n as [|n IH]; intros sc score Ho Hs Hn Hsn; [lia|].
  cbn [count_same]. apply wp_bind. eapply wp_mono; [apply same_at_wp; lia|]. intros m _.
  destruct n as [|n]; [destruct m; simpl; lia|].
  eapply wp_mono; [apply IH; lia|]. simpl. destruct m; lia.
Qed.

Lemma find_match_wp fuel off sc scsc score l p :
  0 ≤ sc ≤ newsize → 0 ≤ sc + off → 0 ≤ scsc ≤ newsize → 0 ≤ scsc + off → 0 ≤ p ≤ oldsize →
  newsize - sc < Z.of_nat fuel →
  wp (find_match old new Ia fuel off sc scsc score l p) (λ '(sc', l', p', _),
    sc ≤ sc' ≤ newsize ∧ 0 ≤ p' ≤ oldsize ∧
    (sc' < newsize → 0 ≤ l' ∧ sc' + l' ≤ newsize ∧ (0 ≤ score → sc < sc' + l'))).
Proof.
  revert sc scsc score l p. induction fuel as [|fuel IH]; intros sc scsc score l p Hsc Hoff Hscsc Hscoff Hp Hf;
    [lia|]. cbn [find_match]. destruct (Z.ltb_spec sc newsize) as [Hlt|]; [|simpl; lia].
  apply wp_bind. eapply wp_mono; [apply search_wp; lia|]. clear l p Hp. intros [l p] [Hl Hp].
  apply wp_bind. eapply (wp_mono _ (λ r, score ≤ r)).
  { destruct (decide (Z.to_nat (sc + l - scsc) = O)) as [->|Hn]; [by simpl|].
    apply count_same_wp; lia. }
  intros score' Hs. destruct (_ || _) eqn:Hbreak.
  - simpl. split; [lia|]. split; [lia|]. intros _. split; [lia|]. split; [lia|]. intros Hpos.
    destruct (Z.ltb_spec (score' + 8) l); [lia|].
    destruct (Z.eqb_spec l 0); [|lia]. destruct (l =? score'); simpl in Hbreak; done.
  - apply wp_bind. eapply wp_mono; [apply same_at_wp; lia|]. intros m _.
    eapply wp_mono; [apply IH; lia|]. intros [[[sc' l'] p'] o'] (H1 & H2 & H3).
    split; [lia|]. split; [lia|]. intros Hsc'. destruct (H3 Hsc') as (? & ? & _). lia.
Qed.

Lemma extend_forward_wp fuel sc lsc lp i s Sf lenf :
  0 ≤ lsc → sc ≤ newsize → 0 ≤ lp → 0 ≤ lenf ≤ i → lsc + i ≤ sc → lp + i ≤ oldsize →
  sc - lsc - i < Z.of_nat fuel →
  wp (extend_forward old new fuel sc lsc lp i s Sf lenf) (λ r,
    0 ≤ r ∧ lsc + r ≤ sc ∧ lp + r ≤ oldsize).
Proof.
  intros H1 H2 H3. revert i s Sf lenf. induction fuel as [|fuel IH]; intros i s Sf lenf Hl Hi Ho Hf; [lia|].
  cbn [extend_forward].
  destruct (Z.ltb_spec (lsc + i) sc), (Z.ltb_spec (lp + i) oldsize); simpl; try lia.
  apply wp_bind, wp_rd; [lia|]. intros a _. apply wp_bind, wp_rd; [lia|]. intros b _.
  destruct (_ <? _); apply IH; lia.
Qed.

Lemma extend_back_wp fuel sc lsc p i s Sb lenb :
  0 ≤ lsc → sc ≤ newsize → 0 ≤ p ≤ oldsize → 0 ≤ lenb < i → lenb ≤ p → lsc + i ≤ sc + 1 →
  sc - lsc - i + 1 < Z.of_nat fuel →
  wp (extend_back old new fuel sc lsc p i s Sb lenb) (λ r, 0 ≤ r ∧ lsc + r ≤ sc ∧ r ≤ p).
Proof.
  intros H1 H2 H3. revert i s Sb lenb. induction fuel as [|fuel IH]; intros i s Sb lenb Hl Hb Hp Hf; [lia|].
  cbn [extend_back].
  destruct (Z.leb_spec (lsc + i) sc), (Z.leb_spec i p); simpl; try lia.
  apply wp_bind, wp_rd; [lia|]. intros a _. apply wp_bind, wp_rd; [lia|]. intros b _.
  destruct (_ <? _); apply IH; lia.
Qed.

Lemma cut_overlap_wp n a1 b1 a2 b2 i s Ss lens :
  0 ≤ a1 → 0 ≤ b1 → 0 ≤ a2 → 0 ≤ b2 → 0 ≤ lens ≤ i →
  a1 + i + Z.of_nat n ≤ newsize → b1 + i + Z.of_nat n ≤ oldsize →
  a2 + i + Z.of_nat n ≤ newsize → b2 + i + Z.of_nat n ≤ oldsize →
  wp (cut_overlap old new n a1 b1 a2 b2 i s Ss lens) (λ r, 0 ≤ r ≤ i + Z.of_nat n).
Proof.
  intros ????. revert i s Ss lens. induction n as [|n IH]; intros i s Ss lens Hl A B C E; simpl; [lia|].
  do 4 (apply wp_bind, wp_rd; [lia|]; intros ? _).
  destruct (_ <? _); (eapply wp_mono; [apply IH; lia|]); simpl; lia.
Qed.
End scan_lemmas.

(** ** Patches that rebuild the new file *)

Definition slice (l : list Z) (i n : Z) : list Z := take (Z.to_nat n) (drop (Z.to_nat i) l).

Lemma length_slice l i n : 0 ≤ i → 0 ≤ n → i + n ≤ zlen l → zlen (slice l i n) = n.
Proof. intros. unfold slice. rewrite length_take, length_drop. lia. Qed.

Lemma take_slice l i n : 0 ≤ i → 0 ≤ n →
  take (Z.to_nat i) l ++ slice l i n = take (Z.to_nat (i + n)) l.
Proof.
  intros. unfold slice. rewrite Z2Nat.inj_add by lia. apply take_take_drop.
Qed.

Lemma slice_cons l i n : 0 ≤ i → 0 < n → i < zlen l →
  ∃ x, l !! Z.to_nat i = Some x ∧ slice l i n = x :: slice l (i + 1) (n - 1).
Proof.
  intros. destruct (lookup_lt_is_Some_2 l (Z.to_nat i)) as [x Hx]; [lia|]. exists x. split; [done|].
  unfold slice. rewrite (drop_S _ _ _ Hx). replace (Z.to_nat n) with (S (Z.to_nat (n - 1))) by lia.
  replace (Z.to_nat (i + 1)) with (S (Z.to_nat i)) by lia. done.
Qed.

Definition triple : Type := Z * Z * Z.
Definition encode_triple (t : triple) : list Z :=
  let '(x, y, z) := t in offtout x ++ offtout y ++ offtout z.
Definition encode (ts : list triple) : list Z := concat (encode_triple <$> ts).

Section builds.
Context (old new : list Z).

(** One triple, with its bytes of the diff and the extra block, rebuilds the [x + y]
    bytes of the new file from [np] on, reading the old file from [op] on. *)
Definition step (t : triple) (dx ey : list Z) (np op : Z) : Prop :=
  let '(x, y, z) := t in
  zlen dx = x ∧ zlen ey = y ∧
  add_bytes old (zlen old) op dx = Ret (slice new np x) ∧ ey = slice new (np + x) y ∧
  0 ≤ np ∧ np + x + y ≤ zlen new ∧ 0 ≤ op ∧ op + x ≤ zlen old ∧ 0 ≤ op + x + z ≤ zlen old.

Inductive builds : list triple → list Z → list Z → Z → Z → Z → Z → Prop :=
  | builds_nil np op : builds [] [] [] np op np op
  | builds_cons x y z ts dx ey d e np op np' op' :
      step (x, y, z) dx ey np op → builds ts d e (np + x + y) (op + x + z) np' op' →
      builds ((x, y, z) :: ts) (dx ++ d) (ey ++ e) np op np' op'.

Lemma builds_snoc ts d e np op np' op' x y z dx ey :
  builds ts d e np op np' op' → step (x, y, z) dx ey np' op' →
  builds (ts ++ [(x, y, z)]) (d ++ dx) (e ++ ey) np op (np' + x + y) (op' + x + z).
Proof.
  induction 1 as [np op|x0 y0 z0 ts dx0 ey0 d e np op np' op' Hs Hb IH]; intros Hstep.
  - rewrite <- (app_nil_r dx), <- (app_nil_r ey). simpl. econstructor; [done|]. constructor.
  - rewrite <- !app_assoc. simpl. econstructor; [done|]. by apply IH.
Qed.

Lemma builds_lengths ts d e np op np' op' : builds ts d e np op np' op' →
  np + zlen d + zlen e = np'.
Proof.
  induction 1 as [|x y z ts dx ey d e np op np' op' (Hx & Hy & _) Hb IH]; [simpl; lia|].
  rewrite !length_app. lia.
Qed.

Lemma take_stream_app l r n room :
  zlen l = n → n ≤ room → room < 2 ^ 31 → take_stream (l ++ r) n room = Ret (Some (l, r)).
Proof.
  intros <- ??. unfold take_stream. rewrite u32_small, length_app by lia.
  destruct (Z.leb_spec (zlen l) (Z.of_nat (length l + length r))), (Z.leb_spec (zlen l) room); try lia.
  by rewrite Nat2Z.id, take_app_length, drop_app_length.
Qed.

Lemma triple_fields x y z r :
  - 2 ^ 31 < x < 2 ^ 31 → - 2 ^ 31 < y < 2 ^ 31 → - 2 ^ 31 < z < 2 ^ 31 →
  let c := offtout x ++ offtout y ++ offtout z ++ r in
  offtin c 0 = Ret x ∧ offtin c 8 = Ret y ∧ offtin c 16 = Ret z ∧ drop 24 c = r ∧ 24 ≤ zlen c.
Proof.
  intros Hx Hy Hz c. split; [by apply (offtin_at [])|]. split; [|split; [|split]].
  - pose proof (offtin_at (offtout x) y (offtout z ++ r) Hy) as H. by rewrite length_offtout in H.
  - pose proof (offtin_at (offtout x ++ offtout y) z r Hz) as H.
    by rewrite length_app, !length_offtout, <- app_assoc in H.
  - subst c. rewrite !app_assoc. apply drop_app_length'. by rewrite !length_app, !length_offtout.
  - subst c. rewrite !length_app, !length_offtout. lia.
Qed.

(** The meaning of such a patch is the new file. *)
Lemma builds_meaning ts d e np op np' op' fuel :
  builds ts d e np op np' op' → np' = zlen new → (length ts < fuel)%nat →
  zlen old < 2 ^ 31 → zlen new < 2 ^ 31 → 0 ≤ np →
  bs_meaning old (zlen old) fuel (zlen new) (encode ts) d e op (take (Z.to_nat np) new) =
    Ret (Some new).
Proof.
  intros Hb Hnp' Hf Ho Hn. revert fuel Hf.
  induction Hb as [np op|x y z ts dx ey d e np op np' op' Hs Hb IH]; intros [|fuel] Hf Hnp;
    simpl in Hf; try lia.
  - subst np. cbn [bs_meaning]. rewrite take_ge by lia. by rewrite Z.ltb_irrefl.
  - destruct Hs as (Hx & Hy & Hadd & Hey & ? & ? & ? & ? & ?).
    cbn [bs_meaning]. assert (Hl : zlen (take (Z.to_nat np) new) = np) by (rewrite length_take; lia).
    rewrite Hl. destruct (Z.ltb_spec np (zlen new)); cycle 1.
    { rewrite take_ge; [done|lia]. }
    unfold encode. cbn [fmap list_fmap concat encode_triple]. rewrite <- !app_assoc. fold (encode ts).
    destruct (triple_fields x y z (encode ts)) as (Fx & Fy & Fz & Hdrop & H24); [lia..|].
    set (c := offtout x ++ _) in *. clearbody c. destruct (Z.ltb_spec (zlen c) 24); [lia|].
    rewrite Fx, Fy, Fz. cbn [mbind outcome_bind].
    rewrite (int_ok_small (np + x)), (int_ok_small (op + x)) by lia. cbn [mbind outcome_bind].
    destruct (Z.ltb_spec (zlen new) (np + x)); [lia|].
    rewrite (take_stream_app dx) by (done || lia). cbn [mbind outcome_bind]. rewrite Hadd.
    cbn [mbind outcome_bind].
    rewrite (int_ok_small (np + x + y)), (int_ok_small (op + x + z)) by lia. cbn [mbind outcome_bind].
    destruct (Z.ltb_spec (zlen new) (np + x + y)); [lia|].
    rewrite (take_stream_app ey) by (done || lia). cbn [mbind outcome_bind].
    rewrite Hdrop, Hey, (app_assoc (take _ _)), !take_slice by lia. apply IH; lia.
Qed.
End builds.

(** ** The loop makes such a patch *)

Section emit.
Context (old new Ia : list Z).
Hypothesis Ia_ok : array_ok old Ia.
Hypotheses (old_bytes : bytes_ok old) (new_bytes : bytes_ok new).
Abbreviation oldsize := (zlen old).
Abbreviation newsize := (zlen new).

Lemma lookup_byte l i b : bytes_ok l → l !! i = Some b → 0 ≤ b < 256.
Proof. intros Hl Hi. by eapply Forall_lookup_1 in Hl. Qed.

Lemma push_wp l b (Q : list Z → Prop) : zlen l ≤ newsize → Q (l ++ [b]) → wp (push new l b) Q.
Proof. intros. unfold push. destruct (Z.ltb_spec (zlen l) (newsize + 1)); [done|lia]. Qed.

Lemma push_diff_wp n d i j :
  0 ≤ i → i + Z.of_nat n ≤ newsize → 0 ≤ j → j + Z.of_nat n ≤ oldsize → oldsize < 2 ^ 31 →
  zlen d + Z.of_nat n ≤ newsize →
  wp (push_diff old new n d i j) (λ r, ∃ dx, r = d ++ dx ∧ zlen dx = Z.of_nat n ∧
    add_bytes old oldsize j dx = Ret (slice new i (Z.of_nat n))).
Proof.
  revert d i j. induction n as [|n IH]; intros d i j Hi Hin Hj Hjn Ho Hd; cbn [push_diff].
  - exists []. by rewrite app_nil_r.
  - apply wp_bind, wp_rd; [lia|]. intros a Ha. apply wp_bind, wp_rd; [lia|]. intros b Hb.
    apply wp_bind, push_wp; [lia|]. eapply wp_mono; [apply IH; rewrite ?length_app; simpl; lia|].
    intros r (dx & -> & Hlen & Hadd). exists (u8 (a - b) :: dx). rewrite <- app_assoc. simpl.
    split; [done|]. split; [lia|]. rewrite int_ok_small by lia. cbn [mbind outcome_bind].
    destruct (Z.leb_spec 0 j), (Z.ltb_spec j oldsize); try lia. simpl.
    rewrite rd_lookup, Hb by lia. cbn [of_option mbind outcome_bind]. rewrite Hadd.
    cbn [mbind outcome_bind].
    destruct (slice_cons new i (Z.of_nat (S n))) as (x & Hx & ->); [lia..|].
    assert (x = a) as -> by congruence. pose proof (lookup_byte _ _ _ new_bytes Ha).
    assert (u8 (u8 (a - b) + b) = a) as -> by (widths; zdiv).
    by replace (Z.of_nat (S n) - 1) with (Z.of_nat n) by lia.
Qed.

Lemma push_extra_wp n e i :
  0 ≤ i → i + Z.of_nat n ≤ newsize → zlen e + Z.of_nat n ≤ newsize →
  wp (push_extra new n e i) (λ r, r = e ++ slice new i (Z.of_nat n)).
Proof.
  revert e i. induction n as [|n IH]; intros e i Hi Hin He; cbn [push_extra].
  - simpl. by rewrite app_nil_r.
  - apply wp_bind, wp_rd; [lia|]. intros a Ha. apply wp_bind, push_wp; [lia|].
    eapply wp_mono; [apply IH; rewrite ?length_app; simpl; lia|]. intros r ->.
    destruct (slice_cons new i (Z.of_nat (S n))) as (x & Hx & ->); [lia..|].
    rewrite <- app_assoc. replace (Z.of_nat (S n) - 1) with (Z.of_nat n) by lia.
    by assert (x = a) as -> by congruence.
Qed.

(** The invariant: what has been written rebuilds the new file up to [lastscan]. *)
Definition diff_inv (s : diff_state) : Prop :=
  (∃ ts, ctrl s = encode ts ∧ builds old new ts (db s) (eb s) 0 0 (lastscan s) (lastpos s)) ∧
  0 ≤ lastscan s ≤ scan s ∧ scan s ≤ newsize ∧ 0 ≤ lastpos s ≤ oldsize ∧
  0 ≤ pos s ≤ oldsize ∧ 0 ≤ scan s + lastoffset s.

Lemma encode_snoc ts t : encode (ts ++ [t]) = encode ts ++ encode_triple t.
Proof. unfold encode. rewrite fmap_app, concat_app. simpl. by rewrite app_nil_r. Qed.

(** Cutting the overlap leaves two extensions that meet. *)
Lemma cut_wp s lenf lenb :
  diff_inv s → 0 ≤ lenf → lastscan s + lenf ≤ scan s → lastpos s + lenf ≤ oldsize →
  0 ≤ lenb → lastscan s + lenb ≤ scan s → lenb ≤ pos s →
  wp (if scan s - lenb <? lastscan s + lenf then
       let overlap := (lastscan s + lenf) - (scan s - lenb) in
       lens ← cut_overlap old new (Z.to_nat overlap) (lastscan s + lenf - overlap)
         (lastpos s + lenf - overlap) (scan s - lenb) (pos s - lenb) 0 0 0 0;
       mret (lenf + (lens - overlap), lenb - lens)
     else mret (lenf, lenb))
    (λ '(f, b), 0 ≤ f ∧ lastpos s + f ≤ oldsize ∧ lastscan s + f ≤ scan s - b ∧ 0 ≤ b ≤ lenb).
Proof.
  intros (_ & Hls & Hsc & Hlp & Hp & _) Hf Hfs Hfo Hb Hbs Hbp.
  destruct (Z.ltb_spec (scan s - lenb) (lastscan s + lenf)); [|simpl; lia]. cbv zeta.
  set (n := Z.to_nat _). apply wp_bind. eapply wp_mono; [apply cut_overlap_wp; lia|].
  intros lens Hl. simpl in *. lia.
Qed.

Lemma emit_wp s :
  diff_inv s → oldsize < 2 ^ 31 → newsize < 2 ^ 31 →
  wp (emit old new s) (λ s', diff_inv s' ∧ scan s' = scan s ∧ len_ s' = len_ s ∧
    (scan s = newsize → lastscan s' = newsize)).
Proof.
  intros Hinv Ho Hn. pose proof Hinv as ((ts & Hctrl & Hb) & Hls & Hsc & Hlp & Hp & Hoff).
  unfold emit. cbv zeta. apply wp_bind.
  eapply wp_mono; [apply extend_forward_wp; lia|]. intros lenf (Hf & Hfs & Hfo). apply wp_bind.
  eapply (wp_mono _ (λ b, 0 ≤ b ∧ lastscan s + b ≤ scan s ∧ b ≤ pos s ∧ (scan s = newsize → b = 0))).
  { destruct (Z.ltb_spec (scan s) newsize) as [Hlt|]; [|simpl; lia].
    eapply wp_mono; [apply extend_back_wp; lia|]. simpl. lia. }
  intros lenb (Hb0 & Hbs & Hbp & Hbz). apply wp_bind.
  eapply wp_mono; [by apply cut_wp|]. clear Hf Hfs Hfo lenf. intros [f b] (Hf & Hfo & Hfb & Hbb).
  pose proof (builds_lengths _ _ _ _ _ _ _ _ _ Hb) as Hlens. apply wp_bind.
  eapply wp_mono; [apply push_diff_wp; lia|]. intros db' (dx & -> & Hdx & Hadd). apply wp_bind.
  eapply wp_mono; [apply push_extra_wp; lia|]. intros eb' ->. cbn [wp mret outcome_ret].
  rewrite Z2Nat.id in Hdx, Hadd by lia. rewrite !Z2Nat.id by lia.
  set (x := f) in *. set (y := scan s - b - (lastscan s + f)).
  set (z := pos s - b - (lastpos s + f)).
  split; [|split; [done|split; [done|simpl; lia]]]. unfold diff_inv.
  cbn [scan len_ pos lastscan lastpos lastoffset ctrl db eb].
  split; [|lia]. exists (ts ++ [(x, y, z)]). split; [by rewrite encode_snoc, Hctrl|].
  replace (scan s - b) with (lastscan s + x + y) by lia.
  replace (pos s - b) with (lastpos s + x + z) by lia.
  apply builds_snoc; [done|]. unfold step. rewrite length_slice by lia.
  replace (lastscan s + x + y - (lastscan s + x)) with y by lia.
  repeat split; try done; lia.
Qed.

Lemma diff_loop_wp fuel s :
  diff_inv s → oldsize < 2 ^ 31 → newsize < 2 ^ 31 → 0 ≤ len_ s →
  (scan s < newsize → scan s + len_ s ≤ newsize) →
  (scan s = newsize → lastscan s = newsize) →
  (scan s < newsize → newsize - (scan s + len_ s) + 1 < Z.of_nat fuel) → (0 < fuel)%nat →
  wp (diff_loop old new Ia fuel s) (λ s', diff_inv s' ∧ lastscan s' = newsize).
Proof.
  revert s. induction fuel as [|fuel IH]; intros s Hinv Ho Hn Hl Hle Hend Hf Hpos; [lia|].
  cbn [diff_loop]. pose proof Hinv as (Hts & Hls & Hsc & Hlp & Hp & Hoff).
  destruct (Z.ltb_spec (scan s) newsize) as [Hlt|]; [|split; [done|apply Hend; lia]]. cbv zeta.
  apply wp_bind. eapply wp_mono; [apply find_match_wp; try done; lia|].
  intros [[[sc l] p] score] (Hsc' & Hp' & Hmatch).
  set (s1 := mk_diff sc l p _ _ _ _ _ _).
  assert (Hinv1 : diff_inv s1) by (split; [exact Hts|]; simpl; lia).
  apply wp_bind.
  eapply (wp_mono _ (λ s', diff_inv s' ∧ scan s' = sc ∧ len_ s' = l ∧
    (sc = newsize → lastscan s' = newsize))).
  { destruct (_ || (sc =? newsize)) eqn:Hem.
    - eapply wp_mono; [by apply emit_wp|]. intros s' (? & ? & ? & ?). done.
    - simpl. split; [done|]. split; [done|]. split; [done|]. intros ->.
      by rewrite Z.eqb_refl, orb_true_r in Hem. }
  intros s2 (Hinv2 & Hsc2 & Hl2 & Hlast2).
  destruct (Z.ltb_spec sc newsize) as [Hlt'|Hge].
  - destruct (Hmatch Hlt') as (? & ? & ?). apply IH; try done; lia.
  - assert (sc = newsize) as Hsc_end by lia. destruct fuel as [|fuel].
    { exfalso. lia. }
    cbn [diff_loop]. rewrite Hsc2, Hsc_end, Z.ltb_irrefl. split; [done|auto].
Qed.
End emit.

(** The meaning of a patch depends on the first [n] bytes of the old data only. *)
Lemma add_bytes_take old n pos l : n ≤ zlen old →
  add_bytes (take (Z.to_nat n) old) n pos l = add_bytes old n pos l.
Proof.
  intros Hn. revert pos. induction l as [|b l IH]; intros pos; [done|]. cbn [add_bytes].
  rewrite IH. destruct (int_ok pos) as [j|f|] eqn:Hj; [|done|done]. cbn [mbind outcome_bind].
  destruct (Z.leb_spec 0 j), (Z.ltb_spec j n); simpl; try done. by rewrite rd_take by lia.
Qed.
Ltac bind_case x :=
  match goal with |- ?m ≫= _ = _ =>
    destruct m as [x| |]; cbn [mbind outcome_bind]; [|reflexivity..] end.
Lemma bs_meaning_take old n fuel new_size c d e oldpos done_ : n ≤ zlen old →
  bs_meaning (take (Z.to_nat n) old) n fuel new_size c d e oldpos done_ =
  bs_meaning old n fuel new_size c d e oldpos done_.
Proof.
  intros Hn. revert c d e oldpos done_. induction fuel as [|fuel IH]; intros c d e oldpos done_; [done|].
  cbn [bs_meaning]. destruct (_ <? _); [|done]. destruct (_ <? _); [done|].
  bind_case x. bind_case y. bind_case z. bind_case end_. destruct (_ <? _); [done|].
  bind_case o. destruct o as [[dx d']|]; [|done].
  rewrite add_bytes_take by done. bind_case added. bind_case op. bind_case end2.
  destruct (_ <? _); [done|]. bind_case o. destruct o as [[ey e']|]; [|done].
  bind_case op'. apply IH.
Qed.

(** The patch that [bsdiff] makes can be anywhere in a file, and the old data can be
    followed by more. *)
Lemma bsdiff_applies `{Bzip2Laws} (alloc_ok : Z → bool) (bz_compress : list Z → list Z)
    fuel old IP Ia new :
  (∀ l, bz_contents (bz_compress l) = Some l) →
  bytes_ok old → bytes_ok new → zlen old < 2 ^ 31 → zlen new < 2 ^ 31 →
  suffix_array fuel old IP = Ret Ia → array_ok old Ia → alloc_ok (zlen new) = true →
  wp (bsdiff bz_compress fuel old IP new) (λ file, ∀ pre rest,
    (∀ l, bz_contents (bz_compress l ++ rest) = Some l) → zlen (pre ++ file ++ rest) < 2 ^ 31 →
    ∃ n, ∀ all fuel, (n < fuel)%nat → take (length old) all = old →
      ApplyBSDiffPatchMem alloc_ok fuel all (zlen old)
        (mk_value 2 (zlen (pre ++ file ++ rest)) (pre ++ file ++ rest)) (zlen pre) = Ret (0, new)).
Proof.
  intros Hz Hob Hnb Ho Hn HIa Hok Halloc. unfold bsdiff. rewrite HIa. cbn [mbind outcome_bind].
  eapply wp_bind, wp_mono.
  { apply (diff_loop_wp old new Ia Hok Hnb (S (S (length new))) (mk_diff 0 0 0 0 0 0 [] [] []));
      simpl; try lia. split; [|simpl; lia]. exists []. split; [done|constructor]. }
  intros s (((ts & Hctrl & Hb) & _) & Hlast). cbv zeta. cbn [mret outcome_ret wp].
  set (c := bz_compress (ctrl s)). set (d := bz_compress (db s)). set (e := bz_compress (eb s)).
  set (hdr := str "BSDIFF40" ++ _). intros pre rest Hzr Hfile. exists (length ts). intros all fuel' Hfuel Hall.
  assert (Hlen : length hdr = 32%nat) by (subst hdr; by rewrite !length_app, !length_offtout).
  rewrite <- !app_assoc in Hfile |- *. pose proof Hfile as Hlens. rewrite !length_app in Hlens.
  set (data := pre ++ hdr ++ c ++ d ++ e ++ rest) in *.
  assert (Hpf : patch_file (mk_value 2 (zlen data) data) (zlen pre) (zlen new) (ctrl s) (db s) (eb s)).
  { apply (Build_patch_file _ _ _ _ _ _ _ _ pre hdr c d (e ++ rest)); try done.
    - subst hdr. split; [|split].
      + apply (offtin_at (str "BSDIFF40")). lia.
      + rewrite app_assoc. apply (offtin_at (str "BSDIFF40" ++ offtout (zlen c))). lia.
      + rewrite 2!app_assoc, <- (app_nil_r (offtout (zlen new))).
        apply (offtin_at ((str "BSDIFF40" ++ offtout (zlen c)) ++ offtout (zlen d))). lia.
    - lia.
    - subst c d e. by rewrite !Hz, Hzr. }
  pose proof (ApplyBSDiffPatchMem_spec alloc_ok fuel' all (zlen old) _ (zlen pre) (zlen new) _ _ _ Hpf Halloc) as Hs.
  rewrite Hctrl in Hs. rewrite Hlast in Hb.
  pose proof (builds_meaning old new ts (db s) (eb s) 0 0 (zlen new) (lastpos s) fuel' Hb) as Hm.
  change (take (Z.to_nat 0) new) with (@nil Z) in Hm.
  rewrite <- bs_meaning_take, Nat2Z.id, Hall in Hs.
  - rewrite Hm in Hs by (done || lia). by destruct Hs as (a & -> & ->).
  - rewrite <- Hall, length_take. lia.
Qed.

(** ** Properties *)

(** The 8-byte numbers of the format are read back as they were written. *)
Theorem offtout_offtin l x r : - 2 ^ 31 < x < 2 ^ 31 → offtin (l ++ offtout x ++ r) (zlen l) = Ret x.
Proof. apply offtin_at. Qed.

(** With a suffix array of the old file, in whatever order, [bsdiff] ends with a patch that yields the
    new file. *)
Lemma bsdiff_given_array `{Bzip2Laws} (alloc_ok : Z → bool) (bz_compress : list Z → list Z)
    fuel old IP Ia new :
  (∀ l, bz_contents (bz_compress l) = Some l) →
  bytes_ok old → bytes_ok new → zlen old < 2 ^ 31 → zlen new < 2 ^ 31 →
  suffix_array fuel old IP = Ret Ia → array_ok old Ia → alloc_ok (zlen new) = true →
  wp (bsdiff bz_compress fuel old IP new) (λ file,
    zlen file < 2 ^ 31 → ∃ n, ∀ fuel, (n < fuel)%nat →
      ApplyBSDiffPatchMem alloc_ok fuel old (zlen old) (mk_value 2 (zlen file) file) 0 = Ret (0, new)).
Proof.
  intros Hz Hob Hnb Ho Hn HIa Hok Halloc.
  eapply wp_mono; [by eapply (bsdiff_applies alloc_ok bz_compress)|]. simpl. intros file Hfile Hlen.
  destruct (Hfile [] []) as [n Hn']; [|by rewrite app_nil_r|].
  { intros l. by rewrite app_nil_r. }
  exists n. intros fuel' Hf. specialize (Hn' old fuel' Hf). rewrite !app_nil_r, take_ge in Hn' by done.
  by apply Hn'.
Qed.

(** ** Witnesses *)
Section witnesses.
Import BzDemo.
#[local] Existing Instances toy_bzip2 toy_laws.

Lemma offtout_offtin_witness : offtin ([7; 7] ++ offtout (-300) ++ [9]) 2 = Ret (-300).
Proof. apply (offtout_offtin [7; 7] (-300) [9]). lia. Defined.

Definition demo_old : list Z := str "the quick brown fox jumps over the lazy dog".
Definition demo_new : list Z := str "The quick brown cat jumps over the very lazy dog!".
End witnesses.
