(* ===== verification/Sufsort.v ===== *)
(** * Sufsort

    [qsufsort] of bsdiff.c ends: after each pass the groups agree on twice as many bytes, which is over
    when these are more than the file has; and the array that it returns is a permutation of the
    positions of the file. With it, [bsdiff] always ends with a patch that yields the new file. *)
From S2P Require Import Prelude CString Bspatch Bsdiff.

(** ** Counting *)
Section count.
Context {A : Type} (P : A → Prop) `{∀ x, Decision (P x)}.
Implicit Types l : list A.

Definition cnt l : nat := length (filter P l).
Lemma cnt_app l1 l2 : cnt (l1 ++ l2) = (cnt l1 + cnt l2)%nat.
Proof. unfold cnt. by rewrite filter_app, length_app. Qed.
Lemma cnt_perm l1 l2 : l1 ≡ₚ l2 → cnt l1 = cnt l2.
Proof. intros Hl. unfold cnt. by rewrite Hl. Qed.
Lemma cnt_pos l i x : l !! i = Some x → P x → (1 ≤ cnt l)%nat.
Proof.
  intros Hi Hx. unfold cnt. assert (x ∈ filter P l) as Hin.
  { apply list_elem_of_filter. split; [done|]. by eapply list_elem_of_lookup_2. }
  destruct (filter P l); [by apply not_elem_of_nil in Hin|]. simpl. lia.
Qed.
Lemma cnt_all l : Forall P l → cnt l = length l.
Proof.
  intros Hl. unfold cnt. induction Hl as [|x l Hx Hl IH]; [done|].
  rewrite filter_cons_True by done. simpl. by rewrite IH.
Qed.

(** [P] at the positions from [q] to [q + m]. *)
Definition at_range l (q m : nat) : Prop :=
  ∀ p, (q ≤ p < q + m)%nat → ∃ x, l !! p = Some x ∧ P x.
Lemma at_range_cnt l q m : at_range l q m → (m ≤ cnt (drop q l))%nat.
Proof.
  intros Hr. destruct (decide (m = O)) as [->|Hm]; [lia|].
  assert (Hlen : (q + m ≤ length l)%nat).
  { destruct (Hr (q + m - 1)%nat ltac:(lia)) as (x & Hx & _). apply lookup_lt_Some in Hx. lia. }
  rewrite <- (take_drop m (drop q l)), cnt_app, cnt_all.
  - rewrite length_take, length_drop. lia.
  - apply Forall_lookup_2. intros i x Hi. apply lookup_take_Some in Hi as [Hi Him].
    rewrite lookup_drop in Hi. destruct (Hr (q + i)%nat ltac:(lia)) as (y & Hy & ?). congruence.
Qed.
(** One more place before or behind the range. *)
Lemma cnt_before l q m i x : at_range l q m → (i < q)%nat → l !! i = Some x → P x → (m < cnt l)%nat.
Proof.
  intros Hr Hi Hx HP. pose proof (at_range_cnt l q m Hr).
  assert (1 ≤ cnt (take q l))%nat by (eapply (cnt_pos _ i x); [by rewrite lookup_take_lt|done]).
  pose proof (cnt_app (take q l) (drop q l)) as Happ. rewrite take_drop in Happ. lia.
Qed.
Lemma cnt_behind l m i x : at_range l 0 m → (m ≤ i)%nat → l !! i = Some x → P x → (m < cnt l)%nat.
Proof.
  intros Hr Hi Hx HP. pose proof (lookup_lt_Some _ _ _ Hx).
  assert (Hm : (m ≤ cnt (take m l))%nat).
  { rewrite <- (drop_0 (take m l)). apply at_range_cnt. intros p Hp. destruct (Hr p ltac:(lia)) as (y & Hy & ?).
    exists y. rewrite lookup_take_lt by lia. done. }
  assert (1 ≤ cnt (drop m l))%nat.
  { eapply (cnt_pos _ (i - m) x); [|done]. rewrite lookup_drop. by replace (m + (i - m))%nat with i by lia. }
  pose proof (cnt_app (take m l) (drop m l)) as Happ. rewrite take_drop in Happ. lia.
Qed.
Lemma at_range_insert l q m i x :
  at_range l q m → ¬ (q ≤ i < q + m)%nat → at_range (<[i := x]> l) q m.
Proof. intros Hr Hi p Hp. rewrite list_lookup_insert_ne by lia. by apply Hr. Qed.
Lemma at_range_snoc l q m x :
  at_range l q m → (q + m < length l)%nat → P x → at_range (<[(q + m)%nat := x]> l) q (S m).
Proof.
  intros Hr Hl Hx p Hp. destruct (decide (p = q + m)%nat) as [->|].
  - exists x. by rewrite list_lookup_insert_eq.
  - rewrite list_lookup_insert_ne by lia. apply Hr. lia.
Qed.
End count.

(** ** Exchanges inside a range *)

Lemma exchange_lt {A} (l : list A) i j a b :
  (i < j)%nat → l !! i = Some a → l !! j = Some b → <[j := a]> (<[i := b]> l) ≡ₚ l.
Proof.
  intros Hij Ha Hb. destruct (lookup_split l i a Ha) as (l1 & l2 & -> & Hl1 & Hins). rewrite Hins.
  replace j with (length l1 + S (j - length l1 - 1))%nat in * by lia.
  rewrite lookup_app_r in Hb by lia. rewrite insert_app_r.
  replace (length l1 + S (j - length l1 - 1) - length l1)%nat with (S (j - length l1 - 1)) in Hb by lia.
  simpl in *. destruct (lookup_split l2 _ b Hb) as (l3 & l4 & Hl2 & _ & Hins2). rewrite Hins2, Hl2.
  solve_Permutation.
Qed.
Lemma exchange_perm {A} (l : list A) i j a b :
  l !! i = Some a → l !! j = Some b → <[j := a]> (<[i := b]> l) ≡ₚ l.
Proof.
  intros Ha Hb. destruct (Nat.lt_trichotomy i j) as [?|[->|?]].
  - by apply exchange_lt.
  - assert (a = b) as -> by congruence. by rewrite !list_insert_id by (rewrite ?list_insert_id by done; done).
  - rewrite list_insert_insert_ne by lia. by apply exchange_lt.
Qed.

Lemma rd_mid {A} (pre mid post : list A) i x :
  mid !! i = Some x → rd (pre ++ mid ++ post) (zlen pre + Z.of_nat i) = Ret x.
Proof.
  intros Hi. rewrite rd_app_r, rd_lookup, Nat2Z.id by lia. by rewrite (lookup_app_l_Some _ _ _ _ Hi).
Qed.
Lemma wr_mid {A} (pre mid post : list A) i x :
  (i < length mid)%nat → wr (pre ++ mid ++ post) (zlen pre + Z.of_nat i) x = Ret (pre ++ <[i := x]> mid ++ post).
Proof.
  intros Hi. rewrite wr_app_r, wr_in_bounds by (rewrite ?length_app; lia). simpl. by rewrite Nat2Z.id, insert_app_l.
Qed.
Lemma swap_mid pre mid post i j a b :
  mid !! i = Some a → mid !! j = Some b →
  swap (pre ++ mid ++ post) (zlen pre + Z.of_nat i) (zlen pre + Z.of_nat j) = Ret (pre ++ <[j := a]> (<[i := b]> mid) ++ post).
Proof.
  intros Hi Hj. pose proof (lookup_lt_Some _ _ _ Hi). pose proof (lookup_lt_Some _ _ _ Hj).
  unfold swap. rewrite (rd_mid _ _ _ _ _ Hi). cbn [mbind outcome_bind]. rewrite (rd_mid _ _ _ _ _ Hj). cbn [mbind outcome_bind].
  rewrite wr_mid by done. cbn [mbind outcome_bind]. apply wr_mid. by rewrite length_insert.
Qed.

(** ** The partition *)
Section keys.
Context (V : list Z) (h x : Z).

(** The key of a position is less than, equal to, or neither. *)
Definition is_lt (u : Z) : Prop := match rd V (u + h) with Ret v => v < x | _ => False end.
Definition is_eq (u : Z) : Prop := match rd V (u + h) with Ret v => v = x | _ => False end.
Definition is_gt (u : Z) : Prop := ¬ is_lt u ∧ ¬ is_eq u.
#[global] Instance is_lt_dec u : Decision (is_lt u).
Proof. unfold is_lt. destruct (rd _ _); apply _. Defined.
#[global] Instance is_eq_dec u : Decision (is_eq u).
Proof. unfold is_eq. destruct (rd _ _); apply _. Defined.

Lemma cnt_total l : (cnt is_lt l + cnt is_eq l + cnt is_gt l)%nat = length l.
Proof.
  induction l as [|u l IH]; [done|]. unfold cnt in *. rewrite !filter_cons.
  assert (Hx : is_lt u → ¬ is_eq u) by (unfold is_lt, is_eq; destruct (rd _ _); lia).
  unfold is_gt at 1. repeat case_decide; simpl; first [tauto|lia].
Qed.

(** Positions that have a key. *)
Definition keyed (us : list Z) : Prop := Forall (λ u, ∃ v, rd V (u + h) = Ret v) us.
Lemma keyed_perm us us' : us' ≡ₚ us → keyed us → keyed us'.
Proof. unfold keyed. by intros ->. Qed.

Lemma count_keys_spec n pre us post_ :
  (n ≤ length us)%nat → keyed us →
  wp (count_keys n (pre ++ us ++ post_) V h x (zlen pre)) (λ '(l, e),
    l = Z.of_nat (cnt is_lt (take n us)) ∧ e = Z.of_nat (cnt is_eq (take n us))).
Proof.
  revert pre us. induction n as [|n IH]; intros pre us Hn Hkeyed; cbn [count_keys]; [by apply wp_ret|].
  destruct us as [|u us]; simpl in Hn; [lia|]. apply Forall_cons in Hkeyed as [[v Hv] Hkeyed].
  rewrite <- (Z.add_0_r (zlen pre)) at 1. change 0 with (Z.of_nat 0).
  rewrite (rd_mid _ (u :: us) _ 0 u) by done. cbn [mbind outcome_bind]. rewrite Hv. cbn [mbind outcome_bind].
  replace (zlen pre + 1) with (zlen (pre ++ [u])) by (rewrite length_app; simpl; lia).
  change (pre ++ (u :: us) ++ post_) with (pre ++ [u] ++ us ++ post_). rewrite app_assoc.
  apply wp_bind. eapply wp_mono; [apply IH; [lia|done]|]. intros [l e] [-> ->]. apply wp_ret. cbn [take]. unfold cnt in *.
  rewrite !filter_cons. assert (Hlt : is_lt u ↔ v < x) by (unfold is_lt; by rewrite Hv).
  assert (Heq : is_eq u ↔ v = x) by (unfold is_eq; by rewrite Hv).
  destruct (Z.ltb_spec v x), (Z.eqb_spec v x); repeat case_decide; cbn [length]; first [tauto|split; lia|exfalso; intuition lia].
Qed.

Lemma at_range_le (P : Z → Prop) `{∀ u, Decision (P u)} us q m : at_range P us q m → (m ≤ cnt P us)%nat.
Proof.
  intros Hr. pose proof (at_range_cnt P us q m Hr). pose proof (cnt_app P (take q us) (drop q us)) as Happ.
  rewrite take_drop in Happ. lia.
Qed.

(** The first loop: what it has seen is less, and what it has moved is where it belongs. *)
Lemma partition_lt_spec fuel pre us post_ L E i j k :
  L = cnt is_lt us → E = cnt is_eq us → keyed us → (length us < fuel + i + j + k)%nat →
  (i ≤ L)%nat → at_range is_lt us 0 i → at_range is_eq us L j → at_range is_gt us (L + E) k →
  wp (partition_lt fuel (pre ++ us ++ post_) V h x (zlen pre + Z.of_nat i) (Z.of_nat j) (Z.of_nat k)
      (zlen pre + Z.of_nat L) (zlen pre + Z.of_nat (L + E)))
    (λ '(Ia, j', k'), ∃ us' j1 k1, Ia = pre ++ us' ++ post_ ∧ us' ≡ₚ us ∧ j' = Z.of_nat j1 ∧ k' = Z.of_nat k1 ∧
      at_range is_lt us' 0 L ∧ at_range is_eq us' L j1 ∧ at_range is_gt us' (L + E) k1).
Proof.
  revert us i j k. induction fuel as [|fuel IH]; intros us i j k HL HE Hkeyed Hfuel Hi Hlt Heq Hgt; pose proof (cnt_total us) as Htot.
  { pose proof (at_range_le _ _ _ _ Hlt). pose proof (at_range_le _ _ _ _ Heq). pose proof (at_range_le _ _ _ _ Hgt). lia. }
  cbn [partition_lt].
  destruct (Z.ltb_spec (zlen pre + Z.of_nat i) (zlen pre + Z.of_nat L)) as [HiL|HiL]; cycle 1.
  { apply wp_ret. exists us, j, k. repeat (split; [done|]). split; [|done].
    intros p Hp. apply Hlt. lia. }
  destruct (lookup_lt_is_Some_2 us i ltac:(lia)) as [u E0]. rewrite (rd_mid _ _ _ _ _ E0). cbn [mbind outcome_bind].
  destruct (proj1 (Forall_lookup _ _) Hkeyed i u E0) as [v Hv]. rewrite Hv. cbn [mbind outcome_bind].
  assert (Hul : is_lt u ↔ v < x) by (unfold is_lt; by rewrite Hv).
  assert (Hue : is_eq u ↔ v = x) by (unfold is_eq; by rewrite Hv).
  destruct (Z.ltb_spec v x) as [Hvx|Hvx].
  { replace (zlen pre + Z.of_nat i + 1) with (zlen pre + Z.of_nat (S i)) by lia.
    apply IH; try done; [lia|lia|]. intros p Hp. destruct (decide (p = i)) as [->|].
    - exists u. split; [done|]. by apply Hul.
    - apply Hlt. lia. }
  destruct (Z.eqb_spec v x) as [Hve|Hve].
  - assert (Hj : (j < E)%nat) by (subst E; eapply (cnt_before is_eq us L); [done| |done|by apply Hue]; lia).
    destruct (lookup_lt_is_Some_2 us (L + j) ltac:(lia)) as [b Hb].
    replace (zlen pre + Z.of_nat L + Z.of_nat j) with (zlen pre + Z.of_nat (L + j)) by lia.
    rewrite (swap_mid _ _ _ _ _ _ _ E0 Hb). cbn [mbind outcome_bind].
    set (us' := <[(L + j)%nat := u]> (<[i := b]> us)) in *.
    assert (Hperm : us' ≡ₚ us) by by apply exchange_perm.
    replace (Z.of_nat j + 1) with (Z.of_nat (S j)) by lia.
    eapply wp_mono; [apply (IH us' i (S j) k)|].
    { by rewrite (cnt_perm _ _ _ Hperm). } { by rewrite (cnt_perm _ _ _ Hperm). } { by eapply keyed_perm. }
    { rewrite (Permutation_length Hperm). lia. } { lia. }
    { apply at_range_insert; [apply at_range_insert; [done|lia]|lia]. }
    { apply at_range_snoc; [apply at_range_insert; [done|lia]|rewrite length_insert; lia|by apply Hue]. }
    { apply at_range_insert; [apply at_range_insert; [done|lia]|lia]. }
    intros [[Ia j'] k'] (us1 & j1 & k1 & ? & Hp & ?). exists us1, j1, k1. split; [done|]. split; [by rewrite Hp|done].
  - assert (Hug : is_gt u) by (split; [rewrite Hul; lia|by rewrite Hue]).
    assert (Hk : (k < cnt is_gt us)%nat) by (eapply (cnt_before is_gt us (L + E)); [done| |done|done]; lia).
    destruct (lookup_lt_is_Some_2 us (L + E + k) ltac:(lia)) as [b Hb].
    replace (zlen pre + Z.of_nat (L + E) + Z.of_nat k) with (zlen pre + Z.of_nat (L + E + k)) by lia.
    rewrite (swap_mid _ _ _ _ _ _ _ E0 Hb). cbn [mbind outcome_bind].
    set (us' := <[(L + E + k)%nat := u]> (<[i := b]> us)) in *.
    assert (Hperm : us' ≡ₚ us) by by apply exchange_perm.
    replace (Z.of_nat k + 1) with (Z.of_nat (S k)) by lia.
    eapply wp_mono; [apply (IH us' i j (S k))|].
    { by rewrite (cnt_perm _ _ _ Hperm). } { by rewrite (cnt_perm _ _ _ Hperm). } { by eapply keyed_perm. }
    { rewrite (Permutation_length Hperm). lia. } { lia. }
    { apply at_range_insert; [apply at_range_insert; [done|lia]|lia]. }
    { pose proof (at_range_le _ _ _ _ Heq). apply at_range_insert; [apply at_range_insert; [done|lia]|lia]. }
    { apply at_range_snoc; [apply at_range_insert; [done|lia]|rewrite length_insert; lia|done]. }
    intros [[Ia j'] k'] (us1 & j1 & k1 & ? & Hp & ?). exists us1, j1, k1. split; [done|]. split; [by rewrite Hp|done].
Qed.

(** The second loop: what is equal is in its place. *)
Lemma partition_eq_spec fuel pre us post_ L E j k :
  L = cnt is_lt us → E = cnt is_eq us → keyed us → (length us < fuel + L + j + k)%nat →
  at_range is_lt us 0 L → at_range is_eq us L j → at_range is_gt us (L + E) k →
  wp (partition_eq fuel (pre ++ us ++ post_) V h x (Z.of_nat j) (Z.of_nat k)
      (zlen pre + Z.of_nat L) (zlen pre + Z.of_nat (L + E)))
    (λ Ia, ∃ us', Ia = pre ++ us' ++ post_ ∧ us' ≡ₚ us ∧ at_range is_eq us' L E).
Proof.
  revert us j k. induction fuel as [|fuel IH]; intros us j k HL HE Hkeyed Hfuel Hlt Heq Hgt; pose proof (cnt_total us) as Htot.
  { pose proof (at_range_le _ _ _ _ Heq). pose proof (at_range_le _ _ _ _ Hgt). lia. }
  cbn [partition_eq]. pose proof (at_range_le _ _ _ _ Heq) as HjE.
  destruct (Z.ltb_spec (zlen pre + Z.of_nat L + Z.of_nat j) (zlen pre + Z.of_nat (L + E))); cycle 1.
  { apply wp_ret. exists us. split; [done|]. split; [done|]. intros p Hp. apply Heq. lia. }
  replace (zlen pre + Z.of_nat L + Z.of_nat j) with (zlen pre + Z.of_nat (L + j)) by lia.
  destruct (lookup_lt_is_Some_2 us (L + j) ltac:(lia)) as [u E0]. rewrite (rd_mid _ _ _ _ _ E0). cbn [mbind outcome_bind].
  destruct (proj1 (Forall_lookup _ _) Hkeyed _ u E0) as [v Hv]. rewrite Hv. cbn [mbind outcome_bind].
  assert (Hul : is_lt u ↔ v < x) by (unfold is_lt; by rewrite Hv).
  assert (Hue : is_eq u ↔ v = x) by (unfold is_eq; by rewrite Hv).
  destruct (Z.eqb_spec v x) as [Hve|Hve].
  { replace (Z.of_nat j + 1) with (Z.of_nat (S j)) by lia. apply IH; try done; [lia|].
    intros p Hp. destruct (decide (p = L + j)%nat) as [->|]; [|apply Heq; lia]. exists u. split; [done|]. by apply Hue. }
  assert (Hug : is_gt u).
  { split; [|by rewrite Hue]. intros Hl.
    assert (L < cnt is_lt us)%nat by (eapply (cnt_behind is_lt us L (L + j)); [done| |done|done]; lia). lia. }
  assert (Hk : (k < cnt is_gt us)%nat) by (eapply (cnt_before is_gt us (L + E)); [done| |done|done]; lia).
  destruct (lookup_lt_is_Some_2 us (L + E + k) ltac:(lia)) as [b Hb].
  replace (zlen pre + Z.of_nat (L + E) + Z.of_nat k) with (zlen pre + Z.of_nat (L + E + k)) by lia.
  rewrite (swap_mid _ _ _ _ _ _ _ E0 Hb). cbn [mbind outcome_bind].
  set (us' := <[(L + E + k)%nat := u]> (<[(L + j)%nat := b]> us)) in *.
  assert (Hperm : us' ≡ₚ us) by by apply exchange_perm.
  replace (Z.of_nat k + 1) with (Z.of_nat (S k)) by lia.
  eapply wp_mono; [apply (IH us' j (S k))|].
  { by rewrite (cnt_perm _ _ _ Hperm). } { by rewrite (cnt_perm _ _ _ Hperm). } { by eapply keyed_perm. }
  { rewrite (Permutation_length Hperm). lia. }
  { apply at_range_insert; [apply at_range_insert; [done|lia]|lia]. }
  { apply at_range_insert; [apply at_range_insert; [done|lia]|lia]. }
  { apply at_range_snoc; [apply at_range_insert; [done|lia]|rewrite length_insert; lia|done]. }
  intros Ia (us1 & -> & Hp & Hr). exists us1. split; [done|]. split; [by rewrite Hp|done].
Qed.
End keys.

(** ** Small groups

    The elements with the least key come first. *)
Lemma select_min_spec fuel V h pre us post_ i j x :
  (1 ≤ j ≤ i)%nat → (i ≤ length us)%nat → (length us < fuel + i)%nat → keyed V h us → at_range (is_eq V h x) us 0 j →
  wp (select_min fuel (pre ++ us ++ post_) V (zlen pre + zlen us) h (zlen pre) (Z.of_nat i) (Z.of_nat j) x)
    (λ '(Ia, j', x'), ∃ us' j1, Ia = pre ++ us' ++ post_ ∧ us' ≡ₚ us ∧ j' = Z.of_nat j1 ∧ (1 ≤ j1 ≤ length us)%nat ∧
      at_range (is_eq V h x') us' 0 j1).
Proof.
  revert us i j x. induction fuel as [|fuel IH]; intros us i j x Hj Hi Hfuel Hkeyed Heq; [lia|]. cbn [select_min].
  destruct (Z.ltb_spec (zlen pre + Z.of_nat i) (zlen pre + zlen us)); cycle 1.
  { apply wp_ret. exists us, j. repeat (split; [done|]). split; [lia|done]. }
  destruct (lookup_lt_is_Some_2 us i ltac:(lia)) as [u Hu]. rewrite (rd_mid _ _ _ _ _ Hu). cbn [mbind outcome_bind].
  destruct (proj1 (Forall_lookup _ _) Hkeyed _ u Hu) as [v Hv]. rewrite Hv. cbn [mbind outcome_bind].
  assert (Hx : ∃ x1 j1, (if v <? x then (v, 0) else (x, Z.of_nat j)) = (x1, Z.of_nat j1) ∧ (j1 ≤ j)%nat ∧
    (v ≠ x1 → j1 = j ∧ x1 = x) ∧ at_range (is_eq V h x1) us 0 j1).
  { destruct (v <? x); [exists v, 0%nat|exists x, j]; (split; [done|]; split; [lia|]); split; try done. intros p Hp. lia. }
  destruct Hx as (x1 & j1 & -> & Hj1 & Hjj & Heq1).
  replace (Z.of_nat i + 1) with (Z.of_nat (S i)) by lia.
  destruct (Z.eqb_spec v x1) as [Hvx|Hvx].
  - destruct (lookup_lt_is_Some_2 us j1 ltac:(lia)) as [b Hb]. rewrite (rd_mid _ _ _ _ _ Hb). cbn [mbind outcome_bind].
    rewrite wr_mid by lia. cbn [mbind outcome_bind]. rewrite wr_mid by (rewrite length_insert; lia). cbn [mbind outcome_bind].
    set (us' := <[i := b]> (<[j1 := u]> us)) in *.
    assert (Hperm : us' ≡ₚ us) by by apply exchange_perm.
    assert (Hlen : length us' = length us) by by apply Permutation_length.
    rewrite <- Hlen at 1. replace (Z.of_nat j1 + 1) with (Z.of_nat (S j1)) by lia.
    eapply wp_mono; [apply (IH us'); [lia|lia|lia|by eapply keyed_perm|]|].
    + assert (Hue : is_eq V h x1 u) by (unfold is_eq; by rewrite Hv). subst us'. destruct (decide (i = j1)) as [->|].
      * assert (b = u) as -> by congruence. rewrite list_insert_insert_eq. apply (at_range_snoc _ _ 0); [done|simpl; lia|done].
      * apply at_range_insert; [|lia]. apply (at_range_snoc _ _ 0); [done|simpl; lia|done].
    + intros [[Ia j'] x'] (us1 & j2 & -> & Hp & -> & Hb' & Hr).
      exists us1, j2. split; [done|]. split; [by rewrite Hp|]. split; [done|]. split; [lia|done].
  - destruct (Hjj Hvx) as [-> ->]. apply IH; try done; lia.
Qed.

(** ** Segments

    The positions are divided into groups that are still to be sorted and runs that are sorted.
    A group has its elements in [I], and the last position as their rank; of a run, [I]
    holds the negative length. *)
Inductive seg :=
  | Run (us : list Z)
  | Group (us : list Z).
Definition elems (s : seg) : list Z := match s with Run us | Group us => us end.
Definition elems_all (ss : list seg) : list Z := concat (elems <$> ss).

Definition at_ (l : list Z) (i : Z) : option Z := l !! Z.to_nat i.

Definition seg_ok (Ia V : list Z) (p : Z) (s : seg) : Prop :=
  elems s ≠ [] ∧
  match s with
  | Group us => ∀ j u, us !! j = Some u →
      at_ Ia (p + Z.of_nat j) = Some u ∧ at_ V u = Some (p + zlen us - 1)
  | Run us => at_ Ia p = Some (- zlen us) ∧ ∀ j u, us !! j = Some u → at_ V u = Some (p + Z.of_nat j)
  end.
Fixpoint segs_ok (Ia V : list Z) (p : Z) (ss : list seg) : Prop :=
  match ss with
  | [] => True
  | s :: ss => seg_ok Ia V p s ∧ segs_ok Ia V (p + zlen (elems s)) ss
  end.

Lemma elems_all_cons s ss : elems_all (s :: ss) = elems s ++ elems_all ss.
Proof. done. Qed.
Lemma elems_all_app s1 s2 : elems_all (s1 ++ s2) = elems_all s1 ++ elems_all s2.
Proof. unfold elems_all. by rewrite fmap_app, concat_app. Qed.

Lemma segs_ok_app Ia V p s1 s2 :
  segs_ok Ia V p (s1 ++ s2) ↔ segs_ok Ia V p s1 ∧ segs_ok Ia V (p + zlen (elems_all s1)) s2.
Proof.
  revert p. induction s1 as [|s s1 IH]; intros p; simpl.
  - rewrite Z.add_0_r. tauto.
  - rewrite IH, elems_all_cons, length_app, Nat2Z.inj_add, Z.add_assoc. tauto.
Qed.

(** Segments do not see changes elsewhere. *)
Lemma seg_ok_frame Ia V Ia' V' p s :
  seg_ok Ia V p s → (∀ i, p ≤ i < p + zlen (elems s) → at_ Ia' i = at_ Ia i) →
  (∀ u, u ∈ elems s → at_ V' u = at_ V u) → seg_ok Ia' V' p s.
Proof.
  intros [Hne Hs] HI HV. split; [done|]. destruct s as [us|us]; simpl in *.
  - destruct Hs as [Hp Hu]. rewrite HI by (destruct us; simpl; [done|lia]). split; [done|].
    intros j u Hj. rewrite HV by by eapply list_elem_of_lookup_2. auto.
  - intros j u Hj. pose proof (lookup_lt_Some _ _ _ Hj).
    rewrite HI, HV by (lia || by eapply list_elem_of_lookup_2). auto.
Qed.
Lemma segs_ok_frame Ia V Ia' V' p ss :
  segs_ok Ia V p ss → (∀ i, p ≤ i < p + zlen (elems_all ss) → at_ Ia' i = at_ Ia i) →
  (∀ u, u ∈ elems_all ss → at_ V' u = at_ V u) → segs_ok Ia' V' p ss.
Proof.
  revert p. induction ss as [|s ss IH]; intros p; simpl; [done|]. rewrite elems_all_cons. intros [Hs Hss] HI HV.
  rewrite length_app in HI. split.
  - eapply seg_ok_frame; [done| |]; intros; [apply HI; lia|apply HV; apply elem_of_app; auto].
  - apply IH; [done| |]; intros; [apply HI; lia|apply HV; apply elem_of_app; auto].
Qed.

Lemma at_mid pre (mid post_ : list Z) i :
  zlen pre ≤ i < zlen pre + zlen mid → at_ (pre ++ mid ++ post_) i = mid !! Z.to_nat (i - zlen pre).
Proof.
  intros Hi. unfold at_. rewrite lookup_app_r, lookup_app_l by lia. f_equal. lia.
Qed.

(** *** Setting the ranks of a group *)
Definition others_same (V V' us : list Z) : Prop :=
  length V' = length V ∧ ∀ u, 0 ≤ u → u ∉ us → at_ V' u = at_ V u.

Lemma others_same_trans V1 V2 V3 us1 us2 :
  others_same V1 V2 us1 → others_same V2 V3 us2 → others_same V1 V3 (us1 ++ us2).
Proof.
  intros [Hl1 H1] [Hl2 H2]. split; [congruence|]. intros u Hu Hni. rewrite elem_of_app in Hni.
  rewrite H2, H1 by tauto. done.
Qed.
Lemma others_same_perm V V' us us' : us ≡ₚ us' → others_same V V' us → others_same V V' us'.
Proof. intros Hp [Hl H]. split; [done|]. intros u Hu Hni. apply H; [done|]. by rewrite Hp. Qed.

Lemma set_group_spec pre us post_ V v :
  Forall (λ u, 0 ≤ u < zlen V) us →
  wp (set_group (length us) (pre ++ us ++ post_) V (zlen pre) v) (λ V',
    others_same V V' us ∧ ∀ u, u ∈ us → at_ V' u = Some v).
Proof.
  revert pre V. induction us as [|u us IH]; intros pre V Hus; cbn [length set_group].
  { apply wp_ret. split; [done|]. intros u Hu. by apply not_elem_of_nil in Hu. }
  apply Forall_cons in Hus as [Hu Hus]. rewrite <- (Z.add_0_r (zlen pre)) at 1. change 0 with (Z.of_nat 0).
  rewrite (rd_mid _ (u :: us) _ 0 u) by done. cbn [mbind outcome_bind]. rewrite wr_in_bounds by done. cbn [mbind outcome_bind].
  replace (zlen pre + 1) with (zlen (pre ++ [u])) by (rewrite length_app; simpl; lia).
  change (pre ++ (u :: us) ++ post_) with (pre ++ [u] ++ us ++ post_). rewrite app_assoc.
  eapply wp_mono; [apply IH; by rewrite length_insert|]. intros V' [[Hl Ho] Hs]. rewrite length_insert in Hl. split; [split; [done|]|].
  - intros w Hw Hni. rewrite elem_of_cons in Hni. rewrite Ho by tauto. unfold at_.
    rewrite list_lookup_insert_ne; [done|]. intros He. apply Hni. left. lia.
  - intros w Hw. destruct (decide (w ∈ us)) as [|Hni]; [auto|].
    apply elem_of_cons in Hw as [->|]; [|done]. rewrite Ho by (done || lia). unfold at_.
    by rewrite list_lookup_insert_eq by lia.
Qed.

(** A group of one is a run. *)
Definition seg_of (us : list Z) : seg := if (length us =? 1)%nat then Run us else Group us.
Lemma elems_seg_of us : elems (seg_of us) = us.
Proof. unfold seg_of. by destruct (_ =? _)%nat. Qed.
Definition marked (us : list Z) : list Z := if (length us =? 1)%nat then [-1] else us.
Lemma length_marked us : length (marked us) = length us.
Proof. unfold marked. by destruct (Nat.eqb_spec (length us) 1) as [->|]. Qed.

Lemma seg_of_ok pre us post_ V :
  us ≠ [] → (∀ u, u ∈ us → at_ V u = Some (zlen pre + zlen us - 1)) →
  seg_ok (pre ++ marked us ++ post_) V (zlen pre) (seg_of us).
Proof.
  intros Hne HV. split; [by rewrite elems_seg_of|]. unfold seg_of, marked.
  destruct (Nat.eqb_spec (length us) 1) as [Hl|Hl].
  - rewrite at_mid by (simpl; lia). rewrite Z.sub_diag, Hl. split; [done|].
    intros j u Hj. pose proof (lookup_lt_Some _ _ _ Hj). rewrite HV by by eapply list_elem_of_lookup_2.
    f_equal. lia.
  - intros j u Hj. pose proof (lookup_lt_Some _ _ _ Hj). rewrite at_mid by lia.
    replace (Z.to_nat (zlen pre + Z.of_nat j - zlen pre)) with j by lia. split; [done|].
    apply HV. by eapply list_elem_of_lookup_2.
Qed.

(** The mark of a group of one, as the code writes it. *)
Lemma mark_spec pre us post_ (b : bool) :
  b = (length us =? 1)%nat →
  (if b then wr (pre ++ us ++ post_) (zlen pre) (-1) else mret (pre ++ us ++ post_)) = Ret (pre ++ marked us ++ post_).
Proof.
  intros ->. unfold marked. destruct (Nat.eqb_spec (length us) 1) as [Hl|]; [|done].
  rewrite <- (Z.add_0_r (zlen pre)) at 1. change 0 with (Z.of_nat 0). rewrite wr_mid by lia. by destruct us as [|u [|? ?]].
Qed.

(** The ranks of the elements of segments are in the range of these. *)
Lemma segs_rank Ia V p ss u :
  segs_ok Ia V p ss → u ∈ elems_all ss → ∃ v, at_ V u = Some v ∧ p ≤ v < p + zlen (elems_all ss).
Proof.
  revert p. induction ss as [|s ss IH]; intros p; [by intros _ ?%not_elem_of_nil|].
  rewrite elems_all_cons, length_app. intros [[Hne Hs] Hss] [Hu|Hu]%elem_of_app.
  - apply list_elem_of_lookup in Hu as [j Hj]. pose proof (lookup_lt_Some _ _ _ Hj). destruct s as [us|us]; simpl in *.
    + destruct Hs as [_ Hs]. exists (p + Z.of_nat j). split; [by apply Hs|lia].
    + destruct (Hs j u Hj) as [_ Hv]. exists (p + zlen us - 1). split; [done|lia].
  - destruct (IH _ Hss Hu) as (v & Hv & Hb). exists v. split; [done|lia].
Qed.

(** ** How far the groups agree

    Let [n] be the size of the file. The elements of a group that is sorted by its first [h] bytes agree
    on them, so that none of them is among the last [h] positions: those have ranks of their
    own. *)
Section far.
Context (n : Z).

Definition far (h : Z) (us : list Z) : Prop := Forall (λ u, 0 ≤ u ∧ u + h ≤ n) us.
Definition seg_far (h : Z) (s : seg) : Prop := match s with Run _ => True | Group us => far h us end.
Definition segs_far (h : Z) (ss : list seg) : Prop := Forall (seg_far h) ss.
Definition apart (h : Z) (V : list Z) : Prop :=
  ∀ x y, 0 ≤ x ≤ n → n < x + h → 0 ≤ y ≤ n → x ≠ y → at_ V x ≠ at_ V y.
Definition free (h : Z) (V : list Z) (p q : Z) : Prop :=
  ∀ x v, 0 ≤ x ≤ n → n < x + h → at_ V x = Some v → ¬ (p ≤ v < q).

Lemma far_keyed h V us : 0 < h → zlen V = n + 1 → far h us → keyed V h us.
Proof.
  intros Hh HV Hus. eapply Forall_impl; [exact Hus|]. intros u [? ?]. apply rd_in_bounds. lia.
Qed.
Lemma far_in_range h (V us : list Z) : 0 < h → zlen V = n + 1 → far h us → Forall (λ u, 0 ≤ u < zlen V) us.
Proof. intros Hh HV Hus. eapply Forall_impl; [exact Hus|]. simpl. lia. Qed.
Lemma far_perm h us us' : us ≡ₚ us' → far h us → far h us'.
Proof. unfold far. by intros ->. Qed.
Lemma far_app h us1 us2 : far h (us1 ++ us2) ↔ far h us1 ∧ far h us2.
Proof. apply Forall_app. Qed.

(** Elements with the same key agree on twice as many bytes. *)
Lemma same_key_far h V x g :
  0 < h → zlen V = n + 1 → apart h V → NoDup g → far h g → at_range (is_eq V h x) g 0 (length g) → length g ≠ 1%nat → far (h + h) g.
Proof.
  intros Hh HV Hap Hnd Hfar Heq Hlen. apply Forall_lookup. intros i u Hi. pose proof (lookup_lt_Some _ _ _ Hi) as Hil.
  assert (Hkey : ∀ j w, g !! j = Some w → 0 ≤ w ∧ w + h ≤ n ∧ at_ V (w + h) = Some x).
  { intros j w Hj. pose proof (proj1 (Forall_lookup _ _) Hfar j w Hj) as Hw. simpl in Hw. pose proof (lookup_lt_Some _ _ _ Hj).
    destruct (Heq j ltac:(lia)) as (w' & Hj' & Hk). assert (w' = w) as -> by congruence. unfold is_eq in Hk.
    destruct (rd V (w + h)) as [v| |] eqn:Hrd; [|done..]. subst v. apply rd_Some in Hrd as [_ Hrd]. split; [lia|]. split; [lia|done]. }
  assert (∃ j w, g !! j = Some w ∧ i ≠ j) as (j & w & Hj & Hij).
  { set (j := if decide (i = 0)%nat then 1%nat else 0%nat). assert (j < length g)%nat by (subst j; destruct (decide (i = 0)%nat); lia).
    destruct (lookup_lt_is_Some_2 g j) as [w Hw]; [done|]. exists j, w. split; [done|]. subst j. destruct (decide (i = 0)%nat); lia. }
  assert (Hne : u ≠ w) by (intros ->; apply Hij; by eapply NoDup_lookup).
  destruct (Hkey i u Hi) as (? & ? & Hu), (Hkey j w Hj) as (? & ? & Hw). split; [done|].
  destruct (decide (u + (h + h) ≤ n)); [done|]. exfalso.
  apply (Hap (u + h) (w + h)); [lia|lia|lia|lia|congruence].
Qed.
End far.

(** *** What [split] does to a range *)
Section split.
Context (n h : Z) (Hh : 0 < h).

Definition splits_to (pre us post_ V : list Z) (r : list Z * list Z) : Prop :=
  ∃ mid ss, r.1 = pre ++ mid ++ post_ ∧ length mid = length us ∧ elems_all ss ≡ₚ us ∧
    segs_ok r.1 r.2 (zlen pre) ss ∧ others_same V r.2 us ∧ segs_far n (h + h) ss.

(** The ranks around a range with [us] leave its positions free. *)
Definition ready (pre us V : list Z) : Prop :=
  zlen V = n + 1 ∧ NoDup us ∧ far n h us ∧ apart n h V ∧ free n h V (zlen pre) (zlen pre + zlen us).

Lemma ready_perm pre us us' V : us ≡ₚ us' → ready pre us V → ready pre us' V.
Proof.
  intros Hp (HV & Hnd & Hfar & Hap & Hfree). split; [done|]. split; [by rewrite <- Hp|]. split; [by eapply far_perm|].
  split; [done|]. by rewrite <- (Permutation_length Hp).
Qed.

Lemma splits_to_perm pre us us' post_ V r :
  us ≡ₚ us' → splits_to pre us post_ V r → splits_to pre us' post_ V r.
Proof.
  intros Hp (mid & ss & H1 & H2 & H3 & H4 & H5 & H6). exists mid, ss.
  rewrite <- Hp at 1. split; [done|]. split; [by rewrite H2, Hp|]. split; [by rewrite H3|]. split; [done|].
  split; [by eapply others_same_perm|done].
Qed.

(** The last positions keep their ranks, and those stay their own. *)
Lemma splits_to_apart pre us post_ V r :
  ready pre us V → splits_to pre us post_ V r →
  zlen r.2 = n + 1 ∧ apart n h r.2 ∧ ∀ p q, free n h V p q → free n h r.2 p q.
Proof.
  intros (HV & Hnd & Hfar & Hap & Hfree) (mid & ss & HI & Hl & Hp & Hs & [HoL Ho] & _).
  assert (Hlast : ∀ x, 0 ≤ x ≤ n → n < x + h → at_ r.2 x = at_ V x).
  { intros x Hx Hxh. apply Ho; [lia|]. intros Hin. pose proof (proj1 (Forall_forall _ _) Hfar x Hin) as Hin'. simpl in Hin'. lia. }
  split; [lia|]. split.
  - intros x y Hx Hxh Hy Hne. rewrite Hlast by done. destruct (decide (y ∈ us)) as [Hin|Hni].
    + rewrite <- Hp in Hin. destruct (segs_rank _ _ _ _ _ Hs Hin) as (v & -> & Hv). rewrite Hp in Hv.
      intros Heq. by apply (Hfree x v).
    + rewrite Ho by (lia || done). by apply Hap.
  - intros p q Hpq x v Hx Hxh. rewrite Hlast by done. by apply Hpq.
Qed.

(** Two ranges, one after the other. *)
Lemma splits_to_app pre us1 us2 post_ V Ia1 V1 r mid1 ss1 :
  NoDup (us1 ++ us2) → far n h (us1 ++ us2) →
  length mid1 = length us1 → elems_all ss1 ≡ₚ us1 → segs_ok Ia1 V1 (zlen pre) ss1 → segs_far n (h + h) ss1 →
  Ia1 = pre ++ mid1 ++ us2 ++ post_ → others_same V V1 us1 →
  splits_to (pre ++ mid1) us2 post_ V1 r → splits_to pre (us1 ++ us2) post_ V r.
Proof.
  intros Hnd Hpos Hl1 Hp1 Hs1 Hf1 HI1 Ho1 (mid2 & ss2 & HI2 & Hl2 & Hp2 & Hs2 & Ho2 & Hf2).
  exists (mid1 ++ mid2), (ss1 ++ ss2). rewrite <- !app_assoc in *. split; [done|].
  split; [rewrite !length_app; lia|]. split; [by rewrite elems_all_app, Hp1, Hp2|].
  split; [|split; [by eapply others_same_trans|by apply Forall_app]]. apply segs_ok_app. split.
  - eapply segs_ok_frame; [exact Hs1| |].
    + intros i Hi. rewrite Hp1 in Hi. rewrite HI1, HI2, !at_mid by lia. done.
    + intros u Hu. rewrite Hp1 in Hu. destruct Ho2 as [_ Ho2]. apply Ho2.
      * unfold far in Hpos. rewrite Forall_forall in Hpos. apply Hpos, elem_of_app. by left.
      * apply NoDup_app in Hnd as (_ & Hnd & _). by apply Hnd.
  - replace (zlen pre + zlen (elems_all ss1)) with (zlen (pre ++ mid1)); [done|].
    rewrite length_app, Hp1. lia.
Qed.

(** The first range is done, and then the second one. *)
Lemma splits_to_seq pre us1 us2 post_ V r1 (m : outcome (list Z * list Z)) :
  ready pre (us1 ++ us2) V → splits_to pre us1 (us2 ++ post_) V r1 →
  (∀ mid1, length mid1 = length us1 → r1.1 = pre ++ mid1 ++ us2 ++ post_ → ready (pre ++ mid1) us2 r1.2 →
    wp m (splits_to (pre ++ mid1) us2 post_ r1.2)) →
  wp m (splits_to pre (us1 ++ us2) post_ V).
Proof.
  intros Hready Hs1 Hm. pose proof Hready as (HV & Hnd & Hfar & Hap & Hfree).
  pose proof Hnd as (Hnd1 & _ & Hnd2)%NoDup_app. apply far_app in Hfar as Hf12. destruct Hf12 as [Hf1 Hf2].
  rewrite length_app in Hfree.
  destruct (splits_to_apart pre us1 (us2 ++ post_) V r1) as (HV1 & Hap1 & Hfree1); [|done|].
  { split; [done|]. split; [done|]. split; [done|]. split; [done|]. intros x v Hx Hxh Hv Hb. apply (Hfree x v Hx Hxh Hv). lia. }
  destruct Hs1 as (mid1 & ss1 & HI & Hl & Hp & Hs & Ho & Hf).
  eapply wp_mono; [apply (Hm mid1 Hl HI)|].
  - split; [done|]. split; [done|]. split; [done|]. split; [done|]. rewrite length_app, Hl.
    apply Hfree1. intros x v Hx Hxh Hv Hb. apply (Hfree x v Hx Hxh Hv). lia.
  - intros r Hr. by eapply (splits_to_app pre us1 us2 post_ V r1.1 r1.2 r mid1 ss1).
Qed.
Lemma splits_to_nil pre post_ V : splits_to pre [] post_ V (pre ++ post_, V).
Proof. exists [], []. repeat (split; [done|]). constructor. Qed.

(** Setting the ranks of a group and marking it. *)
Definition finish_group (n : nat) (Ia V : list Z) (p v : Z) (single : bool) : outcome (list Z * list Z) :=
  V ← set_group n Ia V p v;
  Ia ← (if single then wr Ia p (-1) else mret Ia);
  mret (Ia, V).

Lemma finish_group_spec pre us post_ V m v single :
  zlen V = n + 1 → far n h us → (length us ≠ 1%nat → far n (h + h) us) →
  m = length us → v = zlen pre + zlen us - 1 → single = (length us =? 1)%nat →
  wp (finish_group m (pre ++ us ++ post_) V (zlen pre) v single) (splits_to pre us post_ V).
Proof.
  intros HV Hfar Hfar2 -> -> Hs. unfold finish_group. apply wp_bind.
  eapply wp_mono; [by apply set_group_spec, (far_in_range n h)|]. intros V' [Ho HV'].
  rewrite mark_spec by done. cbn [mbind outcome_bind]. apply wp_ret.
  exists (marked us), (if decide (us = []) then [] else [seg_of us]). cbn [fst snd].
  split; [done|]. split; [apply length_marked|]. case_decide as Hne.
  - subst us. split; [done|]. split; [done|]. split; [done|constructor].
  - unfold elems_all. simpl. rewrite elems_seg_of, app_nil_r. split; [done|]. split; [split; [by apply seg_of_ok|done]|].
    split; [done|]. constructor; [|constructor]. unfold seg_of. destruct (Nat.eqb_spec (length us) 1); [done|by apply Hfar2].
Qed.

Lemma split_small_spec fuel pre us post_ V :
  ready pre us V → (length us < fuel)%nat →
  wp (split_small fuel (pre ++ us ++ post_) V (zlen pre + zlen us) h (zlen pre)) (splits_to pre us post_ V).
Proof.
  revert pre us V. induction fuel as [|fuel IH]; intros pre us V Hready Hfuel; [lia|]. cbn [split_small].
  destruct (Z.ltb_spec (zlen pre) (zlen pre + zlen us)) as [Hlt|Hge]; cycle 1.
  { apply wp_ret. destruct us; [apply splits_to_nil|simpl in Hge; lia]. }
  pose proof Hready as (HV & Hnd & Hfar & Hap & _). pose proof (far_keyed n h V us Hh HV Hfar) as Hkeyed.
  destruct (lookup_lt_is_Some_2 us 0 ltac:(lia)) as [u Hu].
  replace (rd (pre ++ us ++ post_) (zlen pre)) with (Ret u) by (rewrite <- (rd_mid pre us post_ 0 u Hu); f_equal; lia).
  cbn [mbind outcome_bind]. destruct (proj1 (Forall_lookup _ _) Hkeyed _ u Hu) as [x Hx]. rewrite Hx. cbn [mbind outcome_bind].
  replace (Z.to_nat (zlen pre + zlen us - zlen pre)) with (length us) by lia.
  apply wp_bind. eapply wp_mono; [apply (select_min_spec _ _ _ pre us post_ 1 1); [lia|lia|lia|done|]|].
  { intros p Hp. exists u. assert (p = 0%nat) as -> by lia. split; [done|]. unfold is_eq. by rewrite Hx. }
  intros [[Ia j] y] (us' & j1 & -> & Hp & -> & Hj & Hkeys). rewrite Nat2Z.id.
  assert (Hus : us' = take j1 us' ++ drop j1 us') by by rewrite take_drop.
  assert (Hkg : at_range (is_eq V h y) (take j1 us') 0 j1).
  { intros p Hpp. destruct (Hkeys p Hpp) as (w & Hw & ?). exists w. by rewrite lookup_take_lt by lia. }
  set (g := take j1 us') in *. set (rest := drop j1 us') in *.
  assert (Hlen : length us' = length us) by by rewrite Hp.
  assert (Hg : length g = j1) by (subst g; rewrite length_take; lia).
  assert (Hrest : zlen rest = zlen us - Z.of_nat j1) by (subst rest; rewrite length_drop; lia).
  clearbody g rest. apply (wp_mono _ (splits_to pre us' post_ V)); [|intros r; by apply splits_to_perm].
  apply (ready_perm pre us us') in Hready; [|done]. rewrite Hus in *.
  assert (Hndg : NoDup g) by (rewrite <- Hp in Hnd; by apply NoDup_app in Hnd as (? & _)).
  assert (Hfarg : far n h g) by (apply (far_perm n h us (g ++ rest)) in Hfar; [|done]; by apply far_app in Hfar as [? _]).
  assert (Heq : ∀ A B (k : list Z * list Z → outcome B) b, A = b →
    (V0 ← set_group j1 (pre ++ (g ++ rest) ++ post_) V (zlen pre) (zlen pre + Z.of_nat j1 - 1);
     Ia0 ← (if A : bool then wr (pre ++ (g ++ rest) ++ post_) (zlen pre) (-1) else mret (pre ++ (g ++ rest) ++ post_)); k (Ia0, V0)) =
    (r ← finish_group j1 (pre ++ g ++ rest ++ post_) V (zlen pre) (zlen pre + Z.of_nat j1 - 1) b; k r)).
  { intros A B k b ->. unfold finish_group. rewrite <- app_assoc. destruct (set_group _ _ _ _ _); cbn [mbind outcome_bind]; [|done..].
    by destruct (if b then _ else _). }
  rewrite (Heq _ _ (λ '(Ia0, V0), split_small fuel Ia0 V0 (zlen pre + zlen us) h (zlen pre + Z.of_nat j1)) _ eq_refl). clear Heq.
  apply wp_bind. eapply wp_mono; [apply finish_group_spec; [done|done| |done|lia|]|].
  { intros Hg1. rewrite <- Hg in Hkg. by eapply (same_key_far n h V y g). }
  { rewrite Hg. destruct (Z.eqb_spec (Z.of_nat j1) 1), (Nat.eqb_spec j1 1); done || lia. }
  intros [Ia1 V1] Hg1. eapply splits_to_seq; [done|exact Hg1|]. cbn [fst snd].
  intros mid1 Hl1 -> Hready1. rewrite (app_assoc pre).
  replace (zlen pre + zlen us) with (zlen (pre ++ mid1) + zlen rest) by (rewrite length_app; lia).
  replace (zlen pre + Z.of_nat j1) with (zlen (pre ++ mid1)) by (rewrite length_app; lia).
  apply IH; [done|lia].
Qed.

Lemma split_spec fuel pre us post_ V :
  ready pre us V → (length us < fuel)%nat →
  wp (split fuel (pre ++ us ++ post_) V (zlen pre) (zlen us) h) (splits_to pre us post_ V).
Proof.
  revert pre us post_ V. induction fuel as [|fuel IH]; intros pre us post_ V Hready Hfuel; [lia|].
  cbn [split]. destruct (Z.ltb_spec (zlen us) 16) as [_|Hbig].
  { replace (Z.to_nat (zlen us)) with (length us) by lia. apply split_small_spec; [done|lia]. }
  pose proof Hready as (HV & Hnd & Hfar & Hap & _). pose proof (far_keyed n h V us Hh HV Hfar) as Hkeyed.
  assert (Hhalf : 0 ≤ zlen us / 2 < zlen us) by (split; [apply Z.div_pos; lia|apply Z.div_lt_upper_bound; lia]).
  destruct (lookup_lt_is_Some_2 us (Z.to_nat (zlen us / 2)) ltac:(lia)) as [u Hu].
  replace (zlen pre + zlen us / 2) with (zlen pre + Z.of_nat (Z.to_nat (zlen us / 2))) by lia.
  rewrite (rd_mid _ _ _ _ _ Hu). cbn [mbind outcome_bind].
  destruct (proj1 (Forall_lookup _ _) Hkeyed _ u Hu) as [x Hx]. rewrite Hx. cbn [mbind outcome_bind].
  apply wp_bind. eapply wp_mono; [apply count_keys_spec; [lia|done]|]. intros [l e] [-> ->]. cbv zeta.
  rewrite Nat2Z.id, firstn_all. set (L := cnt (is_lt V h x) us) in *. set (E := cnt (is_eq V h x) us) in *.
  pose proof (cnt_total V h x us) as Htot. fold L E in Htot.
  assert (HE1 : (1 ≤ E)%nat) by (eapply cnt_pos; [exact Hu|]; unfold is_eq; by rewrite Hx).
  replace (Z.of_nat E + (Z.of_nat L + zlen pre)) with (zlen pre + Z.of_nat (L + E)) by lia.
  replace (Z.of_nat L + zlen pre) with (zlen pre + Z.of_nat L) by lia.
  apply wp_bind. replace (zlen pre) with (zlen pre + Z.of_nat 0) at 1 by lia.
  eapply wp_mono; [apply (partition_lt_spec V h x _ pre us post_ L E 0 0 0); [done|done|done|lia|lia|intros ? ?; lia..]|].
  intros [[Ia j] k] (us1 & j1 & k1 & -> & Hp1 & -> & -> & Hr1 & Hr2 & Hr3).
  apply wp_bind. eapply wp_mono; [apply (partition_eq_spec V h x _ pre us1 post_ L E)|].
  { by rewrite (cnt_perm _ _ _ Hp1). } { by rewrite (cnt_perm _ _ _ Hp1). } { by eapply keyed_perm. }
  { rewrite (Permutation_length Hp1). lia. } { done. } { done. } { done. }
  intros Ia' (us2 & -> & Hp2 & Hkeys).
  assert (Hp : us2 ≡ₚ us) by by rewrite Hp2. clear Hr1 Hr2 Hr3 Hp1 Hp2 us1 j1 k1.
  assert (Hlen : length us2 = length us) by by rewrite Hp.
  assert (Hus : us2 = take L us2 ++ take E (drop L us2) ++ drop E (drop L us2)) by by rewrite !take_drop.
  assert (HkB : at_range (is_eq V h x) (take E (drop L us2)) 0 E).
  { intros p Hpp. destruct (Hkeys (L + p)%nat ltac:(lia)) as (w & Hw & ?). exists w. by rewrite lookup_take_lt, lookup_drop by lia. }
  set (A := take L us2) in *. set (B := take E (drop L us2)) in *. set (C := drop E (drop L us2)) in *.
  assert (HA : length A = L) by (subst A; rewrite length_take; lia).
  assert (HB : length B = E) by (subst B; rewrite length_take, length_drop; lia).
  assert (HC : length C = (length us - L - E)%nat) by (subst C; rewrite !length_drop; lia).
  clearbody A B C.
  apply (wp_mono _ (splits_to pre us2 post_ V)); [|intros r; by apply splits_to_perm].
  apply (ready_perm pre us us2) in Hready; [|done]. rewrite Hus in *. rewrite <- !app_assoc.
  assert (HfarB : far n h B ∧ (length B ≠ 1%nat → far n (h + h) B)).
  { pose proof Hready as (_ & HndABC & HfarABC & _). apply far_app in HfarABC as [_ [HfB _]%far_app].
    apply NoDup_app in HndABC as (_ & _ & (HndB & _)%NoDup_app). split; [done|]. intros Hne.
    rewrite <- HB in HkB. by eapply (same_key_far n h V x B). }
  set (mA := if _ <? _ then split fuel _ V (zlen pre) _ h else _).
  assert (HmA : wp mA (splits_to pre A ((B ++ C) ++ post_) V)).
  { subst mA. rewrite <- app_assoc. destruct (Z.ltb_spec (zlen pre) (zlen pre + Z.of_nat L)) as [HL|HL].
    - replace (zlen pre + Z.of_nat L - zlen pre) with (zlen A) by lia. apply IH; [|lia].
      destruct Hready as (_ & HndABC & HfarABC & _ & Hfree). split; [done|].
      split; [by apply NoDup_app in HndABC as (? & _)|]. split; [by apply far_app in HfarABC as [? _]|]. split; [done|].
      intros y v Hy Hyh Hv Hb. rewrite !length_app in Hfree. apply (Hfree y v Hy Hyh Hv). lia.
    - destruct A; [apply splits_to_nil|simpl in HA; lia]. }
  clearbody mA. apply wp_bind. eapply wp_mono; [exact HmA|]. intros [Ia1 V1] HsA.
  eapply (splits_to_seq pre A (B ++ C)); [done|exact HsA|]. cbn [fst snd]. intros midA HlA -> HreadyBC.
  replace (Z.to_nat (zlen pre + Z.of_nat (L + E) - (zlen pre + Z.of_nat L))) with E by lia.
  replace (zlen pre + Z.of_nat L) with (zlen (pre ++ midA)) by (rewrite length_app; lia).
  rewrite <- !app_assoc. rewrite (app_assoc pre midA).
  set (sg := zlen (pre ++ midA) =? zlen pre + Z.of_nat (L + E) - 1).
  assert (Heq : ∀ (k : list Z * list Z → outcome (list Z * list Z)),
    (V0 ← set_group E ((pre ++ midA) ++ B ++ C ++ post_) V1 (zlen (pre ++ midA)) (zlen pre + Z.of_nat (L + E) - 1);
     Ia0 ← (if sg then wr ((pre ++ midA) ++ B ++ C ++ post_) (zlen (pre ++ midA)) (-1) else mret ((pre ++ midA) ++ B ++ C ++ post_)); k (Ia0, V0)) =
    (r ← finish_group E ((pre ++ midA) ++ B ++ C ++ post_) V1 (zlen (pre ++ midA)) (zlen pre + Z.of_nat (L + E) - 1) sg; k r)).
  { intros k0. unfold finish_group. destruct (set_group _ _ _ _ _); cbn [mbind outcome_bind]; [|done..].
    by destruct (if sg then _ else _). }
  rewrite (Heq (λ '(Ia0, V0), if zlen pre + Z.of_nat (L + E) <? zlen pre + zlen us then
    split fuel Ia0 V0 (zlen pre + Z.of_nat (L + E)) (zlen pre + zlen us - (zlen pre + Z.of_nat (L + E))) h else mret (Ia0, V0))). clear Heq.
  apply wp_bind. eapply wp_mono; [apply finish_group_spec; [apply HreadyBC|apply HfarB|apply HfarB|done|rewrite length_app; lia|]|].
  { subst sg. rewrite HB, length_app, HlA, HA.
    destruct (Nat.eqb_spec E 1), (Z.eqb_spec (Z.of_nat (length pre + L)) (zlen pre + Z.of_nat (L + E) - 1)); done || lia. }
  intros [Ia2 V2] HsB. eapply splits_to_seq; [exact HreadyBC|exact HsB|]. cbn [fst snd]. intros midB HlB -> HreadyC.
  rewrite (app_assoc (pre ++ midA)).
  replace (zlen pre + Z.of_nat (L + E)) with (zlen ((pre ++ midA) ++ midB)) by (rewrite !length_app; lia).
  destruct (Z.ltb_spec (zlen ((pre ++ midA) ++ midB)) (zlen pre + zlen us)) as [Hlt|Hge].
  - replace (zlen pre + zlen us - zlen ((pre ++ midA) ++ midB)) with (zlen C) by (rewrite !length_app; lia).
    apply IH; [done|lia].
  - apply wp_ret. rewrite !length_app in Hge. destruct C; [apply splits_to_nil|simpl in HC; lia].
Qed.
End split.

(** ** The passes *)

(** The whole array: segments that hold each position of [0 .. n] once, sorted by [h] bytes. *)
Definition sort_inv (n h : Z) (Ia V : list Z) : Prop :=
  length Ia = length V ∧ zlen V = n + 1 ∧
  ∃ ss, segs_ok Ia V 0 ss ∧ elems_all ss ≡ₚ seqZ 0 (n + 1) ∧ segs_far n h ss.

(** In the middle of a pass: the segments before, a sorted part whose length is not yet
    written, and the segments behind. *)
Definition pass_inv (n h : Z) (Ia V : list Z) (i len : Z) (ss2 : list seg) : Prop :=
  length Ia = length V ∧ zlen V = n + 1 ∧ apart n h V ∧ segs_far n h ss2 ∧
  ∃ ss1 us, segs_ok Ia V 0 ss1 ∧ zlen (elems_all ss1) = i - len ∧ zlen us = len ∧
    (∀ j u, us !! j = Some u → at_ V u = Some (i - len + Z.of_nat j)) ∧ segs_ok Ia V i ss2 ∧
    elems_all ss1 ++ us ++ elems_all ss2 ≡ₚ seqZ 0 (n + 1) ∧ segs_far n (h + h) ss1.

Lemma seqZ_nodup_pos (l : list Z) n : l ≡ₚ seqZ 0 n → NoDup l ∧ Forall (λ u, 0 ≤ u < n) l.
Proof.
  intros Hp. split; [rewrite Hp; apply NoDup_seqZ|]. rewrite Hp. apply Forall_forall.
  intros u Hu%elem_of_seqZ. lia.
Qed.

(** Elements with the same rank are in one group. *)
Lemma same_rank Ia V p ss x y :
  segs_ok Ia V p ss → x ∈ elems_all ss → y ∈ elems_all ss → x ≠ y → at_ V x = at_ V y → ∃ us, Group us ∈ ss ∧ x ∈ us.
Proof.
  revert p. induction ss as [|s ss IH]; intros p; [by intros _ ?%not_elem_of_nil|].
  rewrite elems_all_cons. intros [Hs Hss] Hx Hy Hne Heq.
  assert (Hhead : ∀ u, u ∈ elems s → ∃ v, at_ V u = Some v ∧ p ≤ v < p + zlen (elems s)).
  { intros u Hu. destruct (segs_rank Ia V p [s] u) as (v & Hv & Hb); [by split|unfold elems_all; simpl; by rewrite app_nil_r|].
    exists v. split; [done|]. unfold elems_all in Hb. simpl in Hb. rewrite app_nil_r in Hb. done. }
  apply elem_of_app in Hx as [Hx|Hx], Hy as [Hy|Hy].
  - destruct s as [us|us]; [|exists us; split; [by left|done]]. exfalso. destruct Hs as [_ [_ Hs]]. simpl in *.
    apply list_elem_of_lookup in Hx as [j Hj], Hy as [j' Hj']. rewrite (Hs j x Hj), (Hs j' y Hj') in Heq.
    injection Heq as Heq. assert (j = j') as -> by lia. congruence.
  - exfalso. destruct (Hhead x Hx) as (v & Hv & Hb), (segs_rank _ _ _ _ _ Hss Hy) as (v' & Hv' & Hb'). rewrite Hv, Hv' in Heq. injection Heq. lia.
  - exfalso. destruct (Hhead y Hy) as (v & Hv & Hb), (segs_rank _ _ _ _ _ Hss Hx) as (v' & Hv' & Hb'). rewrite Hv, Hv' in Heq. injection Heq. lia.
  - destruct (IH _ Hss Hx Hy Hne Heq) as (us & Hus & ?). exists us. split; [by right|done].
Qed.
Lemma sort_inv_apart n h Ia V : sort_inv n h Ia V → apart n h V.
Proof.
  intros (Hl & HV & ss & Hs & Hp & Hfar) x y Hx Hxh Hy Hne Heq.
  destruct (same_rank Ia V 0 ss x y) as (us & Hus & Hin); [done|rewrite Hp; apply elem_of_seqZ; lia..|done|done|].
  pose proof (proj1 (Forall_forall _ _) Hfar _ Hus) as Hf. pose proof (proj1 (Forall_forall _ _) Hf x Hin) as Hx'. simpl in Hx'. lia.
Qed.

(** Writing the length of the sorted part. *)
Lemma close_run n h Ia V i len ss2 :
  pass_inv n h Ia V i len ss2 → ∃ Ia', (if negb (len =? 0) then wr Ia (i - len) (- len) else mret Ia) = Ret Ia' ∧
    pass_inv n h Ia' V i 0 ss2 ∧ (0 < len → at_ Ia' (i - len) = Some (- len)).
Proof.
  intros (Hl & HV & Hap & Hfar & ss1 & us & Hs1 & Hl1 & Hlu & Hus & Hs2 & Hp & Hfar1).
  destruct (Z.eqb_spec len 0) as [->|Hne]; cbn [negb].
  { exists Ia. split; [done|]. split; [|lia]. split; [done|]. split; [done|]. split; [done|]. split; [done|]. by exists ss1, us. }
  pose proof (Permutation_length Hp) as Hlen. rewrite !length_app, length_seqZ in Hlen.
  rewrite wr_in_bounds by lia. eexists. split; [done|].
  assert (Hfr : ∀ q, 0 ≤ q → q ≠ i - len → at_ (<[Z.to_nat (i - len) := - len]> Ia) q = at_ Ia q).
  { intros q Hq Hne'. unfold at_. rewrite list_lookup_insert_ne; [done|]. lia. }
  assert (Hat : at_ (<[Z.to_nat (i - len) := - len]> Ia) (i - len) = Some (- len)).
  { unfold at_. by rewrite list_lookup_insert_eq by lia. }
  split; [|done]. split; [by rewrite length_insert|]. split; [done|]. split; [done|]. split; [done|].
  exists (ss1 ++ [Run us]), []. assert (Hne' : us ≠ []) by (intros ->; simpl in Hlu; lia).
  assert (Hel : elems_all [Run us] = us) by (unfold elems_all; simpl; apply app_nil_r).
  split; [|split; [|split; [done|split; [done|split; [|split]]]]].
  - apply segs_ok_app. split; [|split; [split; [done|]|done]].
    + eapply segs_ok_frame; [exact Hs1| |done]. intros q Hq. apply Hfr; lia.
    + rewrite Hl1, Z.add_0_l. split; [|done]. by rewrite Hat, Hlu.
  - rewrite elems_all_app, Hel, length_app. lia.
  - eapply segs_ok_frame; [exact Hs2| |done]. intros q Hq. apply Hfr; lia.
  - rewrite elems_all_app, Hel, <- app_assoc. exact Hp.
  - apply Forall_app. split; [done|]. by constructor.
Qed.

Lemma cut_range (Ia us : list Z) p :
  0 ≤ p → p + zlen us ≤ zlen Ia → (∀ j u, us !! j = Some u → at_ Ia (p + Z.of_nat j) = Some u) →
  ∃ pre post_, Ia = pre ++ us ++ post_ ∧ zlen pre = p.
Proof.
  intros Hp Hl Hus. destruct (split_range Ia p (zlen us)) as (pre & mid & post_ & -> & Hpre & Hmid); [lia..|].
  exists pre, post_. split; [|done]. do 2 f_equal. apply list_eq_same_length with (length us); [done|lia|].
  intros j x y Hj Hx Hy. pose proof (Hus j y Hy) as Ha. rewrite at_mid in Ha by lia.
  replace (Z.to_nat (p + Z.of_nat j - zlen pre)) with j in Ha by lia. congruence.
Qed.

Lemma at_outside pre (mid mid' post_ : list Z) q :
  length mid = length mid' → ¬ (zlen pre ≤ q < zlen pre + zlen mid) → 0 ≤ q →
  at_ (pre ++ mid ++ post_) q = at_ (pre ++ mid' ++ post_) q.
Proof.
  intros Hl Hq Hq0. unfold at_. destruct (decide (q < zlen pre)).
  - by rewrite !lookup_app_l by lia.
  - rewrite !(lookup_app_r pre), !lookup_app_r by lia. by rewrite Hl.
Qed.

(** A group that comes next is split. *)
Lemma pass_group n h Ia V i gs ss2 fuel :
  0 < h → 0 ≤ i → pass_inv n h Ia V i 0 (Group gs :: ss2) → (length gs < fuel)%nat →
  wp (split fuel Ia V i (zlen gs) h) (λ '(Ia', V'), pass_inv n h Ia' V' (i + zlen gs) 0 ss2).
Proof.
  intros Hh Hi (Hl & HV & Hap & [Hfarg Hfar2]%Forall_cons & ss1 & us & Hs1 & Hl1 & Hlu & _ & [[Hne Hg] Hs2] & Hp & Hfar1) Hfuel. cbn [elems] in *.
  assert (us = []) as -> by (destruct us; [done|simpl in Hlu; lia]). rewrite elems_all_cons in Hp. cbn [elems app] in Hp.
  pose proof (Permutation_length Hp) as Hlen. rewrite !length_app, length_seqZ in Hlen.
  destruct (seqZ_nodup_pos _ _ Hp) as [Hnd Hpos].
  apply NoDup_app in Hnd as (_ & Hd1 & Hnd). apply NoDup_app in Hnd as (Hnd & Hd2 & _).
  rewrite !Forall_app in Hpos. destruct Hpos as (Hpos1 & Hposg & Hpos2).
  destruct (cut_range Ia gs i) as (pre & post_ & -> & <-); [done|lia| |].
  { intros j u Hj. by apply Hg. }
  assert (Hready : ready n h pre gs V).
  { split; [done|]. split; [done|]. split; [exact Hfarg|]. split; [done|]. intros x v Hx Hxh Hv Hb.
    assert (Hin : x ∈ elems_all ss1 ++ gs ++ elems_all ss2) by (rewrite Hp; apply elem_of_seqZ; lia).
    apply elem_of_app in Hin as [Hin|[Hin|Hin]%elem_of_app].
    - destruct (segs_rank _ _ _ _ _ Hs1 Hin) as (v' & Hv' & Hb'). rewrite Hv in Hv'. injection Hv' as <-. lia.
    - pose proof (proj1 (Forall_forall _ _) Hfarg x Hin) as Hx'. simpl in Hx'. lia.
    - destruct (segs_rank _ _ _ _ _ Hs2 Hin) as (v' & Hv' & Hb'). rewrite Hv in Hv'. injection Hv' as <-. lia. }
  eapply wp_mono; [by apply (split_spec n h Hh)|]. intros [Ia' V'] Hr.
  destruct (splits_to_apart n h pre gs post_ V _ Hready Hr) as (HV' & Hap' & _).
  destruct Hr as (mid & ss & HI & Hml & Hep & Hss & [HoL Ho] & Hfss).
  cbn [fst snd] in *. subst Ia'. rewrite !length_app in Hl.
  split; [rewrite !length_app; lia|]. split; [lia|]. split; [done|]. split; [done|]. exists (ss1 ++ ss), [].
  split; [|split; [|split; [done|split; [done|split; [|split]]]]].
  - apply segs_ok_app. split.
    + eapply segs_ok_frame; [exact Hs1| |].
      * intros q Hq. apply at_outside; lia.
      * intros u Hu. apply Ho; [|intros Hu'; eapply Hd1; [exact Hu|]; apply elem_of_app; by left].
        rewrite Forall_forall in Hpos1. apply Hpos1 in Hu. lia.
    + by rewrite Hl1, Z.sub_0_r.
  - rewrite elems_all_app, length_app, Hep. lia.
  - eapply segs_ok_frame; [exact Hs2| |].
    + intros q Hq. apply at_outside; lia.
    + intros u Hu. apply Ho; [|intros Hu'; by eapply Hd2].
      rewrite Forall_forall in Hpos2. apply Hpos2 in Hu. lia.
  - rewrite elems_all_app, Hep, <- app_assoc. exact Hp.
  - by apply Forall_app.
Qed.

(** A run that comes next is added to the sorted part. *)
Lemma pass_run n h Ia V i len gs ss2 :
  pass_inv n h Ia V i len (Run gs :: ss2) →
  at_ Ia i = Some (- zlen gs) ∧ 0 < zlen gs ∧ pass_inv n h Ia V (i + zlen gs) (len + zlen gs) ss2.
Proof.
  intros (Hl & HV & Hap & [_ Hfar]%Forall_cons & ss1 & us & Hs1 & Hl1 & Hlu & Hus & [[Hne [Hm Hgs]] Hs2] & Hp & Hfar1). cbn [elems] in *.
  split; [done|]. split; [destruct gs; [done|simpl; lia]|]. split; [done|]. split; [done|]. split; [done|]. split; [done|].
  exists ss1, (us ++ gs). rewrite elems_all_cons in Hp. cbn [elems] in Hp.
  split; [done|]. split; [lia|]. split; [rewrite length_app; lia|]. split; [|split; [done|split; [by rewrite <- !app_assoc|done]]].
  intros j u Hj. apply lookup_app_Some in Hj as [Hj|[Hj1 Hj]].
  - rewrite (Hus j u Hj). f_equal. lia.
  - rewrite (Hgs _ u Hj). f_equal. lia.
Qed.
Lemma pass_length n h Ia V i len ss2 : pass_inv n h Ia V i len ss2 → i + zlen (elems_all ss2) = n + 1 ∨ n < -1.
Proof.
  intros (_ & _ & _ & _ & ss1 & us & _ & Hl1 & Hlu & _ & _ & Hp & _).
  pose proof (Permutation_length Hp) as Hlen. rewrite !length_app, length_seqZ in Hlen. lia.
Qed.

Lemma sort_pass_spec fuel Ia V n h i len ss2 :
  0 < h → 0 ≤ n → 0 ≤ i → (Z.to_nat (n + 1 - i) < fuel)%nat → pass_inv n h Ia V i len ss2 →
  wp (sort_pass fuel Ia V n h i len) (λ '(Ia', V'), sort_inv n (h + h) Ia' V').
Proof.
  intros Hh Hn0. revert Ia V i len ss2. induction fuel as [|fuel IH]; intros Ia V i len ss2 Hi Hfuel Hinv; [lia|].
  cbn [sort_pass]. destruct (pass_length _ _ _ _ _ _ _ Hinv) as [Hlen|]; [|lia].
  destruct (Z.ltb_spec i (n + 1)) as [Hin|Hin]; cycle 1.
  { destruct (close_run _ _ _ _ _ _ _ Hinv) as (Ia' & -> & (Hl & HV & _ & _ & ss1 & us & Hs1 & Hl1 & Hlu & _ & Hs2 & Hp & Hfar1) & _).
    cbn [mbind outcome_bind]. apply wp_ret. split; [done|]. split; [done|]. exists ss1. split; [done|]. split; [|done].
    assert (us = []) as -> by (destruct us; [done|simpl in Hlu; lia]).
    assert (elems_all ss2 = []) as Hnil by (destruct (elems_all ss2); [done|simpl in Hlen; lia]).
    by rewrite Hnil, !app_nil_r in Hp. }
  destruct ss2 as [|s ss2]; [change (elems_all []) with (@nil Z) in Hlen; simpl in Hlen; lia|].
  destruct s as [gs|gs].
  - destruct (pass_run _ _ _ _ _ _ _ _ Hinv) as (Hat & Hpos & Hinv').
    assert (Hrd : rd Ia i = Ret (- zlen gs)) by by apply rd_Some. rewrite Hrd. cbn [mbind outcome_bind].
    destruct (Z.ltb_spec (- zlen gs) 0); [|lia].
    replace (i - - zlen gs) with (i + zlen gs) by lia. replace (len - - zlen gs) with (len + zlen gs) by lia.
    apply (IH _ _ _ _ ss2); [lia|lia|done].
  - destruct (close_run _ _ _ _ _ _ _ Hinv) as (Ia' & Hclose & Hinv' & _).
    pose proof Hinv as (Hl & HV & _ & [Hfarg _]%Forall_cons & ss1 & us & _ & _ & _ & _ & [[Hne Hs] _] & _ & _). cbn [elems] in *.
    destruct gs as [|g0 gs']; [done|]. destruct (Hs 0%nat g0 eq_refl) as [Hg0 Hv0]. rewrite Z.add_0_r in Hg0.
    assert (Hrd : rd Ia i = Ret g0) by by apply rd_Some. rewrite Hrd. cbn [mbind outcome_bind].
    pose proof (Forall_inv Hfarg) as Hgpos. simpl in Hgpos.
    destruct (Z.ltb_spec g0 0); [lia|]. rewrite Hclose. cbn [mbind outcome_bind].
    assert (Hrv : rd V g0 = Ret (i + zlen (g0 :: gs') - 1)) by (apply rd_Some; split; [lia|exact Hv0]). rewrite Hrv. cbn [mbind outcome_bind]. cbv zeta.
    replace (i + zlen (g0 :: gs') - 1 + 1 - i) with (zlen (g0 :: gs')) by lia.
    apply wp_bind. eapply wp_mono; [apply (pass_group n h Ia' V i (g0 :: gs') ss2); [done|done|done|lia]|].
    intros [Ia2 V2] Hinv2. apply (IH _ _ _ _ ss2); [lia|simpl; lia|done].
Qed.

(** When there are only runs, a pass makes one of them. *)
Definition is_run (s : seg) : Prop := match s with Run _ => True | Group _ => False end.
Lemma sort_pass_runs fuel Ia V n h i ss2 :
  0 ≤ n → 0 ≤ i → pass_inv n h Ia V i i ss2 → Forall is_run ss2 →
  post (sort_pass fuel Ia V n h i i) (λ '(Ia', _), at_ Ia' 0 = Some (- (n + 1))).
Proof.
  intros Hn0. revert i ss2. induction fuel as [|fuel IH]; intros i ss2 Hi Hinv Hruns; [auto with c_model|].
  cbn [sort_pass]. destruct (pass_length _ _ _ _ _ _ _ Hinv) as [Hlen|]; [|lia].
  destruct (Z.ltb_spec i (n + 1)) as [Hin|Hin]; cycle 1.
  { destruct (close_run _ _ _ _ _ _ _ Hinv) as (Ia' & -> & _ & Hat). apply post_ret.
    assert (i = n + 1) as -> by lia. rewrite Z.sub_diag in Hat. by apply Hat; lia. }
  destruct Hruns as [|[gs|gs] ss2 Hrun Hruns]; [change (elems_all []) with (@nil Z) in Hlen; simpl in Hlen; lia| |done].
  destruct (pass_run _ _ _ _ _ _ _ _ Hinv) as (Hat & Hpos & Hinv').
  assert (Hrd : rd Ia i = Ret (- zlen gs)) by by apply rd_Some. rewrite Hrd. cbn [mbind outcome_bind].
  destruct (Z.ltb_spec (- zlen gs) 0); [|lia].
  replace (i - - zlen gs) with (i + zlen gs) by lia. by apply (IH _ ss2); [lia| |].
Qed.

(** The passes end: after each one the groups agree on twice as many bytes, and there are no more
    groups when these are more than the file has. Without enough fuel they are cut off. *)
Lemma sort_passes_spec fuel Ia V n h :
  0 < h → 0 ≤ n → sort_inv n h Ia V →
  (sort_passes fuel Ia V n h = Diverge ∧ Z.of_nat fuel < Z.max 2 (n + 4 - h)) ∨
  ∃ Ia' V' h', sort_passes fuel Ia V n h = Ret (Ia', V') ∧ sort_inv n h' Ia' V' ∧ at_ Ia' 0 = Some (- (n + 1)).
Proof.
  intros Hh Hn. revert Ia V h Hh. induction fuel as [|fuel IH]; intros Ia V h Hh Hinv; cbn [sort_passes]; [left; split; [done|lia]|].
  pose proof Hinv as (Hl & HV & ss & Hs & Hp & Hfar).
  destruct (rd_in_bounds Ia 0 ltac:(lia)) as [a Ha]. rewrite Ha. cbn [mbind outcome_bind].
  destruct (Z.eqb_spec a (- (n + 1))) as [->|].
  { right. exists Ia, V, h. split; [done|]. split; [done|]. by apply rd_Some in Ha as [_ ?]. }
  assert (Hpass : pass_inv n h Ia V 0 0 ss).
  { split; [done|]. split; [done|]. split; [by eapply sort_inv_apart|]. split; [done|]. exists [], [].
    repeat (split; [done|]). constructor. }
  destruct (wp_Ret_inv _ _ (sort_pass_spec (Z.to_nat n + 2) Ia V n h 0 0 ss Hh Hn ltac:(lia) ltac:(lia) Hpass)) as ([Ia1 V1] & Hrun & Hinv1).
  rewrite Hrun. cbn [mbind outcome_bind].
  destruct (IH Ia1 V1 (h + h) ltac:(lia) Hinv1) as [[Hdiv Hfuel]|Hret]; [|by right]. left. split; [done|].
  destruct (decide (h ≤ n)); [lia|].
  assert (Hruns : Forall is_run ss).
  { apply Forall_forall. intros [us|us] Hin; [done|]. pose proof (proj1 (Forall_forall _ _) Hfar _ Hin) as Hf.
    assert (us ≠ []) as Hne.
    { clear -Hs Hin. revert Hs. generalize 0. induction ss as [|s ss IH]; [by apply not_elem_of_nil in Hin|]. intros p [[Hne _] Hss].
      apply elem_of_cons in Hin as [<-|Hin]; [done|by eapply IH]. }
    destruct us as [|u us]; [done|]. pose proof (Forall_inv Hf) as Hu. simpl in Hu. lia. }
  pose proof (sort_pass_runs (Z.to_nat n + 2) Ia V n h 0 ss Hn ltac:(lia) Hpass Hruns _ Hrun) as H0. cbn beta iota in H0.
  destruct fuel as [|fuel]; [lia|]. exfalso. cbn [sort_passes] in Hdiv.
  assert (Hrd : rd Ia1 0 = Ret (- (n + 1))) by by apply rd_Some. rewrite Hrd in Hdiv. cbn [mbind outcome_bind] in Hdiv.
  by rewrite Z.eqb_refl in Hdiv.
Qed.

(** When one run is left, the ranks are the inverse of the order. *)
Lemma one_run n h Ia V :
  0 ≤ n → sort_inv n h Ia V → at_ Ia 0 = Some (- (n + 1)) →
  ∃ us, us ≡ₚ seqZ 0 (n + 1) ∧ ∀ j u, us !! j = Some u → at_ V u = Some (Z.of_nat j).
Proof.
  intros Hn (Hl & HV & ss & Hs & Hp & _) H0. pose proof (Permutation_length Hp) as Hlen. rewrite length_seqZ in Hlen.
  destruct (seqZ_nodup_pos _ _ Hp) as [_ Hpos].
  destruct ss as [|s ss]; [unfold elems_all in Hlen; simpl in Hlen; lia|]. rewrite elems_all_cons in *.
  destruct Hs as [[Hne Hs] Hss]. destruct s as [us|us]; cbn [elems] in *; rewrite length_app in Hlen.
  - destruct Hs as [Hm Hus]. assert (zlen us = n + 1) by (rewrite H0 in Hm; injection Hm; lia).
    assert (elems_all ss = []) as Hnil by (destruct (elems_all ss); [done|simpl in Hlen; lia]).
    rewrite Hnil, app_nil_r in Hp. exists us. split; [done|]. intros j u Hj. apply (Hus j u Hj).
  - destruct us as [|u us]; [done|]. destruct (Hs 0%nat u eq_refl) as [Hu _].
    change (at_ Ia 0 = Some u) in Hu. rewrite H0 in Hu.
    injection Hu as Hu. inversion Hpos; subst. lia.
Qed.

Lemma invert_spec l i Ia :
  NoDup l → Forall (λ v, 0 ≤ v < zlen Ia) l → wp (invert l i Ia) (λ r, length r = length Ia ∧
    (∀ p, 0 ≤ p → p ∉ l → at_ r p = at_ Ia p) ∧ ∀ k v, l !! k = Some v → at_ r v = Some (i + Z.of_nat k)).
Proof.
  revert i Ia. induction l as [|v l IH]; intros i Ia Hnd Hbs; cbn [invert].
  { apply wp_ret. by split; [|split]. }
  apply NoDup_cons in Hnd as [Hv Hnd]. apply Forall_cons in Hbs as [Hb Hbs]. rewrite wr_in_bounds by done. cbn [mbind outcome_bind].
  eapply wp_mono; [apply IH; [done|by rewrite length_insert]|]. intros r (Hl & Ho & Hk). rewrite length_insert in Hl. split; [done|].
  assert (Hne : ∀ p, 0 ≤ p → p ≠ v → at_ (<[Z.to_nat v := i]> Ia) p = at_ Ia p).
  { intros p Hp Hpv. unfold at_. rewrite list_lookup_insert_ne; [done|lia]. }
  split.
  - intros p Hp Hni. rewrite elem_of_cons in Hni. rewrite Ho by tauto. apply Hne; tauto.
  - intros [|k] w Hw; simpl in Hw.
    + injection Hw as <-. rewrite Ho by (done || lia). unfold at_. rewrite list_lookup_insert_eq by lia. f_equal. lia.
    + rewrite (Hk k w Hw). f_equal. lia.
Qed.

Lemma invert_order n us V Ia :
  us ≡ₚ seqZ 0 (n + 1) → 0 ≤ n → zlen V = n + 1 → length Ia = length V →
  (∀ j u, us !! j = Some u → at_ V u = Some (Z.of_nat j)) →
  wp (invert V 0 Ia) (λ r, r = us).
Proof.
  intros Hp Hn HV Hl Hus. destruct (seqZ_nodup_pos _ _ Hp) as [_ Hpos].
  assert (Hlu : zlen us = n + 1) by (rewrite Hp, length_seqZ; lia).
  assert (Hinv : ∀ a v, V !! a = Some v → ∃ j, v = Z.of_nat j ∧ us !! j = Some (Z.of_nat a)).
  { intros a v Ha. pose proof (lookup_lt_Some _ _ _ Ha).
    assert (Hin : Z.of_nat a ∈ us) by (rewrite Hp; apply elem_of_seqZ; lia).
    apply list_elem_of_lookup in Hin as [j Hj]. exists j. split; [|done].
    pose proof (Hus j _ Hj) as Hv. unfold at_ in Hv. rewrite Nat2Z.id, Ha in Hv. by injection Hv. }
  assert (Hnd : NoDup V).
  { apply NoDup_alt. intros a b v Ha Hb. destruct (Hinv a v Ha) as (j & -> & Hj).
    destruct (Hinv b _ Hb) as (j' & Hjj & Hj'). assert (j' = j) as -> by lia. rewrite Hj in Hj'. injection Hj'. lia. }
  eapply wp_mono; [apply invert_spec; [done|]|].
  { apply Forall_lookup. intros a v Ha. destruct (Hinv a v Ha) as (j & -> & Hj). apply lookup_lt_Some in Hj. lia. }
  intros r (Hrl & _ & Hk). apply list_eq_same_length with (length us); [done|lia|]. intros j x y Hj Hx Hy.
  rewrite Forall_forall in Hpos. assert (0 ≤ y) by (apply list_elem_of_lookup_2, Hpos in Hy; lia).
  pose proof (Hus j y Hy) as Hv. unfold at_ in Hv, Hk. specialize (Hk _ _ Hv).
  rewrite Nat2Z.id, Hx in Hk. injection Hk. lia.
Qed.

(** ** The buckets *)
Section init.
Context (old : list Z).
Hypothesis old_bytes : bytes_ok old.
Abbreviation n := (zlen old).

(** The positions below [i] with the byte [c], in order, and the first position of the
    bucket of [c]. *)
Definition has_byte (c : nat) (u : Z) : Prop := at_ old u = Some (Z.of_nat c).
#[global] Instance has_byte_dec c u : Decision (has_byte c u).
Proof. unfold has_byte. apply _. Defined.
Definition ind (i : Z) (c : nat) : list Z := filter (has_byte c) (seqZ 0 i).
Fixpoint start (c : nat) : Z :=
  match c with O => 0 | S c => start c + count_bytes old (Z.of_nat c) end.

Lemma start_mono c c' : (c ≤ c')%nat → start c ≤ start c'.
Proof. induction 1; simpl; [lia|]. unfold count_bytes. lia. Qed.

Lemma lookup_cumulate l s k : (k < length l)%nat → cumulate l s !! k = Some (s + foldr Z.add 0 (take (S k) l)).
Proof.
  revert s k. induction l as [|x l IH]; intros s [|k] Hk; simpl in *; try lia.
  - f_equal. lia.
  - rewrite IH by lia. f_equal. simpl. lia.
Qed.
Lemma sum_start k : foldr Z.add 0 ((λ b, count_bytes old (Z.of_nat b)) <$> seq 0 k) = start k.
Proof.
  induction k as [|k IH]; [done|]. rewrite seq_S, fmap_app, foldr_app. simpl. rewrite <- IH.
  generalize (count_bytes old (Z.of_nat k)). clear. induction ((λ b, count_bytes old (Z.of_nat b)) <$> seq 0 k); intros; simpl; [lia|].
  rewrite IHl. lia.
Qed.
Lemma length_cumulate l s : length (cumulate l s) = length l.
Proof. revert s. induction l; intros; simpl; auto. Qed.
Lemma lookup_bucket_starts c : (c < 256)%nat → bucket_starts old !! c = Some (start c).
Proof.
  intros Hc. unfold bucket_starts. set (cs := (λ b, count_bytes old (Z.of_nat b)) <$> seq 0 256).
  assert (Hlen : length cs = 256%nat) by by subst cs; rewrite length_fmap, length_seq.
  destruct c as [|c]; [done|]. change (take 255 (cumulate cs 0) !! c = Some (start (S c))).
  rewrite lookup_take_lt by lia. rewrite lookup_cumulate by lia. f_equal. subst cs.
  rewrite <- fmap_take, take_seq, Nat.min_l by lia. by rewrite sum_start.
Qed.
Lemma length_bucket_starts : length (bucket_starts old) = 256%nat.
Proof.
  unfold bucket_starts. cbn [length]. by rewrite length_take, length_cumulate, length_fmap, length_seq.
Qed.

Lemma ind_snoc i c : 0 ≤ i → ind (i + 1) c = ind i c ++ (if decide (has_byte c i) then [i] else []).
Proof.
  intros Hi. unfold ind. rewrite <- (Z2Nat.id i Hi) at 1. replace (Z.of_nat (Z.to_nat i) + 1) with (Z.of_nat (S (Z.to_nat i))) by lia.
  by rewrite seqZ_S, (Z2Nat.id i Hi), filter_app, Z.add_0_l.
Qed.
Lemma length_ind i c : (i ≤ length old)%nat → length (ind (Z.of_nat i) c) = length (filter (λ b, b = Z.of_nat c) (take i old)).
Proof.
  induction i as [|i IH]; intros Hi; [done|]. destruct (lookup_lt_is_Some_2 old i ltac:(lia)) as [b Hb].
  rewrite (take_S_r _ _ b Hb), filter_app, length_app, <- IH by lia.
  replace (Z.of_nat (S i)) with (Z.of_nat i + 1) by lia. rewrite ind_snoc, length_app by lia. f_equal.
  assert (Hh : has_byte c (Z.of_nat i) ↔ b = Z.of_nat c).
  { unfold has_byte, at_. rewrite (Nat2Z.id i), Hb. split; congruence. }
  rewrite filter_cons. repeat case_decide; try tauto; done.
Qed.
Lemma length_ind_all c : zlen (ind n c) = count_bytes old (Z.of_nat c).
Proof. rewrite length_ind by done. by rewrite firstn_all. Qed.
Lemma length_ind_le i c : (i ≤ length old)%nat → zlen (ind (Z.of_nat i) c) ≤ count_bytes old (Z.of_nat c).
Proof.
  intros Hi. rewrite length_ind by done. unfold count_bytes. rewrite <- (take_drop i old) at 2.
  rewrite filter_app, length_app. lia.
Qed.

Lemma start_total c : start c ≤ n.
Proof.
  assert (Hc : start c = zlen (filter (λ b, 0 ≤ b < Z.of_nat c) old)).
  { induction c as [|c IH]; [rewrite filter_none; [done|]; simpl; intros x _; lia|]. cbn [start]. rewrite IH. unfold count_bytes.
    rewrite <- Nat2Z.inj_add, <- length_app. f_equal. apply Permutation_length. clear. induction old as [|b l IH]; [done|].
    rewrite !filter_cons. repeat case_decide; try lia; simpl; rewrite <- IH; [done|by rewrite Permutation_middle|done]. }
  rewrite Hc. pose proof (length_filter (λ b, 0 ≤ b < Z.of_nat c) old). lia.
Qed.

(** What filling the buckets keeps. *)
Definition filled (i : nat) (Ia buckets : list Z) : Prop :=
  length Ia = S (length old) ∧ length buckets = 256%nat ∧
  (∀ c, (c < 256)%nat → buckets !! c = Some (start c + zlen (ind (Z.of_nat i) c))) ∧
  ∀ c j u, (c < 256)%nat → ind (Z.of_nat i) c !! j = Some u → at_ Ia (start c + 1 + Z.of_nat j) = Some u.

Lemma fill_spec l i Ia buckets :
  drop i old = l → filled i Ia buckets →
  wp (fill_buckets l (Z.of_nat i) Ia buckets) (λ '(Ia', b'), filled (length old) Ia' b').
Proof.
  revert i Ia buckets. induction l as [|x l IH]; intros i Ia buckets Hd Hf; cbn [fill_buckets].
  { apply wp_ret. assert (length old ≤ i)%nat as Hi.
    { assert (length (drop i old) = O) as Hz by (by rewrite Hd). rewrite length_drop in Hz. lia. }
    destruct Hf as (H1 & H2 & H3 & H4).
    assert (Hsame : ∀ c, ind (Z.of_nat i) c = ind n c).
    { intros c. replace (Z.of_nat i) with (n + Z.of_nat (i - length old)) by lia.
      generalize (i - length old)%nat. intros k. induction k as [|k IHk]; [by rewrite Z.add_0_r|].
      replace (n + Z.of_nat (S k)) with (n + Z.of_nat k + 1) by lia. rewrite ind_snoc, IHk by lia.
      case_decide as Hh; [|by rewrite app_nil_r]. unfold has_byte, at_ in Hh. by rewrite lookup_ge_None_2 in Hh by lia. }
    split; [done|]. split; [done|]. split; intros c; setoid_rewrite <- Hsame; auto. }
  assert (Hi : old !! i = Some x) by (rewrite <- (Nat.add_0_r i), <- lookup_drop, Hd; done).
  assert (Hx : 0 ≤ x < 256) by (exact (Forall_lookup_1 _ _ _ _ old_bytes Hi)).
  pose proof (lookup_lt_Some _ _ _ Hi) as Hil.
  destruct Hf as (HlI & Hlb & Hb & HI). rewrite rd_lookup, Hb by lia. cbn [of_option mbind outcome_bind].
  rewrite (wr_in_bounds buckets) by lia. cbn [mbind outcome_bind].
  set (c0 := Z.to_nat x) in *. assert (Hc0 : has_byte c0 (Z.of_nat i)).
  { unfold has_byte, at_. rewrite Nat2Z.id, Hi. f_equal. subst c0. lia. }
  assert (Hind : ∀ c, ind (Z.of_nat (S i)) c = ind (Z.of_nat i) c ++ (if decide (c = c0) then [Z.of_nat i] else [])).
  { intros c. replace (Z.of_nat (S i)) with (Z.of_nat i + 1) by lia. rewrite ind_snoc by lia. f_equal.
    assert (Hh : has_byte c (Z.of_nat i) ↔ c = c0).
    { split; [|by intros ->]. unfold has_byte in *. rewrite Hc0. intros [= Heq]. lia. }
    repeat case_decide; tauto || done. }
  pose proof (length_ind_le (S i) c0 ltac:(lia)) as Hnext. rewrite Hind, decide_True, length_app in Hnext by done. cbn [length] in Hnext.
  pose proof (start_total (S c0)) as Htotal. cbn [start] in Htotal.
  pose proof (start_mono 0 c0 ltac:(lia)) as Hs1. change (start 0) with 0 in Hs1.
  rewrite wr_in_bounds by lia. cbn [mbind outcome_bind]. replace (Z.of_nat i + 1) with (Z.of_nat (S i)) by lia.
  apply (IH (S i)).
  { replace (S i) with (i + 1)%nat by lia. by rewrite <- drop_drop, Hd. }
  split; [by rewrite length_insert|]. split; [by rewrite length_insert|]. split.
  - intros c Hc. rewrite Hind. destruct (decide (c = c0)) as [->|Hne].
    + rewrite list_lookup_insert_eq by (subst c0; lia). rewrite length_app. simpl. f_equal. lia.
    + rewrite list_lookup_insert_ne by (subst c0; lia). by rewrite app_nil_r, Hb.
  - intros c j u Hc Hj. rewrite Hind in Hj.
    assert (Hnew : c = c0 → j = length (ind (Z.of_nat i) c) → u = Z.of_nat i →
      at_ (<[Z.to_nat (start c0 + zlen (ind (Z.of_nat i) c0) + 1) := Z.of_nat i]> Ia) (start c + 1 + Z.of_nat j) = Some u).
    { intros -> -> ->. unfold at_. replace (start c0 + 1 + zlen (ind (Z.of_nat i) c0)) with (start c0 + zlen (ind (Z.of_nat i) c0) + 1) by lia.
      rewrite list_lookup_insert_eq by lia. done. }
    apply lookup_app_Some in Hj as [Hj|[Hj1 Hj]]; cycle 1.
    { destruct (decide (c = c0)) as [->|]; [|done]. apply list_lookup_singleton_Some in Hj as [Hj0 <-].
      apply Hnew; [done|lia|done]. }
    pose proof (lookup_lt_Some _ _ _ Hj) as Hjl. unfold at_. rewrite list_lookup_insert_ne; [by apply HI|].
    pose proof (length_ind_le i c ltac:(lia)).
    pose proof (start_mono 0 c ltac:(lia)) as Hs0. change (start 0) with 0 in Hs0.
    destruct (Nat.lt_trichotomy c c0) as [Hlt|[Heq|Hlt]]; [|rewrite Heq in *; lia|].
    + pose proof (start_mono (S c) c0 ltac:(lia)) as Hm. cbn [start] in Hm. lia.
    + pose proof (start_mono (S c0) c ltac:(lia)) as Hm. cbn [start] in Hm. lia.
Qed.

Lemma first_ranks_spec l buckets :
  length buckets = 256%nat → Forall (λ b, 0 ≤ b < 256) l → wp (first_ranks l buckets) (λ r, length r = length l ∧
    ∀ u x, l !! u = Some x → ∀ v, buckets !! Z.to_nat x = Some v → r !! u = Some v).
Proof.
  intros Hlb. induction 1 as [|x l Hx Hl IH]; cbn [first_ranks]; [by apply wp_ret|].
  destruct (rd_in_bounds buckets x ltac:(lia)) as [b Hb]. rewrite Hb. cbn [mbind outcome_bind]. apply wp_bind.
  eapply wp_mono; [exact IH|]. intros r [Hlen Hk]. apply wp_ret. apply rd_Some in Hb as [_ E]. split; [simpl; by rewrite Hlen|].
  intros [|u] y Hy v Hv; simpl in *; [|by eapply Hk]. injection Hy as <-. congruence.
Qed.

Definition single (c : nat) : Prop := (0 < c)%nat ∧ count_bytes old (Z.of_nat c) = 1.
Lemma mark_single_spec m c Ia buckets :
  (0 < c)%nat → (c + m ≤ 256)%nat → (∀ c, (c < 256)%nat → buckets !! c = Some (start (S c))) → length Ia = S (length old) →
  wp (mark_single m (Z.of_nat c) Ia buckets) (λ Ia', length Ia' = length Ia ∧
    (∀ c', (c ≤ c' < c + m)%nat → single c' → at_ Ia' (start c' + 1) = Some (-1)) ∧
    (∀ q, 0 ≤ q → (∀ c', single c' → q ≠ start c' + 1) → at_ Ia' q = at_ Ia q) ∧
    ∀ q, 0 ≤ q → at_ Ia q = Some (-1) → at_ Ia' q = Some (-1)).
Proof.
  intros Hc0 Hm Hb. revert c Ia Hc0 Hm. induction m as [|m IH]; intros c Ia Hc0 Hm HlI; cbn [mark_single].
  { apply wp_ret. split; [done|]. split; [intros c' Hc'; lia|done]. }
  rewrite !rd_lookup by lia. replace (Z.to_nat (Z.of_nat c - 1)) with (c - 1)%nat by lia.
  rewrite Hb by lia. rewrite Nat2Z.id, Hb by lia. cbn [of_option mbind outcome_bind]. cbn [start].
  assert (Hst : start (c - 1) + count_bytes old (Z.of_nat (c - 1)) = start c).
  { destruct c; [lia|]. cbn [start]. by rewrite Nat.sub_succ, Nat.sub_0_r. }
  rewrite Hst. pose proof (start_mono 0 c ltac:(lia)) as Hs. change (start 0) with 0 in Hs.
  pose proof (start_total (S c)) as Htotal. cbn [start] in Htotal. assert (0 ≤ count_bytes old (Z.of_nat c)) by (unfold count_bytes; lia).
  set (m1 := if _ =? _ then _ else _). assert (∃ Ia1, m1 = Ret Ia1 ∧ length Ia1 = length Ia) as (Ia1 & E & HlI1).
  { subst m1. destruct (_ =? _); [rewrite wr_in_bounds by lia|]; (eexists; split; [done|]); [apply length_insert|done]. }
  rewrite E. cbn [mbind outcome_bind]. subst m1.
  replace (Z.of_nat c + 1) with (Z.of_nat (S c)) by lia. eapply wp_mono; [apply (IH (S c) Ia1); [lia|lia|congruence]|].
  intros Ia' (Hl & H1 & H2 & H3).
  destruct (Z.eqb_spec (start c + count_bytes old (Z.of_nat c)) (start c + 1)) as [Hone|Hno]; cycle 1.
  { unfold mret, outcome_ret in E. injection E as <-. split; [done|]. split; [|done]. intros c' Hc' Hsg. destruct (decide (c' = c)) as [->|].
    - destruct Hsg. lia.
    - apply H1; [lia|done]. }
  apply wr_Ret_inv in E as [Hbd ->]. rewrite length_insert in Hl. split; [done|].
  assert (Hself : at_ (<[Z.to_nat (start c + count_bytes old (Z.of_nat c)) := -1]> Ia) (start c + 1) = Some (-1)).
  { unfold at_. rewrite Hone, list_lookup_insert_eq by lia. done. }
  split; [|split].
  - intros c' Hc' Hsg. destruct (decide (c' = c)) as [->|]; [apply H3; [lia|done]|apply H1; [lia|done]].
  - intros q Hq Hne. rewrite H2 by done. unfold at_. rewrite list_lookup_insert_ne; [done|].
    pose proof (Hne c ltac:(split; [done|lia])). lia.
  - intros q Hq Hold. apply H3; [done|]. destruct (decide (q = start c + 1)) as [->|]; [done|].
    unfold at_. rewrite list_lookup_insert_ne by lia. done.
Qed.

(** The segments of the buckets from [c] on. *)
Definition bucket_seg (c : nat) : list seg :=
  match ind n c with
  | [] => []
  | us => if decide ((0 < c)%nat ∧ length us = 1%nat) then [Run us] else [Group us]
  end.
Lemma elems_bucket_seg c : elems_all (bucket_seg c) = ind n c.
Proof.
  unfold bucket_seg. destruct (ind n c); [done|]. case_decide; unfold elems_all; simpl; by rewrite app_nil_r.
Qed.

Lemma bucket_segs_ok Ia V m c :
  (∀ c u, (c < 256)%nat → u ∈ ind n c → at_ V u = Some (start (S c))) →
  (∀ c, (c < 256)%nat → single c → at_ Ia (start c + 1) = Some (-1)) →
  (∀ c j u, (c < 256)%nat → ¬ single c → ind n c !! j = Some u → at_ Ia (start c + 1 + Z.of_nat j) = Some u) →
  (c + m ≤ 256)%nat → segs_ok Ia V (start c + 1) (concat (bucket_seg <$> seq c m)).
Proof.
  intros HV Hm HI. revert c. induction m as [|m IH]; intros c Hc; [done|]. cbn [seq fmap list_fmap concat].
  apply segs_ok_app. rewrite elems_bucket_seg, length_ind_all. split.
  - pose proof (length_ind_all c) as Hlen. unfold bucket_seg. destruct (ind n c) as [|u us] eqn:Hind; [done|].
    case_decide as Hs.
    + split; [|done]. split; [done|]. assert (single c) as Hsg by (split; [tauto|lia]).
      destruct us; [|simpl in Hs; lia]. split; [by apply Hm; [lia|]|].
      intros j w Hj. apply list_lookup_singleton_Some in Hj as [-> <-].
      rewrite (HV c); [|lia|rewrite Hind; by left]. cbn [start]. destruct Hsg as [_ ->]. f_equal. lia.
    + split; [|done]. split; [done|]. intros j w Hj. rewrite <- Hind in Hj. split.
      * apply HI; [lia| |done]. intros [? Hone]. apply Hs. split; [done|lia].
      * rewrite (HV c) by (lia || by eapply list_elem_of_lookup_2). cbn [start]. f_equal. lia.
  - replace (start c + 1 + count_bytes old (Z.of_nat c)) with (start (S c) + 1) by (cbn [start]; lia). apply IH. lia.
Qed.

Lemma filter_split (f : Z → nat) k l :
  filter (λ u, f u < S k)%nat l ≡ₚ filter (λ u, f u < k)%nat l ++ filter (λ u, f u = k) l.
Proof.
  induction l as [|u l IH]; [done|]. rewrite !filter_cons.
  repeat case_decide; try lia; simpl; rewrite IH; [done|by rewrite Permutation_middle|done].
Qed.
Lemma classes_perm (f : Z → nat) k l :
  concat ((λ c, filter (λ u, f u = c) l) <$> seq 0 k) ≡ₚ filter (λ u, f u < k)%nat l.
Proof.
  induction k as [|k IH]; [by rewrite (filter_none _ l) by lia|].
  rewrite seq_S, fmap_app, concat_app, IH, filter_split. simpl. by rewrite app_nil_r.
Qed.

Lemma buckets_perm : n :: concat (ind n <$> seq 0 256) ≡ₚ seqZ 0 (n + 1).
Proof.
  set (f := λ u, Z.to_nat (default 0 (at_ old u))).
  assert (Hf : ∀ u, u ∈ seqZ 0 n → ∃ x, at_ old u = Some x ∧ 0 ≤ x < 256).
  { intros u Hu%elem_of_seqZ. unfold at_. destruct (lookup_lt_is_Some_2 old (Z.to_nat u) ltac:(lia)) as [x Hx].
    exists x. split; [done|]. exact (Forall_lookup_1 _ _ _ _ old_bytes Hx). }
  assert (Hind : ∀ c, ind n c = filter (λ u, f u = c) (seqZ 0 n)).
  { intros c. unfold ind. apply filter_iff_in. intros u Hu. destruct (Hf u Hu) as (x & Hx & Hb).
    unfold has_byte, f. rewrite Hx. cbn [from_option id]. split; [intros [= ->]; lia|intros <-; f_equal; lia]. }
  assert (Hall : concat (ind n <$> seq 0 256) ≡ₚ seqZ 0 n).
  { assert (ind n <$> seq 0 256 = (λ c, filter (λ u, f u = c) (seqZ 0 n)) <$> seq 0 256) as ->.
    { apply list_fmap_ext. intros i c _. apply Hind. }
    rewrite classes_perm. rewrite (filter_all_in _ (seqZ 0 n)); [done|].
    intros u Hu. destruct (Hf u Hu) as (x & Hx & Hb). unfold f. rewrite Hx. simpl. lia. }
  rewrite Hall. replace (n + 1) with (Z.of_nat (S (length old))) by lia. rewrite seqZ_S, Z.add_0_l.
  apply Permutation_cons_append.
Qed.

(** The state in which the passes begin. *)
Lemma init_inv Ia V :
  length Ia = S (length old) → zlen V = n + 1 →
  at_ V n = Some 0 → (∀ c u, (c < 256)%nat → u ∈ ind n c → at_ V u = Some (start (S c))) →
  at_ Ia 0 = Some (-1) →
  (∀ c, (c < 256)%nat → single c → at_ Ia (start c + 1) = Some (-1)) →
  (∀ c j u, (c < 256)%nat → ¬ single c → ind n c !! j = Some u → at_ Ia (start c + 1 + Z.of_nat j) = Some u) →
  sort_inv n 1 Ia V.
Proof.
  intros HlI HlV HVn HV HI0 Hm HI. split; [lia|]. split; [done|].
  exists (Run [n] :: concat (bucket_seg <$> seq 0 256)). split; [|split].
  - split; [split; [done|]|].
    + split; [done|]. intros j u Hj. by apply list_lookup_singleton_Some in Hj as [-> <-].
    + by apply (bucket_segs_ok Ia V 256 0).
  - rewrite elems_all_cons. assert (elems_all (concat (bucket_seg <$> seq 0 256)) = concat (ind n <$> seq 0 256)) as ->.
    { generalize (seq 0 256). induction l as [|c l IH]; [done|]. cbn [fmap list_fmap concat].
      by rewrite elems_all_app, elems_bucket_seg, IH. }
    apply buckets_perm.
  - constructor; [done|]. apply Forall_concat, Forall_fmap, Forall_forall. intros c _. cbn.
    assert (Hfar : far n 1 (ind n c)).
    { apply Forall_forall. intros u [_ Hu%elem_of_seqZ]%list_elem_of_filter. lia. }
    unfold bucket_seg. destruct (ind n c); [constructor|]. by case_decide; constructor.
Qed.

(** The sort ends: with fuel for as many passes as the file has bytes, it returns the positions in some order. *)
Lemma qsufsort_spec fuel :
  (qsufsort fuel old = Diverge ∧ (fuel < length old + 3)%nat) ∨
  ∃ Ia, qsufsort fuel old = Ret Ia ∧ Ia ≡ₚ seqZ 0 (n + 1).
Proof.
  unfold qsufsort.
  destruct (wp_Ret_inv _ _ (fill_spec old 0 (replicate (S (length old)) 0) (bucket_starts old) ltac:(by rewrite drop_0) ltac:(
    split; [by rewrite length_replicate|]; split; [apply length_bucket_starts|]; split; [|done];
    intros c Hc; rewrite lookup_bucket_starts by done; f_equal; change (ind (Z.of_nat 0) c) with (@nil Z); simpl; lia)))
    as ([Ia b] & Hfill & HlI & Hlb & Hb & HI).
  change (Z.of_nat 0) with 0 in Hfill. rewrite Hfill. cbn [mbind outcome_bind].
  assert (Hb' : ∀ c, (c < 256)%nat → b !! c = Some (start (S c))).
  { intros c Hc. rewrite Hb by done. by rewrite length_ind_all. }
  rewrite wr_in_bounds by lia. cbn [mbind outcome_bind].
  destruct (wp_Ret_inv _ _ (first_ranks_spec old b Hlb old_bytes)) as (ranks & Hfirst & Hlr & Hranks).
  rewrite Hfirst. cbn [mbind outcome_bind]. cbv zeta.
  destruct (wp_Ret_inv _ _ (mark_single_spec 255 1 (<[Z.to_nat 0 := n]> Ia) b ltac:(lia) ltac:(lia) Hb' ltac:(by rewrite length_insert)))
    as (Ia1 & Hmark & Hl1 & Hm1 & Hm2 & _). rewrite length_insert in Hl1.
  change (Z.of_nat 1) with 1 in Hmark. rewrite Hmark. cbn [mbind outcome_bind]. rewrite wr_in_bounds by lia. cbn [mbind outcome_bind].
  assert (Hpos : ∀ c, 0 ≤ start c) by (intros c; apply (start_mono 0 c); lia).
  assert (Hu : ∀ c u, u ∈ ind n c → has_byte c u ∧ 0 ≤ u < n).
  { intros c u [Hh Hs%elem_of_seqZ]%list_elem_of_filter. split; [done|lia]. }
  assert (Hinit : sort_inv n 1 (<[Z.to_nat 0 := -1]> Ia1) (ranks ++ [0])).
  { apply init_inv.
    + rewrite length_insert. congruence.
    + rewrite length_app, Hlr. simpl. lia.
    + unfold at_. rewrite Nat2Z.id, lookup_app_r, Hlr, Nat.sub_diag by lia. done.
    + intros c u Hc Hin. destruct (Hu c u Hin) as [Hh Hb2]. unfold has_byte, at_ in *.
      rewrite lookup_app_l by lia. eapply Hranks; [exact Hh|]. rewrite Nat2Z.id. by apply Hb'.
    + unfold at_. rewrite list_lookup_insert_eq; [done|]. simpl. lia.
    + intros c Hc Hs. unfold at_. rewrite list_lookup_insert_ne by (pose proof (Hpos c); lia).
      apply Hm1; [destruct Hs; lia|done].
    + intros c j u Hc Hs Hj. unfold at_. rewrite list_lookup_insert_ne by (pose proof (Hpos c); lia).
      pose proof (lookup_lt_Some _ _ _ Hj) as Hjl. pose proof (length_ind_all c) as Hlen.
      change (at_ Ia1 (start c + 1 + Z.of_nat j) = Some u). rewrite Hm2; [|pose proof (Hpos c); lia|].
      * unfold at_. rewrite list_lookup_insert_ne by (pose proof (Hpos c); lia). by apply HI.
      * intros c' [Hc' Hone] Heq. assert (c' ≠ c) by (intros Hcc; subst c'; apply Hs; by split).
        destruct (Nat.lt_trichotomy c' c) as [Hlt|[?|Hlt]]; [|done|].
        -- pose proof (start_mono (S c') c ltac:(lia)) as Hmo. cbn [start] in Hmo. lia.
        -- pose proof (start_mono (S c) c' ltac:(lia)) as Hmo. cbn [start] in Hmo. lia. }
  destruct (sort_passes_spec fuel _ _ n 1 ltac:(lia) ltac:(lia) Hinit) as [[Hdiv Hfuel]|(Ia2 & V2 & h' & Hrun & Hinv & H0)].
  { left. rewrite Hdiv. cbn [mbind outcome_bind]. split; [done|lia]. }
  right. rewrite Hrun. cbn [mbind outcome_bind].
  destruct (one_run n h' Ia2 V2 ltac:(lia) Hinv H0) as (us & Hp & Hus). destruct Hinv as (Hl & HV & _).
  destruct (wp_Ret_inv _ _ (invert_order n us V2 Ia2 Hp ltac:(lia) HV Hl Hus)) as (r & Hinvert & ->). exists us. by rewrite Hinvert.
Qed.
Lemma qsufsort_perm fuel : post (qsufsort fuel old) (λ Ia, Ia ≡ₚ seqZ 0 (n + 1)).
Proof. intros r Hr. destruct (qsufsort_spec fuel) as [[Hd _]|(Ia & Hq & Hp)]; [by rewrite Hd in Hr|]. rewrite Hq in Hr. by injection Hr as <-. Qed.
End init.

(** Its entries are positions of the file. *)
Lemma qsufsort_array_ok fuel old Ia : bytes_ok old → qsufsort fuel old = Ret Ia → array_ok old Ia.
Proof.
  intros Hb Hq. apply qsufsort_perm in Hq; [|done]. split.
  - rewrite Hq, length_seqZ. lia.
  - rewrite Hq. apply Forall_forall. intros u Hu%elem_of_seqZ. lia.
Qed.

(** ** Properties *)

(** The suffix sort ends, with fuel for three passes more than the file has bytes, and the array that it
    returns has every position of the file, its end included, exactly once: none is lost or
    doubled by the bucket sort, by the partitions or by the groups that are marked as sorted. *)
Theorem qsufsort_permutes fuel old :
  bytes_ok old → (length old + 3 ≤ fuel)%nat → ∃ Ia, qsufsort fuel old = Ret Ia ∧ Ia ≡ₚ seqZ 0 (zlen old + 1).
Proof. intros Hb Hf. destruct (qsufsort_spec old Hb fuel) as [[_ ?]|?]; [lia|done]. Qed.

(** Enough rounds for [qsufsort]: its passes agree on 1, 2, 4, ... bytes, so that they are fewer than these. *)
Definition sort_rounds (old : list Z) : nat := (length old + 3)%nat.

(** C6: [bsdiff] always ends and makes a patch, and applying this patch to the old file yields the
    new one; the suffix array is the one that [bsdiff] sorts itself, or one that the caller
    has, in whatever order, as long as its entries are positions in the old file. The files and the
    patch are smaller than 2 GB; the fuel is for the passes of the sort, at most three more than the file
    has bytes. *)
Theorem bsdiff_bspatch_roundtrip `{Bzip2Laws} (alloc_ok : Z → bool) (bz_compress : list Z → list Z)
    fuel old IP new :
  (∀ l, bz_contents (bz_compress l) = Some l) →
  bytes_ok old → bytes_ok new → zlen old < 2 ^ 31 → zlen new < 2 ^ 31 →
  (sort_rounds old ≤ fuel)%nat → (∀ Ia, IP = Some Ia → array_ok old Ia) → alloc_ok (zlen new) = true →
  wp (bsdiff bz_compress fuel old IP new) (λ file,
    zlen file < 2 ^ 31 → ∃ n, ∀ fuel, (n < fuel)%nat →
      ApplyBSDiffPatchMem alloc_ok fuel old (zlen old) (mk_value 2 (zlen file) file) 0 = Ret (0, new)).
Proof.
  intros Hz Hob Hnb Ho Hn Hfuel HIP Halloc.
  assert (∃ Ia, suffix_array fuel old IP = Ret Ia ∧ array_ok old Ia) as (Ia & HIa & Hok).
  { destruct IP as [Ia|]; [by exists Ia; split; [|apply HIP]|].
    unfold sort_rounds in Hfuel. destruct (qsufsort_spec old Hob fuel) as [[_ ?]|(Ia & Hq & _)]; [lia|].
    exists Ia. split; [done|by eapply qsufsort_array_ok]. }
  by eapply bsdiff_given_array.
Qed.

(** ** Witnesses *)
Lemma qsufsort_permutes_witness :
  ∃ Ia, qsufsort 50 (str "bananabananabananabananaxbananab") = Ret Ia ∧ Ia ≡ₚ seqZ 0 33.
Proof.
  apply (qsufsort_permutes 50 (str "bananabananabananabananaxbananab")).
  - apply (bool_decide_unpack _). vm_compute. exact I.
  - simpl. lia.
Defined.

Section witnesses.
Import BzDemo.
#[local] Existing Instances toy_bzip2 toy_laws.
Lemma bsdiff_bspatch_roundtrip_witness :
  wp (bsdiff block 50 demo_old None demo_new) (λ file,
    zlen file < 2 ^ 31 → ∃ n, ∀ fuel, (n < fuel)%nat →
      ApplyBSDiffPatchMem (λ _, true) fuel demo_old (zlen demo_old) (mk_value 2 (zlen file) file) 0 =
        Ret (0, demo_new)).
Proof.
  apply (bsdiff_bspatch_roundtrip (λ _, true) block 50 demo_old None demo_new).
  - intros l. rewrite <- (app_nil_r (block l)). apply block_contents.
  - apply (bool_decide_unpack _). vm_compute. exact I.
  - apply (bool_decide_unpack _). vm_compute. exact I.
  - reflexivity.
  - reflexivity.
  - unfold sort_rounds. simpl. lia.
  - done.
  - reflexivity.
Defined.
End witnesses.
