(* ===== verification/Imgpatch.v ===== *)
(** * Imgpatch

    applypatch/utils.c, the numbers of patch files, and applypatch/imgpatch.c, applying
    an IMGDIFF2 patch chunk by chunk. zlib, bzip2 and SHA-1 are parameters. *)
From S2P Require Import Prelude Bits CString Bspatch.

(** ** utils.c *)

(** The bytes that are appended to the file. *)
Definition Write4 (value : Z) : list Z :=
  [Z.land value 255; Z.land (Z.shiftr value 8) 255; Z.land (Z.shiftr value 16) 255;
   Z.land (Z.shiftr value 24) 255].
Definition Write8 (value : Z) : list Z :=
  [Z.land value 255; Z.land (Z.shiftr value 8) 255; Z.land (Z.shiftr value 16) 255;
   Z.land (Z.shiftr value 24) 255; Z.land (Z.shiftr value 32) 255; Z.land (Z.shiftr value 40) 255;
   Z.land (Z.shiftr value 48) 255; Z.land (Z.shiftr value 56) 255].

Definition Read2 (p : list Z) (i : Z) : outcome Z :=
  b1 ← rd p (i + 1); b0 ← rd p i;
  mret (s32 (Z.lor (Z.shiftl b1 8) b0)).
Definition Read4 (p : list Z) (i : Z) : outcome Z :=
  b3 ← rd p (i + 3); b2 ← rd p (i + 2); b1 ← rd p (i + 1); b0 ← rd p i;
  mret (s32 (Z.lor (Z.lor (Z.lor (u32 (Z.shiftl b3 24)) (Z.shiftl b2 16)) (Z.shiftl b1 8)) b0)).
Definition Read8 (p : list Z) (i : Z) : outcome Z :=
  b7 ← rd p (i + 7); b6 ← rd p (i + 6); b5 ← rd p (i + 5); b4 ← rd p (i + 4);
  b3 ← rd p (i + 3); b2 ← rd p (i + 2); b1 ← rd p (i + 1); b0 ← rd p i;
  mret (s64 (Z.lor (Z.lor (Z.lor (Z.lor (Z.lor (Z.lor (Z.lor (u64 (Z.shiftl b7 56)) (Z.shiftl b6 48))
    (Z.shiftl b5 40)) (Z.shiftl b4 32)) (Z.shiftl b3 24)) (Z.shiftl b2 16)) (Z.shiftl b1 8)) b0)).

(** ** imgpatch.c *)

(** zlib: [inflate_once input avail_out] is the one call of [inflate] after
    [inflateInit2], with its status and output; a deflate stream is created from the five
    parameters and the input. *)
Class Deflate := {
  inflateInit2_raw : Z;
  inflate_once : list Z → Z → Z * list Z;
  dstate : Type;
  deflateInit2 : Z → Z → Z → Z → Z → list Z → dstate;
  deflate : dstate → Z → Z * list Z * dstate
}.
Definition Z_OK : Z := 0.
Definition Z_STREAM_END : Z := 1.

Definition CHUNK_NORMAL : Z := 0.
Definition CHUNK_DEFLATE : Z := 2.
Definition CHUNK_RAW : Z := 3.

Section code.
Context `{Bzip2} `{Sha1} `{Deflate} {T : Type}.
Context (alloc_ok : Z → bool) (fuel : nat).
(** The SinkFn; its token is the state [T]. *)
Context (sink : list Z → T → outcome (Z * T)).
Implicit Types (token : T) (ctx : SHA_CTX).

(** The [do] loop over [deflate], and the status 0 or -1. *)
Fixpoint deflate_loop (n : nat) (strm : dstate) (temp_size : Z) token ctx : outcome (Z * T * SHA_CTX) :=
  match n with
  | O => Diverge
  | S n =>
      let '(ret, temp_data, strm) := deflate strm temp_size in
      let have := zlen temp_data in
      '(wrote, token) ← sink temp_data token;
      if negb (wrote =? have) then mret (-1, token, ctx)
      else
        let ctx := SHA_update ctx temp_data in
        if negb (ret =? Z_STREAM_END) then deflate_loop n strm temp_size token ctx
        else mret (0, token, ctx)
  end.

(** One record. The result is the status, and the position behind the record. *)
Definition normal_chunk (old_data : list Z) (patch : Value) (pos : Z) token ctx
    : outcome (Z * Z * T * SHA_CTX) :=
  let h := pos in
  pos ← int_ok (pos + 24);
  if v_size patch <? pos then mret (-1, pos, token, ctx)
  else
    src_start ← Read8 (v_data patch) h;
    src_len ← Read8 (v_data patch) (h + 8);
    patch_offset ← Read8 (v_data patch) (h + 16);
    '(_, token, c) ← ApplyBSDiffPatch alloc_ok fuel (drop (Z.to_nat (u32 src_start)) old_data)
      (s32 src_len) patch (s32 patch_offset) sink token (Some ctx);
    mret (0, pos, token, default ctx c).

Definition raw_chunk (patch : Value) (pos : Z) token ctx : outcome (Z * Z * T * SHA_CTX) :=
  let h := pos in
  pos ← int_ok (pos + 4);
  if v_size patch <? pos then mret (-1, pos, token, ctx)
  else
    data_len ← Read4 (v_data patch) h;
    end_ ← int_ok (pos + data_len);
    if v_size patch <? end_ then mret (-1, pos, token, ctx)
    else
      data ← rd_n (v_data patch) pos data_len;
      let ctx := SHA_update ctx data in
      '(wrote, token) ← sink data token;
      if negb (wrote =? data_len) then mret (-1, pos, token, ctx)
      else mret (0, end_, token, ctx).

Definition deflate_chunk (old_data : list Z) (patch : Value) (pos : Z) token ctx
    : outcome (Z * Z * T * SHA_CTX) :=
  let h := pos in
  pos ← int_ok (pos + 60);
  if v_size patch <? pos then mret (-1, pos, token, ctx)
  else
    src_start ← Read8 (v_data patch) h;
    src_len ← Read8 (v_data patch) (h + 8);
    patch_offset ← Read8 (v_data patch) (h + 16);
    expanded_len ← Read8 (v_data patch) (h + 24);
    level ← Read4 (v_data patch) (h + 40);
    method ← Read4 (v_data patch) (h + 44);
    windowBits ← Read4 (v_data patch) (h + 48);
    memLevel ← Read4 (v_data patch) (h + 52);
    strategy ← Read4 (v_data patch) (h + 56);
    let expanded_len := u32 expanded_len in
    if negb (alloc_ok expanded_len) then mret (-1, pos, token, ctx)
    else if negb (inflateInit2_raw =? Z_OK) then mret (-1, pos, token, ctx)
    else
      input ← rd_n old_data (u32 src_start) (u32 src_len);
      let '(ret, expanded_source) := inflate_once input expanded_len in
      if negb (ret =? Z_STREAM_END) then mret (-1, pos, token, ctx)
      else if negb (expanded_len - zlen expanded_source =? 0) then mret (-1, pos, token, ctx)
      else
        '(r, target) ← ApplyBSDiffPatchMem alloc_ok fuel expanded_source (s32 expanded_len) patch
          (s32 patch_offset);
        if negb (r =? 0) then mret (-1, pos, token, ctx)
        else
          let temp_size := if s32 expanded_len <? 32768 then 32768 else s32 expanded_len in
          let strm := deflateInit2 level method windowBits memLevel strategy target in
          '(r, token, ctx) ← deflate_loop fuel strm temp_size token ctx;
          mret (r, pos, token, ctx).

(** The loop over the [n] chunks that are left. *)
Fixpoint chunk_loop (n : nat) (old_data : list Z) (patch : Value) (pos : Z) token ctx
    : outcome (Z * T * SHA_CTX) :=
  match n with
  | O => mret (0, token, ctx)
  | S n =>
      end_ ← int_ok (pos + 4);
      if v_size patch <? end_ then mret (-1, token, ctx)
      else
        type ← Read4 (v_data patch) pos;
        '(r, pos, token, ctx) ←
          (if type =? CHUNK_NORMAL then normal_chunk old_data patch end_ token ctx
           else if type =? CHUNK_RAW then raw_chunk patch end_ token ctx
           else if type =? CHUNK_DEFLATE then deflate_chunk old_data patch end_ token ctx
           else mret (-1, end_, token, ctx));
        if negb (r =? 0) then mret (-1, token, ctx)
        else chunk_loop n old_data patch pos token ctx
  end.

Definition ApplyImagePatch (old_data : list Z) (patch : Value) token ctx : outcome (Z * T * SHA_CTX) :=
  if v_size patch <? 12 then mret (-1, token, ctx)
  else
    magic ← rd_n (v_data patch) 0 8;
    if negb (memcmp magic (str "IMGDIFF2") 8 =? 0) then mret (-1, token, ctx)
    else
      num_chunks ← Read4 (v_data patch) 8;
      chunk_loop (Z.to_nat num_chunks) old_data patch 12 token ctx.
End code.

(** ** The numbers *)

Ltac read_at H :=
  match goal with |- _ _ (zlen ?pre) = _ => replace (zlen pre) with (zlen pre + 0) by lia end;
  unfold Read4, Read8;
  rewrite <- ?Z.add_assoc, !rd_app_r by lia; rewrite !Forall_cons in H;
  repeat match goal with |- context [rd ?l ?i] =>
    rewrite (rd_lookup l i) by lia;
    let r := eval cbv in (of_option OutOfBounds (l !! Z.to_nat i)) in
    change (of_option OutOfBounds (l !! Z.to_nat i)) with r end;
  cbn [mbind outcome_bind le_value]; unfold mret, outcome_ret; do 2 f_equal;
  word_value; lia.

Lemma Read4_at pre b0 b1 b2 b3 post :
  bytes_ok [b0; b1; b2; b3] →
  Read4 (pre ++ b0 :: b1 :: b2 :: b3 :: post) (zlen pre) = Ret (s32 (le_value [b0; b1; b2; b3])).
Proof. intros H. read_at H. Qed.
Lemma Read8_at pre b0 b1 b2 b3 b4 b5 b6 b7 post :
  bytes_ok [b0; b1; b2; b3; b4; b5; b6; b7] →
  Read8 (pre ++ b0 :: b1 :: b2 :: b3 :: b4 :: b5 :: b6 :: b7 :: post) (zlen pre) =
    Ret (s64 (le_value [b0; b1; b2; b3; b4; b5; b6; b7])).
Proof. intros H. read_at H. Qed.

Lemma land_255 x : Z.land x 255 = x mod 256.
Proof. apply (land_pow2_minus_1 x 8). lia. Qed.

Lemma Write4_bytes v : Write4 v = le_bytes 4 v.
Proof.
  unfold Write4. rewrite !land_255, !Z.shiftr_div_pow2 by lia. cbn [le_bytes].
  rewrite !Z.div_div by lia. done.
Qed.
Lemma Write8_bytes v : Write8 v = le_bytes 8 v.
Proof.
  unfold Write8. rewrite !land_255, !Z.shiftr_div_pow2 by lia. cbn [le_bytes].
  rewrite !Z.div_div by lia. done.
Qed.

Lemma Read4_Write4_spec pre v post : Read4 (pre ++ Write4 v ++ post) (zlen pre) = Ret (s32 v).
Proof.
  rewrite Write4_bytes. pose proof (le_bytes_ok 4 v) as Hok. pose proof (le_value_bytes 4 v) as Hv.
  cbn [le_bytes app] in *. rewrite Read4_at by done. rewrite Hv. f_equal. unfold s32.
  change (256 ^ Z.of_nat 4) with (2 ^ 32). by rewrite Z.add_mod_idemp_l by lia.
Qed.
Lemma Read8_Write8_spec pre v post : Read8 (pre ++ Write8 v ++ post) (zlen pre) = Ret (s64 v).
Proof.
  rewrite Write8_bytes. pose proof (le_bytes_ok 8 v) as Hok. pose proof (le_value_bytes 8 v) as Hv.
  cbn [le_bytes app] in *. rewrite Read8_at by done. rewrite Hv. f_equal. unfold s64.
  change (256 ^ Z.of_nat 8) with (2 ^ 64). by rewrite Z.add_mod_idemp_l by lia.
Qed.
Lemma s64_small z : - 2 ^ 63 ≤ z < 2 ^ 63 → s64 z = z.
Proof. intros. unfold s64. rewrite Z.mod_small; lia. Qed.

(** ** What an image patch means *)

(** The records as the format has them. *)
Record bs_ref := mk_ref { src_start : Z; src_len : Z; patch_offset : Z }.
Inductive chunk : Type :=
  | Normal (r : bs_ref)
  | Raw (data : list Z)
  | Deflated (r : bs_ref) (expanded_len target_len level method windowBits memLevel strategy : Z).

Definition encode_ref (r : bs_ref) : list Z :=
  Write8 (src_start r) ++ Write8 (src_len r) ++ Write8 (patch_offset r).
Definition encode_chunk (c : chunk) : list Z :=
  match c with
  | Normal r => Write4 CHUNK_NORMAL ++ encode_ref r
  | Raw data => Write4 CHUNK_RAW ++ Write4 (zlen data) ++ data
  | Deflated r el tl level method windowBits memLevel strategy =>
      Write4 CHUNK_DEFLATE ++ encode_ref r ++ Write8 el ++ Write8 tl ++ Write4 level ++
      Write4 method ++ Write4 windowBits ++ Write4 memLevel ++ Write4 strategy
  end.
Definition encode_image (cs : list chunk) (rest : list Z) : list Z :=
  str "IMGDIFF2" ++ Write4 (zlen cs) ++ concat (encode_chunk <$> cs) ++ rest.

Class Sha1Laws `{Sha1} := {
  SHA_update_nil c : SHA_update c [] = c;
  SHA_update_app c l1 l2 : SHA_update (SHA_update c l1) l2 = SHA_update c (l1 ++ l2)
}.

Definition int_range (z : Z) : Prop := - 2 ^ 31 ≤ z < 2 ^ 31.
Definition nat_range (z : Z) : Prop := 0 ≤ z < 2 ^ 31.
Definition ref_ok (r : bs_ref) : Prop :=
  nat_range (src_start r) ∧ nat_range (src_len r) ∧ nat_range (patch_offset r).

Section meaning.
Context `{Bzip2} `{Sha1Laws} `{Deflate} (alloc_ok : Z → bool) (fuel : nat).
Context (old_data : list Z) (patch : Value).

(** All that a deflate stream yields, in pieces. *)
Fixpoint deflate_all (n : nat) (strm : dstate) (size : Z) : option (list Z) :=
  match n with
  | O => None
  | S n =>
      let '(ret, out, strm) := deflate strm size in
      if ret =? Z_STREAM_END then Some out else app out <$> deflate_all n strm size
  end.

(** The output of a chunk. *)
Inductive chunk_gives : chunk → list Z → Prop :=
  | normal_gives r new :
      ref_ok r →
      ApplyBSDiffPatchMem alloc_ok fuel (drop (Z.to_nat (src_start r)) old_data) (src_len r) patch
        (patch_offset r) = Ret (0, new) →
      chunk_gives (Normal r) new
  | raw_gives data : chunk_gives (Raw data) data
  | deflate_gives r el tl level method windowBits memLevel strategy expanded target out :
      ref_ok r → nat_range el → int_range level → int_range method → int_range windowBits →
      int_range memLevel → int_range strategy →
      alloc_ok el = true → inflateInit2_raw = Z_OK → src_start r + src_len r ≤ zlen old_data →
      inflate_once (take (Z.to_nat (src_len r)) (drop (Z.to_nat (src_start r)) old_data)) el =
        (Z_STREAM_END, expanded) →
      zlen expanded = el →
      ApplyBSDiffPatchMem alloc_ok fuel expanded el patch (patch_offset r) = Ret (0, target) →
      deflate_all fuel (deflateInit2 level method windowBits memLevel strategy target)
        (Z.max 32768 el) = Some out →
      chunk_gives (Deflated r el tl level method windowBits memLevel strategy) out.

Context {T : Type} (sink : list Z → T → outcome (Z * T)) (out_of : T → list Z).

(** A sink that takes everything. *)
Definition accepts : Prop :=
  ∀ l t, ∃ t', sink l t = Ret (zlen l, t') ∧ out_of t' = out_of t ++ l.
Hypothesis sink_ok : accepts.

(** Status 0, [l] more output, and the same [l] in the checksum. *)
Definition gives (m : outcome (Z * T * SHA_CTX)) (token : T) (ctx : SHA_CTX) (l : list Z) : Prop :=
  ∃ token', m = Ret (0, token', SHA_update ctx l) ∧ out_of token' = out_of token ++ l.

Lemma deflate_loop_spec n strm size token ctx l :
  deflate_all n strm size = Some l → gives (deflate_loop sink n strm size token ctx) token ctx l.
Proof.
  revert strm token ctx l. induction n as [|n IH]; intros strm token ctx l; simpl; [done|].
  destruct (deflate strm size) as [[ret out] strm']. intros Hl.
  destruct (sink_ok out token) as (t' & -> & Ht'). cbn [mbind outcome_bind].
  rewrite Z.eqb_refl. cbn [negb].
  destruct (ret =? Z_STREAM_END); cbn [negb].
  - injection Hl as ->. by exists t'.
  - destruct (deflate_all n strm' size) as [l'|] eqn:Hrec; [|done]. injection Hl as <-.
    destruct (IH strm' t' (SHA_update ctx out) l' Hrec) as (t'' & -> & Ht'').
    exists t''. rewrite SHA_update_app. split; [done|]. by rewrite Ht'', Ht', <- app_assoc.
Qed.

(** A field of a record behind what precedes it. *)
Lemma Read8_field pre v post i : zlen pre = i → int_range v → Read8 (pre ++ Write8 v ++ post) i = Ret v.
Proof.
  intros <- Hv. rewrite Read8_Write8_spec. unfold int_range in Hv. by rewrite s64_small by lia.
Qed.
Lemma Read4_field pre v post i : zlen pre = i → int_range v → Read4 (pre ++ Write4 v ++ post) i = Ret v.
Proof.
  intros <- Hv. rewrite Read4_Write4_spec. unfold int_range in Hv. by rewrite s32_small by lia.
Qed.
Lemma length_Write4 v : length (Write4 v) = 4%nat.
Proof. done. Qed.
Lemma length_Write8 v : length (Write8 v) = 8%nat.
Proof. done. Qed.

Ltac offsets :=
  unfold encode_ref in *; repeat rewrite ?length_app, ?length_Write8, ?length_Write4 in *; lia.
Ltac read_field :=
  first [ apply Read8_field; [solve [offsets] | assumption]
        | apply Read4_field; [solve [offsets] | assumption]
        | match goal with |- _ (?p ++ ?a ++ ?r) _ = _ => rewrite (app_assoc p a r); read_field end ].
(** [field f v] evaluates the reads of the field [v]. *)
Ltac field f v :=
  match goal with |- context [f ?d ?i] =>
    let E := fresh in
    assert (E : f d i = Ret v) by read_field; rewrite E; clear E; cbn [mbind outcome_bind] end.

Lemma ref_fields r : ref_ok r →
  int_range (src_start r) ∧ int_range (src_len r) ∧ int_range (patch_offset r) ∧
  u32 (src_start r) = src_start r ∧ u32 (src_len r) = src_len r ∧ s32 (src_len r) = src_len r ∧
  s32 (patch_offset r) = patch_offset r.
Proof.
  unfold ref_ok, nat_range, int_range. intros (? & ? & ?).
  rewrite !u32_small, !s32_small by lia. lia.
Qed.

(** What a chunk reader does with a record that has output [l]. *)
Definition reads (m : outcome (Z * Z * T * SHA_CTX)) (pos : Z) (token : T) (ctx : SHA_CTX) (l : list Z) : Prop :=
  ∃ token', m = Ret (0, pos, token', SHA_update ctx l) ∧ out_of token' = out_of token ++ l.

Lemma normal_chunk_spec pre r new post token ctx :
  v_size patch < 2 ^ 31 → v_size patch = zlen (v_data patch) →
  v_data patch = pre ++ encode_ref r ++ post → chunk_gives (Normal r) new →
  reads (normal_chunk alloc_ok fuel sink old_data patch (zlen pre) token ctx)
    (zlen (pre ++ encode_ref r)) token ctx new.
Proof.
  intros Hsmall Hsize Hdata Hc. inversion Hc as [? ? Href Happly| |]; subst.
  destruct (ref_fields r Href) as (Hs & Hl & Ho & Es & El & Eo & Ep).
  unfold normal_chunk. cbv zeta. rewrite Hsize, Hdata in *. unfold encode_ref in *.
  rewrite <- !app_assoc in *. rewrite int_ok_small by offsets. cbn [mbind outcome_bind].
  destruct (Z.ltb_spec (zlen (pre ++ Write8 (src_start r) ++ Write8 (src_len r) ++ Write8 (patch_offset r) ++ post))
    (zlen pre + 24)); [offsets|].
  field Read8 (src_start r). field Read8 (src_len r). field Read8 (patch_offset r).
  rewrite Es, Eo, Ep. unfold ApplyBSDiffPatch. rewrite Happly. cbn [mbind outcome_bind].
  change (negb (0 =? 0)) with false. cbn iota.
  destruct (sink_ok new token) as (t' & -> & Ht'). cbn [mbind outcome_bind].
  rewrite Z.ltb_irrefl. exists t'. split; [|done].
  by replace (zlen (pre ++ _)) with (zlen pre + 24) by offsets.
Qed.

Lemma raw_chunk_spec pre data post token ctx :
  v_size patch < 2 ^ 31 → v_size patch = zlen (v_data patch) →
  v_data patch = pre ++ Write4 (zlen data) ++ data ++ post →
  reads (raw_chunk sink patch (zlen pre) token ctx) (zlen (pre ++ Write4 (zlen data) ++ data)) token ctx data.
Proof.
  intros Hsmall Hsize Hdata. unfold raw_chunk. cbv zeta. rewrite Hsize, Hdata in *.
  assert (int_range (zlen data)) by (unfold int_range; offsets).
  rewrite int_ok_small by offsets. cbn [mbind outcome_bind].
  destruct (Z.ltb_spec (zlen (pre ++ Write4 (zlen data) ++ data ++ post)) (zlen pre + 4)); [offsets|].
  field Read4 (zlen data). rewrite int_ok_small by offsets. cbn [mbind outcome_bind].
  destruct (Z.ltb_spec (zlen (pre ++ Write4 (zlen data) ++ data ++ post)) (zlen pre + 4 + zlen data));
    [offsets|].
  rewrite (app_assoc pre). replace (zlen pre + 4) with (zlen (pre ++ Write4 (zlen data))) by offsets.
  rewrite rd_n_app. cbn [mbind outcome_bind].
  destruct (sink_ok data token) as (t' & -> & Ht'). cbn [mbind outcome_bind].
  rewrite Z.eqb_refl. exists t'. split; [|done]. cbn [negb]. unfold mret, outcome_ret.
  by replace (zlen (pre ++ _ ++ data)) with (zlen (pre ++ Write4 (zlen data)) + zlen data) by offsets.
Qed.

Lemma deflate_chunk_spec pre r el tl level method windowBits memLevel strategy out post token ctx :
  let c := Deflated r el tl level method windowBits memLevel strategy in
  v_size patch < 2 ^ 31 → v_size patch = zlen (v_data patch) →
  v_data patch = pre ++ drop 4 (encode_chunk c) ++ post → chunk_gives c out →
  reads (deflate_chunk alloc_ok fuel sink old_data patch (zlen pre) token ctx)
    (zlen (pre ++ drop 4 (encode_chunk c))) token ctx out.
Proof.
  intros c Hsmall Hsize Hdata Hc.
  inversion Hc as [| |? ? ? ? ? ? ? ? expanded target ? Href Hel Hlv Hmt Hwb Hml Hst Halloc Hinit Hsrc Hinf Hexp Happly Hdef]; subst.
  destruct (ref_fields r Href) as (Hs & Hl & Ho & Es & El & Eo & Ep).
  assert (int_range (zlen expanded) ∧ u32 (zlen expanded) = zlen expanded ∧
    s32 (zlen expanded) = zlen expanded) as (Hxr & Ex & Ex').
  { unfold nat_range, int_range in *. rewrite u32_small, s32_small by lia. lia. }
  subst c. cbn [encode_chunk] in *. rewrite (drop_app_length' (Write4 CHUNK_DEFLATE)) in * by done.
  unfold deflate_chunk. cbv zeta. rewrite Hsize, Hdata in *. unfold encode_ref in *.
  rewrite <- !app_assoc in *. rewrite int_ok_small by offsets. cbn [mbind outcome_bind].
  match goal with |- context [zlen ?d <? zlen pre + 60] =>
    destruct (Z.ltb_spec (zlen d) (zlen pre + 60)); [offsets|] end.
  field Read8 (src_start r). field Read8 (src_len r). field Read8 (patch_offset r).
  field Read8 (zlen expanded). field Read4 level. field Read4 method. field Read4 windowBits.
  field Read4 memLevel. field Read4 strategy.
  rewrite Es, El, Ep, Ex, Ex', Halloc, Hinit. cbn [negb]. rewrite Z.eqb_refl. cbn [negb].
  unfold ref_ok, nat_range in *. rewrite rd_n_in_bounds by lia. cbn [mbind outcome_bind].
  rewrite Hinf, Z.eqb_refl, Z.sub_diag, Happly. cbn [negb mbind outcome_bind Z.eqb].
  replace (if zlen expanded <? 32768 then 32768 else zlen expanded) with (Z.max 32768 (zlen expanded))
    by (destruct (Z.ltb_spec (zlen expanded) 32768); lia).
  destruct (deflate_loop_spec _ _ _ token ctx _ Hdef) as (t' & -> & Ht').
  exists t'. split; [|done]. cbn [mbind outcome_bind]. unfold mret, outcome_ret.
  by replace (zlen (pre ++ _)) with (zlen pre + 60) by offsets.
Qed.

(** The records one after the other. *)
Lemma chunk_loop_spec cs outs pre rest token ctx :
  v_size patch < 2 ^ 31 → v_size patch = zlen (v_data patch) →
  v_data patch = pre ++ concat (encode_chunk <$> cs) ++ rest → Forall2 chunk_gives cs outs →
  gives (chunk_loop alloc_ok fuel sink (length cs) old_data patch (zlen pre) token ctx) token ctx
    (concat outs).
Proof.
  intros Hsmall Hsize Hdata Hcs. revert pre token ctx Hdata.
  induction Hcs as [|c out cs outs Hc Hcs IH]; intros pre token ctx Hdata; simpl.
  { exists token. by rewrite SHA_update_nil, app_nil_r. }
  simpl in Hdata. rewrite <- app_assoc in Hdata.
  set (tail := concat (encode_chunk <$> cs) ++ rest) in *.
  set (ty := match c with Normal _ => CHUNK_NORMAL | Raw _ => CHUNK_RAW | _ => CHUNK_DEFLATE end).
  assert (Hty : encode_chunk c = Write4 ty ++ drop 4 (encode_chunk c)) by by destruct c.
  assert (Hlen : zlen (encode_chunk c) = 4 + zlen (drop 4 (encode_chunk c)))
    by (rewrite Hty at 1; offsets).
  assert (Hpos : zlen pre + 4 = zlen (pre ++ Write4 ty)) by offsets.
  assert (Hdata' : v_data patch = (pre ++ Write4 ty) ++ drop 4 (encode_chunk c) ++ tail)
    by (rewrite Hdata, Hty at 1; by rewrite <- !app_assoc).
  assert (Hbound : zlen pre + 4 + zlen (drop 4 (encode_chunk c)) ≤ v_size patch)
    by (rewrite Hsize, Hdata'; offsets).
  rewrite int_ok_small by lia. cbn [mbind outcome_bind].
  destruct (Z.ltb_spec (v_size patch) (zlen pre + 4)); [lia|].
  assert (Ht : Read4 (v_data patch) (zlen pre) = Ret ty).
  { rewrite Hdata', <- app_assoc. apply Read4_field; [done|]. by destruct c. }
  rewrite Ht. cbn [mbind outcome_bind]. rewrite Hpos.
  assert (Hreads : reads
    (if ty =? CHUNK_NORMAL then normal_chunk alloc_ok fuel sink old_data patch (zlen (pre ++ Write4 ty)) token ctx
     else if ty =? CHUNK_RAW then raw_chunk sink patch (zlen (pre ++ Write4 ty)) token ctx
     else if ty =? CHUNK_DEFLATE then deflate_chunk alloc_ok fuel sink old_data patch (zlen (pre ++ Write4 ty)) token ctx
     else mret (-1, zlen (pre ++ Write4 ty), token, ctx))
    (zlen ((pre ++ Write4 ty) ++ drop 4 (encode_chunk c))) token ctx out).
  { destruct c as [r|data|r el tl lv mt wb ml st]; subst ty; cbn [Z.eqb CHUNK_NORMAL CHUNK_RAW CHUNK_DEFLATE].
    - apply (normal_chunk_spec (pre ++ Write4 CHUNK_NORMAL) r out tail); try done.
    - inversion Hc; subst. apply (raw_chunk_spec (pre ++ Write4 CHUNK_RAW) out tail); try done.
    - apply (deflate_chunk_spec (pre ++ Write4 CHUNK_DEFLATE) r el tl lv mt wb ml st out tail); try done. }
  destruct Hreads as (t' & -> & Ht'). cbn [mbind outcome_bind]. rewrite Z.eqb_refl. cbn [negb].
  destruct (IH ((pre ++ Write4 ty) ++ drop 4 (encode_chunk c)) t' (SHA_update ctx out)) as (t'' & -> & Ht'').
  { rewrite Hdata'. by rewrite <- !app_assoc. }
  exists t''. rewrite SHA_update_app. split; [done|]. by rewrite Ht'', Ht', <- app_assoc.
Qed.
End meaning.

(** The whole file. *)
Lemma ApplyImagePatch_spec `{Bzip2} `{Sha1Laws} `{Deflate} (alloc_ok : Z → bool) fuel
    {T} (sink : list Z → T → outcome (Z * T)) (out_of : T → list Z) old_data patch cs rest outs token ctx :
  v_data patch = encode_image cs rest → v_size patch = zlen (v_data patch) → v_size patch < 2 ^ 31 →
  Forall2 (chunk_gives alloc_ok fuel old_data patch) cs outs → accepts sink out_of →
  gives out_of (ApplyImagePatch alloc_ok fuel sink old_data patch token ctx) token ctx (concat outs).
Proof.
  intros Hdata Hsize Hsmall Hcs Hsink. unfold ApplyImagePatch. unfold encode_image in Hdata.
  assert (Hlen : zlen cs ≤ zlen (concat (encode_chunk <$> cs))).
  { clear. induction cs as [|c cs IH]; [simpl; lia|]. rewrite fmap_cons. cbn [concat length].
    rewrite length_app.
    assert (0 < length (encode_chunk c))%nat by (destruct c; simpl; lia). lia. }
  assert (Hcount : v_size patch = 12 + zlen (concat (encode_chunk <$> cs)) + zlen rest).
  { rewrite Hsize, Hdata, !length_app. simpl. lia. }
  destruct (Z.ltb_spec (v_size patch) 12); [lia|].
  assert (Hm : rd_n (v_data patch) 0 8 = Ret (str "IMGDIFF2")).
  { rewrite Hdata. apply (rd_n_app [] _ (str "IMGDIFF2")). }
  rewrite Hm. cbn [mbind outcome_bind]. change (negb _) with false at 1. cbn iota.
  assert (Hn : Read4 (v_data patch) 8 = Ret (zlen cs)).
  { rewrite Hdata. apply Read4_field; [done|]. unfold int_range. lia. }
  rewrite Hn. cbn [mbind outcome_bind]. rewrite Nat2Z.id.
  apply (chunk_loop_spec alloc_ok fuel old_data patch sink out_of Hsink cs outs
    (str "IMGDIFF2" ++ Write4 (zlen cs)) rest); done.
Qed.

(** ** Concrete parameters *)
Module ImgDemo.
(** Data that is not compressed, and a checksum that is the sum, the length and the
    last byte. *)
Instance toy_deflate : Deflate := {|
  inflateInit2_raw := Z_OK;
  inflate_once input n := (Z_STREAM_END, take (Z.to_nat n) input);
  dstate := list Z;
  deflateInit2 _ _ _ _ _ input := input;
  deflate l n :=
    (if zlen l <=? n then Z_STREAM_END else Z_OK, take (Z.to_nat n) l, drop (Z.to_nat n) l)
|}.
Instance toy_sha : Sha1 := {|
  SHA_CTX := list Z;
  SHA_init := [];
  SHA_update c l := c ++ l;
  SHA_final c := [u8 (foldr Z.add 0 c); u8 (zlen c); List.last c 0] ++ replicate 17 7
|}.
Instance toy_sha_laws : Sha1Laws.
Proof. split; intros; simpl; [apply app_nil_r|by rewrite app_assoc]. Qed.

Definition keep (l t : list Z) : outcome (Z * list Z) := Ret (zlen l, t ++ l).
End ImgDemo.

(** ** Properties *)

(** The 4- and 8-byte numbers are read back as they were written, modulo their
    width. *)
Theorem Read_Write_roundtrip pre v post :
  Read4 (pre ++ Write4 v ++ post) (zlen pre) = Ret (s32 v) ∧
  Read8 (pre ++ Write8 v ++ post) (zlen pre) = Ret (s64 v).
Proof. split; [apply Read4_Write4_spec|apply Read8_Write8_spec]. Qed.

(** C33: applying an image patch writes the outputs of its chunks in order, returns 0, and
    the checksum covers exactly what was written. *)
Theorem ApplyImagePatch_correct `{Bzip2} `{Sha1Laws} `{Deflate} (alloc_ok : Z → bool) fuel
    {T} (sink : list Z → T → outcome (Z * T)) (out_of : T → list Z) old_data patch cs rest outs token ctx :
  v_data patch = encode_image cs rest → v_size patch = zlen (v_data patch) → v_size patch < 2 ^ 31 →
  Forall2 (chunk_gives alloc_ok fuel old_data patch) cs outs → accepts sink out_of →
  gives out_of (ApplyImagePatch alloc_ok fuel sink old_data patch token ctx) token ctx (concat outs).
Proof. apply ApplyImagePatch_spec. Qed.

(** A chunk of kind NORMAL whose patch cannot be applied is skipped: the call returns
    0 although nothing was written for it. *)
Theorem normal_chunk_failure_ignored `{Bzip2} `{Sha1Laws} `{Deflate} (alloc_ok : Z → bool) fuel
    {T} (sink : list Z → T → outcome (Z * T)) old_data patch r rest rc new (token : T) ctx :
  v_data patch = encode_image [Normal r] rest → v_size patch = zlen (v_data patch) →
  v_size patch < 2 ^ 31 → ref_ok r → rc ≠ 0 →
  ApplyBSDiffPatchMem alloc_ok fuel (drop (Z.to_nat (src_start r)) old_data) (src_len r) patch
    (patch_offset r) = Ret (rc, new) →
  ApplyImagePatch alloc_ok fuel sink old_data patch token ctx = Ret (0, token, ctx).
Proof.
  intros Hdata Hsize Hsmall Href Hrc Hrun. unfold ApplyImagePatch. unfold encode_image in Hdata.
  destruct (ref_fields r Href) as (Hs & Hl & Ho & Es & El & Eo & Ep).
  change (concat (encode_chunk <$> [Normal r])) with ((Write4 CHUNK_NORMAL ++ encode_ref r) ++ []) in Hdata.
  unfold encode_ref in Hdata. rewrite app_nil_r, <- !app_assoc in Hdata.
  assert (Hcount : v_size patch = 40 + zlen rest) by (rewrite Hsize, Hdata, !length_app; simpl; lia).
  destruct (Z.ltb_spec (v_size patch) 12); [lia|].
  assert (rd_n (v_data patch) 0 8 = Ret (str "IMGDIFF2")) as ->.
  { rewrite Hdata. apply (rd_n_app [] _ (str "IMGDIFF2")). }
  cbn [mbind outcome_bind]. change (negb _) with false at 1. cbn iota.
  assert (Read4 (v_data patch) 8 = Ret 1) as ->.
  { rewrite Hdata. by apply Read4_field. }
  cbn [mbind outcome_bind]. change (Z.to_nat 1) with 1%nat. cbn [chunk_loop].
  rewrite int_ok_small by lia. cbn [mbind outcome_bind].
  destruct (Z.ltb_spec (v_size patch) (12 + 4)); [lia|].
  assert (Read4 (v_data patch) 12 = Ret CHUNK_NORMAL) as ->.
  { rewrite Hdata. by apply (Read4_field (str "IMGDIFF2" ++ Write4 1)). }
  cbn [mbind outcome_bind]. rewrite Z.eqb_refl. unfold normal_chunk. cbv zeta.
  change (12 + 4) with 16. rewrite int_ok_small by lia. cbn [mbind outcome_bind].
  destruct (Z.ltb_spec (v_size patch) (16 + 24)); [lia|].
  set (h := str "IMGDIFF2" ++ Write4 1 ++ Write4 CHUNK_NORMAL).
  assert (Read8 (v_data patch) 16 = Ret (src_start r)) as ->.
  { rewrite Hdata. by apply (Read8_field h). }
  assert (Read8 (v_data patch) (16 + 8) = Ret (src_len r)) as ->.
  { rewrite Hdata. by apply (Read8_field (h ++ Write8 (src_start r))). }
  assert (Read8 (v_data patch) (16 + 16) = Ret (patch_offset r)) as ->.
  { rewrite Hdata. by apply (Read8_field (h ++ Write8 (src_start r) ++ Write8 (src_len r))). }
  cbn [mbind outcome_bind]. rewrite Es, Eo, Ep. unfold ApplyBSDiffPatch. rewrite Hrun.
  cbn [mbind outcome_bind]. destruct (Z.eqb_spec rc 0); [done|]. reflexivity.
Qed.

(** When [deflate] fails, which a chunk with bad parameters provokes, the loop never
    ends. *)
Lemma deflate_error_spins `{Sha1} `{Deflate} {T} (sink : list Z → T → outcome (Z * T)) n strm size token ctx err :
  err ≠ Z_STREAM_END → deflate strm size = (err, [], strm) → (∀ t, sink [] t = Ret (0, t)) →
  deflate_loop sink n strm size token ctx = Diverge.
Proof.
  intros Herr Hd Hs. revert ctx. induction n as [|n IH]; intros ctx; [done|]. cbn [deflate_loop].
  rewrite Hd, Hs. cbn [mbind outcome_bind]. change (negb (0 =? zlen [])) with false. cbn iota.
  destruct (Z.eqb_spec err Z_STREAM_END); [done|]. apply IH.
Qed.

(** ** Witnesses *)
Section witnesses.
Import BzDemo ImgDemo.
#[local] Existing Instances toy_bzip2 toy_deflate toy_sha toy_sha_laws.

Definition old_image : list Z := str "abcdefgh".
(** A patch of both parts of the image; the files of the two chunks are behind the
    records, at 115 and 177. *)
Definition small_patch (c e : list Z) (n : Z) : list Z := v_data (patch_of c [0; 0] e n).
Definition demo_chunks : list chunk :=
  [Normal (mk_ref 0 4 115); Raw (str "--!"); Deflated (mk_ref 4 4 177) 4 4 6 8 (-15) 8 0].
Definition demo_rest : list Z :=
  small_patch (num 2 ++ num 1 ++ num 0) (str "X") 3 ++ small_patch (num 2 ++ num 1 ++ num 0) (str "Y") 3.
Definition demo_image : Value :=
  let data := encode_image demo_chunks demo_rest in mk_value 2 (zlen data) data.

Example demo_run :
  ApplyImagePatch (λ _, true) 9 keep old_image demo_image [] [] = Ret (0, str "abX--!efY", str "abX--!efY").
Proof. vm_compute. reflexivity. Qed.

Lemma ApplyImagePatch_correct_witness :
  gives id (ApplyImagePatch (λ _, true) 9 keep old_image demo_image [] []) [] []
    (concat [str "abX"; str "--!"; str "efY"]).
Proof.
  apply (ApplyImagePatch_correct (λ _, true) 9 keep id old_image demo_image demo_chunks demo_rest);
    [reflexivity|reflexivity|reflexivity| |intros l t; by eexists].
  constructor; [|constructor; [apply raw_gives|constructor; [|constructor]]].
  - apply normal_gives; [repeat split; vm_compute; congruence|vm_compute; reflexivity].
  - apply (deflate_gives _ _ _ _ _ _ _ _ _ _ _ _ (str "efgh") (str "efY"));
      first [vm_compute; reflexivity|repeat split; vm_compute; congruence].
Defined.

(** The header of the patch at 40 has the wrong magic number. *)
Definition broken_image : Value :=
  let data := encode_image [Normal (mk_ref 0 4 40)] (replicate 40 0) in mk_value 2 (zlen data) data.
Lemma normal_chunk_failure_ignored_witness :
  ApplyImagePatch (λ _, true) 9 keep old_image broken_image [] [] = Ret (0, [], []).
Proof.
  apply (normal_chunk_failure_ignored (λ _, true) 9 keep old_image broken_image (mk_ref 0 4 40)
    (replicate 40 0) 1 [] [] ([] : @SHA_CTX toy_sha)); try reflexivity; [|discriminate].
  repeat split; vm_compute; congruence.
Defined.
End witnesses.
