(* ===== verification/Imgdiff.v ===== *)
(** * Imgdiff

    applypatch/imgdiff.c, the tool that makes image patches: it splits two images (or two zip
    files) into chunks, compares and merges them, and writes the records and bsdiff patches of
    the format that imgpatch.c reads. zlib and bzip2 are parameters. *)
From S2P Require Import Prelude CString Bspatch Bsdiff Imgpatch.

(** ** The decoder of zlib

    A stream after [inflateInit2(&strm, -15)]; a call gets the input that is left and the
    room for output, and answers the status, the number of bytes it used and its output. *)
Class Inflate := {
  istate : Type;
  inflateInit2 : istate;
  inflate : istate → list Z → Z → Z * nat * list Z * istate
}.

(** ** Data *)

(** [data] points into the image or to a buffer of its own; a buffer has the bytes that
    were written to it. *)
Inductive chunk_data :=
  | InImage (off : Z)
  | Buffer (bytes : list Z).

Record encoder := mk_encoder { level : Z; method : Z; windowBits : Z; memLevel : Z; strategy : Z }.
Definition no_encoder : encoder := mk_encoder 0 0 0 0 0.

(** [c_deflate] are [deflate_len] and the place of [deflate_data] in the image, where they
    were set. *)
Record ImageChunk := mk_chunk {
  c_type : Z;
  c_start : Z;
  c_len : Z;
  c_data : chunk_data;
  c_source_start : Z;
  c_source_len : Z;
  c_I : option (list Z);
  c_deflate : option (Z * Z);
  c_filename : option (list Z);
  c_encoder : encoder;
  c_source_uncompressed_len : Z
}.

Definition normal_at (pos n : Z) : ImageChunk :=
  mk_chunk CHUNK_NORMAL pos n (InImage pos) 0 0 None None None no_encoder 0.
Definition deflate_at (pos dlen : Z) (bytes : list Z) (n : Z) (filename : option (list Z)) : ImageChunk :=
  mk_chunk CHUNK_DEFLATE pos n (Buffer bytes) 0 0 None (Some (dlen, pos)) filename no_encoder 0.

Definition set_data (c : ImageChunk) (type start n : Z) (d : chunk_data) : ImageChunk :=
  mk_chunk type start n d (c_source_start c) (c_source_len c) (c_I c) (c_deflate c) (c_filename c)
    (c_encoder c) (c_source_uncompressed_len c).
Definition set_encoder (c : ImageChunk) (e : encoder) : ImageChunk :=
  mk_chunk (c_type c) (c_start c) (c_len c) (c_data c) (c_source_start c) (c_source_len c) (c_I c)
    (c_deflate c) (c_filename c) e (c_source_uncompressed_len c).
Definition set_I (c : ImageChunk) (Ia : list Z) : ImageChunk :=
  mk_chunk (c_type c) (c_start c) (c_len c) (c_data c) (c_source_start c) (c_source_len c) (Some Ia)
    (c_deflate c) (c_filename c) (c_encoder c) (c_source_uncompressed_len c).
Definition set_source (c : ImageChunk) (start n ulen : Z) : ImageChunk :=
  mk_chunk (c_type c) (c_start c) (c_len c) (c_data c) start n (c_I c) (c_deflate c) (c_filename c)
    (c_encoder c) ulen.

(** The bytes at [data], as many as [len] says. *)
Definition chunk_bytes (img : list Z) (c : ImageChunk) : outcome (list Z) :=
  match c_data c with
  | InImage off => rd_n img off (c_len c)
  | Buffer b => rd_n b 0 (c_len c)
  end.

(** ** Images with gzip sections *)
Definition GZIP_HEADER_LEN : Z := 10.
Definition GZIP_FOOTER_LEN : Z := 8.

(** [p[0] == 0x1f && p[1] == 0x8b && p[2] == 0x08 && p[3] == 0x00] *)
Fixpoint bytes_at (magic : list Z) (img : list Z) (pos : Z) : outcome bool :=
  match magic with
  | [] => mret true
  | m :: magic => b ← rd img pos; if b =? m then bytes_at magic img (pos + 1) else mret false
  end.
Definition gzip_magic : list Z := [0x1f; 0x8b; 0x08; 0x00].

Section code.
Context `{Deflate} `{Inflate} (bz_compress : list Z → list Z) (fuel : nat).
Implicit Types (img : list Z).

(** The loop over [inflate]: the data, and the input that is left. *)
Fixpoint inflate_all (n : nat) (strm : istate) (input data : list Z) (allocated : Z)
    : outcome (list Z * list Z) :=
  match n with
  | O => Diverge
  | S n =>
      let '(ret, k, out, strm) := inflate strm input (allocated - zlen data) in
      let data := data ++ out in
      let allocated := if allocated - zlen data =? 0 then allocated * 2 else allocated in
      if negb (ret =? Z_STREAM_END) then inflate_all n strm (drop k input) data allocated
      else mret (data, drop k input)
  end.

(** The three chunks of a gzip section and the position behind it; [None] is a wrong size
    in the footer. *)
Definition read_gzip img (st_size pos : Z) : outcome (option (list ImageChunk * Z)) :=
  let header := normal_at pos GZIP_HEADER_LEN in
  let pos := pos + GZIP_HEADER_LEN in
  input ← rd_n img pos (u32 (st_size - pos));
  '(data, rest) ← inflate_all fuel inflateInit2 input [] 32768;
  let deflate_len := st_size - zlen rest - pos in
  let body := deflate_at pos deflate_len data (zlen data) None in
  let pos := pos + deflate_len in
  let footer := normal_at pos GZIP_FOOTER_LEN in
  let pos := pos + GZIP_FOOTER_LEN in
  footer_size ← Read4 img (pos - 4);
  mret (if negb (u32 footer_size =? zlen data) then None else Some ([header; body; footer], pos)).

(** The length of the normal chunk at [pos]. *)
Fixpoint scan_gzip (n : nat) img (st_size pos clen : Z) : outcome Z :=
  match n with
  | O => Diverge
  | S n =>
      if clen <? st_size - pos then
        m ← bytes_at gzip_magic img (pos + clen);
        if m : bool then mret clen else scan_gzip n img st_size pos (clen + 1)
      else mret clen
  end.

Fixpoint image_chunks (n : nat) img (st_size pos : Z) (chunks : list ImageChunk)
    : outcome (option (list ImageChunk)) :=
  match n with
  | O => Diverge
  | S n =>
      if pos <? st_size then
        gz ← (if 4 <=? st_size - pos then bytes_at gzip_magic img pos else mret false);
        if gz : bool then
          r ← read_gzip img st_size pos;
          match r with
          | None => mret None
          | Some (cs, pos) => image_chunks n img st_size pos (chunks ++ cs)
          end
        else
          clen ← scan_gzip (S (length img)) img st_size pos 0;
          image_chunks n img st_size (pos + clen) (chunks ++ [normal_at pos clen])
      else mret (Some chunks)
  end.

(** [file] is what [stat], [fopen] and [fread] give; the image in memory has four more
    bytes. *)
Definition padded (file : list Z) : list Z := file ++ [0; 0; 0; 0].
Definition ReadImage (file : option (list Z)) : outcome (option (list Z * list ImageChunk)) :=
  match file with
  | None => mret None
  | Some file =>
      r ← image_chunks (S (length file)) (padded file) (zlen file) 0 [];
      mret match r with Some cs => Some (padded file, cs) | None => None end
  end.

(** ** Zip files *)
Record ZipFileEntry := mk_entry {
  data_offset : Z; e_deflate_len : Z; uncomp_len : Z; e_filename : list Z
}.
Definition fileentry_compare (a b : ZipFileEntry) : Z :=
  if data_offset a <? data_offset b then -1 else if data_offset b <? data_offset a then 1 else 0.

(** The search for the end of the central directory: the index when the loop ends. *)
Fixpoint search_eocd (n : nat) img (st_size i : Z) : outcome Z :=
  match n with
  | O => Diverge
  | S n =>
      if (0 <=? i) && (st_size - 65600 <? i) then
        m ← bytes_at [0x50; 0x4b; 0x05; 0x06] img i;
        if m : bool then mret i else search_eocd n img st_size (i - 1)
      else mret i
  end.

(** The loop over the central directory; [None] is a malformed archive. *)
Fixpoint read_entries (n : nat) img (cd : Z) (entries : list ZipFileEntry)
    : outcome (option (list ZipFileEntry)) :=
  match n with
  | O => mret (Some entries)
  | S n =>
      m ← bytes_at [0x50; 0x4b; 0x01; 0x02] img cd;
      if negb m then mret None
      else
        clen ← Read4 img (cd + 20);
        ulen ← Read4 img (cd + 24);
        nlen ← Read2 img (cd + 28);
        xlen ← Read2 img (cd + 30);
        mlen ← Read2 img (cd + 32);
        hoffset ← Read4 img (cd + 42);
        filename ← rd_n img (cd + 46) nlen;
        method ← Read2 img (cd + 10);
        let cd := cd + (46 + nlen + xlen + mlen) in
        if negb (method =? 8) then read_entries n img cd entries
        else
          m ← bytes_at [0x50; 0x4b; 0x03; 0x04] img hoffset;
          if negb m then mret None
          else
            lnlen ← Read2 img (hoffset + 26);
            if negb (lnlen =? nlen) then mret None
            else
              lname ← rd_n img (hoffset + 30) nlen;
              if negb (memcmp lname filename nlen =? 0) then mret None
              else
                xlen ← Read2 img (hoffset + 28);
                off ← int_ok (hoffset + 30 + nlen + xlen);
                read_entries n img cd (entries ++ [mk_entry off clen ulen filename])
  end.

(** [qsort] with [fileentry_compare]: some sorted permutation. *)
Context (qsort : list ZipFileEntry → list ZipFileEntry).

(** The loop that makes the chunks; the entries that are left. *)
Fixpoint zip_chunks (n : nat) img (st_size pos : Z) (entries : list ZipFileEntry) (chunks : list ImageChunk)
    : outcome (option (list ImageChunk)) :=
  match n with
  | O => Diverge
  | S n =>
      if pos <? st_size then
        match entries with
        | e :: entries' =>
            if pos =? data_offset e then
              input ← rd_n img pos (u32 (e_deflate_len e));
              let '(ret, _, out, _) := inflate inflateInit2 input (u32 (uncomp_len e)) in
              if negb (ret =? Z_STREAM_END) then mret None
              else
                pos' ← int_ok (pos + e_deflate_len e);
                zip_chunks n img st_size pos' entries' (chunks ++
                  [deflate_at pos (u32 (e_deflate_len e)) out (u32 (uncomp_len e)) (Some (e_filename e))])
            else
              zip_chunks n img st_size (data_offset e) entries
                (chunks ++ [normal_at pos (u32 (data_offset e - pos))])
        | [] => zip_chunks n img st_size st_size [] (chunks ++ [normal_at pos (u32 (st_size - pos))])
        end
      else mret (Some chunks)
  end.

Definition ReadZip (file : option (list Z)) (include_pseudo_chunk : bool)
    : outcome (option (list Z * list ImageChunk)) :=
  match file with
  | None => mret None
  | Some img =>
      let st_size := zlen img in
      i ← search_eocd (S (length img)) img st_size (st_size - 20);
      single ← bytes_at [0; 0; 0; 0] img (i + 4);
      if negb single then mret None
      else
        cdcount ← Read2 img (i + 8);
        cdoffset ← Read4 img (i + 16);
        entries ← read_entries (Z.to_nat cdcount) img cdoffset [];
        match entries with
        | None => mret None
        | Some entries =>
            r ← zip_chunks (2 * length entries + 3) img st_size 0 (qsort entries)
                  (if include_pseudo_chunk then [normal_at 0 st_size] else []);
            mret match r with Some cs => Some (img, cs) | None => None end
        end
  end.

(** ** Reconstruction of the compressed data *)
Definition BUFFER_SIZE : Z := 32768.

Fixpoint try_loop (n : nat) img (deflate_len deflate_data : Z) (strm : dstate) (p : Z) : outcome Z :=
  match n with
  | O => Diverge
  | S n =>
      let '(ret, out, strm) := deflate strm BUFFER_SIZE in
      let have := zlen out in
      orig ← rd_n img (deflate_data + p) have;
      if negb (memcmp out orig have =? 0) then mret (-1)
      else
        let p := p + have in
        if negb (ret =? Z_STREAM_END) then try_loop n img deflate_len deflate_data strm p
        else mret (if negb (p =? deflate_len) then -1 else 0)
  end.

Definition TryReconstruction img (chunk : ImageChunk) : outcome Z :=
  data ← chunk_bytes img chunk;
  '(dlen, at_) ← of_option OutOfBounds (c_deflate chunk);
  let e := c_encoder chunk in
  try_loop fuel img dlen at_ (deflateInit2 (level e) (method e) (windowBits e) (memLevel e) (strategy e) data) 0.

Definition Z_DEFLATED : Z := 8.
Definition Z_DEFAULT_STRATEGY : Z := 0.
Definition encoder_of (lv : Z) : encoder := mk_encoder lv Z_DEFLATED (-15) 8 Z_DEFAULT_STRATEGY.

(** The loop over the two levels. *)
Fixpoint try_levels (levels : list Z) img (chunk : ImageChunk) : outcome (Z * ImageChunk) :=
  match levels with
  | [] => mret (-1, chunk)
  | lv :: levels =>
      let chunk := set_encoder chunk (encoder_of lv) in
      r ← TryReconstruction img chunk;
      if r =? 0 then mret (0, chunk) else try_levels levels img chunk
  end.
Definition ReconstructDeflateChunk img (chunk : ImageChunk) : outcome (Z * ImageChunk) :=
  if negb (c_type chunk =? CHUNK_DEFLATE) then mret (-1, chunk) else try_levels [6; 9] img chunk.

(** ** Patches of chunks *)

(** [stat] and [fopen] with [fread] of the temporary file succeed. *)
Context (tmp_stat tmp_read : bool).

(** The chunks as they are left, and the patch, whose length is [*size]; [None] is NULL. *)
Definition MakePatch (src_img tgt_img : list Z) (src tgt : ImageChunk)
    : outcome (ImageChunk * ImageChunk * option (list Z)) :=
  if (c_type tgt =? CHUNK_NORMAL) && (c_len tgt <=? 160) then
    data ← chunk_bytes tgt_img tgt;
    mret (src, set_data tgt CHUNK_RAW (c_start tgt) (c_len tgt) (c_data tgt), Some data)
  else
    old ← chunk_bytes src_img src;
    new ← chunk_bytes tgt_img tgt;
    Ia ← suffix_array fuel old (c_I src);
    let src := set_I src Ia in
    patch ← bsdiff bz_compress fuel old (Some Ia) new;
    if negb tmp_stat then mret (src, tgt, None)
    else if (c_type tgt =? CHUNK_NORMAL) && (c_len tgt <=? zlen patch) then
      mret (src, set_data tgt CHUNK_RAW (c_start tgt) (c_len tgt) (c_data tgt), Some new)
    else if negb tmp_read then mret (src, tgt, None)
    else if c_type tgt =? CHUNK_NORMAL then
      mret (src, set_source tgt (c_start src) (c_len src) (c_source_uncompressed_len tgt), Some patch)
    else if c_type tgt =? CHUNK_DEFLATE then
      '(dlen, _) ← of_option OutOfBounds (c_deflate src);
      mret (src, set_source tgt (c_start src) dlen (c_len src), Some patch)
    else mret (src, set_source tgt (c_start src) (c_source_len tgt) (c_source_uncompressed_len tgt), Some patch).

Definition ChangeDeflateChunkToNormal (ch : ImageChunk) : outcome ImageChunk :=
  if negb (c_type ch =? CHUNK_DEFLATE) then mret ch
  else
    '(dlen, at_) ← of_option OutOfBounds (c_deflate ch);
    mret (set_data ch CHUNK_NORMAL (c_start ch) dlen (InImage at_)).

(** [a] is a chunk of the target and [b] one of the source. *)
Definition AreChunksEqual (tgt_img src_img : list Z) (a b : ImageChunk) : outcome bool :=
  if negb (c_type a =? c_type b) then mret false
  else if c_type a =? CHUNK_NORMAL then
    if negb (c_len a =? c_len b) then mret false
    else
      x ← chunk_bytes tgt_img a;
      y ← chunk_bytes src_img b;
      mret (memcmp x y (c_len a) =? 0)
  else if c_type a =? CHUNK_DEFLATE then
    '(alen, apos) ← of_option OutOfBounds (c_deflate a);
    '(blen, bpos) ← of_option OutOfBounds (c_deflate b);
    if negb (alen =? blen) then mret false
    else
      x ← rd_n tgt_img apos alen;
      y ← rd_n src_img bpos alen;
      mret (memcmp x y alen =? 0)
  else mret false.

(** [b == a + n] *)
Definition data_follows (a : chunk_data) (n : Z) (b : chunk_data) : bool :=
  match a, b with InImage x, InImage y => y =? x + n | _, _ => false end.

Definition chunk_at (chunks : list ImageChunk) (i : nat) : outcome ImageChunk :=
  of_option OutOfBounds (chunks !! i).

(** The end of the run of normal chunks. *)
Fixpoint run_end (n : nat) (chunks : list ImageChunk) (in_end : nat) : outcome nat :=
  match n with
  | O => mret in_end
  | S n =>
      if (in_end <? length chunks)%nat then
        c ← chunk_at chunks in_end;
        prev ← chunk_at chunks (in_end - 1);
        if (c_type c =? CHUNK_NORMAL) && (c_start c =? c_start prev + c_len prev)
             && data_follows (c_data prev) (c_len prev) (c_data c)
        then run_end n chunks (S in_end)
        else mret in_end
      else mret in_end
  end.

Fixpoint merge_loop (n : nat) (chunks : list ImageChunk) (out in_start : nat)
    : outcome (list ImageChunk * nat) :=
  match n with
  | O => Diverge
  | S n =>
      if (in_start <? length chunks)%nat then
        first ← chunk_at chunks in_start;
        in_end ← (if negb (c_type first =? CHUNK_NORMAL) then mret (S in_start)
                  else run_end (length chunks) chunks (S in_start));
        if (in_end =? S in_start)%nat then
          merge_loop n (<[out := first]> chunks) (S out) in_end
        else
          last ← chunk_at chunks (in_end - 1);
          old ← chunk_at chunks out;
          let c := set_data old CHUNK_NORMAL (c_start first)
                     (c_len last + (c_start last - c_start first)) (c_data first) in
          merge_loop n (<[out := c]> chunks) (S out) in_end
      else mret (chunks, out)
  end.

(** The chunks up to the new [*num_chunks]. *)
Definition MergeAdjacentNormalChunks (chunks : list ImageChunk) : outcome (list ImageChunk) :=
  '(chunks, out) ← merge_loop (S (length chunks)) chunks 0 0;
  mret (take out chunks).

Fixpoint find_name (name : list Z) (chunks : list ImageChunk) (i : nat) : option nat :=
  match chunks with
  | [] => None
  | c :: chunks =>
      match c_filename c with
      | Some f =>
          if (c_type c =? CHUNK_DEFLATE) && (strcmp (c_string name) (c_string f) =? 0) then Some i
          else find_name name chunks (S i)
      | None => find_name name chunks (S i)
      end
  end.
Definition FindChunkByName (name : list Z) (chunks : list ImageChunk) : option nat := find_name name chunks 0.

(** ** main *)

(** The partner of a chunk of the target. *)
Definition partner (zip_mode : bool) (src : list ImageChunk) (i : nat) (t : ImageChunk) : outcome (option nat) :=
  if zip_mode then
    name ← of_option NullPointer (c_filename t);
    mret (FindChunkByName name src)
  else mret (Some i).
Definition change_at (chunks : list ImageChunk) (i : nat) : outcome (list ImageChunk) :=
  c ← chunk_at chunks i;
  c ← ChangeDeflateChunkToNormal c;
  mret (<[i := c]> chunks).
Definition change_partner (src : list ImageChunk) (j : option nat) : outcome (list ImageChunk) :=
  match j with Some j => change_at src j | None => mret src end.

(** The loop that decides which chunks are treated as normal: source and target. *)
Fixpoint normalize (n : nat) (zip_mode : bool) (src_img tgt_img : list Z) (src tgt : list ImageChunk) (i : nat)
    : outcome (list ImageChunk * list ImageChunk) :=
  match n with
  | O => mret (src, tgt)
  | S n =>
      t ← chunk_at tgt i;
      '(src, tgt) ←
        (if c_type t =? CHUNK_DEFLATE then
           '(r, t) ← ReconstructDeflateChunk tgt_img t;
           let tgt := <[i := t]> tgt in
           j ← partner zip_mode src i t;
           if r <? 0 then
             tgt ← change_at tgt i;
             src ← change_partner src j;
             mret (src, tgt)
           else
             same ← match j with
                    | None => mret true
                    | Some j => s ← chunk_at src j; AreChunksEqual tgt_img src_img t s
                    end;
             if same : bool then
               tgt ← change_at tgt i;
               src ← change_partner src j;
               mret (src, tgt)
             else mret (src, tgt)
         else mret (src, tgt));
      normalize n zip_mode src_img tgt_img src tgt (S i)
  end.

(** The loop over the patches. *)
Fixpoint make_patches (n : nat) (zip_mode : bool) (src_img tgt_img : list Z) (src tgt : list ImageChunk)
    (i : nat) (patches : list (option (list Z))) : outcome (list ImageChunk * list (option (list Z))) :=
  match n with
  | O => mret (tgt, patches)
  | S n =>
      t ← chunk_at tgt i;
      j ← (if zip_mode then
             if c_type t =? CHUNK_DEFLATE then
               name ← of_option NullPointer (c_filename t);
               mret (default O (FindChunkByName name src))
             else mret O
           else mret i);
      s ← chunk_at src j;
      '(s, t, patch) ← MakePatch src_img tgt_img s t;
      make_patches n zip_mode src_img tgt_img (<[j := s]> src) (<[i := t]> tgt) (S i) (patches ++ [patch])
  end.

(** The size of a record, and its bytes. *)
Definition record_size (c : ImageChunk) (patch : list Z) : Z :=
  4 + (if c_type c =? CHUNK_NORMAL then 8 * 3
       else if c_type c =? CHUNK_DEFLATE then 8 * 5 + 4 * 5
       else if c_type c =? CHUNK_RAW then 4 + zlen patch else 0).
Definition total_header_size (l : list (ImageChunk * list Z)) : Z :=
  foldl (λ n '(c, patch), n + record_size c patch) 12 l.

Fixpoint write_headers (l : list (ImageChunk * list Z)) (offset : Z) : list Z :=
  match l with
  | [] => []
  | (c, patch) :: l =>
      Write4 (c_type c) ++
      if c_type c =? CHUNK_NORMAL then
        Write8 (c_source_start c) ++ Write8 (c_source_len c) ++ Write8 offset ++
        write_headers l (offset + zlen patch)
      else if c_type c =? CHUNK_DEFLATE then
        let e := c_encoder c in
        Write8 (c_source_start c) ++ Write8 (c_source_len c) ++ Write8 offset ++
        Write8 (c_source_uncompressed_len c) ++ Write8 (c_len c) ++ Write4 (level e) ++
        Write4 (method e) ++ Write4 (windowBits e) ++ Write4 (memLevel e) ++ Write4 (strategy e) ++
        write_headers l (offset + zlen patch)
      else if c_type c =? CHUNK_RAW then
        Write4 (zlen patch) ++ patch ++ write_headers l offset
      else write_headers l offset
  end.
Definition write_bodies (l : list (ImageChunk * list Z)) : list Z :=
  concat ((λ '(c, patch), if negb (c_type c =? CHUNK_RAW) then patch else []) <$> l).
Definition patch_contents (l : list (ImageChunk * list Z)) : list Z :=
  str "IMGDIFF2" ++ Write4 (zlen l) ++ write_headers l (total_header_size l) ++ write_bodies l.

Definition same_types (src tgt : list ImageChunk) : bool :=
  bool_decide (c_type <$> src = c_type <$> tgt).

(** From the chunks to the contents of the patch file; [None] is the status 1. A patch that
    is NULL is given to [fwrite]. *)
Definition diff_chunks (zip_mode : bool) (src_img tgt_img : list Z) (src tgt : list ImageChunk)
    : outcome (option (list Z)) :=
  '(src, tgt) ← normalize (length tgt) zip_mode src_img tgt_img src tgt 0;
  tgt ← MergeAdjacentNormalChunks tgt;
  src ← (if zip_mode then mret src else MergeAdjacentNormalChunks src);
  if negb zip_mode && negb (length src =? length tgt)%nat then mret None
  else
    '(tgt, patches) ← make_patches (length tgt) zip_mode src_img tgt_img src tgt 0 [];
    patches ← of_option NullPointer (mapM id patches);
    mret (Some (patch_contents (zip tgt patches))).

(** Files by name, and whether the patch file can be opened. *)
Context (read_file : list Z → option (list Z)) (open_ok : list Z → bool).

(** Status, and what was written. *)
Definition imgdiff_main (argv : list (list Z)) : outcome (Z * option (list Z)) :=
  if negb (length argv =? 4)%nat && negb (length argv =? 5)%nat then mret (2, None)
  else
    let zip_mode := strcmp (default [] (argv !! 1%nat)) (str "-z") =? 0 in
    let argv := if zip_mode then drop 1 argv else argv in
    let src_file := argv !! 1%nat ≫= read_file in
    let tgt_file := argv !! 2%nat ≫= read_file in
    s ← (if zip_mode then ReadZip src_file true else ReadImage src_file);
    match s with
    | None => mret (1, None)
    | Some (src_img, src) =>
        t ← (if zip_mode then ReadZip tgt_file false else ReadImage tgt_file);
        match t with
        | None => mret (1, None)
        | Some (tgt_img, tgt) =>
            tgt ← (if zip_mode then mret tgt else MergeAdjacentNormalChunks tgt);
            src ← (if zip_mode then mret src else MergeAdjacentNormalChunks src);
            if negb zip_mode && negb (same_types src tgt) then mret (1, None)
            else
              contents ← diff_chunks zip_mode src_img tgt_img src tgt;
              match contents with
              | None => mret (1, None)
              | Some contents =>
                  name ← of_option NullPointer (argv !! 3%nat);
                  if negb (open_ok name) then Fault NullPointer else mret (0, Some contents)
              end
        end
    end.
End code.
