(* ===== verification/Imgtrip.v ===== *)
(** * Imgtrip

    The theorem of imgdiff.c: the patch of two images, applied by imgpatch.c to the first,
    yields the second. *)
From S2P Require Import Prelude CString Bspatch Bsdiff Sufsort Imgpatch Imgdiff.

(** ** What the documentation of zlib says

    A run of calls of [inflate], each with some room, that ends: how much input it uses and
    what it outputs. *)
Inductive inflate_run `{Inflate} : istate → list Z → nat → list Z → Prop :=
  | inflate_end st input n k out st' :
      inflate st input n = (Z_STREAM_END, k, out, st') → inflate_run st input k out
  | inflate_more st input n ret k out st' k' out' :
      inflate st input n = (ret, k, out, st') → ret ≠ Z_STREAM_END →
      inflate_run st' (drop k input) k' out' → inflate_run st input (k + k') (out ++ out').

(** The parameters that [deflateInit2] accepts, with a level that compresses; with others it
    answers Z_STREAM_ERROR. *)
Definition encoder_valid (e : encoder) : Prop :=
  1 ≤ level e ≤ 9 ∧ method e = 8 ∧ (9 ≤ windowBits e ≤ 15 ∨ -15 ≤ windowBits e ≤ -9) ∧
  1 ≤ memLevel e ≤ 9 ∧ 0 ≤ strategy e ≤ 4.

(** What is decoded does not depend on how it is cut into calls, and what is encoded with valid
    parameters comes to its end and does not depend on the size of the buffer. *)
Class ZlibLaws `{Deflate} `{Inflate} := {
  zlib_init : inflateInit2_raw = Z_OK;
  inflate_whole input k out : inflate_run inflateInit2 input k out →
    (k ≤ length input)%nat ∧ inflate_once (take k input) (zlen out) = (Z_STREAM_END, out) ∧
    (bytes_ok input → bytes_ok out);
  deflated : encoder → list Z → list Z;
  deflate_ends e input size : encoder_valid e → 0 < size → ∃ n, ∀ m, (n ≤ m)%nat →
    deflate_all m (deflateInit2 (level e) (method e) (windowBits e) (memLevel e) (strategy e) input) size =
      Some (deflated e input)
}.

(** ** Chunks that tile an image *)

Definition extent (c : ImageChunk) : Z :=
  match c_deflate c with
  | Some (d, _) => if c_type c =? CHUNK_DEFLATE then d else c_len c
  | None => c_len c
  end.
Definition image_end (cs : list ImageChunk) : Z := foldr (λ c n, extent c + n) 0 cs.

Fixpoint starts (p : Z) (es : list Z) : list Z :=
  match es with [] => [] | e :: es => p :: starts (p + e) es end.

Definition normal_ok (c : ImageChunk) : Prop :=
  c_type c = CHUNK_NORMAL ∧ c_data c = InImage (c_start c) ∧ 0 ≤ c_len c.
Definition deflate_ok `{Deflate} (img : list Z) (c : ImageChunk) : Prop :=
  c_type c = CHUNK_DEFLATE ∧ ∃ b d, c_data c = Buffer b ∧ c_len c = zlen b ∧
    c_deflate c = Some (d, c_start c) ∧ 0 ≤ d ∧ bytes_ok b ∧
    inflate_once (slice img (c_start c) d) (zlen b) = (Z_STREAM_END, b).
Definition chunk_ok `{Deflate} (img : list Z) (c : ImageChunk) : Prop :=
  (normal_ok c ∨ deflate_ok img c) ∧ c_I c = None ∧ 0 ≤ c_start c ∧ c_start c + extent c ≤ zlen img.

(** The chunks follow each other from [p] on. *)
Definition tiles `{Deflate} (img : list Z) (p : Z) (cs : list ImageChunk) : Prop :=
  Forall (chunk_ok img) cs ∧ c_start <$> cs = starts p (extent <$> cs).

Section tiles.
Context `{Deflate} (img : list Z).
Implicit Types (c : ImageChunk) (cs : list ImageChunk).

Lemma tiles_nil p : tiles img p [].
Proof. split; [constructor|done]. Qed.
Lemma tiles_cons p c cs :
  tiles img p (c :: cs) ↔ chunk_ok img c ∧ c_start c = p ∧ tiles img (p + extent c) cs.
Proof.
  unfold tiles. rewrite Forall_cons. cbn [fmap list_fmap starts]. split.
  - intros [[??] [= -> ?]]. done.
  - intros (? & -> & ? & ->). done.
Qed.
Lemma tiles_app p cs1 cs2 :
  tiles img p (cs1 ++ cs2) ↔ tiles img p cs1 ∧ tiles img (p + image_end cs1) cs2.
Proof.
  revert p. induction cs1 as [|c cs1 IH]; intros p; simpl.
  - rewrite Z.add_0_r. split; [|by intros [_ ?]]. intros. split; [apply tiles_nil|done].
  - rewrite !tiles_cons, IH, Z.add_assoc. tauto.
Qed.
Lemma image_end_app cs1 cs2 : image_end (cs1 ++ cs2) = image_end cs1 + image_end cs2.
Proof. induction cs1 as [|c cs1 IH]; simpl; lia. Qed.

Lemma extent_normal c : normal_ok c → extent c = c_len c.
Proof. intros (Ht & _). unfold extent. rewrite Ht. by destruct (c_deflate c) as [[]|]. Qed.
Lemma extent_nonneg c : chunk_ok img c → 0 ≤ extent c.
Proof.
  intros [[Hn|(Ht & b & d & _ & _ & Hd & ? & _)] _].
  - rewrite extent_normal by done. by destruct Hn as (_ & _ & ?).
  - unfold extent. by rewrite Hd, Ht.
Qed.
Lemma image_end_nonneg cs : Forall (chunk_ok img) cs → 0 ≤ image_end cs.
Proof. induction 1 as [|c cs Hc _ IH]; simpl; [lia|]. pose proof (extent_nonneg c Hc). lia. Qed.

(** The bytes of the tiles, one after the other, are the image. *)
Definition tile c : list Z := slice img (c_start c) (extent c).
Lemma tiles_cover p cs : 0 ≤ p → tiles img p cs →
  concat (tile <$> cs) = slice img p (image_end cs).
Proof.
  revert p. induction cs as [|c cs IH]; intros p Hp; [done|]. rewrite tiles_cons.
  intros (Hc & Hs & Hcs). cbn [fmap list_fmap concat image_end foldr]. fold (image_end cs).
  pose proof (extent_nonneg c Hc). pose proof (image_end_nonneg cs (proj1 Hcs)).
  rewrite (IH (p + extent c)) by (done || lia). unfold tile, slice. rewrite Hs.
  replace (Z.to_nat (p + extent c)) with (Z.to_nat p + Z.to_nat (extent c))%nat by lia.
  rewrite <- drop_drop, take_take_drop. f_equal. lia.
Qed.

(** A change that keeps a chunk in its place. *)
Lemma tiles_insert p cs i c c' :
  cs !! i = Some c → c_start c' = c_start c → extent c' = extent c → chunk_ok img c' →
  tiles img p cs → tiles img p (<[i := c']> cs) ∧ image_end (<[i := c']> cs) = image_end cs.
Proof.
  intros Hi Hs He Hc' [Hok Hst]. split.
  - split; [by apply Forall_insert|]. rewrite !list_fmap_insert, Hs, He.
    rewrite !list_insert_id; [done| |]; rewrite list_lookup_fmap, Hi; done.
  - clear -Hi He. revert i Hi. induction cs as [|x cs IH]; intros [|i] Hi; simpl in *; [done..| |].
    + injection Hi as ->. lia.
    + by rewrite IH.
Qed.
Lemma tiles_lookup p cs i c : tiles img p cs → cs !! i = Some c → chunk_ok img c.
Proof. intros [Hok _] Hi. by eapply Forall_lookup_1 in Hok. Qed.
End tiles.

(** ** Reading an image *)
Section read.
Context `{ZlibLaws} (fuel : nat).

Lemma inflate_all_spec n strm input data al data' rest :
  inflate_all n strm input data al = Ret (data', rest) →
  ∃ k out, inflate_run strm input k out ∧ data' = data ++ out ∧ rest = drop k input.
Proof.
  revert strm input data al. induction n as [|n IH]; intros strm input data al; [done|].
  cbn [inflate_all]. destruct (inflate _ _ _) as [[[ret k] out] strm'] eqn:Hc. cbv zeta.
  destruct (Z.eqb_spec ret Z_STREAM_END) as [->|Hne]; cbn [negb].
  - intros [= <- <-]. exists k, out. split; [by eapply inflate_end|done].
  - intros (k' & out' & Hrun & -> & ->)%IH. exists (k + k')%nat, (out ++ out').
    rewrite app_assoc, drop_drop. split; [by eapply inflate_more|done].
Qed.

Lemma normal_at_ok img pos n : 0 ≤ pos → 0 ≤ n → pos + n ≤ zlen img → chunk_ok img (normal_at pos n).
Proof.
  intros. assert (normal_ok (normal_at pos n)) by done.
  split; [by left|]. rewrite extent_normal by done. simpl. done.
Qed.

Lemma read_gzip_spec img st_size pos :
  zlen img = st_size + 4 → st_size < 2 ^ 31 → bytes_ok img → 0 ≤ pos < st_size →
  post (read_gzip fuel img st_size pos) (λ r,
    match r with
    | Some (cs, pos') => tiles img pos cs ∧ pos' = pos + image_end cs ∧ pos < pos'
    | None => True
    end).
Proof.
  intros Hlen Hsmall Hbytes Hpos r Hr. unfold read_gzip in Hr. cbv zeta in Hr.
  unfold GZIP_HEADER_LEN, GZIP_FOOTER_LEN in Hr. step_ret Hr. rename a into input, E into Hin.
  step_ret Hr. destruct a as [data rest]. rename E into Hinf. step_ret Hr. rename E into Hfoot.
  destruct (negb _); injection Hr as <-; [done|].
  apply rd_n_Ret_inv in Hin as (_ & _ & Hin & ->).
  apply inflate_all_spec in Hinf as (k & out & Hrun & -> & ->). simpl.
  set (p := pos + 10) in *. set (m := st_size - p) in *.
  assert (0 ≤ m) as Hm.
  { destruct (Z.ltb_spec m 0); [|done]. assert (u32 m = m + 2 ^ 32) by (widths; zdiv). lia. }
  rewrite u32_small in Hrun, Hfoot |- * by lia.
  set (input := take (Z.to_nat m) (drop (Z.to_nat p) img)) in *.
  assert (Hil : zlen input = m) by (subst input; rewrite length_take, length_drop; lia).
  destruct (inflate_whole input k out Hrun) as (Hk & Honce & Hok).
  assert (Hd : st_size - zlen (drop k input) - p = Z.of_nat k) by (rewrite length_drop; lia).
  unfold Read4 in Hfoot. do 4 step_ret Hfoot. apply rd_bounds in E. rewrite Hd in *. clear Hfoot E0 E1 E2.
  assert (Hp' : bytes_ok input) by (by apply Forall_take, Forall_drop).
  split; [|unfold extent; simpl; lia].
  rewrite !tiles_cons. unfold extent. simpl.
  split; [apply normal_at_ok; lia|]. split; [done|]. split; [|split; [lia|split; [apply normal_at_ok; lia|
    split; [lia|apply tiles_nil]]]].
  split; [|unfold extent; simpl; split; [done|lia]]. right. split; [done|]. exists out, (Z.of_nat k). simpl.
  split; [done|]. split; [done|]. split; [done|]. split; [lia|]. split; [by apply Hok|].
  unfold slice. rewrite Nat2Z.id. subst input. rewrite take_take in Honce.
  rewrite Nat.min_l in Honce by (rewrite length_take in Hk; lia). done.
Qed.

Lemma scan_gzip_spec n img st_size pos clen :
  0 ≤ clen ≤ st_size - pos →
  post (scan_gzip n img st_size pos clen) (λ r, clen ≤ r ≤ st_size - pos).
Proof.
  revert clen. induction n as [|n IH]; intros clen Hc; [auto with c_model|]. cbn [scan_gzip].
  destruct (Z.ltb_spec clen (st_size - pos)); [|apply post_ret; lia].
  apply post_any. intros [|]; [apply post_ret; lia|]. eapply post_mono; [apply IH; lia|]. simpl. lia.
Qed.

Lemma image_chunks_spec n img st_size pos cs :
  zlen img = st_size + 4 → st_size < 2 ^ 31 → bytes_ok img → 0 ≤ pos →
  tiles img 0 cs → image_end cs = pos →
  post (image_chunks fuel n img st_size pos cs) (λ r,
    match r with Some cs => tiles img 0 cs ∧ st_size ≤ image_end cs | None => True end).
Proof.
  intros Hlen Hsmall Hbytes. revert pos cs.
  induction n as [|n IH]; intros pos cs Hpos Hcs Hend; [auto with c_model|]. cbn [image_chunks].
  destruct (Z.ltb_spec pos st_size); [|apply post_ret; split; [done|lia]]. apply post_any. intros [|].
  - eapply post_bind; [by apply read_gzip_spec|]. intros [[cs' pos']|]; [|intros _; by apply post_ret].
    intros (Ht & -> & ?). apply IH; [lia| |].
    + apply tiles_app. by rewrite Z.add_0_l, Hend.
    + rewrite image_end_app. lia.
  - eapply post_bind; [apply scan_gzip_spec; lia|]. intros clen Hclen. cbn beta in Hclen.
    assert (Hext : extent (normal_at pos clen) = clen) by done.
    apply IH; [lia| |].
    + apply tiles_app. split; [done|]. rewrite Z.add_0_l, Hend, tiles_cons, Hext.
      split; [|split; [done|apply tiles_nil]]. apply normal_at_ok; lia.
    + rewrite image_end_app. simpl. lia.
Qed.

Lemma padded_bytes file : bytes_ok file → bytes_ok (padded file).
Proof. intros. apply Forall_app. split; [done|]. repeat constructor; lia. Qed.
Lemma length_padded file : zlen (padded file) = zlen file + 4.
Proof. unfold padded. rewrite length_app. simpl. lia. Qed.

Lemma ReadImage_spec file :
  bytes_ok file → zlen file < 2 ^ 31 →
  post (ReadImage fuel (Some file)) (λ r,
    match r with
    | Some (img, cs) => img = padded file ∧ tiles img 0 cs ∧ zlen file ≤ image_end cs
    | None => True
    end).
Proof.
  intros Hbytes Hsmall. unfold ReadImage. eapply post_bind.
  { apply image_chunks_spec; [apply length_padded|done|by apply padded_bytes|done|apply tiles_nil|done]. }
  intros [cs|]; [|by intros _; apply post_ret]. intros [Ht Hend]. by apply post_ret.
Qed.
End read.

(** ** Merging *)

Definition starts_normal (ts : list Z) : bool :=
  match ts with t :: _ => t =? CHUNK_NORMAL | [] => false end.
(** What merging does to the types: a run of normal chunks becomes one. *)
Fixpoint collapse (ts : list Z) : list Z :=
  match ts with
  | [] => []
  | t :: ts => if (t =? CHUNK_NORMAL) && starts_normal ts then collapse ts else t :: collapse ts
  end.
Definition run_length (cs : list ImageChunk) : nat :=
  count_while (λ t, t =? CHUNK_NORMAL) (c_type <$> cs).

Lemma collapse_run cs rest :
  Forall (λ c, c_type c = CHUNK_NORMAL) cs → starts_normal (c_type <$> rest) = false → cs ≠ [] →
  collapse (c_type <$> (cs ++ rest)) = CHUNK_NORMAL :: collapse (c_type <$> rest).
Proof.
  intros Hcs Hr. induction Hcs as [|c cs Hc Hcs IH]; [done|]. intros _.
  rewrite fmap_app. cbn [fmap list_fmap app collapse]. rewrite Hc, Z.eqb_refl. cbn [andb].
  destruct cs as [|c' cs]; simpl.
  - by rewrite Hr.
  - inversion Hcs as [|? ? Hc' ?]; subst. rewrite Hc', Z.eqb_refl. specialize (IH ltac:(done)).
    rewrite fmap_app in IH. cbn [fmap list_fmap app] in IH. by rewrite Hc' in IH.
Qed.

Lemma run_length_split cs : ∃ run rest, cs = run ++ rest ∧ length run = run_length cs ∧
  Forall (λ c, c_type c = CHUNK_NORMAL) run ∧ starts_normal (c_type <$> rest) = false.
Proof.
  induction cs as [|c cs (run & rest & -> & Hl & Hrun & Hrest)]; [by exists [], []|].
  unfold run_length in *. simpl. destruct (Z.eqb_spec (c_type c) CHUNK_NORMAL) as [Hc|Hc].
  - exists (c :: run), rest. simpl. rewrite Hl. split; [done|]. split; [done|]. by split; [constructor|].
  - exists [], (c :: run ++ rest). simpl. by rewrite (proj2 (Z.eqb_neq _ _) Hc).
Qed.

Section merge.
Context `{Deflate} (img : list Z).
Implicit Types (A cs M : list ImageChunk).

Lemma chunk_at_Some cs i c : cs !! i = Some c → chunk_at cs i = Ret c.
Proof. unfold chunk_at. by intros ->. Qed.

Lemma chunk_ok_normal c : chunk_ok img c → c_type c = CHUNK_NORMAL → normal_ok c.
Proof. by intros [[?|(Ht & _)] _] Hn; [|rewrite Hn in Ht]. Qed.

Lemma run_end_spec n A e prev r p :
  (0 < e)%nat → drop (e - 1) A = prev :: r → tiles img p (prev :: r) → c_type prev = CHUNK_NORMAL →
  (length A ≤ n + e)%nat → post (run_end n A e) (λ e', e' = (e + run_length r)%nat).
Proof.
  revert e prev r p. induction n as [|n IH]; intros e prev r p He Hd Ht Hp Hn; cbn [run_end].
  { apply post_ret. assert (length (drop (e - 1) A) = S (length r)) by by rewrite Hd.
    rewrite length_drop in *. destruct r; simpl in *; [unfold run_length; simpl; lia|lia]. }
  assert (Hr : drop e A = r).
  { replace e with (e - 1 + 1)%nat by lia. by rewrite <- drop_drop, Hd. }
  destruct (Nat.ltb_spec e (length A)) as [Hlt|Hge]; cycle 1.
  { apply post_ret. rewrite drop_ge in Hr by done. subst r. unfold run_length. simpl. lia. }
  destruct r as [|c r]; [assert (length (drop e A) = O) by (by rewrite Hr); rewrite length_drop in *; lia|].
  assert (Hc : A !! e = Some c) by (rewrite <- (Nat.add_0_r e), <- lookup_drop, Hr; done).
  assert (Hpv : A !! (e - 1)%nat = Some prev) by (rewrite <- (Nat.add_0_r (e - 1)), <- lookup_drop, Hd; done).
  rewrite (chunk_at_Some _ _ _ Hc), (chunk_at_Some _ _ _ Hpv). cbn [mbind outcome_bind].
  rewrite !tiles_cons in Ht. destruct Ht as (Hpo & Hps & Hco & Hcs & Ht).
  pose proof (chunk_ok_normal _ Hpo Hp) as Hpn. rewrite (extent_normal prev Hpn) in *.
  unfold run_length. cbn [fmap list_fmap count_while].
  destruct (Z.eqb_spec (c_type c) CHUNK_NORMAL) as [Hct|]; cbn [andb]; [|apply post_ret; lia].
  pose proof (chunk_ok_normal _ Hco Hct) as Hcn.
  destruct Hpn as (_ & Hpd & _), Hcn as (_ & Hcd & _).
  rewrite Hpd, Hcd, Hcs, Hps, Z.eqb_refl. cbn [andb data_follows]. rewrite Z.eqb_refl.
  eapply post_mono.
  - apply (IH (S e) c r (p + c_len prev)); [lia| |rewrite tiles_cons; done|done|lia].
    by replace (S e - 1)%nat with e by lia.
  - simpl. intros e' ->. unfold run_length. lia.
Qed.

(** Merging keeps the tiles, and of the deflate chunks every field. *)
Definition merged cs M : Prop :=
  image_end M = image_end cs ∧ c_type <$> M = collapse (c_type <$> cs) ∧
  Forall (λ c, c_type c = CHUNK_DEFLATE → c ∈ cs) M ∧ ∀ p, tiles img p cs → tiles img p M.

Lemma merged_cons c cs M :
  (c_type c = CHUNK_NORMAL → starts_normal (c_type <$> cs) = false) →
  merged cs M → merged (c :: cs) (c :: M).
Proof.
  intros Hs (He & Ht & Hd & Htile). split; [simpl; by rewrite He|]. split; [|split].
  - cbn [fmap list_fmap collapse]. destruct (Z.eqb_spec (c_type c) CHUNK_NORMAL) as [Hc|]; simpl; [|by f_equal].
    rewrite Hs by done. by f_equal.
  - constructor; [by left|]. eapply Forall_impl; [exact Hd|]. simpl. intros x Hx ?. right. auto.
  - intros p. rewrite !tiles_cons. intros (? & ? & ?). eauto.
Qed.

Lemma merged_run old first run last rest M p :
  tiles img p (first :: run ++ [last] ++ rest) → c_I old = None →
  Forall (λ c, c_type c = CHUNK_NORMAL) (first :: run ++ [last]) →
  starts_normal (c_type <$> rest) = false → merged rest M →
  merged (first :: run ++ [last] ++ rest)
    (set_data old CHUNK_NORMAL (c_start first) (c_len last + (c_start last - c_start first)) (c_data first) :: M).
Proof.
  intros Ht HI Hrun Hrest (He & Hty & Hd & Htile). set (c := set_data _ _ _ _ _).
  apply Forall_cons in Hrun as Hr. destruct Hr as [Hfn Hr]. apply Forall_app in Hr as [_ Hln].
  apply Forall_cons in Hln as [Hln _].
  assert (Hsplit : first :: run ++ [last] ++ rest = (first :: run ++ [last]) ++ rest).
  { simpl. by rewrite <- app_assoc. }
  assert (Hall := Ht). rewrite Hsplit, tiles_app in Hall. destruct Hall as [Hrt Hrr].
  assert (Hlast := Hrt). change (first :: run ++ [last]) with ((first :: run) ++ [last]) in Hlast.
  rewrite tiles_app, tiles_cons in Hlast. destruct Hlast as [(Hfo & Hfs & _) Hlast].
  rewrite tiles_cons in Hlast. destruct Hlast as (Hlo & Hls & _).
  pose proof (chunk_ok_normal _ Hfo Hfn) as (_ & Hfd & _).
  pose proof (extent_normal _ (chunk_ok_normal _ Hlo Hln)) as Hle.
  pose proof (extent_nonneg img _ Hlo) as Hl0.
  pose proof (image_end_nonneg img (first :: run)) as Hr0.
  assert (Forall (chunk_ok img) (first :: run)) as Hfr.
  { destruct Hrt as [Hrt _]. change (first :: run ++ [last]) with ((first :: run) ++ [last]) in Hrt.
    by apply Forall_app in Hrt as [? _]. }
  specialize (Hr0 Hfr).
  assert (Hclen : c_len c = image_end (first :: run ++ [last])).
  { change (first :: run ++ [last]) with ((first :: run) ++ [last]). rewrite image_end_app.
    subst c. cbn [c_len set_data]. rewrite Hls, Hfs. simpl. simpl in Hle. lia. }
  assert (Hcn : normal_ok c).
  { split; [done|]. split; [done|]. rewrite Hclen.
    change (first :: run ++ [last]) with ((first :: run) ++ [last]). rewrite image_end_app. simpl in *. lia. }
  pose proof (extent_normal c Hcn) as Hce. rewrite Hclen in Hce.
  split; [|split; [|split]].
  - rewrite Hsplit, image_end_app. cbn [image_end foldr]. fold (image_end M). by rewrite Hce, He.
  - rewrite Hsplit, collapse_run by done. cbn [fmap list_fmap]. by f_equal.
  - constructor; [done|]. eapply Forall_impl; [exact Hd|]. intros x Hx ?. rewrite Hsplit.
    apply elem_of_app. right. auto.
  - intros q Hq. rewrite Hsplit, tiles_app in Hq. destruct Hq as [Hq1 Hq2].
    rewrite tiles_cons, Hce. split; [|split; [|auto]].
    + split; [by left|]. split; [done|]. rewrite Hce. destruct Hfo as (_ & _ & ? & _).
      split; [done|]. change (c_start c) with (c_start first). rewrite Hfs.
      change (first :: run ++ [last]) with ((first :: run) ++ [last]).
      rewrite image_end_app. destruct Hlo as (_ & _ & _ & Hbound). simpl in *. lia.
    + rewrite tiles_cons in Hq1. simpl in *. by destruct Hq1 as (_ & ? & _).
Qed.

Lemma merge_loop_spec n A out s p :
  (out ≤ s)%nat → Forall (λ c, c_I c = None) A → tiles img p (drop s A) →
  post (merge_loop n A out s) (λ '(A', out'), ∃ M, take out' A' = take out A ++ M ∧ merged (drop s A) M).
Proof.
  revert A out s p. induction n as [|n IH]; intros A out s p Hos HI Ht; [auto with c_model|].
  cbn [merge_loop]. destruct (Nat.ltb_spec s (length A)) as [Hs|Hs]; cycle 1.
  { apply post_ret. exists []. rewrite app_nil_r, drop_ge by done. split; [done|]. split; [done|].
    split; [done|]. split; [constructor|done]. }
  destruct (lookup_lt_is_Some_2 A s Hs) as [first Hf]. 
  rewrite (chunk_at_Some _ _ _ Hf). cbn [mbind outcome_bind].
  pose proof (drop_S A first s Hf) as Hd. rewrite Hd in Ht |- *.
  (* the chunk written at [out], and the rest of the array *)
  assert (Hstep : ∀ c e, (s < e)%nat → c_I c = None → tiles img (p + (image_end (take (e - s) (drop s A)))) (drop e A) →
    (∀ M, merged (drop e A) M → merged (first :: drop (S s) A) (c :: M)) →
    post (merge_loop n (<[out:=c]> A) (S out) e)
      (λ '(A', out'), ∃ M, take out' A' = take out A ++ M ∧ merged (first :: drop (S s) A) M)).
  { intros c e He Hc Hte Hm.
    assert (Hde : drop e (<[out:=c]> A) = drop e A) by (apply drop_insert_lt; lia).
    eapply post_mono; [apply (IH _ (S out) e (p + image_end (take (e - s) (drop s A)))); [lia| |by rewrite Hde]|].
    - by apply Forall_insert.
    - intros [A' out'] (M & Htake & HM). exists (c :: M). rewrite Hde in HM. split; [|by apply Hm].
      rewrite Htake, (take_S_r _ _ c) by (apply list_lookup_insert_eq; lia).
      rewrite take_insert_ge by lia. by rewrite <- app_assoc. }
  rewrite tiles_cons in Ht. destruct Ht as (Hfo & Hfs & Ht).
  assert (HfI : c_I first = None) by by destruct Hfo as (_ & ? & _).
  assert (Hone : (c_type first = CHUNK_NORMAL → starts_normal (c_type <$> drop (S s) A) = false) →
    post (merge_loop n (<[out:=first]> A) (S out) (S s))
      (λ '(A', out'), ∃ M, take out' A' = take out A ++ M ∧ merged (first :: drop (S s) A) M)).
  { intros Hn. apply Hstep; [lia|done| |intros M; by apply merged_cons].
    replace (S s - s)%nat with 1%nat by lia. rewrite Hd. cbn [take image_end foldr]. rewrite take_0. cbn [foldr]. by rewrite Z.add_0_r. }
  destruct (Z.eqb_spec (c_type first) CHUNK_NORMAL) as [Hty|Hty]; cbn [negb]; cycle 1.
  { change (mret (S s) ≫= ?k) with (k (S s)). cbn beta. rewrite Nat.eqb_refl. by apply Hone. }
  eapply post_bind; [eapply (run_end_spec _ A (S s) first (drop (S s) A) p)|].
  { lia. } { by replace (S s - 1)%nat with s by lia. } { by rewrite tiles_cons. } { done. } { lia. }
  cbn beta. intros e ->. destruct (run_length_split (drop (S s) A)) as (run & rest & Hsplit & Hlen & Hrun & Hrest).
  destruct (Nat.eqb_spec (S s + run_length (drop (S s) A)) (S s)) as [He|He].
  { rewrite He. apply Hone. intros _. by destruct run; [rewrite Hsplit|simpl in Hlen; lia]. }
  destruct run as [|x run _] using rev_ind; [simpl in Hlen; lia|]. clear Hone.
  rewrite length_app in Hlen. cbn [length] in Hlen. rewrite <- Hlen.
  assert (Hlast : A !! (S s + length run)%nat = Some x).
  { rewrite <- lookup_drop, Hsplit, <- app_assoc. by rewrite lookup_app_r, Nat.sub_diag by lia. }
  assert (Hdrop : drop (S s + (length run + 1)) A = rest).
  { rewrite <- drop_drop, Hsplit. apply drop_app_length'. rewrite length_app. simpl. lia. }
  replace (S s + (length run + 1) - 1)%nat with (S s + length run)%nat by lia.
  rewrite (chunk_at_Some _ _ _ Hlast). cbn [mbind outcome_bind].
  destruct (lookup_lt_is_Some_2 A out ltac:(lia)) as [old Hold].
  rewrite (chunk_at_Some _ _ _ Hold). cbn [mbind outcome_bind].
  assert (HoI : c_I old = None) by by eapply Forall_lookup_1 in HI.
  rewrite Hsplit, <- app_assoc in Ht.
  assert (Hfull : tiles img p (first :: run ++ [x] ++ rest)) by (by rewrite tiles_cons).
  apply Hstep; [lia|done| |].
  - rewrite Hd, Hdrop, Hsplit. replace (S s + (length run + 1) - s)%nat with (S (length (run ++ [x])))
      by (rewrite length_app; simpl; lia). cbn [take]. rewrite take_app_length.
    change (first :: run ++ [x] ++ rest) with (first :: (run ++ [x] ++ rest)) in Hfull.
    rewrite (app_assoc run), app_comm_cons, tiles_app in Hfull. by destruct Hfull.
  - intros M HM. rewrite Hdrop in HM. rewrite Hsplit, <- app_assoc.
    apply (merged_run old first run x rest M p); try done. constructor; [done|done].
Qed.

Lemma Merge_spec cs p :
  tiles img p cs → post (MergeAdjacentNormalChunks cs) (λ M, merged cs M).
Proof.
  intros Ht. unfold MergeAdjacentNormalChunks. eapply post_bind.
  - apply (merge_loop_spec _ cs 0 0 p); [done| |done]. destruct Ht as [Hok _].
    eapply Forall_impl; [exact Hok|]. by intros c (_ & ? & _).
  - intros [A' out'] (M & HM & Hm). apply post_ret. rewrite HM. exact Hm.
Qed.
End merge.

(** ** Treating chunks as normal *)
Section normalize.
Context `{ZlibLaws} (fuel : nat).
Implicit Types (img : list Z) (c t s : ImageChunk).

Lemma encoder_ranges e :
  encoder_valid e →
  int_range (level e) ∧ int_range (method e) ∧ int_range (windowBits e) ∧ int_range (memLevel e) ∧ int_range (strategy e).
Proof. unfold encoder_valid, int_range. lia. Qed.
Lemma encoder_of_valid lv : 1 ≤ lv ≤ 9 → encoder_valid (encoder_of lv).
Proof. intros. unfold encoder_valid, encoder_of, Z_DEFLATED, Z_DEFAULT_STRATEGY. cbn. lia. Qed.

(** Encoding the data of a deflate chunk gives its part of the image. *)
Definition recon img c : Prop :=
  c_type c = CHUNK_DEFLATE → encoder_valid (c_encoder c) ∧
    ∃ b d, c_data c = Buffer b ∧ c_deflate c = Some (d, c_start c) ∧
      deflated (c_encoder c) b = slice img (c_start c) d.
Definition small_data c : Prop := c_type c = CHUNK_DEFLATE → c_len c < 2 ^ 31.

Lemma deflate_all_mono n m strm size out :
  (n ≤ m)%nat → deflate_all n strm size = Some out → deflate_all m strm size = Some out.
Proof.
  revert m strm out. induction n as [|n IH]; intros [|m] strm out Hm; try (done || lia). cbn [deflate_all].
  destruct (deflate strm size) as [[ret o] strm']. destruct (ret =? Z_STREAM_END); [done|].
  destruct (deflate_all n strm' size) as [l|] eqn:Hl; [|done].
  by rewrite (IH m strm' l ltac:(lia) Hl).
Qed.

Lemma deflate_all_deflated n e input size out :
  encoder_valid e → 0 < size →
  deflate_all n (deflateInit2 (level e) (method e) (windowBits e) (memLevel e) (strategy e) input) size =
    Some out → out = deflated e input.
Proof.
  intros He Hs Ho. destruct (deflate_ends e input size He Hs) as [m Hm].
  apply (deflate_all_mono _ (Nat.max n m)) in Ho; [|lia]. rewrite Hm in Ho by lia. by injection Ho.
Qed.

Lemma try_loop_spec n img dlen at_ strm p :
  0 ≤ at_ + p →
  post (try_loop n img dlen at_ strm p) (λ r, (r = 0 ∨ r = -1) ∧
    (r = 0 → ∃ total, deflate_all n strm BUFFER_SIZE = Some total ∧ p + zlen total = dlen ∧
      total = slice img (at_ + p) (zlen total))).
Proof.
  revert strm p. induction n as [|n IH]; intros strm p Hp; [auto with c_model|]. cbn [try_loop deflate_all].
  destruct (deflate strm BUFFER_SIZE) as [[ret out] strm']. cbv zeta.
  intros r Hr. step_ret Hr. apply rd_n_Ret_inv in E as (_ & _ & Hb & ->). fold (slice img (at_ + p) (zlen out)) in Hr.
  assert (Hsl : zlen (slice img (at_ + p) (zlen out)) = zlen out) by (apply length_slice; lia).
  destruct (Z.eqb_spec (memcmp out (slice img (at_ + p) (zlen out)) (zlen out)) 0) as [Hm|]; cbn [negb] in Hr;
    [|injection Hr as <-; split; [by right|done]].
  apply memcmp_0 in Hm; [|lia].
  destruct (ret =? Z_STREAM_END); cbn [negb] in Hr.
  - destruct (Z.eqb_spec (p + zlen out) dlen) as [He|]; cbn [negb] in Hr; injection Hr as <-;
      (split; [auto|]); [|done]. intros _. by exists out.
  - apply IH in Hr as [Hr01 Hr]; [|lia]. split; [done|]. intros Hr0.
    destruct (Hr Hr0) as (total & Htot & Hlen & Heq). exists (out ++ total). rewrite Htot.
    rewrite length_app. split; [done|]. split; [lia|]. rewrite Hm, Heq at 1. unfold slice.
    rewrite Nat2Z.inj_add. replace (Z.to_nat (at_ + (p + zlen out))) with (Z.to_nat (at_ + p) + Z.to_nat (zlen out))%nat by lia.
    rewrite <- drop_drop, take_take_drop. f_equal. lia.
Qed.

Lemma chunk_bytes_deflate img c b :
  c_data c = Buffer b → c_len c = zlen b → chunk_bytes img c = Ret b.
Proof.
  intros Hd Hl. unfold chunk_bytes. rewrite Hd, Hl, rd_n_in_bounds by lia.
  rewrite Nat2Z.id. simpl. by rewrite firstn_all.
Qed.

Lemma try_levels_spec levels img t :
  deflate_ok img t → 0 ≤ c_start t → Forall (λ lv, 1 ≤ lv ≤ 9) levels →
  post (try_levels fuel levels img t) (λ '(r, t'),
    (∃ e, t' = set_encoder t e) ∧ (r = 0 ∨ r = -1) ∧ (r = 0 → recon img t')).
Proof.
  revert t. induction levels as [|lv levels IH]; intros t Ht Hs Hlv; cbn [try_levels].
  { apply post_ret. split; [exists (c_encoder t); by destruct t|]. by split; [right|]. }
  intros [r t'] Hr. step_ret Hr. set (t1 := set_encoder t (encoder_of lv)) in *.
  destruct (Z.eqb_spec a 0) as [->|].
  - injection Hr as <- <-. split; [by eexists|]. split; [by left|]. intros _ _.
    destruct Ht as (Htype & b & d & Hdata & Hlen & Hdef & Hd & Hbok & Honce).
    unfold TryReconstruction in E. rewrite (chunk_bytes_deflate _ t1 b) in E by done.
    cbn [mbind outcome_bind] in E. change (c_deflate t1) with (c_deflate t) in E. rewrite Hdef in E.
    cbn [of_option mbind outcome_bind] in E.
    apply try_loop_spec in E as [_ E]; [|lia]. destruct (E eq_refl) as (total & Htot & Hl & Heq).
    assert (He : encoder_valid (encoder_of lv)) by (apply encoder_of_valid; by inversion Hlv).
    split; [exact He|]. exists b, d. split; [done|]. split; [done|]. change (c_encoder t1) with (encoder_of lv).
    assert (total = deflated (encoder_of lv) b) as <- by (eapply deflate_all_deflated; [exact He| |exact Htot]; done).
    change (c_start t1) with (c_start t). rewrite Heq. f_equal; lia.
  - destruct (IH t1) with (a := (r, t')) as ([e ->] & Hr01 & Hrec); [|done|by inversion Hlv|done|].
    { destruct Ht as (? & b & d & ?). split; [done|]. by exists b, d. }
    split; [by exists e|done].
Qed.

Lemma Reconstruct_spec img t :
  chunk_ok img t → c_type t = CHUNK_DEFLATE →
  post (ReconstructDeflateChunk fuel img t) (λ '(r, t'),
    (∃ e, t' = set_encoder t e) ∧ (r = 0 ∨ r = -1) ∧ (r = 0 → recon img t')).
Proof.
  intros ([Hn|Hd] & _ & Hs & _) Hty; [destruct Hn as [Hn _]; by rewrite Hn in Hty|].
  unfold ReconstructDeflateChunk. rewrite Hty, Z.eqb_refl. cbn [negb]. apply try_levels_spec; [done|done|].
  by repeat constructor.
Qed.

Lemma to_normal_spec img c c' :
  chunk_ok img c → c_type c = CHUNK_DEFLATE → ChangeDeflateChunkToNormal c = Ret c' →
  chunk_ok img c' ∧ c_type c' = CHUNK_NORMAL ∧ c_start c' = c_start c ∧ extent c' = extent c.
Proof.
  intros ([Hn|Hd] & HI & Hs & Hb) Hty; [destruct Hn as [Hn _]; by rewrite Hn in Hty|].
  unfold ChangeDeflateChunkToNormal. rewrite Hty, Z.eqb_refl. cbn [negb].
  destruct Hd as (_ & b & d & _ & _ & Hdef & Hd & _). rewrite Hdef. cbn [of_option mbind outcome_bind].
  intros [= <-]. set (c' := set_data _ _ _ _ _).
  assert (Hn : normal_ok c') by done. assert (He : extent c' = extent c).
  { rewrite extent_normal by done. unfold extent. by rewrite Hdef, Hty. }
  split; [|done]. split; [by left|]. rewrite He. done.
Qed.

Lemma set_encoder_ok img c e : chunk_ok img c → chunk_ok img (set_encoder c e).
Proof. done. Qed.

(** The two lists during the loop: they tile their images, with the same types. *)
Definition parallel (src_img tgt_img : list Z) (src tgt : list ImageChunk) (se te : Z) : Prop :=
  tiles src_img 0 src ∧ image_end src = se ∧ Forall small_data src ∧
  tiles tgt_img 0 tgt ∧ image_end tgt = te ∧ Forall small_data tgt ∧
  c_type <$> src = c_type <$> tgt.

Lemma change_at_spec img cs i c cs' e :
  cs !! i = Some c → c_type c = CHUNK_DEFLATE → change_at cs i = Ret cs' →
  tiles img 0 cs → image_end cs = e → Forall small_data cs →
  ∃ c', cs' = <[i := c']> cs ∧ c_type c' = CHUNK_NORMAL ∧
    tiles img 0 cs' ∧ image_end cs' = e ∧ Forall small_data cs'.
Proof.
  intros Hi Hty Hch Ht He Hs. unfold change_at in Hch. rewrite (chunk_at_Some _ _ _ Hi) in Hch.
  cbn [mbind outcome_bind] in Hch. step_ret Hch. injection Hch as <-. rename a into c'.
  destruct (to_normal_spec img c c') as (Hok & Hn & Hst & Hex); [by eapply tiles_lookup|done|done|].
  exists c'. split; [done|]. split; [done|].
  destruct (tiles_insert img 0 cs i c c' Hi Hst Hex Hok Ht) as [? ->]. split; [done|]. split; [done|].
  apply Forall_insert; [done|]. intros Hd. by rewrite Hn in Hd.
Qed.

(** Both partners become normal. *)
Lemma change_both src_img tgt_img src tgt i s t src' tgt' se te :
  parallel src_img tgt_img src tgt se te → src !! i = Some s → tgt !! i = Some t →
  c_type t = CHUNK_DEFLATE → change_at tgt i = Ret tgt' → change_at src i = Ret src' →
  parallel src_img tgt_img src' tgt' se te ∧ ∃ t', tgt' = <[i := t']> tgt ∧ c_type t' = CHUNK_NORMAL.
Proof.
  intros (Hs & Hse & Hss & Ht & Hte & Hts & Hty) Hsi Hti Htd Htc Hsc.
  assert (Hsd : c_type s = CHUNK_DEFLATE).
  { apply (f_equal (.!! i)) in Hty. rewrite !list_lookup_fmap, Hsi, Hti in Hty. simpl in Hty. congruence. }
  destruct (change_at_spec _ _ _ _ _ _ Hsi Hsd Hsc Hs Hse Hss) as (s' & -> & Hs' & ? & ? & ?).
  destruct (change_at_spec _ _ _ _ _ _ Hti Htd Htc Ht Hte Hts) as (t' & -> & Ht' & ? & ? & ?).
  split; [|by exists t']. repeat (split; [done|]). by rewrite !list_fmap_insert, Hty, Hs', Ht'.
Qed.

Lemma normalize_spec n src_img tgt_img src tgt i se te :
  parallel src_img tgt_img src tgt se te → (i + n = length tgt)%nat →
  Forall (recon tgt_img) (take i tgt) →
  post (normalize fuel n false src_img tgt_img src tgt i) (λ '(src', tgt'),
    parallel src_img tgt_img src' tgt' se te ∧ Forall (recon tgt_img) tgt').
Proof.
  revert src tgt i. induction n as [|n IH]; intros src tgt i Hpar Hn Hrec; cbn [normalize].
  { apply post_ret. rewrite take_ge in Hrec by lia. done. }
  destruct (lookup_lt_is_Some_2 tgt i ltac:(lia)) as [t Ht]. rewrite (chunk_at_Some _ _ _ Ht).
  cbn [mbind outcome_bind].
  eapply (post_bind _ _ (λ '(src', tgt'), parallel src_img tgt_img src' tgt' se te ∧
    ∃ t', tgt' = <[i := t']> tgt ∧ recon tgt_img t')); cycle 1.
  { intros [src' tgt'] (Hpar' & t' & -> & Ht'). apply IH; [done|by rewrite length_insert; lia|].
    rewrite (take_S_r _ _ t') by (apply list_lookup_insert_eq; lia). rewrite take_insert_ge by lia.
    apply Forall_app. split; [done|]. by constructor. }
  destruct (Z.eqb_spec (c_type t) CHUNK_DEFLATE) as [Hty|Hty]; cycle 1.
  { apply post_ret. split; [done|]. exists t. split; [by rewrite list_insert_id|]. by intros ?. }
  pose proof Hpar as (Hs & Hse & Hss & Htt & Hte & Hts & Htypes).
  eapply post_bind; [apply Reconstruct_spec; [by eapply tiles_lookup|done]|].
  intros [r t1] ([e ->] & Hr01 & Hrecon). set (t1 := set_encoder t e) in *. cbv zeta.
  destruct (tiles_insert tgt_img 0 tgt i t t1 Ht) as [Htt1 Hend1]; [done|done|apply set_encoder_ok; by eapply tiles_lookup|done|].
  assert (Hpar1 : parallel src_img tgt_img src (<[i := t1]> tgt) se te).
  { repeat (split; [done|]). split; [congruence|]. split.
    - apply Forall_insert; [done|]. by eapply (Forall_lookup_1 _ _ _ _ Hts Ht).
    - rewrite list_fmap_insert, Htypes. symmetry. apply list_insert_id. by rewrite list_lookup_fmap, Ht. }
  assert (Ht1 : (<[i := t1]> tgt) !! i = Some t1) by (apply list_lookup_insert_eq; lia).
  assert (Hsi : ∃ s, src !! i = Some s).
  { apply lookup_lt_is_Some_2. rewrite <- (length_fmap c_type src), Htypes, length_fmap. lia. }
  destruct Hsi as [s Hsi].
  (* the branch that changes both *)
  assert (Hboth : post (tgt' ← change_at (<[i := t1]> tgt) i; src' ← change_partner src (Some i); mret (src', tgt'))
    (λ '(src', tgt'), parallel src_img tgt_img src' tgt' se te ∧ ∃ t', tgt' = <[i := t']> tgt ∧ recon tgt_img t')).
  { intros [src' tgt'] Hr. step_ret Hr. step_ret Hr. injection Hr as <- <-. cbn [change_partner] in E0.
    destruct (change_both _ _ _ _ i s t1 _ _ _ _ Hpar1 Hsi Ht1 Hty E E0) as (Hp & t' & -> & Ht').
    split; [done|]. exists t'. rewrite list_insert_insert, decide_True by done. split; [done|].
    intros Hd. by rewrite Ht' in Hd. }
  cbn [partner]. change (mret (Some i) ≫= ?k) with (k (Some i)). cbn beta.
  destruct (Z.ltb_spec r 0); [exact Hboth|].
  apply post_any. intros [|]; [exact Hboth|]. apply post_ret. split; [done|]. exists t1. split; [done|].
  apply Hrecon. lia.
Qed.
End normalize.

(** ** The patch file *)

(** The records, with the offsets of their patches. *)
Definition rec_of (c : ImageChunk) (patch : list Z) (offset : Z) : chunk :=
  let r := mk_ref (c_source_start c) (c_source_len c) offset in
  let e := c_encoder c in
  if c_type c =? CHUNK_NORMAL then Normal r
  else if c_type c =? CHUNK_DEFLATE then
    Deflated r (c_source_uncompressed_len c) (c_len c) (level e) (method e) (windowBits e) (memLevel e) (strategy e)
  else Raw patch.
Fixpoint recs (l : list (ImageChunk * list Z)) (offset : Z) : list chunk :=
  match l with
  | [] => []
  | (c, patch) :: l =>
      rec_of c patch offset :: recs l (if c_type c =? CHUNK_RAW then offset else offset + zlen patch)
  end.
Definition typed (c : ImageChunk) : Prop :=
  c_type c = CHUNK_NORMAL ∨ c_type c = CHUNK_DEFLATE ∨ c_type c = CHUNK_RAW.

Ltac by_type H := destruct H as [H|[H|H]]; rewrite H; cbn [Z.eqb CHUNK_NORMAL CHUNK_DEFLATE CHUNK_RAW Pos.eqb negb].

Lemma write_headers_recs l offset :
  Forall (λ x, typed x.1) l → write_headers l offset = concat (encode_chunk <$> recs l offset).
Proof.
  intros Hl. revert offset. induction Hl as [|[c patch] l Hc Hl IH]; intros offset; [done|].
  cbn [write_headers recs fmap list_fmap concat fst] in *. unfold rec_of. rewrite !IH.
  by_type Hc; cbn [encode_chunk encode_ref]; unfold encode_ref; cbn [src_start src_len patch_offset];
    by rewrite <- ?app_assoc.
Qed.

Lemma encode_chunk_size c patch offset :
  typed c → zlen (encode_chunk (rec_of c patch offset)) = record_size c patch.
Proof.
  intros Hc. unfold rec_of, record_size.
  by_type Hc; cbn [encode_chunk]; unfold encode_ref; rewrite ?length_app; simpl; lia.
Qed.

Lemma header_size l offset :
  Forall (λ x, typed x.1) l → total_header_size l = 12 + zlen (concat (encode_chunk <$> recs l offset)).
Proof.
  intros Hl. unfold total_header_size. generalize 12. revert offset.
  induction Hl as [|[c patch] l Hc Hl IH]; intros offset n; [simpl; lia|].
  cbn [foldl recs fmap list_fmap concat fst] in *. rewrite length_app.
  pose proof (encode_chunk_size c patch offset Hc).
  erewrite (IH _ (n + record_size c patch)). rewrite <- H, Nat2Z.inj_add, Z.add_assoc. done.
Qed.

Lemma length_recs l offset : length (recs l offset) = length l.
Proof. revert offset. induction l as [|[c p] l IH]; intros offset; simpl; [done|]. by rewrite IH. Qed.

(** The file is an image patch of these records. *)
Lemma patch_contents_encode l :
  Forall (λ x, typed x.1) l →
  patch_contents l = encode_image (recs l (total_header_size l)) (write_bodies l) ∧
  zlen (str "IMGDIFF2" ++ Write4 (zlen l) ++ write_headers l (total_header_size l)) = total_header_size l.
Proof.
  intros Hl. unfold patch_contents, encode_image. rewrite write_headers_recs, length_recs by done. split; [done|].
  rewrite (header_size l (total_header_size l)) at 2 by done. rewrite !length_app. simpl. lia.
Qed.

(** What holds for all large numbers. *)
Definition eventually (P : nat → Prop) : Prop := ∃ n, ∀ m, (n ≤ m)%nat → P m.
Lemma eventually_and P Q : eventually P → eventually Q → eventually (λ n, P n ∧ Q n).
Proof. intros [n Hn] [m Hm]. exists (Nat.max n m). intros k Hk. split; [apply Hn|apply Hm]; lia. Qed.
Lemma eventually_mono (P Q : nat → Prop) : (∀ n, P n → Q n) → eventually P → eventually Q.
Proof. intros HPQ [n Hn]. exists n. auto. Qed.
Lemma eventually_always (P : nat → Prop) : (∀ n, P n) → eventually P.
Proof. intros HP. by exists O. Qed.

(** ** The patches of the chunks *)
Section patches.
Context `{Bzip2Laws} `{Sha1} `{ZlibLaws}.
Context (alloc_ok : Z → bool) (bz_compress : list Z → list Z) (sfuel : nat).
Hypothesis alloc_all : ∀ n, 0 ≤ n → alloc_ok n = true.
Hypothesis compress_ok : ∀ l r, bz_contents (bz_compress l ++ r) = Some l.
Hypothesis sort_ok : ∀ old Ia, bytes_ok old → qsufsort sfuel old = Ret Ia → array_ok old Ia.
Context (tmp_stat tmp_read : bool) (src_file tgt_file : list Z).
Hypotheses (src_bytes : bytes_ok src_file) (tgt_bytes : bytes_ok tgt_file).
Hypotheses (src_size : zlen src_file < 2 ^ 31 - 4) (tgt_size : zlen tgt_file < 2 ^ 31 - 4).
Abbreviation src_img := (padded src_file).
Abbreviation tgt_img := (padded tgt_file).
Implicit Types (s t : ImageChunk) (patch pre rest : list Z).

(** [bsdiff] of two blocks of data, applied. *)
Lemma bsdiff_gives old IP new patch pre rest :
  bytes_ok old → bytes_ok new → zlen old < 2 ^ 31 → zlen new < 2 ^ 31 → IP = None →
  (Ia ← suffix_array sfuel old IP; bsdiff bz_compress sfuel old (Some Ia) new) = Ret patch →
  zlen (pre ++ patch ++ rest) < 2 ^ 31 →
  eventually (λ fuel, ∀ all, take (length old) all = old →
    ApplyBSDiffPatchMem alloc_ok fuel all (zlen old)
      (mk_value 2 (zlen (pre ++ patch ++ rest)) (pre ++ patch ++ rest)) (zlen pre) = Ret (0, new)).
Proof.
  intros Ho Hn Hos Hns -> Hd Hfile. step_ret Hd. rename a into Ia.
  pose proof (bsdiff_applies alloc_ok bz_compress sfuel old (Some Ia) Ia new) as Hb.
  rewrite Hd in Hb. destruct (Hb) with (pre := pre) (rest := rest) as [n Happly]; try done.
  - intros l. rewrite <- (app_nil_r (bz_compress l)). apply compress_ok.
  - by apply sort_ok.
  - apply alloc_all. lia.
  - exists (S n). intros m Hm all Hall. apply Happly; [lia|done].
Qed.

(** What [MakePatch] leaves of chunks of the same type. *)
Definition piece s t t' patch : Prop :=
  (c_type t' = CHUNK_RAW ∧ patch = tile tgt_img t) ∨
  (c_type t' = CHUNK_NORMAL ∧ c_source_start t' = c_start s ∧ c_source_len t' = c_len s ∧
   normal_ok s ∧ normal_ok t ∧
   (Ia ← suffix_array sfuel (tile src_img s) (c_I s);
    bsdiff bz_compress sfuel (tile src_img s) (Some Ia) (tile tgt_img t)) = Ret patch) ∨
  (c_type t' = CHUNK_DEFLATE ∧ ∃ sb tb sd td,
   c_source_start t' = c_start s ∧ c_source_len t' = sd ∧ c_source_uncompressed_len t' = c_len s ∧
   c_len t' = c_len t ∧ c_encoder t' = c_encoder t ∧
   c_data s = Buffer sb ∧ c_deflate s = Some (sd, c_start s) ∧ c_type s = CHUNK_DEFLATE ∧
   c_data t = Buffer tb ∧ c_deflate t = Some (td, c_start t) ∧ c_type t = CHUNK_DEFLATE ∧
   (Ia ← suffix_array sfuel sb (c_I s); bsdiff bz_compress sfuel sb (Some Ia) tb) = Ret patch).

Lemma chunk_bytes_normal img c :
  normal_ok c → post (chunk_bytes img c) (λ b, b = tile img c).
Proof.
  intros Hn b Hb. unfold chunk_bytes in Hb. unfold tile. rewrite extent_normal by done.
  destruct Hn as (_ & Hd & _). rewrite Hd in Hb. by apply rd_n_Ret_inv in Hb as (_ & _ & _ & ->).
Qed.

Lemma MakePatch_spec s t s' t' patch :
  chunk_ok src_img s → chunk_ok tgt_img t → c_type s = c_type t →
  MakePatch bz_compress sfuel tmp_stat tmp_read src_img tgt_img s t = Ret (s', t', Some patch) →
  piece s t t' patch.
Proof.
  intros Hs Ht Hty Hm. unfold MakePatch in Hm.
  destruct Hs as ([Hsn|Hsd] & _), Ht as ([Htn|Htd] & _).
  2: { exfalso. destruct Hsn as [Hsn _], Htd as [Htd _]. by rewrite Hsn, Htd in Hty. }
  2: { exfalso. destruct Hsd as [Hsd _], Htn as [Htn _]. by rewrite Hsd, Htn in Hty. }
  - assert (Htt : c_type t = CHUNK_NORMAL) by by destruct Htn. rewrite Htt, Z.eqb_refl in Hm. cbn [andb] in Hm.
    destruct (c_len t <=? 160).
    { step_ret Hm. injection Hm as <- <- <-. apply chunk_bytes_normal in E; [|done]. by left. }
    step_ret Hm. step_ret Hm. apply chunk_bytes_normal in E as ->; [|done].
    apply chunk_bytes_normal in E0 as ->; [|done].
    step_ret Hm. step_ret Hm. destruct (negb tmp_stat); [done|].
    destruct (c_len t <=? zlen a0); [injection Hm as <- <- <-; by left|].
    destruct (negb tmp_read); [done|]. injection Hm as <- <- <-. right. left. simpl.
    split; [done|]. split; [done|]. split; [done|]. split; [done|]. split; [done|]. by rewrite E.
  - destruct Hsd as (Hst & sb & sd & Hsb & Hsl & Hsdef & _), Htd as (Htt & tb & td & Htb & Htl & Htdef & _).
    rewrite Htt in Hm. cbn [Z.eqb CHUNK_NORMAL CHUNK_DEFLATE andb Pos.eqb] in Hm.
    rewrite (chunk_bytes_deflate _ s sb), (chunk_bytes_deflate _ t tb) in Hm by done.
    cbn [mbind outcome_bind] in Hm. step_ret Hm. step_ret Hm.
    destruct (negb tmp_stat), (negb tmp_read); try done. cbn [c_deflate set_I c_type] in Hm.
    rewrite Hsdef in Hm. cbn [of_option mbind outcome_bind] in Hm. injection Hm as <- <- <-.
    right. right. split; [done|]. exists sb, tb, sd, td. simpl. repeat (split; [done|]). by rewrite E.
Qed.

(** A partner for every chunk, and a patch for every pair. *)
Definition made s t (x : ImageChunk * option (list Z)) : Prop :=
  ∃ s', MakePatch bz_compress sfuel tmp_stat tmp_read src_img tgt_img s t = Ret (s', x.1, x.2).

Lemma make_patches_spec n src tgt i patches :
  (i + n = length tgt)%nat → length src = length tgt →
  post (make_patches bz_compress sfuel tmp_stat tmp_read n false src_img tgt_img src tgt i patches)
    (λ '(tgt', patches'), ∃ L, tgt' = take i tgt ++ L.*1 ∧ patches' = patches ++ L.*2 ∧
       Forall3 made (drop i src) (drop i tgt) L).
Proof.
  revert src tgt i patches. induction n as [|n IH]; intros src tgt i patches Hn Hl; cbn [make_patches].
  { apply post_ret. exists []. rewrite !drop_ge, take_ge, !app_nil_r by lia. by split; [|split; [|constructor]]. }
  destruct (lookup_lt_is_Some_2 tgt i ltac:(lia)) as [t Ht].
  destruct (lookup_lt_is_Some_2 src i ltac:(lia)) as [s Hs].
  rewrite (chunk_at_Some _ _ _ Ht). change (mret i ≫= ?k) with (k i). cbn [mbind outcome_bind].
  rewrite (chunk_at_Some _ _ _ Hs). cbn [mbind outcome_bind].
  destruct (MakePatch _ _ _ _ _ _ _ _) as [[[s' t'] patch]| |] eqn:Hm; [|by intros ?..].
  cbn [mbind outcome_bind].
  eapply post_mono; [apply IH; rewrite ?length_insert; lia|]. intros [tgt' patches'] (L & -> & -> & HL).
  exists ((t', patch) :: L). cbn [fmap list_fmap fst snd].
  rewrite (take_S_r _ _ t') by (apply list_lookup_insert_eq; lia).
  rewrite take_insert_ge, <- !app_assoc by lia. split; [done|]. split; [done|].
  rewrite !drop_insert_lt in HL by lia. rewrite (drop_S src s i), (drop_S tgt t i) by done.
  constructor; [by exists s'|done].
Qed.

(** ** Applying them *)
Lemma slice_padded file p n : 0 ≤ p → 0 ≤ n → p + n ≤ zlen file → slice (padded file) p n = slice file p n.
Proof.
  intros. unfold slice, padded. rewrite drop_app_le by lia. apply take_app_le. rewrite length_drop. lia.
Qed.

Definition source_ok s : Prop :=
  chunk_ok src_img s ∧ c_start s + extent s ≤ zlen src_file ∧ small_data s.
Definition target_ok t : Prop := chunk_ok tgt_img t ∧ recon tgt_img t ∧ small_data t.

Lemma bytes_slice l p n : bytes_ok l → bytes_ok (slice l p n).
Proof. intros. by apply Forall_take, Forall_drop. Qed.

Lemma normal_piece s t t' patch pre rest :
  source_ok s → target_ok t → piece s t t' patch → c_type t' = CHUNK_NORMAL →
  zlen (pre ++ patch ++ rest) < 2 ^ 31 →
  eventually (λ fuel, chunk_gives alloc_ok fuel src_file
    (mk_value 2 (zlen (pre ++ patch ++ rest)) (pre ++ patch ++ rest)) (rec_of t' patch (zlen pre)) (tile tgt_img t)).
Proof.
  intros (Hso & Hse & _) (Hto & _) Hp Hty Hfile. unfold rec_of. rewrite Hty. cbn [Z.eqb CHUNK_NORMAL].
  destruct Hp as [[Hr _]|[(_ & -> & -> & Hsn & Htn & Hd)|[Hr _]]]; [by rewrite Hty in Hr| |by rewrite Hty in Hr].
  destruct Hso as (_ & HI & Hs0 & _), Hto as (_ & _ & Ht0 & Htb).
  pose proof (extent_normal s Hsn) as Hsx. pose proof (extent_normal t Htn) as Htx.
  destruct Hsn as (_ & _ & Hsl), Htn as (_ & _ & Htl). rewrite length_padded in Htb.
  assert (Hold : tile src_img s = slice src_file (c_start s) (c_len s)).
  { unfold tile. rewrite Hsx. apply slice_padded; lia. }
  assert (Hlen : zlen (tile src_img s) = c_len s) by (rewrite Hold; apply length_slice; lia).
  eapply eventually_mono; [|eapply (bsdiff_gives _ _ _ patch pre rest); [..|exact Hd|exact Hfile]].
  - cbn beta. intros fuel Happly. apply normal_gives.
    + unfold ref_ok, nat_range. cbn [src_start src_len patch_offset]. rewrite !length_app in Hfile. lia.
    + cbn [src_start src_len patch_offset]. rewrite <- Hlen. apply Happly. rewrite Hold. unfold slice.
      rewrite length_take. f_equal. rewrite length_drop. lia.
  - by apply bytes_slice, padded_bytes.
  - by apply bytes_slice, padded_bytes.
  - rewrite Hlen. lia.
  - unfold tile. rewrite length_slice; rewrite ?length_padded; lia.
  - done.
Qed.

Lemma deflate_piece s t t' patch pre rest :
  source_ok s → target_ok t → piece s t t' patch → c_type t' = CHUNK_DEFLATE →
  zlen (pre ++ patch ++ rest) < 2 ^ 31 →
  eventually (λ fuel, chunk_gives alloc_ok fuel src_file
    (mk_value 2 (zlen (pre ++ patch ++ rest)) (pre ++ patch ++ rest)) (rec_of t' patch (zlen pre)) (tile tgt_img t)).
Proof.
  intros (Hso & Hse & Hssm) (Hto & Hrec & Htsm) Hp Hty Hfile. unfold rec_of. rewrite Hty.
  cbn [Z.eqb CHUNK_NORMAL CHUNK_DEFLATE Pos.eqb].
  destruct Hp as [[Hr _]|[(Hr & _)|(_ & sb & tb & sd & td & -> & -> & -> & -> & -> & Hsb & Hsdef & Hst & Htb & Htdef & Htt & Hd)]];
    [by rewrite Hty in Hr..|].
  destruct (Hrec Htt) as (Hvalid & tb' & td' & Htb' & Htdef' & Hdeflated).
  destruct (encoder_ranges _ Hvalid) as (Hlv & Hmt & Hwb & Hml & Hsg).
  assert (tb' = tb) as -> by congruence. assert (td' = td) as -> by congruence.
  destruct Hso as (Hsk & HI & Hs0 & _), Hto as (Htk & _ & Ht0 & Htbd).
  destruct Hsk as [Hsk|Hsk]; [destruct Hsk as [Hsk _]; by rewrite Hst in Hsk|].
  destruct Htk as [Htk|Htk]; [destruct Htk as [Htk _]; by rewrite Htt in Htk|].
  destruct Hsk as (_ & sb' & sd' & Hsb' & Hsl & Hsdef' & Hsd0 & Hsbok & Honce).
  assert (sb' = sb) as -> by congruence. assert (sd' = sd) as -> by congruence.
  destruct Htk as (_ & tb' & td' & Htb'' & Htl & Htdef'' & Htd0 & Htbok & _).
  assert (tb' = tb) as -> by congruence. assert (td' = td) as -> by congruence.
  specialize (Hssm Hst). specialize (Htsm Htt). rewrite Hsl in *. rewrite Htl in *.
  assert (Hsx : extent s = sd) by (unfold extent; by rewrite Hsdef, Hst).
  assert (Htile : tile tgt_img t = deflated (c_encoder t) tb).
  { rewrite Hdeflated. unfold tile, extent. by rewrite Htdef, Htt. }
  destruct (deflate_ends (c_encoder t) tb (Z.max 32768 (zlen sb)) Hvalid ltac:(lia)) as [m Hm].
  eapply eventually_mono; [|apply eventually_and; [exists m; exact Hm|
    eapply (bsdiff_gives sb (c_I s) tb patch pre rest); [..|exact Hd|exact Hfile]]]; [|done..|lia|lia|done].
  cbn beta. intros fuel [Hdef Happly].
  apply (deflate_gives _ _ _ _ _ _ _ _ _ _ _ _ sb tb); try done.
  - unfold ref_ok, nat_range. cbn [src_start src_len patch_offset]. rewrite !length_app in Hfile. lia.
  - unfold nat_range. lia.
  - apply alloc_all. lia.
  - apply zlib_init.
  - cbn [src_start src_len]. lia.
  - cbn [src_start src_len]. rewrite slice_padded in Honce by lia. exact Honce.
  - cbn [patch_offset]. apply Happly. apply firstn_all.
  - by rewrite Htile.
Qed.

Lemma zlen_app pre patch : zlen (pre ++ patch) = zlen pre + zlen patch.
Proof. rewrite length_app. lia. Qed.

Lemma piece_typed s t t' patch : piece s t t' patch → typed t'.
Proof. intros [[? _]|[[? _]|[? _]]]; unfold typed; auto. Qed.

(** All records, applied to the source file, give the tiles of the target. *)
Lemma recs_give srcs tgts l pre :
  Forall3 (λ s t x, piece s t x.1 x.2) srcs tgts l → Forall source_ok srcs → Forall target_ok tgts →
  zlen (pre ++ write_bodies l) < 2 ^ 31 →
  eventually (λ fuel, Forall2 (chunk_gives alloc_ok fuel src_file
    (mk_value 2 (zlen (pre ++ write_bodies l)) (pre ++ write_bodies l))) (recs l (zlen pre))
    (tile tgt_img <$> tgts)).
Proof.
  intros Hl. revert pre. induction Hl as [|s t [t' patch] srcs tgts l Hp Hl IH]; intros pre Hs Ht Hfile.
  { apply eventually_always. constructor. }
  apply Forall_cons in Hs as [Hs Hss], Ht as [Ht Hts]. cbn [fst snd] in Hp.
  unfold write_bodies in Hfile |- *. cbn [fmap list_fmap concat recs] in Hfile |- *.
  fold (write_bodies l) in Hfile |- *.
  destruct (piece_typed _ _ _ _ Hp) as [Hty|[Hty|Hty]]; rewrite Hty in Hfile |- *;
    cbn [Z.eqb CHUNK_NORMAL CHUNK_DEFLATE CHUNK_RAW Pos.eqb negb app] in Hfile |- *.
  - eapply eventually_mono; [|apply eventually_and;
      [by apply (normal_piece s t t' patch pre (write_bodies l))|apply (IH (pre ++ patch)); try done]].
    + cbn beta. intros fuel [H1' H2']. rewrite <- app_assoc, (zlen_app pre patch) in H2'. by constructor.
    + by rewrite <- app_assoc.
  - eapply eventually_mono; [|apply eventually_and;
      [by apply (deflate_piece s t t' patch pre (write_bodies l))|apply (IH (pre ++ patch)); try done]].
    + cbn beta. intros fuel [H1' H2']. rewrite <- app_assoc, (zlen_app pre patch) in H2'. by constructor.
    + by rewrite <- app_assoc.
  - eapply eventually_mono; [|by apply (IH pre)]. cbn beta. intros fuel Hrest. constructor; [|done].
    destruct Hp as [[_ ->]|[(Hr & _)|(Hr & _)]]; [|by rewrite Hty in Hr..].
    unfold rec_of. rewrite Hty. apply raw_gives.
Qed.
End patches.

(** ** The tool as a whole *)

(** The gzip sections end inside the file, and their data is below the size limit. *)
Definition fits `{Deflate} `{Inflate} (fuel : nat) (file : list Z) : bool :=
  match ReadImage fuel (Some file) with
  | Ret (Some (_, cs)) => (image_end cs =? zlen file) && forallb (λ c, c_len c <? 2 ^ 31) cs
  | _ => false
  end.

Section whole.
Context `{Bzip2Laws} `{Sha1Laws} `{ZlibLaws}.
Context (alloc_ok : Z → bool) (bz_compress : list Z → list Z) (sfuel : nat).
Hypothesis alloc_all : ∀ n, 0 ≤ n → alloc_ok n = true.
Hypothesis compress_ok : ∀ l r, bz_contents (bz_compress l ++ r) = Some l.
Hypothesis sort_ok : ∀ old Ia, bytes_ok old → qsufsort sfuel old = Ret Ia → array_ok old Ia.
Context (tmp_stat tmp_read : bool) (src tgt : list Z).
Hypotheses (src_bytes : bytes_ok src) (tgt_bytes : bytes_ok tgt).
Hypotheses (src_size : zlen src < 2 ^ 31 - 4) (tgt_size : zlen tgt < 2 ^ 31 - 4).

Lemma tiles_bound img p cs c : tiles img p cs → c ∈ cs → c_start c + extent c ≤ p + image_end cs.
Proof.
  intros Ht [i Hi]%list_elem_of_lookup. rewrite <- (take_drop_middle _ _ _ Hi) in Ht |- *.
  rewrite tiles_app, tiles_cons in Ht. destruct Ht as (_ & _ & -> & Ht & _).
  rewrite image_end_app. simpl. pose proof (image_end_nonneg img _ Ht). lia.
Qed.

Lemma merged_parallel cs1 cs2 M1 M2 se te :
  parallel (padded src) (padded tgt) cs1 cs2 se te →
  merged (padded src) cs1 M1 → merged (padded tgt) cs2 M2 → parallel (padded src) (padded tgt) M1 M2 se te.
Proof.
  intros (Ht1 & <- & Hs1 & Ht2 & <- & Hs2 & Hty) (He1 & Hc1 & Hd1 & Hm1) (He2 & Hc2 & Hd2 & Hm2).
  split; [auto|]. split; [done|]. split; [|split; [auto|split; [done|split; [|congruence]]]].
  - eapply Forall_impl; [exact Hd1|]. intros c Hc Hty'. rewrite Forall_forall in Hs1. apply Hs1; auto.
  - eapply Forall_impl; [exact Hd2|]. intros c Hc Hty'. rewrite Forall_forall in Hs2. apply Hs2; auto.
Qed.

Lemma made_pieces srcs tgts L patches :
  Forall3 (made bz_compress sfuel tmp_stat tmp_read src tgt) srcs tgts L → mapM id L.*2 = Some patches →
  Forall (chunk_ok (padded src)) srcs → Forall (chunk_ok (padded tgt)) tgts → c_type <$> srcs = c_type <$> tgts →
  Forall3 (λ s t x, piece bz_compress sfuel src tgt s t x.1 x.2) srcs tgts (zip L.*1 patches).
Proof.
  intros HL. revert patches. induction HL as [|s t [t' o] srcs tgts L [s' Hm] HL IH]; intros patches Hp Hs Ht Hty;
    cbn [fmap list_fmap mapM] in *.
  { injection Hp as <-. constructor. }
  apply Forall_cons in Hs as [Hs Hss], Ht as [Ht Hts]. injection Hty as Hty Htys.
  cbn [snd id] in Hp. destruct o as [patch|]; [|done]. cbn [mbind option_bind] in Hp.
  destruct (mapM id L.*2) as [patches'|] eqn:Hps; [|done]. injection Hp as <-.
  cbn [zip_with]. constructor; [|by apply IH].
  cbn [fst snd] in Hm |- *. by eapply MakePatch_spec.
Qed.

(** From parallel chunks to the patch. *)
Lemma diff_chunks_spec cs1 cs2 patch :
  parallel (padded src) (padded tgt) cs1 cs2 (zlen src) (zlen tgt) →
  diff_chunks bz_compress sfuel tmp_stat tmp_read false (padded src) (padded tgt) cs1 cs2 = Ret (Some patch) →
  zlen patch < 2 ^ 31 →
  eventually (λ fuel, ∃ cs rest outs, patch = encode_image cs rest ∧ concat outs = tgt ∧
    Forall2 (chunk_gives alloc_ok fuel src (mk_value 2 (zlen patch) patch)) cs outs).
Proof.
  intros Hpar Hd Hsize. unfold diff_chunks in Hd. step_ret Hd. destruct a as [n1 n2]. rename E into Hn.
  apply (normalize_spec sfuel _ _ _ _ _ 0 (zlen src) (zlen tgt)) in Hn as [Hpar1 Hrec]; [|done|lia|constructor].
  step_ret Hd. rename a into m2, E into Hm2. step_ret Hd. rename a into m1, E into Hm1. cbn [negb andb] in Hd.
  pose proof Hpar1 as (Ht1 & _ & _ & Ht2 & _).
  eapply Merge_spec in Hm1; [|exact Ht1]. eapply Merge_spec in Hm2; [|exact Ht2].
  pose proof (merged_parallel _ _ _ _ _ _ Hpar1 Hm1 Hm2) as (Hs & Hse & Hss & Ht & Hte & Hts & Hty).
  assert (Hrec2 : Forall (recon (padded tgt)) m2).
  { destruct Hm2 as (_ & _ & Hd2 & _). eapply Forall_impl; [exact Hd2|]. intros c Hc Hct.
    rewrite Forall_forall in Hrec. apply Hrec; auto. }
  assert (Hlen : length m1 = length m2) by (rewrite <- (length_fmap c_type m1), Hty; apply length_fmap).
  rewrite Hlen, Nat.eqb_refl in Hd. cbn [negb] in Hd. step_ret Hd. destruct a as [t' patches'].
  apply make_patches_spec in E as (L & -> & -> & HL); [|lia|done]. rewrite !drop_0, take_0 in *. cbn [app] in Hd.
  step_ret Hd. rename a into patches. destruct (mapM id L.*2) as [ps|] eqn:Hps; [|done]. injection E as ->.
  injection Hd as <-. apply made_pieces with (patches := patches) in HL; [|done|apply Hs|apply Ht|done].
  set (l := zip L.*1 patches) in *.
  assert (Htyped : Forall (λ x, typed x.1) l).
  { clear -HL. induction HL as [|s t x srcs tgts l Hp HL IH]; constructor; [|done]. by eapply piece_typed. }
  destruct (patch_contents_encode l Htyped) as [Henc Hpre].
  assert (Hfile : patch_contents l =
    (str "IMGDIFF2" ++ Write4 (zlen l) ++ write_headers l (total_header_size l)) ++ write_bodies l).
  { unfold patch_contents. by rewrite <- !app_assoc. }
  set (pre := str "IMGDIFF2" ++ _) in *.
  assert (Hcover : concat (tile (padded tgt) <$> m2) = tgt).
  { rewrite (tiles_cover _ 0) by done. rewrite Hte. unfold slice, padded. simpl. by rewrite drop_0, Nat2Z.id, take_app_length. }
  eapply eventually_mono; [|apply (recs_give alloc_ok bz_compress sfuel alloc_all compress_ok sort_ok
    src tgt src_bytes tgt_bytes src_size tgt_size m1 m2 l pre HL)].
  - cbn beta. intros fuel Hgives. exists (recs l (total_header_size l)), (write_bodies l), (tile (padded tgt) <$> m2).
    split; [done|]. split; [done|]. rewrite Hfile. rewrite <- Hpre. exact Hgives.
  - apply Forall_forall. intros c Hc. destruct Hs as [Hok Hst]. rewrite Forall_forall in Hok, Hss.
    split; [auto|]. split; [|auto]. pose proof (tiles_bound _ 0 m1 c (conj (proj2 (Forall_forall _ _) Hok) Hst) Hc). lia.
  - apply Forall_forall. intros c Hc. destruct Ht as [Hok _]. rewrite Forall_forall in Hok, Hts, Hrec2.
    split; [auto|]. auto.
  - by rewrite <- Hfile.
Qed.

Lemma fits_spec file img cs :
  fits sfuel file = true → ReadImage sfuel (Some file) = Ret (Some (img, cs)) →
  image_end cs = zlen file ∧ Forall small_data cs.
Proof.
  unfold fits. intros Hf Hr. rewrite Hr in Hf. apply andb_true_iff in Hf as [He Hs]. split; [lia|].
  rewrite <- Is_true_true, forallb_True in Hs. eapply Forall_impl; [exact Hs|].
  intros c Hc _. apply Is_true_true in Hc. lia.
Qed.

Lemma imgdiff_main_spec qsort read_file open_ok prog a b p patch :
  strcmp a (str "-z") ≠ 0 → read_file a = Some src → read_file b = Some tgt →
  fits sfuel src = true → fits sfuel tgt = true →
  imgdiff_main bz_compress sfuel qsort tmp_stat tmp_read read_file open_ok [prog; a; b; p] = Ret (0, Some patch) →
  zlen patch < 2 ^ 31 →
  eventually (λ fuel, ∃ cs rest outs, patch = encode_image cs rest ∧ concat outs = tgt ∧
    Forall2 (chunk_gives alloc_ok fuel src (mk_value 2 (zlen patch) patch)) cs outs).
Proof.
  intros Hz Ha Hb Hfs Hft Hm Hsize. unfold imgdiff_main in Hm. cbn [length Nat.eqb negb andb] in Hm.
  cbn [lookup list_lookup from_option id] in Hm.
  rewrite (proj2 (Z.eqb_neq (strcmp a (str "-z")) 0) Hz) in Hm.
  cbn [lookup list_lookup mbind option_bind] in Hm. rewrite Ha, Hb in Hm.
  step_ret Hm. rename E into Hrs. destruct a0 as [[simg scs]|]; [|done]. step_ret Hm. rename E into Hrt.
  destruct a0 as [[timg tcs]|]; [|done].
  destruct (fits_spec _ _ _ Hfs Hrs) as [Hse Hss]. destruct (fits_spec _ _ _ Hft Hrt) as [Hte Hts].
  apply ReadImage_spec in Hrs as (-> & Hst & _); [|done|lia]. apply ReadImage_spec in Hrt as (-> & Htt & _); [|done|lia].
  step_ret Hm. rename a0 into m2, E into Hm2. step_ret Hm. rename a0 into m1, E into Hm1. cbn [negb andb] in Hm.
  unfold same_types in Hm. case_bool_decide as Hty; cbn [negb] in Hm; [|done].
  step_ret Hm. destruct a0 as [contents|]; [|done]. step_ret Hm. destruct (negb _); [done|]. injection Hm as ->.
  eapply diff_chunks_spec; [|exact E|done].
  eapply Merge_spec in Hm1; [|exact Hst]. eapply Merge_spec in Hm2; [|exact Htt].
  destruct Hm1 as (He1 & Hc1 & Hd1 & Hmm1), Hm2 as (He2 & Hc2 & Hd2 & Hmm2).
  split; [auto|]. split; [congruence|]. split; [|split; [auto|split; [congruence|split; [|done]]]].
  - eapply Forall_impl; [exact Hd1|]. intros c Hc ?. rewrite Forall_forall in Hss. apply Hss; auto.
  - eapply Forall_impl; [exact Hd2|]. intros c Hc ?. rewrite Forall_forall in Hts. apply Hts; auto.
Qed.
End whole.

(** ** Concrete parameters *)
Module TripDemo.
Import BzDemo ImgDemo.

(** A code with no compression: the first byte is the number of those that follow. *)
Inductive zstate := ZFresh | ZLeft (n : nat).
Definition zstep (m k : nat) (input : list Z) (room : Z) : Z * nat * list Z * zstate :=
  let out := take (Nat.min m (Z.to_nat room)) input in
  (if (length out =? m)%nat then Z_STREAM_END else Z_OK, (k + length out)%nat, out, ZLeft (m - length out)).
#[local] Instance demo_inflate : Inflate := {|
  istate := zstate;
  inflateInit2 := ZFresh;
  inflate st input room :=
    match st with
    | ZFresh => match input with [] => (-5, 0%nat, [], ZFresh) | h :: t => zstep (Z.to_nat h) 1 t room end
    | ZLeft m => zstep m 0 input room
    end
|}.
#[local] Instance demo_deflate : Deflate := {|
  inflateInit2_raw := Z_OK;
  inflate_once input n :=
    match input with
    | [] => (-5, [])
    | h :: t => let '(ret, _, out, _) := zstep (Z.to_nat h) 1 t n in (ret, out)
    end;
  dstate := list Z;
  deflateInit2 _ _ _ _ _ input := zlen input :: input;
  deflate l n := (if zlen l <=? n then Z_STREAM_END else Z_OK, take (Z.to_nat n) l, drop (Z.to_nat n) l)
|}.

Lemma zleft_run m input k out : inflate_run (ZLeft m) input k out → k = m ∧ out = take m input ∧ (m ≤ length input)%nat.
Proof.
  remember (ZLeft m) as st. intros Hrun. revert m Heqst.
  induction Hrun as [st input n k out st' Hi|st input n ret k out st' k' out' Hi Hne Hrun IH]; intros m ->;
    simpl in Hi; unfold zstep in Hi; injection Hi as Hret <- <- <-; rewrite length_take in *;
    destruct (Nat.eqb_spec (Nat.min (Nat.min m (Z.to_nat n)) (length input)) m) as [Hm|Hm]; try done.
  - split; [lia|]. split; [|lia]. f_equal. lia.
  - destruct (IH _ eq_refl) as (-> & -> & Hl). rewrite length_drop in *. split; [lia|]. split; [|lia].
    set (a := Nat.min m (Z.to_nat n)) in *. assert (Nat.min a (length input) = a) as Ha by lia. rewrite Ha.
    rewrite take_take_drop. f_equal. lia.
Qed.

Lemma whole_step h t : (Z.to_nat h ≤ length t)%nat →
  inflate_once (take (S (Z.to_nat h)) (h :: t)) (zlen (take (Z.to_nat h) t)) = (Z_STREAM_END, take (Z.to_nat h) t).
Proof.
  intros Hl. set (m := Z.to_nat h) in *. cbn [take inflate_once demo_deflate]. unfold zstep. fold m.
  assert (Hlen : length (take m t) = m) by (rewrite length_take; lia).
  rewrite Hlen, Nat2Z.id, Nat.min_id, take_take, Nat.min_id, Hlen, Nat.eqb_refl. done.
Qed.

#[local] Instance demo_laws : ZlibLaws.
Proof.
  refine {| deflated _ input := zlen input :: input |}; [done| |].
  - intros input k out Hrun. inversion Hrun as [? ? n ? ? ? Hi|? ? n ret k1 o1 st' k' o' Hi Hne Hr]; subst; clear Hrun.
    + destruct input as [|h t]; [done|]. simpl in Hi. unfold zstep in Hi. injection Hi as Hret <- <- _.
      rewrite length_take in *. set (m := Z.to_nat h) in *.
      destruct (Nat.eqb_spec (Nat.min (Nat.min m (Z.to_nat n)) (length t)) m) as [Hm|]; [|done].
      assert (Nat.min m (Z.to_nat n) = m) as -> by lia. split; [simpl; lia|].
      rewrite (Nat.min_l m (length t)) by lia. split.
      * replace (Z.of_nat m) with (zlen (take m t)) by (rewrite length_take; lia). apply whole_step. lia.
      * intros Hb. apply Forall_cons in Hb as [_ Hb]. by apply Forall_take.
    + destruct input as [|h t].
      * simpl in Hi. injection Hi as <- <- <- <-. exfalso. clear Hne.
        remember [] as input eqn:Hin. remember ZFresh as st eqn:Hst. change (drop 0 input) with input in Hr.
        subst input. remember [] as input eqn:Hin. clear -Hr Hst Hin.
        induction Hr as [? ? ? ? ? ? Hi|? ? ? ? ? ? ? ? ? Hi ? ? IH]; subst; simpl in Hi; [done|].
        injection Hi as <- <- <- <-. by apply IH.
      * simpl in Hi. unfold zstep in Hi. injection Hi as <- <- <- <-. apply zleft_run in Hr as (-> & -> & Hl).
        rewrite length_take in *. set (m := Z.to_nat h) in *. set (a := Nat.min m (Z.to_nat n)) in *.
        cbn [drop] in *. rewrite length_drop in Hl. assert (Ham : (a ≤ m)%nat) by apply Nat.le_min_l.
        assert (Nat.min a (length t) = a) as Ha by lia. rewrite Ha in *.
        assert (take a t ++ take (m - a) (drop a t) = take m t) as -> by (rewrite take_take_drop; f_equal; lia).
        replace (S a + (m - a))%nat with (S m) by lia. cbn [length]. split; [lia|]. split.
        -- apply whole_step. lia.
        -- intros Hb. apply Forall_cons in Hb as [_ Hb]. by apply Forall_take.
  - intros e input size _ Hs. cbn [deflateInit2 demo_deflate]. generalize (zlen input :: input). intros l.
    exists (S (length l)). intros m Hm. revert l Hm. induction m as [|m IH]; intros l Hm; [lia|].
    cbn [deflate_all deflate demo_deflate]. destruct (Z.leb_spec (zlen l) size).
    + simpl. f_equal. apply take_ge. lia.
    + cbn [Z.eqb Z_OK Z_STREAM_END]. rewrite IH by (rewrite length_drop; lia). simpl. by rewrite take_drop.
Defined.
End TripDemo.

(** ** Properties *)

(** C3: when imgdiff, called without -z on two images, ends with 0 and a patch, then this patch,
    applied to the first image by imgpatch.c, writes exactly the second and returns 0, and the
    checksum covers what it writes: whatever way the images are split, recompressed chunks are
    recognised, unequal chunks become normal, neighbours are merged, and whichever chunks are stored
    raw. The images and the patch are smaller than 2 GB, memory is available, and each gzip section
    of the images ends, with its footer, inside the file ([fits]): with a footer that is cut short
    the patch is wrong ([truncated_footer]). *)
Theorem imgdiff_imgpatch_roundtrip `{Bzip2Laws} `{Sha1Laws} `{ZlibLaws} (alloc_ok : Z → bool)
    (bz_compress : list Z → list Z) sfuel qsort tmp_stat tmp_read read_file open_ok
    {T} (sink : list Z → T → outcome (Z * T)) (out_of : T → list Z) prog a b p src tgt patch token ctx :
  (∀ n, 0 ≤ n → alloc_ok n = true) → (∀ l r, bz_contents (bz_compress l ++ r) = Some l) →
  bytes_ok src → bytes_ok tgt → zlen src < 2 ^ 31 - 4 → zlen tgt < 2 ^ 31 - 4 →
  strcmp a (str "-z") ≠ 0 → read_file a = Some src → read_file b = Some tgt →
  fits sfuel src = true → fits sfuel tgt = true →
  imgdiff_main bz_compress sfuel qsort tmp_stat tmp_read read_file open_ok [prog; a; b; p] = Ret (0, Some patch) →
  zlen patch < 2 ^ 31 → accepts sink out_of →
  ∃ n, ∀ fuel, (n ≤ fuel)%nat →
    gives out_of (ApplyImagePatch alloc_ok fuel sink src (mk_value 2 (zlen patch) patch) token ctx) token ctx tgt.
Proof.
  intros Halloc Hz Hsb Htb Hs Ht Hnz Ha Hb Hfs Hft Hm Hsize Hsink.
  destruct (imgdiff_main_spec alloc_ok bz_compress sfuel Halloc Hz (qsufsort_array_ok sfuel) tmp_stat tmp_read
    src tgt Hsb Htb Hs Ht qsort read_file open_ok prog a b p patch Hnz Ha Hb Hfs Hft Hm Hsize) as [n Hn].
  exists n. intros fuel Hf. destruct (Hn fuel Hf) as (cs & rest & outs & Henc & <- & Hgives).
  by eapply (ApplyImagePatch_spec alloc_ok fuel sink out_of src _ cs rest).
Qed.

(** An image that ends in the bytes 1f 8b 08 is never read: the loop over the chunks
    stays in its place, and adds an empty chunk to the list every time. *)
Theorem ReadImage_magic_tail `{Deflate} `{Inflate} fuel n pre cs :
  image_chunks fuel n (padded (pre ++ [0x1f; 0x8b; 0x08])) (zlen (pre ++ [0x1f; 0x8b; 0x08])) (zlen pre) cs = Diverge.
Proof.
  set (img := padded _). set (size := zlen _).
  assert (Hsize : size = zlen pre + 3) by (subst size; rewrite length_app; simpl; lia).
  assert (Hm : bytes_at gzip_magic img (zlen pre + 0) = Ret true).
  { subst img. unfold padded, gzip_magic. rewrite <- app_assoc. cbn [bytes_at].
    rewrite <- !Z.add_assoc, !rd_app_r by lia. reflexivity. }
  revert cs. induction n as [|n IH]; intros cs; [done|]. cbn [image_chunks].
  destruct (Z.ltb_spec (zlen pre) size), (Z.leb_spec 4 (size - zlen pre)); try lia.
  change (mret false ≫= ?k) with (k false). cbn beta iota. cbn [scan_gzip].
  destruct (Z.ltb_spec 0 (size - zlen pre)); [|lia]. rewrite Hm. cbn [mbind outcome_bind].
  change (mret 0 ≫= ?k) with (k 0). cbn beta. rewrite Z.add_0_r. apply IH.
Qed.

(** A deflate stream that does not end makes the reader spin. *)
Lemma inflate_error_spins `{Inflate} n strm data al err :
  err ≠ Z_STREAM_END → zlen data < al → (∀ room, inflate strm [] room = (err, 0%nat, [], strm)) →
  inflate_all n strm [] data al = Diverge.
Proof.
  intros Herr Hal Hi. induction n as [|n IH]; [done|]. cbn [inflate_all]. rewrite Hi, app_nil_r. cbv zeta.
  destruct (Z.eqb_spec err Z_STREAM_END); [done|]. cbn [negb drop].
  destruct (Z.eqb_spec (al - zlen data) 0); [lia|]. exact IH.
Qed.

(** ** Witnesses *)
Section witnesses.
Import BzDemo ImgDemo TripDemo.
#[local] Existing Instances toy_bzip2 toy_laws toy_sha toy_sha_laws demo_inflate demo_deflate demo_laws.

(** A gzip section with some bytes before and behind it. *)
Definition gz_image (before body after : string) : list Z :=
  str before ++ gzip_magic ++ [1; 2; 3; 4; 5; 6] ++ (zlen (str body) :: str body) ++ [9; 9; 9; 9] ++
  Write4 (zlen (str body)) ++ str after.
Definition demo_src : list Z := gz_image "head" "the quick brown fox" "tail".
Definition demo_tgt : list Z := gz_image "HEAD" "the quick red foxes" "tail!".
Definition demo_files (name : list Z) : option (list Z) :=
  if strcmp name (str "a") =? 0 then Some demo_src else if strcmp name (str "b") =? 0 then Some demo_tgt else None.
Definition demo_patch_file : list Z :=
  match imgdiff_main block 60 id true true demo_files (λ _, true) [str "imgdiff"; str "a"; str "b"; str "p"] with
  | Ret (_, Some l) => l
  | _ => []
  end.

(** The patch has a raw record, a deflate record and a raw record. *)
Example demo_types : take 4 (drop 12 demo_patch_file) = Write4 CHUNK_RAW ∧ zlen demo_patch_file = 197.
Proof. vm_compute. done. Qed.

Lemma imgdiff_imgpatch_roundtrip_witness :
  ∃ n, ∀ fuel, (n ≤ fuel)%nat →
    gives id (ApplyImagePatch (λ _, true) fuel keep demo_src (mk_value 2 (zlen demo_patch_file) demo_patch_file) [] [])
      [] [] demo_tgt.
Proof.
  apply (imgdiff_imgpatch_roundtrip (λ _, true) block 60 id true true demo_files (λ _, true) keep id
    (str "imgdiff") (str "a") (str "b") (str "p")).
  - done.
  - intros l r. apply block_contents.
  - apply (bool_decide_unpack _). vm_compute. exact I.
  - apply (bool_decide_unpack _). vm_compute. exact I.
  - reflexivity.
  - reflexivity.
  - discriminate.
  - reflexivity.
  - reflexivity.
  - vm_compute. reflexivity.
  - vm_compute. reflexivity.
  - vm_compute. reflexivity.
  - vm_compute. reflexivity.
  - intros l t. by eexists.
Defined.

(** A footer that is cut short: the chunks go on behind the end of the image, so that the
    patch has more bytes than its target. *)
Example truncated_footer :
  let image := take 33 (gz_image "" "the quick brown" "") in
  match ReadImage 60 (Some image) with
  | Ret (Some (_, cs)) => (zlen image, image_end cs) = (33, 34)
  | _ => False
  end.
Proof. vm_compute. reflexivity. Qed.
End witnesses.
