(* ===== verification/Syscalls.v ===== *)
(** * Syscalls

    The system calls that the patcher and the flash code make, on an abstract state [W]
    of the system. The kernel is a parameter. *)
From S2P Require Import Prelude.

Record Stat := mk_stat { st_mode : Z; st_uid : Z; st_gid : Z; st_size : Z }.
Definition S_ISREG (mode : Z) : bool := Z.land mode 0xf000 =? 0x8000.

Class PatchOS (W : Type) := {
  sys_stat : list Z → W → option Stat;
  (** [fopen] and [fread] of the given number of bytes *)
  sys_fread : list Z → Z → W → option (list Z);
  sys_open_trunc : list Z → W → Z * W;
  sys_write : Z → list Z → W → Z * W;
  sys_fsync : Z → W → W;
  sys_close : Z → W → W;
  sys_chmod : list Z → Z → W → Z * W;
  sys_chown : list Z → Z → Z → W → Z * W;
  sys_rename : list Z → list Z → W → Z * W;
  sys_unlink : list Z → W → Z * W;
  (** block size and free blocks *)
  sys_statfs : list Z → W → option (Z * Z);
  (** the names that [readdir] lists *)
  sys_listdir : list Z → W → option (list (list Z));
  sys_readlink : list Z → W → option (list Z);
  (** device, mount point, type of the file system, flags *)
  sys_mount : list Z → list Z → list Z → Z → W → Z * W
}.
