(* ===== verification/Files.v ===== *)
(** * Files

    What a file system promises to the code that uses it: the laws of the system calls on
    files, and a file system that has them. *)
From S2P Require Import Prelude CString Syscalls.

(** Files are told apart by their paths. A descriptor that was opened for writing appends to
    its file; the other calls change the files that they name. *)
Class FsLaws {W : Type} `{PatchOS W} := {
  file_at : W → list Z → option (list Z);
  opened : W → Z → option (list Z);
  stat_ok p w st c : sys_stat p w = Some st → file_at w p = Some c →
    st_size st = zlen c ∧ st_size st < 2 ^ 31;
  fread_ok p n w l : sys_fread p n w = Some l →
    ∃ c, file_at w p = Some c ∧ l = take (Z.to_nat n) c;
  open_trunc_ok p w : let '(fd, w') := sys_open_trunc p w in
    (∀ q, q ≠ p → file_at w' q = file_at w q) ∧
    (if fd <? 0 then file_at w' p = file_at w p
     else file_at w' p = Some [] ∧ opened w' fd = Some p);
  write_file_ok fd l w p c : opened w fd = Some p → file_at w p = Some c →
    let '(n, w') := sys_write fd l w in
    opened w' fd = Some p ∧ n ≤ zlen l ∧ file_at w' p = Some (c ++ take (Z.to_nat n) l) ∧
    ∀ q, q ≠ p → file_at w' q = file_at w q;
  fsync_ok fd w : ∀ q, file_at (sys_fsync fd w) q = file_at w q;
  close_file_ok fd w : ∀ q, file_at (sys_close fd w) q = file_at w q;
  chmod_ok p m w : ∀ q, file_at (sys_chmod p m w).2 q = file_at w q;
  chown_ok p u g w : ∀ q, file_at (sys_chown p u g w).2 q = file_at w q;
  rename_ok a b w : let '(r, w') := sys_rename a b w in
    if r =? 0 then file_at w' b = file_at w a ∧ ∀ q, q ≠ a → q ≠ b → file_at w' q = file_at w q
    else ∀ q, file_at w' q = file_at w q;
  unlink_ok p w : let '(r, w') := sys_unlink p w in
    (∀ q, q ≠ p → file_at w' q = file_at w q) ∧ (r = 0 → file_at w' p = None)
}.

(** Nothing fails: files are readable, descriptors can be had, and there is room. *)
Class FsWorks {W : Type} `{PatchOS W} `{!FsLaws} := {
  stat_works p w c : file_at w p = Some c → zlen c < 2 ^ 31 → is_Some (sys_stat p w);
  fread_works p n w c : file_at w p = Some c → sys_fread p n w = Some (take (Z.to_nat n) c);
  open_works p w : 0 ≤ (sys_open_trunc p w).1;
  write_works fd l w p : opened w fd = Some p → is_Some (file_at w p) → l ≠ [] →
    0 < (sys_write fd l w).1;
  chmod_works p m w : (sys_chmod p m w).1 = 0;
  chown_works p u g w : (sys_chown p u g w).1 = 0;
  rename_works a b w : is_Some (file_at w a) → (sys_rename a b w).1 = 0;
  unlink_works p w : is_Some (file_at w p) → (sys_unlink p w).1 = 0;
  statfs_works p w : ∃ bsize bfree, sys_statfs p w = Some (bsize, bfree) ∧ 2 ^ 31 ≤ u32 (bsize * bfree)
}.

(** A file system in memory, with one descriptor. *)
Module FsDemo.

Definition fs : Type := (list Z → option (list Z)) * option (list Z).
Definition upd (p : list Z) (c : option (list Z)) (f : list Z → option (list Z)) : list Z → option (list Z) :=
  λ q, if decide (q = p) then c else f q.
Definition demo_stat (c : list Z) : option Stat :=
  if zlen c <? 2 ^ 31 then Some (mk_stat 33188 0 0 (zlen c)) else None.

#[local] Instance os : PatchOS fs := {|
  sys_stat p w := w.1 p ≫= demo_stat;
  sys_fread p n w := take (Z.to_nat n) <$> w.1 p;
  sys_open_trunc p w := (3, (upd p (Some []) w.1, Some p));
  sys_write _ l w :=
    match w.2 with
    | Some p =>
        match w.1 p with
        | Some c => (zlen l, (upd p (Some (c ++ l)) w.1, w.2))
        | None => (-1, w)
        end
    | None => (-1, w)
    end;
  sys_fsync _ w := w;
  sys_close _ w := (w.1, None);
  sys_chmod _ _ w := (0, w);
  sys_chown _ _ _ w := (0, w);
  sys_rename a b w :=
    match w.1 a with
    | Some c => (0, (upd b (Some c) (upd a None w.1), w.2))
    | None => (-1, w)
    end;
  sys_unlink p w := (0, (upd p None w.1, w.2));
  sys_statfs _ _ := Some (4096, 2 ^ 19);
  sys_listdir _ _ := None;
  sys_readlink _ _ := None;
  sys_mount _ _ _ _ w := (-1, w)
|}.

Lemma upd_eq p c f : upd p c f p = c.
Proof. unfold upd. by rewrite decide_True. Qed.
Lemma upd_ne p c f q : q ≠ p → upd p c f q = f q.
Proof. intros. unfold upd. by rewrite decide_False. Qed.

#[local] Instance fs_laws : FsLaws.
Proof.
  refine {| file_at w p := w.1 p; opened w _ := w.2 |}; simpl; try done.
  - intros p w st c Hst Hc. rewrite Hc in Hst. unfold demo_stat in Hst. simpl in Hst.
    destruct (Z.ltb_spec (zlen c) (2 ^ 31)); [|done]. injection Hst as <-. done.
  - intros p n w l Hl. destruct (w.1 p) as [c|]; [|done]. injection Hl as <-. eauto.
  - intros p w. split; [intros q Hq; by apply upd_ne|]. by rewrite upd_eq.
  - intros fd l w p c -> Hc. rewrite Hc. simpl. split; [done|]. split; [lia|].
    rewrite upd_eq, Nat2Z.id, firstn_all. split; [done|]. intros q Hq. by apply upd_ne.
  - intros a b w. destruct (w.1 a) as [c|] eqn:Ha; simpl; [|done].
    split; [by rewrite upd_eq|]. intros q ??. by rewrite !upd_ne.
  - intros p w. split; [intros q Hq; by apply upd_ne|]. intros _. by apply upd_eq.
Defined.

#[local] Instance fs_works : FsWorks.
Proof.
  constructor; simpl; try done.
  - intros p w c -> Hc. unfold demo_stat. simpl. by rewrite (proj2 (Z.ltb_lt _ _)).
  - by intros p n w c ->.
  - intros fd l w p -> [c ->] Hl. simpl. destruct l; [done|]. simpl. lia.
  - by intros a b w [c ->].
  - intros _ _. by eexists _, _.
Qed.
End FsDemo.
