(* ===== verification/Freecache.v ===== *)
(** * Freecache

    applypatch/freecache.c: making room on the cache partition. *)
From S2P Require Import Prelude CString Syscalls.

Definition CACHE_TEMP_SOURCE : list Z := str "/cache/saved.file".

Section code.
Context {W : Type} `{PatchOS W}.
Implicit Types (w : W).

(** -1 becomes the greatest [size_t]. *)
Definition FreeSpaceForFile (filename : list Z) w : Z :=
  match sys_statfs filename w with
  | None => u32 (-1)
  | Some (f_bsize, f_bfree) => u32 (f_bsize * f_bfree)
  end.

(** [if (files[j] && strcmp(files[j], link) == 0)]: the file is forgotten. *)
Definition forget (link : list Z) (files : list (option (list Z))) : list (option (list Z)) :=
  (λ f, match f with Some p => if strcmp p link =? 0 then None else f | None => None end) <$> files.

(** The descriptors of one process. *)
Fixpoint scan_fds (path : list Z) (fds : list (list Z)) w (files : list (option (list Z))) :=
  match fds with
  | [] => files
  | fd :: fds =>
      scan_fds path fds w
        match sys_readlink (path ++ fd) w with
        | Some link => if strncmp 7 link (str "/cache/") =? 0 then forget link files else files
        | None => files
        end
  end.

Fixpoint scan_procs (names : list (list Z)) w (files : list (option (list Z))) :=
  match names with
  | [] => files
  | name :: names =>
      scan_procs names w
        (if forallb is_digit name then
           let path := str "/proc/" ++ name ++ str "/fd/" in
           match sys_listdir path w with
           | Some fds => scan_fds path fds w files
           | None => files
           end
         else files)
  end.

(** The result and the files that are left. *)
Definition EliminateOpenFiles (files : list (option (list Z))) w : Z * list (option (list Z)) :=
  match sys_listdir (str "/proc") w with
  | None => (-1, files)
  | Some names => (0, scan_procs names w files)
  end.

(** The regular files of a directory. *)
Fixpoint regular_files (dir : list Z) (names : list (list Z)) w : list (list Z) :=
  match names with
  | [] => []
  | name :: names =>
      let path := dir ++ str "/" ++ name in
      if strcmp path CACHE_TEMP_SOURCE =? 0 then regular_files dir names w
      else
        match sys_stat path w with
        | Some st =>
            if S_ISREG (st_mode st) then path :: regular_files dir names w
            else regular_files dir names w
        | None => regular_files dir names w
        end
  end.

Definition in_dir w (dir : list Z) : list (list Z) :=
  match sys_listdir dir w with None => [] | Some names => regular_files dir names w end.
Definition deletable_dirs : list (list Z) := [str "/cache"; str "/cache/recovery/otatest"].
Definition FindExpendableFiles w : Z * list (option (list Z)) :=
  EliminateOpenFiles (Some <$> (deletable_dirs ≫= in_dir w)) w.

(** The loop that deletes until there is enough room. *)
Fixpoint delete_loop (names : list (option (list Z))) (free_now bytes_needed : Z) w : Z * W :=
  match names with
  | [] => (free_now, w)
  | name :: names =>
      if free_now <? bytes_needed then
        match name with
        | Some p =>
            let '(_, w) := sys_unlink p w in
            delete_loop names (FreeSpaceForFile (str "/cache") w) bytes_needed w
        | None => delete_loop names free_now bytes_needed w
        end
      else (free_now, w)
  end.

Definition MakeFreeSpaceOnCache (bytes_needed : Z) w : Z * W :=
  let free_now := FreeSpaceForFile (str "/cache") w in
  if bytes_needed <=? free_now then (0, w)
  else
    let '(r, names) := FindExpendableFiles w in
    if r <? 0 then (-1, w)
    else if bool_decide (names = []) then (-1, w)
    else
      let '(free_now, w) := delete_loop names free_now bytes_needed w in
      (if bytes_needed <=? free_now then 0 else -1, w).

Definition CacheSizeCheck (bytes : Z) w : Z * W :=
  let '(r, w) := MakeFreeSpaceOnCache bytes w in (if r <? 0 then 1 else 0, w).
End code.

(** ** What may be deleted *)
Section lemmas.
Context {W : Type} `{PatchOS W}.
Implicit Types (w : W) (files : list (option (list Z))).

(** A process of the listing of /proc has the file open. *)
Definition open_in w (p : list Z) : Prop :=
  ∃ names name fds fd, sys_listdir (str "/proc") w = Some names ∧ name ∈ names ∧
    forallb is_digit name = true ∧
    sys_listdir (str "/proc/" ++ name ++ str "/fd/") w = Some fds ∧ fd ∈ fds ∧
    sys_readlink ((str "/proc/" ++ name ++ str "/fd/") ++ fd) w = Some p.

(** A regular file in one of the two directories, not the saved copy, and not open. *)
Definition deletable w (p : list Z) : Prop :=
  (∃ dir names name, dir ∈ deletable_dirs ∧ sys_listdir dir w = Some names ∧ name ∈ names ∧
     p = dir ++ str "/" ++ name) ∧
  (∃ st, sys_stat p w = Some st ∧ S_ISREG (st_mode st) = true) ∧
  strcmp p CACHE_TEMP_SOURCE ≠ 0 ∧
  ¬ (cstr p ∧ open_in w p).

Lemma strncmp_app p s : strncmp (length p) (p ++ s) p = 0.
Proof. induction p; simpl; [by destruct s|]. by rewrite Z.eqb_refl. Qed.

Lemma forget_spec link files p : Some p ∈ forget link files ↔ Some p ∈ files ∧ strcmp p link ≠ 0.
Proof.
  unfold forget. rewrite list_elem_of_fmap. split.
  - intros ([q|] & Hq & Hin); [|done]. destruct (Z.eqb_spec (strcmp q link) 0); [done|].
    injection Hq as ->. done.
  - intros [Hin Hne]. exists (Some p). split; [|done]. by destruct (Z.eqb_spec (strcmp p link) 0).
Qed.

Lemma scan_fds_spec path fds w files p :
  Some p ∈ scan_fds path fds w files →
  Some p ∈ files ∧ ∀ fd link, fd ∈ fds → sys_readlink (path ++ fd) w = Some link →
    strncmp 7 link (str "/cache/") = 0 → strcmp p link ≠ 0.
Proof.
  revert files. induction fds as [|fd fds IH]; intros files; cbn [scan_fds].
  { intros Hp. split; [done|]. intros fd link Hfd. by apply not_elem_of_nil in Hfd. }
  intros [Hp Hrest]%IH. destruct (sys_readlink (path ++ fd) w) as [link|] eqn:Hl.
  - destruct (Z.eqb_spec (strncmp 7 link (str "/cache/")) 0) as [Hc|Hc].
    + apply forget_spec in Hp as [Hp Hne]. split; [done|]. intros fd' link' Hfd Hl' Hc'.
      apply elem_of_cons in Hfd as [->|Hfd]; [by simplify_eq|eauto].
    + split; [done|]. intros fd' link' Hfd Hl' Hc'.
      apply elem_of_cons in Hfd as [->|Hfd]; [by simplify_eq|eauto].
  - split; [done|]. intros fd' link' Hfd Hl' Hc'.
    apply elem_of_cons in Hfd as [->|Hfd]; [by simplify_eq|eauto].
Qed.

Lemma scan_procs_spec names w files p :
  Some p ∈ scan_procs names w files →
  Some p ∈ files ∧ ∀ name fds fd link, name ∈ names → forallb is_digit name = true →
    sys_listdir (str "/proc/" ++ name ++ str "/fd/") w = Some fds → fd ∈ fds →
    sys_readlink ((str "/proc/" ++ name ++ str "/fd/") ++ fd) w = Some link →
    strncmp 7 link (str "/cache/") = 0 → strcmp p link ≠ 0.
Proof.
  revert files. induction names as [|name names IH]; intros files; cbn [scan_procs].
  { intros Hp. split; [done|]. intros name fds fd link Hn. by apply not_elem_of_nil in Hn. }
  cbv zeta. set (path := str "/proc/" ++ name ++ str "/fd/"). intros [Hp Hrest]%IH.
  destruct (forallb is_digit name) eqn:Hd; cycle 1.
  { split; [done|]. intros name' fds fd link Hn. apply elem_of_cons in Hn as [->|Hn]; [congruence|eauto]. }
  destruct (sys_listdir path w) as [fds|] eqn:Hfds; cycle 1.
  { split; [done|]. intros name' fds fd link Hn.
    apply elem_of_cons in Hn as [->|Hn]; [subst path; congruence|eauto]. }
  apply scan_fds_spec in Hp as [Hp Hlinks]. split; [done|].
  intros name' fds' fd link Hn. apply elem_of_cons in Hn as [->|Hn]; [|eauto].
  fold path. rewrite Hfds. intros _ [= <-]. eauto.
Qed.

Lemma regular_files_spec dir names w p :
  p ∈ regular_files dir names w →
  (∃ name, name ∈ names ∧ p = dir ++ str "/" ++ name) ∧ strcmp p CACHE_TEMP_SOURCE ≠ 0 ∧
  ∃ st, sys_stat p w = Some st ∧ S_ISREG (st_mode st) = true.
Proof.
  induction names as [|name names IH]; cbn [regular_files]; [by intros ?%not_elem_of_nil|].
  cbv zeta. intros Hp.
  assert (p ∈ regular_files dir names w ∨ (p = dir ++ str "/" ++ name ∧
    strcmp p CACHE_TEMP_SOURCE ≠ 0 ∧ ∃ st, sys_stat p w = Some st ∧ S_ISREG (st_mode st) = true))
    as [Hin|(-> & ? & ?)].
  { destruct (Z.eqb_spec (strcmp (dir ++ str "/" ++ name) CACHE_TEMP_SOURCE) 0); [by left|].
    destruct (sys_stat (dir ++ str "/" ++ name) w) as [st|] eqn:Hst; [|by left].
    destruct (S_ISREG (st_mode st)) eqn:Hreg; [|by left].
    apply elem_of_cons in Hp as [->|Hp]; [right; eauto|by left]. }
  - destruct (IH Hin) as ((n & ? & ->) & ? & ?). split; [|done]. exists n. split; [by right|done].
  - split; [|done]. exists name. split; [by left|done].
Qed.

Lemma FindExpendableFiles_spec w names p :
  FindExpendableFiles w = (0, names) → Some p ∈ names → deletable w p.
Proof.
  unfold FindExpendableFiles, EliminateOpenFiles.
  destruct (sys_listdir (str "/proc") w) as [procs|] eqn:Hproc; [|done].
  intros [= <-] [Hp Hopen]%scan_procs_spec.
  apply list_elem_of_fmap in Hp as (q & [= <-] & Hp). change (p ∈ deletable_dirs ≫= in_dir w) in Hp.
  apply list_elem_of_bind in Hp as (dir & Hp & Hdir).
  unfold in_dir in Hp. destruct (sys_listdir dir w) as [ns|] eqn:Hns; [|by apply not_elem_of_nil in Hp].
  apply regular_files_spec in Hp as ((name & Hname & Hq) & Hne & Hst).
  split; [by exists dir, ns, name|]. split; [done|]. split; [done|].
  intros [Hc (procs' & pname & fds & fd & Hp' & Hin & Hdig & Hfds & Hfd & Hlink)].
  rewrite Hproc in Hp'. injection Hp' as <-.
  eapply Hopen; [exact Hin|exact Hdig|exact Hfds|exact Hfd|exact Hlink| |].
  - subst p. unfold deletable_dirs in Hdir. rewrite !elem_of_cons in Hdir.
    destruct Hdir as [->|[->|?%not_elem_of_nil]]; [..|done]; done.
  - by apply strcmp_0.
Qed.
End lemmas.

(** ** Making room *)
Section making_room.
Context {W : Type} `{PatchOS W}.
Implicit Types (w : W).

(** One file of the plan of [w0] is unlinked, while there is too little room. *)
Inductive unlinks (bytes_needed : Z) (w0 : W) : W → W → Prop :=
  | unlinks_refl w : unlinks bytes_needed w0 w w
  | unlinks_step w p w' :
      deletable w0 p → FreeSpaceForFile (str "/cache") w < bytes_needed →
      unlinks bytes_needed w0 (sys_unlink p w).2 w' → unlinks bytes_needed w0 w w'.

Lemma delete_loop_spec bytes_needed w0 names w :
  (∀ p, Some p ∈ names → deletable w0 p) →
  let '(free_now, w') := delete_loop names (FreeSpaceForFile (str "/cache") w) bytes_needed w in
  free_now = FreeSpaceForFile (str "/cache") w' ∧ unlinks bytes_needed w0 w w'.
Proof.
  revert w. induction names as [|name names IH]; intros w Hdel; cbn [delete_loop].
  { split; [done|constructor]. }
  destruct (Z.ltb_spec (FreeSpaceForFile (str "/cache") w) bytes_needed) as [Hlt|]; [|split; [done|constructor]].
  destruct name as [p|]; [|apply IH; intros p Hp; apply Hdel; by right].
  destruct (sys_unlink p w) as [r w1] eqn:Hu.
  specialize (IH w1 ltac:(intros q Hq; apply Hdel; by right)).
  destruct (delete_loop _ _ _ _) as [free_now w']. destruct IH as [-> Hun]. split; [done|].
  eapply unlinks_step; [apply Hdel; by left|done|by rewrite Hu].
Qed.

Lemma MakeFreeSpaceOnCache_spec bytes_needed w :
  let '(r, w') := MakeFreeSpaceOnCache bytes_needed w in
  unlinks bytes_needed w w w' ∧ (r = 0 ∨ r = -1) ∧
  (r = 0 → bytes_needed ≤ FreeSpaceForFile (str "/cache") w') ∧
  (bytes_needed ≤ FreeSpaceForFile (str "/cache") w → r = 0 ∧ w' = w).
Proof.
  unfold MakeFreeSpaceOnCache.
  destruct (Z.leb_spec bytes_needed (FreeSpaceForFile (str "/cache") w)) as [|Hlt].
  { repeat split; auto; constructor. }
  destruct (FindExpendableFiles w) as [r names] eqn:Hfind.
  destruct (Z.ltb_spec r 0). { repeat split; auto; try lia; constructor. }
  assert (r = 0) as ->.
  { revert Hfind. unfold FindExpendableFiles, EliminateOpenFiles.
    destruct (sys_listdir _ w); intros; simplify_eq; lia. }
  destruct (bool_decide _). { repeat split; auto; try lia; constructor. }
  pose proof (delete_loop_spec bytes_needed w names w
    ltac:(intros p Hp; by eapply FindExpendableFiles_spec)) as Hloop.
  destruct (delete_loop _ _ _ _) as [free_now w']. destruct Hloop as [-> Hun].
  destruct (Z.leb_spec bytes_needed (FreeSpaceForFile (str "/cache") w')); repeat split; auto; lia.
Qed.

(** C37: [MakeFreeSpaceOnCache] unlinks nothing but the files it may: regular files of /cache
    and /cache/recovery/otatest, other than the saved copy of a source file, that no
    process of /proc has open; it unlinks each only while there is too little room.  It
    touches nothing if there is enough room to begin with, and answers 0 exactly if there is
    enough room in the end. *)
Theorem MakeFreeSpaceOnCache_correct bytes_needed w :
  let '(r, w') := MakeFreeSpaceOnCache bytes_needed w in
  unlinks bytes_needed w w w' ∧ (r = 0 ∨ r = -1) ∧
  (r = 0 → bytes_needed ≤ FreeSpaceForFile (str "/cache") w') ∧
  (bytes_needed ≤ FreeSpaceForFile (str "/cache") w → r = 0 ∧ w' = w).
Proof. apply MakeFreeSpaceOnCache_spec. Qed.

(** If [statfs] fails there is always enough room. *)
Lemma statfs_failure_is_enough bytes_needed w :
  sys_statfs (str "/cache") w = None → bytes_needed < 2 ^ 32 →
  CacheSizeCheck bytes_needed w = (0, w).
Proof.
  intros Hs Hn. unfold CacheSizeCheck, MakeFreeSpaceOnCache, FreeSpaceForFile. rewrite Hs.
  change (u32 (-1)) with (2 ^ 32 - 1). by rewrite (proj2 (Z.leb_le _ _)) by lia.
Qed.
End making_room.
