(* ===== verification/Mtdutils.v ===== *)
(** * Mtdutils

    mtdutils/mtdutils.c: the table of flash partitions, and reading and writing a
    partition block by block around its bad blocks. The driver is a parameter. *)
From S2P Require Import Prelude CString Syscalls.

(** ** The driver of the flash devices

    Files are opened by path, for reading or for both; [dev_seek fd None] is
    [lseek(fd, 0, SEEK_CUR)]. [dev_read] answers the count and the bytes. *)
Class MtdDriver (W : Type) := {
  (** /proc/mtd, at most 2047 bytes of it *)
  proc_mtd : W → option (list Z);
  dev_open : list Z → bool → W → Z * W;
  dev_seek : Z → option Z → W → Z * W;
  dev_read : Z → Z → W → Z * list Z * W;
  dev_write : Z → list Z → W → Z * W;
  dev_close : Z → W → Z * W;
  (** the number of blocks that could not be corrected *)
  ECCGETSTATS : Z → W → option Z;
  MEMGETBADBLOCK : Z → Z → W → Z;
  MEMERASE : Z → Z → Z → W → Z * W;
  (** size, erase size and write size *)
  MEMGETINFO : Z → W → option (Z * Z * Z)
}.

(** ** Data *)
Record MtdPartition := mk_partition {
  device_index : Z;
  p_size : Z;
  erase_size : Z;
  p_name : option (list Z)
}.

Record MtdReadContext := mk_read {
  r_partition : MtdPartition;
  r_buffer : list Z;
  consumed : Z;
  r_fd : Z
}.

Record MtdWriteContext := mk_write {
  w_partition : MtdPartition;
  w_buffer : list Z;
  stored : Z;
  w_fd : Z;
  bad_block_offsets : list Z;
  bad_block_alloc : Z
}.

Record MtdState := mk_mtd {
  partitions : option (list MtdPartition);
  partition_count : Z
}.
Definition g_mtd_state : MtdState := mk_mtd None (-1).
Definition zero_partition : MtdPartition := mk_partition 0 0 0 None.

(** ** The table of partitions *)

(** The conversions of [sscanf]: the value and what is left of the input. *)
Definition is_hex (c : Z) : bool :=
  is_digit c || ((97 <=? c) && (c <=? 102)) || ((65 <=? c) && (c <=? 70)).
Definition hex_value (c : Z) : Z :=
  if is_digit c then c - 48 else if 97 <=? c then c - 87 else c - 55.
Definition skip_space (s : list Z) : list Z := drop (count_while is_space s) s.
Definition scan_sign (s : list Z) : bool * list Z :=
  match s with
  | c :: r => if c =? 45 then (true, r) else if c =? 43 then (false, r) else (false, s)
  | [] => (false, s)
  end.
Definition scan_digits (digit : Z → bool) (value : Z → Z) (base : Z) (s : list Z) : option (Z * list Z) :=
  let '(neg, s) := scan_sign (skip_space s) in
  let n := count_while digit s in
  if (n =? 0)%nat then None
  else
    let v := foldl (λ a c, a * base + value c) 0 (take n s) in
    Some (if neg then - v else v, drop n s).
Definition scan_d := scan_digits is_digit (λ c, c - 48) 10.
(** [%x] accepts a leading 0x. *)
Definition scan_x (s : list Z) : option (Z * list Z) :=
  match skip_space s with
  | 48 :: c :: r => if ((c =? 120) || (c =? 88)) && is_hex (char_at r 0) then scan_digits is_hex hex_value 16 r
                    else scan_digits is_hex hex_value 16 s
  | _ => scan_digits is_hex hex_value 16 s
  end.
Definition scan_lit (lit : list Z) (s : list Z) : option (list Z) :=
  if is_prefix lit s then Some (drop (length lit) s) else None.
(** Up to 63 characters that are no quotation mark. *)
Definition scan_name (s : list Z) : option (list Z) :=
  let n := Nat.min 63 (count_while (λ c, negb (c =? 34)) s) in
  if (n =? 0)%nat then None else Some (take n s).

(** The call of [sscanf] has four matches; the four values. *)
Definition scan_line (s : list Z) : option (Z * Z * Z * list Z) :=
  s ← scan_lit (str "mtd") s;
  '(mtdnum, s) ← scan_d s;
  s ← scan_lit (str ":") s;
  '(mtdsize, s) ← scan_x s;
  '(mtderasesize, s) ← scan_x s;
  s ← scan_lit [34] (skip_space s);
  mtdname ← scan_name s;
  Some (mtdnum, mtdsize, mtderasesize, mtdname).

Section code.
Context {W : Type} `{MtdDriver W} `{PatchOS W}.
Context (alloc_ok : Z → bool) (fuel : nat).
Implicit Types (w : W) (g : MtdState) (partition : MtdPartition).

(** Eat the line. *)
Definition eat_line (buf : list Z) : list Z :=
  drop (S (count_while (λ c, negb (c =? 10)) buf)) buf.

(** The loop over the lines; [None] is [goto bail]. *)
Fixpoint scan_lines (n : nat) (buf : list Z) (ps : list MtdPartition) (count : Z)
    : outcome (option Z * list MtdPartition) :=
  match n, buf with
  | O, _ | _, [] => mret (Some count, ps)
  | S n, _ =>
      match scan_line (c_string (buf ++ [0])) with
      | Some (mtdnum, mtdsize, mtderasesize, mtdname) =>
          let named := alloc_ok (zlen mtdname + 1) in
          ps ← wr ps mtdnum (mk_partition mtdnum (u32 mtdsize) (u32 mtderasesize)
            (if named then Some mtdname else None));
          if named then scan_lines n (eat_line buf) ps (count + 1) else mret (None, ps)
      | None => scan_lines n (eat_line buf) ps count
      end
  end.

Definition mtd_scan_partitions g w : outcome (Z * MtdState) :=
  if bool_decide (partitions g = None) && negb (alloc_ok (32 * 16)) then mret (-1, g)
  else
    let ps := default (replicate 32 zero_partition) (partitions g) in
    let ps := (λ p, mk_partition (-1) (p_size p) (erase_size p) None) <$> ps in
    match proc_mtd w with
    | None => mret (-1, mk_mtd (Some ps) (-1))
    | Some buf =>
        '(count, ps) ← scan_lines (length buf) buf ps 0;
        mret match count with
             | Some count => (count, mk_mtd (Some ps) count)
             | None => (-1, mk_mtd (Some ps) (-1))
             end
    end.

Fixpoint find_by_name (name : list Z) (ps : list MtdPartition) : option MtdPartition :=
  match ps with
  | [] => None
  | p :: ps =>
      match p_name p with
      | Some n => if (0 <=? device_index p) && (strcmp n name =? 0) then Some p else find_by_name name ps
      | None => find_by_name name ps
      end
  end.
Definition mtd_find_partition_by_name g (name : list Z) : option MtdPartition :=
  match partitions g with Some ps => find_by_name name ps | None => None end.

Definition MS_RDONLY : Z := 1.
Definition MS_FLAGS : Z := Z.lor (Z.lor 1024 4) 2048.
Definition X_BITS : Z := Z.lor (Z.lor 64 8) 1.
Definition mtd_mount_partition partition (mount_point filesystem : list Z) (read_only : bool) w : Z * W :=
  let devname := str "/dev/block/mtdblock" ++ decimal (device_index partition) in
  let '(rv, w) := if read_only then (-1, w) else sys_mount devname mount_point filesystem MS_FLAGS w in
  let '(rv, w) :=
    if read_only || (rv <? 0)
    then sys_mount devname mount_point filesystem (Z.lor MS_FLAGS MS_RDONLY) w else (rv, w) in
  if 0 <=? rv then
    match sys_stat mount_point w with
    | None => (-1, w)
    | Some st =>
        let new_mode := Z.lor (st_mode st) X_BITS in
        if negb (new_mode =? st_mode st) then sys_chmod mount_point new_mode w else (0, w)
    end
  else (rv, w).

Definition mtd_dev partition : list Z := str "/dev/mtd/mtd" ++ decimal (device_index partition).

Definition mtd_partition_info partition w : option (Z * Z * Z) * W :=
  let '(fd, w) := dev_open (mtd_dev partition) false w in
  if fd <? 0 then (None, w)
  else
    let info := MEMGETINFO fd w in
    let '(_, w) := dev_close fd w in
    (info, w).

(** ** Reading *)

(** A failed [open] frees [ctx] before it reads [ctx->buffer]. *)
Definition mtd_read_partition partition w : outcome (option MtdReadContext * W) :=
  if negb (alloc_ok 16) then mret (None, w)
  else if negb (alloc_ok (erase_size partition)) then mret (None, w)
  else
    let '(fd, w) := dev_open (mtd_dev partition) false w in
    if fd <? 0 then Fault UseAfterFree
    else mret (Some (mk_read partition (replicate (Z.to_nat (erase_size partition)) 0)
                       (erase_size partition) fd), w).

(** The loop of [read_block]; the block goes to [at_] of [data]. *)
Fixpoint read_block_loop (n : nat) partition (fd : Z) (data : list Z) (at_ before pos : Z) w
    : outcome (Z * list Z * W) :=
  match n with
  | O => Diverge
  | S n =>
      let size := s32 (erase_size partition) in
      if pos + size <=? s32 (p_size partition) then
        let '(r, w) := dev_seek fd (Some pos) w in
        '(ok, data, w) ←
          (if negb (r =? pos) then mret (false, data, w)
           else
             let '(got, bytes, w) := dev_read fd size w in
             data ← wr_n data at_ bytes;
             mret (got =? size, data, w));
        if negb ok then read_block_loop n partition fd data at_ before (pos + erase_size partition) w
        else
          match ECCGETSTATS fd w with
          | None => mret (-1, data, w)
          | Some after =>
              if negb (after =? before) then
                read_block_loop n partition fd data at_ before (pos + erase_size partition) w
              else if negb (MEMGETBADBLOCK fd pos w =? 0) then
                read_block_loop n partition fd data at_ before (pos + erase_size partition) w
              else
                block ← rd_n data at_ (Z.max 0 size);
                if existsb (λ b, negb (b =? 0)) block then mret (0, data, w)
                else read_block_loop n partition fd data at_ before (pos + erase_size partition) w
          end
      else mret (-1, data, w)
  end.

Definition read_block partition (fd : Z) (data : list Z) (at_ : Z) w : outcome (Z * list Z * W) :=
  match ECCGETSTATS fd w with
  | None => mret (-1, data, w)
  | Some before =>
      let '(pos, w) := dev_seek fd None w in
      read_block_loop fuel partition fd data at_ before pos w
  end.

(** Complete blocks go directly into the user's buffer. The result tells whether a block
    could not be read. *)
Fixpoint read_direct (n : nat) (ctx : MtdReadContext) (data : list Z) (read len : Z) w
    : outcome (bool * list Z * Z * W) :=
  match n with
  | O => Diverge
  | S n =>
      let es := erase_size (r_partition ctx) in
      if (consumed ctx =? es) && (es <=? u32 (len - read)) then
        '(r, data, w) ← read_block (r_partition ctx) (r_fd ctx) data read w;
        if negb (r =? 0) then mret (true, data, read, w)
        else read_direct n ctx data (read + es) len w
      else mret (false, data, read, w)
  end.

(** What is left in the buffer is copied first. *)
Definition read_buffered (ctx : MtdReadContext) (data : list Z) (read len : Z)
    : outcome (MtdReadContext * list Z * Z) :=
  let es := erase_size (r_partition ctx) in
  if consumed ctx <? es then
    let avail := es - consumed ctx in
    let copy := if u32 (len - read) <? avail then u32 (len - read) else avail in
    bytes ← rd_n (r_buffer ctx) (consumed ctx) copy;
    data ← wr_n data read bytes;
    mret (mk_read (r_partition ctx) (r_buffer ctx) (consumed ctx + copy) (r_fd ctx), data, read + copy)
  else mret (ctx, data, read).

Fixpoint mtd_read_loop (n : nat) (ctx : MtdReadContext) (data : list Z) (read len : Z) w
    : outcome (Z * MtdReadContext * list Z * W) :=
  match n with
  | O => Diverge
  | S n =>
      if read <? s32 len then
        '(ctx, data, read) ← read_buffered ctx data read len;
        '(failed, data, read, w) ← read_direct fuel ctx data read len w;
        if failed : bool then mret (-1, ctx, data, w)
        else if len <=? u32 read then mret (read, ctx, data, w)
        else if (consumed ctx =? erase_size (r_partition ctx)) && (read <? s32 len) then
          '(r, buffer, w) ← read_block (r_partition ctx) (r_fd ctx) (r_buffer ctx) 0 w;
          if negb (r =? 0) then mret (-1, mk_read (r_partition ctx) buffer (consumed ctx) (r_fd ctx), data, w)
          else mtd_read_loop n (mk_read (r_partition ctx) buffer 0 (r_fd ctx)) data read len w
        else mtd_read_loop n ctx data read len w
      else mret (read, ctx, data, w)
  end.

(** Result, context, the user's buffer. *)
Definition mtd_read_data (ctx : MtdReadContext) (data : list Z) (len : Z) w :=
  mtd_read_loop fuel ctx data 0 len w.

Definition mtd_read_close (ctx : MtdReadContext) w : W := (dev_close (r_fd ctx) w).2.

(** ** Writing *)
Definition mtd_write_partition partition w : option MtdWriteContext * W :=
  if negb (alloc_ok 28) then (None, w)
  else if negb (alloc_ok (erase_size partition)) then (None, w)
  else
    let '(fd, w) := dev_open (mtd_dev partition) true w in
    if fd <? 0 then (None, w)
    else (Some (mk_write partition (replicate (Z.to_nat (erase_size partition)) 0) 0 fd [] 0), w).

Definition add_bad_block_offset (ctx : MtdWriteContext) (pos : Z) : MtdWriteContext :=
  mk_write (w_partition ctx) (w_buffer ctx) (stored ctx) (w_fd ctx)
    (bad_block_offsets ctx ++ [pos])
    (if bad_block_alloc ctx <? zlen (bad_block_offsets ctx) + 1
     then bad_block_alloc ctx * 2 + 1 else bad_block_alloc ctx).

(** Erase, write and verify, [n] times at most. *)
Fixpoint write_retry (n : nat) (fd pos : Z) (data : list Z) (size : Z) w : bool * W :=
  match n with
  | O => (false, w)
  | S n =>
      let '(r, w) := MEMERASE fd pos size w in
      if r <? 0 then write_retry n fd pos data size w
      else
        let '(r, w) := dev_seek fd (Some pos) w in
        let w := if r =? pos then (dev_write fd data w).2 else w in
        let '(r, w) := dev_seek fd (Some pos) w in
        if negb (r =? pos) then write_retry n fd pos data size w
        else
          let '(got, verify, w) := dev_read fd size w in
          if negb (got =? size) then write_retry n fd pos data size w
          else if negb (memcmp data verify size =? 0) then write_retry n fd pos data size w
          else (true, w)
  end.

Fixpoint write_block_loop (n : nat) (ctx : MtdWriteContext) (data : list Z) (pos : Z) w
    : outcome (Z * MtdWriteContext * W) :=
  match n with
  | O => Diverge
  | S n =>
      let partition := w_partition ctx in
      let size := s32 (erase_size partition) in
      end_ ← int_ok (pos + size);
      if end_ <=? s32 (p_size partition) then
        if 0 <? MEMGETBADBLOCK (w_fd ctx) pos w then
          write_block_loop n (add_bad_block_offset ctx pos) data (pos + erase_size partition) w
        else
          let '(ok, w) := write_retry 2 (w_fd ctx) pos data size w in
          if ok : bool then mret (0, ctx, w)
          else
            let '(_, w) := MEMERASE (w_fd ctx) pos size w in
            write_block_loop n (add_bad_block_offset ctx pos) data (pos + erase_size partition) w
      else mret (-1, ctx, w)
  end.

Definition write_block (ctx : MtdWriteContext) (data : list Z) w : outcome (Z * MtdWriteContext * W) :=
  let '(pos, w) := dev_seek (w_fd ctx) None w in
  if pos =? -1 then mret (1, ctx, w) else write_block_loop fuel ctx data pos w.

Definition set_buffer (ctx : MtdWriteContext) (buffer : list Z) (stored : Z) : MtdWriteContext :=
  mk_write (w_partition ctx) buffer stored (w_fd ctx) (bad_block_offsets ctx) (bad_block_alloc ctx).

(** Partial writes are collected in the buffer. *)
Definition coalesce (ctx : MtdWriteContext) (data : list Z) (wrote len : Z)
    : outcome (MtdWriteContext * Z) :=
  let es := erase_size (w_partition ctx) in
  if (0 <? stored ctx) || (len - wrote <? es) then
    let avail := es - stored ctx in
    let copy := if len - wrote <? avail then len - wrote else avail in
    bytes ← rd_n data wrote copy;
    buffer ← wr_n (w_buffer ctx) (stored ctx) bytes;
    mret (set_buffer ctx buffer (stored ctx + copy), wrote + copy)
  else mret (ctx, wrote).

(** The buffer is written when it is full. The result tells whether that failed. *)
Definition flush_full (ctx : MtdWriteContext) w : outcome (bool * MtdWriteContext * W) :=
  if stored ctx =? erase_size (w_partition ctx) then
    '(r, ctx, w) ← write_block ctx (w_buffer ctx) w;
    if negb (r =? 0) then mret (true, ctx, w)
    else mret (false, set_buffer ctx (w_buffer ctx) 0, w)
  else mret (false, ctx, w).

(** Complete blocks are written directly from the user's buffer. *)
Fixpoint write_direct (n : nat) (ctx : MtdWriteContext) (data : list Z) (wrote len : Z) w
    : outcome (bool * MtdWriteContext * Z * W) :=
  match n with
  | O => Diverge
  | S n =>
      let es := erase_size (w_partition ctx) in
      if (stored ctx =? 0) && (es <=? len - wrote) then
        block ← rd_n data wrote es;
        '(r, ctx, w) ← write_block ctx block w;
        if negb (r =? 0) then mret (true, ctx, wrote, w)
        else write_direct n ctx data (wrote + es) len w
      else mret (false, ctx, wrote, w)
  end.

Fixpoint mtd_write_loop (n : nat) (ctx : MtdWriteContext) (data : list Z) (wrote len : Z) w
    : outcome (Z * MtdWriteContext * W) :=
  match n with
  | O => Diverge
  | S n =>
      if wrote <? len then
        '(ctx, wrote) ← coalesce ctx data wrote len;
        '(failed, ctx, w) ← flush_full ctx w;
        if failed : bool then mret (-1, ctx, w)
        else
          '(failed, ctx, wrote, w) ← write_direct fuel ctx data wrote len w;
          if failed : bool then mret (-1, ctx, w) else mtd_write_loop n ctx data wrote len w
      else mret (s32 wrote, ctx, w)
  end.

Definition mtd_write_data (ctx : MtdWriteContext) (data : list Z) (len : Z) w :=
  mtd_write_loop fuel ctx data 0 len w.

Fixpoint erase_loop (n : nat) (ctx : MtdWriteContext) (pos : Z) w : Z * W :=
  match n with
  | O => (pos, w)
  | S n =>
      let es := erase_size (w_partition ctx) in
      if 0 <? MEMGETBADBLOCK (w_fd ctx) pos w then erase_loop n ctx (pos + es) w
      else
        let '(_, w) := MEMERASE (w_fd ctx) pos es w in
        erase_loop n ctx (pos + es) w
  end.

(** Pending data is padded with zeros and written. *)
Definition flush_padded (ctx : MtdWriteContext) w : outcome (bool * MtdWriteContext * W) :=
  if 0 <? stored ctx then
    let zero := erase_size (w_partition ctx) - stored ctx in
    buffer ← wr_n (w_buffer ctx) (stored ctx) (replicate (Z.to_nat zero) 0);
    let ctx := set_buffer ctx buffer (stored ctx) in
    '(r, ctx, w) ← write_block ctx buffer w;
    if negb (r =? 0) then mret (true, ctx, w)
    else mret (false, set_buffer ctx (w_buffer ctx) 0, w)
  else mret (false, ctx, w).

(** A division by the erase size 0 kills the process. *)
Definition mtd_erase_blocks (ctx : MtdWriteContext) (blocks : Z) w : outcome (Z * MtdWriteContext * W) :=
  '(failed, ctx, w) ← flush_padded ctx w;
  if failed : bool then mret (-1, ctx, w)
  else
    let '(pos, w) := dev_seek (w_fd ctx) None w in
    if pos =? -1 then mret (pos, ctx, w)
    else if erase_size (w_partition ctx) =? 0 then Fault Aborted
    else
      let total := s32 (u32 (p_size (w_partition ctx) - pos) / erase_size (w_partition ctx)) in
      let blocks := if blocks <? 0 then total else blocks in
      if total <? blocks then mret (-1, ctx, w)
      else
        let '(pos, w) := erase_loop (Z.to_nat blocks) ctx pos w in
        mret (pos, ctx, w).

Definition mtd_write_close (ctx : MtdWriteContext) w : outcome (Z * W) :=
  '(e, ctx, w) ← mtd_erase_blocks ctx 0 w;
  let r := if e =? -1 then -1 else 0 in
  let '(c, w) := dev_close (w_fd ctx) w in
  mret (if negb (c =? 0) then -1 else r, w).

Fixpoint find_start (offsets : list Z) (es pos : Z) : Z :=
  match offsets with
  | [] => pos
  | o :: offsets =>
      if o =? pos then find_start offsets es (pos + es)
      else if pos <? o then pos else find_start offsets es pos
  end.
Definition mtd_find_write_start (ctx : MtdWriteContext) (pos : Z) : Z :=
  find_start (bad_block_offsets ctx) (erase_size (w_partition ctx)) pos.
End code.
