(* ===== verification/Mtdflash.v ===== *)
(** * Mtdflash

    Reading and writing flash partitions: what a driver promises, the abstract writer and
    reader that mtdutils.c implements on it, the round trip, and what goes wrong. *)
From S2P Require Import Prelude CString Syscalls Mtdutils.

(** ** What a driver promises

    The open device is at an offset. It holds blocks of the erase size; an operation
    on a block leaves the other blocks alone, and a read of a whole block that succeeds
    returns what the block holds. Erasing and writing may fail or store something else. *)
Class MtdLaws {W : Type} `{MtdDriver W} (p : MtdPartition) := {
  offset : W → Z → option Z;
  block : W → Z → list Z;
  factory_bad : Z → bool;
  block_length w k : zlen (block w k) = erase_size p;
  open_ok rw w : let '(fd, w') := dev_open (mtd_dev p) rw w in
    0 ≤ fd → offset w' fd = Some 0 ∧ ∀ k, block w' k = block w k;
  seek_cur_ok fd o w : offset w fd = Some o →
    let '(r, w') := dev_seek fd None w in
    (r = o ∨ r = -1) ∧ offset w' fd = Some o ∧ ∀ k, block w' k = block w k;
  seek_set_ok fd o q w : offset w fd = Some o →
    let '(r, w') := dev_seek fd (Some q) w in
    (r = q → offset w' fd = Some q) ∧ (∃ o', offset w' fd = Some o') ∧ ∀ k, block w' k = block w k;
  read_ok fd k w : offset w fd = Some (k * erase_size p) → 0 ≤ k →
    (k + 1) * erase_size p ≤ p_size p →
    let '(got, bytes, w') := dev_read fd (erase_size p) w in
    zlen bytes ≤ erase_size p ∧ (∃ o', offset w' fd = Some o') ∧ (∀ j, block w' j = block w j) ∧
    (got = erase_size p → bytes = block w k ∧ offset w' fd = Some ((k + 1) * erase_size p));
  write_ok fd k data w : offset w fd = Some (k * erase_size p) → 0 ≤ k →
    (k + 1) * erase_size p ≤ p_size p → zlen data = erase_size p →
    let '(_, w') := dev_write fd data w in
    (∃ o', offset w' fd = Some o') ∧ ∀ j, j ≠ k → block w' j = block w j;
  erase_ok fd o k w : offset w fd = Some o → 0 ≤ k → (k + 1) * erase_size p ≤ p_size p →
    let '(_, w') := MEMERASE fd (k * erase_size p) (erase_size p) w in
    offset w' fd = Some o ∧ ∀ j, j ≠ k → block w' j = block w j;
  bad_ok fd k w : MEMGETBADBLOCK fd (k * erase_size p) w = if factory_bad k then 1 else 0;
  close_ok fd w : ∀ k, block (dev_close fd w).2 k = block w k
}.

(** A device on which reading good blocks does not fail. *)
Class MtdReadable {W : Type} `{MtdDriver W} (p : MtdPartition) `{!MtdLaws p} := {
  read_opens w : 0 ≤ (dev_open (mtd_dev p) false w).1;
  seek_succeeds fd o q w : offset w fd = Some o → (dev_seek fd (Some q) w).1 = q;
  tell_succeeds fd o w : offset w fd = Some o → (dev_seek fd None w).1 = o;
  read_succeeds fd k w : offset w fd = Some (k * erase_size p) → 0 ≤ k →
    (k + 1) * erase_size p ≤ p_size p → factory_bad k = false →
    (dev_read fd (erase_size p) w).1.1 = erase_size p;
  no_ecc_failures : ∃ c, ∀ fd w, ECCGETSTATS fd w = Some c
}.

(** A device on which writing good blocks does not fail either. *)
Class MtdWritable {W : Type} `{MtdDriver W} (p : MtdPartition) `{!MtdLaws p} `{!MtdReadable p} := {
  erase_succeeds fd o k w : offset w fd = Some o → 0 ≤ k → (k + 1) * erase_size p ≤ p_size p →
    factory_bad k = false → 0 ≤ (MEMERASE fd (k * erase_size p) (erase_size p) w).1;
  write_succeeds fd k data w : offset w fd = Some (k * erase_size p) → 0 ≤ k →
    (k + 1) * erase_size p ≤ p_size p → factory_bad k = false → zlen data = erase_size p →
    block (dev_write fd data w).2 k = data
}.

(** ** Writing *)
Section writing.
Context {W : Type} `{MtdDriver W} (p : MtdPartition) `{!MtdLaws p}.
Context (alloc_ok : Z → bool) (fuel : nat).
Implicit Types (w : W) (ctx : MtdWriteContext).
Abbreviation es := (erase_size p).
Abbreviation same w w' := (∀ k, block w' k = block w k).

(** The blocks that the writer may skip: the bad ones and those that cannot be written. *)
Context (skip_ok : Z → Prop) (Hskip_bad : ∀ k, factory_bad k = true → skip_ok k).
Context (Hskip_fail : ∀ fd k data w o, offset w fd = Some o → 0 ≤ k → (k + 1) * erase_size p ≤ p_size p →
  zlen data = erase_size p → factory_bad k = false →
  (write_retry 2 fd (k * erase_size p) data (erase_size p) w).1 = false → skip_ok k).
Context (Hes : 0 < erase_size p) (Hsize : 0 ≤ p_size p) (Hsmall : p_size p + erase_size p < 2 ^ 31).

Lemma write_retry_spec n fd k data w o :
  offset w fd = Some o → 0 ≤ k → (k + 1) * es ≤ p_size p → zlen data = es →
  let '(ok, w') := write_retry n fd (k * es) data es w in
  (∀ j, j ≠ k → block w' j = block w j) ∧ (∃ o', offset w' fd = Some o') ∧
  (ok = true → block w' k = data ∧ offset w' fd = Some ((k + 1) * es)).
Proof.
  intros Ho Hk Hin Hdata. revert w o Ho. induction n as [|n IH]; intros w o Ho; cbn [write_retry].
  { split; [done|]. split; [eauto|done]. }
  assert (Hagain : ∀ w1 o1, offset w1 fd = Some o1 → (∀ j, j ≠ k → block w1 j = block w j) →
    let '(ok, w') := write_retry n fd (k * es) data es w1 in
    (∀ j, j ≠ k → block w' j = block w j) ∧ (∃ o', offset w' fd = Some o') ∧
    (ok = true → block w' k = data ∧ offset w' fd = Some ((k + 1) * es))).
  { intros w1 o1 Ho1 Hb. specialize (IH w1 o1 Ho1). destruct (write_retry _ _ _ _ _ _).
    destruct IH as (Hb' & ? & ?). split; [|done]. intros j Hj. by rewrite Hb', Hb. }
  pose proof (erase_ok fd o k w Ho Hk Hin) as He.
  destruct (MEMERASE fd (k * es) es w) as [r w1]. destruct He as [Ho1 Hb1].
  destruct (Z.ltb_spec r 0); [by eapply Hagain|].
  pose proof (seek_set_ok fd o (k * es) w1 Ho1) as Hs.
  destruct (dev_seek fd (Some (k * es)) w1) as [r2 w2]. destruct Hs as (Hat & [o2 Ho2] & Hb2).
  cbv zeta. set (w3 := if r2 =? k * es then (dev_write fd data w2).2 else w2).
  assert (H3 : (∃ o3, offset w3 fd = Some o3) ∧ ∀ j, j ≠ k → block w3 j = block w j).
  { subst w3. destruct (Z.eqb_spec r2 (k * es)) as [Hr|]; cycle 1.
    { split; [eauto|]. intros j Hj. by rewrite Hb2, Hb1. }
    pose proof (write_ok fd k data w2 (Hat Hr) Hk Hin Hdata) as Hw.
    destruct (dev_write fd data w2) as [r3 w3]. destruct Hw as [? Hb3]. split; [done|].
    intros j Hj. simpl. by rewrite Hb3, Hb2, Hb1. }
  destruct H3 as [[o3 Ho3] Hb3]. clearbody w3.
  pose proof (seek_set_ok fd o3 (k * es) w3 Ho3) as Hs.
  destruct (dev_seek fd (Some (k * es)) w3) as [r4 w4]. destruct Hs as (Hat4 & [o4 Ho4] & Hb4).
  assert (Hb4' : ∀ j, j ≠ k → block w4 j = block w j) by (intros; rewrite Hb4; auto).
  destruct (Z.eqb_spec r4 (k * es)) as [Hr4|]; simpl; [|by eapply Hagain].
  pose proof (read_ok fd k w4 (Hat4 Hr4) Hk Hin) as Hread.
  destruct (dev_read fd es w4) as [[got verify] w5]. destruct Hread as (_ & [o5 Ho5] & Hb5 & Hgot).
  assert (Hb5' : ∀ j, j ≠ k → block w5 j = block w j) by (intros; rewrite Hb5; auto).
  destruct (Z.eqb_spec got es) as [Hr5|]; simpl; [|by eapply Hagain].
  destruct (Hgot Hr5) as [-> Ho5'].
  destruct (Z.eqb_spec (memcmp data (block w4 k) es) 0) as [Hc|]; simpl; [|by eapply Hagain].
  split; [done|]. split; [eauto|]. intros _. split; [|done]. rewrite Hb5.
  rewrite <- Hdata in Hc. apply memcmp_0 in Hc; [done|]. pose proof (block_length w4 k). lia.
Qed.

Lemma write_block_loop_spec n ctx data k w o :
  (Z.to_nat (p_size p - k * es) < n)%nat →
  w_partition ctx = p → offset w (w_fd ctx) = Some o → 0 ≤ k → k * es ≤ p_size p → zlen data = es →
  wp (write_block_loop n ctx data (k * es) w) (λ '(r, ctx', w'),
    (r ≠ 0 → ∀ m, k ≤ m → (m + 1) * es ≤ p_size p → skip_ok m) ∧ (r = 0 → ∃ m, k ≤ m ∧
    (m + 1) * es ≤ p_size p ∧ offset w' (w_fd ctx) = Some ((m + 1) * es) ∧ block w' m = data ∧
    factory_bad m = false ∧ (∀ j, j < k ∨ m < j → block w' j = block w j) ∧
    bad_block_offsets ctx' = bad_block_offsets ctx ++ ((λ j, j * es) <$> seqZ k (m - k)) ∧
    (∀ j, k ≤ j < m → skip_ok j) ∧
    w_partition ctx' = p ∧ w_fd ctx' = w_fd ctx ∧ w_buffer ctx' = w_buffer ctx ∧
    stored ctx' = stored ctx)).
Proof.
  revert ctx k w o. induction n as [|n IH]; intros ctx k w o Hn Hp Ho Hk Hks Hdata; [lia|].
  cbn [write_block_loop]. rewrite Hp, (s32_small es), (s32_small (p_size p)) by lia.
  rewrite (int_ok_small (k * es + es)) by lia. cbn [mbind outcome_bind].
  destruct (Z.leb_spec (k * es + es) (p_size p)) as [Hin|Hout]; cycle 1.
  { split; [|done]. intros _ m Hm Hms. exfalso. assert ((k + 1) * es ≤ (m + 1) * es) by (apply Z.mul_le_mono_nonneg_r; lia). lia. }
  assert (Hskip : skip_ok k → ∀ w1 o1, offset w1 (w_fd ctx) = Some o1 → (∀ j, j ≠ k → block w1 j = block w j) →
    wp (write_block_loop n (add_bad_block_offset ctx (k * es)) data (k * es + es) w1)
      (λ '(r, ctx', w'), (r ≠ 0 → ∀ m, k ≤ m → (m + 1) * es ≤ p_size p → skip_ok m) ∧ (r = 0 → ∃ m, k ≤ m ∧
        (m + 1) * es ≤ p_size p ∧ offset w' (w_fd ctx) = Some ((m + 1) * es) ∧ block w' m = data ∧
        factory_bad m = false ∧ (∀ j, j < k ∨ m < j → block w' j = block w j) ∧
        bad_block_offsets ctx' = bad_block_offsets ctx ++ ((λ j, j * es) <$> seqZ k (m - k)) ∧
        (∀ j, k ≤ j < m → skip_ok j) ∧
        w_partition ctx' = p ∧ w_fd ctx' = w_fd ctx ∧ w_buffer ctx' = w_buffer ctx ∧
        stored ctx' = stored ctx))).
  { intros Hsk w1 o1 Ho1 Hb1. replace (k * es + es) with ((k + 1) * es) by lia.
    eapply wp_mono; [eapply (IH _ _ w1 o1); simpl; [lia|done|done|lia|lia|done]|].
    intros [[r ctx'] w'] [Hfull Hr]. split.
    { intros Hr0 m Hm Hms. destruct (Z.eq_dec m k) as [->|]; [done|]. apply Hfull; [done|lia|done]. }
    intros Hr0. destruct (Hr Hr0) as (m & Hm & Hsz & Hoff & Hblk & Hgood & Hprev & Hbad & Hok & Hrest).
    exists m. split; [lia|]. do 4 (split; [done|]).
    split; [intros j Hj; rewrite Hprev by lia; apply Hb1; lia|]. split; cycle 1.
    { split; [|done]. intros j Hj. destruct (Z.eq_dec j k) as [->|]; [done|]. apply Hok. lia. }
    rewrite Hbad. cbn [add_bad_block_offset bad_block_offsets]. rewrite <- app_assoc. f_equal.
    rewrite (seqZ_cons k (m - k)) by lia. cbn [fmap list_fmap app].
    by replace (Z.pred (m - k)) with (m - (k + 1)) by lia. }
  rewrite bad_ok. destruct (factory_bad k) eqn:Hgood; simpl (0 <? _); cbn iota; [by eapply Hskip; [by apply Hskip_bad|..]|].
  pose proof (write_retry_spec 2 (w_fd ctx) k data w o Ho Hk ltac:(lia) Hdata) as Hw.
  pose proof (Hskip_fail (w_fd ctx) k data w o Ho Hk ltac:(lia) Hdata Hgood) as Hfail.
  destruct (write_retry _ _ _ _ _ _) as [ok w1]. destruct Hw as (Hb1 & [o1 Ho1] & Hok).
  destruct ok.
  - cbn. split; [done|]. intros _. destruct (Hok eq_refl) as [Hblk Hoff]. exists k.
    split; [lia|]. split; [lia|]. do 3 (split; [done|]).
    split; [intros j Hj; apply Hb1; lia|]. rewrite Z.sub_diag. simpl. rewrite app_nil_r.
    split; [done|]. split; [lia|done].
  - pose proof (erase_ok (w_fd ctx) o1 k w1 Ho1 Hk ltac:(lia)) as He.
    destruct (MEMERASE _ _ _ _) as [r2 w2]. destruct He as [Ho2 Hb2].
    eapply Hskip; [by apply Hfail|done|]. intros j Hj. rewrite Hb2, Hb1 by lia. done.
Qed.

(** The blocks below [n] that the writer has not skipped, and what they hold. *)
Definition used (bad : list Z) (n : Z) : list Z := filter (λ k, k * es ∉ bad) (seqZ 0 n).
Definition content (bad : list Z) (n : Z) w : list Z := used bad n ≫= block w.

Lemma content_extend bad bad' n m w w' data :
  0 ≤ n ≤ m → (∀ o, o ∈ bad → o < n * es) →
  bad' = bad ++ ((λ j, j * es) <$> seqZ n (m - n)) →
  block w' m = data → (∀ j, j < n → block w' j = block w j) →
  content bad' (m + 1) w' = content bad n w ++ data.
Proof.
  intros Hnm Hbads Hbad Hdata Hprev. unfold content, used.
  replace (m + 1) with (n + (m - n) + 1) by lia. rewrite (seqZ_app 0 (n + (m - n)) 1), (seqZ_app 0 n (m - n)) by lia.
  rewrite !filter_app, !bind_app.
  assert (Hin : ∀ j, j * es ∈ bad' ↔
    j * es ∈ bad ∨ n ≤ j < m).
  { intros j. rewrite Hbad, elem_of_app, list_elem_of_fmap. apply or_iff_compat_l. split.
    - intros (i & Hi & Hel%elem_of_seqZ). assert (i = j) as -> by nia. lia.
    - intros Hj. exists j. split; [done|]. apply elem_of_seqZ. lia. }
  assert (Hmid : filter (λ k, k * es ∉ bad') (seqZ (0 + n) (m - n)) = []).
  { apply filter_none. intros j Hj%elem_of_seqZ Hnot. apply Hnot, Hin. lia. }
  rewrite Hmid. cbn [mbind list_bind app].
  rewrite app_nil_r. f_equal; cycle 1.
  { replace (0 + (n + (m - n))) with m by lia. rewrite (seqZ_cons m 1), seqZ_nil by lia.
    rewrite filter_cons_True, filter_nil; [cbn; by rewrite app_nil_r, Hdata|].
    assert (n * es ≤ m * es) by (apply Z.mul_le_mono_nonneg_r; lia).
    rewrite Hin. intros [?%Hbads|?]; lia. }
  assert (Hsame : filter (λ k, k * es ∉ bad') (seqZ 0 n) =
    filter (λ k, k * es ∉ bad) (seqZ 0 n)).
  { apply filter_iff_in. intros j Hj%elem_of_seqZ. rewrite Hin. split; [tauto|]. intros ? [?|?]; [tauto|lia]. }
  rewrite Hsame. apply Forall_bind_ext, Forall_forall.
  intros j [_ Hj%elem_of_seqZ]%list_elem_of_filter. apply Hprev. lia.
Qed.

(** The writer stands behind block [n - 1]; the blocks it has used are good and hold
    [done]. *)
Definition holds ctx (done : list Z) w : Prop :=
  ∃ n, 0 ≤ n ∧ n * es ≤ p_size p ∧ offset w (w_fd ctx) = Some (n * es) ∧
    w_partition ctx = p ∧ zlen (w_buffer ctx) = es ∧
    (∀ o, o ∈ bad_block_offsets ctx → o < n * es) ∧
    (∀ k, k * es ∈ bad_block_offsets ctx → skip_ok k) ∧
    (∀ k, k ∈ used (bad_block_offsets ctx) n → factory_bad k = false) ∧ content (bad_block_offsets ctx) n w = done.

(** The writer has taken the bytes [written]; some of them are in its buffer. *)
Definition taken ctx (written : list Z) w : Prop :=
  ∃ done, holds ctx done w ∧ 0 ≤ stored ctx ≤ es ∧
    done ++ take (Z.to_nat (stored ctx)) (w_buffer ctx) = written.
Definition writing ctx (written : list Z) w : Prop := taken ctx written w ∧ stored ctx < es.

(** The writer has gone on, and nothing behind it has changed. *)
Definition goes_on ctx w ctx' w' : Prop :=
  ∀ n, offset w (w_fd ctx) = Some (n * es) →
    ∃ n', n ≤ n' ∧ offset w' (w_fd ctx') = Some (n' * es) ∧ ∀ j, n' ≤ j → block w' j = block w j.
Lemma goes_on_refl ctx ctx' w : w_fd ctx' = w_fd ctx → goes_on ctx w ctx' w.
Proof. intros Hfd n Hn. exists n. by rewrite Hfd. Qed.
Lemma goes_on_trans ctx w ctx1 w1 ctx2 w2 : goes_on ctx w ctx1 w1 → goes_on ctx1 w1 ctx2 w2 → goes_on ctx w ctx2 w2.
Proof.
  intros Hw1 Hw2 n Hn. destruct (Hw1 n Hn) as (n1 & Hle1 & Hn1 & Hb1). destruct (Hw2 n1 Hn1) as (n2 & Hle2 & Hn2 & Hb2).
  exists n2. split; [lia|]. split; [done|]. intros j Hj. rewrite Hb2, Hb1 by lia. done.
Qed.

(** There is no room: the blocks in use hold [size] bytes and all that are left may be skipped;
    or the place in the device could not be told. *)
Definition spent (size : Z) : Prop :=
  (∃ fd w o, offset w fd = Some o ∧ (dev_seek fd None w).1 ≠ o) ∨
  ∃ bad n, 0 ≤ n ∧ zlen (used bad n) * es = size ∧ (∀ k, k * es ∈ bad → skip_ok k) ∧
    (∀ m, n ≤ m → (m + 1) * es ≤ p_size p → skip_ok m).
Definition too_much (data : list Z) : Prop := ∃ size, spent size ∧ size + es ≤ zlen data.
Lemma too_much_app data rest : too_much data → too_much (data ++ rest).
Proof. intros (size & Hs & Hle). exists size. rewrite length_app. split; [done|lia]. Qed.
Lemma blocks_length (l : list Z) w : zlen (l ≫= block w) = zlen l * es.
Proof.
  induction l as [|j l IH]; [done|]. cbn [mbind list_bind]. cbn [mbind list_bind] in IH.
  rewrite length_app. pose proof (block_length w j). simpl. nia.
Qed.

Context (Hfuel : (Z.to_nat (p_size p) < fuel)%nat).

Lemma write_block_spec ctx done data w :
  holds ctx done w → zlen data = es →
  wp (write_block fuel ctx data w) (λ '(r, ctx', w'), (r ≠ 0 → spent (zlen done)) ∧ (r = 0 →
    holds ctx' (done ++ data) w' ∧ w_buffer ctx' = w_buffer ctx ∧ stored ctx' = stored ctx ∧ goes_on ctx w ctx' w')).
Proof.
  intros (n & Hn & Hns & Ho & Hp & Hbuf & Hbads & Hoks & Hgood & <-) Hdata. unfold write_block.
  pose proof (seek_cur_ok (w_fd ctx) (n * es) w Ho) as Hs.
  destruct (dev_seek (w_fd ctx) None w) as [pos w1] eqn:Heqs. destruct Hs as (Hpos & Ho1 & Hb1).
  destruct (Z.eqb_spec pos (-1)) as [->|].
  { split; [|done]. intros _. left. exists (w_fd ctx), w, (n * es). split; [done|]. rewrite Heqs. simpl. nia. }
  destruct Hpos as [->|]; [|done].
  eapply wp_mono; [apply (write_block_loop_spec fuel ctx data n w1 (n * es)); auto; lia|].
  intros [[r ctx'] w'] [Hfull Hr]. split.
  { intros Hr0. right. exists (bad_block_offsets ctx), n. split; [done|]. unfold content. rewrite blocks_length.
    split; [done|]. split; [done|]. by apply Hfull. }
  intros Hr0.
  destruct (Hr Hr0) as (m & Hm & Hsz & Hoff & Hblk & Hfm & Hprev & Hbad & Hok & Hp' & Hfd & Hbuf' & Hst).
  split; cycle 1.
  { split; [done|]. split; [done|]. intros n1 Hn1. assert (n1 = n) as -> by (rewrite Ho in Hn1; injection Hn1; nia).
    exists (m + 1). split; [lia|]. rewrite Hfd. split; [done|]. intros j Hj. rewrite Hprev by lia. apply Hb1. }
  exists (m + 1). rewrite Hfd, Hbuf'.
  do 5 (split; [done || lia|]).
  assert (n * es ≤ m * es) by (apply Z.mul_le_mono_nonneg_r; lia).
  split.
  { intros o. rewrite Hbad, elem_of_app, list_elem_of_fmap. intros [?%Hbads|(j & -> & Hj%elem_of_seqZ)]; [lia|].
    apply Z.mul_lt_mono_pos_r; lia. }
  split.
  { intros k. rewrite Hbad, elem_of_app, list_elem_of_fmap. intros [?%Hoks|(j & Hj & Hel%elem_of_seqZ)]; [done|].
    assert (k = j) as -> by nia. apply Hok. lia. }
  split; cycle 1.
  { apply content_extend; [lia|done|done|done|]. intros j Hj. rewrite Hprev by lia. apply Hb1. }
  intros k [Hk Hel%elem_of_seqZ]%list_elem_of_filter.
  destruct (decide (k = m)) as [->|]; [done|]. destruct (decide (k < n)).
  - apply Hgood, list_elem_of_filter. split; [|apply elem_of_seqZ; lia].
    intros Hin. apply Hk. rewrite Hbad. apply elem_of_app. by left.
  - destruct Hk. rewrite Hbad. apply elem_of_app. right. apply list_elem_of_fmap.
    exists k. split; [done|]. apply elem_of_seqZ. lia.
Qed.

Lemma holds_set_buffer ctx done w buffer n :
  holds ctx done w → zlen buffer = es → holds (set_buffer ctx buffer n) done w.
Proof. intros (k & ? & ? & ? & ? & ? & ?) Hb. exists k. done. Qed.

Lemma holds_partition ctx done w : holds ctx done w → w_partition ctx = p.
Proof. by intros (k & ? & ? & ? & ? & ?). Qed.
Lemma holds_buffer ctx done w : holds ctx done w → zlen (w_buffer ctx) = es.
Proof. by intros (k & ? & ? & ? & ? & ? & ?). Qed.

Lemma coalesce_spec ctx pre data wrote w :
  writing ctx (pre ++ take (Z.to_nat wrote) data) w → 0 ≤ wrote < zlen data →
  wp (coalesce ctx data wrote (zlen data)) (λ '(ctx', wrote'),
    taken ctx' (pre ++ take (Z.to_nat wrote') data) w ∧ w_fd ctx' = w_fd ctx ∧ wrote ≤ wrote' ≤ zlen data ∧
    (wrote < wrote' ∧ (stored ctx' < es → wrote' = zlen data) ∨
     wrote' = wrote ∧ stored ctx' = 0 ∧ es ≤ zlen data - wrote)).
Proof.
  intros [(done & Hh & Hst & Heq) Hlt] Hw. unfold coalesce.
  rewrite (holds_partition _ _ _ Hh). pose proof (holds_buffer _ _ _ Hh) as Hbuf.
  destruct ((0 <? stored ctx) || (zlen data - wrote <? es)) eqn:Hc; cycle 1.
  { apply orb_false_iff in Hc as [?%Z.ltb_ge ?%Z.ltb_ge]. simpl.
    split; [by exists done|]. split; [done|]. split; [lia|]. right. lia. }
  clear Hc. set (copy := if _ <? _ then _ else _).
  assert (0 < copy ∧ copy ≤ zlen data - wrote ∧ copy ≤ es - stored ctx ∧
    (copy = zlen data - wrote ∨ copy = es - stored ctx)) as (Hc0 & Hc1 & Hc2 & Hc3).
  { subst copy. destruct (Z.ltb_spec (zlen data - wrote) (es - stored ctx)); lia. }
  clearbody copy. rewrite rd_n_in_bounds by lia. cbn [mbind outcome_bind].
  set (bytes := take (Z.to_nat copy) _).
  assert (Hbytes : zlen bytes = copy) by (subst bytes; rewrite length_take, length_drop; lia).
  rewrite wr_n_in_bounds by lia. simpl.
  split; cycle 1. { split; [done|]. split; [lia|]. left. split; [lia|]. destruct Hc3; lia. }
  exists done. split; [apply holds_set_buffer; [done|]; rewrite !length_app, length_take, length_drop; lia|].
  split; [simpl; lia|]. simpl.
  rewrite (Z2Nat.inj_add (stored ctx) copy), (Z2Nat.inj_add wrote copy), <- (take_take_drop data) by lia.
  rewrite (app_assoc pre), <- Heq, <- !app_assoc. f_equal. fold bytes. rewrite (app_assoc _ bytes).
  rewrite take_app_length'; [done|]. rewrite length_app, length_take. lia.
Qed.

Lemma flush_full_spec ctx x w :
  taken ctx x w →
  wp (flush_full fuel ctx w) (λ '(failed, ctx', w'), if failed : bool then too_much x else
    writing ctx' x w' ∧ goes_on ctx w ctx' w' ∧
    (stored ctx = es ∧ stored ctx' = 0 ∨ stored ctx < es ∧ stored ctx' = stored ctx)).
Proof.
  intros (done & Hh & Hst & Heq). unfold flush_full. rewrite (holds_partition _ _ _ Hh).
  pose proof (holds_buffer _ _ _ Hh) as Hbuf.
  destruct (Z.eqb_spec (stored ctx) es) as [Hfull|]; cycle 1.
  { simpl. split; [split; [by exists done|lia]|]. split; [by apply goes_on_refl|lia]. }
  apply wp_bind. eapply wp_mono; [by apply (write_block_spec ctx done)|].
  intros [[r ctx'] w'] [Hspent Hr]. destruct (Z.eqb_spec r 0) as [Hr0|]; simpl; cycle 1.
  { exists (zlen done). split; [by apply Hspent|]. rewrite <- Heq, length_app, length_take. lia. }
  destruct (Hr Hr0) as (Hh' & Hb & Hs & Hon). split; [|split; [exact Hon|lia]]. split; [|simpl; lia].
  exists (done ++ w_buffer ctx). split; [|split; [simpl; lia|]].
  - apply holds_set_buffer; [done|congruence].
  - simpl. rewrite app_nil_r, <- Heq. f_equal. rewrite take_ge; [done|lia].
Qed.

Lemma write_direct_spec n ctx pre data wrote w :
  (Z.to_nat (zlen data - wrote) < n)%nat →
  writing ctx (pre ++ take (Z.to_nat wrote) data) w → 0 ≤ wrote ≤ zlen data →
  wp (write_direct fuel n ctx data wrote (zlen data) w) (λ '(failed, ctx', wrote', w'),
    if failed : bool then too_much (pre ++ data) else writing ctx' (pre ++ take (Z.to_nat wrote') data) w' ∧ goes_on ctx w ctx' w' ∧
      wrote ≤ wrote' ≤ zlen data ∧ (stored ctx = 0 → es ≤ zlen data - wrote → wrote < wrote')).
Proof.
  revert ctx wrote w. induction n as [|n IH]; intros ctx wrote w Hn Hwr Hw; [lia|].
  cbn [write_direct]. destruct Hwr as [(done & Hh & Hst & Heq) Hlt].
  rewrite (holds_partition _ _ _ Hh).
  destruct ((stored ctx =? 0) && (es <=? zlen data - wrote)) eqn:Hc; cycle 1.
  { simpl. split; [split; [by exists done|done]|]. split; [by apply goes_on_refl|]. split; [lia|]. intros Hs He.
    rewrite Hs in Hc. simpl in Hc. apply Z.leb_gt in Hc. lia. }
  apply andb_true_iff in Hc as [Hs%Z.eqb_eq He%Z.leb_le].
  rewrite rd_n_in_bounds by lia. cbn [mbind outcome_bind]. apply wp_bind.
  set (b := take _ _). assert (Hb : zlen b = es) by (subst b; rewrite length_take, length_drop; lia).
  eapply wp_mono; [by apply (write_block_spec ctx done b w)|].
  rewrite Hs in Heq. simpl in Heq. rewrite app_nil_r in Heq.
  intros [[r ctx'] w'] [Hfull Hr]. destruct (Z.eqb_spec r 0) as [Hr0|]; simpl; cycle 1.
  { exists (zlen done). split; [by apply Hfull|]. rewrite Heq, !length_app, length_take. lia. }
  destruct (Hr Hr0) as (Hh' & Hbuf & Hst' & Hon).
  eapply wp_mono; [apply (IH ctx' (wrote + es) w')|]; [lia| |lia|].
  - split; [|lia]. exists (done ++ b). split; [done|]. split; [lia|]. rewrite Hst', Hs. simpl.
    rewrite app_nil_r, Heq, Z2Nat.inj_add, <- (take_take_drop data), app_assoc by lia. done.
  - intros [[[[] ctx2] wrote2] w2]; [done|]. intros (? & ? & ? & ?).
    split; [done|]. split; [by eapply goes_on_trans|]. lia.
Qed.

Lemma mtd_write_loop_spec n ctx pre data wrote w :
  (Z.to_nat (zlen data - wrote) < n)%nat → (length data < fuel)%nat → zlen data < 2 ^ 31 →
  writing ctx (pre ++ take (Z.to_nat wrote) data) w → 0 ≤ wrote ≤ zlen data →
  wp (mtd_write_loop fuel n ctx data wrote (zlen data) w) (λ '(r, ctx', w'),
    r = -1 ∧ too_much (pre ++ data) ∨ r = zlen data ∧ writing ctx' (pre ++ data) w' ∧ goes_on ctx w ctx' w').
Proof.
  intros Hn Hf Hlen. revert ctx wrote w Hn.
  induction n as [|n IH]; intros ctx wrote w Hn Hwr Hw; [lia|]. cbn [mtd_write_loop].
  destruct (Z.ltb_spec wrote (zlen data)); cycle 1.
  { assert (wrote = zlen data) as -> by lia. simpl. right. rewrite s32_small by lia.
    split; [done|]. split; [by rewrite take_ge in Hwr by lia|by apply goes_on_refl]. }
  apply wp_bind. eapply wp_mono; [apply coalesce_spec; [exact Hwr|lia]|].
  intros [ctx1 wrote1] (Ht1 & Hfd1 & Hw1 & Hcase). apply wp_bind.
  eapply wp_mono; [apply (flush_full_spec _ _ _ Ht1)|].
  intros [[[] ctx2] w2].
  { intros Hmuch. left. split; [done|]. rewrite <- (take_drop (Z.to_nat wrote1) data), app_assoc. by apply too_much_app. }
  intros (Hwr2 & Hon2 & Hst2).
  apply wp_bind. eapply wp_mono; [apply (write_direct_spec fuel ctx2 pre data wrote1 w2)|]; [lia|done|lia|].
  intros [[[[] ctx3] wrote3] w3]; [by left|]. intros (Hwr3 & Hon3 & Hw3 & Hprog).
  eapply wp_mono; [apply (IH ctx3 wrote3 w3); [|done|lia]|]; cycle 1.
  { intros [[r ctx'] w'] [?|(? & ? & ?)]; [by left|]. right. split; [done|]. split; [done|].
    eapply goes_on_trans; [|eassumption]. eapply goes_on_trans; [|eassumption].
    eapply goes_on_trans; [by apply goes_on_refl|eassumption]. }
  destruct Hcase as [[? _]|(-> & Hs & He)]; [lia|].
  assert (wrote < wrote3) by (apply Hprog; lia). lia.
Qed.

Lemma mtd_write_data_spec ctx written data w :
  (length data < fuel)%nat → zlen data < 2 ^ 31 → writing ctx written w →
  wp (mtd_write_data fuel ctx data (zlen data) w) (λ '(r, ctx', w'),
    r = -1 ∧ too_much (written ++ data) ∨ r = zlen data ∧ writing ctx' (written ++ data) w' ∧ goes_on ctx w ctx' w').
Proof.
  intros. apply mtd_write_loop_spec; try done; [lia| |lia]. simpl. by rewrite app_nil_r.
Qed.

(** What is on the device when the blocks at [bad] are skipped. *)
Definition on_flash (bad done : list Z) w : Prop :=
  ∃ n, 0 ≤ n ∧ n * es ≤ p_size p ∧ (∀ k, k ∈ used bad n → factory_bad k = false) ∧
    content bad n w = done.

Lemma flush_padded_spec ctx written w :
  writing ctx written w →
  wp (flush_padded fuel ctx w) (λ '(failed, ctx', w'),
    if failed : bool then ∃ size, spent size ∧ size < zlen written else stored ctx' = 0 ∧
    ∃ pad, Z.of_nat pad < es ∧ holds ctx' (written ++ replicate pad 0) w').
Proof.
  intros [(done & Hh & Hst & Heq) Hlt]. unfold flush_padded. rewrite (holds_partition _ _ _ Hh).
  pose proof (holds_buffer _ _ _ Hh) as Hbuf.
  destruct (Z.ltb_spec 0 (stored ctx)); cycle 1.
  { simpl. split; [lia|]. exists O. simpl. split; [lia|]. rewrite app_nil_r, <- Heq.
    replace (Z.to_nat (stored ctx)) with O by lia. simpl. by rewrite app_nil_r. }
  rewrite wr_n_in_bounds by (rewrite ?length_replicate; lia). cbn [mbind outcome_bind].
  set (buffer := _ ++ _). apply wp_bind.
  assert (Hb : buffer = take (Z.to_nat (stored ctx)) (w_buffer ctx) ++
    replicate (Z.to_nat (es - stored ctx)) 0).
  { subst buffer. rewrite length_replicate, drop_ge, app_nil_r; [done|lia]. }
  assert (Hlen : zlen buffer = es).
  { rewrite Hb, length_app, length_take, length_replicate. lia. }
  eapply wp_mono; [apply (write_block_spec _ done buffer w); [by apply holds_set_buffer|done]|].
  intros [[r ctx'] w'] [Hfull Hr]. destruct (Z.eqb_spec r 0) as [Hr0|]; simpl; cycle 1.
  { exists (zlen done). split; [by apply Hfull|]. rewrite <- Heq, length_app, length_take. lia. }
  destruct (Hr Hr0) as (Hh' & Hbuf' & _ & _). split; [done|].
  exists (Z.to_nat (es - stored ctx)). split; [lia|].
  apply holds_set_buffer; [|by rewrite Hbuf'].
  by rewrite <- Heq, <- app_assoc, <- Hb.
Qed.

Lemma erase_loop_spec n ctx k w o :
  w_partition ctx = p → offset w (w_fd ctx) = Some o → 0 ≤ k → (k + Z.of_nat n) * es ≤ p_size p →
  let '(_, w') := erase_loop n ctx (k * es) w in
  offset w' (w_fd ctx) = Some o ∧ ∀ j, j < k → block w' j = block w j.
Proof.
  intros Hp. revert k w. induction n as [|n IH]; intros k w Ho Hk Hks; cbn [erase_loop]; [done|].
  rewrite Hp, bad_ok. replace (k * es + es) with ((k + 1) * es) by lia.
  destruct (factory_bad k); cbn [Z.ltb Z.compare].
  - specialize (IH (k + 1) w Ho ltac:(lia) ltac:(nia)). destruct (erase_loop _ _ _ _).
    destruct IH as [? Hb]. split; [done|]. intros j Hj. apply Hb. lia.
  - assert ((k + 1) * es ≤ p_size p).
    { transitivity ((k + Z.of_nat (S n)) * es); [apply Z.mul_le_mono_nonneg_r; lia|done]. }
    pose proof (erase_ok (w_fd ctx) o k w Ho Hk ltac:(done)) as He.
    destruct (MEMERASE _ _ _ _) as [r w1]. destruct He as [Ho1 Hb1].
    specialize (IH (k + 1) w1 Ho1 ltac:(lia) ltac:(nia)). destruct (erase_loop _ _ _ _).
    destruct IH as [? Hb]. split; [done|]. intros j Hj. rewrite Hb, Hb1 by lia. done.
Qed.

Lemma holds_same ctx done w w' :
  holds ctx done w → (∀ o, offset w (w_fd ctx) = Some o → offset w' (w_fd ctx) = Some o) →
  (∀ k, offset w (w_fd ctx) = Some (k * es) → ∀ j, j < k → block w' j = block w j) →
  holds ctx done w'.
Proof.
  intros (n & Hn & Hns & Ho & Hp & Hbuf & Hbads & Hoks & Hgood & <-) Hoff Hb.
  exists n. do 2 (split; [done|]). split; [by apply Hoff|]. do 5 (split; [done|]).
  apply Forall_bind_ext, Forall_forall. intros j [_ Hj%elem_of_seqZ]%list_elem_of_filter.
  apply (Hb n); [done|lia].
Qed.

Lemma mtd_erase_blocks_spec ctx written blocks w :
  writing ctx written w →
  wp (mtd_erase_blocks fuel ctx blocks w) (λ '(r, ctx', w'), r = -1 ∨ stored ctx' = 0 ∧
    ∃ pad, Z.of_nat pad < es ∧ holds ctx' (written ++ replicate pad 0) w').
Proof.
  intros Hwr. unfold mtd_erase_blocks. apply wp_bind.
  eapply wp_mono; [by apply flush_padded_spec|]. intros [[[] ctx1] w1]; [by left|]. intros (Hst & pad & Hpad & Hh).
  pose proof Hh as (n & Hn & Hns & Ho & Hp & Hbuf & Hbads & Hoks & Hgood & Hdone).
  pose proof (seek_cur_ok (w_fd ctx1) (n * es) w1 Ho) as Hs.
  destruct (dev_seek (w_fd ctx1) None w1) as [pos w2]. destruct Hs as (Hpos & Ho2 & Hb2).
  destruct (Z.eqb_spec pos (-1)); [by left|]. destruct Hpos as [->|]; [|done].
  rewrite Hp. destruct (Z.eqb_spec es 0); [lia|]. cbv zeta.
  set (total := s32 _). set (bs := if blocks <? 0 then total else blocks).
  destruct (Z.ltb_spec total bs) as [|Htot]; [by left|].
  assert (Htotal : total = (p_size p - n * es) / es).
  { assert (0 ≤ (p_size p - n * es) / es ≤ p_size p - n * es).
    { split; [apply Z.div_pos; lia|apply Z.div_le_upper_bound; nia]. }
    subst total. rewrite u32_small, s32_small by lia. done. }
  assert ((n + Z.of_nat (Z.to_nat bs)) * es ≤ p_size p).
  { pose proof (Z.mul_div_le (p_size p - n * es) es Hes).
    assert (0 ≤ (p_size p - n * es) / es) by (apply Z.div_pos; lia).
    assert (Z.of_nat (Z.to_nat bs) ≤ (p_size p - n * es) / es) by lia. nia. }
  pose proof (erase_loop_spec (Z.to_nat bs) ctx1 n w2 (n * es) Hp Ho2 Hn ltac:(done)) as He.
  destruct (erase_loop _ _ _ _) as [pos w3]. destruct He as [Ho3 Hb3]. simpl. right.
  split; [done|]. exists pad. split; [done|]. apply (holds_same _ _ _ _ Hh); [congruence|].
  intros k Hk j Hj. rewrite Hb3, Hb2; [done|]. assert (n = k) as -> by (simplify_eq; nia). done.
Qed.

Lemma holds_on_flash ctx done w : holds ctx done w → on_flash (bad_block_offsets ctx) done w.
Proof. intros (n & ? & ? & ? & ? & ? & ? & ? & ?). by exists n. Qed.

Lemma mtd_write_close_spec ctx done w :
  holds ctx done w → stored ctx = 0 →
  wp (mtd_write_close fuel ctx w) (λ '(_, w'), on_flash (bad_block_offsets ctx) done w').
Proof.
  intros Hh Hst. unfold mtd_write_close, mtd_erase_blocks, flush_padded. rewrite Hst. simpl.
  pose proof Hh as (n & Hn & Hns & Ho & Hp & Hbuf & Hbads & Hoks & Hgood & Hdone).
  pose proof (seek_cur_ok (w_fd ctx) (n * es) w Ho) as Hs.
  destruct (dev_seek (w_fd ctx) None w) as [pos w1]. destruct Hs as (Hpos & Ho1 & Hb1).
  assert (Hdone1 : on_flash (bad_block_offsets ctx) done w1).
  { apply holds_on_flash. apply (holds_same _ _ _ _ Hh); [congruence|]. auto. }
  assert (Hclose : ∀ r : Z, wp (let '(c, w2) := dev_close (w_fd ctx) w1 in
    mret (if negb (c =? 0) then -1 else r, w2)) (λ '(_, w'), on_flash (bad_block_offsets ctx) done w')).
  { intros r. pose proof (close_ok (w_fd ctx) w1) as Hc. destruct (dev_close _ _) as [c w2]. simpl in *.
    destruct Hdone1 as (m & ? & ? & ? & <-). exists m. do 3 (split; [done|]).
    apply Forall_bind_ext, Forall_forall. intros j _. apply Hc. }
  destruct (pos =? -1); [apply Hclose|]. rewrite Hp. destruct (Z.eqb_spec es 0); [lia|]. simpl.
  set (total := s32 _). destruct (total <? 0); apply Hclose.
Qed.

(** Closing writes what is pending, padded with zeros. *)
Lemma mtd_write_close_flushes ctx written w :
  writing ctx written w →
  wp (mtd_write_close fuel ctx w) (λ '(r, w'), r = 0 → ∃ bad pad, Z.of_nat pad < es ∧
    (∀ k, k * es ∈ bad → skip_ok k) ∧ on_flash bad (written ++ replicate pad 0) w').
Proof.
  intros Hwr. unfold mtd_write_close. apply wp_bind.
  eapply wp_mono; [by apply (mtd_erase_blocks_spec ctx written 0)|]. intros [[e ctx1] w1] He.
  cbv zeta. pose proof (close_ok (w_fd ctx1) w1) as Hc. destruct (dev_close _ _) as [c w2].
  cbn [wp mret outcome_ret snd] in *. destruct (Z.eqb_spec c 0); cbn [negb]; [|done].
  destruct (Z.eqb_spec e (-1)) as [->|]; [done|]. intros _.
  destruct He as [?|(_ & pad & Hpad & Hh)]; [done|].
  exists (bad_block_offsets ctx1), pad. split; [done|].
  assert (Hoks : ∀ k, k * es ∈ bad_block_offsets ctx1 → skip_ok k).
  { destruct Hh as (q & ? & ? & ? & ? & ? & ? & ? & ?). done. }
  split; [done|]. destruct (holds_on_flash _ _ _ Hh) as (m & ? & ? & ? & <-).
  exists m. do 3 (split; [done|]). apply Forall_bind_ext, Forall_forall. intros j _. apply Hc.
Qed.

Lemma mtd_write_partition_spec w ctx w' :
  mtd_write_partition alloc_ok p w = (Some ctx, w') →
  writing ctx [] w' ∧ bad_block_offsets ctx = [].
Proof.
  unfold mtd_write_partition. destruct (alloc_ok 28), (alloc_ok es); try done. simpl.
  pose proof (open_ok true w) as Hopen. destruct (dev_open _ _ _) as [fd w1].
  destruct (Z.ltb_spec fd 0); [done|]. intros [= <- <-]. destruct (Hopen ltac:(done)) as [Ho Hb].
  split; [|done]. split; [|simpl; lia]. exists []. split; [|simpl; split; [lia|done]].
  exists 0. split; [lia|]. split; [lia|]. split; [done|]. split; [done|]. split; [simpl; len|].
  split; [by intros o ?%not_elem_of_nil|]. split; [by intros k ?%not_elem_of_nil|].
  split; [|done]. intros k [_ Hk%elem_of_seqZ]%list_elem_of_filter. lia.
Qed.
End writing.

(** ** Reading *)
Section reading.
Context {W : Type} `{MtdDriver W} (p : MtdPartition) `{!MtdLaws p} `{!MtdReadable p}.
Context (alloc_ok : Z → bool) (fuel : nat).
Implicit Types (w : W) (ctx : MtdReadContext).
Abbreviation es := (erase_size p).

Context (Hes : 0 < erase_size p) (Hsize : 0 ≤ p_size p) (Hsmall : p_size p + erase_size p < 2 ^ 31).
Context (Hfuel : (Z.to_nat (p_size p) < fuel)%nat).

Definition nblocks : Z := p_size p / es.
Definition nonzero (l : list Z) : bool := existsb (λ b, negb (b =? 0)) l.

(** The blocks from [k] on that a reader sees: good ones with something in them. *)
Definition readable_blocks (k : Z) w : list Z :=
  filter (λ j, factory_bad j = false ∧ nonzero (block w j) = true) (seqZ k (nblocks - k)).

Lemma nblocks_bound k : (k + 1) * es ≤ p_size p ↔ k < nblocks.
Proof.
  unfold nblocks. pose proof (Z.mul_div_le (p_size p) es Hes).
  pose proof (Z.mul_succ_div_gt (p_size p) es Hes). split; intros; nia.
Qed.

Lemma visible_skip k w :
  k < nblocks → (factory_bad k = true ∨ nonzero (block w k) = false) → readable_blocks k w = readable_blocks (k + 1) w.
Proof.
  intros Hk Hno. unfold readable_blocks. rewrite seqZ_cons by lia.
  rewrite filter_cons_False by (intros [??]; destruct Hno; congruence).
  by replace (Z.pred (nblocks - k)) with (nblocks - (k + 1)) by lia.
Qed.
Lemma visible_take k w :
  k < nblocks → factory_bad k = false → nonzero (block w k) = true →
  readable_blocks k w = k :: readable_blocks (k + 1) w.
Proof.
  intros Hk Hg Hnz. unfold readable_blocks. rewrite seqZ_cons by lia.
  rewrite filter_cons_True by done.
  by replace (Z.pred (nblocks - k)) with (nblocks - (k + 1)) by lia.
Qed.
Lemma visible_same k w w' : (∀ j, block w' j = block w j) → readable_blocks k w' = readable_blocks k w.
Proof. intros Hb. apply list_filter_iff. intros j. by rewrite Hb. Qed.

(** What [read_block] has done to the buffer [data] when it stands at block [k]. *)
Definition block_read (fd k at_ : Z) (data : list Z) w (out : Z * list Z * W) : Prop :=
  let '(r, data', w') := out in
  length data' = length data ∧ (∀ j, block w' j = block w j) ∧
  match readable_blocks k w with
  | [] => r = -1
  | j :: rest =>
      r = 0 ∧ data' = take (Z.to_nat at_) data ++ block w j ++ drop (Z.to_nat (at_ + es)) data ∧
      offset w' fd = Some ((j + 1) * es) ∧ 0 ≤ j ∧ (j + 1) * es ≤ p_size p ∧ rest = readable_blocks (j + 1) w
  end.

(** The two parts of the buffer that a block is not read into. *)
Definition same_around (at_ : Z) (data data' : list Z) : Prop :=
  length data' = length data ∧ take (Z.to_nat at_) data' = take (Z.to_nat at_) data ∧
  drop (Z.to_nat (at_ + es)) data' = drop (Z.to_nat (at_ + es)) data.

Lemma wr_n_around at_ data bytes data' :
  0 ≤ at_ → zlen bytes ≤ es → wr_n data at_ bytes = Ret data' → same_around at_ data data'.
Proof.
  intros Hat Hb. unfold wr_n.
  destruct (Z.ltb_spec at_ 0), (Z.ltb_spec (zlen data) (at_ + zlen bytes)); try done. simpl.
  intros [= <-]. split; [rewrite !length_app, length_take, length_drop; lia|]. split.
  - rewrite take_app_length' by (rewrite length_take; lia). done.
  - rewrite drop_app_ge by (rewrite length_take; lia). rewrite length_take, Nat.min_l by lia.
    rewrite drop_app_ge by lia. rewrite drop_drop. f_equal. lia.
Qed.

Lemma block_read_around fd k at_ data data1 w w1 out :
  same_around at_ data data1 → (∀ j, block w1 j = block w j) →
  block_read fd k at_ data1 w1 out → block_read fd k at_ data w out.
Proof.
  intros (Hlen & Ht & Hd) Hb. destruct out as [[r data'] w']. unfold block_read.
  intros (Hl & Hb' & Hr). split; [congruence|]. split; [intros; by rewrite Hb', Hb|].
  rewrite <- (visible_same k w w1 Hb).
  destruct (readable_blocks k w1) as [|j rest]; [done|]. rewrite Ht, Hd, Hb in Hr.
  destruct Hr as (? & ? & ? & ? & ? & ->). do 5 (split; [done|]). by apply visible_same.
Qed.

Lemma read_block_loop_spec n c fd k at_ data w o :
  (∀ fd w, ECCGETSTATS fd w = Some c) →
  (Z.to_nat (nblocks - k) < n)%nat → offset w fd = Some o → 0 ≤ k →
  0 ≤ at_ → at_ + es ≤ zlen data →
  wp (read_block_loop n p fd data at_ c (k * es) w) (block_read fd k at_ data w).
Proof.
  intros Hecc. revert k data w o. induction n as [|n IH]; intros k data w o Hn Ho Hk Hat Hdata; [lia|].
  cbn [read_block_loop]. rewrite (s32_small es), (s32_small (p_size p)) by lia.
  destruct (Z.leb_spec (k * es + es) (p_size p)) as [Hin|Hout]; cycle 1.
  { simpl. split; [done|]. split; [done|]. unfold readable_blocks.
    rewrite seqZ_nil; [done|]. assert (¬ k < nblocks); [|lia]. rewrite <- nblocks_bound. lia. }
  assert (Hkn : k < nblocks) by (apply nblocks_bound; lia).
  assert (Hnext : ∀ data1 w1 o1, same_around at_ data data1 → (∀ j, block w1 j = block w j) →
    offset w1 fd = Some o1 → (factory_bad k = true ∨ nonzero (block w k) = false) →
    wp (read_block_loop n p fd data1 at_ c (k * es + es) w1) (block_read fd k at_ data w)).
  { intros data1 w1 o1 Haround Hb1 Ho1 Hskip. replace (k * es + es) with ((k + 1) * es) by lia.
    eapply wp_mono; [eapply (IH (k + 1) data1 w1); [lia|done|lia|lia|destruct Haround; lia]|].
    intros [[r data2] w2] Hr%(block_read_around _ _ _ _ _ _ _ _ Haround Hb1).
    unfold block_read in *. by rewrite (visible_skip k w). }
  pose proof (seek_set_ok fd o (k * es) w Ho) as Hs. pose proof (seek_succeeds fd o (k * es) w Ho) as Hr.
  destruct (dev_seek fd (Some (k * es)) w) as [r w1]. simpl in Hr. subst r.
  destruct Hs as (Ho1 & _ & Hb1). specialize (Ho1 eq_refl). rewrite Z.eqb_refl. simpl negb. cbn iota.
  pose proof (read_ok fd k w1 Ho1 Hk ltac:(lia)) as Hread.
  pose proof (read_succeeds fd k w1 Ho1 Hk ltac:(lia)) as Hfull.
  destruct (dev_read fd es w1) as [[got bytes] w2].
  destruct Hread as (Hbl & [o2 Ho2] & Hb2 & Hgot). simpl in Hfull.
  assert (Hb2' : ∀ j, block w2 j = block w j) by (intros; by rewrite Hb2, Hb1).
  rewrite (wr_n_in_bounds data at_ bytes) by lia. cbn [mbind outcome_bind].
  assert (Haround : same_around at_ data
    (take (Z.to_nat at_) data ++ bytes ++ drop (Z.to_nat at_ + length bytes) data)).
  { eapply (wr_n_around at_ data bytes); [done|done|]. apply wr_n_in_bounds; lia. }
  unfold mret, outcome_ret. cbn [mbind outcome_bind].
  destruct (Z.eqb_spec got es) as [Hges|Hges]; simpl negb; cbn iota; cycle 1.
  { eapply Hnext; eauto. left. destruct (factory_bad k); [done|]. by destruct Hges; apply Hfull. }
  destruct (Hgot Hges) as [-> Ho2']. rewrite Hecc, Z.eqb_refl, bad_ok. simpl negb. cbn iota.
  destruct (factory_bad k) eqn:Hfb; [simpl; eapply Hnext; eauto|]. simpl negb. cbn iota.
  pose proof (block_length w1 k) as Hlen. rewrite Hb1 in *.
  rewrite Z.max_r, rd_n_in_bounds by (rewrite ?length_app, ?length_take; lia).
  cbn [mbind outcome_bind].
  rewrite drop_app_length', take_app_length' by (rewrite ?length_take; lia).
  fold (nonzero (block w k)). destruct (nonzero (block w k)) eqn:Hnz; cycle 1.
  { eapply Hnext; eauto. }
  simpl. destruct Haround as [Hl _]. split; [done|]. split; [done|].
  rewrite visible_take by done. split; [done|]. split; [|split; [done|split; [done|split; [lia|done]]]].
  do 3 f_equal. lia.
Qed.

Lemma read_block_spec fd k at_ data w :
  offset w fd = Some (k * es) → 0 ≤ k → 0 ≤ at_ → at_ + es ≤ zlen data →
  wp (read_block fuel p fd data at_ w) (block_read fd k at_ data w).
Proof.
  intros Ho Hk Hat Hdata. destruct no_ecc_failures as [c Hecc]. unfold read_block. rewrite Hecc.
  pose proof (seek_cur_ok fd (k * es) w Ho) as Hs. pose proof (tell_succeeds fd _ w Ho) as Hr.
  destruct (dev_seek fd None w) as [r w1]. simpl in Hr. subst r. destruct Hs as (_ & Ho1 & Hb1).
  assert (nblocks ≤ p_size p) by (apply Z.div_le_upper_bound; nia).
  eapply wp_mono; [by eapply (read_block_loop_spec fuel c fd k at_ data w1); [|lia|..]|].
  intros out. by apply block_read_around.
Qed.

(** The reader will deliver [stream]. *)
Definition reading ctx (stream : list Z) w : Prop :=
  ∃ k, 0 ≤ k ∧ offset w (r_fd ctx) = Some (k * es) ∧ r_partition ctx = p ∧
    zlen (r_buffer ctx) = es ∧ 0 ≤ consumed ctx ≤ es ∧
    drop (Z.to_nat (consumed ctx)) (r_buffer ctx) ++ (readable_blocks k w ≫= block w) = stream.

(** [read] of [len] bytes of the stream [s] have been stored over [data0]. *)
Definition progress (s data0 : list Z) (len : Z) ctx (data : list Z) (read : Z) w : Prop :=
  0 ≤ read ≤ len ∧ read ≤ zlen s ∧ len ≤ zlen data0 ∧
  data = take (Z.to_nat read) s ++ drop (Z.to_nat read) data0 ∧
  reading ctx (drop (Z.to_nat read) s) w.

Lemma progress_length s data0 len ctx data read w :
  progress s data0 len ctx data read w → zlen data = zlen data0.
Proof. intros (? & ? & ? & -> & _). rewrite length_app, length_take, length_drop. lia. Qed.

Lemma progress_store s data0 len ctx data read w m b rest :
  progress s data0 len ctx data read w → 0 ≤ m → read + m ≤ len →
  drop (Z.to_nat read) s = b ++ rest → zlen b = m →
  take (Z.to_nat read) data ++ b ++ drop (Z.to_nat (read + m)) data =
    take (Z.to_nat (read + m)) s ++ drop (Z.to_nat (read + m)) data0 ∧
  drop (Z.to_nat (read + m)) s = rest ∧ read + m ≤ zlen s.
Proof.
  intros (Hr & Hrs & Hl & -> & _) Hm Hle Hs Hb.
  assert (Hlen : zlen (drop (Z.to_nat read) s) = m + zlen rest) by (rewrite Hs, length_app; lia).
  rewrite length_drop in Hlen.
  rewrite Z2Nat.inj_add, <- (take_take_drop s), Hs by lia.
  rewrite take_app_length', (take_app_length' b) by (rewrite ?length_take; lia).
  rewrite <- !app_assoc. split; [do 2 f_equal|split; [|lia]].
  - rewrite drop_app_ge by (rewrite length_take; lia). rewrite drop_drop. f_equal.
    rewrite length_take. lia.
  - rewrite <- drop_drop, Hs, drop_app_length' by lia. done.
Qed.

Lemma read_buffered_spec s data0 len ctx data read w :
  progress s data0 len ctx data read w → len < 2 ^ 31 →
  wp (read_buffered ctx data read len) (λ '(ctx', data', read'),
    progress s data0 len ctx' data' read' w ∧ read ≤ read' ∧
    (consumed ctx' = es ∨ read' = len) ∧ (consumed ctx < es → read < len → read < read') ∧
    (consumed ctx = es → ctx' = ctx)).
Proof.
  intros Hp Hlen. pose proof (progress_length _ _ _ _ _ _ _ Hp) as Hdata.
  pose proof Hp as (Hr & Hrs & Hl & Hd & (k & Hk & Ho & Hpart & Hbuf & Hc & Hs)).
  unfold read_buffered. rewrite Hpart.
  destruct (Z.ltb_spec (consumed ctx) es); cycle 1.
  { simpl. split; [done|]. split; [lia|]. split; [left; lia|]. split; [lia|done]. }
  rewrite u32_small by lia. set (copy := if _ <? _ then _ else _).
  assert (0 ≤ copy ∧ copy ≤ len - read ∧ copy ≤ es - consumed ctx ∧
    (copy = len - read ∨ copy = es - consumed ctx)) as (Hc0 & Hc1 & Hc2 & Hc3).
  { subst copy. destruct (Z.ltb_spec (len - read) (es - consumed ctx)); lia. }
  clearbody copy. rewrite rd_n_in_bounds by lia. cbn [mbind outcome_bind].
  set (b := take _ _). assert (Hb : zlen b = copy) by (subst b; rewrite length_take, length_drop; lia).
  rewrite wr_n_in_bounds by lia. simpl.
  destruct (progress_store s data0 len ctx data read w copy b
    (drop (Z.to_nat (consumed ctx + copy)) (r_buffer ctx) ++ (readable_blocks k w ≫= block w))
    Hp Hc0 ltac:(lia)) as (Hd' & Hs' & Hrs'); [|done|].
  { rewrite <- Hs, app_assoc. f_equal. rewrite Z2Nat.inj_add, <- drop_drop by lia. subst b. by rewrite take_drop. }
  replace (Z.to_nat read + length b)%nat with (Z.to_nat (read + copy)) by lia.
  split; cycle 1. { split; [lia|]. split; [|split; lia]. destruct Hc3; [right|left]; lia. }
  split; [lia|]. split; [done|]. split; [done|]. split; [done|].
  exists k. simpl. do 4 (split; [done|]). split; [lia|]. by rewrite Hs'.
Qed.

Lemma read_direct_spec n s data0 len ctx data read w :
  (Z.to_nat (len - read) < n)%nat → len < 2 ^ 31 → progress s data0 len ctx data read w →
  wp (read_direct fuel n ctx data read len w) (λ '(failed, data', read', w'),
    if failed then zlen s < len
    else progress s data0 len ctx data' read' w' ∧ read ≤ read' ∧
      (consumed ctx = es → len - read' < es)).
Proof.
  intros Hn Hlen. revert data read w Hn. induction n as [|n IH]; intros data read w Hn Hp; [lia|].
  cbn [read_direct]. pose proof (progress_length _ _ _ _ _ _ _ Hp) as Hdata.
  pose proof Hp as (Hr & Hrs & Hl & Hd & (k & Hk & Ho & Hpart & Hbuf & Hc & Hs)).
  rewrite Hpart, u32_small by lia.
  destruct ((consumed ctx =? es) && (es <=? len - read)) eqn:Hcond; cycle 1.
  { simpl. split; [done|]. split; [lia|]. intros He. rewrite He, Z.eqb_refl in Hcond. simpl in Hcond.
    apply Z.leb_gt in Hcond. lia. }
  apply andb_true_iff in Hcond as [He%Z.eqb_eq Hle%Z.leb_le]. apply wp_bind.
  eapply wp_mono; [apply (read_block_spec (r_fd ctx) k read data w); [done|done|lia|lia]|].
  intros [[r data'] w'] (Hl' & Hb' & Hres). rewrite He, drop_ge in Hs by lia. simpl in Hs.
  assert (Hread : zlen (readable_blocks k w ≫= block w) = zlen s - read).
  { rewrite Hs, length_drop. lia. }
  destruct (readable_blocks k w) as [|j rest] eqn:Hv.
  { rewrite Hres. simpl in *. lia. }
  destruct Hres as (-> & Hd' & Ho' & Hj & Hjs & ->). simpl negb. cbn iota.
  destruct (progress_store s data0 len ctx data read w es (block w j) (readable_blocks (j + 1) w ≫= block w)
    Hp ltac:(lia) ltac:(lia)) as (Hd2 & Hs2 & Hrs2); [by rewrite <- Hs|apply block_length|].
  eapply wp_mono; [apply (IH data' (read + es) w'); [lia|]|].
  - split; [lia|]. split; [done|]. split; [done|]. split; [by rewrite Hd'|].
    exists (j + 1). do 5 (split; [done || lia|]). rewrite He, drop_ge, Hs2 by lia. simpl.
    rewrite (visible_same _ _ _ Hb'). apply list_bind_ext; auto.
  - intros [[[failed data2] read2] w2]. destruct failed; [done|]. intros (? & ? & ?).
    split; [done|]. split; [lia|done].
Qed.

Lemma read_loop_spec n s data0 len ctx data read w :
  (2 * Z.to_nat (len - read) + (if (consumed ctx =? es)%Z then 1 else 0) < n)%nat →
  (Z.to_nat len < fuel)%nat → len < 2 ^ 31 →
  progress s data0 len ctx data read w →
  wp (mtd_read_loop fuel n ctx data read len w) (λ '(r, ctx', data', w'),
    if len <=? zlen s then r = len ∧ progress s data0 len ctx' data' len w' else r = -1).
Proof.
  intros Hn Hf Hlen. revert ctx data read w Hn.
  induction n as [|n IH]; intros ctx data read w Hn Hp; [lia|]. cbn [mtd_read_loop].
  rewrite (s32_small len) by (destruct Hp; lia).
  destruct (Z.ltb_spec read len); cycle 1.
  { assert (read = len) as -> by (destruct Hp; lia). simpl.
    destruct (Z.leb_spec len (zlen s)); [done|]. destruct Hp as (? & ? & ?). lia. }
  apply wp_bind. eapply wp_mono; [by apply read_buffered_spec|].
  intros [[ctx1 data1] read1] (Hp1 & Hr1 & Hc1 & Hprog & Hsame). apply wp_bind.
  eapply wp_mono; [apply (read_direct_spec fuel s data0 len ctx1 data1 read1 w); [|done|done]|].
  { destruct Hp1; lia. }
  intros [[[failed data2] read2] w2] H2. destruct failed.
  { simpl. destruct (Z.leb_spec len (zlen s)); [lia|done]. }
  destruct H2 as (Hp2 & Hr2 & Hrest). pose proof (progress_length _ _ _ _ _ _ _ Hp2) as Hdata2.
  rewrite u32_small by (destruct Hp2; lia).
  destruct (Z.leb_spec len read2).
  { assert (read2 = len) as -> by (destruct Hp2; lia). simpl.
    destruct (Z.leb_spec len (zlen s)); [done|]. destruct Hp2 as (? & ? & ?). lia. }
  destruct Hc1 as [Hc1|]; [|lia].
  pose proof Hp2 as (Hr' & Hrs & Hl & Hd & (k & Hk & Ho & Hpart & Hbuf & Hc & Hs)).
  rewrite Hpart, Hc1, Z.eqb_refl. destruct (Z.ltb_spec read2 len); [|lia]. cbn [andb].
  apply wp_bind. eapply wp_mono; [apply (read_block_spec (r_fd ctx1) k 0 (r_buffer ctx1) w2); [done|done|lia|lia]|].
  intros [[r buffer] w3] (Hlb & Hb3 & Hres). rewrite Hc1, drop_ge in Hs by lia. simpl in Hs.
  assert (Hread : zlen (readable_blocks k w2 ≫= block w2) = zlen s - read2).
  { rewrite Hs, length_drop. lia. }
  destruct (readable_blocks k w2) as [|j rest] eqn:Hv.
  { rewrite Hres. simpl in *. destruct (Z.leb_spec len (zlen s)); [lia|done]. }
  destruct Hres as (-> & Hbf & Ho' & Hj & Hjs & ->). simpl negb. cbn iota.
  simpl in Hbf. rewrite drop_ge, app_nil_r in Hbf by lia.
  apply IH; cbn [consumed].
  - revert Hn. destruct (Z.eqb_spec 0 es); [lia|]. destruct (Z.eqb_spec (consumed ctx) es); [lia|].
    intros Hn. assert (read < read1); [|lia]. apply Hprog; [|done].
    destruct Hp as (? & ? & ? & ? & (k' & ? & ? & ? & ? & ? & ?)). lia.
  - split; [lia|]. split; [done|]. split; [done|]. split; [done|].
    exists (j + 1). simpl. do 5 (split; [done || lia|]). rewrite <- Hs, Hbf. simpl. f_equal.
    rewrite (visible_same _ _ _ Hb3). apply list_bind_ext; auto.
Qed.

Lemma mtd_read_data_spec ctx s data0 len w :
  (2 * Z.to_nat len + 1 < fuel)%nat → 0 ≤ len < 2 ^ 31 → len ≤ zlen data0 → reading ctx s w →
  wp (mtd_read_data fuel ctx data0 len w) (λ '(r, ctx', data', w'),
    if len <=? zlen s
    then r = len ∧ data' = take (Z.to_nat len) s ++ drop (Z.to_nat len) data0 ∧
      reading ctx' (drop (Z.to_nat len) s) w'
    else r = -1).
Proof.
  intros Hf Hlen Hd Hr. eapply wp_mono.
  - apply (read_loop_spec fuel s data0 len ctx data0 0 w); [destruct (_ =? _); lia|lia|lia|].
    split; [lia|]. split; [lia|]. done.
  - intros [[[r ctx'] data'] w']. destruct (len <=? zlen s); [|done].
    intros (? & ? & ? & ? & ? & ?). done.
Qed.

Lemma mtd_read_partition_spec w :
  alloc_ok 16 = true → alloc_ok es = true →
  ∃ ctx w', mtd_read_partition alloc_ok p w = Ret (Some ctx, w') ∧
    reading ctx (readable_blocks 0 w ≫= block w) w'.
Proof.
  intros Ha Hb. unfold mtd_read_partition. rewrite Ha, Hb. simpl.
  pose proof (open_ok false w) as Hopen. pose proof (read_opens w) as Hfd.
  destruct (dev_open _ _ _) as [fd w1]. simpl in Hfd. destruct (Z.ltb_spec fd 0); [lia|].
  destruct (Hopen Hfd) as [Ho Hblk]. eexists _, w1. split; [done|].
  exists 0. split; [lia|]. split; [done|]. split; [done|]. split; [simpl; len|].
  split; [simpl; lia|]. simpl. rewrite drop_ge by len. simpl.
  rewrite (visible_same _ _ _ Hblk). apply list_bind_ext; auto.
Qed.
End reading.

(** ** Writing and reading back *)
Section roundtrip.
Context {W : Type} `{MtdDriver W} (p : MtdPartition) `{!MtdLaws p} `{!MtdReadable p}.
Context (alloc_ok : Z → bool) (fuel : nat).
Implicit Types (w : W) (data : list Z).
Abbreviation es := (erase_size p).

Lemma bind_chunk (f : Z → list Z) (l : list Z) i k :
  (∀ j, zlen (f j) = es) → l !! i = Some k →
  take (Z.to_nat es) (drop (Z.to_nat (Z.of_nat i * es)) (l ≫= f)) = f k.
Proof.
  intros Hf. revert i. induction l as [|j l IH]; intros i Hi; [done|]. cbn [mbind list_bind].
  pose proof (Hf j) as Hj. destruct i as [|i]; simpl in Hi.
  - injection Hi as ->. replace (Z.of_nat 0 * es) with 0 by lia. change (Z.to_nat 0) with O. rewrite drop_0.
    rewrite take_app_length'; [done|lia].
  - rewrite drop_app_ge by nia. rewrite <- (IH i Hi). do 2 f_equal. nia.
Qed.

(** Every block of the erase size has something in it. *)
Definition no_zero_block data : Prop :=
  ∀ i, (Z.of_nat i * es < zlen data)%Z →
    nonzero (take (Z.to_nat es) (drop (Z.to_nat (Z.of_nat i * es)) data)) = true.

(** A device on which only factory-bad blocks were skipped shows what was written. *)
Lemma on_flash_visible bad data pad w :
  0 < es → 0 ≤ p_size p → on_flash p bad (data ++ replicate pad 0) w → Z.of_nat pad < es →
  no_zero_block data → (∀ k, k * es ∈ bad → factory_bad k = true) →
  ∃ rest, readable_blocks p 0 w ≫= block w = data ++ replicate pad 0 ++ rest.
Proof.
  intros Hes Hsize (n & Hn & Hns & Hgood & Hc) Hpad Hnz Hbad. unfold readable_blocks.
  assert (Hnb : n ≤ nblocks p).
  { unfold nblocks. apply Z.div_le_lower_bound; lia. }
  replace (nblocks p - 0) with (n + (nblocks p - n)) by lia.
  rewrite seqZ_app, filter_app, bind_app by lia. eexists. rewrite app_assoc, <- Hc. f_equal.
  unfold content. f_equal. unfold used. apply filter_iff_in. intros k Hk. split.
  - intros [Hf _] Hin. by rewrite (Hbad k Hin) in Hf.
  - intros Hin. assert (Hu : k ∈ used p bad n) by (by apply list_elem_of_filter).
    split; [by apply Hgood|]. apply list_elem_of_lookup in Hu as [i Hi].
    pose proof (bind_chunk (block w) (used p bad n) i k (block_length w) Hi) as Hb.
    fold (content p bad n w) in Hb. rewrite Hc in Hb.
    assert (Hlen : Z.of_nat (S i) * es ≤ zlen (data ++ replicate pad 0)).
    { rewrite <- Hc. unfold content. rewrite <- (take_drop (S i) (used p bad n)), bind_app, length_app.
      assert (Hall : ∀ l : list Z, zlen (l ≫= block w) = zlen l * es).
      { induction l as [|j l IHl]; [done|]. cbn [mbind list_bind]. cbn [mbind list_bind] in IHl.
        rewrite length_app. pose proof (block_length w j). simpl. nia. }
      pose proof (Hall (take (S i) (used p bad n))) as Ht. rewrite length_take in Ht.
      apply lookup_lt_Some in Hi. nia. }
    rewrite length_app, length_replicate in Hlen.
    assert (Hin' : Z.of_nat i * es < zlen data) by nia.
    rewrite <- Hb. rewrite drop_app_le by nia.
    unfold nonzero. rewrite take_app, existsb_app. apply orb_true_iff. left. by apply Hnz.
Qed.

Lemma flash_roundtrip_spec data buffer w0 w1 w2 w3 w4 ctx1 ctx2 ctx3 r3 r4 :
  0 < es → 0 ≤ p_size p → p_size p + es < 2 ^ 31 → (Z.to_nat (p_size p) < fuel)%nat →
  (2 * length data + 1 < fuel)%nat → zlen data < 2 ^ 31 → length buffer = length data →
  alloc_ok 16 = true → alloc_ok es = true →
  mtd_write_partition alloc_ok p w0 = (Some ctx1, w1) →
  mtd_write_data fuel ctx1 data (zlen data) w1 = Ret (zlen data, ctx2, w2) →
  mtd_erase_blocks fuel ctx2 (-1) w2 = Ret (r3, ctx3, w3) → r3 ≠ -1 →
  mtd_write_close fuel ctx3 w3 = Ret (r4, w4) →
  no_zero_block data → (∀ k, k * es ∈ bad_block_offsets ctx3 → factory_bad k = true) →
  ∃ rctx w5 rctx' w6, mtd_read_partition alloc_ok p w4 = Ret (Some rctx, w5) ∧
    mtd_read_data fuel rctx buffer (zlen data) w5 = Ret (zlen data, rctx', data, w6).
Proof.
  intros Hes Hsize Hsmall Hfuel Hf Hlen Hbuf Ha16 Haes Hopen Hwrite Herase Hr3 Hclose Hnz Hbad.
  apply (mtd_write_partition_spec p alloc_ok fuel (λ _, True) Hes Hsize Hfuel) in Hopen as [Hw1 _].
  pose proof (mtd_write_data_spec p alloc_ok fuel (λ _, True) ltac:(done) ltac:(done) Hes Hsize Hsmall Hfuel ctx1 [] data w1 ltac:(lia) Hlen Hw1) as Hs.
  rewrite Hwrite in Hs. destruct Hs as [?|(_ & Hw2 & _)]; [lia|]. simpl in Hw2.
  pose proof (mtd_erase_blocks_spec p alloc_ok fuel (λ _, True) ltac:(done) ltac:(done) Hes Hsize Hsmall Hfuel ctx2 data (-1) w2 Hw2) as He.
  rewrite Herase in He. destruct He as [?|(Hst & pad & Hpad & Hh)]; [done|].
  pose proof (mtd_write_close_spec p fuel (λ _, True) Hes Hfuel ctx3 _ w3 Hh Hst) as Hc. rewrite Hclose in Hc. simpl in Hc.
  destruct (on_flash_visible _ data pad w4 Hes Hsize Hc Hpad Hnz Hbad) as [rest Hv].
  destruct (mtd_read_partition_spec p alloc_ok fuel Hes Hfuel w4 Ha16 Haes) as (rctx & w5 & Hro & Hr).
  pose proof (mtd_read_data_spec p fuel Hes Hsize Hsmall Hfuel rctx _ buffer (zlen data) w5
    ltac:(lia) ltac:(lia) ltac:(lia) Hr) as Hread.
  destruct (wp_Ret_inv _ _ Hread) as ([[[r rctx'] d'] w6] & Heq & Hres).
  rewrite Hv in Hres. destruct (Z.leb_spec (zlen data) (zlen (data ++ replicate pad 0 ++ rest)));
    [|rewrite length_app in *; lia].
  destruct Hres as (-> & -> & _). exists rctx, w5, rctx', w6. split; [done|].
  rewrite Heq. do 3 f_equal. rewrite take_app_length' by lia. rewrite drop_ge by lia.
  by rewrite app_nil_r.
Qed.

(** C30: What a writer stores in a flash partition a reader gets back. If the data was
    taken, the rest of the partition erased and the writer closed, then a new reader
    delivers the same bytes, wherever the bad blocks of the device are. The hypotheses are
    what this needs: the reads of the good blocks succeed, no block of the data
    is all zero, and the writer has skipped no block that is not factory-bad. *)
Theorem flash_roundtrip data buffer w0 w1 w2 w3 w4 ctx1 ctx2 ctx3 r3 r4 :
  0 < es → 0 ≤ p_size p → p_size p + es < 2 ^ 31 → (Z.to_nat (p_size p) < fuel)%nat →
  (2 * length data + 1 < fuel)%nat → zlen data < 2 ^ 31 → length buffer = length data →
  alloc_ok 16 = true → alloc_ok es = true →
  mtd_write_partition alloc_ok p w0 = (Some ctx1, w1) →
  mtd_write_data fuel ctx1 data (zlen data) w1 = Ret (zlen data, ctx2, w2) →
  mtd_erase_blocks fuel ctx2 (-1) w2 = Ret (r3, ctx3, w3) → r3 ≠ -1 →
  mtd_write_close fuel ctx3 w3 = Ret (r4, w4) →
  no_zero_block data → (∀ k, k * es ∈ bad_block_offsets ctx3 → factory_bad k = true) →
  ∃ rctx w5 rctx' w6, mtd_read_partition alloc_ok p w4 = Ret (Some rctx, w5) ∧
    mtd_read_data fuel rctx buffer (zlen data) w5 = Ret (zlen data, rctx', data, w6).
Proof. apply flash_roundtrip_spec. Qed.

(** Writing data to a partition comes to an end: [mtd_write_data] refines the
    specification "the writer has taken these bytes". It answers the length of the data and
    has appended the data to what the writer has taken, of which all but a part of a block
    is on the device, or it answers -1. Any block may have been skipped. *)
Theorem mtd_write_data_refines ctx written data w :
  0 < es → 0 ≤ p_size p → p_size p + es < 2 ^ 31 → (Z.to_nat (p_size p) < fuel)%nat →
  (length data < fuel)%nat → zlen data < 2 ^ 31 → writing p (λ _, True) ctx written w →
  ∃ r ctx' w', mtd_write_data fuel ctx data (zlen data) w = Ret (r, ctx', w') ∧
    (r = -1 ∨ r = zlen data ∧ writing p (λ _, True) ctx' (written ++ data) w').
Proof.
  intros Hes Hsize Hsmall Hfuel Hf Hlen Hw.
  destruct (wp_Ret_inv _ _ (mtd_write_data_spec p alloc_ok fuel (λ _, True) ltac:(done) ltac:(done) Hes Hsize Hsmall Hfuel ctx written data w Hf Hlen Hw))
    as ([[r ctx'] w'] & ? & [[? _]|(? & ? & _)]); eauto 10.
Qed.
End roundtrip.

(** On such a device the writer skips only bad blocks. *)
Lemma good_not_skipped {W : Type} `{MtdDriver W} (p : MtdPartition) `{!MtdLaws p} `{!MtdReadable p} `{!MtdWritable p}
    fd k data w o :
  offset w fd = Some o → 0 ≤ k → (k + 1) * erase_size p ≤ p_size p → zlen data = erase_size p →
  factory_bad k = false → (write_retry 2 fd (k * erase_size p) data (erase_size p) w).1 = true.
Proof.
  intros Ho Hk Hin Hdata Hgood. cbn [write_retry]. set (es := erase_size p) in *.
  pose proof (erase_ok fd o k w Ho Hk Hin) as He. pose proof (erase_succeeds fd o k w Ho Hk Hin Hgood) as Hr.
  fold es in He, Hr. destruct (MEMERASE fd (k * es) es w) as [r w1]. simpl in Hr. destruct He as [Ho1 _].
  destruct (Z.ltb_spec r 0); [lia|].
  pose proof (seek_set_ok fd o (k * es) w1 Ho1) as Hs. pose proof (seek_succeeds fd o (k * es) w1 Ho1) as Hr2.
  destruct (dev_seek fd (Some (k * es)) w1) as [r2 w2]. simpl in Hr2. subst r2. destruct Hs as (Hat & _ & _).
  rewrite Z.eqb_refl. specialize (Hat eq_refl).
  pose proof (write_ok fd k data w2 Hat Hk Hin Hdata) as Hw.
  pose proof (write_succeeds fd k data w2 Hat Hk Hin Hgood Hdata) as Hblk.
  destruct (dev_write fd data w2) as [r3 w3]. simpl in Hblk |- *. destruct Hw as [[o3 Ho3] _].
  pose proof (seek_set_ok fd o3 (k * es) w3 Ho3) as Hs. pose proof (seek_succeeds fd o3 (k * es) w3 Ho3) as Hr4.
  destruct (dev_seek fd (Some (k * es)) w3) as [r4 w4]. simpl in Hr4. subst r4. destruct Hs as (Hat4 & _ & Hb4).
  rewrite Z.eqb_refl. specialize (Hat4 eq_refl). cbn [negb].
  pose proof (read_ok fd k w4 Hat4 Hk Hin) as Hread.
  pose proof (read_succeeds fd k w4 Hat4 Hk Hin Hgood) as Hgot. fold es in Hread, Hgot.
  destruct (dev_read fd es w4) as [[got verify] w5]. simpl in Hgot. subst got.
  destruct Hread as (_ & _ & _ & Hv). destruct (Hv eq_refl) as [-> _]. rewrite Hb4, Hblk, Z.eqb_refl. cbn [negb].
  unfold memcmp. by rewrite strncmp_self.
Qed.

(** ** Failures *)
Section failures.
Context {W : Type} `{MtdDriver W}.
Implicit Types (w : W).

(** [read_block] compares the count of uncorrectable errors with the one from before its
    first block: after one such error it rejects every block up to the end. *)
Lemma stale_ecc_baseline (failed : W → Z) partition fd c n data at_ pos w :
  (∀ w, ECCGETSTATS fd w = Some (failed w)) →
  (∀ q w, failed (dev_seek fd q w).2 = failed w) → (∀ k w, failed w ≤ failed (dev_read fd k w).2) →
  c < failed w →
  match read_block_loop n partition fd data at_ c pos w with Ret (r, _, _) => r = -1 | _ => True end.
Proof.
  intros Hecc Hseek Hread. revert data pos w.
  induction n as [|n IH]; intros data pos w Hc; [done|]. cbn [read_block_loop].
  destruct (pos + s32 (erase_size partition) <=? s32 (p_size partition)); [|done].
  pose proof (Hseek (Some pos) w) as Hs. destruct (dev_seek _ _ _) as [r w1]. simpl in Hs.
  destruct (r =? pos); cbn [negb mret outcome_ret mbind outcome_bind]; [|apply IH; lia].
  pose proof (Hread (s32 (erase_size partition)) w1) as Hr. destruct (dev_read _ _ _) as [[got b] w2].
  simpl in Hr. destruct (wr_n data at_ b) as [data1| |]; [|done..]. simpl.
  destruct (got =? _); simpl; [|apply IH; lia]. rewrite Hecc.
  destruct (Z.eqb_spec (failed w2) c); simpl; [lia|]. apply IH. lia.
Qed.

(** A partition whose device cannot be opened: [ctx->buffer] is read behind [free(ctx)]. *)
Lemma mtd_read_partition_open_failure (alloc_ok : Z → bool) partition w :
  alloc_ok 16 = true → alloc_ok (erase_size partition) = true →
  (dev_open (mtd_dev partition) false w).1 < 0 →
  mtd_read_partition alloc_ok partition w = Fault UseAfterFree.
Proof.
  intros Ha Hb Ho. unfold mtd_read_partition. rewrite Ha, Hb. simpl.
  destruct (dev_open _ _ _) as [fd w1]. simpl in Ho. by rewrite (proj2 (Z.ltb_lt _ _)) by done.
Qed.
End failures.

(** ** A device *)
Module FlashDemo.

(** Four blocks of two bytes, the second of them bad; the state is the offset and the
    contents of the blocks. *)
Definition flash : Type := Z * (Z → Z * Z).
Definition store (k : Z) (b : Z * Z) (f : Z → Z * Z) : Z → Z * Z := λ j, if j =? k then b else f j.

Definition proc_text : list Z :=
  str "dev:    size   erasesize  name" ++ [10] ++
  str "mtd0: 00000008 00000002 " ++ [34] ++ str "boot" ++ [34; 10] ++
  str "mtd3: 0000c000 00000400 " ++ [34] ++ str "system" ++ [34; 10].

#[local] Instance driver : MtdDriver flash := {|
  proc_mtd _ := Some proc_text;
  dev_open _ _ w := (3, (0, w.2));
  dev_seek _ q w := match q with Some q => (q, (q, w.2)) | None => (w.1, w) end;
  dev_read _ n w := let '(a, b) := w.2 (w.1 / 2) in (n, [a; b], (w.1 + n, w.2));
  dev_write _ data w :=
    match data with
    | [a; b] => (2, (w.1 + 2, store (w.1 / 2) (a, b) w.2))
    | _ => (-1, w)
    end;
  dev_close _ w := (0, w);
  ECCGETSTATS _ _ := Some 0;
  MEMGETBADBLOCK _ pos _ := if pos =? 2 then 1 else 0;
  MEMERASE _ pos _ w := (0, (w.1, store (pos / 2) (255, 255) w.2));
  MEMGETINFO _ _ := None
|}.

Definition part : MtdPartition := mk_partition 0 8 2 (Some (str "boot")).

#[local] Instance laws : MtdLaws part.
Proof.
  refine {| offset w _ := Some w.1; block w k := [(w.2 k).1; (w.2 k).2]; factory_bad k := k =? 1 |};
    cbn -[Z.mul Z.add Z.div]; try done.
  - naive_solver.
  - intros _ o q w _. repeat split; naive_solver.
  - intros _ k w [= ->] Hk Hin. rewrite Z.div_mul by lia. destruct (w.2 k) as [a b].
    split; [simpl; lia|]. split; [eauto|]. split; [done|]. intros _. split; [done|].
    cbn [fst]. f_equal. lia.
  - intros _ k data w [= ->] Hk Hin Hd. destruct data as [|a [|b [|]]]; try (simpl in Hd; lia).
    rewrite Z.div_mul by lia. split; [eauto|]. intros j Hj. unfold store. simpl.
    by destruct (Z.eqb_spec j k).
  - intros _ o k w Ho Hk Hin. rewrite Z.div_mul by lia. split; [done|]. intros j Hj. unfold store.
    simpl. by destruct (Z.eqb_spec j k).
  - intros _ k w. destruct (Z.eqb_spec (k * 2) 2), (Z.eqb_spec k 1); try done; lia.
Defined.

#[local] Instance readable : MtdReadable part.
Proof.
  constructor; cbn -[Z.mul Z.add Z.div]; try done.
  - naive_solver.
  - intros _ k w [= ->] _ _ _. rewrite Z.div_mul by lia. by destruct (w.2 k).
  - by exists 0.
Qed.

Definition blank : flash := (0, λ _, (255, 255)).

(** Write [data], erase the rest, close. *)
Definition session (data : list Z) : outcome (option (Z * list Z * flash)) :=
  match mtd_write_partition (λ _, true) part blank with
  | (None, _) => mret None
  | (Some ctx, w) =>
      '(r, ctx, w) ← mtd_write_data 50 ctx data (zlen data) w;
      '(_, ctx, w) ← mtd_erase_blocks 50 ctx (-1) w;
      '(_, w) ← mtd_write_close 50 ctx w;
      mret (Some (r, bad_block_offsets ctx, w))
  end.
Definition read_back (n : Z) (w : flash) : outcome (option (Z * list Z)) :=
  '(ctx, w) ← mtd_read_partition (λ _, true) part w;
  match ctx with
  | None => mret None
  | Some ctx =>
      '(r, _, data, _) ← mtd_read_data 50 ctx (replicate (Z.to_nat n) 0) n w;
      mret (Some (r, data))
  end.
Definition written_and_read (data : list Z) : outcome (option (Z * list Z)) :=
  o ← session data;
  match o with Some (_, _, w) => read_back (zlen data) w | None => mret None end.

Example skips_the_bad_block : written_and_read [1; 2; 3; 4; 5] = Ret (Some (5, [1; 2; 3; 4; 5])).
Proof. vm_compute. reflexivity. Qed.

(** A block of zeros is written, but not read. *)
Example zero_block_lost :
  written_and_read [1; 2; 0; 0; 5; 6] = Ret (Some (-1, [1; 2; 5; 6; 0; 0])).
Proof. vm_compute. reflexivity. Qed.
Example zero_block_shifts :
  (o ← session [1; 2; 0; 0; 5; 6]; match o with Some (_, _, w) => read_back 4 w | None => mret None end) =
    Ret (Some (4, [1; 2; 5; 6])).
Proof. vm_compute. reflexivity. Qed.

(** The states of the session that writes [1; 2; 3; 4; 5]. *)
Definition ctx0 : MtdWriteContext :=
  default (mk_write part [] 0 0 [] 0) (mtd_write_partition (λ _, true) part blank).1.
Definition st0 : flash := (mtd_write_partition (λ _, true) part blank).2.
Definition after (o : outcome (Z * MtdWriteContext * flash)) : Z * MtdWriteContext * flash :=
  match o with Ret r => r | _ => (0, ctx0, st0) end.
Definition run1 := after (mtd_write_data 50 ctx0 [1; 2; 3; 4; 5] 5 st0).
Definition run2 := after (mtd_erase_blocks 50 run1.1.2 (-1) run1.2).
Definition run3 := match mtd_write_close 50 run2.1.2 run2.2 with Ret r => r | _ => (0, st0) end.
End FlashDemo.
#[local] Existing Instances FlashDemo.driver FlashDemo.laws FlashDemo.readable.

Lemma flash_roundtrip_witness :
  ∃ rctx w5 rctx' w6,
    mtd_read_partition (λ _, true) FlashDemo.part FlashDemo.run3.2 = Ret (Some rctx, w5) ∧
    mtd_read_data 50 rctx [0; 0; 0; 0; 0] 5 w5 = Ret (5, rctx', [1; 2; 3; 4; 5], w6).
Proof.
  apply (flash_roundtrip FlashDemo.part (λ _, true) 50 [1; 2; 3; 4; 5] [0; 0; 0; 0; 0] FlashDemo.blank
    FlashDemo.st0 FlashDemo.run1.2 FlashDemo.run2.2 FlashDemo.run3.2 FlashDemo.ctx0
    FlashDemo.run1.1.2 FlashDemo.run2.1.2 FlashDemo.run2.1.1 FlashDemo.run3.1);
    try first [vm_compute; reflexivity | vm_compute; lia | vm_compute; discriminate].
  - intros [|[|[|i]]]; try (intros _; vm_compute; reflexivity). simpl. lia.
  - intros k. replace (bad_block_offsets FlashDemo.run2.1.2) with [2] by (vm_compute; reflexivity).
    simpl. intros Hk. apply list_elem_of_singleton in Hk. assert (k = 1) as -> by lia. reflexivity.
Defined.

Lemma mtd_write_data_refines_witness :
  ∃ r ctx' w', mtd_write_data 50 FlashDemo.ctx0 [1; 2; 3] 3 FlashDemo.st0 = Ret (r, ctx', w') ∧
    (r = -1 ∨ r = 3 ∧ writing FlashDemo.part (λ _, True) ctx' [1; 2; 3] w').
Proof.
  apply (mtd_write_data_refines FlashDemo.part (λ _, true) 50 FlashDemo.ctx0 [] [1; 2; 3] FlashDemo.st0);
    try first [vm_compute; reflexivity | vm_compute; lia | vm_compute; discriminate].
  apply (mtd_write_partition_spec FlashDemo.part (λ _, true) 50) with (w := FlashDemo.blank);
    try first [vm_compute; reflexivity | vm_compute; lia | vm_compute; discriminate].
Defined.
