(* ===== verification/Mtdframe.v ===== *)
(** * Mtdframe

    What the functions of mtdutils.c that write touch: only the file of the partition that they
    were called for. *)
From S2P Require Import Prelude CString Syscalls Mtdutils.

(** The calls that concern the device of [part] are within [R]; [on fd w] says that [fd] is a
    descriptor of that device. *)
Record confined {W : Type} `{MtdDriver W} (part : MtdPartition) (R : W → W → Prop) (on : Z → W → Prop) : Prop := {
  conf_order : PreOrder R;
  conf_open rw w : let '(fd, w') := dev_open (mtd_dev part) rw w in R w w' ∧ (0 ≤ fd → on fd w');
  conf_seek fd q w : on fd w → R w (dev_seek fd q w).2 ∧ on fd (dev_seek fd q w).2;
  conf_read fd n w : on fd w → R w (dev_read fd n w).2 ∧ on fd (dev_read fd n w).2;
  conf_write fd data w : on fd w → R w (dev_write fd data w).2 ∧ on fd (dev_write fd data w).2;
  conf_erase fd pos n w : on fd w → R w (MEMERASE fd pos n w).2 ∧ on fd (MEMERASE fd pos n w).2;
  conf_close fd w : on fd w → R w (dev_close fd w).2
}.

Section frame.
Context {W : Type} `{MtdDriver W} (alloc_ok : Z → bool) (fuel : nat).
Context (part : MtdPartition) (R : W → W → Prop) (on : Z → W → Prop) (Hconf : confined part R on).
Implicit Types (w : W) (ctx : MtdWriteContext).

#[local] Instance R_order : PreOrder R := conf_order _ _ _ Hconf.

(** From [w], where [fd] is open, to [w'], where it still is. *)
Definition goes fd w w' : Prop := R w w' ∧ on fd w'.
Lemma goes_refl fd w : on fd w → goes fd w w.
Proof. by split. Qed.
Lemma goes_trans fd w1 w2 w3 : goes fd w1 w2 → (on fd w2 → goes fd w2 w3) → goes fd w1 w3.
Proof. intros [H12 Ho] H23. destruct (H23 Ho). split; [by etrans|done]. Qed.

Lemma write_retry_goes n fd pos data size w : on fd w → goes fd w (write_retry n fd pos data size w).2.
Proof.
  revert w. induction n as [|n IH]; intros w Ho; cbn [write_retry]; [by apply goes_refl|].
  pose proof (conf_erase _ _ _ Hconf fd pos size w Ho) as He. destruct (MEMERASE fd pos size w) as [r1 w1]. simpl in He.
  apply (goes_trans _ _ w1); [exact He|]. clear He Ho. intros Ho. destruct (r1 <? 0); [by apply IH|].
  pose proof (conf_seek _ _ _ Hconf fd (Some pos) w1 Ho) as Hs. destruct (dev_seek fd (Some pos) w1) as [r2 w2]. simpl in Hs.
  apply (goes_trans _ _ w2); [exact Hs|]. clear Hs Ho. intros Ho.
  apply (goes_trans _ _ (if r2 =? pos then (dev_write fd data w2).2 else w2)).
  { destruct (r2 =? pos); [by apply (conf_write _ _ _ Hconf)|by apply goes_refl]. }
  set (w3 := if r2 =? pos then _ else _). clearbody w3. clear Ho. intros Ho.
  pose proof (conf_seek _ _ _ Hconf fd (Some pos) w3 Ho) as Hs. destruct (dev_seek fd (Some pos) w3) as [r4 w4]. simpl in Hs.
  apply (goes_trans _ _ w4); [exact Hs|]. clear Hs Ho. intros Ho. destruct (negb (r4 =? pos)); [by apply IH|].
  pose proof (conf_read _ _ _ Hconf fd size w4 Ho) as Hr. destruct (dev_read fd size w4) as [[got verify] w5]. simpl in Hr.
  apply (goes_trans _ _ w5); [exact Hr|]. clear Hr Ho. intros Ho.
  destruct (negb (got =? size)); [by apply IH|]. destruct (negb (memcmp _ _ _ =? 0)); [by apply IH|]. by apply goes_refl.
Qed.

(** The same for calls that answer a context. *)
Definition keeps ctx w ctx' w' : Prop := w_fd ctx' = w_fd ctx ∧ goes (w_fd ctx) w w'.
Lemma keeps_refl ctx w : on (w_fd ctx) w → keeps ctx w ctx w.
Proof. intros. split; [done|by apply goes_refl]. Qed.
Lemma keeps_on ctx w ctx' w' : keeps ctx w ctx' w' → on (w_fd ctx') w'.
Proof. by intros [-> [_ ?]]. Qed.
Lemma ctx_keeps_trans ctx w ctx1 w1 ctx2 w2 : keeps ctx w ctx1 w1 → (on (w_fd ctx1) w1 → keeps ctx1 w1 ctx2 w2) → keeps ctx w ctx2 w2.
Proof.
  intros [Hf H1] H2. unfold keeps in H2. rewrite Hf in H2. destruct (H2 (proj2 H1)) as [Hf2 H2']. split; [congruence|]. by eapply goes_trans.
Qed.

Lemma write_block_loop_goes n ctx data pos w :
  on (w_fd ctx) w → post (write_block_loop n ctx data pos w) (λ '(_, ctx', w'), keeps ctx w ctx' w').
Proof.
  revert ctx pos w. induction n as [|n IH]; intros ctx pos w Ho; cbn [write_block_loop]; [apply post_diverge|].
  apply post_any. intros end_. destruct (_ <=? _); [|by apply post_ret, keeps_refl].
  destruct (0 <? _); [by apply (IH (add_bad_block_offset ctx pos))|].
  pose proof (write_retry_goes 2 (w_fd ctx) pos data (s32 (erase_size (w_partition ctx))) w Ho) as Hw.
  destruct (write_retry _ _ _ _ _ _) as [ok w1]. simpl in Hw. destruct ok; [by apply post_ret|].
  pose proof (conf_erase _ _ _ Hconf (w_fd ctx) pos (s32 (erase_size (w_partition ctx))) w1 (proj2 Hw)) as He.
  destruct (MEMERASE _ _ _ w1) as [r w2]. simpl in He.
  eapply post_mono; [apply (IH (add_bad_block_offset ctx pos) _ w2 (proj2 He))|]. intros [[r' ctx'] w'] [Hf Hg].
  split; [done|]. eapply goes_trans; [exact Hw|]. intros _. by eapply goes_trans.
Qed.
Lemma write_block_goes ctx data w :
  on (w_fd ctx) w → post (write_block fuel ctx data w) (λ '(_, ctx', w'), keeps ctx w ctx' w').
Proof.
  intros Ho. unfold write_block. pose proof (conf_seek _ _ _ Hconf (w_fd ctx) None w Ho) as Hs.
  destruct (dev_seek _ _ w) as [pos w1]. simpl in Hs. destruct (pos =? -1); [by apply post_ret|].
  eapply post_mono; [by apply write_block_loop_goes, Hs|]. intros [[r ctx'] w'] [Hf Hg]. split; [done|]. by eapply goes_trans.
Qed.

(** A block is written, and then the buffer is empty. *)
Lemma coalesce_fd ctx data wrote len : post (coalesce ctx data wrote len) (λ '(ctx', _), w_fd ctx' = w_fd ctx).
Proof.
  unfold coalesce. destruct (_ || _); [|by apply post_ret]. apply post_any. intros bytes. apply post_any. intros buffer. by apply post_ret.
Qed.
Lemma flush_full_goes ctx w : on (w_fd ctx) w → post (flush_full fuel ctx w) (λ '(_, ctx', w'), keeps ctx w ctx' w').
Proof.
  intros Ho. unfold flush_full. destruct (_ =? _); [|by apply post_ret, keeps_refl].
  eapply post_bind; [by apply write_block_goes|]. intros [[r ctx'] w'] Hk. destruct (negb _); by apply post_ret.
Qed.
Lemma write_direct_goes n ctx data wrote len w :
  on (w_fd ctx) w → post (write_direct fuel n ctx data wrote len w) (λ '(_, ctx', _, w'), keeps ctx w ctx' w').
Proof.
  revert ctx wrote w. induction n as [|n IH]; intros ctx wrote w Ho; cbn [write_direct]; [apply post_diverge|].
  destruct (_ && _); [|by apply post_ret, keeps_refl]. apply post_any. intros b.
  eapply post_bind; [by apply write_block_goes|]. intros [[r ctx1] w1] Hk. destruct (negb _); [by apply post_ret|].
  eapply post_mono; [apply IH; by eapply keeps_on|]. intros [[[f ctx2] wr2] w2] Hk2. by eapply ctx_keeps_trans.
Qed.
Lemma mtd_write_loop_goes n ctx data wrote len w :
  on (w_fd ctx) w → post (mtd_write_loop fuel n ctx data wrote len w) (λ '(_, ctx', w'), keeps ctx w ctx' w').
Proof.
  revert ctx wrote w. induction n as [|n IH]; intros ctx wrote w Ho; cbn [mtd_write_loop]; [apply post_diverge|].
  destruct (_ <? _); [|by apply post_ret, keeps_refl].
  eapply post_bind; [apply coalesce_fd|]. intros [ctx0 wrote0] Hf0.
  eapply post_bind; [apply flush_full_goes; by rewrite Hf0|]. intros [[failed ctx1] w1] Hk1. unfold keeps in Hk1; rewrite Hf0 in Hk1; fold (keeps ctx w ctx1 w1) in Hk1.
  destruct failed; [by apply post_ret|].
  eapply post_bind; [apply write_direct_goes; by eapply keeps_on|]. intros [[[failed ctx2] wrote2] w2] Hk2.
  assert (Hk : keeps ctx w ctx2 w2) by by eapply ctx_keeps_trans.
  destruct failed; [by apply post_ret|].
  eapply post_mono; [apply IH; by eapply keeps_on|]. intros [[r ctx3] w3] Hk3. by eapply ctx_keeps_trans.
Qed.
Lemma mtd_write_data_goes ctx data len w :
  on (w_fd ctx) w → post (mtd_write_data fuel ctx data len w) (λ '(_, ctx', w'), keeps ctx w ctx' w').
Proof. apply mtd_write_loop_goes. Qed.

Lemma erase_loop_goes n ctx pos w : on (w_fd ctx) w → goes (w_fd ctx) w (erase_loop n ctx pos w).2.
Proof.
  revert pos w. induction n as [|n IH]; intros pos w Ho; cbn [erase_loop]; [by apply goes_refl|].
  destruct (0 <? _); [by apply IH|].
  pose proof (conf_erase _ _ _ Hconf (w_fd ctx) pos (erase_size (w_partition ctx)) w Ho) as He.
  destruct (MEMERASE _ _ _ w) as [r w1]. simpl in He. by eapply goes_trans; [|apply IH].
Qed.
Lemma flush_padded_goes ctx w : on (w_fd ctx) w → post (flush_padded fuel ctx w) (λ '(_, ctx', w'), keeps ctx w ctx' w').
Proof.
  intros Ho. unfold flush_padded. destruct (0 <? _); [|by apply post_ret, keeps_refl].
  apply post_any. intros buffer. eapply post_bind; [by apply write_block_goes|]. intros [[r ctx'] w'] Hk. destruct (negb _); by apply post_ret.
Qed.
Lemma mtd_erase_blocks_goes ctx blocks w :
  on (w_fd ctx) w → post (mtd_erase_blocks fuel ctx blocks w) (λ '(_, ctx', w'), keeps ctx w ctx' w').
Proof.
  intros Ho. unfold mtd_erase_blocks. eapply post_bind; [by apply flush_padded_goes|]. intros [[failed ctx1] w1] Hk1.
  destruct failed; [by apply post_ret|].
  pose proof (conf_seek _ _ _ Hconf (w_fd ctx1) None w1) as Hs. destruct (dev_seek _ _ w1) as [pos w2]. simpl in Hs.
  assert (Hk2 : keeps ctx w ctx1 w2) by (eapply ctx_keeps_trans; [exact Hk1|by split; [|apply Hs]]). clear Hk1 Hs.
  destruct (pos =? -1); [by apply post_ret|]. destruct (_ =? 0); [apply post_fault|]. destruct (_ <? _); [by apply post_ret|].
  match goal with |- context [erase_loop ?n ctx1 pos w2] => pose proof (erase_loop_goes n ctx1 pos w2) as He; destruct (erase_loop n ctx1 pos w2) as [pos3 w3] end.
  apply post_ret. eapply ctx_keeps_trans; [exact Hk2|]. by split; [|apply He].
Qed.
Lemma mtd_write_close_goes ctx w : on (w_fd ctx) w → post (mtd_write_close fuel ctx w) (λ '(_, w'), R w w').
Proof.
  intros Ho. unfold mtd_write_close. eapply post_bind; [by apply mtd_erase_blocks_goes|]. intros [[e ctx1] w1] [Hf [HR Ho1]].
  rewrite Hf. pose proof (conf_close _ _ _ Hconf (w_fd ctx) w1 Ho1) as Hc. destruct (dev_close _ w1) as [c w2]. simpl in Hc.
  apply post_ret. by etrans.
Qed.
Lemma mtd_write_partition_goes w :
  let '(o, w') := mtd_write_partition alloc_ok part w in R w w' ∧ ∀ ctx, o = Some ctx → on (w_fd ctx) w'.
Proof.
  unfold mtd_write_partition. destruct (negb _); [done|]. destruct (negb _); [done|].
  pose proof (conf_open _ _ _ Hconf true w) as Ho. destruct (dev_open _ _ w) as [fd w1]. destruct Ho as [HR Ho].
  destruct (Z.ltb_spec fd 0); [done|]. split; [done|]. intros ctx [= <-]. by apply Ho.
Qed.
End frame.
