(* ===== verification/Flashtools.v ===== *)
(** * Flashtools

    mtdutils/flash_image.c, dump_image.c and erase_image.c: the tools that write a file to a
    flash partition, read a partition to a file, and erase one. *)
From S2P Require Import Prelude CString Syscalls Mtdutils Mtdflash.

(** ** The tools *)

(** The files of images. One that is read does not change meanwhile: [image_read path pos n] is
    a count, negative for an error, and what was read at [pos]; [image_rewinds path pos] says that
    [lseek] to [pos] succeeds. *)
Class ImageOS (W : Type) := {
  image_opens : list Z → W → bool;
  image_read : list Z → Z → Z → W → Z * list Z;
  image_rewinds : list Z → Z → W → bool;
  (** a file to write to, or standard output for the name - *)
  image_create : list Z → W → bool * W;
  image_write : list Z → W → Z * W;
  image_close : W → Z * W;
  image_unlink : list Z → W → W
}.

Definition HEADER_SIZE : Z := 2048.
Definition BLOCK_SIZE : Z := 2048.

Section code.
Context {W : Type} `{MtdDriver W} `{ImageOS W} (alloc_ok : Z → bool) (fuel : nat).
Implicit Types (w : W) (partition : MtdPartition).

(** The partition of a name; [None] if the table cannot be read or has no such name. *)
Definition the_partition (name : list Z) w : outcome (option MtdPartition) :=
  '(n, g) ← mtd_scan_partitions alloc_ok g_mtd_state w;
  mret (if n <=? 0 then None else mtd_find_partition_by_name g name).

(** *** flash_image

    [die] ends with status 1. *)

(** The header is in the partition already. *)
Definition same_header partition (header : list Z) (headerlen : Z) w : outcome (bool * W) :=
  '(in_, w) ← mtd_read_partition alloc_ok partition w;
  match in_ with
  | None => mret (false, w)
  | Some in_ =>
      '(checklen, in_, check, w) ← mtd_read_data fuel in_ (replicate (Z.to_nat HEADER_SIZE) 0) HEADER_SIZE w;
      if negb (checklen <=? 0) && (checklen =? headerlen) && (memcmp header check headerlen =? 0) then mret (true, w)
      else mret (false, mtd_read_close in_ w)
  end.

(** The file from [pos] on goes to the writer. *)
Fixpoint copy_rest (n : nat) (file : list Z) (pos : Z) (out : MtdWriteContext) w : outcome (bool * MtdWriteContext * W) :=
  match n with
  | O => Diverge
  | S n =>
      let '(len, buf) := image_read file pos HEADER_SIZE w in
      if 0 <? len then
        '(wrote, out, w) ← mtd_write_data fuel out buf len w;
        if negb (wrote =? len) then mret (false, out, w) else copy_rest n file (pos + len) out w
      else mret (0 <=? len, out, w)
  end.
(** Everything, with zeros for the header. *)
Definition write_without_header partition (file : list Z) (headerlen : Z) w : outcome (bool * W) :=
  let '(out, w) := mtd_write_partition alloc_ok partition w in
  match out with
  | None => mret (false, w)
  | Some out =>
      '(wrote, out, w) ← mtd_write_data fuel out (replicate (Z.to_nat headerlen) 0) headerlen w;
      if negb (wrote =? headerlen) then mret (false, w)
      else
        '(ok, out, w) ← copy_rest fuel file headerlen out w;
        if negb ok then mret (false, w)
        else '(r, w) ← mtd_write_close fuel out w; mret (r =? 0, w)
  end.

(** The bytes that complete the block of the header. *)
Fixpoint fill_left (n : nat) (left block_size : Z) : outcome Z :=
  match n with
  | O => Diverge
  | S n => if left <? 0 then fill_left n (s32 (u32 left + block_size)) block_size else mret left
  end.
Fixpoint copy_left (n : nat) (file : list Z) (pos left : Z) (out : MtdWriteContext) w : outcome (bool * MtdWriteContext * W) :=
  match n with
  | O => Diverge
  | S n =>
      if 0 <? left then
        let '(len, buf) := image_read file pos (if HEADER_SIZE <? left then HEADER_SIZE else left) w in
        if len <=? 0 then mret (false, out, w)
        else
          '(wrote, out, w) ← mtd_write_data fuel out buf len w;
          if negb (wrote =? len) then mret (false, out, w) else copy_left n file (pos + len) (left - len) out w
      else mret (true, out, w)
  end.
Definition write_header partition (file header : list Z) (headerlen : Z) w : outcome (bool * W) :=
  let '(out, w) := mtd_write_partition alloc_ok partition w in
  match out with
  | None => mret (false, w)
  | Some out =>
      '(wrote, out, w) ← mtd_write_data fuel out header headerlen w;
      if negb (wrote =? headerlen) then mret (false, w)
      else
        let '(info, w) := mtd_partition_info partition w in
        match info with
        | None => mret (false, w)
        | Some (_, block_size, _) =>
            if negb (image_rewinds file headerlen w) then mret (false, w)
            else
              left ← fill_left fuel (s32 (u32 (block_size - headerlen))) block_size;
              '(ok, out, w) ← copy_left fuel file headerlen left out w;
              if negb ok then mret (false, w)
              else '(r, w) ← mtd_write_close fuel out w; mret (r =? 0, w)
        end
  end.

Definition flash_image partition (file : list Z) w : outcome (Z * W) :=
  if negb (image_opens file w) then mret (1, w)
  else
    let '(headerlen, header) := image_read file 0 HEADER_SIZE w in
    if headerlen <=? 0 then mret (1, w)
    else
      '(same, w) ← same_header partition header headerlen w;
      if same : bool then mret (0, w)
      else
        '(ok, w) ← write_without_header partition file headerlen w;
        if negb ok then mret (1, w)
        else '(ok, w) ← write_header partition file header headerlen w; mret (if ok : bool then 0 else 1, w).
Definition flash_image_main (argv : list (list Z)) w : outcome (Z * W) :=
  match argv with
  | [_; name; file] =>
      partition ← the_partition name w;
      match partition with None => mret (1, w) | Some partition => flash_image partition file w end
  | _ => mret (2, w)
  end.

(** *** dump_image *)
Fixpoint dump_loop (n : nat) (in_ : MtdReadContext) (buf : list Z) w : outcome (bool * MtdReadContext * W) :=
  match n with
  | O => Diverge
  | S n =>
      '(len, in_, buf, w) ← mtd_read_data fuel in_ buf BLOCK_SIZE w;
      if 0 <? len then
        let '(wrote, w) := image_write (take (Z.to_nat len) buf) w in
        if negb (wrote =? len) then mret (false, in_, w) else dump_loop n in_ buf w
      else mret (true, in_, w)
  end.
Definition dump_image partition (file : list Z) w : outcome (Z * W) :=
  let '(info, w) := mtd_partition_info partition w in
  match info with
  | None => mret (1, w)
  | Some _ =>
      let '(opened, w) := image_create file w in
      if negb opened then mret (1, w)
      else
        '(in_, w) ← mtd_read_partition alloc_ok partition w;
        match in_ with
        | None => let '(_, w) := image_close w in mret (1, image_unlink file w)
        | Some in_ =>
            '(ok, in_, w) ← dump_loop fuel in_ (replicate (Z.to_nat (BLOCK_SIZE + 64)) 0) w;
            if negb ok then let '(_, w) := image_close w in mret (1, image_unlink file w)
            else
              let '(r, w) := image_close (mtd_read_close in_ w) in
              if negb (r =? 0) then mret (1, image_unlink file w) else mret (0, w)
        end
  end.
Definition dump_image_main (argv : list (list Z)) w : outcome (Z * W) :=
  match argv with
  | [_; name; file] =>
      partition ← the_partition name w;
      match partition with None => mret (1, w) | Some partition => dump_image partition file w end
  | _ => mret (2, w)
  end.

(** *** erase_image

    The writer is not closed. *)
Definition erase_image partition w : outcome (Z * W) :=
  let '(out, w) := mtd_write_partition alloc_ok partition w in
  match out with
  | None => mret (3, w)
  | Some out => '(erased, _, w) ← mtd_erase_blocks fuel out (-1) w; mret (if erased =? 0 then 3 else 0, w)
  end.
Definition erase_image_main (argv : list (list Z)) w : outcome (Z * W) :=
  match argv with
  | [_; name] =>
      partition ← the_partition name w;
      match partition with None => mret (3, w) | Some partition => erase_image partition w end
  | _ => mret (2, w)
  end.
End code.

(** ** Flashing *)

(** Besides what [MtdWritable] says: opening and closing succeed, and leave the offsets of the other
    descriptors alone; the driver tells the size and the erase size of the partition. *)
Class MtdSteady {W : Type} `{MtdDriver W} (p : MtdPartition) `{!MtdLaws p} := {
  write_opens w : 0 ≤ (dev_open (mtd_dev p) true w).1;
  close_succeeds fd w : (dev_close fd w).1 = 0;
  open_keeps fd o w : offset w fd = Some o → 0 ≤ (dev_open (mtd_dev p) false w).1 →
    (dev_open (mtd_dev p) false w).1 ≠ fd ∧ offset (dev_open (mtd_dev p) false w).2 fd = Some o;
  close_keeps fd fd' o w : offset w fd = Some o → fd' ≠ fd → offset (dev_close fd' w).2 fd = Some o;
  info_known fd w : ∃ writesize, MEMGETINFO fd w = Some (p_size p, erase_size p, writesize)
}.

Section flashing.
Context {W : Type} `{MtdDriver W} `{ImageOS W} (p : MtdPartition) `{!MtdLaws p} `{!MtdReadable p} `{!MtdWritable p} `{!MtdSteady p}.
Context (alloc_ok : Z → bool) (fuel : nat).
Implicit Types (w : W) (ctx : MtdWriteContext) (c : list Z).
Abbreviation es := (erase_size p).
Context (Hes : 0 < es) (Hsize : 0 ≤ p_size p) (Hsmall : p_size p + es < 2 ^ 31).
Context (Hfuel : (Z.to_nat (p_size p) < fuel)%nat) (Hfuel2 : (4100 < fuel)%nat).
Context (Halloc : ∀ n, alloc_ok n = true).

Definition bad_only (k : Z) : Prop := factory_bad k = true.
(** The good blocks below [n], and what fits into all of them. *)
Definition good (n : Z) : list Z := filter (λ k, factory_bad k = false) (seqZ 0 n).
Definition capacity : Z := zlen (good (nblocks p)) * es.

Lemma only_bad_fail fd k data w o : offset w fd = Some o → 0 ≤ k → (k + 1) * es ≤ p_size p → zlen data = es →
  factory_bad k = false → (write_retry 2 fd (k * es) data es w).1 = false → bad_only k.
Proof. intros Ho Hk Hin Hd Hg Hfail. by rewrite (good_not_skipped p fd k data w o) in Hfail. Qed.

Lemma spent_capacity size : spent p bad_only size → capacity ≤ size.
Proof.
  intros [(fd & w & o & Ho & Hne)|(bad & n & Hn & <- & Hbad & Hrest)]; [by destruct Hne; apply tell_succeeds|].
  unfold capacity. apply Z.mul_le_mono_nonneg_r; [lia|]. apply Nat2Z.inj_le, submseteq_length, NoDup_submseteq.
  { apply NoDup_filter, NoDup_seqZ. }
  intros k [Hg Hk%elem_of_seqZ]%list_elem_of_filter.
  assert (Hin : (k + 1) * es ≤ p_size p) by (apply (nblocks_bound p fuel Hes Hfuel); lia).
  apply list_elem_of_filter. split.
  - intros Hb%Hbad. unfold bad_only in Hb. congruence.
  - apply elem_of_seqZ. destruct (decide (k < n)); [lia|]. assert (bad_only k) as Hb by (apply Hrest; lia). unfold bad_only in Hb. congruence.
Qed.
Lemma enough data : zlen data ≤ capacity → ¬ too_much p bad_only data.
Proof. intros Hle (size & Hs%spent_capacity & Hover). lia. Qed.

Abbreviation Wr := (writing p bad_only).
Lemma write_all ctx written data w :
  (length data < fuel)%nat → zlen data < 2 ^ 31 → Wr ctx written w → zlen (written ++ data) ≤ capacity →
  ∃ ctx' w', mtd_write_data fuel ctx data (zlen data) w = Ret (zlen data, ctx', w') ∧ Wr ctx' (written ++ data) w' ∧ goes_on p ctx w ctx' w'.
Proof.
  intros Hf Hlen Hwr Hcap.
  destruct (wp_Ret_inv _ _ (mtd_write_data_spec p alloc_ok fuel bad_only ltac:(done) only_bad_fail Hes Hsize Hsmall Hfuel ctx written data w Hf Hlen Hwr))
    as ([[r ctx'] w'] & Hrun & [[_ Hmuch]|(-> & Hwr' & Hon)]); [by destruct (enough _ Hcap)|eauto].
Qed.

Lemma open_writer w : ∃ ctx w', mtd_write_partition alloc_ok p w = (Some ctx, w') ∧ Wr ctx [] w' ∧
  offset w' (w_fd ctx) = Some 0 ∧ (∀ k, block w' k = block w k).
Proof.
  destruct (mtd_write_partition alloc_ok p w) as [[ctx|] w'] eqn:Hrun.
  - exists ctx, w'. split; [done|]. split; [by eapply mtd_write_partition_spec|].
    revert Hrun. unfold mtd_write_partition. rewrite !Halloc. simpl. pose proof (open_ok true w) as Ho.
    destruct (dev_open (mtd_dev p) true w) as [fd w1]. destruct (Z.ltb_spec fd 0); [done|]. intros [= <- <-]. by apply Ho.
  - revert Hrun. unfold mtd_write_partition. rewrite !Halloc. simpl. pose proof (write_opens w) as Hfd.
    destruct (dev_open (mtd_dev p) true w) as [fd w1]. simpl in Hfd. by destruct (Z.ltb_spec fd 0); [lia|].
Qed.

(** Closing succeeds; if nothing is pending, it changes nothing. *)
Lemma close_result ctx written w : Wr ctx written w → zlen written ≤ capacity →
  wp (mtd_write_close fuel ctx w) (λ '(r, w'), r = 0 ∧ (stored ctx = 0 → ∀ k, block w' k = block w k)).
Proof.
  intros Hwr Hcap. unfold mtd_write_close, mtd_erase_blocks. apply wp_bind, wp_bind.
  assert (Hsame : wp (flush_padded fuel ctx w) (λ '(_, ctx', w'), stored ctx = 0 → ctx' = ctx ∧ w' = w)).
  { destruct (wp_Ret_inv _ _ (flush_padded_spec p alloc_ok fuel bad_only ltac:(done) only_bad_fail Hes Hsize Hsmall Hfuel ctx written w Hwr)) as (x & Hx & _).
    rewrite Hx. destruct x as [[failed ctx'] w']. simpl. intros Hst. revert Hx. unfold flush_padded. rewrite Hst. simpl. by intros [= _ <- <-]. }
  pose proof (flush_padded_spec p alloc_ok fuel bad_only ltac:(done) only_bad_fail Hes Hsize Hsmall Hfuel ctx written w Hwr) as Hflush.
  destruct (flush_padded fuel ctx w) as [[[failed ctx1] w1]| |]; [|done..]. simpl in Hsame, Hflush |- *.
  destruct failed. { destruct Hflush as (size & Hs%spent_capacity & Hlt). lia. }
  destruct Hflush as (_ & pad & _ & (n & Hn & Hns & Ho & Hp & _)).
  pose proof (seek_cur_ok (w_fd ctx1) _ w1 Ho) as Hs. pose proof (tell_succeeds (w_fd ctx1) _ w1 Ho) as Ht.
  destruct (dev_seek (w_fd ctx1) None w1) as [pos w2]. simpl in Ht. subst pos. destruct Hs as (_ & _ & Hb2).
  destruct (Z.eqb_spec (n * es) (-1)); [nia|]. rewrite Hp. destruct (Z.eqb_spec es 0); [lia|].
  change (if 0 <? 0 then _ else 0) with 0. cbn [Z.to_nat erase_loop].
  assert (Htotal : 0 ≤ s32 (u32 (p_size p - n * es) / es)).
  { assert (0 ≤ (p_size p - n * es) / es ≤ p_size p - n * es).
    { split; [apply Z.div_pos; lia|apply Z.div_le_upper_bound; nia]. }
    rewrite u32_small, s32_small by lia. lia. }
  destruct (Z.ltb_spec (s32 (u32 (p_size p - n * es) / es)) 0); [lia|]. simpl.
  pose proof (close_succeeds (w_fd ctx1) w2) as Hc. pose proof (close_ok (w_fd ctx1) w2) as Hb3.
  destruct (dev_close (w_fd ctx1) w2) as [r w3]. simpl in Hc, Hb3. subst r. simpl.
  destruct (Z.eqb_spec (n * es) (-1)); [lia|]. split; [done|]. intros Hst k. destruct (Hsame Hst) as [_ ->]. by rewrite Hb3, Hb2.
Qed.
Lemma close_flushes ctx written w : Wr ctx written w → zlen written ≤ capacity →
  ∃ w', mtd_write_close fuel ctx w = Ret (0, w') ∧ (stored ctx = 0 → ∀ k, block w' k = block w k) ∧
    ∃ bad pad, Z.of_nat pad < es ∧ (∀ k, k * es ∈ bad → bad_only k) ∧ on_flash p bad (written ++ replicate pad 0) w'.
Proof.
  intros Hwr Hcap. destruct (wp_Ret_inv _ _ (close_result ctx written w Hwr Hcap)) as ([r w'] & Hrun & -> & Hsame).
  pose proof (mtd_write_close_flushes p alloc_ok fuel bad_only ltac:(done) only_bad_fail Hes Hsize Hsmall Hfuel ctx written w Hwr) as Hf.
  rewrite Hrun in Hf. exists w'. split; [done|]. split; [done|]. by apply Hf.
Qed.

(** *** What is on the device

    The good blocks from the first one on hold the data, and zeros up to the end of a block. *)
Definition image_on (data : list Z) w : Prop :=
  ∃ n pad, 0 ≤ n ∧ n * es ≤ p_size p ∧ Z.of_nat pad < es ∧ good n ≫= block w = data ++ replicate pad 0.

Lemma used_good bad n w : (∀ k, k * es ∈ bad → bad_only k) → (∀ k, k ∈ used p bad n → factory_bad k = false) → used p bad n = good n.
Proof.
  intros Hbad Hgood. apply filter_iff_in. intros k Hk. split.
  - intros Hin. apply Hgood, list_elem_of_filter. done.
  - intros Hg Hin%Hbad. unfold bad_only in Hin. congruence.
Qed.
Lemma flash_good bad data pad w : (∀ k, k * es ∈ bad → bad_only k) → Z.of_nat pad < es →
  on_flash p bad (data ++ replicate pad 0) w → image_on data w.
Proof.
  intros Hbad Hpad (n & Hn & Hns & Hgood & Hc). exists n, pad. do 3 (split; [done|]).
  rewrite <- Hc. unfold content. by rewrite (used_good bad n w).
Qed.
Lemma good_flash data w : image_on data w → ∃ bad pad, (∀ k, k * es ∈ bad → bad_only k) ∧ Z.of_nat pad < es ∧
  on_flash p bad (data ++ replicate pad 0) w.
Proof.
  intros (n & pad & Hn & Hns & Hpad & Hc).
  assert (Hbad : ∀ k, k * es ∈ (λ j, j * es) <$> filter (λ k, factory_bad k = true) (seqZ 0 n) → bad_only k).
  { intros k (j & Hj & [Hb _]%list_elem_of_filter)%list_elem_of_fmap. assert (k = j) as -> by nia. done. }
  exists ((λ j, j * es) <$> filter (λ k, factory_bad k = true) (seqZ 0 n)), pad. split; [done|]. split; [done|]. exists n. do 2 (split; [done|]).
  assert (Hused : ∀ k, k ∈ used p ((λ j, j * es) <$> filter (λ k, factory_bad k = true) (seqZ 0 n)) n → factory_bad k = false).
  { intros k [Hnot Hin]%list_elem_of_filter. destruct (factory_bad k) eqn:Hb; [|done]. destruct Hnot.
    apply list_elem_of_fmap. exists k. split; [done|]. by apply list_elem_of_filter. }
  split; [done|]. unfold content. by rewrite (used_good _ n w).
Qed.
Lemma image_readable data w : image_on data w → no_zero_block p data →
  ∃ rest, readable_blocks p 0 w ≫= block w = data ++ rest.
Proof.
  intros (bad & pad & Hbad & Hpad & Hon)%good_flash Hnz.
  destruct (on_flash_visible p bad data pad w Hes Hsize Hon Hpad Hnz Hbad) as [rest Hrest]. rewrite Hrest. eauto.
Qed.
Lemma good_split n m : 0 ≤ n ≤ m → good m = good n ++ filter (λ k, factory_bad k = false) (seqZ n (m - n)).
Proof.
  intros Hnm. unfold good. replace m with (n + (m - n)) at 1 by lia. rewrite seqZ_app, filter_app by lia. done.
Qed.

(** The first [T] bytes, whole blocks, are written anew. *)
Lemma rewrite_start data start n2 w w' :
  image_on data w → 0 ≤ n2 → n2 * es ≤ p_size p → good n2 ≫= block w' = start → (∀ j, n2 ≤ j → block w' j = block w j) →
  zlen start ≤ zlen data → image_on (start ++ drop (length start) data) w'.
Proof.
  intros (n1 & pad & Hn1 & Hns1 & Hpad & Hc) Hn2 Hns2 Hstart Hsame Hle.
  assert (Hlen1 : zlen (good n1) * es = zlen (data ++ replicate pad 0)) by (rewrite <- Hc; symmetry; apply blocks_length).
  assert (Hlen2 : zlen (good n2) * es = zlen start) by (rewrite <- Hstart; symmetry; apply blocks_length).
  destruct (decide (n1 ≤ n2)) as [Hnn|Hnn].
  - exists n2, O. do 2 (split; [done|]). split; [lia|]. rewrite Hstart, (good_split n1 n2) in * by lia.
    rewrite length_app in Hlen2. rewrite length_app, length_replicate in Hlen1.
    assert (zlen start = zlen data) as Heq by nia. rewrite drop_ge by lia. by rewrite !app_nil_r.
  - exists n1, pad. do 3 (split; [done|]). rewrite (good_split n2 n1) in * by lia. rewrite bind_app in *. rewrite Hstart, <- app_assoc. f_equal.
    assert (Hrest : filter (λ k, factory_bad k = false) (seqZ n2 (n1 - n2)) ≫= block w' =
      filter (λ k, factory_bad k = false) (seqZ n2 (n1 - n2)) ≫= block w).
    { apply Forall_bind_ext, Forall_forall. intros j [_ Hj%elem_of_seqZ]%list_elem_of_filter. apply Hsame. lia. }
    rewrite Hrest. rewrite <- (drop_app_le data) by lia. rewrite <- Hc, drop_app_length'; [done|].
    pose proof (blocks_length p (good n2) w). lia.
Qed.

(** *** The two passes *)
Definition holds_file (file c : list Z) : Prop :=
  (∀ pos n w, 0 ≤ pos → 0 ≤ n → image_read file pos n w =
    (zlen (take (Z.to_nat n) (drop (Z.to_nat pos) c)), take (Z.to_nat n) (drop (Z.to_nat pos) c))) ∧
  ∀ pos w, image_rewinds file pos w = true.

Context (file c : list Z) (Hfile : holds_file file c) (Hfits : zlen c ≤ capacity) (Hlong : (length c < fuel)%nat).

Lemma capacity_small : capacity ≤ p_size p.
Proof.
  pose proof (Z.mul_div_le (p_size p) es Hes). unfold capacity, good, nblocks. assert (0 ≤ p_size p / es) by (apply Z.div_pos; lia).
  transitivity (p_size p / es * es); [|lia]. apply Z.mul_le_mono_nonneg_r; [lia|].
  transitivity (zlen (seqZ 0 (p_size p / es))); [apply Nat2Z.inj_le, length_filter|]. rewrite length_seqZ. lia.
Qed.

Lemma copy_rest_spec n pos out pre w :
  (Z.to_nat (zlen c - pos) < n)%nat → 0 ≤ pos ≤ zlen c → Wr out pre w → zlen pre = pos →
  ∃ out' w', copy_rest fuel n file pos out w = Ret (true, out', w') ∧ Wr out' (pre ++ drop (Z.to_nat pos) c) w'.
Proof.
  pose proof capacity_small as Hcap.
  revert pos out pre w. induction n as [|n IH]; intros pos out pre w Hn Hpos Hwr Hpre; [lia|]. cbn [copy_rest].
  rewrite (proj1 Hfile) by (unfold HEADER_SIZE; lia). set (buf := take _ _).
  assert (Hbuf : zlen buf = Z.min HEADER_SIZE (zlen c - pos)) by (subst buf; rewrite length_take, length_drop; unfold HEADER_SIZE; lia).
  destruct (Z.ltb_spec 0 (zlen buf)) as [Hlt|Hge].
  - destruct (write_all out pre buf w) as (out1 & w1 & Hrun & Hwr1 & _).
    { unfold HEADER_SIZE in Hbuf. lia. } { unfold HEADER_SIZE in Hbuf. lia. } { done. }
    { rewrite length_app. lia. }
    rewrite Hrun. simpl. rewrite Z.eqb_refl. cbn [negb].
    destruct (IH (pos + zlen buf) out1 (pre ++ buf) w1) as (out2 & w2 & Hrun2 & Hwr2); [lia|lia|done|rewrite length_app; lia|].
    exists out2, w2. split; [done|]. rewrite <- app_assoc in Hwr2.
    replace (drop (Z.to_nat pos) c) with (buf ++ drop (Z.to_nat (pos + zlen buf)) c); [done|].
    rewrite Z2Nat.inj_add, Nat2Z.id by lia. rewrite <- drop_drop.
    rewrite <- (take_drop (length buf) (drop (Z.to_nat pos) c)) at 2. f_equal. subst buf. rewrite length_take.
    destruct (decide (Z.to_nat HEADER_SIZE ≤ length (drop (Z.to_nat pos) c))%nat); [by rewrite Nat.min_l by lia|].
    rewrite Nat.min_r by lia. rewrite !take_ge by lia. done.
  - rewrite (proj2 (Z.leb_le 0 (zlen buf))) by lia. exists out, w. split; [done|].
    rewrite drop_ge by (unfold HEADER_SIZE in Hbuf; lia). by rewrite app_nil_r.
Qed.

Abbreviation headerlen := (Z.min HEADER_SIZE (zlen c)).
Lemma first_pass w :
  ∃ w', write_without_header alloc_ok fuel p file headerlen w = Ret (true, w') ∧
    image_on (replicate (Z.to_nat headerlen) 0 ++ drop (Z.to_nat headerlen) c) w'.
Proof.
  pose proof capacity_small as Hcap.
  unfold write_without_header. destruct (open_writer w) as (out & w1 & -> & Hwr1 & _ & _).
  set (zeros := replicate _ 0). assert (Hz : zlen zeros = headerlen) by (subst zeros; rewrite length_replicate; unfold HEADER_SIZE; lia).
  destruct (write_all out [] zeros w1) as (out2 & w2 & Hrun & Hwr2 & _); [unfold HEADER_SIZE in Hz; lia..|done|simpl; lia|].
  rewrite Hz in Hrun. rewrite Hrun.
  simpl. rewrite Z.eqb_refl. cbn [negb].
  destruct (copy_rest_spec fuel headerlen out2 zeros w2) as (out3 & w3 & -> & Hwr3); [lia|unfold HEADER_SIZE; lia|done|done|].
  simpl. assert (Hlen : zlen (zeros ++ drop (Z.to_nat headerlen) c) = zlen c).
  { rewrite length_app, length_drop. unfold HEADER_SIZE in *. lia. }
  destruct (close_flushes out3 _ w3 Hwr3 ltac:(lia)) as (w4 & -> & _ & bad & pad & Hpad & Hbad & Hon). simpl.
  exists w4. split; [done|]. by eapply flash_good.
Qed.

(** The blocks that the header is in. *)
Definition start_size : Z := (headerlen + es - 1) / es * es.
Lemma start_size_bound : 0 < zlen c → headerlen ≤ start_size < headerlen + es.
Proof.
  intros Hc. unfold start_size. pose proof (Z.mul_div_le (headerlen + es - 1) es Hes).
  pose proof (Z.mul_succ_div_gt (headerlen + es - 1) es Hes). split; nia.
Qed.
Lemma fill_left_spec n left k : 0 ≤ k → left + k * es = start_size - headerlen → - 2048 ≤ left < es → (Z.to_nat k < n)%nat → 0 < zlen c →
  fill_left n left es = Ret (start_size - headerlen).
Proof.
  intros Hk Heq Hleft Hn Hc. pose proof (start_size_bound Hc) as Hb. revert left k Hk Heq Hleft Hn.
  induction n as [|n IH]; intros left k Hk Heq Hleft Hn; [lia|]. cbn [fill_left]. destruct (Z.ltb_spec left 0) as [Hneg|Hpos].
  - assert (1 ≤ k) by nia. assert (Hs : s32 (u32 left + es) = left + es).
    { rewrite <- (s32_small (left + es)) by lia. unfold s32, u32.
      rewrite <- !(Z.add_assoc _ es), Zplus_mod_idemp_l. done. }
    rewrite Hs. apply (IH (left + es) (k - 1)); lia.
  - assert (k = 0) as -> by nia. f_equal. lia.
Qed.

Lemma copy_left_spec n left pos out pre w :
  (Z.to_nat left < n)%nat → 0 ≤ left → 0 ≤ pos → pos + left ≤ zlen c → Wr out pre w → zlen pre = pos →
  ∃ out' w', copy_left fuel n file pos left out w = Ret (true, out', w') ∧
    Wr out' (pre ++ take (Z.to_nat left) (drop (Z.to_nat pos) c)) w' ∧ goes_on p out w out' w'.
Proof.
  pose proof capacity_small as Hcap.
  revert left pos out pre w. induction n as [|n IH]; intros left pos out pre w Hn Hleft Hpos Hin Hwr Hpre; [lia|]. cbn [copy_left].
  destruct (Z.ltb_spec 0 left) as [Hlt|Hge]; cycle 1.
  { exists out, w. split; [done|]. replace (Z.to_nat left) with O by lia. rewrite take_0, app_nil_r. split; [done|by apply goes_on_refl]. }
  set (k := if HEADER_SIZE <? left then HEADER_SIZE else left).
  assert (Hk : 0 < k ≤ left ∧ k ≤ 2048) by (subst k; unfold HEADER_SIZE; destruct (Z.ltb_spec 2048 left); lia). clearbody k.
  rewrite (proj1 Hfile) by lia. set (buf := take (Z.to_nat k) _).
  assert (Hbuf : zlen buf = k) by (subst buf; rewrite length_take, length_drop; lia).
  rewrite (proj2 (Z.leb_gt (zlen buf) 0)) by lia.
  destruct (write_all out pre buf w) as (out1 & w1 & Hrun & Hwr1 & Hon1); [lia..|done|rewrite length_app; lia|].
  rewrite Hrun. simpl. rewrite Z.eqb_refl. cbn [negb].
  destruct (IH (left - zlen buf) (pos + zlen buf) out1 (pre ++ buf) w1) as (out2 & w2 & Hrun2 & Hwr2 & Hon2); [lia..|done|rewrite length_app; lia|].
  exists out2, w2. split; [done|]. split; [|by eapply goes_on_trans].
  rewrite <- app_assoc in Hwr2. replace (take (Z.to_nat left) (drop (Z.to_nat pos) c)) with
    (buf ++ take (Z.to_nat (left - zlen buf)) (drop (Z.to_nat (pos + zlen buf)) c)); [done|].
  subst buf. rewrite Hbuf, Z2Nat.inj_add, <- drop_drop, take_take_drop by lia. f_equal. lia.
Qed.

Lemma info_spec w : ∃ writesize, ∃ w', mtd_partition_info p w = (Some (p_size p, es, writesize), w') ∧
  (∀ k, block w' k = block w k) ∧ ∀ fd o, offset w fd = Some o → offset w' fd = Some o.
Proof.
  unfold mtd_partition_info. pose proof (open_ok false w) as Hopen. pose proof (read_opens w) as Hfd.
  pose proof (λ fd o Ho, open_keeps fd o w Ho Hfd) as Hkeep.
  destruct (dev_open (mtd_dev p) false w) as [fd w1]. simpl in Hfd, Hkeep. destruct (Z.ltb_spec fd 0) as [Hneg|_]; [by apply Z.lt_nge in Hneg|].
  destruct (Hopen Hfd) as [_ Hb]. destruct (info_known fd w1) as [ws Hws]. rewrite Hws. exists ws.
  pose proof (close_ok fd w1) as Hc. pose proof (λ fd' o Ho Hne, close_keeps fd' fd o w1 Ho Hne) as Hck.
  destruct (dev_close fd w1) as [r w2]. simpl in Hc, Hck. exists w2. split; [done|]. split; [intros k; by rewrite Hc, Hb|].
  intros fd' o Ho. destruct (Hkeep fd' o Ho) as [Hne Ho']. by apply Hck.
Qed.
Lemma writing_kept ctx written w w' :
  Wr ctx written w → (∀ k, block w' k = block w k) → (∀ fd o, offset w fd = Some o → offset w' fd = Some o) → Wr ctx written w'.
Proof.
  intros [(done & (n & Hn & Hns & Ho & Hp & Hbuf & Hb & Hbo & Hg & Hc) & Hst & Heq) Hlt] Hsame Hoff. split; [|done].
  exists done. split; [|done]. exists n. do 2 (split; [done|]). split; [by apply Hoff|]. do 5 (split; [done|]).
  rewrite <- Hc. apply list_bind_ext; [done|done].
Qed.

(** The header and the rest of its block replace what the first pass has written. *)
Lemma second_pass w data :
  0 < zlen c → start_size ≤ zlen c → image_on data w → zlen data = zlen c →
  ∃ w', write_header alloc_ok fuel p file (take (Z.to_nat headerlen) c) headerlen w = Ret (true, w') ∧
    image_on (take (Z.to_nat start_size) c ++ drop (Z.to_nat start_size) data) w'.
Proof.
  intros Hc Hstart Hdata Hlen. pose proof capacity_small as Hcap. pose proof (start_size_bound Hc) as Hb.
  unfold write_header. destruct (open_writer w) as (out & w1 & -> & Hwr1 & Ho1 & Hb1).
  set (header := take _ c). assert (Hh : zlen header = headerlen) by (subst header; rewrite length_take; unfold HEADER_SIZE in *; lia).
  destruct (write_all out [] header w1) as (out2 & w2 & Hrun & Hwr2 & Hon2); [unfold HEADER_SIZE in Hh; lia..|done|simpl; lia|].
  rewrite Hh in Hrun. rewrite Hrun. simpl. rewrite Z.eqb_refl. cbn [negb]. simpl in Hwr2.
  destruct (info_spec w2) as (ws & w3 & -> & Hb3 & Ho3). rewrite (proj2 Hfile). cbn [negb].
  assert (Hleft0 : s32 (u32 (es - headerlen)) = es - headerlen).
  { transitivity (s32 (es - headerlen)); [unfold s32, u32; by rewrite Zplus_mod_idemp_l|]. apply s32_small. unfold HEADER_SIZE. lia. }
  rewrite Hleft0. assert (Hk : start_size - headerlen - (es - headerlen) = ((headerlen + es - 1) / es - 1) * es) by (unfold start_size; lia).
  assert (Hk1 : 1 ≤ (headerlen + es - 1) / es) by (apply Z.div_le_lower_bound; unfold HEADER_SIZE; lia).
  assert (Hk2 : (headerlen + es - 1) / es ≤ headerlen) by (apply Z.div_le_upper_bound; unfold HEADER_SIZE in *; nia).
  rewrite (fill_left_spec fuel (es - headerlen) ((headerlen + es - 1) / es - 1)); [|lia|lia|unfold HEADER_SIZE; lia|unfold HEADER_SIZE in *; lia|done].
  simpl. assert (Hwr3 : Wr out2 header w3) by by eapply writing_kept.
  destruct (copy_left_spec fuel (start_size - headerlen) headerlen out2 header w3) as (out4 & w4 & -> & Hwr4 & Hon4); [lia|lia|unfold HEADER_SIZE; lia|lia|done|done|].
  simpl. set (start := take (Z.to_nat start_size) c).
  assert (Hst : header ++ take (Z.to_nat (start_size - headerlen)) (drop (Z.to_nat headerlen) c) = start).
  { subst header start. rewrite take_take_drop. f_equal. unfold HEADER_SIZE in *. lia. }
  rewrite Hst in Hwr4. assert (Hsl : zlen start = start_size) by (subst start; rewrite length_take; lia).
  destruct (close_flushes out4 start w4 Hwr4 ltac:(lia)) as (w5 & -> & Hsame & _). simpl. exists w5. split; [done|].
  destruct Hwr4 as [(done & Hholds & Hstored & Heq) Hlt]. pose proof Hholds as (n & Hn & Hns & Ho & _ & Hbuf & _ & Hbads & Hgood & Hcont).
  assert (Hdl : zlen done = zlen (used p (bad_block_offsets out4) n) * es) by (rewrite <- Hcont; apply blocks_length).
  assert (Hz : stored out4 = 0).
  { assert (Ht : zlen done + stored out4 = start_size). { rewrite <- Hsl, <- Heq, length_app, length_take. lia. }
    unfold start_size in Ht. rewrite Hdl in Ht. clear - Ht Hstored Hlt Hes. generalize dependent (zlen (used p (bad_block_offsets out4) n)).
    generalize ((headerlen + es - 1) / es). intros q u Ht.
    assert (Heq : stored out4 = (q - u) * es) by (rewrite Z.mul_sub_distr_r; lia). clear Ht. generalize dependent (q - u). intros d Heq.
    assert (d < 1 ∧ - 1 < d) as [? ?] by (split; apply (Z.mul_lt_mono_pos_r es); lia). assert (d = 0) as -> by lia. lia. }
  rewrite Hz in Heq. simpl in Heq. rewrite app_nil_r in Heq.
  assert (Hfront : good n ≫= block w5 = start).
  { rewrite <- Heq, <- Hcont. unfold content. rewrite (used_good _ n w4 Hbads Hgood). apply list_bind_ext; [|done]. intros k. by apply Hsame. }
  replace (Z.to_nat start_size) with (length start) by lia.
  apply (rewrite_start data start n w); [done|done|done|done| |lia].
  intros j Hj. rewrite Hsame by done.
  assert (Hon : goes_on p out w1 out4 w4).
  { eapply goes_on_trans; [exact Hon2|]. intros m Hm. destruct (Hon4 m (Ho3 _ _ Hm)) as (m' & Hm' & Hom & Hbm).
    exists m'. split; [done|]. split; [done|]. intros i Hi. by rewrite Hbm, Hb3. }
  destruct (Hon 0 Ho1) as (m & Hm & Hom & Hbm). assert (m = n) as -> by (rewrite Ho in Hom; injection Hom; nia).
  by rewrite Hbm, Hb1.
Qed.

(** *** The tool *)
Abbreviation stream w := (readable_blocks p 0 w ≫= block w).
(** The partition starts with the header of the file. *)
Definition header_on w : Prop :=
  HEADER_SIZE ≤ zlen c ∧ take (Z.to_nat HEADER_SIZE) (stream w) = take (Z.to_nat HEADER_SIZE) c.
Lemma header_check w :
  0 < zlen c →
  ∃ same w', same_header alloc_ok fuel p (take (Z.to_nat HEADER_SIZE) c) headerlen w = Ret (same, w') ∧ (same = true ↔ header_on w).
Proof.
  intros Hc. unfold same_header, header_on.
  destruct (mtd_read_partition_spec p alloc_ok fuel Hes Hfuel w (Halloc _) (Halloc _)) as (rctx & w1 & -> & Hr). cbn [mbind outcome_bind].
  set (buf := replicate (Z.to_nat HEADER_SIZE) 0). assert (Hb : zlen buf = HEADER_SIZE) by (subst buf; rewrite length_replicate; unfold HEADER_SIZE; lia).
  pose proof (mtd_read_data_spec p fuel Hes Hsize Hsmall Hfuel rctx _ buf HEADER_SIZE w1 ltac:(unfold HEADER_SIZE; lia)
    ltac:(unfold HEADER_SIZE; lia) ltac:(lia) Hr) as Hread.
  destruct (wp_Ret_inv _ _ Hread) as ([[[r rctx'] d'] w2] & -> & Hres). cbn [mbind outcome_bind].
  destruct (Z.leb_spec HEADER_SIZE (zlen (stream w))) as [Hle|Hgt].
  - destruct Hres as (-> & -> & _). rewrite drop_ge, app_nil_r by (unfold HEADER_SIZE in *; lia).
    rewrite (proj2 (Z.leb_gt HEADER_SIZE 0)) by (unfold HEADER_SIZE; lia). cbn [negb andb].
    destruct (Z.eqb_spec HEADER_SIZE headerlen) as [Heq|]; [|eexists false, _; split; [done|]; split; [done|lia]]. cbn [andb].
    assert (Hlen : zlen (take (Z.to_nat HEADER_SIZE) c) = headerlen) by (rewrite length_take; unfold HEADER_SIZE in *; lia).
    assert (Hm := memcmp_0 (take (Z.to_nat HEADER_SIZE) c) (take (Z.to_nat HEADER_SIZE) (stream w))
      ltac:(rewrite !length_take; unfold HEADER_SIZE in *; lia)). rewrite Hlen in Hm.
    destruct (Z.eqb_spec (memcmp (take (Z.to_nat HEADER_SIZE) c) (take (Z.to_nat HEADER_SIZE) (stream w)) headerlen) 0) as [H0'|Hno].
    + exists true, w2. split; [done|]. split; [|done]. intros _. split; [lia|]. symmetry. by apply Hm.
    + eexists false, _. split; [done|]. split; [done|]. intros [_ Heq']. by destruct Hno; apply Hm.
  - subst r. eexists false, _. split; [done|]. split; [done|]. intros [Hle Heq]. apply (f_equal length) in Heq.
    rewrite !length_take in Heq. lia.
Qed.

Context (Hopens : ∀ w, image_opens file w = true).
Lemma flash_image_run w :
  0 < zlen c →
  (header_on w ∧ ∃ w', flash_image alloc_ok fuel p file w = Ret (0, w')) ∨
  ¬ header_on w ∧ ∃ w1, image_on (replicate (Z.to_nat headerlen) 0 ++ drop (Z.to_nat headerlen) c) w1 ∧
    flash_image alloc_ok fuel p file w =
      ('(ok, w) ← write_header alloc_ok fuel p file (take (Z.to_nat headerlen) c) headerlen w1; mret (if ok : bool then 0 else 1, w)).
Proof.
  intros Hc. unfold flash_image. rewrite Hopens. cbn [negb]. rewrite (proj1 Hfile) by (unfold HEADER_SIZE; lia).
  change (Z.to_nat 0) with O. rewrite drop_0.
  assert (Hlen : zlen (take (Z.to_nat HEADER_SIZE) c) = headerlen) by (rewrite length_take; unfold HEADER_SIZE; lia).
  rewrite Hlen. rewrite (proj2 (Z.leb_gt headerlen 0)) by (unfold HEADER_SIZE; lia).
  destruct (header_check w Hc) as (same & w1 & -> & Hsame). simpl. destruct same; [left; split; [by apply Hsame|by exists w1]|].
  right. split; [by intros Hon; apply Hsame in Hon|]. destruct (first_pass w1) as (w2 & -> & Hon). exists w2. split; [done|]. simpl.
  replace (take (Z.to_nat HEADER_SIZE) c) with (take (Z.to_nat headerlen) c); [done|].
  destruct (decide (HEADER_SIZE ≤ zlen c)); [by rewrite Z.min_l by done|]. rewrite Z.min_r by lia. unfold HEADER_SIZE in *. rewrite !take_ge by lia. done.
Qed.

Lemma flash_image_done w :
  start_size ≤ zlen c → 0 < zlen c → ¬ header_on w →
  ∃ w', flash_image alloc_ok fuel p file w = Ret (0, w') ∧ image_on c w'.
Proof.
  intros Hstart Hc Hnew. destruct (flash_image_run w Hc) as [[Hsame _]|(_ & w1 & Hon & Hrun)]; [by destruct Hnew|].
  pose proof (start_size_bound Hc) as Hb. set (zeros := replicate (Z.to_nat headerlen) 0) in Hon.
  assert (Hz : zlen zeros = headerlen) by (subst zeros; rewrite length_replicate; unfold HEADER_SIZE; lia).
  destruct (second_pass w1 _ Hc Hstart Hon) as (w' & Hrun2 & Hon2).
  { rewrite length_app, length_drop. unfold HEADER_SIZE in *. lia. }
  exists w'. rewrite Hrun, Hrun2. split; [done|]. rewrite drop_app_ge, drop_drop in Hon2 by lia.
  replace (Z.to_nat headerlen + (Z.to_nat start_size - length zeros))%nat with (Z.to_nat start_size) in Hon2 by lia.
  by rewrite take_drop in Hon2.
Qed.

(** Less than a block is only collected. *)
Lemma collects ctx written data w :
  Wr ctx written w → stored ctx + zlen data < es → (length data < fuel)%nat → zlen written + zlen data ≤ capacity → 0 < zlen data →
  ∃ ctx', mtd_write_data fuel ctx data (zlen data) w = Ret (zlen data, ctx', w) ∧ stored ctx' = stored ctx + zlen data ∧ Wr ctx' (written ++ data) w.
Proof.
  intros Hwr Hlt Hf Hcap Hpos. pose proof capacity_small as Hcs.
  destruct (write_all ctx written data w Hf ltac:(lia) Hwr ltac:(rewrite length_app; lia)) as (ctx' & w' & Hrun & Hwr' & _).
  assert (w' = w ∧ stored ctx' = stored ctx + zlen data) as [-> Hst]; [|by exists ctx'].
  destruct Hwr as [(done & (n & _ & _ & _ & Hp & Hbuf & _) & Hst & _) _].
  unfold mtd_write_data in Hrun. destruct fuel as [|f] eqn:Hff; [lia|]. cbn [mtd_write_loop] in Hrun.
  rewrite (proj2 (Z.ltb_lt 0 (zlen data))) in Hrun by done. unfold coalesce in Hrun. rewrite Hp, Z.sub_0_r in Hrun.
  rewrite (proj2 (Z.ltb_lt (zlen data) es)), orb_true_r in Hrun by lia.
  rewrite (proj2 (Z.ltb_lt (zlen data) (es - stored ctx))) in Hrun by lia.
  rewrite rd_n_in_bounds in Hrun by lia. cbn [mbind outcome_bind] in Hrun.
  rewrite wr_n_in_bounds in Hrun by (rewrite ?length_take, ?length_drop; lia). cbn [mbind outcome_bind mret outcome_ret] in Hrun.
  unfold flush_full in Hrun. cbn [set_buffer stored w_partition] in Hrun. rewrite Hp in Hrun.
  rewrite (proj2 (Z.eqb_neq (stored ctx + zlen data) es)) in Hrun by lia. cbn [mbind outcome_bind mret outcome_ret write_direct] in Hrun.
  cbn [set_buffer stored w_partition] in Hrun. rewrite Hp in Hrun.
  rewrite (proj2 (Z.leb_gt es (zlen data - (0 + zlen data)))), andb_false_r in Hrun by lia. cbn [mbind outcome_bind mret outcome_ret] in Hrun.
  destruct f as [|f]; [lia|]. cbn [mtd_write_loop] in Hrun. rewrite (proj2 (Z.ltb_ge (0 + zlen data) (zlen data))) in Hrun by lia.
  injection Hrun as _ <- <-. done.
Qed.

Lemma copy_left_short n left pos out pre w :
  (Z.to_nat (zlen c - pos) < n)%nat → 0 ≤ pos ≤ zlen c → zlen c < pos + left → zlen c < es → Wr out pre w → zlen pre = pos → stored out = pos →
  ∃ out', copy_left fuel n file pos left out w = Ret (false, out', w).
Proof.
  revert left pos out pre. induction n as [|n IH]; intros left pos out pre Hn Hpos Hleft Hshort Hwr Hpre Hst; [lia|]. cbn [copy_left].
  rewrite (proj2 (Z.ltb_lt 0 left)) by lia. set (k := if HEADER_SIZE <? left then HEADER_SIZE else left).
  assert (Hk : 0 < k ≤ left ∧ k ≤ 2048) by (subst k; unfold HEADER_SIZE; destruct (Z.ltb_spec 2048 left); lia). clearbody k.
  rewrite (proj1 Hfile) by lia. set (buf := take (Z.to_nat k) _).
  assert (Hbuf : zlen buf = Z.min k (zlen c - pos)) by (subst buf; rewrite length_take, length_drop; lia).
  destruct (Z.leb_spec (zlen buf) 0); [by exists out|].
  destruct (collects out pre buf w) as (out1 & Hrun & Hst1 & Hwr1); [done|lia..|].
  rewrite Hrun. simpl. rewrite Z.eqb_refl. cbn [negb].
  eapply (IH (left - zlen buf) (pos + zlen buf) out1 (pre ++ buf)); [lia..|done|rewrite length_app; lia|lia].
Qed.
Lemma image_same data w w' : image_on data w → (∀ k, block w' k = block w k) → image_on data w'.
Proof.
  intros (n & pad & ? & ? & ? & Hc) Hb. exists n, pad. do 3 (split; [done|]). rewrite <- Hc. by apply list_bind_ext.
Qed.
Lemma write_header_short w :
  0 < zlen c < es → ∃ w', write_header alloc_ok fuel p file (take (Z.to_nat headerlen) c) headerlen w = Ret (false, w') ∧ ∀ k, block w' k = block w k.
Proof.
  intros Hc. unfold write_header. destruct (open_writer w) as (out & w1 & -> & Hwr1 & _ & Hb1).
  set (header := take _ c). assert (Hh : zlen header = headerlen) by (subst header; rewrite length_take; unfold HEADER_SIZE in *; lia).
  assert (Hst : stored out = 0).
  { destruct Hwr1 as [(done & (n & _ & _ & _ & _ & Hbuf & _) & Hs0 & Heq) Hlt].
    apply (f_equal length) in Heq. rewrite length_app, length_take in Heq. simpl in Heq. lia. }
  destruct (collects out [] header w1) as (out2 & Hrun & Hst2 & Hwr2); [done|unfold HEADER_SIZE in Hh; lia..|simpl; lia|unfold HEADER_SIZE in Hh; lia|].
  rewrite Hh in Hrun. rewrite Hrun. simpl. rewrite Z.eqb_refl. cbn [negb]. simpl in Hwr2.
  destruct (info_spec w1) as (ws & w3 & -> & Hb3 & Ho3). rewrite (proj2 Hfile). cbn [negb].
  assert (Hleft0 : s32 (u32 (es - headerlen)) = es - headerlen).
  { transitivity (s32 (es - headerlen)); [unfold s32, u32; by rewrite Zplus_mod_idemp_l|]. apply s32_small. unfold HEADER_SIZE. lia. }
  assert (Hfill : fill_left fuel (es - headerlen) es = Ret (es - headerlen)).
  { clear - Hfuel2 Hc. destruct fuel as [|f]; [lia|]. cbn [fill_left]. by rewrite (proj2 (Z.ltb_ge (es - headerlen) 0)) by (unfold HEADER_SIZE; lia). }
  rewrite Hleft0, Hfill. cbn [mbind outcome_bind mret outcome_ret].
  destruct (copy_left_short fuel (es - headerlen) headerlen out2 header w3) as [out4 Hrun4];
    [lia|unfold HEADER_SIZE; lia|lia|lia|by eapply writing_kept|done|lia|].
  rewrite Hrun4. simpl. exists w3. split; [done|]. intros k. by rewrite Hb3, Hb1.
Qed.
Lemma flash_image_short_run w :
  0 < zlen c < es → ¬ header_on w →
  ∃ w', flash_image alloc_ok fuel p file w = Ret (1, w') ∧
    image_on (replicate (Z.to_nat headerlen) 0 ++ drop (Z.to_nat headerlen) c) w'.
Proof.
  intros Hc Hnew. destruct (flash_image_run w ltac:(lia)) as [[Hsame _]|(_ & w1 & Hon & Hrun)]; [by destruct Hnew|].
  destruct (write_header_short w1 Hc) as (w2 & Hw2 & Hb). exists w2. rewrite Hrun, Hw2. split; [done|]. by eapply image_same.
Qed.
End flashing.

(** ** Dumping *)

(** The file that is written grows by what is written; the device and the file do not disturb each
    other. *)
Class ImageLaws {W : Type} `{MtdDriver W} `{ImageOS W} (p : MtdPartition) `{!MtdLaws p} := {
  dumped : W → list Z;
  create_ok f w : let '(ok, w') := image_create f w in
    ok = true ∧ dumped w' = [] ∧ (∀ k, block w' k = block w k) ∧ ∀ fd o, offset w fd = Some o → offset w' fd = Some o;
  image_write_ok data w : let '(r, w') := image_write data w in
    r = zlen data ∧ dumped w' = dumped w ++ data ∧ (∀ k, block w' k = block w k) ∧ ∀ fd o, offset w fd = Some o → offset w' fd = Some o;
  image_close_ok w : (image_close w).1 = 0 ∧ dumped (image_close w).2 = dumped w;
  open_dumped path rw w : dumped (dev_open path rw w).2 = dumped w;
  seek_dumped fd q w : dumped (dev_seek fd q w).2 = dumped w;
  read_dumped fd n w : dumped (dev_read fd n w).2 = dumped w;
  dev_close_dumped fd w : dumped (dev_close fd w).2 = dumped w
}.

Section dumping.
Context {W : Type} `{MtdDriver W} `{ImageOS W} (p : MtdPartition) `{!MtdLaws p} `{!MtdReadable p} `{!MtdSteady p} `{!ImageLaws p}.
Context (alloc_ok : Z → bool) (fuel : nat).
Implicit Types (w : W).
Abbreviation es := (erase_size p).
Context (Hes : 0 < es) (Hsize : 0 ≤ p_size p) (Hsmall : p_size p + es < 2 ^ 31).
Context (Hfuel : (Z.to_nat (p_size p) < fuel)%nat) (Hfuel2 : (4100 < fuel)%nat).
Context (Halloc : ∀ n, alloc_ok n = true).
Abbreviation stream w := (readable_blocks p 0 w ≫= block w).

(** Reading leaves the file alone. *)
Definition keeps_dumped {A} (get : A → W) w (o : outcome A) : Prop := match o with Ret a => dumped (get a) = dumped w | _ => True end.

Lemma read_block_loop_dumped n q fd data at_ before pos w :
  keeps_dumped snd w (read_block_loop n q fd data at_ before pos w).
Proof.
  revert data pos w. induction n as [|n IH]; intros data pos w; [done|]. cbn [read_block_loop].
  destruct (_ <=? _); [|done]. pose proof (seek_dumped fd (Some pos) w) as Hs. destruct (dev_seek fd (Some pos) w) as [r w1]. simpl in Hs.
  assert (Hnext : ∀ data w2, dumped w2 = dumped w → keeps_dumped snd w (read_block_loop n q fd data at_ before (pos + erase_size q) w2)).
  { intros data2 w2 H2. specialize (IH data2 (pos + erase_size q) w2). unfold keeps_dumped in *. destruct (read_block_loop _ _ _ _ _ _ _ _); congruence || done. }
  destruct (r =? pos); cbn [negb mret outcome_ret mbind outcome_bind]; [|by apply Hnext].
  pose proof (read_dumped fd (s32 (erase_size q)) w1) as Hr. destruct (dev_read fd _ w1) as [[got bytes] w2]. simpl in Hr.
  destruct (wr_n data at_ bytes) as [data1| |]; [|done..]. cbn [mret outcome_ret mbind outcome_bind].
  destruct (got =? _); cbn [negb]; [|apply Hnext; congruence].
  destruct (ECCGETSTATS fd w2); [|simpl; congruence]. destruct (_ =? before); cbn [negb]; [|apply Hnext; congruence].
  destruct (MEMGETBADBLOCK fd pos w2 =? 0); cbn [negb]; [|apply Hnext; congruence].
  destruct (rd_n data1 at_ _) as [b| |]; [|done..]. cbn [mret outcome_ret mbind outcome_bind].
  destruct (existsb _ b); [simpl; congruence|apply Hnext; congruence].
Qed.
Lemma read_block_dumped q fd data at_ w : keeps_dumped snd w (read_block fuel q fd data at_ w).
Proof.
  unfold read_block. destruct (ECCGETSTATS fd w); [|done]. pose proof (seek_dumped fd None w) as Hs. destruct (dev_seek fd None w) as [pos w1].
  simpl in Hs. pose proof (read_block_loop_dumped fuel q fd data at_ z pos w1) as Hl. unfold keeps_dumped in *.
  destruct (read_block_loop _ _ _ _ _ _ _ _); [congruence|done..].
Qed.
Lemma read_direct_dumped n ctx data read len w : keeps_dumped snd w (read_direct fuel n ctx data read len w).
Proof.
  revert data read w. induction n as [|n IH]; intros data read w; [done|]. cbn [read_direct]. destruct (_ && _); [|done].
  pose proof (read_block_dumped (r_partition ctx) (r_fd ctx) data read w) as Hb. destruct (read_block _ _ _ _ _ _) as [[[r data1] w1]| |]; [|done..].
  cbn [mbind outcome_bind] in *. simpl in Hb. destruct (negb (r =? 0)); [simpl; congruence|].
  specialize (IH data1 (read + erase_size (r_partition ctx)) w1). unfold keeps_dumped in *. destruct (read_direct _ _ _ _ _ _ _); congruence || done.
Qed.
Lemma mtd_read_loop_dumped n ctx data read len w : keeps_dumped snd w (mtd_read_loop fuel n ctx data read len w).
Proof.
  revert ctx data read w. induction n as [|n IH]; intros ctx data read w; [done|]. cbn [mtd_read_loop]. destruct (_ <? _); [|done].
  destruct (read_buffered ctx data read len) as [[[ctx1 data1] read1]| |]; [|done..]. cbn [mbind outcome_bind].
  pose proof (read_direct_dumped fuel ctx1 data1 read1 len w) as Hd. destruct (read_direct _ _ _ _ _ _ _) as [[[[failed data2] read2] w2]| |]; [|done..].
  cbn [mbind outcome_bind] in *. simpl in Hd. destruct failed; [done|]. destruct (_ <=? _); [done|].
  assert (Hnext : ∀ ctx data read w3, dumped w3 = dumped w → keeps_dumped snd w (mtd_read_loop fuel n ctx data read len w3)).
  { intros ctx3 data3 read3 w3 H3. specialize (IH ctx3 data3 read3 w3). unfold keeps_dumped in *. destruct (mtd_read_loop _ _ _ _ _ _ _); congruence || done. }
  destruct (_ && _); [|by apply Hnext]. pose proof (read_block_dumped (r_partition ctx1) (r_fd ctx1) (r_buffer ctx1) 0 w2) as Hb.
  destruct (read_block _ _ _ _ _ _) as [[[r buffer] w3]| |]; [|done..]. cbn [mbind outcome_bind]. simpl in Hb.
  destruct (negb (r =? 0)); [simpl; congruence|apply Hnext; congruence].
Qed.

Lemma dump_loop_spec n ctx s buf w :
  (length s < n)%nat → zlen buf = BLOCK_SIZE + 64 → reading p ctx s w →
  ∃ ctx' w', dump_loop fuel n ctx buf w = Ret (true, ctx', w') ∧
    dumped w' = dumped w ++ take (Z.to_nat (zlen s / BLOCK_SIZE * BLOCK_SIZE)) s.
Proof.
  revert ctx s buf w. induction n as [|n IH]; intros ctx s buf w Hn Hbuf Hr; [lia|]. cbn [dump_loop].
  pose proof (mtd_read_data_spec p fuel Hes Hsize Hsmall Hfuel ctx s buf BLOCK_SIZE w ltac:(unfold BLOCK_SIZE; lia) ltac:(unfold BLOCK_SIZE; lia) ltac:(lia) Hr) as Hread.
  pose proof (mtd_read_loop_dumped fuel ctx buf 0 BLOCK_SIZE w) as Hkeep. fold (mtd_read_data fuel ctx buf BLOCK_SIZE w) in Hkeep.
  destruct (wp_Ret_inv _ _ Hread) as ([[[r ctx1] d1] w1] & Hrun & Hres). rewrite Hrun in Hkeep |- *. cbn [mbind outcome_bind]. simpl in Hkeep.
  destruct (Z.leb_spec BLOCK_SIZE (zlen s)) as [Hle|Hgt].
  - destruct Hres as (-> & -> & Hr1). rewrite (proj2 (Z.ltb_lt 0 BLOCK_SIZE)) by done.
    rewrite take_app_length' by (rewrite length_take; unfold BLOCK_SIZE in *; lia).
    pose proof (image_write_ok (take (Z.to_nat BLOCK_SIZE) s) w1) as Hw. destruct (image_write _ w1) as [wrote w2]. destruct Hw as (-> & Hd2 & Hb2 & Ho2).
    assert (Hlen : zlen (take (Z.to_nat BLOCK_SIZE) s) = BLOCK_SIZE) by (rewrite length_take; unfold BLOCK_SIZE in *; lia).
    rewrite Hlen, Z.eqb_refl. cbn [negb].
    destruct (IH ctx1 (drop (Z.to_nat BLOCK_SIZE) s) (take (Z.to_nat BLOCK_SIZE) s ++ drop (Z.to_nat BLOCK_SIZE) buf) w2) as (ctx3 & w3 & Hrun3 & Hd3).
    + rewrite length_drop. unfold BLOCK_SIZE in *. lia.
    + rewrite length_app, length_drop. lia.
    + destruct Hr1 as (k & Hk & Hok & Hp & Hrb & Hcons & Hs). exists k. split; [done|]. split; [by apply Ho2|]. do 3 (split; [done|]).
      rewrite <- Hs, (visible_same p k w1 w2 Hb2). f_equal. by apply list_bind_ext.
    + exists ctx3, w3. split; [done|]. rewrite Hd3, Hd2, Hkeep, <- app_assoc. f_equal. rewrite length_drop.
      replace (Z.of_nat (length s - Z.to_nat BLOCK_SIZE)) with (zlen s + -1 * BLOCK_SIZE) by (unfold BLOCK_SIZE in *; lia).
      rewrite Z.div_add by done. rewrite take_take_drop. f_equal.
      assert (1 ≤ zlen s / BLOCK_SIZE) by (apply Z.div_le_lower_bound; [done|lia]). unfold BLOCK_SIZE in *. lia.
  - subst r. rewrite (proj2 (Z.ltb_ge 0 (-1))) by lia. exists ctx1, w1. split; [done|].
    rewrite Z.div_small by lia. simpl. by rewrite app_nil_r.
Qed.

Lemma stream_length w : zlen (stream w) ≤ p_size p.
Proof.
  rewrite (blocks_length p). unfold readable_blocks. pose proof (Z.mul_div_le (p_size p) es Hes).
  assert (0 ≤ nblocks p) by (unfold nblocks; apply Z.div_pos; lia).
  transitivity (nblocks p * es); [|unfold nblocks; lia]. apply Z.mul_le_mono_nonneg_r; [lia|].
  transitivity (zlen (seqZ 0 (nblocks p - 0))); [apply Nat2Z.inj_le, length_filter|]. rewrite length_seqZ. lia.
Qed.
Lemma dump_image_run file w :
  ∃ w', dump_image alloc_ok fuel p file w = Ret (0, w') ∧
    dumped w' = take (Z.to_nat (zlen (stream w) / BLOCK_SIZE * BLOCK_SIZE)) (stream w).
Proof.
  unfold dump_image. destruct (info_spec p w) as (ws & w1 & -> & Hb1 & _).
  pose proof (create_ok file w1) as Hc. destruct (image_create file w1) as [ok w2]. destruct Hc as (-> & Hd2 & Hb2 & _). cbn [negb].
  destruct (mtd_read_partition_spec p alloc_ok fuel Hes Hfuel w2 (Halloc _) (Halloc _)) as (ctx & w3 & Hrun & Hr).
  assert (Hd3 : dumped w3 = dumped w2).
  { revert Hrun. unfold mtd_read_partition. rewrite !Halloc. simpl. pose proof (open_dumped (mtd_dev p) false w2) as Ho.
    destruct (dev_open _ _ w2) as [fd w4]. simpl in Ho. destruct (fd <? 0); [done|]. by intros [= _ <-]. }
  rewrite Hrun. cbn [mbind outcome_bind].
  assert (Hstream : stream w2 = stream w).
  { rewrite (visible_same p 0 w1 w2 Hb2), (visible_same p 0 w w1 Hb1). apply list_bind_ext; [|done]. intros k. by rewrite Hb2, Hb1. }
  rewrite Hstream in Hr. pose proof (stream_length w) as Hlen.
  destruct (dump_loop_spec fuel ctx (stream w) (replicate (Z.to_nat (BLOCK_SIZE + 64)) 0) w3 ltac:(lia) ltac:(by rewrite length_replicate) Hr)
    as (ctx4 & w4 & -> & Hd4). cbn [mbind outcome_bind negb].
  unfold mtd_read_close. pose proof (dev_close_dumped (r_fd ctx4) w4) as Hd5. destruct (dev_close (r_fd ctx4) w4) as [r5 w5]. simpl in Hd5 |- *.
  destruct (image_close_ok w5) as [Hr6 Hd6]. destruct (image_close w5) as [r6 w6]. simpl in Hr6, Hd6. subst r6. simpl.
  exists w6. split; [done|]. by rewrite Hd6, Hd5, Hd4, Hd3, Hd2.
Qed.

(** All of it, if blocks are multiples of what is read at once. *)
Lemma dump_image_all file w :
  (BLOCK_SIZE | es) → ∃ w', dump_image alloc_ok fuel p file w = Ret (0, w') ∧ dumped w' = stream w.
Proof.
  intros [q Hq]. destruct (dump_image_run file w) as (w' & Hrun & Hd). exists w'. split; [done|]. rewrite Hd.
  pose proof (blocks_length p (readable_blocks p 0 w) w) as Hlen. rewrite Hq, Z.mul_assoc in Hlen.
  rewrite Hlen, Z.div_mul by done. apply take_ge. lia.
Qed.
End dumping.

(** ** The tools are correct *)
Section tools.
Context {W : Type} `{MtdDriver W} `{ImageOS W} (p : MtdPartition) `{!MtdLaws p} `{!MtdReadable p} `{!MtdWritable p} `{!MtdSteady p}.
Context (alloc_ok : Z → bool) (fuel : nat).
Implicit Types (w : W).
Abbreviation es := (erase_size p).

Lemma start_size_block c : HEADER_SIZE ≤ es → 0 < zlen c → start_size p c = es.
Proof.
  intros Hes Hc. unfold start_size, HEADER_SIZE in *. set (h := Z.min 2048 (zlen c)). assert (0 < h ≤ es) by lia. clearbody h.
  replace (h + es - 1) with (1 * es + (h - 1)) by lia. rewrite Z.div_add_l, Z.div_small by lia. lia.
Qed.

(** What a driver and a file system must be for the tools to do their work: a partition with erase
    blocks that hold a header, and an image that fits into its good blocks. *)
Record flashable (file c : list Z) : Prop := {
  fl_erase : HEADER_SIZE ≤ es;
  fl_size : 0 ≤ p_size p;
  fl_small : p_size p + es < 2 ^ 31;
  fl_fuel : (Z.to_nat (p_size p) < fuel)%nat;
  fl_fuel2 : (4100 < fuel)%nat;
  fl_long : (length c < fuel)%nat;
  fl_alloc n : alloc_ok n = true;
  fl_opens w : image_opens file w = true;
  fl_file : holds_file file c;
  fl_fits : 0 < zlen c ≤ capacity p
}.

(** C22: flash_image, on a device whose good blocks can be written and read, with erase blocks of at
    least 2048 bytes, and an image that fits: if the partition starts with the header of the image,
    the tool ends with 0. If not, an image of at least a block is in the good blocks afterwards, in
    order and padded with zeros, and the status is 0; of an image shorter than a block, all but
    the header is there, zeros are in place of the header, and the status is 1. *)
Theorem flash_image_result file c w :
  flashable file c →
  ∃ r w', flash_image alloc_ok fuel p file w = Ret (r, w') ∧
    (header_on p c w → r = 0) ∧
    (¬ header_on p c w → es ≤ zlen c → r = 0 ∧ image_on p c w') ∧
    (¬ header_on p c w → zlen c < es → r = 1 ∧
      image_on p (replicate (Z.to_nat (Z.min HEADER_SIZE (zlen c))) 0 ++ drop (Z.to_nat (Z.min HEADER_SIZE (zlen c))) c) w').
Proof.
  intros [Hes Hsize Hsmall Hfuel Hfuel2 Hlong Halloc Hopens Hfile Hc]. assert (0 < es) by (unfold HEADER_SIZE in Hes; lia).
  destruct (decide (header_on p c w)) as [Hon|Hno].
  - destruct (flash_image_run p alloc_ok fuel ltac:(done) Hsize Hsmall Hfuel Hfuel2 Halloc file c Hfile (proj2 Hc) Hlong Hopens w (proj1 Hc))
      as [(_ & w' & Hrun)|[Hno _]]; [|done]. exists 0, w'. split; [done|]. split; [done|]. by split.
  - destruct (decide (es ≤ zlen c)).
    + destruct (flash_image_done p alloc_ok fuel ltac:(done) Hsize Hsmall Hfuel Hfuel2 Halloc file c Hfile (proj2 Hc) Hlong Hopens w) as (w' & Hrun & Hw');
        [rewrite start_size_block; lia|lia|done|]. exists 0, w'. split; [done|]. split; [done|]. split; [done|lia].
    + destruct (flash_image_short_run p alloc_ok fuel ltac:(done) Hsize Hsmall Hfuel Hfuel2 Halloc file c Hfile (proj2 Hc) Hlong Hopens w) as (w' & Hrun & Hw');
        [lia|done|]. exists 1, w'. split; [done|]. split; [done|]. split; [lia|done].
Qed.

(** C23: what flash_image has written, dump_image finds, on a steady device: if the image is at least a
    block long, the partition does not start with its header already (then nothing is flashed), no
    block of the image is all zero (the reader skips those) and 2048 divides the erase size, then both
    end with 0 and the file that is dumped starts with the image. *)
Theorem flash_then_dump `{!ImageLaws p} file c out w :
  flashable file c → es ≤ zlen c → ¬ header_on p c w → no_zero_block p c → (BLOCK_SIZE | es) →
  ∃ w1 w2 rest, flash_image alloc_ok fuel p file w = Ret (0, w1) ∧
    dump_image alloc_ok fuel p out w1 = Ret (0, w2) ∧ dumped w2 = c ++ rest.
Proof.
  intros [Hes Hsize Hsmall Hfuel Hfuel2 Hlong Halloc Hopens Hfile Hc] Hle Hno Hnz Hdiv. assert (0 < es) by (unfold HEADER_SIZE in Hes; lia).
  destruct (flash_image_done p alloc_ok fuel ltac:(done) Hsize Hsmall Hfuel Hfuel2 Halloc file c Hfile (proj2 Hc) Hlong Hopens w) as (w1 & Hrun & Hw1);
    [rewrite start_size_block; lia|lia|done|].
  destruct (dump_image_all p alloc_ok fuel ltac:(done) Hsize Hsmall Hfuel Hfuel2 Halloc out w1 Hdiv) as (w2 & Hrun2 & Hd).
  destruct (image_readable p fuel ltac:(done) Hsize Hfuel Hfuel2 c w1 Hw1 Hnz) as [rest Hrest]. exists w1, w2, rest. by rewrite <- Hrest.
Qed.
End tools.

(** ** Instances

    Three blocks of 2048 bytes, the second of them bad; every descriptor has its own offset. *)
Module ToolsDemo.

Record flash := mk_flash {
  offsets : list Z;
  contents : Z → list Z;
  output : list Z
}.
Definition part : MtdPartition := mk_partition 0 6144 2048 (Some (str "boot")).

Definition offset_of (w : flash) (fd : Z) : option Z := if fd <? 0 then None else offsets w !! Z.to_nat fd.
Definition move (fd o : Z) (w : flash) : flash := mk_flash (<[Z.to_nat fd := o]> (offsets w)) (contents w) (output w).
(** Whatever is stored, a block has 2048 bytes. *)
Definition block_of (w : flash) (k : Z) : list Z := take 2048 (contents w k ++ replicate 2048 255).
Definition store (k : Z) (b : list Z) (w : flash) : flash :=
  mk_flash (offsets w) (λ j, if j =? k then b else contents w j) (output w).

#[local] Instance driver : MtdDriver flash := {|
  proc_mtd _ := None;
  dev_open _ _ w := (zlen (offsets w), mk_flash (offsets w ++ [0]) (contents w) (output w));
  dev_seek fd q w :=
    match offset_of w fd, q with
    | Some o, Some q => (q, move fd q w)
    | Some o, None => (o, w)
    | None, _ => (-1, w)
    end;
  dev_read fd n w :=
    match offset_of w fd with
    | Some o => (n, block_of w (o / 2048), move fd (o + n) w)
    | None => (-1, [], w)
    end;
  dev_write fd data w :=
    match offset_of w fd with
    | Some o => if zlen data =? 2048 then (2048, move fd (o + 2048) (store (o / 2048) data w)) else (-1, w)
    | None => (-1, w)
    end;
  dev_close _ w := (0, w);
  ECCGETSTATS _ _ := Some 0;
  MEMGETBADBLOCK _ pos _ := if pos =? 2048 then 1 else 0;
  MEMERASE _ pos _ w := (0, store (pos / 2048) [] w);
  MEMGETINFO _ _ := Some (6144, 2048, 512)
|}.

(** The file with the image of a block and a half. *)
Definition image : list Z := str "ANDROID!" ++ replicate 3064 7.
#[local] Instance files : ImageOS flash := {|
  image_opens _ _ := true;
  image_read _ pos n _ := let b := take (Z.to_nat n) (drop (Z.to_nat pos) image) in (zlen b, b);
  image_rewinds _ _ _ := true;
  image_create _ w := (true, mk_flash (offsets w) (contents w) []);
  image_write data w := (zlen data, mk_flash (offsets w) (contents w) (output w ++ data));
  image_close w := (0, w);
  image_unlink _ w := w
|}.

Lemma offset_moved fd o q w : offset_of w fd = Some o → offset_of (move fd q w) fd = Some q.
Proof.
  unfold offset_of, move. destruct (fd <? 0); [done|]. simpl. intros Ho%lookup_lt_Some. by apply list_lookup_insert_eq.
Qed.

Lemma block_moved fd q w k : block_of (move fd q w) k = block_of w k.
Proof. done. Qed.
Lemma block_stored k b w j : j ≠ k → block_of (store k b w) j = block_of w j.
Proof. intros Hj. unfold block_of, store. simpl. by destruct (Z.eqb_spec j k). Qed.
Lemma block_stored_same k b w : zlen b = 2048 → block_of (store k b w) k = b.
Proof. intros Hb. unfold block_of, store. cbn [contents]. rewrite Z.eqb_refl. apply take_app_length'. lia. Qed.
Lemma offset_opened w : offset_of (mk_flash (offsets w ++ [0]) (contents w) (output w)) (zlen (offsets w)) = Some 0.
Proof.
  unfold offset_of. rewrite (proj2 (Z.ltb_ge _ 0)) by lia. rewrite Nat2Z.id. simpl. by rewrite lookup_app_r, Nat.sub_diag by lia.
Qed.
Lemma offset_kept w fd o : offset_of w fd = Some o →
  zlen (offsets w) ≠ fd ∧ offset_of (mk_flash (offsets w ++ [0]) (contents w) (output w)) fd = Some o.
Proof.
  unfold offset_of. destruct (Z.ltb_spec fd 0); [done|]. intros Ho. pose proof (lookup_lt_Some _ _ _ Ho) as Hlt.
  split; [lia|]. simpl. by rewrite lookup_app_l.
Qed.

#[local] Instance laws : MtdLaws part.
Proof.
  refine {| offset w fd := offset_of w fd; block w k := block_of w k; factory_bad k := k =? 1 |};
    cbn -[Z.mul Z.add Z.div replicate block_of offset_of Z.of_nat move store].
  - intros w k. unfold block_of. rewrite length_take, length_app, length_replicate. lia.
  - intros _ w _. split; [apply offset_opened|done].
  - intros fd o w Ho. rewrite Ho. eauto.
  - intros fd o q w Ho. rewrite Ho. pose proof (offset_moved fd o q w Ho). eauto.
  - intros fd k w Ho _ _. rewrite Ho, Z.div_mul by done. pose proof (offset_moved fd _ (k * 2048 + 2048) w Ho) as Hm.
    split; [unfold block_of; rewrite length_take, length_app, length_replicate; lia|]. split; [eauto|]. split; [done|].
    intros _. split; [done|]. rewrite Hm. f_equal. lia.
  - intros fd k data w Ho _ _ Hd. rewrite Ho, Z.div_mul, Hd by done. cbn -[Z.mul Z.add block_of offset_of move store].
    split; [exists (k * 2048 + 2048); by apply (offset_moved fd (k * 2048))|]. intros j Hj. rewrite block_moved. by apply block_stored.
  - intros fd o k w Ho _ _. rewrite Z.div_mul by done. split; [done|]. intros j Hj. by apply block_stored.
  - intros _ k _. destruct (Z.eqb_spec (k * 2048) 2048), (Z.eqb_spec k 1); done || lia.
  - done.
Defined.
#[local] Instance readable : MtdReadable part.
Proof.
  constructor; cbn -[Z.mul Z.add Z.div replicate block_of offset_of Z.of_nat move store].
  - lia.
  - intros fd o q w Ho. by rewrite Ho.
  - intros fd o w Ho. by rewrite Ho.
  - intros fd k w Ho _ _ _. by rewrite Ho.
  - by exists 0.
Qed.
#[local] Instance writable : MtdWritable part.
Proof.
  constructor; cbn -[Z.mul Z.add Z.div replicate block_of offset_of Z.of_nat move store].
  - done.
  - intros fd k data w Ho _ _ _ Hd. rewrite Ho, Z.div_mul, Hd by done. cbn -[Z.mul Z.add block_of offset_of move store].
    rewrite block_moved. by apply block_stored_same.
Qed.
#[local] Instance steady : MtdSteady part.
Proof.
  constructor; cbn -[Z.mul Z.add Z.div replicate block_of offset_of Z.of_nat move store].
  - lia.
  - done.
  - intros fd o w Ho _. by apply offset_kept.
  - done.
  - intros _ _. by exists 512.
Qed.
#[local] Instance image_laws : ImageLaws part.
Proof.
  refine {| dumped := output |}; cbn -[Z.mul Z.add Z.div replicate block_of offset_of Z.of_nat move store]; try done.
  - intros fd q w. by destruct (offset_of w fd), q.
  - intros fd n w. by destruct (offset_of w fd).
Defined.

Definition blank : flash := mk_flash [] (λ _, []) [].
Lemma image_fits : flashable part (λ _, true) (Z.to_nat 8000) [] image.
Proof. split; try first [done | vm_compute; congruence | vm_compute; lia]. Qed.
Lemma not_there : ¬ header_on part image blank.
Proof. intros [_ Heq]. apply (f_equal head) in Heq. vm_compute in Heq. discriminate. Qed.
Lemma image_nonzero : no_zero_block part image.
Proof. intros [|[|i]] Hi; [vm_compute; reflexivity..|]. assert (zlen image = 3072) as Hl by (vm_compute; reflexivity). change (erase_size part) with 2048 in Hi. lia. Qed.
End ToolsDemo.
#[local] Existing Instances ToolsDemo.driver ToolsDemo.files ToolsDemo.laws ToolsDemo.readable ToolsDemo.writable ToolsDemo.steady ToolsDemo.image_laws.

Lemma flash_image_result_witness :
  ∃ w', flash_image (λ _, true) (Z.to_nat 8000) ToolsDemo.part [] ToolsDemo.blank = Ret (0, w') ∧ image_on ToolsDemo.part ToolsDemo.image w'.
Proof.
  destruct (flash_image_result ToolsDemo.part (λ _, true) (Z.to_nat 8000) [] ToolsDemo.image ToolsDemo.blank ToolsDemo.image_fits)
    as (r & w' & Hrun & _ & Hlong & _).
  destruct (Hlong ToolsDemo.not_there ltac:(by apply Z.leb_le)) as [-> Hon]. exists w'. by split.
Defined.
Lemma flash_then_dump_witness :
  ∃ w1 w2 rest, flash_image (λ _, true) (Z.to_nat 8000) ToolsDemo.part [] ToolsDemo.blank = Ret (0, w1) ∧
    dump_image (λ _, true) (Z.to_nat 8000) ToolsDemo.part [] w1 = Ret (0, w2) ∧ dumped w2 = ToolsDemo.image ++ rest.
Proof.
  apply (flash_then_dump ToolsDemo.part (λ _, true) (Z.to_nat 8000) [] ToolsDemo.image [] ToolsDemo.blank);
    [apply ToolsDemo.image_fits|by apply Z.leb_le|apply ToolsDemo.not_there|apply ToolsDemo.image_nonzero|by exists 1].
Defined.
