(* ===== verification/Mtdscan.v ===== *)
(** * Mtdscan

    Scanning /proc/mtd and finding partitions by name. *)
From S2P Require Import Prelude CString Syscalls Mtdutils Mtdflash.
#[local] Existing Instances FlashDemo.driver.

(** ** The table of partitions *)
Section scanning.
Context {W : Type} `{MtdDriver W}.
Implicit Types (w : W) (s rest name : list Z).

(** A line of /proc/mtd *)
Record MtdEntry := mk_entry { e_num : nat; e_size : Z; e_erase : Z; e_name : list Z }.
Definition hex_digit (d : Z) : Z := if d <? 10 then 48 + d else 87 + d.
Fixpoint hex_fixed (n : nat) (v : Z) : list Z :=
  match n with O => [] | S n => hex_fixed n (v / 16) ++ [hex_digit (v mod 16)] end.
Definition show_entry (e : MtdEntry) : list Z :=
  str "mtd" ++ decimal (Z.of_nat (e_num e)) ++ str ": " ++ hex_fixed 8 (e_size e) ++ str " " ++
  hex_fixed 8 (e_erase e) ++ str " " ++ [34] ++ e_name e ++ [34] ++ [10].
Definition heading : list Z := str "dev:    size   erasesize  name" ++ [10].
Definition listing (l : list MtdEntry) : list Z := heading ++ (l ≫= show_entry).

Definition mtd_entry_ok (e : MtdEntry) : Prop :=
  (e_num e < 32)%nat ∧ 0 ≤ e_size e < 2 ^ 32 ∧ 0 ≤ e_erase e < 2 ^ 32 ∧
  (0 < length (e_name e) ≤ 63)%nat ∧ Forall (λ c, 0 < c < 256 ∧ c ≠ 34 ∧ c ≠ 10) (e_name e).

Lemma hex_digit_ok d : 0 ≤ d < 16 →
  is_hex (hex_digit d) = true ∧ hex_value (hex_digit d) = d ∧ hex_digit d ≠ 120 ∧ hex_digit d ≠ 88 ∧
  is_space (hex_digit d) = false ∧ hex_digit d ≠ 45 ∧ hex_digit d ≠ 43 ∧ 0 < hex_digit d ∧ hex_digit d ≠ 10.
Proof.
  intros Hd. assert (d = 0 ∨ d = 1 ∨ d = 2 ∨ d = 3 ∨ d = 4 ∨ d = 5 ∨ d = 6 ∨ d = 7 ∨ d = 8 ∨ d = 9 ∨
    d = 10 ∨ d = 11 ∨ d = 12 ∨ d = 13 ∨ d = 14 ∨ d = 15) as Hc by lia.
  repeat destruct Hc as [->|Hc]; subst; done.
Qed.

Lemma hex_fixed_Forall n v (P : Z → Prop) :
  (∀ d, 0 ≤ d < 16 → P (hex_digit d)) → Forall P (hex_fixed n v).
Proof.
  intros HP. revert v. induction n as [|n IH]; intros v; [constructor|]. cbn [hex_fixed].
  apply Forall_app. split; [done|]. constructor; [|constructor]. apply HP. by apply Z.mod_pos_bound.
Qed.
Lemma hex_fixed_length n v : length (hex_fixed n v) = n.
Proof. revert v. induction n; intros v; [done|]. cbn [hex_fixed]. rewrite length_app, IHn. simpl. lia. Qed.

Lemma hex_fixed_value n v : 0 ≤ v →
  foldl (λ a c, a * 16 + hex_value c) 0 (hex_fixed n v) = v mod 16 ^ Z.of_nat n.
Proof.
  revert v. induction n as [|n IH]; intros v Hv; cbn [hex_fixed]; [by rewrite Z.mod_1_r|].
  rewrite foldl_app, IH by (apply Z.div_pos; lia). cbn [foldl].
  destruct (hex_digit_ok (v mod 16)) as (_ & -> & _); [by apply Z.mod_pos_bound|].
  replace (16 ^ Z.of_nat (S n)) with (16 * 16 ^ Z.of_nat n) by (rewrite Nat2Z.inj_succ, Z.pow_succ_r; lia).
  rewrite (Z.rem_mul_r v 16 (16 ^ Z.of_nat n)) by lia. lia.
Qed.

Lemma count_while_app f s rest :
  Forall (λ c, f c = true) s → (∀ c r, rest = c :: r → f c = false) →
  count_while f (s ++ rest) = length s.
Proof.
  induction 1 as [|c s Hc Hs IH]; intros Hr; simpl.
  - destruct rest as [|c r]; [done|]. simpl. by rewrite (Hr c r eq_refl).
  - by rewrite Hc, IH.
Qed.

(** [%x] reads an eight-digit number behind a blank. *)
Lemma scan_x_fixed v rest :
  0 ≤ v < 2 ^ 32 → scan_x (32 :: hex_fixed 8 v ++ 32 :: rest) = Some (v, 32 :: rest).
Proof.
  intros Hv. unfold scan_x.
  assert (Hs1 : skip_space (32 :: hex_fixed 8 v ++ 32 :: rest) = hex_fixed 8 v ++ 32 :: rest).
  { assert (Hd : ∃ c l, hex_fixed 8 v = c :: l ∧ is_space c = false).
    { pose proof (hex_fixed_length 8 v) as Hl.
      pose proof (hex_fixed_Forall 8 v (λ c, is_space c = false)) as Hf.
      destruct (hex_fixed 8 v) as [|c l]; [done|]. exists c, l. split; [done|].
      refine (Forall_inv (Hf _)). intros d Hd. apply hex_digit_ok in Hd. tauto. }
    destruct Hd as (c & l & -> & Hc). unfold skip_space. simpl. by rewrite Hc. }
  assert (Hscan : scan_digits is_hex hex_value 16 (32 :: hex_fixed 8 v ++ 32 :: rest) = Some (v, 32 :: rest)).
  { unfold scan_digits. rewrite Hs1.
    assert (Hsign : scan_sign (hex_fixed 8 v ++ 32 :: rest) = (false, hex_fixed 8 v ++ 32 :: rest)).
    { pose proof (hex_fixed_length 8 v) as Hl.
      pose proof (hex_fixed_Forall 8 v (λ c, c ≠ 45 ∧ c ≠ 43)) as Hf.
      destruct (hex_fixed 8 v) as [|c l]; [done|].
      destruct (Forall_inv (Hf ltac:(intros d Hd; apply hex_digit_ok in Hd; tauto))) as [H45 H43]. simpl.
      destruct (Z.eqb_spec c 45), (Z.eqb_spec c 43); done. }
    rewrite Hsign, count_while_app;
      [|apply hex_fixed_Forall; intros d Hd; apply hex_digit_ok in Hd; tauto|by intros c r [= <- <-]].
    rewrite hex_fixed_length. simpl (8 =? 0)%nat. cbn iota.
    rewrite take_app_length', drop_app_length' by by rewrite hex_fixed_length.
    rewrite hex_fixed_value by lia. do 2 f_equal. apply Z.mod_small. done. }
  rewrite Hscan, Hs1.
  pose proof (hex_fixed_length 8 v) as Hl.
  pose proof (hex_fixed_Forall 8 v (λ c, c ≠ 120 ∧ c ≠ 88)) as Hf.
  destruct (hex_fixed 8 v) as [|c1 [|c2 l]]; [done|done|].
  specialize (Hf ltac:(intros d Hd; apply hex_digit_ok in Hd; tauto)).
  apply Forall_cons in Hf as [_ [[H120 H88] _]%Forall_cons].
  cbn [app]. destruct (Z.eq_dec c1 48) as [->|]; [|by repeat case_match].
  destruct (Z.eqb_spec c2 120), (Z.eqb_spec c2 88); try done.
Qed.

Lemma scan_d_decimal n rest :
  (n < 32)%nat → scan_d (decimal (Z.of_nat n) ++ 58 :: rest) = Some (Z.of_nat n, 58 :: rest).
Proof. intros Hn. do 32 (destruct n as [|n]; [reflexivity|]). lia. Qed.

Lemma scan_lit_app lit rest : scan_lit lit (lit ++ rest) = Some rest.
Proof.
  unfold scan_lit. rewrite (proj2 (is_prefix_spec _ _)) by by eexists. by rewrite drop_app_length.
Qed.

Lemma scan_line_show e rest :
  mtd_entry_ok e → scan_line (show_entry e ++ rest) = Some (Z.of_nat (e_num e), e_size e, e_erase e, e_name e).
Proof.
  intros (Hnum & Hsize & Herase & Hlen & Hname). unfold scan_line, show_entry. rewrite <- !app_assoc.
  change (str ": ") with ([58] ++ [32]). change (str ":") with [58]. change (str " ") with [32].
  rewrite scan_lit_app. cbn [mbind option_bind]. rewrite <- (app_assoc [58]). cbn [app].
  rewrite scan_d_decimal by done. cbn [mbind option_bind].
  change (58 :: ?l) with ([58] ++ l). rewrite scan_lit_app. cbn [mbind option_bind].
  rewrite scan_x_fixed by done. cbn [mbind option_bind].
  rewrite scan_x_fixed by done. cbn [mbind option_bind].
  change (skip_space (32 :: 34 :: ?l)) with ([34] ++ l). rewrite scan_lit_app. cbn [mbind option_bind].
  unfold scan_name. rewrite count_while_app; cycle 1.
  { eapply Forall_impl; [exact Hname|]. intros c (? & ? & ?). simpl. by destruct (Z.eqb_spec c 34). }
  { by intros c r [= <- <-]. }
  rewrite Nat.min_r by lia. destruct (Nat.eqb_spec (length (e_name e)) 0); [lia|]. simpl.
  by rewrite take_app_length.
Qed.

(** The characters of a line. *)
Lemma show_entry_chars e :
  mtd_entry_ok e → ∃ s, show_entry e = s ++ [10] ∧ Forall (λ c, c ≠ 0 ∧ c ≠ 10) s.
Proof.
  intros (Hnum & Hsize & Herase & Hlen & Hname).
  exists (str "mtd" ++ decimal (Z.of_nat (e_num e)) ++ str ": " ++ hex_fixed 8 (e_size e) ++ str " " ++
    hex_fixed 8 (e_erase e) ++ str " " ++ [34] ++ e_name e ++ [34]).
  split; [unfold show_entry; by rewrite <- !app_assoc|].
  assert (Hhex : ∀ v, Forall (λ c, c ≠ 0 ∧ c ≠ 10) (hex_fixed 8 v)).
  { intros v. apply hex_fixed_Forall. intros d Hd. apply hex_digit_ok in Hd. lia. }
  assert (Hdec : Forall (λ c, c ≠ 0 ∧ c ≠ 10) (decimal (Z.of_nat (e_num e)))).
  { generalize dependent (e_num e). intros n Hn.
    do 32 (destruct n as [|n]; [by repeat constructor|]). lia. }
  rewrite !Forall_app. repeat split; try done; try (by repeat constructor).
  eapply Forall_impl; [exact Hname|]. simpl. lia.
Qed.

Lemma eat_line_app s rest : Forall (λ c, c ≠ 10) s → eat_line (s ++ 10 :: rest) = rest.
Proof.
  intros Hs. unfold eat_line. rewrite count_while_app.
  - rewrite <- Nat.add_1_r. rewrite <- drop_drop. by rewrite drop_app_length.
  - eapply Forall_impl; [exact Hs|]. intros c Hc. simpl. by destruct (Z.eqb_spec c 10).
  - by intros c r [= <- <-].
Qed.

Definition partition_of (e : MtdEntry) : MtdPartition :=
  mk_partition (Z.of_nat (e_num e)) (e_size e) (e_erase e) (Some (e_name e)).
Definition mtd_table (ps : list MtdPartition) (l : list MtdEntry) : list MtdPartition :=
  foldl (λ ps e, <[e_num e := partition_of e]> ps) ps l.

Lemma entries_no_zero l : Forall mtd_entry_ok l → Forall (λ c, c ≠ 0) (l ≫= show_entry).
Proof.
  induction 1 as [|e l He Hl IH]; [constructor|]. cbn [mbind list_bind]. apply Forall_app. split; [|done].
  destruct (show_entry_chars e He) as (s & -> & Hs). apply Forall_app. split; [|by repeat constructor].
  eapply Forall_impl; [exact Hs|]. by intros ? [? ?].
Qed.

Lemma scan_lines_entries alloc_ok n l ps count :
  (∀ k, alloc_ok k = true) → Forall mtd_entry_ok l → length ps = 32%nat → (length l ≤ n)%nat →
  scan_lines alloc_ok n (l ≫= show_entry) ps count = Ret (Some (count + zlen l), mtd_table ps l).
Proof.
  intros Halloc Hl. revert n ps count. induction Hl as [|e l He Hl IH]; intros n ps count Hps Hn.
  { destruct n; simpl; by rewrite Z.add_0_r. }
  destruct n as [|n]; [simpl in Hn; lia|]. cbn [mbind list_bind].
  pose proof (show_entry_chars e He) as (s & Hshow & Hs).
  assert (Hne : ∃ c r, show_entry e ++ (l ≫= show_entry) = c :: r) by (by eexists _, _).
  destruct Hne as (c & r & Hcr). rewrite Hcr. cbn [scan_lines]. rewrite <- !Hcr.
  rewrite c_string_app; cycle 1.
  { apply (entries_no_zero (e :: l)). by constructor. }
  rewrite scan_line_show by done. rewrite Halloc. destruct He as (Hnum & Hsize & Herase & _).
  rewrite wr_in_bounds by lia. cbn [mbind outcome_bind].
  rewrite Hshow, <- app_assoc. cbn [app].
  rewrite eat_line_app by (eapply Forall_impl; [exact Hs|]; by intros ? [? ?]).
  pose proof (IH n (<[Z.to_nat (Z.of_nat (e_num e)) := mk_partition (Z.of_nat (e_num e)) (u32 (e_size e))
    (u32 (e_erase e)) (Some (e_name e))]> ps) (count + 1)) as IH'. cbn [mbind] in IH'.
  rewrite IH' by (rewrite ?length_insert; simpl in Hn; lia).
  rewrite Nat2Z.id, !u32_small by done. unfold mtd_table. cbn [foldl length]. do 3 f_equal. lia.
Qed.

Lemma table_lookup ps l i p :
  mtd_table ps l !! i = Some p → (∃ e, e ∈ l ∧ p = partition_of e) ∨ ps !! i = Some p.
Proof.
  revert ps. induction l as [|e l IH]; intros ps; [by right|]. simpl. intros Hp.
  destruct (IH _ Hp) as [(e' & ? & ->)|Hp']; [left; exists e'; split; [by right|done]|].
  destruct (decide (i = e_num e)) as [->|Hne]; [|right; by rewrite list_lookup_insert_ne in Hp'].
  left. exists e. split; [by left|].
  rewrite list_lookup_insert_eq in Hp'; [by simplify_eq|].
  apply lookup_lt_Some in Hp'. by rewrite length_insert in Hp'.
Qed.
Lemma table_entry ps l e :
  NoDup (e_num <$> l) → (∀ e, e ∈ l → (e_num e < length ps)%nat) → e ∈ l →
  mtd_table ps l !! e_num e = Some (partition_of e).
Proof.
  revert ps. induction l as [|e' l IH]; intros ps Hnd Hlen He; [by apply not_elem_of_nil in He|].
  cbn [fmap list_fmap] in Hnd. apply NoDup_cons in Hnd as [Hnot Hnd]. simpl.
  apply elem_of_cons in He as [->|He]; cycle 1.
  { apply IH; [done| |done]. intros e2 He2. rewrite length_insert. apply Hlen. by right. }
  assert (Hkeep : ∀ ps, mtd_table ps l !! e_num e' = ps !! e_num e').
  { clear IH Hlen Hnd. induction l as [|e2 l IH]; intros ps'; [done|].
    cbn [fmap list_fmap] in Hnot. apply not_elem_of_cons in Hnot as [Hne Hnot]. simpl.
    change (mtd_table (<[e_num e2 := partition_of e2]> ps') l !! e_num e' = ps' !! e_num e').
    rewrite (IH Hnot). by apply list_lookup_insert_ne. }
  change (mtd_table (<[e_num e' := partition_of e']> ps) l !! e_num e' = Some (partition_of e')).
  rewrite Hkeep. apply list_lookup_insert_eq. apply Hlen. by left.
Qed.

Definition named (name : list Z) (p : MtdPartition) : Prop :=
  ∃ n, p_name p = Some n ∧ 0 ≤ device_index p ∧ strcmp n name = 0.

Lemma find_by_name_spec name ps :
  match find_by_name name ps with
  | Some p => p ∈ ps ∧ named name p
  | None => ∀ p, p ∈ ps → ¬ named name p
  end.
Proof.
  induction ps as [|p ps IH]; simpl; [by intros p ?%not_elem_of_nil|].
  assert (Hskip : ¬ named name p → match find_by_name name ps with
    | Some p' => p' ∈ p :: ps ∧ named name p' | None => ∀ p', p' ∈ p :: ps → ¬ named name p' end).
  { intros Hno. destruct (find_by_name name ps); [destruct IH; split; [by right|done]|].
    intros p' [->|Hp']%elem_of_cons; auto. }
  destruct (p_name p) as [n|] eqn:Hn; [|apply Hskip; intros (? & ? & ?); congruence].
  destruct (Z.leb_spec 0 (device_index p)), (Z.eqb_spec (strcmp n name) 0); simpl;
    try (apply Hskip; intros (? & ? & ? & ?); simplify_eq; lia || done).
  split; [by left|]. by exists n.
Qed.

Lemma heading_skipped alloc_ok n l ps count :
  Forall mtd_entry_ok l →
  scan_lines alloc_ok (S n) (listing l) ps count = scan_lines alloc_ok n (l ≫= show_entry) ps count.
Proof.
  intros Hl. unfold listing. cbn [scan_lines heading str app].
  rewrite c_string_app; [|apply Forall_app; split; [by repeat constructor|by apply entries_no_zero]].
  unfold heading. rewrite <- app_assoc. cbn [app].
  rewrite eat_line_app by (by repeat constructor). done.
Qed.

Lemma length_mtd_table ps l : length (mtd_table ps l) = length ps.
Proof. revert ps. induction l as [|e l IH]; intros ps; [done|]. simpl. by rewrite IH, length_insert. Qed.

(** The table of partitions: not allocated yet, or of 32 places. *)
Definition mtd_ok (g : MtdState) : Prop := ∀ ps, partitions g = Some ps → length ps = 32%nat.

Lemma mtd_scan_partitions_spec alloc_ok g w l :
  (∀ n, alloc_ok n = true) → mtd_ok g →
  proc_mtd w = Some (listing l) → Forall mtd_entry_ok l → NoDup (e_num <$> l) → NoDup (e_name <$> l) →
  ∃ g', mtd_scan_partitions alloc_ok g w = Ret (zlen l, g') ∧ mtd_ok g' ∧
    (∀ e, e ∈ l → mtd_find_partition_by_name g' (e_name e) = Some (partition_of e)) ∧
    (∀ name, cstr name → name ∉ e_name <$> l → mtd_find_partition_by_name g' name = None).
Proof.
  intros Halloc Hg Hproc Hok Hnum Hname. unfold mtd_scan_partitions. rewrite Halloc, andb_false_r, Hproc.
  set (ps := _ <$> default _ _).
  assert (Hps : length ps = 32%nat).
  { subst ps. rewrite length_fmap. unfold mtd_ok in Hg. destruct (partitions g) as [ps0|]; [by apply Hg|done]. }
  assert (Hnone : ∀ p, p ∈ ps → p_name p = None).
  { subst ps. intros p (q & -> & _)%list_elem_of_fmap. done. }
  destruct (length (listing l)) as [|n] eqn:Hlen; [done|]. rewrite heading_skipped by done.
  assert (Hn : (length l ≤ n)%nat).
  { unfold listing in Hlen. rewrite length_app in Hlen. simpl in Hlen.
    assert (length l ≤ length (l ≫= show_entry))%nat; [|lia]. clear. induction l as [|e l IH]; [done|].
    cbn [mbind list_bind] in *. rewrite length_app. unfold show_entry at 1. rewrite length_app. simpl. lia. }
  rewrite scan_lines_entries by done. cbn [mbind outcome_bind]. eexists. split; [done|].
  split; [intros ps' Hps'; apply (inj Some) in Hps' as <-; rewrite length_mtd_table; exact Hps|].
  unfold mtd_find_partition_by_name. cbn [partitions].
  assert (Hcstr : ∀ e, e ∈ l → cstr (e_name e)).
  { intros e He. eapply Forall_forall in Hok; [|exact He]. destruct Hok as (_ & _ & _ & _ & Hc).
    eapply Forall_impl; [exact Hc|]. by intros c (? & _). }
  assert (Hnamed : ∀ p name, cstr name → p ∈ mtd_table ps l → named name p →
    ∃ e, e ∈ l ∧ p = partition_of e ∧ e_name e = name).
  { intros p name Hc [i Hi]%list_elem_of_lookup (m & Hm & _ & Hcmp).
    apply table_lookup in Hi as [(e & He & ->)|Hi]; cycle 1.
    { rewrite Hnone in Hm; [done|]. by eapply list_elem_of_lookup_2. }
    exists e. split; [done|]. split; [done|]. injection Hm as <-. apply strcmp_0 in Hcmp; auto. }
  split.
  - intros e He. pose proof (find_by_name_spec (e_name e) (mtd_table ps l)) as Hf.
    destruct (find_by_name _ _) as [p|].
    + destruct Hf as [Hp Hnm]. destruct (Hnamed p (e_name e)) as (e' & He' & -> & Heq); auto.
      f_equal. f_equal. apply list_elem_of_lookup in He as [i Hi], He' as [j Hj].
      assert (i = j) as <-; [|congruence].
      eapply (NoDup_lookup _ i j (e_name e) Hname); rewrite list_lookup_fmap; [by rewrite Hi|by rewrite Hj, <- Heq].
    + exfalso. apply (Hf (partition_of e)).
      * eapply list_elem_of_lookup_2, table_entry; [done| |done].
        intros e' He'. rewrite Hps. eapply Forall_forall in Hok; [|exact He']. by destruct Hok.
      * exists (e_name e). split; [done|]. split; [simpl; lia|]. by apply strcmp_0; auto.
  - intros name Hc Hnot. pose proof (find_by_name_spec name (mtd_table ps l)) as Hf.
    destruct (find_by_name _ _) as [p|]; [|done]. destruct Hf as [Hp Hnm].
    destruct (Hnamed p name Hc Hp Hnm) as (e & He & _ & <-). destruct Hnot. by apply list_elem_of_fmap_2.
Qed.

(** C40: Scanning /proc/mtd finds the partitions it lists: from a listing of the documented form
    (a line of headings, then a line per device with its number below 32, two
    hexadecimal numbers of eight digits and a quoted name) [mtd_scan_partitions] answers the
    number of lines, and afterwards [mtd_find_partition_by_name] finds each partition with
    the numbers listed, and no other name. *)
Theorem mtd_scan_partitions_lists alloc_ok g w l :
  (∀ n, alloc_ok n = true) → mtd_ok g →
  proc_mtd w = Some (listing l) → Forall mtd_entry_ok l → NoDup (e_num <$> l) → NoDup (e_name <$> l) →
  ∃ g', mtd_scan_partitions alloc_ok g w = Ret (zlen l, g') ∧
    (∀ e, e ∈ l → mtd_find_partition_by_name g' (e_name e) = Some (partition_of e)) ∧
    (∀ name, cstr name → name ∉ e_name <$> l → mtd_find_partition_by_name g' name = None).
Proof.
  intros Halloc Hg Hproc Hok Hnum Hname.
  destruct (mtd_scan_partitions_spec alloc_ok g w l) as (g' & ? & _ & ? & ?); eauto.
Qed.

(** A device number outside the table of 32 is an access behind it. *)
Lemma device_number_unchecked alloc_ok n ps count buf mtdnum mtdsize mtderasesize mtdname :
  length ps = 32%nat → scan_line (c_string (buf ++ [0])) = Some (mtdnum, mtdsize, mtderasesize, mtdname) →
  mtdnum < 0 ∨ 32 ≤ mtdnum → scan_lines alloc_ok (S n) buf ps count = Fault OutOfBounds.
Proof.
  intros Hps Hline Hnum. cbn [scan_lines]. destruct buf as [|c buf]; [done|].
  rewrite Hline. cbv zeta. unfold wr. rewrite Hps.
  by destruct (Z.ltb_spec mtdnum 0), (Z.leb_spec (Z.of_nat 32) mtdnum); try lia.
Qed.
End scanning.

Lemma mtd_scan_partitions_lists_witness :
  let l := [mk_entry 0 8 2 (str "boot"); mk_entry 3 49152 1024 (str "system")] in
  ∃ g', mtd_scan_partitions (λ _, true) g_mtd_state FlashDemo.blank = Ret (2, g') ∧
    (∀ e, e ∈ l → mtd_find_partition_by_name g' (e_name e) = Some (partition_of e)) ∧
    (∀ name, cstr name → name ∉ e_name <$> l → mtd_find_partition_by_name g' name = None).
Proof.
  intros l. apply (mtd_scan_partitions_lists (λ _, true) g_mtd_state FlashDemo.blank l);
    try done; subst l; try (apply (bool_decide_unpack _); vm_compute; exact I).
Defined.
