(* ===== verification/Applypatch.v ===== *)
(** * Applypatch

    applypatch/applypatch.c: loading files and flash partitions with their checksums,
    finding the patch for a checksum, and [applypatch], which patches a file so that an
    interrupted run can be repeated. *)
From stdpp Require Import sorting.
From S2P Require Import Prelude CString Syscalls Files Freecache Mtdutils Bspatch Imgpatch.

(** ** Data *)

(** The [data] pointer of a FileContents: NULL, an object of its own, or freed. *)
Inductive data_ptr :=
  | Null
  | Owned (d : list Z)
  | Freed.

Record FileContents := mk_file {
  fc_sha1 : list Z;
  fc_data : data_ptr;
  fc_size : Z;
  fc_st : Stat
}.
Definition set_data (f : FileContents) (d : data_ptr) : FileContents :=
  mk_file (fc_sha1 f) d (fc_size f) (fc_st f).
Definition set_size (f : FileContents) (n : Z) : FileContents :=
  mk_file (fc_sha1 f) (fc_data f) n (fc_st f).
Definition is_null_data (d : data_ptr) : bool := match d with Null => true | _ => false end.
(** [free(file.data)] *)
Definition free_data (f : FileContents) : FileContents :=
  match fc_data f with Null => f | _ => set_data f Freed end.

Record MemorySinkInfo := mk_sink { msi_buffer : list Z; msi_size : Z; msi_pos : Z }.

Definition SHA_DIGEST_SIZE : Z := 20.
(** The type VAL_BLOB of a [Value]. *)
Definition PATCH_BLOB : Z := 2.

(** The function of mincrypt that computes a checksum at once. *)
Class ShaDigest := { SHA : list Z → list Z }.

(** ** Checksums as text *)
Definition sha_digit (c : Z) : option Z :=
  if (48 <=? c) && (c <=? 57) then Some (c - 48)
  else if (97 <=? c) && (c <=? 102) then Some (c - 97 + 10)
  else if (65 <=? c) && (c <=? 70) then Some (c - 65 + 10)
  else None.

(** The loop over the digits that are left; [i] counts those read. *)
Fixpoint parse_digits (n : nat) (i : nat) (ps digest : list Z) : option (list Z * list Z) :=
  match n with
  | O => Some (ps, digest)
  | S n =>
      digit ← sha_digit (char_at ps 0);
      parse_digits n (S i) (drop 1 ps)
        (if Nat.even i then <[(i / 2)%nat := u8 (Z.shiftl digit 4)]> digest
         else <[(i / 2)%nat := Z.lor (default 0 (digest !! (i / 2)%nat)) digit]> digest)
  end.

(** The digest, if the result is 0. *)
Definition ParseSha1 (s : list Z) : option (list Z) :=
  '(ps, digest) ← parse_digits 40 0 s (replicate 20 0);
  if char_at ps 0 =? 0 then Some digest else None.

Fixpoint find_matching (sha1 : list Z) (strs : list (list Z)) (i : Z) : Z :=
  match strs with
  | [] => -1
  | s :: strs =>
      match ParseSha1 s with
      | Some patch_sha1 =>
          if memcmp patch_sha1 sha1 SHA_DIGEST_SIZE =? 0 then i else find_matching sha1 strs (i + 1)
      | None => find_matching sha1 strs (i + 1)
      end
  end.
Definition FindMatchingPatch (sha1 : list Z) (patch_sha1_str : list (list Z)) : Z :=
  find_matching sha1 patch_sha1_str 0.

(** ** Files *)

(** The tokens of [strtok(_, ":")]. *)
Fixpoint split_colons (s cur : list Z) : list (list Z) :=
  match s with
  | [] => [cur]
  | c :: s => if c =? 58 then cur :: split_colons s [] else split_colons s (cur ++ [c])
  end.
Definition tokens (s : list Z) : list (list Z) :=
  filter (λ t, t ≠ []) (split_colons s []).

Definition is_mtd (filename : list Z) : bool := strncmp 4 filename (str "MTD:") =? 0.

Section code.
Context `{Bzip2} `{Sha1} `{!ShaDigest} `{Deflate} {W : Type} `{PatchOS W} `{MtdDriver W}.
(** What [malloc] can give, a bound on loops, and what an automatic variable holds at
    first. *)
Context (alloc_ok : Z → bool) (fuel : nat) (uninit : FileContents).

(** The system and the static variables of mtdutils.c and applypatch.c. *)
Record ap := mk_ap { world : W; mtd : MtdState; mtd_partitions_scanned : bool }.
Implicit Types (s : ap) (w : W).
Definition with_world s w : ap := mk_ap w (mtd s) (mtd_partitions_scanned s).

Definition scan_once s : outcome ap :=
  if mtd_partitions_scanned s then mret s
  else
    '(_, g) ← mtd_scan_partitions alloc_ok (mtd s) (world s);
    mret (mk_ap (world s) g true).

(** [strcmp] gets the null pointer if no token is left and a partition has a name. *)
Definition find_partition (name : option (list Z)) s : outcome (option MtdPartition) :=
  match name with
  | Some name => mret (mtd_find_partition_by_name (mtd s) name)
  | None =>
      if existsb (λ p, (0 <=? device_index p) && bool_decide (is_Some (p_name p))) (default [] (partitions (mtd s)))
      then Fault NullPointer else mret None
  end.

(** The (size, sha1) pairs; [None] when a size is bad. *)
Fixpoint read_pairs (n : nat) (toks : list (list Z)) : outcome (option (list (Z * option (list Z)))) :=
  match n with
  | O => mret (Some [])
  | S n =>
      size_str ← of_option NullPointer (head toks);
      let size := u32 (strtol size_str).1 in
      if size =? 0 then mret None
      else
        rest ← read_pairs n (drop 2 toks);
        mret ((λ l, (size, toks !! 1%nat) :: l) <$> rest)
  end.

(** The pairs in the order of increasing size, as [qsort] leaves the indices. *)
Definition size_le (a b : Z * option (list Z)) : Prop := a.1 ≤ b.1.
#[local] Instance size_le_dec a b : Decision (size_le a b).
Proof. apply Z_le_dec. Defined.

(** The loop over the sorted pairs. The status is 0 for a match, 1 if no pair is left and
    -1 for a failure. *)
Fixpoint match_pairs (pairs : list (Z * option (list Z))) (ctx : MtdReadContext)
    (data : list Z) (p size : Z) (sha_ctx : SHA_CTX) w
    : outcome (Z * MtdReadContext * list Z * Z * SHA_CTX * W) :=
  match pairs with
  | [] => mret (1, ctx, data, size, sha_ctx, w)
  | (sz, sha1sum) :: pairs =>
      let next := u32 (sz - size) in
      '(short, read, ctx, data, size, sha_ctx, w) ←
        (if 0 <? next then
           '(r, ctx, chunk, w) ← mtd_read_data fuel ctx (drop (Z.to_nat p) data) next w;
           let read := u32 r in
           let data := take (Z.to_nat p) data ++ chunk in
           if negb (next =? read) then mret (true, read, ctx, data, size, sha_ctx, w)
           else mret (false, read, ctx, data, size + read, SHA_update sha_ctx (take (Z.to_nat read) chunk), w)
         else mret (false, 0, ctx, data, size, sha_ctx, w));
      if short : bool then mret (-1, ctx, data, size, sha_ctx, w)
      else
        let sha_so_far := SHA_final sha_ctx in
        sha1sum ← of_option NullPointer sha1sum;
        match ParseSha1 sha1sum with
        | None => mret (-1, ctx, data, size, sha_ctx, w)
        | Some parsed_sha =>
            if memcmp sha_so_far parsed_sha SHA_DIGEST_SIZE =? 0
            then mret (0, ctx, data, size, sha_ctx, w)
            else match_pairs pairs ctx data (p + read) size sha_ctx w
        end
  end.

Definition LoadMTDContents (filename : list Z) (file : FileContents) s : outcome (Z * FileContents * ap) :=
  let toks := tokens filename in
  magic ← of_option NullPointer (head toks);
  if negb (strcmp magic (str "MTD") =? 0) then mret (-1, file, s)
  else
    let partition := toks !! 1%nat in
    let colons := zlen (filter (λ c, c = 58) filename) in
    pairs ← read_pairs (Z.to_nat (Z.quot (colons - 1) 2)) (drop 2 toks);
    match pairs with
    | None => mret (-1, file, s)
    | Some pairs =>
        let pairs := merge_sort size_le pairs in
        s ← scan_once s;
        mtd ← find_partition partition s;
        match mtd with
        | None => mret (-1, file, s)
        | Some mtd =>
            '(ctx, w) ← mtd_read_partition alloc_ok mtd (world s);
            match ctx with
            | None => mret (-1, file, with_world s w)
            | Some ctx =>
                biggest ← of_option OutOfBounds (last pairs);
                if negb (alloc_ok biggest.1) then Fault NullPointer
                else
                  let data := replicate (Z.to_nat biggest.1) 0 in
                  '(st, ctx, data, size, sha_ctx, w) ← match_pairs pairs ctx data 0 0 SHA_init w;
                  if st =? -1 then mret (-1, mk_file (fc_sha1 file) Null size (fc_st file), with_world s w)
                  else
                    let s := with_world s (mtd_read_close ctx w) in
                    if st =? 1 then mret (-1, mk_file (fc_sha1 file) Null size (fc_st file), s)
                    else
                      mret (0, mk_file (SHA_final sha_ctx) (Owned data) size
                        (mk_stat 420 0 0 (st_size (fc_st file))), s)
            end
        end
    end.

Definition LoadFileContents (filename : list Z) (file : FileContents) s : outcome (Z * FileContents * ap) :=
  let file := set_data file Null in
  if is_mtd filename then LoadMTDContents filename file s
  else
    match sys_stat filename (world s) with
    | None => mret (-1, file, s)
    | Some st =>
        let size := s32 (st_size st) in
        let file := mk_file (fc_sha1 file) Null size st in
        match sys_fread filename size (world s) with
        | None => mret (-1, file, s)
        | Some bytes =>
            if negb (alloc_ok size) && (0 <? size) then Fault NullPointer
            else if negb (zlen bytes =? size) then mret (-1, file, s)
            else mret (0, mk_file (SHA bytes) (Owned bytes) size st, s)
        end
    end.

(** A FileContents of [free] memory is not passed to it. *)
Definition FreeFileContents (file : option FileContents) : outcome unit :=
  match file with
  | Some f => match fc_data f with Freed => Fault UseAfterFree | _ => mret tt end
  | None => mret tt
  end.

(** ** Sinks *)

(** [write] until all is written. The result is how much that is. *)
Fixpoint sink_loop (n : nat) (fd : Z) (data : list Z) (done : Z) w : outcome (Z * W) :=
  match n with
  | O => Diverge
  | S n =>
      if done <? zlen data then
        let '(wrote, w) := sys_write fd (drop (Z.to_nat done) data) w in
        if wrote <=? 0 then mret (done, w) else sink_loop n fd data (done + wrote) w
      else mret (done, w)
  end.
Definition FileSink (fd : Z) (data : list Z) w : outcome (Z * W) := sink_loop (S (length data)) fd data 0 w.

Definition MemorySink (data : list Z) (msi : MemorySinkInfo) : outcome (Z * MemorySinkInfo) :=
  if msi_size msi - msi_pos msi <? zlen data then mret (-1, msi)
  else
    buffer ← wr_n (msi_buffer msi) (msi_pos msi) data;
    mret (zlen data, mk_sink buffer (msi_size msi) (msi_pos msi + zlen data)).

(** The first [size] bytes of a file; [write] rejects the null pointer. *)
Definition SaveFileContents (filename : list Z) (file : FileContents) w : outcome (Z * W) :=
  let '(fd, w) := sys_open_trunc filename w in
  if fd <? 0 then mret (-1, w)
  else
    '(bytes_written, w) ←
      (if fc_size file <=? 0 then mret (0, w)
       else
         match fc_data file with
         | Null => mret (0, w)
         | Freed => Fault UseAfterFree
         | Owned d => d ← rd_n d 0 (fc_size file); FileSink fd d w
         end);
    if negb (bytes_written =? fc_size file) then mret (-1, sys_close fd w)
    else
      let w := sys_close fd (sys_fsync fd w) in
      let '(r, w) := sys_chmod filename (st_mode (fc_st file)) w in
      if negb (r =? 0) then mret (-1, w)
      else
        let '(r, w) := sys_chown filename (st_uid (fc_st file)) (st_gid (fc_st file)) w in
        if negb (r =? 0) then mret (-1, w) else mret (0, w).

Definition WriteToMTDPartition (data : list Z) (len : Z) (target_mtd : list Z) s : outcome (Z * ap) :=
  match strchr target_mtd 58 with
  | None => mret (-1, s)
  | Some i =>
      let partition := drop (S i) target_mtd in
      let partition := match strchr partition 58 with Some e => take e partition | None => partition end in
      s ← scan_once s;
      match mtd_find_partition_by_name (mtd s) partition with
      | None => mret (-1, s)
      | Some mtd =>
          match mtd_write_partition alloc_ok mtd (world s) with
          | (None, w) => mret (-1, with_world s w)
          | (Some ctx, w) =>
              '(written, ctx, w) ← mtd_write_data fuel ctx data len w;
              if negb (u32 written =? len) then
                '(_, w) ← mtd_write_close fuel ctx w; mret (-1, with_world s w)
              else
                '(e, ctx, w) ← mtd_erase_blocks fuel ctx (-1) w;
                if e <? 0 then '(_, w) ← mtd_write_close fuel ctx w; mret (-1, with_world s w)
                else
                  '(r, w) ← mtd_write_close fuel ctx w;
                  mret (if negb (r =? 0) then -1 else 0, with_world s w)
          end
      end
  end.

(** ** Checking *)
Definition applypatch_check (filename : list Z) (patch_sha1_str : list (list Z)) s : outcome (Z * ap) :=
  '(r, file, s) ← LoadFileContents filename (set_data uninit Null) s;
  if negb (r =? 0) ||
     ((0 <? zlen patch_sha1_str) && (FindMatchingPatch (fc_sha1 file) patch_sha1_str <? 0)) then
    '(r, file, s) ← LoadFileContents CACHE_TEMP_SOURCE file s;
    if negb (r =? 0) then mret (1, s)
    else if FindMatchingPatch (fc_sha1 file) patch_sha1_str <? 0 then mret (1, s)
    else mret (0, s)
  else mret (0, s).

(** ** Patching *)

(** Where the patched data goes: the descriptor of a file, or memory. *)
Record output := mk_output { out_fd : Z; out_msi : MemorySinkInfo }.

Definition patch_name (target_filename : list Z) : list Z := target_filename ++ str ".patch".

(** The source is the target as it is, or the source file. [None]: already patched. *)
Definition load_source (source_filename target_filename target_sha1 : list Z) s
    : outcome (option FileContents * ap) :=
  '(r, source_file, s) ← LoadFileContents target_filename uninit s;
  if (r =? 0) && (memcmp (fc_sha1 source_file) target_sha1 SHA_DIGEST_SIZE =? 0) then mret (None, s)
  else if is_null_data (fc_data source_file) || negb (strcmp target_filename source_filename =? 0) then
    '(_, source_file, s) ← LoadFileContents source_filename source_file s;
    mret (Some source_file, s)
  else mret (Some source_file, s).

(** The patch for the source file, or the copy in the cache with its patch. *)
Definition patch_for (source_file : FileContents) (patch_sha1_str : list (list Z)) (patch_data : list Value)
    : outcome (option Value) :=
  if is_null_data (fc_data source_file) then mret None
  else
    let to_use := FindMatchingPatch (fc_sha1 source_file) patch_sha1_str in
    if 0 <=? to_use then Some <$> rd patch_data to_use else mret None.

Definition load_copy (patch_sha1_str : list (list Z)) (patch_data : list Value) s
    : outcome (option (FileContents * Value) * ap) :=
  '(r, copy_file, s) ← LoadFileContents CACHE_TEMP_SOURCE uninit s;
  if r <? 0 then mret (None, s)
  else
    let to_use := FindMatchingPatch (fc_sha1 copy_file) patch_sha1_str in
    if 0 <? to_use then
      patch ← rd patch_data to_use; mret (Some (copy_file, patch), s)
    else mret (None, s).

(** What is fixed when the attempts begin. *)
Record job := mk_job {
  source_filename : list Z;
  target_filename : list Z;
  target_size : Z;
  source_file : FileContents;
  source_patch_value : option Value;
  copy_file : FileContents;
  copy_patch_value : Value
}.
Implicit Types (j : job).

(** The original is saved in the cache: [MakeFreeSpaceOnCache] and [SaveFileContents]. *)
Definition save_source j w : outcome (bool * W) :=
  let '(r, w) := MakeFreeSpaceOnCache (u32 (fc_size (source_file j))) w in
  if r <? 0 then mret (false, w)
  else
    '(r, w) ← SaveFileContents CACHE_TEMP_SOURCE (source_file j) w;
    mret (negb (r <? 0), w).

(** The start of an attempt. [None] is [return 1], otherwise [retry] and [made_copy]. The
    inner declaration of [enough_space] shadows the outer one, which stays 0. *)
Definition room_for_target j (retry : Z) (made_copy : bool) w : outcome (option (Z * bool) * W) :=
  if is_mtd (target_filename j) then
    '(ok, w) ← save_source j w;
    mret (if ok : bool then Some (0, true) else None, w)
  else
    let enough_space := false in
    let retry := if negb enough_space then 0 else retry in
    if negb enough_space && bool_decide (is_Some (source_patch_value j)) then
      if is_mtd (source_filename j) then mret (None, w)
      else
        '(ok, w) ← save_source j w;
        if negb ok then mret (None, w)
        else
          let '(_, w) := sys_unlink (source_filename j) w in
          mret (Some (0, true), w)
    else mret (Some (retry, made_copy), w).

Definition source_to_use j : FileContents :=
  match source_patch_value j with Some _ => source_file j | None => copy_file j end.
Definition patch_to_use j : Value := default (copy_patch_value j) (source_patch_value j).

Definition contents_of (f : FileContents) : outcome (list Z) :=
  match fc_data f with
  | Owned d => mret d
  | Null => Fault NullPointer
  | Freed => Fault UseAfterFree
  end.

Definition has_magic (patch : Value) (magic : list Z) : outcome bool :=
  if 8 <=? v_size patch then
    header ← rd_n (v_data patch) 0 8; mret (memcmp header magic 8 =? 0)
  else mret false.

(** The dispatch on the header. [None] is an unknown format. *)
Definition apply_with {T} j (sink : list Z → T → outcome (Z * T)) (token : T)
    : outcome (option (Z * SHA_CTX) * T) :=
  let patch := patch_to_use j in
  bs ← has_magic patch (str "BSDIFF40");
  if bs : bool then
    d ← contents_of (source_to_use j);
    '(r, token, ctx) ← ApplyBSDiffPatch alloc_ok fuel d (fc_size (source_to_use j)) patch 0
      sink token (Some SHA_init);
    mret (Some (r, default SHA_init ctx), token)
  else
    img ← has_magic patch (str "IMGDIFF2");
    if img : bool then
      d ← contents_of (source_to_use j);
      '(r, token, ctx) ← ApplyImagePatch alloc_ok fuel sink d patch token SHA_init;
      mret (Some (r, ctx), token)
    else mret (None, token).

(** The middle of an attempt. [None] is [return 1]. *)
Definition apply_to_memory j w : outcome (option (Z * SHA_CTX * output) * W) :=
  if negb (alloc_ok (target_size j)) then mret (None, w)
  else
    let msi := mk_sink (replicate (Z.to_nat (target_size j)) 0) (s32 (target_size j)) 0 in
    '(o, msi) ← apply_with j MemorySink msi;
    match o with
    | None => mret (None, w)
    | Some (r, ctx) => mret (Some (r, ctx, mk_output (-1) msi), w)
    end.

Definition apply_to_file j w : outcome (option (Z * SHA_CTX * output) * W) :=
  let '(fd, w) := sys_open_trunc (patch_name (target_filename j)) w in
  if fd <? 0 then mret (None, w)
  else
    '(o, w) ← apply_with j (FileSink fd) w;
    match o with
    | None => mret (None, w)
    | Some (r, ctx) =>
        mret (Some (r, ctx, mk_output fd (mk_sink [] 0 0)), sys_close fd (sys_fsync fd w))
    end.

Definition apply_once j w : outcome (option (Z * SHA_CTX * output) * W) :=
  if negb (v_type (patch_to_use j) =? PATCH_BLOB) then mret (None, w)
  else if is_mtd (target_filename j) then apply_to_memory j w
  else apply_to_file j w.

(** The [do] loop. [None] is [return 1]. *)
Fixpoint attempts (n : nat) j (retry : Z) (made_copy : bool) w
    : outcome (option (SHA_CTX * output * bool) * W) :=
  match n with
  | O => Diverge
  | S n =>
      '(room, w) ← room_for_target j retry made_copy w;
      match room with
      | None => mret (None, w)
      | Some (retry, made_copy) =>
          '(o, w) ← apply_once j w;
          match o with
          | None => mret (None, w)
          | Some (result, ctx, output) =>
              if negb (result =? 0) then
                if retry =? 0 then mret (None, w)
                else
                  let w := if is_mtd (target_filename j) then w
                           else (sys_unlink (patch_name (target_filename j)) w).2 in
                  if 0 <? retry then attempts n j (retry - 1) made_copy w
                  else mret (Some (ctx, output, made_copy), w)
              else mret (Some (ctx, output, made_copy), w)
          end
      end
  end.

(** The patched data takes the place of the target. *)
Definition install_output j (output : output) s : outcome (Z * ap) :=
  if out_fd output <? 0 then
    '(r, s) ← WriteToMTDPartition (msi_buffer (out_msi output)) (msi_pos (out_msi output)) (target_filename j) s;
    mret (if negb (r =? 0) then 1 else 0, s)
  else
    let outname := patch_name (target_filename j) in
    let st := fc_st (source_to_use j) in
    let '(r, w) := sys_chmod outname (st_mode st) (world s) in
    if negb (r =? 0) then mret (1, with_world s w)
    else
      let '(r, w) := sys_chown outname (st_uid st) (st_gid st) w in
      if negb (r =? 0) then mret (1, with_world s w)
      else
        let '(r, w) := sys_rename outname (target_filename j) w in
        mret (if negb (r =? 0) then 1 else 0, with_world s w).

Definition patch_and_install j (target_sha1 : list Z) s : outcome (Z * ap) :=
  '(o, w) ← attempts 3 j 1 false (world s);
  let s := with_world s w in
  match o with
  | None => mret (1, s)
  | Some (ctx, output, made_copy) =>
      if negb (memcmp (SHA_final ctx) target_sha1 SHA_DIGEST_SIZE =? 0) then mret (1, s)
      else
        '(r, s) ← install_output j output s;
        if negb (r =? 0) then mret (1, s)
        else if made_copy : bool then mret (0, with_world s (sys_unlink CACHE_TEMP_SOURCE (world s)).2)
        else mret (0, s)
  end.

(** A target named - is the source. *)
Definition target_of (source_filename target_filename : list Z) : list Z :=
  if (char_at target_filename 0 =? 45) && (char_at target_filename 1 =? 0)
  then source_filename else target_filename.

Definition applypatch (source_filename target_filename target_sha1_str : list Z) (target_size : Z)
    (patch_sha1_str : list (list Z)) (patch_data : list Value) s : outcome (Z * ap) :=
  let target_filename := target_of source_filename target_filename in
  match ParseSha1 target_sha1_str with
  | None => mret (1, s)
  | Some target_sha1 =>
      '(loaded, s) ← load_source source_filename target_filename target_sha1 s;
      match loaded with
      | None => mret (0, s)
      | Some source_file =>
          source_patch_value ← patch_for source_file patch_sha1_str patch_data;
          match source_patch_value with
          | Some patch =>
              patch_and_install (mk_job source_filename target_filename target_size source_file
                (Some patch) uninit (mk_value 0 0 [])) target_sha1 s
          | None =>
              let source_file := free_data source_file in
              '(copy, s) ← load_copy patch_sha1_str patch_data s;
              match copy with
              | None => mret (1, s)
              | Some (copy_file, patch) =>
                  patch_and_install (mk_job source_filename target_filename target_size source_file
                    None copy_file patch) target_sha1 s
              end
          end
      end
  end.
End code.

(** ** A run *)
Module ApplyDemo.
#[export] Existing Instances BzDemo.toy_bzip2 ImgDemo.toy_sha ImgDemo.toy_deflate FsDemo.os.
#[export] Instance toy_digest : ShaDigest := {| SHA l := SHA_final (SHA_update SHA_init l) |}.
(** A system without flash devices. *)
#[export] Instance no_flash : MtdDriver FsDemo.fs := {|
  proc_mtd _ := None;
  dev_open _ _ w := (-1, w);
  dev_seek _ _ w := (-1, w);
  dev_read _ _ w := (-1, [], w);
  dev_write _ _ w := (-1, w);
  dev_close _ w := (-1, w);
  ECCGETSTATS _ _ := None;
  MEMGETBADBLOCK _ _ _ := -1;
  MEMERASE _ _ _ w := (-1, w);
  MEMGETINFO _ _ := None
|}.

Definition digit_char (d : Z) : Z := if d <? 10 then 48 + d else 87 + d.
Definition hex_text (l : list Z) : list Z := l ≫= λ b, [digit_char (b / 16); digit_char (b mod 16)].
Definition app : list Z := str "/system/app".
Definition junk : FileContents := mk_file [] Null 0 (mk_stat 0 0 0 0).
Definition with_files (l : list (list Z * list Z)) : ap (W := FsDemo.fs) :=
  mk_ap (foldr (λ '(p, c), FsDemo.upd p (Some c)) (λ _, None) l, None) g_mtd_state false.
Definition old_sha : list Z := hex_text (SHA (str "abcd")).
Definition new_sha : list Z := hex_text (SHA (str "abxyd")).
Definition demo_run (s : ap (W := FsDemo.fs)) : outcome (Z * ap (W := FsDemo.fs)) :=
  applypatch (λ _, true) 20 junk app (str "-") new_sha 5 [old_sha] [BzDemo.demo_patch] s.
Definition demo_after (files : list (list Z * list Z)) (p : list Z) : outcome (Z * option (list Z)) :=
  '(r, s) ← demo_run (with_files files); mret (r, (world s).1 p).

Example patches : demo_after [(app, str "abcd")] app = Ret (0, Some (str "abxyd")).
Proof. vm_compute. reflexivity. Qed.
Example patched_already : demo_after [(app, str "abxyd")] app = Ret (0, Some (str "abxyd")).
Proof. vm_compute. reflexivity. Qed.
Example unknown_source : demo_after [(app, str "abce")] app = Ret (1, Some (str "abce")).
Proof. vm_compute. reflexivity. Qed.
(** The saved copy of the source is not used: its patch is the first one. *)
Example copy_not_used : demo_after [(CACHE_TEMP_SOURCE, str "abcd")] app = Ret (1, None).
Proof. vm_compute. reflexivity. Qed.
End ApplyDemo.
