(* ===== verification/Applysafe.v ===== *)
(** * Applysafe

    The promises of applypatch.c: checksums as text, what a run that fails leaves on the
    file system, what a run that succeeds has installed, and where the code breaks its
    promises. *)
From S2P Require Import Prelude CString Syscalls Files Freecache Mtdutils Mtdflash Bspatch Imgpatch Applypatch.

(** ** Checksums *)

(** The reference reading: 40 digits, two for a byte. *)
Fixpoint pair_up (ds : list Z) : list Z :=
  match ds with a :: b :: ds => a * 16 + b :: pair_up ds | _ => [] end.
Definition sha1_text (s d : list Z) : Prop :=
  ∃ ds, mapM sha_digit s = Some ds ∧ length ds = 40%nat ∧ d = pair_up ds.

Lemma sha_digit_range c d : sha_digit c = Some d → 0 ≤ d < 16 ∧ 0 < c < 256.
Proof.
  unfold sha_digit.
  destruct (Z.leb_spec 48 c), (Z.leb_spec c 57), (Z.leb_spec 97 c), (Z.leb_spec c 102),
    (Z.leb_spec 65 c), (Z.leb_spec c 70); simpl; intros [= <-] || intros ?; try done; lia.
Qed.

Lemma parse_two n i ps digest a b :
  Nat.Even i → (i / 2 < length digest)%nat →
  sha_digit (char_at ps 0) = Some a → sha_digit (char_at ps 1) = Some b →
  parse_digits (S (S n)) i ps digest =
    parse_digits n (S (S i)) (drop 2 ps) (<[(i / 2)%nat := a * 16 + b]> digest).
Proof.
  intros Hi Hlen Ha Hb. cbn [parse_digits]. rewrite Ha. cbn [mbind option_bind].
  replace (char_at (drop 1 ps) 0) with (char_at ps 1) by (by destruct ps as [|? [|]]).
  rewrite Hb. cbn [mbind option_bind]. rewrite drop_drop.
  rewrite (proj2 (Nat.even_spec i) Hi), (Nat.even_succ i), <- Nat.negb_even, (proj2 (Nat.even_spec i) Hi).
  cbn [negb].
  assert (Hdiv : (S i / 2 = i / 2)%nat).
  { destruct Hi as [k ->]. pose proof (Nat.div_mod_eq (2 * k) 2). pose proof (Nat.div_mod_eq (S (2 * k)) 2).
    pose proof (Nat.mod_upper_bound (2 * k) 2). pose proof (Nat.mod_upper_bound (S (2 * k)) 2). lia. }
  rewrite Hdiv, list_lookup_insert_eq, list_insert_insert by done. cbn [default from_option].
  rewrite decide_True by done.
  apply sha_digit_range in Ha as [Ha _], Hb as [Hb _]. do 2 f_equal.
  rewrite Z.shiftl_mul_pow2, u8_small by lia.
  unfold id. rewrite (lor_disjoint_add _ _ 4); [lia|lia|apply Z.mod_mul; lia|lia].
Qed.

Lemma parse_none n i ps digest : sha_digit (char_at ps 0) = None → parse_digits (S n) i ps digest = None.
Proof. intros Ha. cbn [parse_digits]. by rewrite Ha. Qed.


(** The value of the digits at the front, when there are enough. *)
Lemma parse_digits_spec n s prefix junk :
  length junk = n →
  parse_digits (2 * n) (2 * length prefix) s (prefix ++ junk) =
    match mapM sha_digit (take (2 * n) s) with
    | Some ds => if (length ds =? 2 * n)%nat then Some (drop (2 * n) s, prefix ++ pair_up ds) else None
    | None => None
    end.
Proof.
  revert s prefix junk. induction n as [|n IH]; intros s prefix junk Hj.
  { destruct junk; [|done]. simpl. by rewrite app_nil_r. }
  destruct junk as [|x junk]; [done|]. injection Hj as Hj.
  replace (2 * S n)%nat with (S (S (2 * n))) by lia.
  destruct s as [|a [|b s]].
  - by rewrite parse_none.
  - cbn [take mapM]. destruct (sha_digit a) as [da|] eqn:Ha; [|by rewrite parse_none].
    cbn [parse_digits]. change (char_at [a] 0) with a. rewrite Ha. cbn [mbind option_bind].
    change (char_at (drop 1 [a]) 0) with 0. done.
  - cbn [take mapM]. destruct (sha_digit a) as [da|] eqn:Ha; [|by rewrite parse_none].
    cbn [mbind option_bind]. destruct (sha_digit b) as [db|] eqn:Hb; cycle 1.
    { cbn [parse_digits]. change (char_at (a :: b :: s) 0) with a. rewrite Ha. cbn [mbind option_bind].
      change (char_at (drop 1 (a :: b :: s)) 0) with b. by rewrite Hb. }
    assert (Hhalf : (2 * length prefix / 2 = length prefix)%nat) by (rewrite Nat.mul_comm; apply Nat.div_mul; lia).
    rewrite (parse_two (2 * n) (2 * length prefix) (a :: b :: s) (prefix ++ x :: junk) da db (ex_intro _ (length prefix) eq_refl)
      ltac:(rewrite Hhalf, length_app; simpl; lia) Ha Hb).
    rewrite Hhalf. rewrite insert_app_r_alt by lia. rewrite Nat.sub_diag.
    cbn [insert list_insert drop].
    specialize (IH s (prefix ++ [da * 16 + db]) junk Hj).
    rewrite length_app, <- app_assoc in IH. cbn [length app] in IH.
    rewrite drop_0. replace (S (S (2 * length prefix))) with (2 * (length prefix + 1))%nat by lia. rewrite IH.
    cbn [mbind option_bind]. destruct (mapM sha_digit (take (2 * n) s)) as [ds|]; [|done].
    unfold mret, option_ret. cbn [mbind option_bind length Nat.eqb pair_up].
    destruct (length ds =? 2 * n)%nat; [|done].
    by rewrite <- app_assoc.
Qed.

Lemma ParseSha1_spec s d : cstr s → ParseSha1 s = Some d ↔ sha1_text s d.
Proof.
  intros Hs. unfold ParseSha1, sha1_text.
  pose proof (parse_digits_spec 20 s [] (replicate 20 0) eq_refl) as Hp.
  change (2 * 20)%nat with 40%nat in Hp. change (2 * length [])%nat with 0%nat in Hp.
  cbn [app] in Hp. rewrite Hp. split.
  - destruct (mapM sha_digit (take 40 s)) as [ds|] eqn:Hds; [|done].
    destruct (Nat.eqb_spec (length ds) 40) as [Hlen|]; [|done]. cbn [mbind option_bind].
    destruct (Z.eqb_spec (char_at (drop 40 s) 0) 0) as [H0|]; [|done]. intros [= <-].
    exists ds. split; [|done]. rewrite <- Hds. f_equal.
    assert (drop 40 s = []) as Hnil; [|by rewrite <- (take_drop 40 s), Hnil, app_nil_r at 1].
    assert (Hc : cstr (drop 40 s)) by by apply Forall_drop.
    destruct (drop 40 s) as [|c r]; [done|]. apply Forall_cons in Hc as [? _]. cbn in H0. lia.
  - intros (ds & Hds & Hlen & ->). pose proof (length_mapM _ _ _ Hds) as Hl.
    rewrite take_ge by lia. rewrite Hds, Hlen. cbn [Nat.eqb mbind option_bind].
    rewrite drop_ge by lia. done.
Qed.

(** A digest with anything behind it is not accepted. *)
Lemma ParseSha1_rejects_suffix s d r :
  cstr (s ++ 58 :: r) → sha1_text s d → ParseSha1 (s ++ 58 :: r) = None.
Proof.
  intros Hc (ds & Hds & Hlen & _). destruct (ParseSha1 (s ++ 58 :: r)) as [d'|] eqn:Hp; [|done].
  apply ParseSha1_spec in Hp as (ds' & Hds' & _); [|done].
  rewrite mapM_Some in Hds'. apply Forall2_app_inv_l in Hds' as (k1 & k2 & _ & H2 & _).
  inversion H2 as [|? ? ? ? Hbad]. done.
Qed.

(** : [ParseSha1] reads a string exactly if it consists of 40 hexadecimal digits, in either
    case, and then yields the 20 bytes they stand for. *)
Theorem ParseSha1_correct s d : cstr s → ParseSha1 s = Some d ↔ sha1_text s d.
Proof. apply ParseSha1_spec. Qed.

(** ** Sinks and the patches

    What every call of the sink preserves, applying a patch preserves. *)

Section sinks.
Context `{Bzip2} `{Sha1} `{Deflate} {T : Type}.
Context (alloc_ok : Z → bool) (fuel : nat) (sink : list Z → T → outcome (Z * T)) (I : T → Prop).
Context (Hsink : ∀ l t, I t → post (sink l t) (λ o, I o.2)).
Implicit Types (t : T).

Ltac post_step := first
  [ apply post_ret; done
  | case_match
  | eapply post_bind; [by apply Hsink|]; intros [? ?] ?; simpl
  | apply post_any; intros ?
  | progress cbv zeta ].

Lemma ApplyBSDiffPatch_closed old_data old_size patch off t ctx :
  I t → post (ApplyBSDiffPatch alloc_ok fuel old_data old_size patch off sink t ctx) (λ o, I o.1.2).
Proof. intros Ht. unfold ApplyBSDiffPatch. repeat post_step. Qed.

Lemma deflate_loop_closed n strm size t ctx :
  I t → post (deflate_loop sink n strm size t ctx) (λ o, I o.1.2).
Proof.
  revert strm t ctx. induction n as [|n IH]; intros strm t ctx Ht; [by intros ?|]. cbn [deflate_loop].
  repeat (post_step || (apply IH; done)).
Qed.

Lemma chunk_loop_closed n old_data patch pos t ctx :
  I t → post (chunk_loop alloc_ok fuel sink n old_data patch pos t ctx) (λ o, I o.1.2).
Proof.
  revert pos t ctx. induction n as [|n IH]; intros pos t ctx Ht; [by apply post_ret|]. cbn [chunk_loop].
  apply post_any; intros end_. case_match; [by apply post_ret|]. apply post_any; intros type.
  eapply (post_bind _ _ (λ o, I o.1.2)).
  - case_match; [|case_match; [|case_match; [|by apply post_ret]]].
    + unfold normal_chunk. repeat first
        [ apply post_ret; done | case_match
        | eapply post_bind; [by apply ApplyBSDiffPatch_closed|]; intros [[? ?] ?] ?; simpl
        | apply post_any; intros ? ].
    + unfold raw_chunk. repeat post_step.
    + unfold deflate_chunk. repeat first
        [ apply post_ret; done | case_match
        | eapply post_bind; [by apply deflate_loop_closed|]; intros [[? ?] ?] ?; simpl
        | apply post_any; intros ? | progress cbv zeta ].
  - intros [[[r p] t'] c'] Ht'. simpl in Ht'. case_match; [by apply post_ret|]. by apply IH.
Qed.

Lemma ApplyImagePatch_closed old_data patch t ctx :
  I t → post (ApplyImagePatch alloc_ok fuel sink old_data patch t ctx) (λ o, I o.1.2).
Proof.
  intros Ht. unfold ApplyImagePatch. case_match; [by apply post_ret|]. apply post_any; intros magic.
  case_match; [by apply post_ret|]. apply post_any; intros n. by apply chunk_loop_closed.
Qed.
End sinks.

(** Where [MakeFreeSpaceOnCache] may delete. *)
Definition in_cache (p : list Z) : Prop :=
  ∃ dir name, dir ∈ deletable_dirs ∧ p = dir ++ str "/" ++ name.

Section safety.
Context `{Bzip2} `{Sha1} `{!ShaDigest} `{Deflate} {W : Type} `{PatchOS W} `{!FsLaws} `{MtdDriver W}.
Context (alloc_ok : Z → bool) (fuel : nat) (uninit : FileContents).
Implicit Types (w : W) (j : job).

(** The files outside [P] are as before. *)
Definition keeps (P : list Z → Prop) w w' : Prop := ∀ q, ¬ P q → file_at w' q = file_at w q.

Lemma keeps_trans (P : list Z → Prop) w1 w2 w3 : keeps P w1 w2 → keeps P w2 w3 → keeps P w1 w3.
Proof. intros Hk1 Hk2 q Hq. by rewrite Hk2, Hk1. Qed.
Lemma keeps_weaken (P Q : list Z → Prop) w w' : keeps P w w' → (∀ q, P q → Q q) → keeps Q w w'.
Proof. intros Hk HPQ q Hq. apply Hk. auto. Qed.

(** A file that is being written. *)
Definition sinking fd p w0 w : Prop :=
  opened w fd = Some p ∧ is_Some (file_at w p) ∧ keeps (λ q, q = p) w0 w.

Lemma sink_loop_spec n fd p data done_ c w :
  (length data < n + Z.to_nat done_)%nat → 0 ≤ done_ ≤ zlen data →
  opened w fd = Some p → file_at w p = Some c →
  wp (sink_loop n fd data done_ w) (λ '(r, w'), done_ ≤ r ≤ zlen data ∧ opened w' fd = Some p ∧
    file_at w' p = Some (c ++ take (Z.to_nat (r - done_)) (drop (Z.to_nat done_) data)) ∧
    ∀ q, q ≠ p → file_at w' q = file_at w q).
Proof.
  revert done_ c w. induction n as [|n IH]; intros d c w Hn Hd Ho Hc; [lia|]. cbn [sink_loop].
  destruct (Z.ltb_spec d (zlen data)); cycle 1.
  { simpl. split; [lia|]. split; [done|]. rewrite Z.sub_diag. simpl. by rewrite app_nil_r. }
  pose proof (write_file_ok fd (drop (Z.to_nat d) data) w p c Ho Hc) as Hw.
  destruct (sys_write _ _ _) as [k w1]. destruct Hw as (Ho1 & Hk & Hc1 & Hq1).
  rewrite length_drop in Hk. destruct (Z.leb_spec k 0).
  { simpl. split; [lia|]. split; [done|]. rewrite Z.sub_diag.
    replace (Z.to_nat k) with O in Hc1 by lia. split; [exact Hc1|done]. }
  eapply wp_mono; [apply (IH (d + k) (c ++ take (Z.to_nat k) (drop (Z.to_nat d) data)) w1); [lia|lia|done|done]|].
  intros [r w'] (Hr & Ho' & Hc' & Hq'). split; [lia|]. split; [done|].
  split; [|intros q Hne; by rewrite Hq', Hq1]. rewrite Hc', <- app_assoc. do 2 f_equal.
  replace (drop (Z.to_nat (d + k)) data) with (drop (Z.to_nat k) (drop (Z.to_nat d) data)).
  - rewrite take_take_drop. f_equal. lia.
  - rewrite drop_drop. f_equal. lia.
Qed.

Lemma FileSink_spec fd p data c w :
  opened w fd = Some p → file_at w p = Some c →
  wp (FileSink fd data w) (λ '(r, w'), 0 ≤ r ≤ zlen data ∧ opened w' fd = Some p ∧
    file_at w' p = Some (c ++ take (Z.to_nat r) data) ∧ ∀ q, q ≠ p → file_at w' q = file_at w q).
Proof.
  intros Ho Hc. eapply wp_mono; [apply (sink_loop_spec (S (length data)) fd p data 0 c w); [lia|lia|done|done]|].
  intros [r w']. by rewrite Z.sub_0_r.
Qed.

Lemma FileSink_sinking fd p w0 data w r w' :
  sinking fd p w0 w → FileSink fd data w = Ret (r, w') → sinking fd p w0 w'.
Proof.
  intros (Ho & [c Hc] & Hk) Hs. pose proof (FileSink_spec fd p data c w Ho Hc) as Hw. rewrite Hs in Hw.
  destruct Hw as (_ & Ho' & Hc' & Hq). split; [done|]. split; [by rewrite Hc'|].
  intros q Hne. rewrite Hq by done. by apply Hk.
Qed.

(** *** Saving the source *)
Lemma deletable_in_cache w p : deletable w p → in_cache p ∧ p ≠ CACHE_TEMP_SOURCE.
Proof.
  intros ((dir & names & name & Hdir & _ & _ & ->) & _ & Hne & _). split; [by exists dir, name|].
  intros Heq. rewrite Heq in Hne. by apply Hne.
Qed.

Lemma unlinks_keeps n w0 w w' :
  unlinks n w0 w w' → keeps (λ q, in_cache q ∧ q ≠ CACHE_TEMP_SOURCE) w w'.
Proof.
  induction 1 as [w|w p w' Hd Hlt Hun IH]; [done|]. eapply keeps_trans; [|exact IH].
  intros q Hq. pose proof (unlink_ok p w) as Hu. destruct (sys_unlink p w) as [r w1]. simpl.
  apply Hu. intros ->. apply Hq. by eapply deletable_in_cache.
Qed.

Lemma SaveFileContents_spec p f d w r w' :
  fc_data f = Owned d → fc_size f = zlen d → SaveFileContents p f w = Ret (r, w') →
  keeps (λ q, q = p) w w' ∧ (0 ≤ r → file_at w' p = Some d).
Proof.
  intros Hd Hsize. unfold SaveFileContents. rewrite Hd, Hsize.
  pose proof (open_trunc_ok p w) as Hopen. destruct (sys_open_trunc p w) as [fd w1].
  destruct Hopen as [Hq1 Hp1]. destruct (fd <? 0).
  { intros [= <- <-]. split; [|intros ?; lia]. intros q Hq. auto. }
  destruct Hp1 as [Hc1 Ho1]. intros Hrun. step_ret Hrun. destruct a as [n w2].
  assert (Hwr : 0 ≤ n ≤ zlen d ∧ file_at w2 p = Some (take (Z.to_nat n) d) ∧ keeps (λ q, q = p) w w2).
  { destruct (Z.leb_spec (zlen d) 0).
    - inv_ret. simplify_eq. split; [lia|]. split; [by rewrite Hc1|]. intros q Hq. auto.
    - rewrite rd_n_in_bounds in E by lia. cbn [mbind outcome_bind] in E.
      change (Z.to_nat 0) with O in E. rewrite Nat2Z.id, drop_0, firstn_all in E.
      pose proof (FileSink_spec fd p d [] w1 Ho1 Hc1) as Hs. rewrite E in Hs.
      destruct Hs as (? & _ & ? & Hq2). split; [done|]. split; [done|].
      intros q Hq. rewrite Hq2, Hq1; done. }
  destruct Hwr as (Hn & Hc2 & Hk2). clear E.
  destruct (Z.eqb_spec n (zlen d)) as [->|]; simpl in Hrun; cycle 1.
  { injection Hrun as <- <-. split; [|intros ?; lia]. intros q Hq. rewrite close_file_ok. by apply Hk2. }
  rewrite Nat2Z.id, firstn_all in Hc2. revert Hrun. set (w3 := sys_close fd (sys_fsync fd w2)).
  assert (Heq3 : ∀ q, file_at w3 q = file_at w2 q) by (intros; subst w3; by rewrite close_file_ok, fsync_ok).
  clearbody w3. pose proof (chmod_ok p (st_mode (fc_st f)) w3) as Hm.
  destruct (sys_chmod _ _ _) as [r4 w4]. simpl in Hm.
  destruct (r4 =? 0); simpl; cycle 1.
  { intros [= <- <-]. split; [|intros ?; lia]. intros q Hq. rewrite Hm, Heq3. by apply Hk2. }
  pose proof (chown_ok p (st_uid (fc_st f)) (st_gid (fc_st f)) w4) as Ho.
  destruct (sys_chown _ _ _ _) as [r5 w5]. simpl in Ho.
  assert (Hend : keeps (λ q, q = p) w w5 ∧ file_at w5 p = Some d).
  { split; [intros q Hq; rewrite Ho, Hm, Heq3; by apply Hk2|by rewrite Ho, Hm, Heq3]. }
  destruct (r5 =? 0); simpl; intros [= <- <-]; (split; [apply Hend|]); [intros _; apply Hend|intros ?; lia].
Qed.

(** *** Loading *)
Definition loaded (p : list Z) w (f : FileContents) : Prop :=
  ∃ d, fc_data f = Owned d ∧ fc_size f = zlen d ∧ fc_sha1 f = SHA d ∧ file_at w p = Some d.

Lemma LoadFileContents_spec p f s r f' s' :
  is_mtd p = false → LoadFileContents alloc_ok fuel p f s = Ret (r, f', s') →
  s' = s ∧ (r = -1 ∧ fc_data f' = Null ∨ r = 0 ∧ loaded p (world s) f').
Proof.
  intros Hp. unfold LoadFileContents. rewrite Hp.
  destruct (sys_stat p (world s)) as [st|] eqn:Hst; [|by intros [= <- <- <-]; auto].
  destruct (sys_fread p _ _) as [bytes|] eqn:Hb; [|by intros [= <- <- <-]; auto].
  destruct (fread_ok _ _ _ _ Hb) as (c & Hc & Hbytes).
  destruct (stat_ok _ _ _ _ Hst Hc) as [Hsize Hsmall].
  destruct (negb _ && _); [done|].
  destruct (Z.eqb_spec (zlen bytes) (s32 (st_size st))) as [Hlen|]; simpl; intros [= <- <- <-]; [|auto].
  split; [done|]. right. split; [done|]. exists bytes. simpl. repeat split; [done|].
  rewrite s32_small, Hsize in Hbytes by lia. by rewrite Nat2Z.id, firstn_all in Hbytes; subst.
Qed.

Lemma load_source_spec src tgt sha s o s' :
  is_mtd src = false → is_mtd tgt = false → cstr src → cstr tgt →
  load_source alloc_ok fuel uninit src tgt sha s = Ret (o, s') →
  s' = s ∧ match o with
           | None => ∃ d, file_at (world s) tgt = Some d ∧ memcmp (SHA d) sha SHA_DIGEST_SIZE = 0
           | Some f => fc_data f = Null ∨ loaded src (world s) f
           end.
Proof.
  intros Hsrc Htgt Hcs Hct Hrun. unfold load_source in Hrun. step_ret Hrun. destruct a as [[r f] s1].
  apply LoadFileContents_spec in E as [-> Hf]; [|done].
  destruct ((r =? 0) && (memcmp (fc_sha1 f) sha SHA_DIGEST_SIZE =? 0)) eqn:Hdone.
  { injection Hrun as <- <-. split; [done|]. apply andb_true_iff in Hdone as [->%Z.eqb_eq Hm%Z.eqb_eq].
    destruct Hf as [[? _]|(_ & d & _ & _ & Hsha & Hd)]; [lia|]. exists d. by rewrite <- Hsha. }
  destruct (is_null_data (fc_data f) || negb (strcmp tgt src =? 0)) eqn:Hload.
  - step_ret Hrun. destruct a as [[r2 f2] s2]. apply LoadFileContents_spec in E as [-> Hf2]; [|done].
    injection Hrun as <- <-. split; [done|]. destruct Hf2 as [[_ ?]|[_ ?]]; auto.
  - injection Hrun as <- <-. split; [done|]. apply orb_false_iff in Hload as [Hnn Heq%negb_false_iff%Z.eqb_eq].
    apply strcmp_0 in Heq as ->; [|done..]. destruct Hf as [[_ ?]|[_ ?]]; auto.
Qed.

(** *** An attempt on files *)

(** The names of a job tell its files apart; none of them lies where room is made. *)
Record names_ok (src tgt : list Z) : Prop := {
  src_cstr : cstr src;
  tgt_cstr : cstr tgt;
  src_not_mtd : is_mtd src = false;
  tgt_not_mtd : is_mtd tgt = false;
  src_not_cache : ¬ in_cache src;
  tgt_not_cache : ¬ in_cache tgt;
  src_not_saved : src ≠ CACHE_TEMP_SOURCE;
  tgt_not_saved : tgt ≠ CACHE_TEMP_SOURCE;
  out_not_cache : ¬ in_cache (patch_name tgt);
  out_not_src : patch_name tgt ≠ src;
  out_not_saved : patch_name tgt ≠ CACHE_TEMP_SOURCE
}.

(** A source that is to be patched has been loaded. *)
Record file_job j w : Prop := {
  job_names :> names_ok (source_filename j) (target_filename j);
  src_loaded : is_Some (source_patch_value j) → loaded (source_filename j) w (source_file j)
}.

(** The files that saving the source may change. *)
Definition scratch (q : list Z) : Prop := in_cache q ∨ q = CACHE_TEMP_SOURCE.

Lemma save_source_spec j w d ok w' :
  fc_data (source_file j) = Owned d → fc_size (source_file j) = zlen d →
  save_source j w = Ret (ok, w') →
  keeps scratch w w' ∧ (ok = true → file_at w' CACHE_TEMP_SOURCE = Some d).
Proof.
  intros Hd Hsize Hrun. unfold save_source in Hrun.
  pose proof (MakeFreeSpaceOnCache_spec (u32 (fc_size (source_file j))) w) as Hfree.
  destruct (MakeFreeSpaceOnCache _ _) as [r w1]. destruct Hfree as (Hun & _).
  apply unlinks_keeps in Hun.
  assert (Hk1 : keeps scratch w w1) by (eapply keeps_weaken; [exact Hun|intros q [? _]; by left]).
  destruct (r <? 0); [by injection Hrun as <- <-|]. step_ret Hrun. destruct a as [r2 w2].
  injection Hrun as <- <-. destruct (SaveFileContents_spec _ _ _ _ _ _ Hd Hsize E) as [Hk2 Hsaved].
  split.
  - eapply keeps_trans; [exact Hk1|]. eapply keeps_weaken; [exact Hk2|]. intros q ->. by right.
  - intros Hok. apply Hsaved. destruct (Z.ltb_spec r2 0); [done|lia].
Qed.

(** The source is where it was, or has been saved. *)
Definition source_safe j d w : Prop :=
  file_at w (source_filename j) = Some d ∨ file_at w CACHE_TEMP_SOURCE = Some d.

Lemma room_for_target_spec j w retry made o w' :
  file_job j w → room_for_target j retry made w = Ret (o, w') →
  keeps (λ q, scratch q ∨ q = source_filename j) w w' ∧
  (source_patch_value j = None → w' = w ∧ o = Some (0, made)) ∧
  (∀ d, is_Some (source_patch_value j) → file_at w (source_filename j) = Some d →
     match o with
     | None => file_at w' (source_filename j) = Some d
     | Some (retry', made') => retry' = 0 ∧ file_at w' CACHE_TEMP_SOURCE = Some d
     end).
Proof.
  intros Hj. unfold room_for_target. rewrite (tgt_not_mtd _ _ Hj), (src_not_mtd _ _ Hj). simpl.
  destruct (source_patch_value j) as [patch|] eqn:Hpatch; simpl; cycle 1.
  { intros [= <- <-]. split; [done|]. split; [done|]. by intros d [? ?]. }
  intros Hrun. step_ret Hrun. destruct a as [ok w1].
  destruct (src_loaded _ _ Hj ltac:(by rewrite Hpatch)) as (d & Hd & Hsize & _ & Hfile).
  destruct (save_source_spec _ _ _ _ _ Hd Hsize E) as [Hk Hsaved].
  assert (Hsrc : file_at w1 (source_filename j) = Some d).
  { rewrite Hk; [done|]. intros [?|?]; [by apply (src_not_cache _ _ Hj)|by apply (src_not_saved _ _ Hj)]. }
  destruct ok; simpl in Hrun; cycle 1.
  { injection Hrun as <- <-. split; [eapply keeps_weaken; [exact Hk|]; by left|]. split; [done|].
    intros d' _ Hd'. congruence. }
  pose proof (unlink_ok (source_filename j) w1) as Hu. destruct (sys_unlink _ _) as [r w2].
  destruct Hu as [Hu _]. injection Hrun as <- <-. split; [|split; [done|]].
  - intros q Hq. rewrite Hu by (intros ->; apply Hq; by right). apply Hk. intros ?. apply Hq. by left.
  - intros d' _ Hd'. split; [done|]. rewrite Hu by (intros Heq; by apply (src_not_saved _ _ Hj)).
    rewrite Hsaved by done. congruence.
Qed.

Lemma apply_with_closed {T} j (sink : list Z → T → outcome (Z * T)) (I : T → Prop) t :
  (∀ l t, I t → post (sink l t) (λ o, I o.2)) → I t →
  post (apply_with alloc_ok fuel j sink t) (λ o, I o.2).
Proof.
  intros Hsink Ht. unfold apply_with. apply post_any; intros bs. case_match.
  - apply post_any; intros d. eapply post_bind; [by apply ApplyBSDiffPatch_closed|].
    intros [[r t'] c] Ht'. by apply post_ret.
  - apply post_any; intros img. case_match; [|by apply post_ret].
    apply post_any; intros d. eapply post_bind; [by apply ApplyImagePatch_closed|].
    intros [[r t'] c] Ht'. by apply post_ret.
Qed.

Lemma apply_to_file_keeps j w o w' :
  apply_to_file alloc_ok fuel j w = Ret (o, w') → keeps (λ q, q = patch_name (target_filename j)) w w'.
Proof.
  unfold apply_to_file. set (p := patch_name _). pose proof (open_trunc_ok p w) as Hopen.
  destruct (sys_open_trunc p w) as [fd w1]. destruct Hopen as [Hq1 Hp1].
  assert (Hk1 : keeps (λ q, q = p) w w1) by (intros q Hq; auto).
  destruct (fd <? 0); [by intros [= <- <-]|]. destruct Hp1 as [Hc1 Ho1]. intros Hrun. step_ret Hrun.
  destruct a as [r w2].
  assert (Hs : sinking fd p w w2).
  { refine (apply_with_closed j (FileSink fd) (sinking fd p w) w1 _ _ (r, w2) E).
    - intros l t Ht [n t'] Hn. by eapply FileSink_sinking.
    - split; [done|]. split; [by rewrite Hc1|done]. }
  destruct Hs as (_ & _ & Hk). destruct r as [[r ctx]|]; injection Hrun as <- <-; [|done].
  intros q Hq. rewrite close_file_ok, fsync_ok. by apply Hk.
Qed.

(** Everything an attempt may change. *)
Definition job_files j (q : list Z) : Prop :=
  scratch q ∨ q = source_filename j ∨ q = patch_name (target_filename j).

(** The patch has the header of bsdiff. *)
Definition bs_patch (v : Value) : Prop := has_magic v (str "BSDIFF40") = Ret true.

(** What an attempt on files that comes to its end has made. *)
Definition made_output j (ctx : SHA_CTX) (output : output) w : Prop :=
  0 ≤ out_fd output ∧ (bs_patch (patch_to_use j) → ∃ new,
    file_at w (patch_name (target_filename j)) = Some new ∧ ctx = SHA_update SHA_init new).

Lemma apply_to_file_made j w result ctx output w' :
  apply_to_file alloc_ok fuel j w = Ret (Some (result, ctx, output), w') → result = 0 →
  made_output j ctx output w'.
Proof.
  unfold apply_to_file, made_output. set (p := patch_name _). pose proof (open_trunc_ok p w) as Hopen.
  destruct (sys_open_trunc p w) as [fd w1]. destruct Hopen as [_ Hp1].
  destruct (Z.ltb_spec fd 0); [done|]. destruct Hp1 as [Hc1 Ho1]. intros Hrun Hres. step_ret Hrun.
  destruct a as [[[r c]|] w2]; [|done]. injection Hrun as <- <- <- <-. split; [done|]. intros Hbs.
  unfold apply_with in E. rewrite Hbs in E. cbn [mbind outcome_bind] in E.
  step_ret E. step_ret E. destruct a0 as [[r2 t2] c2]. injection E as <- <- <-. rewrite Hres in E1.
  unfold ApplyBSDiffPatch in E1. step_ret E1. destruct a0 as [r3 new]. destruct (negb (r3 =? 0)); [done|].
  step_ret E1. destruct a0 as [n t3].
  pose proof (FileSink_spec fd p new [] w1 Ho1 Hc1) as Hs. rewrite E2 in Hs.
  destruct Hs as (Hn & _ & Hc3 & _). destruct (Z.ltb_spec n (zlen new)); [done|].
  injection E1 as <- <-. exists new. rewrite close_file_ok, fsync_ok, Hc3. cbn [app].
  rewrite take_ge by lia. done.
Qed.

Lemma attempts_spec j w n o w' :
  file_job j w → attempts alloc_ok fuel n j 1 false w = Ret (o, w') →
  (keeps (job_files j) w w' ∧
   (source_patch_value j = None → keeps (λ q, q = patch_name (target_filename j)) w w') ∧
   (∀ d, file_at w (source_filename j) = Some d → source_safe j d w')) ∧
  match o with Some (ctx, output, _) => made_output j ctx output w' | None => True end.
Proof.
  intros Hj. destruct n as [|n]; [done|]. cbn [attempts]. intros Hrun. step_ret Hrun.
  destruct a as [room w1]. destruct (room_for_target_spec _ _ _ _ _ _ Hj E) as (Hk1 & Hnone & Hsome). clear E.
  assert (Hout : ∀ o w2, apply_once alloc_ok fuel j w1 = Ret (o, w2) →
    keeps (λ q, q = patch_name (target_filename j)) w1 w2).
  { intros o2 w2. unfold apply_once. rewrite (tgt_not_mtd _ _ Hj).
    destruct (negb _); [by intros [= <- <-]|]. apply apply_to_file_keeps. }
  assert (Hfinal : ∀ w2, (room ≠ None → keeps (λ q, q = patch_name (target_filename j)) w1 w2) →
    (room = None → w2 = w1) → keeps (job_files j) w w2 ∧
      (source_patch_value j = None → keeps (λ q, q = patch_name (target_filename j)) w w2) ∧
      (∀ d, file_at w (source_filename j) = Some d → source_safe j d w2)).
  { intros w2 Hk2 Hn2.
    assert (Hk2' : keeps (λ q, q = patch_name (target_filename j)) w1 w2).
    { destruct room; [by apply Hk2|]. by rewrite Hn2. }
    split; [|split].
    - intros q Hq. rewrite Hk2' by (intros ->; apply Hq; right; by right).
      apply Hk1. intros [?| ->]; apply Hq; [by left|right; by left].
    - intros Hp. destruct (Hnone Hp) as [-> _]. done.
    - intros d Hd. destruct (source_patch_value j) as [patch|] eqn:Hp.
      + specialize (Hsome d ltac:(done) Hd). destruct room as [[retry made]|].
        * right. destruct Hsome as [_ Hs]. rewrite Hk2'; [done|]. intros ?. by apply (out_not_saved _ _ Hj).
        * left. by rewrite Hn2.
      + destruct (Hnone eq_refl) as [-> _]. left. rewrite Hk2'; [done|].
        intros ?. by apply (out_not_src _ _ Hj). }
  destruct room as [[retry made]|]; [|injection Hrun as <- <-; split; [by apply Hfinal|done]].
  assert (retry = 0) as ->.
  { destruct (source_patch_value j) as [patch|] eqn:Hp.
    - destruct (src_loaded _ _ Hj ltac:(by rewrite Hp)) as (d & _ & _ & _ & Hd).
      by destruct (Hsome d ltac:(done) Hd).
    - destruct (Hnone eq_refl) as [_ [= -> ->]]. done. }
  step_ret Hrun. destruct a as [o2 w2]. specialize (Hout _ _ E).
  specialize (Hfinal w2 ltac:(done) ltac:(done)).
  destruct o2 as [[[result ctx] output]|]; [|by injection Hrun as <- <-].
  destruct (Z.eqb_spec result 0) as [Hres|]; simpl in Hrun; injection Hrun as <- <-; [|done].
  split; [done|]. unfold apply_once in E. rewrite (tgt_not_mtd _ _ Hj) in E.
  destruct (negb _); [done|]. by eapply apply_to_file_made.
Qed.

(** *** Installing *)
Lemma install_output_spec j output s r s' :
  0 ≤ out_fd output → install_output alloc_ok fuel j output s = Ret (r, s') →
  (r = 1 ∧ ∀ q, file_at (world s') q = file_at (world s) q) ∨
  (r = 0 ∧ file_at (world s') (target_filename j) = file_at (world s) (patch_name (target_filename j)) ∧
     ∀ q, q ≠ patch_name (target_filename j) → q ≠ target_filename j →
       file_at (world s') q = file_at (world s) q).
Proof.
  intros Hfd. unfold install_output. destruct (Z.ltb_spec (out_fd output) 0); [lia|]. set (p := patch_name _).
  pose proof (chmod_ok p (st_mode (fc_st (source_to_use j))) (world s)) as Hm.
  destruct (sys_chmod _ _ _) as [r1 w1]. simpl in Hm. destruct (negb (r1 =? 0)); [intros [= <- <-]; by left|].
  pose proof (chown_ok p (st_uid (fc_st (source_to_use j))) (st_gid (fc_st (source_to_use j))) w1) as Ho.
  destruct (sys_chown _ _ _ _) as [r2 w2]. simpl in Ho.
  destruct (negb (r2 =? 0)); [intros [= <- <-]; left; split; [done|]; intros q; simpl; by rewrite Ho, Hm|].
  pose proof (rename_ok p (target_filename j) w2) as Hr. destruct (sys_rename _ _ _) as [r3 w3].
  destruct (r3 =? 0); simpl; intros [= <- <-].
  - right. split; [done|]. destruct Hr as [Hr Hq]. simpl. split; [by rewrite Hr, Ho, Hm|].
    intros q ??. by rewrite Hq, Ho, Hm.
  - left. split; [done|]. intros q. simpl. by rewrite Hr, Ho, Hm.
Qed.

(** A run that fails. *)
Definition failed_run (src tgt : list Z) w w' : Prop :=
  (∀ q, ¬ scratch q → q ≠ src → q ≠ patch_name tgt → file_at w' q = file_at w q) ∧
  (∀ d, file_at w src = Some d → file_at w' src = Some d ∨ file_at w' CACHE_TEMP_SOURCE = Some d) ∧
  (file_at w src = None → file_at w' CACHE_TEMP_SOURCE = file_at w CACHE_TEMP_SOURCE).

(** A run that has patched the target. *)
Definition installed_run (tgt target_sha1 : list Z) w' : Prop :=
  ∃ new, file_at w' tgt = Some new ∧
    memcmp (SHA_final (SHA_update SHA_init new)) target_sha1 SHA_DIGEST_SIZE = 0.

Lemma patch_and_install_spec j sha s r s' :
  file_job j (world s) → patch_and_install alloc_ok fuel j sha s = Ret (r, s') →
  (r ≠ 0 → failed_run (source_filename j) (target_filename j) (world s) (world s')) ∧
  (r = 0 → bs_patch (patch_to_use j) → installed_run (target_filename j) sha (world s')).
Proof.
  intros Hj Hrun. unfold patch_and_install in Hrun. step_ret Hrun. destruct a as [o w].
  apply attempts_spec in E as ((Hk & Hnone & Hsafe) & Hmade); [|done].
  assert (Hfail : failed_run (source_filename j) (target_filename j) (world s) w).
  { split; [|split; [exact Hsafe|]].
    - intros q ???. apply Hk. intros [?|[?|?]]; auto.
    - intros Hsrc. destruct (source_patch_value j) eqn:Hp.
      + destruct (src_loaded _ _ Hj ltac:(by rewrite Hp)) as (d & _ & _ & _ & Hd). congruence.
      + apply (Hnone eq_refl). intros ?. by apply (out_not_saved _ _ Hj). }
  destruct o as [[[ctx output] made]|]; [|by injection Hrun as <- <-].
  destruct (Z.eqb_spec (memcmp (SHA_final ctx) sha SHA_DIGEST_SIZE) 0) as [Hsha|]; simpl in Hrun;
    [|by injection Hrun as <- <-].
  step_ret Hrun. destruct a as [r2 s2]. destruct Hmade as [Hfd Hmade].
  apply install_output_spec in E as [[-> Hq]|(-> & Ht & Hq)]; [..|done].
  { injection Hrun as <- <-. split; [|done]. intros _. destruct Hfail as (Hf1 & Hf2 & Hf3).
    split; [intros q ???; rewrite Hq; by apply Hf1|]. split; [intros d Hd; rewrite !Hq; by apply Hf2|].
    intros Hd. rewrite Hq. by apply Hf3. }
  simpl in Hrun. assert (Hr : r = 0) by (destruct made; by injection Hrun as <- <-). split; [done|].
  intros _ Hbs. destruct (Hmade Hbs) as (new & Hnew & ->). exists new. split; [|done].
  simpl in Ht. rewrite Hnew in Ht. destruct made; injection Hrun as <- <-; [|done]. simpl.
  pose proof (unlink_ok CACHE_TEMP_SOURCE (world s2)) as Hu. destruct (sys_unlink _ _) as [ru w3].
  destruct Hu as [Hu _]. simpl. rewrite Hu; [done|]. by apply (tgt_not_saved _ _ Hj).
Qed.

Lemma load_copy_spec strs data s o s' :
  load_copy alloc_ok fuel uninit strs data s = Ret (o, s') → s' = s.
Proof.
  intros Hrun. unfold load_copy in Hrun. step_ret Hrun. destruct a as [[r f] s1].
  apply LoadFileContents_spec in E as [-> _]; [|done]. destruct (r <? 0); [by injection Hrun as <- <-|].
  destruct (0 <? _); [|by injection Hrun as <- <-]. step_ret Hrun. by injection Hrun as <- <-.
Qed.

(** What holds of a run that ends in the state [s']. *)
Definition run_ok (src tgt sha : list Z) (data : list Value) (s : ap) (r : Z) (s' : ap) : Prop :=
  (r ≠ 0 → failed_run src tgt (world s) (world s')) ∧
  (r = 0 → Forall bs_patch data → installed_run tgt sha (world s') ∨
     s' = s ∧ ∃ d, file_at (world s) tgt = Some d ∧ memcmp (SHA d) sha SHA_DIGEST_SIZE = 0).

Lemma run_ok_unchanged src tgt sha data s r : r ≠ 0 → run_ok src tgt sha data s r s.
Proof. intros Hr. split; [by split; auto|done]. Qed.

Lemma patch_and_install_ok j sha data s r s' :
  file_job j (world s) → patch_to_use j ∈ data →
  patch_and_install alloc_ok fuel j sha s = Ret (r, s') →
  run_ok (source_filename j) (target_filename j) sha data s r s'.
Proof.
  intros Hj Hin Hrun. destruct (patch_and_install_spec j sha s r s' Hj Hrun) as [Hfail Hok].
  split; [exact Hfail|]. intros Hr Hbs. left. apply Hok; [exact Hr|].
  rewrite Forall_forall in Hbs. by apply Hbs.
Qed.

Lemma rd_elem {A} (l : list A) i x : rd l i = Ret x → x ∈ l.
Proof. intros [_ Hx]%rd_Some. by eapply list_elem_of_lookup_2. Qed.

Lemma patch_for_spec f strs data v w src :
  fc_data f = Null ∨ loaded src w f → patch_for f strs data = Ret (Some v) → loaded src w f ∧ v ∈ data.
Proof.
  intros Hload Hrun. unfold patch_for in Hrun.
  destruct Hload as [Hd|Hload]; [by rewrite Hd in Hrun|]. split; [done|].
  destruct (is_null_data _); [done|]. destruct (0 <=? _); [|done].
  destruct (rd data _) as [v'| |] eqn:Hrd; [|done..]. injection Hrun as ->. by eapply rd_elem.
Qed.

Lemma load_copy_patch strs data s cf v s' :
  load_copy alloc_ok fuel uninit strs data s = Ret (Some (cf, v), s') → v ∈ data.
Proof.
  intros Hrun. unfold load_copy in Hrun. step_ret Hrun. destruct a as [[r0 f0] s0].
  destruct (r0 <? 0); [done|]. destruct (0 <? _); [|done]. step_ret Hrun.
  injection Hrun as <- <- <-. by eapply rd_elem.
Qed.

(** The checker of the proof need not look into the parts. *)
#[local] Opaque ParseSha1 load_source load_copy patch_for patch_and_install LoadFileContents FindMatchingPatch.
Lemma applypatch_spec src tgt0 sha_str sha target_size strs data s r s' :
  names_ok src (target_of src tgt0) → ParseSha1 sha_str = Some sha →
  applypatch alloc_ok fuel uninit src tgt0 sha_str target_size strs data s = Ret (r, s') →
  run_ok src (target_of src tgt0) sha data s r s'.
Proof.
  intros Hn Hsha Hrun. unfold applypatch in Hrun. rewrite Hsha in Hrun. cbv zeta in Hrun.
  revert Hn Hrun. generalize (target_of src tgt0). intros tgt Hn Hrun.
  step_ret Hrun. destruct a as [o s1].
  apply load_source_spec in E as [-> Hload];
    [|by apply (src_not_mtd _ _ Hn)|by apply (tgt_not_mtd _ _ Hn)|by apply (src_cstr _ _ Hn)|by apply (tgt_cstr _ _ Hn)].
  destruct o as [f|]; cycle 1.
  { injection Hrun as <- <-. split; [done|]. intros _ _. by right. }
  step_ret Hrun. destruct a as [patch|].
  - apply (patch_for_spec _ _ _ _ (world s) src) in E as [Hl Hin]; [|exact Hload].
    apply (patch_and_install_ok (mk_job src tgt target_size f (Some patch) uninit (mk_value 0 0 [])));
      [split; [exact Hn|by intros _]|exact Hin|exact Hrun].
  - step_ret Hrun. destruct a as [copy s1]. pose proof E0 as Hcopy. apply load_copy_spec in E0 as ->.
    destruct copy as [[cf v]|]; [|injection Hrun as <- <-; by apply run_ok_unchanged].
    apply (patch_and_install_ok (mk_job src tgt target_size (free_data f) None cf v));
      [split; [exact Hn|by intros [? ?]]|by eapply load_copy_patch|exact Hrun].
Qed.
#[local] Transparent ParseSha1 load_source load_copy patch_for patch_and_install LoadFileContents FindMatchingPatch.

(** C2: A run of [applypatch] on files that fails loses nothing: the source is where it was or
    saved in the cache, and where there was no source the saved copy is as it was; no file
    but the source, the output next to the target and those in the cache is touched.  In
    particular a target other than the source keeps its contents.  The names of the files
    must tell them apart, and lie outside the cache. *)
Theorem applypatch_safe src tgt0 sha_str sha target_size strs data s r s' :
  names_ok src (target_of src tgt0) → ParseSha1 sha_str = Some sha →
  applypatch alloc_ok fuel uninit src tgt0 sha_str target_size strs data s = Ret (r, s') →
  r ≠ 0 → failed_run src (target_of src tgt0) (world s) (world s').
Proof. intros Hn Hsha Hrun. by apply (applypatch_spec _ _ _ _ _ _ _ _ _ _ Hn Hsha Hrun). Qed.

(** C5: A run of [applypatch] with patches of bsdiff that returns 0 has left the target with
    the wanted checksum: it was there already and nothing has changed, or the target now
    holds data with this checksum. *)
Theorem applypatch_installs src tgt0 sha_str sha target_size strs data s s' :
  names_ok src (target_of src tgt0) → ParseSha1 sha_str = Some sha → Forall bs_patch data →
  applypatch alloc_ok fuel uninit src tgt0 sha_str target_size strs data s = Ret (0, s') →
  installed_run (target_of src tgt0) sha (world s') ∨
  s' = s ∧ ∃ d, file_at (world s) (target_of src tgt0) = Some d ∧ memcmp (SHA d) sha SHA_DIGEST_SIZE = 0.
Proof. intros Hn Hsha Hbs Hrun. by apply (applypatch_spec _ _ _ _ _ _ _ _ _ _ Hn Hsha Hrun). Qed.
End safety.

(** ** Witnesses *)
Section witnesses.
Import ApplyDemo.
#[local] Existing Instances FsDemo.fs_laws FsDemo.fs_works.

Lemma ParseSha1_correct_witness :
  cstr new_sha ∧ (ParseSha1 new_sha = Some (SHA (str "abxyd")) ↔ sha1_text new_sha (SHA (str "abxyd"))).
Proof.
  assert (Hc : cstr new_sha) by (apply (bool_decide_unpack _); vm_compute; exact I).
  split; [exact Hc|]. apply (ParseSha1_correct new_sha (SHA (str "abxyd")) Hc).
Defined.

Lemma app_names : names_ok app app.
Proof.
  assert (Hcache : ∀ p, 99 ≠ char_at p 1 → ¬ in_cache p).
  { intros p Hp (dir & name & Hdir & ->). unfold deletable_dirs in Hdir. rewrite !elem_of_cons in Hdir.
    destruct Hdir as [->|[->|?%not_elem_of_nil]]; [..|done]; by apply Hp. }
  split; try (apply (bool_decide_unpack _); vm_compute; exact I); try (apply Hcache); vm_compute; done.
Qed.

Definition end_of (s : ap (W := FsDemo.fs)) : ap (W := FsDemo.fs) :=
  match demo_run s with Ret (_, s) => s | _ => s end.
Definition corrupt : ap (W := FsDemo.fs) := with_files [(app, str "abce")].
Definition fresh : ap (W := FsDemo.fs) := with_files [(app, str "abcd")].

Lemma applypatch_safe_witness : failed_run app app (world corrupt) (world (end_of corrupt)).
Proof.
  apply (applypatch_safe (λ _, true) 20 junk app (str "-") new_sha (SHA (str "abxyd")) 5 [old_sha]
    [BzDemo.demo_patch] corrupt 1 (end_of corrupt)); [exact app_names|reflexivity|vm_compute; reflexivity|done].
Defined.

Lemma applypatch_installs_witness :
  installed_run app (SHA (str "abxyd")) (world (end_of fresh)) ∨
  end_of fresh = fresh ∧
    ∃ d, file_at (world fresh) app = Some d ∧ memcmp (SHA d) (SHA (str "abxyd")) SHA_DIGEST_SIZE = 0.
Proof.
  apply (applypatch_installs (λ _, true) 20 junk app (str "-") new_sha (SHA (str "abxyd")) 5 [old_sha]
    [BzDemo.demo_patch] fresh (end_of fresh)); [exact app_names|reflexivity| |vm_compute; reflexivity].
  constructor; [vm_compute; reflexivity|constructor].
Defined.
End witnesses.
