(* ===== verification/Applyruns.v ===== *)
(** * Applyruns

    Runs of applypatch.c: that patching succeeds when nothing fails, and what becomes of an
    interrupted run. *)
From S2P Require Import Prelude CString Syscalls Files Freecache Mtdutils Bspatch Imgpatch Applypatch Applysafe.

Section runs.
Context `{Bzip2} `{Sha1} `{!ShaDigest} `{Deflate} {W : Type} `{PatchOS W} `{!FsLaws} `{!FsWorks} `{MtdDriver W}.
Context (alloc_ok : Z → bool) (fuel : nat) (uninit : FileContents).
Context (Halloc : ∀ n, alloc_ok n = true).
Implicit Types (w : W) (j : job).

(** *** The parts, when nothing fails *)
Lemma LoadFileContents_total p f s :
  is_mtd p = false → ∃ r f', LoadFileContents alloc_ok fuel p f s = Ret (r, f', s).
Proof.
  intros Hp. unfold LoadFileContents. rewrite Hp.
  destruct (sys_stat p (world s)); [|eauto]. destruct (sys_fread p _ _); [|eauto].
  rewrite Halloc. simpl. destruct (_ =? _); simpl; eauto.
Qed.

Lemma LoadFileContents_works p f s d :
  is_mtd p = false → file_at (world s) p = Some d → zlen d < 2 ^ 31 →
  ∃ f', LoadFileContents alloc_ok fuel p f s = Ret (0, f', s) ∧ loaded p (world s) f'.
Proof.
  intros Hp Hd Hsmall. destruct (LoadFileContents_total p f s Hp) as (r & f' & Hl).
  destruct (LoadFileContents_spec alloc_ok fuel p f s r f' s Hp Hl) as [_ [[Hr Hn]|[-> Hlo]]]; [|eauto].
  exfalso. revert Hl. unfold LoadFileContents. rewrite Hp.
  destruct (stat_works p (world s) d Hd Hsmall) as [st Hst]. rewrite Hst.
  destruct (stat_ok _ _ _ _ Hst Hd) as [Hsize _].
  rewrite (fread_works _ _ _ _ Hd), Halloc. simpl. rewrite s32_small, Hsize by lia.
  rewrite Nat2Z.id, firstn_all, Z.eqb_refl. simpl. intros [= <- _]. lia.
Qed.

Lemma sink_loop_works n fd p data d w :
  (length data < n + Z.to_nat d)%nat → 0 ≤ d ≤ zlen data →
  opened w fd = Some p → is_Some (file_at w p) →
  wp (sink_loop n fd data d w) (λ '(r, _), r = zlen data).
Proof.
  revert d w. induction n as [|n IH]; intros d w Hn Hd Ho [c Hc]; [lia|]. cbn [sink_loop].
  destruct (Z.ltb_spec d (zlen data)); [|simpl; lia].
  assert (Hne : drop (Z.to_nat d) data ≠ []).
  { intros Hnil. apply (f_equal length) in Hnil. rewrite length_drop in Hnil. simpl in Hnil. lia. }
  pose proof (write_works fd (drop (Z.to_nat d) data) w p Ho ltac:(by eexists) Hne) as Hpos.
  pose proof (write_file_ok fd (drop (Z.to_nat d) data) w p c Ho Hc) as Hw.
  destruct (sys_write _ _ _) as [k w1]. simpl in Hpos. destruct Hw as (Ho1 & Hk & Hc1 & _).
  rewrite length_drop in Hk. destruct (Z.leb_spec k 0); [lia|].
  apply IH; [lia|lia|done|by rewrite Hc1].
Qed.

Lemma FileSink_works fd p data w :
  opened w fd = Some p → is_Some (file_at w p) → ∃ w', FileSink fd data w = Ret (zlen data, w').
Proof.
  intros Ho Hc. pose proof (sink_loop_works (S (length data)) fd p data 0 w ltac:(lia) ltac:(lia) Ho Hc) as Hs.
  destruct (wp_Ret_inv _ _ Hs) as ([r w'] & Heq & ->). by exists w'.
Qed.

Lemma SaveFileContents_works p f d w :
  fc_data f = Owned d → fc_size f = zlen d → ∃ w', SaveFileContents p f w = Ret (0, w').
Proof.
  intros Hd Hsize. unfold SaveFileContents. rewrite Hd, Hsize.
  pose proof (open_works p w) as Hfd. pose proof (open_trunc_ok p w) as Hopen.
  destruct (sys_open_trunc p w) as [fd w1]. simpl in Hfd. destruct Hopen as [_ Hp1].
  destruct (Z.ltb_spec fd 0); [lia|]. destruct Hp1 as [Hc1 Ho1].
  assert (Hbody : ∃ w2, (if zlen d <=? 0 then mret (0, w1)
    else (d ← rd_n d 0 (zlen d); FileSink fd d w1)) = Ret (zlen d, w2)).
  { destruct (Z.leb_spec (zlen d) 0); [exists w1; by replace (zlen d) with 0 by lia|].
    rewrite rd_n_in_bounds by lia. cbn [mbind outcome_bind]. change (Z.to_nat 0) with O.
    rewrite Nat2Z.id, drop_0, firstn_all. eapply FileSink_works; [done|by rewrite Hc1]. }
  destruct Hbody as [w2 ->]. cbn [mbind outcome_bind]. rewrite Z.eqb_refl. simpl.
  pose proof (chmod_works p (st_mode (fc_st f)) (sys_close fd (sys_fsync fd w2))) as Hm.
  destruct (sys_chmod _ _ _) as [r3 w3]. simpl in Hm. subst r3. simpl.
  pose proof (chown_works p (st_uid (fc_st f)) (st_gid (fc_st f)) w3) as Ho.
  destruct (sys_chown _ _ _ _) as [r4 w4]. simpl in Ho. subst r4. simpl. eauto.
Qed.

Lemma save_source_works j w d :
  fc_data (source_file j) = Owned d → fc_size (source_file j) = zlen d → zlen d < 2 ^ 31 →
  ∃ w', save_source j w = Ret (true, w').
Proof.
  intros Hd Hsize Hsmall. unfold save_source.
  pose proof (MakeFreeSpaceOnCache_spec (u32 (fc_size (source_file j))) w) as Hfree.
  destruct (MakeFreeSpaceOnCache _ _) as [r w1]. destruct Hfree as (_ & _ & _ & Henough).
  destruct (statfs_works (str "/cache") w) as (bs & bf & Hstat & Hroom).
  destruct Henough as [-> ->].
  { unfold FreeSpaceForFile. rewrite Hstat, Hsize, u32_small by lia. lia. }
  simpl. destruct (SaveFileContents_works CACHE_TEMP_SOURCE _ d w Hd Hsize) as [w2 ->]. simpl. eauto.
Qed.

Lemma apply_to_file_works j w d new :
  bs_patch (patch_to_use j) → fc_data (source_to_use j) = Owned d → fc_size (source_to_use j) = zlen d →
  ApplyBSDiffPatchMem alloc_ok fuel d (zlen d) (patch_to_use j) 0 = Ret (0, new) →
  ∃ output w', apply_to_file alloc_ok fuel j w = Ret (Some (0, SHA_update SHA_init new, output), w') ∧
    0 ≤ out_fd output ∧ file_at w' (patch_name (target_filename j)) = Some new.
Proof.
  intros Hbs Hd Hsize Hnew. unfold apply_to_file. set (p := patch_name _).
  pose proof (open_works p w) as Hfd. pose proof (open_trunc_ok p w) as Hopen.
  destruct (sys_open_trunc p w) as [fd w1]. simpl in Hfd. destruct Hopen as [_ Hp1].
  destruct (Z.ltb_spec fd 0); [lia|]. destruct Hp1 as [Hc1 Ho1].
  unfold apply_with. rewrite Hbs. cbn [mbind outcome_bind]. unfold contents_of. rewrite Hd, Hsize.
  cbn [mbind outcome_bind mret outcome_ret]. unfold ApplyBSDiffPatch. rewrite Hnew.
  cbn [mbind outcome_bind negb Z.eqb].
  destruct (FileSink_works fd p new w1 Ho1 ltac:(by rewrite Hc1)) as [w2 Hsink].
  pose proof (FileSink_spec fd p new [] w1 Ho1 Hc1) as Hs. rewrite Hsink in *.
  destruct Hs as (_ & _ & Hc2 & _). rewrite Nat2Z.id, firstn_all in Hc2.
  cbn [mbind outcome_bind]. rewrite Z.ltb_irrefl. eexists _, _. split; [done|]. split; [done|].
  by rewrite close_file_ok, fsync_ok, Hc2.
Qed.

Lemma install_output_works j output s :
  0 ≤ out_fd output → is_Some (file_at (world s) (patch_name (target_filename j))) →
  ∃ s', install_output alloc_ok fuel j output s = Ret (0, s').
Proof.
  intros Hfd Hp. unfold install_output. destruct (Z.ltb_spec (out_fd output) 0); [lia|]. set (p := patch_name _) in *.
  pose proof (chmod_works p (st_mode (fc_st (source_to_use j))) (world s)) as Hm.
  pose proof (chmod_ok p (st_mode (fc_st (source_to_use j))) (world s)) as Hmq.
  destruct (sys_chmod _ _ _) as [r1 w1]. simpl in Hm, Hmq. subst r1. simpl.
  pose proof (chown_works p (st_uid (fc_st (source_to_use j))) (st_gid (fc_st (source_to_use j))) w1) as Ho.
  pose proof (chown_ok p (st_uid (fc_st (source_to_use j))) (st_gid (fc_st (source_to_use j))) w1) as Hoq.
  destruct (sys_chown _ _ _ _) as [r2 w2]. simpl in Ho, Hoq. subst r2. simpl.
  pose proof (rename_works p (target_filename j) w2 ltac:(by rewrite Hoq, Hmq)) as Hr.
  destruct (sys_rename _ _ _) as [r3 w3]. simpl in Hr. subst r3. simpl. eauto.
Qed.

(** The target has the wanted checksum. *)
Definition has_target w (tgt sha : list Z) : Prop :=
  ∃ d, file_at w tgt = Some d ∧ memcmp (SHA d) sha SHA_DIGEST_SIZE = 0.
Lemma load_source_works src tgt sha s d :
  is_mtd src = false → is_mtd tgt = false → cstr src → cstr tgt →
  file_at (world s) src = Some d → zlen d < 2 ^ 31 →
  load_source alloc_ok fuel uninit src tgt sha s = Ret (None, s) ∧ has_target (world s) tgt sha ∨
  ∃ f, load_source alloc_ok fuel uninit src tgt sha s = Ret (Some f, s) ∧ loaded src (world s) f.
Proof.
  intros Hsrc Htgt Hcs Hct Hd Hsmall. unfold load_source.
  destruct (LoadFileContents_total tgt uninit s Htgt) as (r & f & Hl). rewrite Hl. cbn [mbind outcome_bind].
  destruct ((r =? 0) && _) eqn:Htarget.
  { left. split; [done|]. apply andb_true_iff in Htarget as [->%Z.eqb_eq Hsha%Z.eqb_eq].
    apply LoadFileContents_spec in Hl as [_ [[? _]|[_ (c & _ & _ & Hc & Hfile)]]]; [done| |done].
    exists c. split; [done|]. by rewrite <- Hc. }
  right. clear Htarget.
  destruct (is_null_data (fc_data f) || negb (strcmp tgt src =? 0)) eqn:Hload.
  - destruct (LoadFileContents_works src f s d Hsrc Hd Hsmall) as (f2 & Hl2 & Hlo).
    rewrite Hl2. cbn [mbind outcome_bind]. eauto.
  - apply orb_false_iff in Hload as [Hnn Heq%negb_false_iff%Z.eqb_eq].
    apply strcmp_0 in Heq as ->; [|done..]. exists f. split; [done|].
    apply LoadFileContents_spec in Hl as [_ [[_ Hn]|[_ ?]]]; [by rewrite Hn in Hnn|done|done].
Qed.

(** *** Patching *)
Lemma patch_and_install_works j sha s d new :
  file_job j (world s) → is_Some (source_patch_value j) → file_at (world s) (source_filename j) = Some d →
  zlen d < 2 ^ 31 → v_type (patch_to_use j) = PATCH_BLOB → bs_patch (patch_to_use j) →
  ApplyBSDiffPatchMem alloc_ok fuel d (zlen d) (patch_to_use j) 0 = Ret (0, new) →
  memcmp (SHA_final (SHA_update SHA_init new)) sha SHA_DIGEST_SIZE = 0 →
  ∃ s', patch_and_install alloc_ok fuel j sha s = Ret (0, s') ∧
    file_at (world s') (target_filename j) = Some new ∧
    (source_filename j ≠ target_filename j → file_at (world s') (source_filename j) = None).
Proof.
  intros Hj [patch Hpatch] Hd Hsmall Htype Hbs Hnew Hsha.
  destruct (src_loaded _ _ Hj ltac:(by rewrite Hpatch)) as (d' & Hdata & Hsize & _ & Hd').
  assert (d' = d) as -> by congruence.
  destruct (save_source_works j (world s) d Hdata Hsize Hsmall) as [w1 Hsave].
  destruct (save_source_spec j (world s) d true w1 Hdata Hsize Hsave) as [Hk1 _].
  assert (Hsrc1 : file_at w1 (source_filename j) = Some d).
  { rewrite Hk1; [done|]. intros [?|?]; [by apply (src_not_cache _ _ Hj)|by apply (src_not_saved _ _ Hj)]. }
  pose proof (unlink_works (source_filename j) w1 ltac:(by rewrite Hsrc1)) as Hu0.
  pose proof (unlink_ok (source_filename j) w1) as Hu.
  destruct (sys_unlink (source_filename j) w1) as [ru w2] eqn:Hunlink. simpl in Hu0. subst ru.
  destruct Hu as [_ Hgone]. specialize (Hgone eq_refl).
  assert (Huse : source_to_use j = source_file j) by (unfold source_to_use; by rewrite Hpatch).
  destruct (apply_to_file_works j w2 d new Hbs ltac:(by rewrite Huse) ltac:(by rewrite Huse) Hnew)
    as (output & w3 & Hout & Hfd & Hfile).
  pose proof (apply_to_file_keeps alloc_ok fuel j w2 _ w3 Hout) as Hk3.
  assert (Hattempts : attempts alloc_ok fuel 3 j 1 false (world s) =
    Ret (Some (SHA_update SHA_init new, output, true), w3)).
  { cbn [attempts]. unfold room_for_target. rewrite (tgt_not_mtd _ _ Hj), (src_not_mtd _ _ Hj), Hpatch.
    rewrite bool_decide_true by done. cbn [negb andb]. rewrite Hsave. cbn [mbind outcome_bind negb].
    rewrite Hunlink. unfold mret, outcome_ret. cbn [mbind outcome_bind]. unfold apply_once.
    rewrite Htype, (tgt_not_mtd _ _ Hj). cbn [Z.eqb PATCH_BLOB negb]. simpl (negb _). cbn iota.
    rewrite Hout. done. }
  unfold patch_and_install. rewrite Hattempts. cbn [mbind outcome_bind]. rewrite Hsha. simpl (negb _). cbn iota.
  destruct (install_output_works j output (with_world s w3) Hfd ltac:(simpl; by rewrite Hfile)) as [s4 Hins].
  destruct (install_output_spec alloc_ok fuel j output (with_world s w3) 0 s4 Hfd Hins) as [[? _]|(_ & Ht & Hq)]; [done|].
  rewrite Hins. simpl in Ht, Hq |- *. eexists. split; [done|]. simpl.
  pose proof (unlink_ok CACHE_TEMP_SOURCE (world s4)) as Hu5. destruct (sys_unlink CACHE_TEMP_SOURCE _) as [r5 w5].
  destruct Hu5 as [Hu5 _]. simpl. split.
  - rewrite Hu5 by (apply (tgt_not_saved _ _ Hj)). by rewrite Ht, Hfile.
  - intros Hne. rewrite Hu5 by (apply (src_not_saved _ _ Hj)).
    rewrite Hq; [|intros Heq; by apply (out_not_src _ _ Hj)|done]. rewrite Hk3; [done|].
    intros Heq. by apply (out_not_src _ _ Hj).
Qed.

(** A source that is another file is deleted, which is not what the comment of [applypatch] says. *)
#[local] Opaque ParseSha1 load_source load_copy patch_for patch_and_install LoadFileContents FindMatchingPatch.
Lemma applypatch_works src tgt0 sha_str sha target_size strs data s old new patch :
  names_ok src (target_of src tgt0) → ParseSha1 sha_str = Some sha →
  file_at (world s) src = Some old → zlen old < 2 ^ 31 →
  0 ≤ FindMatchingPatch (SHA old) strs → rd data (FindMatchingPatch (SHA old) strs) = Ret patch →
  v_type patch = PATCH_BLOB → bs_patch patch →
  ApplyBSDiffPatchMem alloc_ok fuel old (zlen old) patch 0 = Ret (0, new) →
  memcmp (SHA_final (SHA_update SHA_init new)) sha SHA_DIGEST_SIZE = 0 →
  applypatch alloc_ok fuel uninit src tgt0 sha_str target_size strs data s = Ret (0, s) ∧
    has_target (world s) (target_of src tgt0) sha ∨
  ∃ s', applypatch alloc_ok fuel uninit src tgt0 sha_str target_size strs data s = Ret (0, s') ∧
    file_at (world s') (target_of src tgt0) = Some new ∧
    (src ≠ target_of src tgt0 → file_at (world s') src = None).
Proof.
  intros Hn Hsha Hold Hsmall Hfind Hrd Htype Hbs Hnew Hmem. unfold applypatch. rewrite Hsha. cbv zeta.
  revert Hn. generalize (target_of src tgt0). intros tgt Hn.
  destruct (load_source_works src tgt sha s old (src_not_mtd _ _ Hn) (tgt_not_mtd _ _ Hn) (src_cstr _ _ Hn)
    (tgt_cstr _ _ Hn) Hold Hsmall) as [[-> Hhas]|(f & -> & Hl)]; [by left|]. right.
  cbn [mbind outcome_bind]. pose proof Hl as (d & Hd & _ & Hs & Hfile).
  assert (d = old) as -> by congruence.
  assert (Hpf : patch_for f strs data = Ret (Some patch)).
  { Transparent patch_for. unfold patch_for. rewrite Hd, Hs. cbn [is_null_data].
    rewrite (proj2 (Z.leb_le _ _)) by done. by rewrite Hrd. }
  rewrite Hpf. cbn [mbind outcome_bind].
  apply (patch_and_install_works (mk_job src tgt target_size f (Some patch) uninit (mk_value 0 0 [])) sha s old new);
    [split; [exact Hn|by intros _]|by eexists|exact Hold|exact Hsmall|exact Htype|exact Hbs|exact Hnew|exact Hmem].
Qed.
#[local] Transparent ParseSha1 load_source load_copy patch_for patch_and_install LoadFileContents FindMatchingPatch.

(** C4: When nothing fails, [applypatch] makes the target: if the source is a file that has the
    checksum of one of the patches, this patch belongs to bsdiff and makes [new] out of the source, and
    [new] has the wanted checksum, then the call returns 0, and either nothing has changed, since
    the target had the wanted checksum already, or the target now holds [new]. *)
Theorem applypatch_succeeds src tgt0 sha_str sha target_size strs data s old new patch :
  names_ok src (target_of src tgt0) → ParseSha1 sha_str = Some sha →
  file_at (world s) src = Some old → zlen old < 2 ^ 31 →
  0 ≤ FindMatchingPatch (SHA old) strs → rd data (FindMatchingPatch (SHA old) strs) = Ret patch →
  v_type patch = PATCH_BLOB → bs_patch patch →
  ApplyBSDiffPatchMem alloc_ok fuel old (zlen old) patch 0 = Ret (0, new) →
  memcmp (SHA_final (SHA_update SHA_init new)) sha SHA_DIGEST_SIZE = 0 →
  ∃ s', applypatch alloc_ok fuel uninit src tgt0 sha_str target_size strs data s = Ret (0, s') ∧
    (s' = s ∧ has_target (world s) (target_of src tgt0) sha ∨ file_at (world s') (target_of src tgt0) = Some new).
Proof.
  intros. edestruct (applypatch_works src tgt0 sha_str sha target_size strs data s old new patch)
    as [[Hrun Hhas]|(s' & Hrun & Htgt & _)]; eauto 10.
Qed.

(** *** Interrupted runs *)

(** A run that was interrupted after the source was deleted is not taken up again when there
    is one patch: the saved copy of the source, whatever it holds, is rejected, since the
    code wants the index of its patch to be positive, and [applypatch] returns 1. *)
Theorem single_patch_copy_rejected src sha_str target_size strs data s :
  is_mtd src = false → cstr src → (length strs ≤ 1)%nat → file_at (world s) src = None →
  applypatch alloc_ok fuel uninit src src sha_str target_size strs data s = Ret (1, s).
Proof.
  intros Hsrc Hc Hstrs Hnone.
  assert (Hfind : ∀ d, FindMatchingPatch d strs ≤ 0).
  { intros d. unfold FindMatchingPatch. destruct strs as [|x [|]]; simpl in Hstrs |- *; [lia| |lia].
    destruct (ParseSha1 x); [|lia]. destruct (_ =? 0); lia. }
  assert (Hload : ∀ f, ∃ f', LoadFileContents alloc_ok fuel src f s = Ret (-1, f', s) ∧ fc_data f' = Null).
  { intros f. destruct (LoadFileContents_total src f s Hsrc) as (r & f' & Hl). rewrite Hl.
    destruct (LoadFileContents_spec alloc_ok fuel _ _ _ _ _ _ Hsrc Hl) as [_ [[-> ?]|[_ (d & _ & _ & _ & ?)]]];
      [eauto|congruence]. }
  assert (Htgt : target_of src src = src) by (unfold target_of; by destruct (_ && _)).
  unfold applypatch. rewrite Htgt. destruct (ParseSha1 sha_str) as [sha|]; [|done].
  unfold load_source. destruct (Hload uninit) as (f1 & Hl1 & Hd1). rewrite Hl1. cbn [mbind outcome_bind Z.eqb andb].
  rewrite Hd1. cbn [is_null_data orb]. destruct (Hload f1) as (f2 & Hl2 & Hd2). rewrite Hl2.
  cbn [mbind outcome_bind mret outcome_ret]. unfold patch_for. rewrite Hd2. cbn [is_null_data mret outcome_ret mbind outcome_bind].
  unfold load_copy. destruct (LoadFileContents_total CACHE_TEMP_SOURCE uninit s eq_refl) as (r3 & f3 & ->).
  cbn [mbind outcome_bind]. destruct (r3 <? 0); [done|].
  rewrite (proj2 (Z.ltb_ge _ _)) by apply Hfind. done.
Qed.

(** *** Flash targets *)

(** A flash partition is patched from the saved copy after the source was lost: the code
    saves the lost source first, which empties the copy ... *)
Lemma lost_source_empties_copy f w r w' :
  fc_data f = Null → SaveFileContents CACHE_TEMP_SOURCE f w = Ret (r, w') →
  file_at w' CACHE_TEMP_SOURCE = Some [].
Proof.
  intros Hd. unfold SaveFileContents. rewrite Hd.
  pose proof (open_works CACHE_TEMP_SOURCE w) as Hfd. pose proof (open_trunc_ok CACHE_TEMP_SOURCE w) as Hopen.
  destruct (sys_open_trunc _ w) as [fd w1]. simpl in Hfd. destruct Hopen as [_ Hp1].
  destruct (Z.ltb_spec fd 0); [lia|]. destruct Hp1 as [Hc1 _].
  assert (Hsame : (if fc_size f <=? 0 then mret (0, w1) else mret (0, w1)) = Ret (0, w1)) by (by destruct (_ <=? _)).
  rewrite Hsame. cbn [mbind outcome_bind].
  destruct (negb _); [intros [= <- <-]; by rewrite close_file_ok|].
  pose proof (chmod_ok CACHE_TEMP_SOURCE (st_mode (fc_st f)) (sys_close fd (sys_fsync fd w1))) as Hm.
  destruct (sys_chmod _ _ _) as [r3 w3]. simpl in Hm.
  assert (Hm3 : file_at w3 CACHE_TEMP_SOURCE = Some []) by (by rewrite Hm, close_file_ok, fsync_ok).
  destruct (negb _); [by intros [= <- <-]|].
  pose proof (chown_ok CACHE_TEMP_SOURCE (st_uid (fc_st f)) (st_gid (fc_st f)) w3) as Ho.
  destruct (sys_chown _ _ _ _) as [r4 w4]. simpl in Ho.
  destruct (negb _); intros [= <- <-]; by rewrite Ho.
Qed.

(** ... or reads memory that was freed. *)
Lemma freed_source_saved f w :
  fc_data f = Freed → 0 < fc_size f → SaveFileContents CACHE_TEMP_SOURCE f w = Fault UseAfterFree.
Proof.
  intros Hd Hs. unfold SaveFileContents. rewrite Hd. pose proof (open_works CACHE_TEMP_SOURCE w) as Hfd.
  destruct (sys_open_trunc _ w) as [fd w1]. simpl in Hfd. destruct (Z.ltb_spec fd 0); [lia|].
  by destruct (Z.leb_spec (fc_size f) 0); [lia|].
Qed.
End runs.

(** ** Witnesses *)
Section witnesses.
Import ApplyDemo.
#[local] Existing Instances FsDemo.fs_laws FsDemo.fs_works.

Lemma applypatch_succeeds_witness :
  ∃ s', demo_run fresh = Ret (0, s') ∧
    (s' = fresh ∧ has_target (world fresh) app (SHA (str "abxyd")) ∨ file_at (world s') app = Some (str "abxyd")).
Proof.
  apply (applypatch_succeeds (λ _, true) 20 junk (λ _, eq_refl) app (str "-") new_sha (SHA (str "abxyd")) 5 [old_sha]
    [BzDemo.demo_patch] fresh (str "abcd") (str "abxyd") BzDemo.demo_patch);
    first [exact app_names | vm_compute; reflexivity | vm_compute; discriminate].
Defined.

Definition interrupted : ap (W := FsDemo.fs) := with_files [(CACHE_TEMP_SOURCE, str "abcd")].
Lemma single_patch_copy_rejected_witness :
  applypatch (λ _, true) 20 junk app app new_sha 5 [old_sha] [BzDemo.demo_patch] interrupted =
    Ret (1, interrupted).
Proof.
  apply (single_patch_copy_rejected (λ _, true) 20 junk (λ _, eq_refl));
    first [vm_compute; reflexivity | apply (src_cstr _ _ app_names) | simpl; lia].
Defined.
End witnesses.
