(* ===== verification/Mounts.v ===== *)
(** * Mounts

    mtdutils/mounts.c: the table of mounted volumes, scanned from /proc/mounts. *)
From S2P Require Import Prelude CString Syscalls Mtdutils Mtdscan.

(** The calls of the kernel on mounts. *)
Class MountOS (W : Type) := {
  (** /proc/mounts, at most 2047 bytes of it *)
  proc_mounts : W → option (list Z);
  (** [None] is the null pointer *)
  sys_umount : option (list Z) → W → Z * W
}.

(** ** Data *)
Record MountedVolume := mk_volume {
  v_device : option (list Z);
  v_mount_point : option (list Z);
  v_filesystem : option (list Z);
  v_flags : option (list Z)
}.
#[export] Instance MountedVolume_eq_dec : EqDecision MountedVolume.
Proof. solve_decision. Defined.

Record MountsState := mk_mounts {
  volumes : option (list MountedVolume);
  volumes_allocd : Z;
  volume_count : Z
}.
Definition g_mounts_state : MountsState := mk_mounts None 0 0.
Definition zero_volume : MountedVolume := mk_volume None None None None.

(** The strings are freed; with [zero] the volume is cleared too. *)
Definition free_volume_internals (volume : MountedVolume) (zero : bool) : MountedVolume :=
  if zero then zero_volume else volume.

(** [%<k>s] of [sscanf]: skips white space, line breaks too, and takes up to [k] other
    characters. *)
Definition scan_s (k : nat) (s : list Z) : option (list Z * list Z) :=
  let s := skip_space s in
  let n := Nat.min k (count_while (λ c, negb (is_space c)) s) in
  if (n =? 0)%nat then None else Some (take n s, drop n s).

(** The four fields, when the call of [sscanf] has four matches. *)
Definition scan_volume (s : list Z) : option (list Z * list Z * list Z * list Z) :=
  '(device, s) ← scan_s 63 s;
  '(mount_point, s) ← scan_s 63 s;
  '(filesystem, s) ← scan_s 63 s;
  '(flags, _) ← scan_s 127 s;
  Some (device, mount_point, filesystem, flags).

(** The first volume of the first [count] for which a string is the wanted one. *)
Fixpoint find_volume (field : MountedVolume → option (list Z)) (name : list Z)
    (count : nat) (i : Z) (vs : list MountedVolume) : outcome (option (Z * MountedVolume)) :=
  match count with
  | O => mret None
  | S count =>
      v ← rd vs i;
      match field v with
      | Some s => if strcmp s name =? 0 then mret (Some (i, v)) else find_volume field name count (i + 1) vs
      | None => find_volume field name count (i + 1) vs
      end
  end.

Definition find_mounted_volume_by_device (g : MountsState) (device : list Z) :=
  match volumes g with
  | Some vs => find_volume v_device device (Z.to_nat (volume_count g)) 0 vs
  | None => mret None
  end.
Definition find_mounted_volume_by_mount_point (g : MountsState) (mount_point : list Z) :=
  match volumes g with
  | Some vs => find_volume v_mount_point mount_point (Z.to_nat (volume_count g)) 0 vs
  | None => mret None
  end.

Section code.
Context {W : Type} `{MountOS W}.
Context (alloc_ok : Z → bool).
Implicit Types (w : W) (g : MountsState).

Definition c_strdup (s : list Z) : option (list Z) := if alloc_ok (zlen s + 1) then Some s else None.

(** The loop over the lines of [buf]; the results of [strdup] are not checked. *)
Fixpoint scan_mounts (n : nat) (buf : list Z) (vs : list MountedVolume) (count : Z)
    : outcome (list MountedVolume * Z) :=
  match n, buf with
  | O, _ | _, [] => mret (vs, count)
  | S n, _ =>
      match scan_volume (c_string (buf ++ [0])) with
      | Some (device, mount_point, filesystem, flags) =>
          vs ← wr vs count (mk_volume (c_strdup device) (c_strdup mount_point)
            (c_strdup filesystem) (c_strdup flags));
          scan_mounts n (eat_line buf) vs (count + 1)
      | None => scan_mounts n (eat_line buf) vs count
      end
  end.

(** The table has room for 32 volumes of 16 bytes. *)
Definition scan_mounted_volumes g w : outcome (Z * MountsState) :=
  if bool_decide (volumes g = None) && negb (alloc_ok (32 * 16)) then mret (-1, g)
  else
    let '(vs, allocd) :=
      match volumes g with
      | None => (replicate 32 zero_volume, 32)
      | Some vs =>
          (((λ v, free_volume_internals v true) <$> take (Z.to_nat (volume_count g)) vs) ++
             drop (Z.to_nat (volume_count g)) vs, volumes_allocd g)
      end in
    match proc_mounts w with
    | None => mret (-1, mk_mounts (Some vs) allocd 0)
    | Some buf =>
        '(vs, count) ← scan_mounts (length buf) buf vs 0;
        mret (0, mk_mounts (Some vs) allocd count)
    end.

(** The volume is the [i]-th of the table. *)
Definition unmount_mounted_volume g (i : Z) w : outcome (Z * MountsState * W) :=
  vs ← of_option NullPointer (volumes g);
  volume ← rd vs i;
  let '(ret, w) := sys_umount (v_mount_point volume) w in
  if ret =? 0 then
    vs ← wr vs i (free_volume_internals volume true);
    mret (0, mk_mounts (Some vs) (volumes_allocd g) (volume_count g), w)
  else mret (ret, g, w).
End code.

(** ** Listings *)

(** A line of /proc/mounts, with the two fields at its end that nothing is read from. *)
Record MountEntry := mk_mount {
  m_device : list Z; m_point : list Z; m_filesystem : list Z; m_flags : list Z }.
Definition show_mount (e : MountEntry) : list Z :=
  m_device e ++ [32] ++ m_point e ++ [32] ++ m_filesystem e ++ [32] ++ m_flags e ++ str " 0 0" ++ [10].
Definition mounts_text (l : list MountEntry) : list Z := l ≫= show_mount.

Definition field_ok (n : nat) (s : list Z) : Prop :=
  (0 < length s ≤ n)%nat ∧ Forall (λ c, 0 < c < 256 ∧ is_space c = false) s.
Definition mount_ok (e : MountEntry) : Prop :=
  field_ok 63 (m_device e) ∧ field_ok 63 (m_point e) ∧ field_ok 63 (m_filesystem e) ∧ field_ok 127 (m_flags e).
Definition volume_of (e : MountEntry) : MountedVolume :=
  mk_volume (Some (m_device e)) (Some (m_point e)) (Some (m_filesystem e)) (Some (m_flags e)).

Lemma field_cstr n s : field_ok n s → cstr s.
Proof. intros [_ Hs]. eapply Forall_impl; [exact Hs|]. by intros c []. Qed.

Lemma skip_space_field n s rest : field_ok n s → skip_space (s ++ rest) = s ++ rest.
Proof.
  intros [Hlen Hs]. destruct s as [|c s]; [simpl in Hlen; lia|].
  apply Forall_cons in Hs as [[_ Hc] _]. unfold skip_space. cbn [app count_while]. by rewrite Hc.
Qed.
Lemma skip_space_blank s : skip_space (32 :: s) = skip_space s.
Proof. done. Qed.

(** A field that ends at a white space is taken whole. *)
Lemma scan_s_field n s c rest :
  field_ok n s → is_space c = true → scan_s n (s ++ c :: rest) = Some (s, c :: rest).
Proof.
  intros Hs Hc. unfold scan_s. rewrite (skip_space_field n) by done. destruct Hs as [Hlen Hs].
  rewrite count_while_app; cycle 1.
  { eapply Forall_impl; [exact Hs|]. intros x [_ Hx]. simpl. by rewrite Hx. }
  { intros ?? [= <- _]. by rewrite Hc. }
  rewrite Nat.min_r by lia. destruct (Nat.eqb_spec (length s) 0); [lia|].
  by rewrite take_app_length, drop_app_length.
Qed.
Lemma scan_s_blank n s : scan_s n (32 :: s) = scan_s n s.
Proof. unfold scan_s. by rewrite skip_space_blank. Qed.

Lemma scan_volume_show e rest :
  mount_ok e → scan_volume (show_mount e ++ rest) = Some (m_device e, m_point e, m_filesystem e, m_flags e).
Proof.
  intros (Hd & Hp & Hf & Hg). unfold scan_volume, show_mount. rewrite <- !app_assoc. cbn [app].
  rewrite (scan_s_field 63 (m_device e)) by done. cbn [mbind option_bind]. rewrite scan_s_blank.
  rewrite (scan_s_field 63 (m_point e)) by done. cbn [mbind option_bind]. rewrite scan_s_blank.
  rewrite (scan_s_field 63 (m_filesystem e)) by done. cbn [mbind option_bind]. rewrite scan_s_blank.
  change (str " 0 0" ++ 10 :: rest) with (32 :: str "0 0" ++ 10 :: rest).
  rewrite (scan_s_field 127 (m_flags e)) by done. done.
Qed.

Lemma show_mount_chars e :
  mount_ok e → ∃ s, show_mount e = s ++ [10] ∧ Forall (λ c, c ≠ 0 ∧ c ≠ 10) s.
Proof.
  intros (Hd & Hp & Hf & Hg).
  exists (m_device e ++ [32] ++ m_point e ++ [32] ++ m_filesystem e ++ [32] ++ m_flags e ++ str " 0 0").
  split; [unfold show_mount; by rewrite <- !app_assoc|].
  assert (Hfield : ∀ n s, field_ok n s → Forall (λ c, c ≠ 0 ∧ c ≠ 10) s).
  { intros n s [_ Hs]. eapply Forall_impl; [exact Hs|]. intros c [? Hc]. split; [lia|]. by intros ->. }
  rewrite !Forall_app. repeat split; eauto; by repeat constructor.
Qed.

Lemma mounts_text_no_zero l : Forall mount_ok l → Forall (λ c, c ≠ 0) (mounts_text l).
Proof.
  induction 1 as [|e l He Hl IH]; [constructor|]. unfold mounts_text. cbn [mbind list_bind].
  apply Forall_app. split; [|done]. destruct (show_mount_chars e He) as (s & -> & Hs).
  apply Forall_app. split; [|by repeat constructor]. eapply Forall_impl; [exact Hs|]. by intros ? [? ?].
Qed.

(** Each line of a listing goes into the next place of the table, which is not checked. *)
Lemma scan_mounts_entries alloc_ok n l vs k :
  (∀ z, alloc_ok z = true) → Forall mount_ok l → (length l ≤ n)%nat → (k ≤ length vs)%nat →
  scan_mounts alloc_ok n (mounts_text l) vs (Z.of_nat k) =
    if bool_decide (k + length l ≤ length vs)%nat
    then Ret (take k vs ++ (volume_of <$> l) ++ drop (k + length l) vs, Z.of_nat k + zlen l)
    else Fault OutOfBounds.
Proof.
  intros Halloc Hl. revert n vs k. induction Hl as [|e l He Hl IH]; intros n vs k Hn Hk.
  { rewrite bool_decide_eq_true_2 by (simpl; lia). simpl. rewrite Z.add_0_r, Nat.add_0_r, take_drop.
    by destruct n. }
  destruct n as [|n]; [simpl in Hn; lia|]. unfold mounts_text. cbn [mbind list_bind].
  destruct (show_mount_chars e He) as (s & Hshow & Hs).
  assert (Hne : ∃ c r, show_mount e ++ (l ≫= show_mount) = c :: r).
  { rewrite Hshow. destruct s; by eexists _, _. }
  destruct Hne as (c & r & Hcr). rewrite Hcr. cbn [scan_mounts]. rewrite <- !Hcr.
  rewrite c_string_app; cycle 1.
  { apply (mounts_text_no_zero (e :: l)). by constructor. }
  rewrite scan_volume_show by done. unfold c_strdup. rewrite !Halloc.
  change (mk_volume _ _ _ _) with (volume_of e).
  rewrite Hshow, <- app_assoc. cbn [app].
  rewrite eat_line_app by (eapply Forall_impl; [exact Hs|]; by intros ? [? ?]).
  destruct (decide (k < length vs)%nat) as [Hlt|]; cycle 1.
  { rewrite bool_decide_eq_false_2 by (simpl; lia). unfold wr.
    by rewrite (proj2 (Z.leb_le _ _)), orb_true_r by lia. }
  rewrite wr_in_bounds, Nat2Z.id by lia. cbn [mbind outcome_bind].
  pose proof (IH n (<[k := volume_of e]> vs) (S k)) as IH'. unfold mounts_text in IH'. cbn [mbind] in IH'.
  replace (Z.of_nat k + 1) with (Z.of_nat (S k)) by lia.
  rewrite IH' by (rewrite ?length_insert; simpl in Hn; lia). rewrite length_insert. cbn [length].
  replace (S k + length l)%nat with (k + S (length l))%nat by lia.
  clear IH IH'. destruct (bool_decide _); [|done]. do 2 f_equal; [|lia].
  rewrite (take_S_r _ _ (volume_of e)) by (apply list_lookup_insert_eq; lia).
  rewrite take_insert_ge, drop_insert_lt by lia. by rewrite <- app_assoc.
Qed.

Lemma mounts_text_length l : (length l ≤ length (mounts_text l))%nat.
Proof.
  induction l as [|e l IH]; [done|]. unfold mounts_text in *. cbn [mbind list_bind] in *.
  rewrite length_app. unfold show_mount at 1. rewrite !length_app. simpl. lia.
Qed.

(** What the finders answer on a table. *)
Lemma find_volume_spec field name vs count i :
  0 ≤ i → (Z.to_nat i + count ≤ length vs)%nat →
  wp (find_volume field name count i vs) (λ o,
    match o with
    | Some (j, v) => i ≤ j < i + Z.of_nat count ∧ vs !! Z.to_nat j = Some v ∧
        (∃ s, field v = Some s ∧ strcmp s name = 0) ∧
        ∀ k u s, i ≤ Z.of_nat k < j → vs !! k = Some u → field u = Some s → strcmp s name ≠ 0
    | None => ∀ k u s, i ≤ Z.of_nat k < i + Z.of_nat count → vs !! k = Some u → field u = Some s →
        strcmp s name ≠ 0
    end).
Proof.
  revert i. induction count as [|count IH]; intros i Hi Hlen; cbn [find_volume].
  { simpl. lia. }
  apply wp_bind, wp_rd; [lia|]. intros v Hv.
  assert (Hskip : (∀ s, field v = Some s → strcmp s name ≠ 0) →
    wp (find_volume field name count (i + 1) vs) (λ o,
      match o with
      | Some (j, v) => i ≤ j < i + Z.of_nat (S count) ∧ vs !! Z.to_nat j = Some v ∧
          (∃ s, field v = Some s ∧ strcmp s name = 0) ∧
          ∀ k u s, i ≤ Z.of_nat k < j → vs !! k = Some u → field u = Some s → strcmp s name ≠ 0
      | None => ∀ k u s, i ≤ Z.of_nat k < i + Z.of_nat (S count) → vs !! k = Some u → field u = Some s →
          strcmp s name ≠ 0
      end)).
  { intros Hno. eapply wp_mono; [apply IH; lia|].
    assert (Hat : ∀ k u s, Z.of_nat k = i → vs !! k = Some u → field u = Some s → strcmp s name ≠ 0).
    { intros k u s <- Hu Hs. rewrite Nat2Z.id, Hu in Hv. simplify_eq. by apply Hno. }
    intros [[j v']|].
    - intros (Hj & Hv' & Hs & Hbefore). split; [lia|]. do 2 (split; [done|]).
      intros k u s Hk Hu Hus. destruct (Z.eq_dec (Z.of_nat k) i); [by eapply Hat|].
      eapply Hbefore; [|done..]; lia.
    - intros Hnone k u s Hk Hu Hus. destruct (Z.eq_dec (Z.of_nat k) i); [by eapply Hat|].
      eapply Hnone; [|done..]; lia. }
  destruct (field v) as [s|] eqn:Hs; [|apply Hskip; congruence].
  destruct (Z.eqb_spec (strcmp s name) 0); [|apply Hskip; congruence].
  simpl. split; [lia|]. split; [done|]. split; [eauto|]. lia.
Qed.

(** ** Correctness *)
Section mounts.
Context {W : Type} `{MountOS W}.
Implicit Types (w : W) (g : MountsState) (l : list MountEntry).

(** The table is not allocated yet, or has its 32 places, of which [volume_count] are used. *)
Definition mounts_ok g : Prop :=
  match volumes g with
  | Some vs => length vs = 32%nat ∧ volumes_allocd g = 32 ∧ 0 ≤ volume_count g ≤ 32
  | None => volumes_allocd g = 0 ∧ volume_count g = 0
  end.

(** The table shows the mounts [l]. *)
Definition shows g l : Prop :=
  ∃ rest, volumes g = Some ((volume_of <$> l) ++ rest) ∧ volume_count g = zlen l.

Lemma scan_mounted_volumes_spec alloc_ok g w l :
  (∀ z, alloc_ok z = true) → mounts_ok g → proc_mounts w = Some (mounts_text l) → Forall mount_ok l →
  if bool_decide (length l ≤ 32)%nat
  then ∃ g', scan_mounted_volumes alloc_ok g w = Ret (0, g') ∧ mounts_ok g' ∧ shows g' l
  else scan_mounted_volumes alloc_ok g w = Fault OutOfBounds.
Proof.
  intros Halloc Hg Hproc Hl. unfold scan_mounted_volumes. rewrite Halloc, andb_false_r, Hproc.
  set (vs := match volumes g with None => _ | Some _ => _ end).
  assert (Hvs : length vs.1 = 32%nat ∧ vs.2 = 32).
  { subst vs. unfold mounts_ok in Hg. destruct (volumes g) as [vs|]; [|done].
    destruct Hg as (Hlen & Hal & _). simpl. rewrite length_app, length_fmap, length_take, length_drop. lia. }
  destruct vs as [vs allocd]. simpl in Hvs. destruct Hvs as [Hlen ->]. cbv zeta.
  rewrite (scan_mounts_entries alloc_ok _ l vs 0) by (done || (pose proof (mounts_text_length l); lia)).
  rewrite Hlen. simpl (0 + length l)%nat. destruct (bool_decide_reflect (length l ≤ 32)%nat); [|done].
  cbn [mbind outcome_bind]. eexists. split; [done|]. split; [|by eexists].
  unfold mounts_ok. simpl. rewrite length_app, length_fmap, length_drop. lia.
Qed.

Lemma find_by_mount_point_spec g l name :
  Forall mount_ok l → cstr name → mounts_ok g → shows g l →
  find_mounted_volume_by_mount_point g name =
    Ret ((λ '(i, e), (Z.of_nat i, volume_of e)) <$> list_find (λ e, m_point e = name) l).
Proof.
  intros Hl Hname Hg (rest & Hvs & Hcount). unfold find_mounted_volume_by_mount_point.
  rewrite Hvs, Hcount, Nat2Z.id. clear Hvs Hcount Hg.
  assert (Hgen : ∀ pre, find_volume v_mount_point name (length l) (zlen pre) (pre ++ (volume_of <$> l) ++ rest) =
    Ret ((λ '(i, e), (zlen pre + Z.of_nat i, volume_of e)) <$> list_find (λ e, m_point e = name) l)).
  { induction Hl as [|e l He Hl IH]; intros pre; [done|]. cbn [length find_volume fmap list_fmap app].
    rewrite <- (Z.add_0_r (zlen pre)) at 1. rewrite rd_app_r by lia.
    rewrite (proj2 (rd_Some (volume_of e :: (volume_of <$> l) ++ rest) 0 (volume_of e))) by done.
    cbn [mbind outcome_bind v_mount_point volume_of].
    assert (Hc : strcmp (m_point e) name = 0 ↔ m_point e = name).
    { apply strcmp_0; [|done]. destruct He as (_ & Hp & _). by eapply field_cstr. }
    cbn [list_find]. cbn beta. destruct (decide (m_point e = name)) as [Heq|Hne].
    - rewrite (proj2 (Z.eqb_eq _ _) (proj2 Hc Heq)). by rewrite <- (Z.add_0_r (zlen pre)) at 1.
    - rewrite (proj2 (Z.eqb_neq _ _)) by tauto.
      specialize (IH (pre ++ [volume_of e])). rewrite <- app_assoc in IH. cbn [app] in IH.
      replace (zlen pre + 1) with (zlen (pre ++ [volume_of e])) by (rewrite length_app; simpl; lia).
      rewrite IH, length_app. f_equal. clear.
      destruct (list_find _ l) as [[i e']|]; [|done]. simpl. do 2 f_equal. lia. }
  exact (Hgen []).
Qed.

(** Unmounting clears the place of the table when the kernel agrees. *)
Lemma unmount_mounted_volume_spec g l i e w :
  mounts_ok g → shows g l → l !! i = Some e →
  unmount_mounted_volume g (Z.of_nat i) w =
    let '(ret, w') := sys_umount (Some (m_point e)) w in
    if ret =? 0
    then Ret (0, mk_mounts ((λ vs, <[i := zero_volume]> vs) <$> volumes g) (volumes_allocd g) (volume_count g), w')
    else Ret (ret, g, w').
Proof.
  intros Hg (rest & Hvs & Hcount) Hi. unfold unmount_mounted_volume. rewrite Hvs. cbn [of_option mbind outcome_bind].
  pose proof (lookup_lt_Some _ _ _ Hi) as Hlt.
  assert (Hat : rd ((volume_of <$> l) ++ rest) (Z.of_nat i) = Ret (volume_of e)).
  { apply rd_Some. split; [lia|]. rewrite Nat2Z.id, lookup_app_l by (by rewrite length_fmap).
    by rewrite list_lookup_fmap, Hi. }
  rewrite Hat. cbn [mbind outcome_bind]. simpl (v_mount_point _).
  destruct (sys_umount _ _) as [ret w']. destruct (ret =? 0); [|done].
  rewrite wr_in_bounds by (rewrite length_app, length_fmap; lia). cbn [mbind outcome_bind].
  by rewrite Nat2Z.id.
Qed.
End mounts.

(** Scanning /proc/mounts and looking a volume up. From a listing of the documented form, with
    fields that fit the buffers, [scan_mounted_volumes] answers 0 and fills the table in the
    order of the lines, and a volume is then found by its mount point, the first one if there
    are several. The table has 32 places that are not checked: a listing with more lines is
    written behind its end. *)
Theorem scan_mounted_volumes_lists {W} `{MountOS W} alloc_ok g (w : W) l :
  (∀ z, alloc_ok z = true) → mounts_ok g → proc_mounts w = Some (mounts_text l) → Forall mount_ok l →
  if bool_decide (length l ≤ 32)%nat
  then ∃ g', scan_mounted_volumes alloc_ok g w = Ret (0, g') ∧ mounts_ok g' ∧
    ∀ name, cstr name → find_mounted_volume_by_mount_point g' name =
      Ret ((λ '(i, e), (Z.of_nat i, volume_of e)) <$> list_find (λ e, m_point e = name) l)
  else scan_mounted_volumes alloc_ok g w = Fault OutOfBounds.
Proof.
  intros Halloc Hg Hproc Hl. pose proof (scan_mounted_volumes_spec alloc_ok g w l Halloc Hg Hproc Hl) as Hs.
  destruct (bool_decide _); [|done]. destruct Hs as (g' & Hs & Hg' & Hshow). exists g'.
  do 2 (split; [done|]). intros name Hname. by apply find_by_mount_point_spec.
Qed.

(** ** A kernel that keeps a list of its mounts *)
Module MountDemo.
#[local] Instance os : MountOS (list MountEntry) := {|
  proc_mounts l := Some (mounts_text l);
  sys_umount p l :=
    match p with
    | Some p =>
        match list_find (λ e, m_point e = p) (rev l) with
        | Some (i, _) => (0, rev (delete i (rev l)))
        | None => (-1, l)
        end
    | None => (-1, l)
    end
|}.
Definition e1 : MountEntry := mk_mount (str "rootfs") (str "/") (str "rootfs") (str "rw").
Definition e2 : MountEntry :=
  mk_mount (str "/dev/block/mtdblock5") (str "/data") (str "yaffs2") (str "rw,nodev,noatime").
End MountDemo.
#[local] Existing Instance MountDemo.os.

(** The four fields may come from more than one line: a line with too few takes the rest from
    the next one. *)
Example fields_across_lines :
  scan_volume (str "none /tmp" ++ [10] ++ str "tmpfs rw 0 0") =
    Some (str "none", str "/tmp", str "tmpfs", str "rw").
Proof. reflexivity. Qed.

Lemma scan_mounted_volumes_lists_witness :
  ∃ g', scan_mounted_volumes (λ _, true) g_mounts_state [MountDemo.e1; MountDemo.e2] = Ret (0, g') ∧ mounts_ok g' ∧
    ∀ name, cstr name → find_mounted_volume_by_mount_point g' name =
      Ret ((λ '(i, e), (Z.of_nat i, volume_of e)) <$> list_find (λ e, m_point e = name) [MountDemo.e1; MountDemo.e2]).
Proof.
  apply (scan_mounted_volumes_lists (λ _, true) g_mounts_state [MountDemo.e1; MountDemo.e2] [MountDemo.e1; MountDemo.e2]);
    try done.
  repeat constructor; vm_compute; lia.
Defined.
