(* ===== verification/Roots.v ===== *)
(** * Roots

    roots.c: the roots ("SYSTEM:", "SDCARD:", ...) that name the partitions, translating
    paths, mounting, unmounting and formatting. *)
From S2P Require Import Prelude CString ZipParse Syscalls Mtdutils Mtdflash Mtdframe Mtdscan Mounts.

Class RootOS (W : Type) := {
  sys_mkdir : list Z → Z → W → Z * W
}.

(** ** Data *)

(** The pointers of the table: the canonical ones, which are compared as pointers, or the
    address of a literal. *)
Inductive cptr :=
  | g_mtd_device
  | g_raw
  | g_package_file
  | Lit (s : list Z).
#[export] Instance cptr_eq_dec : EqDecision cptr.
Proof. solve_decision. Defined.

(** The string at the pointer; the canonical ones begin with ["@\0"]. *)
Definition c_text (p : cptr) : list Z :=
  match p with Lit s => s | _ => str "@" end.

Record RootInfo := mk_root {
  r_name : list Z;
  r_device : option cptr;
  r_device2 : option (list Z);
  r_partition_name : option (list Z);
  r_mount_point : option (list Z);
  r_filesystem : option cptr
}.

#[export] Instance RootInfo_eq_dec : EqDecision RootInfo.
Proof. solve_decision. Defined.

Definition raw_root (name partition : string) : RootInfo :=
  mk_root (str name) (Some g_mtd_device) None (Some (str partition)) None (Some g_raw).
Definition yaffs2_root (name partition mount_point : string) : RootInfo :=
  mk_root (str name) (Some g_mtd_device) None (Some (str partition)) (Some (str mount_point)) (Some (Lit (str "yaffs2"))).

(** The table, by the two conditions of the preprocessor. *)
Definition g_roots (OPEN_RCVR_VERSION_LITE HAVE_CUST : bool) : list RootInfo :=
  [ raw_root "BOOT:" "boot";
    yaffs2_root "CACHE:" "cache" "/cache";
    yaffs2_root "DATA:" "userdata" "/data";
    raw_root "MISC:" "misc";
    mk_root (str "PACKAGE:") None None None None (Some g_package_file);
    mk_root (str "RECOVERY:") (Some g_mtd_device) None (Some (str "recovery")) (Some (str "/")) (Some g_raw);
    mk_root (str "SDCARD:") (Some (Lit (str "/dev/block/mmcblk0p1"))) (Some (str "/dev/block/mmcblk0"))
      None (Some (str "/sdcard")) (Some (Lit (str "vfat"))) ] ++
  (if OPEN_RCVR_VERSION_LITE then [] else
    [ mk_root (str "SDDATA:") (Some (Lit (str "/dev/block/mmcblk0p2"))) None None (Some (str "/sddata"))
        (Some (Lit (str "ext2"))) ]) ++
  [ yaffs2_root "SYSTEM:" "system" "/system";
    raw_root "MBM:" "mbm";
    raw_root "BPLOADER:" "bploader";
    raw_root "CDT:" "cdt";
    raw_root "LBL:" "lbl";
    raw_root "BPSW:" "bpsw";
    mk_root (str "TMP:") None None None (Some (str "/tmp")) None ] ++
  (if HAVE_CUST then [ yaffs2_root "CUST:" "cust" "/cust" ] else []).

(** The tables that the functions share: mounts, partitions, the package. *)
Record Roots := mk_roots {
  mounts : MountsState;
  mtd : MtdState
}.
Record Package := mk_package {
  g_package : option ZipArchive;
  g_package_path : option (list Z)
}.

Section code.
Context {W : Type} `{MountOS W} `{MtdDriver W} `{PatchOS W} `{RootOS W}.
Context (OPEN_RCVR_VERSION_LITE HAVE_CUST : bool) (alloc_ok : Z → bool) (fuel : nat).
Implicit Types (w : W) (s : Roots) (root_path : list Z) (info : RootInfo).

(** ** Paths *)
Definition get_root_info_for_path root_path : option RootInfo :=
  match strchr root_path 58 with
  | None => None
  | Some i =>
      let len := S i in
      snd <$> list_find (λ info, strncmp len (r_name info) root_path = 0)
        (g_roots OPEN_RCVR_VERSION_LITE HAVE_CUST)
  end.

Definition register_package_root (package : option ZipArchive) (package_path : list Z) (g : Package)
    : Z * Package :=
  match package with
  | Some _ =>
      if alloc_ok (zlen package_path + 1) then (0, mk_package package (Some package_path)) else (-1, g)
  | None => (0, mk_package None None)
  end.

Definition is_package_root_path root_path : bool :=
  match get_root_info_for_path root_path with
  | Some info => bool_decide (r_filesystem info = Some g_package_file)
  | None => false
  end.

(** The buffer and the package; [None] is a null result. *)
Definition translate_package_root_path root_path (out_buf : list Z) (out_buf_len : Z) (g : Package)
    : outcome (option (list Z * option ZipArchive)) :=
  match get_root_info_for_path root_path with
  | None => mret None
  | Some info =>
      if negb (bool_decide (r_filesystem info = Some g_package_file)) then mret None
      else
        let root_path := drop (length (r_name info)) root_path in
        if out_buf_len <? zlen root_path + 1 then mret None
        else
          out_buf ← wr_n out_buf 0 (root_path ++ [0]);
          mret (Some (out_buf, g_package g))
  end.

Definition skip_slashes (s : list Z) : list Z := drop (count_while (λ c, c =? 47) s) s.

Definition translate_root_path root_path (out_buf : list Z) (out_buf_len : Z)
    : outcome (option (list Z)) :=
  if out_buf_len <? 1 then mret None
  else
    match get_root_info_for_path root_path with
    | None => mret None
    | Some info =>
        match r_mount_point info with
        | None => mret None
        | Some mount_point =>
            let root_path := skip_slashes (drop (length (r_name info)) root_path) in
            let mp_len := zlen mount_point in
            let rp_len := zlen root_path in
            if out_buf_len <? mp_len + 1 + rp_len + 1 then mret None
            else
              out_buf ← wr_n out_buf 0 mount_point;
              c ← rd out_buf (mp_len - 1);
              '(out_buf, mp_len) ←
                (if negb (c =? 47) then
                   out_buf ← wr out_buf mp_len 47;
                   mret (out_buf, mp_len + 1)
                 else mret (out_buf, mp_len));
              out_buf ← wr_n out_buf mp_len root_path;
              out_buf ← wr out_buf (mp_len + rp_len) 0;
              mret (Some out_buf)
        end
    end.

(** ** Mounting *)

(** The place of the root's volume in the table of mounts. *)
Definition scan_for (mount_point : list Z) s w : outcome (Z * option (Z * MountedVolume) * Roots) :=
  '(ret, g) ← scan_mounted_volumes alloc_ok (mounts s) w;
  let s := mk_roots g (mtd s) in
  if ret <? 0 then mret (ret, None, s)
  else
    volume ← find_mounted_volume_by_mount_point g mount_point;
    mret (ret, volume, s).

Definition internal_root_mounted info s w : outcome (Z * Roots) :=
  match r_mount_point info with
  | None => mret (-1, s)
  | Some mount_point =>
      '(ret, volume, s) ← scan_for mount_point s w;
      if ret <? 0 then mret (ret, s)
      else mret (match volume with Some _ => 0 | None => -1 end, s)
  end.

Definition is_root_path_mounted root_path s w : outcome (Z * Roots) :=
  match get_root_info_for_path root_path with
  | None => mret (-1, s)
  | Some info =>
      '(ret, s) ← internal_root_mounted info s w;
      mret (if 0 <=? ret then 1 else 0, s)
  end.

(** The partition of that name, after a scan of /proc/mtd whose result is not used. *)
Definition scan_for_partition (name : list Z) s w : outcome (option MtdPartition * Roots) :=
  '(_, g) ← mtd_scan_partitions alloc_ok (mtd s) w;
  mret (mtd_find_partition_by_name g name, mk_roots (mounts s) g).

(** [mount] fails (EFAULT) for a null mount point, and then so does the call. *)
Definition mount_partition (partition : MtdPartition) (mount_point : option (list Z)) (filesystem : list Z) w
    : Z * W :=
  match mount_point with
  | Some mount_point => mtd_mount_partition partition mount_point filesystem false w
  | None => (-1, w)
  end.

Definition MOUNT_FLAGS : Z := Z.lor (Z.lor 1024 4) 2048.

(** The second half of the function: the root is not mounted. *)
Definition mount_root info s w : outcome (Z * Roots * W) :=
  if bool_decide (r_device info = Some g_mtd_device) then
    match r_partition_name info with
    | None => mret (-1, s, w)
    | Some name =>
        '(partition, s) ← scan_for_partition name s w;
        match partition with
        | None => mret (-1, s, w)
        | Some partition =>
            filesystem ← of_option NullPointer (r_filesystem info);
            let '(r, w) := mount_partition partition (r_mount_point info) (c_text filesystem) w in
            mret (r, s, w)
        end
    end
  else
    match r_device info, r_mount_point info, r_filesystem info with
    | Some device, Some mount_point, Some filesystem =>
        if bool_decide (filesystem = g_raw) || bool_decide (filesystem = g_package_file) then mret (-1, s, w)
        else
          let '(_, w) := sys_mkdir mount_point 493 w in
          let '(r, w) := sys_mount (c_text device) mount_point (c_text filesystem) MOUNT_FLAGS w in
          if r =? 0 then mret (0, s, w)
          else
            match r_device2 info with
            | None => mret (-1, s, w)
            | Some device2 =>
                let '(r, w) := sys_mount device2 mount_point (c_text filesystem) MOUNT_FLAGS w in
                mret (if r =? 0 then 0 else -1, s, w)
            end
    | _, _, _ => mret (-1, s, w)
    end.

Definition ensure_root_path_mounted root_path s w : outcome (Z * Roots * W) :=
  match get_root_info_for_path root_path with
  | None => mret (-1, s, w)
  | Some info =>
      '(ret, s) ← internal_root_mounted info s w;
      if 0 <=? ret then mret (0, s, w) else mount_root info s w
  end.

Definition ensure_root_path_unmounted root_path s w : outcome (Z * Roots * W) :=
  match get_root_info_for_path root_path with
  | None => mret (-1, s, w)
  | Some info =>
      match r_mount_point info with
      | None => mret (0, s, w)
      | Some mount_point =>
          '(ret, volume, s) ← scan_for mount_point s w;
          if ret <? 0 then mret (ret, s, w)
          else
            match volume with
            | None => mret (0, s, w)
            | Some (i, _) =>
                '(ret, g, w) ← unmount_mounted_volume (mounts s) i w;
                mret (ret, mk_roots g (mtd s), w)
            end
      end
  end.

Definition get_root_mtd_partition root_path s w : outcome (option MtdPartition * Roots) :=
  match get_root_info_for_path root_path with
  | None => mret (None, s)
  | Some info =>
      match r_partition_name info with
      | Some name =>
          if bool_decide (r_device info = Some g_mtd_device) then scan_for_partition name s w
          else mret (None, s)
      | None => mret (None, s)
      end
  end.

(** ** Formatting *)

(** Erase the whole partition. *)
Definition erase_partition (partition : MtdPartition) w : outcome (Z * W) :=
  match mtd_write_partition alloc_ok partition w with
  | (None, w) => mret (-1, w)
  | (Some write, w) =>
      '(pos, write, w) ← mtd_erase_blocks fuel write (-1) w;
      if pos =? -1 then
        '(_, w) ← mtd_write_close fuel write w;
        mret (-1, w)
      else
        '(r, w) ← mtd_write_close fuel write w;
        mret (if negb (r =? 0) then -1 else 0, w)
  end.

(** The device itself, when it is not mounted (any more). *)
Definition format_device info s w : outcome (Z * Roots * W) :=
  if bool_decide (r_device info = Some g_mtd_device) then
    name ← of_option NullPointer (r_partition_name info);
    '(partition, s) ← scan_for_partition name s w;
    match partition with
    | None => mret (-1, s, w)
    | Some partition =>
        filesystem ← of_option NullPointer (r_filesystem info);
        if bool_decide (filesystem = g_raw) || (strcmp (c_text filesystem) (str "yaffs2") =? 0) then
          '(r, w) ← erase_partition partition w;
          mret (r, s, w)
        else mret (-1, s, w)
    end
  else mret (-1, s, w).

Definition format_root_device root s w : outcome (Z * Roots * W) :=
  match strchr root 58 with
  | None => mret (-1, s, w)
  | Some i =>
      if negb (char_at root (S i) =? 0) then mret (-1, s, w)
      else
        match get_root_info_for_path root with
        | None => mret (-1, s, w)
        | Some info =>
            match r_device info with
            | None => mret (-1, s, w)
            | Some _ =>
                '(ret, s, w) ←
                  (match r_mount_point info with
                   | Some _ => ensure_root_path_unmounted root s w
                   | None => mret (0, s, w)
                   end);
                if ret <? 0 then mret (ret, s, w) else format_device info s w
            end
        end
  end.

(** ** The common roots *)

(** [stat] of a null path fails. *)
Definition stat_ptr (path : option (list Z)) w : bool :=
  match path with Some p => bool_decide (is_Some (sys_stat p w)) | None => false end.

Definition device_node_exists root_path w : bool :=
  match get_root_info_for_path root_path with
  | None => false
  | Some info => stat_ptr (c_text <$> r_device info) w || stat_ptr (r_device2 info) w
  end.
Definition device_mount_point_exists root_path w : bool :=
  match get_root_info_for_path root_path with
  | None => false
  | Some info => stat_ptr (r_mount_point info) w
  end.

(** Do [f] for the roots one after the other; the results are or-ed. *)
Fixpoint for_roots (f : list Z → Roots → W → outcome (Z * Roots * W)) (roots : list (list Z))
    (result : Z) s w : outcome (Z * Roots * W) :=
  match roots with
  | [] => mret (result, s, w)
  | r :: roots =>
      '(ret, s, w) ← f r s w;
      for_roots f roots (Z.lor result ret) s w
  end.

(** The ext2 partition is looked for after the card has been dealt with. *)
Definition common_roots (f : list Z → Roots → W → outcome (Z * Roots * W)) (rest : list (list Z)) s w
    : outcome (Z * Roots * W) :=
  '(result, s, w) ← for_roots f [str "SDCARD:"] 0 s w;
  let sddata := device_node_exists (str "SDDATA:") w && device_mount_point_exists (str "SDDATA:") w in
  for_roots f ((if sddata then [str "SDDATA:"] else []) ++ rest) result s w.

Definition ensure_common_roots_mounted s w : outcome (Z * Roots * W) :=
  common_roots ensure_root_path_mounted
    ([str "SYSTEM:"; str "DATA:"; str "CACHE:"] ++ (if HAVE_CUST then [str "CUST:"] else []) ++ [str "CDROM:"]) s w.

Definition ensure_common_roots_unmounted s w : outcome (Z * Roots * W) :=
  common_roots ensure_root_path_unmounted
    ([str "SYSTEM:"; str "DATA:"] ++ (if HAVE_CUST then [str "CUST:"] else []) ++ [str "CDROM:"]) s w.
End code.

(** ** Names of roots *)

Lemma strncmp_0 n a b : cstr a → cstr b → strncmp n a b = 0 ↔ take n a = take n b.
Proof.
  intros Ha. revert a b Ha. induction n as [|n IH]; intros a b Ha Hb; [done|].
  destruct Ha as [|x a Hx Ha], Hb as [|y b Hy Hb]; cbn [strncmp take]; try (split; [lia|done]); [done|].
  destruct (Z.eqb_spec x y) as [->|]; [rewrite IH by done; split; congruence|].
  split; [lia|congruence].
Qed.

Lemma strchr_spec s c :
  c ≠ 0 →
  match strchr s c with
  | Some i => ∃ a b, s = a ++ c :: b ∧ length a = i ∧ c ∉ a
  | None => c ∉ s
  end.
Proof.
  intros Hc. induction s as [|x s IH]; cbn [strchr].
  { destruct (Z.eqb_spec c 0); [done|]. by intros ?%not_elem_of_nil. }
  destruct (Z.eqb_spec x c) as [->|].
  - exists [], s. split; [done|]. split; [done|]. by intros ?%not_elem_of_nil.
  - destruct (strchr s c) as [i|]; simpl; [|by intros [|]%elem_of_cons].
    destruct IH as (a & b & -> & <- & Ha). exists (x :: a), b. split; [done|]. split; [done|].
    by intros [|]%elem_of_cons.
Qed.

(** A name is characters that are no colon, and a colon. *)
Definition colon_name (s : list Z) : Prop := ∃ a, s = a ++ [58] ∧ 58 ∉ a.
Definition entry_ok (info : RootInfo) : Prop :=
  colon_name (r_name info) ∧ cstr (r_name info) ∧
  match r_mount_point info with Some mp => cstr mp ∧ mp ≠ [] | None => True end.

Lemma colon_split a b m k : 58 ∉ a → 58 ∉ m → a ++ 58 :: b = m ++ 58 :: k → a = m.
Proof.
  revert m. induction a as [|x a IH]; intros [|y m] Ha Hm Heq; try done.
  - injection Heq as <- _. by rewrite elem_of_cons in Hm; destruct Hm; left.
  - injection Heq as -> _. by rewrite elem_of_cons in Ha; destruct Ha; left.
  - injection Heq as -> Heq. f_equal. rewrite elem_of_cons in Ha, Hm. apply IH; tauto.
Qed.
Lemma colon_name_prefix a b n :
  58 ∉ a → colon_name n → n `prefix_of` a ++ 58 :: b ↔ n = a ++ [58].
Proof.
  intros Ha (m & -> & Hm). split.
  - intros [k Hk]. rewrite <- app_assoc in Hk. by rewrite (colon_split a b m k).
  - intros ->. exists b. by rewrite <- app_assoc.
Qed.
Lemma colon_name_take a n : 58 ∉ a → colon_name n → take (S (length a)) n = a ++ [58] ↔ n = a ++ [58].
Proof.
  intros Ha (m & -> & Hm). split.
  - intros Heq. pose proof (take_drop (S (length a)) (m ++ [58])) as Htd. rewrite Heq, <- app_assoc in Htd.
    by rewrite (colon_split a _ m [] Ha Hm Htd).
  - intros ->. apply firstn_all2. rewrite length_app. simpl. lia.
Qed.

Lemma g_roots_ok lite cust : Forall entry_ok (g_roots lite cust).
Proof.
  destruct lite, cust; unfold g_roots; cbn [app];
    repeat match goal with |- Forall entry_ok (_ :: _) => apply Forall_cons; split end;
    try (apply Forall_nil; exact I); (split; [match goal with |- colon_name ?n => exists (removelast n) end; split; [reflexivity|]|split]);
    cbn [r_mount_point raw_root yaffs2_root]; first [exact I | apply (bool_decide_unpack _); vm_compute; exact I].
Qed.
Lemma g_roots_names_ok lite cust :
  Forall (λ info, ∀ name, r_partition_name info = Some name → cstr name) (g_roots lite cust).
Proof.
  assert (Hb : Forall (λ info, cstr (default [] (r_partition_name info))) (g_roots lite cust)).
  { destruct lite, cust; apply (bool_decide_unpack _); vm_compute; exact I. }
  eapply Forall_impl; [exact Hb|]. intros info Hc name Hname. cbn beta in Hc. by rewrite Hname in Hc.
Qed.
Lemma g_roots_names lite cust : NoDup (r_name <$> g_roots lite cust).
Proof. destruct lite, cust; apply (bool_decide_unpack _); vm_compute; exact I. Qed.

Section lookup.
Context (lite cust : bool).
Implicit Types (info : RootInfo) (path : list Z).

Lemma get_root_info_for_path_spec path info :
  cstr path →
  get_root_info_for_path lite cust path = Some info ↔ info ∈ g_roots lite cust ∧ r_name info `prefix_of` path.
Proof.
  intros Hpath. unfold get_root_info_for_path. pose proof (strchr_spec path 58 ltac:(done)) as Hchr.
  pose proof (proj1 (Forall_forall _ _) (g_roots_ok lite cust)) as Hok.
  destruct (strchr path 58) as [i|]; cycle 1.
  { split; [done|]. intros [Hin Hpre]. destruct (Hok _ Hin) as ((a & Hn & _) & _). destruct Hchr.
    destruct Hpre as [k ->]. rewrite Hn, !elem_of_app. left. right. by left. }
  destruct Hchr as (a & b & -> & <- & Ha).
  assert (Hcmp : ∀ info, info ∈ g_roots lite cust →
    strncmp (S (length a)) (r_name info) (a ++ 58 :: b) = 0 ↔ r_name info `prefix_of` a ++ 58 :: b).
  { intros info' Hin. destruct (Hok _ Hin) as (Hn & Hc & _). rewrite strncmp_0 by done.
    rewrite colon_name_prefix, <- colon_name_take by done.
    replace (take (S (length a)) (a ++ 58 :: b)) with (a ++ [58]); [done|].
    change (58 :: b) with ([58] ++ b). rewrite app_assoc, take_app_length'; [done|rewrite length_app; simpl; lia]. }
  rewrite fmap_Some. split.
  - intros ([j info'] & (Hj & Heq & _)%list_find_Some & ->). simpl.
    apply list_elem_of_lookup_2 in Hj. split; [done|]. by apply Hcmp.
  - intros [Hin Hpre].
    destruct (list_find_elem_of (λ info, strncmp (S (length a)) (r_name info) (a ++ 58 :: b) = 0) _ info Hin)
      as [[j info'] Hf]; [by apply Hcmp|].
    exists (j, info'). split; [done|]. simpl. apply list_find_Some in Hf as (Hj & Heq & _).
    pose proof (list_elem_of_lookup_2 _ _ _ Hj) as Hin'. apply Hcmp in Heq; [|done].
    assert (Hname : r_name info = r_name info').
    { destruct (Hok _ Hin) as (Hn & _), (Hok _ Hin') as (Hn' & _).
      apply colon_name_prefix in Hpre, Heq; congruence. }
    apply list_elem_of_lookup in Hin as [k Hk].
    assert (k = j) as ->; [|congruence].
    apply (NoDup_lookup _ k j (r_name info) (g_roots_names lite cust)); rewrite list_lookup_fmap;
      [by rewrite Hk|by rewrite Hj, Hname].
Qed.

Lemma get_root_of_entry info rest :
  info ∈ g_roots lite cust → cstr rest → get_root_info_for_path lite cust (r_name info ++ rest) = Some info.
Proof.
  intros Hin Hrest. apply get_root_info_for_path_spec; [|split; [done|by exists rest]].
  apply Forall_app. split; [|done].
  by pose proof (proj1 (Forall_forall _ _) (g_roots_ok lite cust) _ Hin) as (_ & ? & _).
Qed.
Lemma mount_point_ok path info mp :
  get_root_info_for_path lite cust path = Some info → r_mount_point info = Some mp → cstr mp ∧ mp ≠ [].
Proof.
  unfold get_root_info_for_path. destruct (strchr path 58); [|done].
  intros ([j i] & (Hj & _)%list_find_Some & ->)%fmap_Some Hmp.
  apply list_elem_of_lookup_2 in Hj.
  pose proof (proj1 (Forall_forall _ _) (g_roots_ok lite cust) _ Hj) as (_ & _ & Hok). simpl in Hmp.
  by rewrite Hmp in Hok.
Qed.

Lemma root_in_table path info : get_root_info_for_path lite cust path = Some info → info ∈ g_roots lite cust.
Proof.
  unfold get_root_info_for_path. destruct (strchr path 58); [|done].
  intros ([j i] & (Hj & _)%list_find_Some & ->)%fmap_Some. by eapply list_elem_of_lookup_2.
Qed.

(** A path with nothing behind its colon is the name of its root. *)
Lemma bare_root_name root i info :
  cstr root → strchr root 58 = Some i → char_at root (S i) = 0 →
  get_root_info_for_path lite cust root = Some info → root = r_name info.
Proof.
  intros Hroot Hchr Hend Hget. pose proof (strchr_spec root 58 ltac:(done)) as Hs. rewrite Hchr in Hs.
  destruct Hs as (a & b & Hab & <- & Ha).
  assert (b = []) as ->.
  { destruct b as [|c b]; [done|]. exfalso. subst root. unfold char_at in Hend.
    rewrite (lookup_app_r a) in Hend by lia. replace (S (length a) - length a)%nat with 1%nat in Hend by lia.
    simpl in Hend. rewrite Forall_app, !Forall_cons in Hroot. lia. }
  pose proof (root_in_table _ _ Hget) as Hin.
  apply get_root_info_for_path_spec in Hget as [_ Hpre]; [|done]. subst root.
  destruct (proj1 (Forall_forall _ _) (g_roots_ok lite cust) _ Hin) as (Hcn & _).
  by apply colon_name_prefix in Hpre.
Qed.

(** The path below a mount point, with one slash between. *)
Definition join_path (mount_point rel : list Z) : list Z :=
  mount_point ++ (if bool_decide (last mount_point = Some 47) then [] else [47]) ++ rel.

Lemma skip_slashes_spec n rel :
  head rel ≠ Some 47 → skip_slashes (replicate n 47 ++ rel) = rel.
Proof.
  intros Hrel. unfold skip_slashes. rewrite count_while_app; cycle 1.
  { apply Forall_replicate. done. }
  { intros c r ->. simpl in Hrel. apply Z.eqb_neq. congruence. }
  by rewrite drop_app_length.
Qed.

(** A string and its NUL behind [pre]. *)
Lemma store_string (pre tail rel : list Z) :
  zlen rel + 1 ≤ zlen tail →
  (out ← wr_n (pre ++ tail) (zlen pre) rel; out ← wr out (zlen pre + zlen rel) 0; mret (Some out)) =
    Ret (Some (pre ++ rel ++ 0 :: drop (S (length rel)) tail)).
Proof.
  intros Hlen. rewrite <- (take_drop (length rel) tail).
  rewrite wr_n_app by (rewrite length_take; lia). cbn [mbind outcome_bind].
  rewrite wr_in_bounds by len. cbn [mbind outcome_bind mret outcome_ret].
  destruct (drop (length rel) tail) as [|x t] eqn:Ht.
  { apply (f_equal length) in Ht. rewrite length_drop in Ht. simpl in Ht. lia. }
  do 2 f_equal. rewrite insert_app_r_alt by lia. f_equal. rewrite insert_app_r_alt by lia. f_equal.
  replace (Z.to_nat (zlen pre + zlen rel) - length pre - length rel)%nat with O by lia. simpl. f_equal.
  assert (Hl : length (take (length rel) tail) = length rel) by (rewrite length_take; lia).
  rewrite <- Nat.add_1_r, <- drop_drop, drop_app_length' by done. done.
Qed.

(** Translating paths. For a path below a root of the table that has a mount point,
    [translate_root_path] leaves in the buffer exactly the path below that mount point, with one
    slash between whatever number the argument had, and a NUL; the rest of the buffer stays.
    If the buffer may be too short the result is null. No access leaves the buffer. A path of
    another form has no translation. *)
Theorem translate_root_path_correct info mp n rel out_buf :
  info ∈ g_roots lite cust → r_mount_point info = Some mp → cstr rel → head rel ≠ Some 47 →
  translate_root_path lite cust (r_name info ++ replicate n 47 ++ rel) out_buf (zlen out_buf) =
    Ret (if zlen mp + 1 + zlen rel + 1 <=? zlen out_buf
         then Some (join_path mp rel ++ 0 :: drop (S (length (join_path mp rel))) out_buf) else None) ∧
  ∀ path, cstr path → (∀ info', info' ∈ g_roots lite cust → r_name info' `prefix_of` path → r_mount_point info' = None) →
    translate_root_path lite cust path out_buf (zlen out_buf) = Ret None.
Proof.
  intros Hin Hmp Hrel Hhead. split; cycle 1.
  { intros path Hpath Hno. unfold translate_root_path. destruct (_ <? 1); [done|].
    destruct (get_root_info_for_path _ _ path) as [info'|] eqn:Hget; [|done].
    apply get_root_info_for_path_spec in Hget as [??]; [|done]. by rewrite Hno. }
  assert (Hget : get_root_info_for_path lite cust (r_name info ++ replicate n 47 ++ rel) = Some info).
  { apply get_root_of_entry; [done|]. apply Forall_app. split; [by apply Forall_replicate|done]. }
  destruct (mount_point_ok _ _ _ Hget Hmp) as [Hmpc Hmp0].
  unfold translate_root_path. rewrite Hget, Hmp, drop_app_length, skip_slashes_spec by done.
  destruct (Z.leb_spec (zlen mp + 1 + zlen rel + 1) (zlen out_buf)); cycle 1.
  { destruct (_ <? 1); [done|]. by rewrite (proj2 (Z.ltb_lt _ _)) by lia. }
  rewrite (proj2 (Z.ltb_ge _ _)), (proj2 (Z.ltb_ge (zlen out_buf) _)) by lia.
  destruct (exists_last Hmp0) as (m & c & Hm). subst mp.
  rewrite (wr_n_in_bounds out_buf 0) by lia. cbn [mbind outcome_bind]. simpl (Z.to_nat 0). rewrite take_0. cbn [app].
  replace (zlen (m ++ [c]) - 1) with (zlen m) by (rewrite length_app; simpl; lia).
  rewrite (proj2 (rd_Some _ _ c)); cycle 1.
  { split; [lia|]. rewrite Nat2Z.id, <- app_assoc. by apply list_lookup_middle. }
  cbn [mbind outcome_bind]. unfold join_path. rewrite last_snoc.
  set (len := length (m ++ [c])) in *. set (pre := m ++ [c]) in *.
  assert (Hend : ∀ sep, zlen sep ≤ 1 →
    (out ← wr_n (pre ++ sep ++ drop (length (pre ++ sep)) out_buf) (zlen (pre ++ sep)) rel;
     out ← wr out (zlen (pre ++ sep) + zlen rel) 0; mret (Some out)) =
    Ret (Some ((pre ++ sep ++ rel) ++ 0 :: drop (S (length (pre ++ sep ++ rel))) out_buf))).
  { intros sep Hsep. rewrite (app_assoc pre sep (drop _ _)), store_string.
    - do 2 f_equal. rewrite <- !app_assoc, drop_drop. do 5 f_equal. len.
    - rewrite length_drop, length_app. lia. }
  destruct (Z.eqb_spec c 47) as [->|Hc]; cbn [negb].
  - rewrite bool_decide_eq_true_2 by done. cbn [mbind outcome_bind mret outcome_ret].
    specialize (Hend []). rewrite app_nil_r in Hend. apply Hend. simpl. lia.
  - rewrite bool_decide_eq_false_2 by congruence.
    rewrite (wr_in_bounds _ (Z.of_nat len)) by len. cbn [mbind outcome_bind mret outcome_ret].
    rewrite Nat2Z.id. specialize (Hend [47] ltac:(simpl; lia)).
    replace (zlen (pre ++ [47])) with (Z.of_nat len + 1) in Hend by (rewrite length_app; simpl; lia).
    rewrite <- Hend. do 2 f_equal.
    rewrite insert_app_r_alt by lia. f_equal. rewrite Nat.sub_diag, length_app. change (Z.to_nat 0 + len)%nat with len.
    rewrite (drop_S out_buf (default 0 (out_buf !! len)) len); cycle 1.
    { destruct (lookup_lt_is_Some_2 out_buf len) as [x Hx]; [lia|]. by rewrite Hx. }
    simpl. by rewrite Nat.add_1_r.
Qed.
End lookup.

(** ** What the kernel promises

    It keeps a list of mounts, which /proc/mounts shows; [mount] adds to its end, [umount]
    removes the last mount at a mount point. /proc/mtd lists the same partitions always. *)
Class RootLaws {W : Type} `{MountOS W} `{MtdDriver W} `{PatchOS W} `{RootOS W} := {
  mount_table : W → list MountEntry;
  flash_parts : list MtdEntry;
  mounts_shown w : proc_mounts w = Some (mounts_text (mount_table w));
  mounts_fit w : Forall mount_ok (mount_table w);
  parts_shown w : proc_mtd w = Some (listing flash_parts);
  parts_fit : Forall mtd_entry_ok flash_parts ∧ NoDup (e_num <$> flash_parts) ∧ NoDup (e_name <$> flash_parts);
  mount_adds device mp filesystem flags w : let '(r, w') := sys_mount device mp filesystem flags w in
    (r = 0 ∧ ∃ e, m_point e = mp ∧ mount_table w' = mount_table w ++ [e]) ∨
    (r = -1 ∧ mount_table w' = mount_table w);
  umount_removes mp w : let '(r, w') := sys_umount (Some mp) w in
    (r = 0 ∧ ∃ l1 e l2, mount_table w = l1 ++ e :: l2 ∧ m_point e = mp ∧ mount_table w' = l1 ++ l2 ∧
      mp ∉ m_point <$> l2) ∨
    (r = -1 ∧ mount_table w' = mount_table w);
  mkdir_keeps p mode w : mount_table (sys_mkdir p mode w).2 = mount_table w;
  chmod_keeps p mode w : mount_table (sys_chmod p mode w).2 = mount_table w
}.

Section mounting.
Context {W : Type} `{RootLaws W}.
Context (lite cust : bool) (alloc_ok : Z → bool) (fuel : nat).
Context (Halloc : ∀ z, alloc_ok z = true).
Implicit Types (w : W) (s : Roots) (info : RootInfo) (path mp : list Z).

Definition mounted mp w : Prop := mp ∈ m_point <$> mount_table w.
Definition roots_ok s : Prop := mounts_ok (mounts s) ∧ mtd_ok (mtd s).

Lemma scan_for_spec mp s w :
  cstr mp → roots_ok s → (length (mount_table w) ≤ 32)%nat →
  ∃ s', scan_for alloc_ok mp s w =
      Ret (0, (λ '(i, e), (Z.of_nat i, volume_of e)) <$> list_find (λ e, m_point e = mp) (mount_table w), s') ∧
    roots_ok s' ∧ shows (mounts s') (mount_table w).
Proof.
  intros Hmp [Hm Hmtd] Hlen.
  pose proof (scan_mounted_volumes_spec alloc_ok (mounts s) w _ Halloc Hm (mounts_shown w) (mounts_fit w)) as Hs.
  rewrite bool_decide_eq_true_2 in Hs by done. destruct Hs as (g & Hs & Hg & Hshow).
  exists (mk_roots g (mtd s)). unfold scan_for. rewrite Hs. cbn [mbind outcome_bind]. simpl (0 <? 0). cbn iota.
  rewrite (find_by_mount_point_spec g (mount_table w)) by first [done|apply mounts_fit]. done.
Qed.

Lemma find_mounted mp w :
  is_Some (list_find (λ e, m_point e = mp) (mount_table w)) ↔ mounted mp w.
Proof.
  unfold mounted. rewrite list_elem_of_fmap. split.
  - intros [[i e] (Hi & He & _)%list_find_Some]. exists e. split; [done|]. by eapply list_elem_of_lookup_2.
  - intros (e & -> & He). by eapply list_find_elem_of.
Qed.

Lemma internal_root_mounted_spec info mp s w :
  r_mount_point info = Some mp → cstr mp → roots_ok s → (length (mount_table w) ≤ 32)%nat →
  ∃ s' r, internal_root_mounted alloc_ok info s w = Ret (r, s') ∧ roots_ok s' ∧
    ((r = 0 ∧ mounted mp w) ∨ (r = -1 ∧ ¬ mounted mp w)).
Proof.
  intros Hmp Hc Hs Hlen. unfold internal_root_mounted. rewrite Hmp.
  destruct (scan_for_spec mp s w Hc Hs Hlen) as (s' & -> & Hs' & _). cbn [mbind outcome_bind].
  simpl (0 <? 0). cbn iota. exists s'. pose proof (find_mounted mp w) as Hf.
  destruct (list_find _ _) as [[i e]|]; simpl; eexists; (split; [done|]; split; [done|]); [left|right].
  - split; [done|]. apply Hf. by eexists.
  - split; [done|]. rewrite <- Hf. by intros [].
Qed.

Lemma is_root_path_mounted_spec path info mp s w :
  get_root_info_for_path lite cust path = Some info → r_mount_point info = Some mp → roots_ok s →
  (length (mount_table w) ≤ 32)%nat →
  ∃ s' r, is_root_path_mounted lite cust alloc_ok path s w = Ret (r, s') ∧
    ((r = 1 ∧ mounted mp w) ∨ (r = 0 ∧ ¬ mounted mp w)).
Proof.
  intros Hget Hmp Hs Hlen. unfold is_root_path_mounted. rewrite Hget.
  destruct (mount_point_ok _ _ _ _ _ Hget Hmp) as [Hc _].
  destruct (internal_root_mounted_spec info mp s w Hmp Hc Hs Hlen) as (s' & r & -> & _ & Hr).
  cbn [mbind outcome_bind]. eexists s', _. split; [done|].
  destruct Hr as [[-> ?]|[-> ?]]; [by left|by right].
Qed.

(** Scanning /proc/mtd finds the partition if it is listed. *)
Lemma scan_for_partition_spec name s w :
  cstr name → roots_ok s →
  ∃ o s', scan_for_partition alloc_ok name s w = Ret (o, s') ∧ roots_ok s' ∧
    match o with
    | Some p => ∃ e, e ∈ flash_parts ∧ e_name e = name ∧ p = partition_of e
    | None => name ∉ e_name <$> flash_parts
    end.
Proof.
  intros Hname [Hm Hmtd]. destruct parts_fit as (Hok & Hnum & Hnames).
  destruct (mtd_scan_partitions_spec alloc_ok (mtd s) w flash_parts) as (g & Hscan & Hg & Hfind & Hnone);
    [done|done|apply parts_shown|done|done|done|].
  unfold scan_for_partition. rewrite Hscan. cbn [mbind outcome_bind]. eexists _, _. split; [done|].
  split; [done|]. destruct (decide (name ∈ e_name <$> flash_parts)) as [Hin|Hnot]; [|by rewrite Hnone].
  apply list_elem_of_fmap in Hin as (e & -> & He). rewrite Hfind by done. eauto.
Qed.

Lemma mounted_app l1 l2 mp w : mount_table w = l1 ++ l2 → mounted mp w ↔ mp ∈ m_point <$> l1 ∨ mp ∈ m_point <$> l2.
Proof. intros Hw. unfold mounted. by rewrite Hw, fmap_app, elem_of_app. Qed.

(** The table of mounts after a call that may have mounted something at [mp]. *)
Definition grown mp (r : Z) w w' : Prop :=
  mount_table w' = mount_table w ∨ ∃ e, m_point e = mp ∧ mount_table w' = mount_table w ++ [e].
Definition mount_result mp (r : Z) w w' : Prop := grown mp r w w' ∧ (r = 0 → mounted mp w').

Lemma sys_mount_result device mp filesystem flags w :
  let '(r, w') := sys_mount device mp filesystem flags w in
  (r = 0 ∨ r = -1 ∧ mount_table w' = mount_table w) ∧ mount_result mp r w w'.
Proof.
  pose proof (mount_adds device mp filesystem flags w) as Hm. destruct (sys_mount _ _ _ _ _) as [r w'].
  destruct Hm as [(-> & e & He & Hw)|[-> Hw]].
  - split; [by left|]. split; [right; eauto|]. intros _. apply (mounted_app _ [e] mp w') in Hw.
    apply Hw. right. subst. by left.
  - split; [by right|]. split; [by left|done].
Qed.

Lemma mount_result_same mp r w0 w w' :
  mount_table w = mount_table w0 → mount_result mp r w w' → mount_result mp r w0 w'.
Proof. intros Hw [Hg Hr]. split; [|done]. unfold grown in *. by rewrite <- Hw. Qed.

Lemma mtd_mount_partition_result partition mp filesystem w :
  let '(r, w') := mtd_mount_partition partition mp filesystem false w in mount_result mp r w w'.
Proof.
  unfold mtd_mount_partition. cbn [orb].
  set (dev := str "/dev/block/mtdblock" ++ _).
  pose proof (sys_mount_result dev mp filesystem MS_FLAGS w) as Hm1. destruct (sys_mount _ _ _ _ w) as [r w1].
  destruct Hm1 as [Hr Hm1].
  assert (Hsecond : let '(rv, w2) := if r <? 0 then sys_mount dev mp filesystem (Z.lor MS_FLAGS MS_RDONLY) w1 else (r, w1) in
    (rv = 0 ∨ rv = -1) ∧ mount_result mp rv w w2).
  { destruct Hr as [->|[-> Hw1]]; [by split; [left|]|]. simpl (-1 <? 0). cbn iota.
    pose proof (sys_mount_result dev mp filesystem (Z.lor MS_FLAGS MS_RDONLY) w1) as Hm2.
    destruct (sys_mount _ _ _ _ w1) as [rv w2]. destruct Hm2 as [Hrv Hm2].
    split; [tauto|]. by eapply mount_result_same. }
  destruct (if r <? 0 then _ else _) as [rv w2]. destruct Hsecond as [Hrv Hm2].
  destruct Hrv as [-> | ->]; simpl (0 <=? _); cbn iota; [|done].
  destruct (sys_stat mp w2) as [st|]; [|by destruct Hm2; split].
  destruct (negb _); [|done].
  pose proof (chmod_keeps mp (Z.lor (st_mode st) X_BITS) w2) as Hc. destruct (sys_chmod _ _ _) as [r3 w3].
  simpl in Hc. destruct Hm2 as [Hg Hm]. split; [unfold grown in *; by rewrite Hc|].
  intros _. unfold mounted. rewrite Hc. by apply Hm.
Qed.

(** The second half of [ensure_root_path_mounted]. *)
Lemma mount_root_spec info s w :
  info ∈ g_roots lite cust → roots_ok s →
  ∃ r s' w', mount_root alloc_ok info s w = Ret (r, s', w') ∧ roots_ok s' ∧
    match r_mount_point info with
    | Some mp => mount_result mp r w w'
    | None => r = -1 ∧ w' = w
    end.
Proof.
  intros Hin Hs. unfold mount_root.
  assert (Hentry : match r_device info with
    | Some g_mtd_device => (∃ name, r_partition_name info = Some name ∧ cstr name) ∧ ∃ f, r_filesystem info = Some f
    | _ => True end).
  { revert info Hin. apply Forall_forall. destruct lite, cust; unfold g_roots; cbn [app];
      repeat match goal with |- Forall _ (_ :: _) => apply Forall_cons; split end;
      try (apply Forall_nil; exact I); first [exact I | split; eexists; [split; [reflexivity|]|reflexivity]];
      apply (bool_decide_unpack _); vm_compute; exact I. }
  destruct (bool_decide_reflect (r_device info = Some g_mtd_device)) as [Hdev|Hdev].
  - rewrite Hdev in Hentry. destruct Hentry as [(name & -> & Hname) [f ->]].
    destruct (scan_for_partition_spec name s w Hname Hs) as (o & s' & -> & Hs' & _). cbn [mbind outcome_bind].
    destruct o as [partition|]; cycle 1.
    { exists (-1), s', w. split; [done|]. split; [done|]. destruct (r_mount_point info); [|done].
      by split; [left|]. }
    cbn [of_option mbind outcome_bind]. unfold mount_partition. destruct (r_mount_point info) as [mp|]; [|by eauto 10].
    pose proof (mtd_mount_partition_result partition mp (c_text f) w) as Hm.
    destruct (mtd_mount_partition _ _ _ _ _) as [r w']. eauto 10.
  - assert (Hsame : ∃ r s' w', Ret (-1, s, w) = Ret (r, s', w') ∧ roots_ok s' ∧
      match r_mount_point info with Some mp => mount_result mp r w w' | None => r = -1 ∧ w' = w end).
    { exists (-1), s, w. split; [done|]. split; [done|]. destruct (r_mount_point info); [|done].
      by split; [left|]. }
    destruct (r_device info) as [device|]; [|done]. destruct (r_mount_point info) as [mp|]; [|done].
    destruct (r_filesystem info) as [filesystem|]; [|done]. destruct (_ || _); [done|]. clear Hsame.
    pose proof (mkdir_keeps mp 493 w) as Hk. destruct (sys_mkdir mp 493 w) as [r0 w0]. simpl in Hk.
    pose proof (sys_mount_result (c_text device) mp (c_text filesystem) MOUNT_FLAGS w0) as Hm1.
    destruct (sys_mount _ _ _ _ w0) as [r1 w1]. destruct Hm1 as [Hr1 Hm1].
    apply (mount_result_same _ _ w) in Hm1; [|done].
    destruct Hr1 as [->|[-> Hw1]]; simpl (_ =? 0); cbn iota; [by eauto 10|].
    destruct (r_device2 info) as [device2|]; [|by eauto 10].
    pose proof (sys_mount_result device2 mp (c_text filesystem) MOUNT_FLAGS w1) as Hm2.
    destruct (sys_mount _ _ _ _ w1) as [r2 w2]. destruct Hm2 as [Hr2 Hm2].
    apply (mount_result_same _ _ w) in Hm2; [|congruence].
    destruct Hr2 as [->|[-> _]]; simpl (_ =? 0); cbn iota; eauto 10.
Qed.

Lemma grown_keeps mp r w w' q : grown mp r w w' → mounted q w → mounted q w'.
Proof.
  intros [Hw|(e & _ & Hw)] Hq; unfold mounted in *; rewrite Hw; [done|].
  rewrite fmap_app, elem_of_app. by left.
Qed.
Lemma grown_length mp r w w' :
  grown mp r w w' → (length (mount_table w') ≤ S (length (mount_table w)))%nat.
Proof. intros [-> |(e & _ & ->)]; [lia|]. rewrite length_app. simpl. lia. Qed.

Lemma ensure_root_path_mounted_spec path info mp s w :
  get_root_info_for_path lite cust path = Some info → r_mount_point info = Some mp → roots_ok s →
  (length (mount_table w) ≤ 32)%nat →
  ∃ r s' w', ensure_root_path_mounted lite cust alloc_ok path s w = Ret (r, s', w') ∧ roots_ok s' ∧
    mount_result mp r w w' ∧ (mounted mp w → r = 0 ∧ w' = w).
Proof.
  intros Hget Hmp Hs Hlen. unfold ensure_root_path_mounted. rewrite Hget.
  destruct (mount_point_ok _ _ _ _ _ Hget Hmp) as [Hc _].
  destruct (internal_root_mounted_spec info mp s w Hmp Hc Hs Hlen) as (s1 & r & -> & Hs1 & Hr).
  cbn [mbind outcome_bind]. destruct Hr as [[-> Hin] | [-> Hnot]]; simpl (0 <=? _); cbn iota.
  - exists 0, s1, w. do 2 (split; [done|]). split; [|done]. by split; [left|].
  - destruct (mount_root_spec info s1 w) as (r' & s' & w' & Hrun & Hs' & Hres);
      [by eapply root_in_table|done|].
    rewrite Hmp in Hres. exists r', s', w'. do 3 (split; [done|]). done.
Qed.

(** Mounting a root. The call ends and mounts nothing at other places. If the volume is
    mounted already it answers 0 and does nothing; if it answers 0, then the volume is mounted
    afterwards, and [is_root_path_mounted] says so. What was mounted before still is. *)
Theorem ensure_root_path_mounted_correct path info mp s w :
  get_root_info_for_path lite cust path = Some info → r_mount_point info = Some mp → roots_ok s →
  (length (mount_table w) < 32)%nat →
  ∃ r s' w', ensure_root_path_mounted lite cust alloc_ok path s w = Ret (r, s', w') ∧
    (mounted mp w → r = 0 ∧ w' = w) ∧ (∀ q, mounted q w → mounted q w') ∧
    (∀ q, mounted q w' → mounted q w ∨ q = mp) ∧
    (r = 0 → ∃ s'', is_root_path_mounted lite cust alloc_ok path s' w' = Ret (1, s'')).
Proof.
  intros Hget Hmp Hs Hlen.
  destruct (ensure_root_path_mounted_spec path info mp s w Hget Hmp Hs ltac:(lia))
    as (r & s' & w' & Hrun & Hs' & [Hg Hr] & Hsame).
  exists r, s', w'. split; [done|]. split; [done|]. split; [by eauto using grown_keeps|]. split.
  - intros q Hq. destruct Hg as [Hw|(e & <- & Hw)]; [left; unfold mounted in *; by rewrite Hw in Hq|].
    apply (mounted_app _ _ q w' Hw) in Hq as [Hq|Hq]; [by left|]. right. by apply list_elem_of_singleton in Hq.
  - intros Hr0. pose proof (grown_length _ _ _ _ Hg).
    destruct (is_root_path_mounted_spec path info mp s' w' Hget Hmp Hs' ltac:(lia)) as (s'' & r' & Hi & Hr').
    exists s''. rewrite Hi. destruct Hr' as [[-> _] | [_ Hnot]]; [done|]. destruct Hnot. auto.
Qed.

Lemma ensure_root_path_unmounted_spec path info mp s w :
  get_root_info_for_path lite cust path = Some info → r_mount_point info = Some mp → roots_ok s →
  (length (mount_table w) ≤ 32)%nat →
  ∃ r s' w', ensure_root_path_unmounted lite cust alloc_ok path s w = Ret (r, s', w') ∧ roots_ok s' ∧
    (mounted mp w → sys_umount (Some mp) w = (r, w')) ∧ (¬ mounted mp w → r = 0 ∧ w' = w).
Proof.
  intros Hget Hmp Hs Hlen. unfold ensure_root_path_unmounted. rewrite Hget, Hmp.
  destruct (mount_point_ok _ _ _ _ _ Hget Hmp) as [Hc _].
  destruct (scan_for_spec mp s w Hc Hs Hlen) as (s1 & -> & Hs1 & Hshow). cbn [mbind outcome_bind].
  simpl (0 <? 0). cbn iota. pose proof (find_mounted mp w) as Hf.
  destruct (list_find _ _) as [[i e]|] eqn:Hfind; simpl; cycle 1.
  { exists 0, s1, w. do 2 (split; [done|]). split; [|done]. intros Hm. by apply Hf in Hm as []. }
  apply list_find_Some in Hfind as (Hi & He & _). destruct Hs1 as [Hm1 Hmtd].
  pose proof (unmount_mounted_volume_spec (mounts s1) (mount_table w) i e w Hm1 Hshow Hi) as Hu.
  assert (Hyes : mounted mp w) by (apply Hf; by eexists).
  rewrite He in Hu. destruct (sys_umount (Some mp) w) as [r w'].
  rewrite Hu. destruct (Z.eqb_spec r 0) as [->|]; cbn [mbind outcome_bind].
  - eexists 0, _, w'. split; [done|]. split; [|done]. split; [|done]. simpl.
    unfold mounts_ok in *. simpl. destruct (volumes (mounts s1)); simpl; [by rewrite length_insert|done].
  - eexists r, _, w'. split; [done|]. by split.
Qed.

(** Unmounting a root. The call ends; it does nothing if the volume is not mounted.
    Otherwise it answers 0 and exactly one mount at the mount point is gone, or it fails and
    the mounts are as before. When the volume was mounted once, [is_root_path_mounted] denies
    it after the answer 0. *)
Theorem ensure_root_path_unmounted_correct path info mp s w :
  get_root_info_for_path lite cust path = Some info → r_mount_point info = Some mp → roots_ok s →
  (length (mount_table w) ≤ 32)%nat →
  ∃ r s' w', ensure_root_path_unmounted lite cust alloc_ok path s w = Ret (r, s', w') ∧
    (¬ mounted mp w → r = 0 ∧ w' = w) ∧
    (r ≠ 0 → mount_table w' = mount_table w) ∧
    (mounted mp w → r = 0 → ∃ l1 e l2, mount_table w = l1 ++ e :: l2 ∧ m_point e = mp ∧ mount_table w' = l1 ++ l2) ∧
    (r = 0 → NoDup (m_point <$> mount_table w) →
      ∃ s'', is_root_path_mounted lite cust alloc_ok path s' w' = Ret (0, s'')).
Proof.
  intros Hget Hmp Hs Hlen.
  destruct (ensure_root_path_unmounted_spec path info mp s w Hget Hmp Hs Hlen)
    as (r & s' & w' & Hrun & Hs' & Hyes & Hno).
  assert (Hdec : mounted mp w ∨ ¬ mounted mp w).
  { unfold mounted. destruct (decide (mp ∈ m_point <$> mount_table w)); tauto. }
  exists r, s', w'. split; [done|]. split; [done|].
  pose proof (umount_removes mp w) as Hu.
  assert (Hnot : ¬ mounted mp w → r = 0 → NoDup (m_point <$> mount_table w) →
    ∃ s'', is_root_path_mounted lite cust alloc_ok path s' w' = Ret (0, s'')).
  { intros Hm _ _. destruct (Hno Hm) as [-> ->].
    destruct (is_root_path_mounted_spec path info mp s' w Hget Hmp Hs' Hlen) as (s'' & r' & Hi & Hr').
    exists s''. rewrite Hi. by destruct Hr' as [[_ ?] | [-> _]]. }
  destruct Hdec as [Hm|Hm]; cycle 1.
  { destruct (Hno Hm) as [-> ->]. split; [done|]. split; [done|]. eauto. }
  rewrite (Hyes Hm) in Hu. destruct Hu as [(-> & l1 & e & l2 & Hw & He & Hw' & Hl2)|[-> Hw]]; [|done].
  split; [done|]. split; [intros _ _; by exists l1, e, l2|]. intros _ Hnd.
  destruct (is_root_path_mounted_spec path info mp s' w' Hget Hmp Hs') as (s'' & r' & Hi & Hr').
  { rewrite Hw, length_app in Hlen. rewrite Hw', length_app. simpl in Hlen. lia. }
  exists s''. rewrite Hi. destruct Hr' as [[_ Hin] | [-> _]]; [|done]. exfalso.
  rewrite Hw, fmap_app in Hnd. cbn [fmap list_fmap] in Hnd.
  apply NoDup_app in Hnd as (_ & Hdis & [Hnot2 _]%NoDup_cons).
  apply (mounted_app _ _ mp w' Hw') in Hin as [Hin|Hin]; [|done].
  apply (Hdis _ Hin). rewrite He. by left.
Qed.

(** What the calls that mount do to the rest of the system. *)
Section preserved.
Context (R : W → W → Prop) (Hrefl : ∀ w, R w w) (Htrans : ∀ w1 w2 w3, R w1 w2 → R w2 w3 → R w1 w3).
Context (Hmount : ∀ d mp f fl w, R w (sys_mount d mp f fl w).2) (Hchmod : ∀ p m w, R w (sys_chmod p m w).2)
  (Hmkdir : ∀ p m w, R w (sys_mkdir p m w).2).

Lemma mtd_mount_partition_preserves partition mp filesystem w :
  R w (mtd_mount_partition partition mp filesystem false w).2.
Proof.
  unfold mtd_mount_partition. cbn [orb]. set (dev := str "/dev/block/mtdblock" ++ _).
  pose proof (Hmount dev mp filesystem MS_FLAGS w) as Hr1. destruct (sys_mount _ _ _ _ w) as [r w1]. simpl in Hr1.
  assert (Hsecond : R w (if r <? 0 then sys_mount dev mp filesystem (Z.lor MS_FLAGS MS_RDONLY) w1 else (r, w1)).2).
  { destruct (r <? 0); [by eapply Htrans|done]. }
  destruct (if r <? 0 then _ else _) as [rv w2]. simpl in Hsecond. destruct (0 <=? rv); [|done].
  destruct (sys_stat mp w2) as [st|]; [|done]. destruct (negb _); [by eapply Htrans|done].
Qed.

Lemma ensure_root_path_mounted_preserves path s w :
  post (ensure_root_path_mounted lite cust alloc_ok path s w) (λ '(_, _, w'), R w w').
Proof.
  unfold ensure_root_path_mounted. destruct (get_root_info_for_path _ _ _) as [info|]; [|by apply post_ret].
  apply post_any. intros [ret s1]. destruct (0 <=? ret); [by apply post_ret|]. unfold mount_root.
  destruct (bool_decide _).
  - destruct (r_partition_name info); [|by apply post_ret]. apply post_any. intros [partition s2].
    destruct partition as [partition|]; [|by apply post_ret]. apply post_any. intros filesystem.
    unfold mount_partition. destruct (r_mount_point info) as [mp|]; [|by apply post_ret].
    pose proof (mtd_mount_partition_preserves partition mp (c_text filesystem) w) as Hp.
    destruct (mtd_mount_partition _ _ _ _ _). by apply post_ret.
  - destruct (r_device info) as [device|], (r_mount_point info) as [mp|], (r_filesystem info) as [filesystem|];
      try (by apply post_ret). destruct (_ || _); [by apply post_ret|].
    pose proof (Hmkdir mp 493 w) as Hr0. destruct (sys_mkdir mp 493 w) as [r0 w0]. simpl in Hr0.
    pose proof (Hmount (c_text device) mp (c_text filesystem) MOUNT_FLAGS w0) as Hr1.
    destruct (sys_mount _ _ _ _ w0) as [r1 w1]. simpl in Hr1.
    destruct (r1 =? 0); [apply post_ret; by eapply Htrans|].
    destruct (r_device2 info) as [device2|]; [|apply post_ret; by eapply Htrans].
    pose proof (Hmount device2 mp (c_text filesystem) MOUNT_FLAGS w1) as Hr2.
    destruct (sys_mount _ _ _ _ w1) as [r2 w2]. simpl in Hr2. apply post_ret. eauto.
Qed.
End preserved.

(** *** Formatting *)

(** Without pending data the writer does not write before it erases. *)
Lemma erase_idle ctx blocks w :
  stored ctx = 0 → erase_size (w_partition ctx) ≠ 0 →
  ∃ r w', mtd_erase_blocks fuel ctx blocks w = Ret (r, ctx, w').
Proof.
  intros Hst Hes. unfold mtd_erase_blocks, flush_padded. rewrite Hst. cbn [Z.ltb Z.compare mbind outcome_bind mret outcome_ret].
  destruct (dev_seek (w_fd ctx) None w) as [pos w1]. destruct (pos =? -1); [by eexists _, _|].
  rewrite (proj2 (Z.eqb_neq _ 0)) by done. destruct (_ <? _); [by eexists _, _|]. destruct (erase_loop _ _ _ _). by eexists _, _.
Qed.
Lemma erase_partition_returns part w : erase_size part ≠ 0 → ∃ r w', erase_partition alloc_ok fuel part w = Ret (r, w') ∧ (r = 0 ∨ r = -1).
Proof.
  intros Hes. unfold erase_partition. destruct (mtd_write_partition alloc_ok part w) as [[ctx|] w1] eqn:Hopen; [|by eauto].
  assert (Hctx : stored ctx = 0 ∧ w_partition ctx = part).
  { revert Hopen. unfold mtd_write_partition. destruct (negb _); [done|]. destruct (negb _); [done|].
    destruct (dev_open _ _ w) as [fd w2]. destruct (fd <? 0); [done|]. by intros [= <- _]. }
  destruct Hctx as [Hst Hp]. assert (Hctx_es : erase_size (w_partition ctx) ≠ 0) by by rewrite Hp.
  assert (Hclose : ∀ w, ∃ r w', mtd_write_close fuel ctx w = Ret (r, w')).
  { intros w2. unfold mtd_write_close. destruct (erase_idle ctx 0 w2 Hst Hctx_es) as (r & w3 & ->). cbn [mbind outcome_bind].
    destruct (dev_close _ w3). by eexists _, _. }
  destruct (erase_idle ctx (-1) w1 Hst Hctx_es) as (pos & w2 & ->). cbn [mbind outcome_bind].
  destruct (Hclose w2) as (r & w3 & ->). cbn [mbind outcome_bind]. destruct (pos =? -1); [by eauto|].
  destruct (negb _); by eauto.
Qed.
Lemma erase_partition_goes part R on w : confined part R on → post (erase_partition alloc_ok fuel part w) (λ '(_, w'), R w w').
Proof.
  intros Hconf. pose proof (conf_order _ _ _ Hconf). unfold erase_partition.
  pose proof (mtd_write_partition_goes alloc_ok part R on Hconf w) as Hopen. destruct (mtd_write_partition alloc_ok part w) as [[ctx|] w1]; [|by apply post_ret, Hopen].
  destruct Hopen as [HR1 Ho]. specialize (Ho ctx eq_refl).
  eapply post_bind; [by apply (mtd_erase_blocks_goes fuel part R on Hconf)|]. intros [[pos ctx2] w2] [Hf [HR2 Ho2]].
  destruct (pos =? -1); (eapply post_bind; [apply (mtd_write_close_goes fuel part R on Hconf); by rewrite Hf|]);
    intros [r w3] HR3; apply post_ret; (etrans; [done|]; by etrans).
Qed.

(** The volume of a root is unmounted, if it is mounted. *)
Definition unmounts info w (r : Z) w1 : Prop :=
  match r_mount_point info with
  | Some mp => if decide (mp ∈ m_point <$> mount_table w) then sys_umount (Some mp) w = (r, w1) else r = 0 ∧ w1 = w
  | None => r = 0 ∧ w1 = w
  end.
(** What formatting a root means: its answer and the state after it. *)
Inductive formats info w : Z → W → Prop :=
  | format_busy r w1 : unmounts info w r w1 → r < 0 → formats info w r w1
  | format_unknown w1 : unmounts info w 0 w1 →
      r_device info ≠ Some g_mtd_device ∨ (∀ e, e ∈ flash_parts → r_partition_name info ≠ Some (e_name e)) →
      formats info w (-1) w1
  | format_erased e w1 r w' : unmounts info w 0 w1 →
      (NoDup (m_point <$> mount_table w) → ∀ mp, r_mount_point info = Some mp → ¬ mounted mp w1) →
      r_device info = Some g_mtd_device → e ∈ flash_parts → r_partition_name info = Some (e_name e) →
      erase_partition alloc_ok fuel (partition_of e) w1 = Ret (r, w') → formats info w r w'.

Lemma unmounts_spec info mp_root s w :
  get_root_info_for_path lite cust mp_root = Some info → roots_ok s → (length (mount_table w) ≤ 32)%nat →
  ∃ r s1 w1, (match r_mount_point info with
              | Some _ => ensure_root_path_unmounted lite cust alloc_ok mp_root s w
              | None => mret (0, s, w)
              end) = Ret (r, s1, w1) ∧ roots_ok s1 ∧ unmounts info w r w1 ∧
    (r = 0 ∨ r = -1) ∧ (r = 0 → NoDup (m_point <$> mount_table w) → ∀ mp, r_mount_point info = Some mp → ¬ mounted mp w1).
Proof.
  intros Hget Hs Hlen. unfold unmounts. destruct (r_mount_point info) as [mp|] eqn:Hmp; cycle 1.
  { exists 0, s, w. do 3 (split; [done|]). split; [by left|done]. }
  destruct (ensure_root_path_unmounted_spec mp_root info mp s w Hget Hmp Hs Hlen) as (r & s' & w' & -> & Hs' & Hyes & Hno).
  exists r, s', w'. do 2 (split; [done|]). case_decide as Hm; cycle 1.
  { destruct (Hno Hm) as [-> ->]. split; [done|]. split; [by left|]. by intros _ _ q [= <-]. }
  split; [by apply Hyes|]. pose proof (umount_removes mp w) as Hu. rewrite (Hyes Hm) in Hu.
  destruct Hu as [(-> & l1 & e & l2 & Hw & He & Hw' & Hl2)|[-> _]]; [|by split; [right|]].
  split; [by left|]. intros _ Hnd q [= <-] Hq. apply (mounted_app _ _ _ _ Hw') in Hq as [Hq|Hq]; [|done].
  rewrite Hw, fmap_app in Hnd. apply NoDup_app in Hnd as (_ & Hdis & _). apply (Hdis _ Hq). rewrite <- He. by left.
Qed.

(** Every root with a device has a file system that is formatted or is no flash root. *)
Lemma flash_roots info :
  info ∈ g_roots lite cust → r_device info = Some g_mtd_device →
  ∃ name f, r_partition_name info = Some name ∧ r_filesystem info = Some f ∧
    (bool_decide (f = g_raw) || (strcmp (c_text f) (str "yaffs2") =? 0)) = true.
Proof.
  intros Hin Hdev.
  assert (Hall : forallb (λ info, negb (bool_decide (r_device info = Some g_mtd_device)) ||
    match r_partition_name info, r_filesystem info with
    | Some _, Some f => bool_decide (f = g_raw) || (strcmp (c_text f) (str "yaffs2") =? 0)
    | _, _ => false
    end) (g_roots lite cust) = true) by (destruct lite, cust; vm_compute; reflexivity).
  rewrite List.forallb_forall in Hall. specialize (Hall info (proj1 (list_elem_of_In _ _) Hin)).
  rewrite Hdev, bool_decide_eq_true_2 in Hall by done. simpl in Hall.
  destruct (r_partition_name info) as [name|], (r_filesystem info) as [f|]; try done. by exists name, f.
Qed.
Lemma format_device_spec info s w w0 :
  info ∈ g_roots lite cust → is_Some (r_device info) → roots_ok s → Forall (λ e, e_erase e ≠ 0) flash_parts →
  unmounts info w0 0 w → (NoDup (m_point <$> mount_table w0) → ∀ mp, r_mount_point info = Some mp → ¬ mounted mp w) →
  wp (format_device alloc_ok fuel info s w) (λ '(r, _, w'), formats info w0 r w').
Proof.
  intros Hin [device Hdev] Hs Herase Hun Hnot. unfold format_device. case_bool_decide as Hflash; [|by apply wp_ret, format_unknown; [|left]].
  destruct (flash_roots info Hin Hflash) as (name & f & Hpart & -> & Hfs). rewrite Hpart. cbn [of_option mbind outcome_bind].
  pose proof (proj1 (Forall_forall _ _) (g_roots_names_ok lite cust) _ Hin name Hpart) as Hc.
  destruct (scan_for_partition_spec name s w Hc Hs) as (o & s2 & -> & _ & Ho). cbn [mbind outcome_bind].
  destruct o as [p|]; cycle 1.
  { apply wp_ret, format_unknown; [done|]. right. intros e He. rewrite Hpart. intros [= ->]. by apply Ho, list_elem_of_fmap_2. }
  destruct Ho as (e & He & Hen & ->). cbn [of_option mbind outcome_bind]. rewrite Hfs.
  destruct (erase_partition_returns (partition_of e) w) as (r & w' & Hrun & Hr); [by apply (proj1 (Forall_forall _ _) Herase)|].
  rewrite Hrun. cbn [mbind outcome_bind]. apply wp_ret. subst name. by eapply format_erased.
Qed.

Lemma format_root_device_spec root s w :
  cstr root → roots_ok s → (length (mount_table w) ≤ 32)%nat →
  Forall (λ e, e_erase e ≠ 0) flash_parts →
  wp (format_root_device lite cust alloc_ok fuel root s w) (λ '(r, _, w'),
    (r = -1 ∧ w' = w ∧ ∀ info, info ∈ g_roots lite cust → root = r_name info → r_device info = None) ∨
    ∃ info, info ∈ g_roots lite cust ∧ root = r_name info ∧ formats info w r w').
Proof.
  intros Hroot Hs Hlen Herase. unfold format_root_device.
  assert (Hname : ∀ info, info ∈ g_roots lite cust → root = r_name info →
    ∃ i, strchr root 58 = Some i ∧ char_at root (S i) = 0 ∧ get_root_info_for_path lite cust root = Some info).
  { intros info Hin ->. pose proof (proj1 (Forall_forall _ _) (g_roots_ok lite cust) _ Hin) as (Hn & _).
    pose proof (get_root_of_entry lite cust info [] Hin ltac:(constructor)) as Hget. rewrite app_nil_r in Hget.
    destruct Hn as (a & Hn & Ha). pose proof (strchr_spec (r_name info) 58 ltac:(done)) as Hc. rewrite Hn in Hc |- *.
    destruct (strchr (a ++ [58]) 58) as [i|]; [|by destruct Hc; apply elem_of_app; right; left].
    destruct Hc as (a' & b & Heq & <- & Ha'). pose proof (colon_split a [] a' b Ha Ha' Heq) as <-.
    apply app_inv_head in Heq as [= <-]. exists (length a). split; [done|]. rewrite Hn in Hget. split; [|done].
    unfold char_at. by rewrite lookup_ge_None_2 by (rewrite length_app; simpl; lia). }
  assert (Hrefused : (∀ i, strchr root 58 = Some i → char_at root (S i) = 0 → get_root_info_for_path lite cust root = None) →
    ∀ info, info ∈ g_roots lite cust → root = r_name info → r_device info = None).
  { intros Hno info Hin Heq. destruct (Hname info Hin Heq) as (i & Hi & Hend & Hget). by rewrite (Hno i Hi Hend) in Hget. }
  destruct (strchr root 58) as [i|] eqn:Hchr; [|apply wp_ret; left; do 2 (split; [done|]); by apply Hrefused].
  destruct (Z.eqb_spec (char_at root (S i)) 0) as [Hend|]; cbn [negb]; cycle 1.
  { apply wp_ret. left. do 2 (split; [done|]). apply Hrefused. by intros ? [= <-]. }
  destruct (get_root_info_for_path lite cust root) as [info|] eqn:Hget; [|apply wp_ret; left; do 2 (split; [done|]); by apply Hrefused].
  pose proof (root_in_table _ _ _ _ Hget) as Hin. pose proof (bare_root_name lite cust root i info Hroot Hchr Hend Hget) as Heq.
  destruct (r_device info) as [device|] eqn:Hdev; cycle 1.
  { apply wp_ret. left. do 2 (split; [done|]). intros info' Hin' Heq'. destruct (Hname info' Hin' Heq') as (? & _ & _ & [= <-]). done. }
  destruct (unmounts_spec info root s w Hget Hs Hlen) as (r & s1 & w1 & -> & Hs1 & Hun & Hr & Hnot). cbn [mbind outcome_bind].
  destruct (Z.ltb_spec r 0); [apply wp_ret; right; exists info; do 2 (split; [done|]); by apply format_busy|].
  assert (r = 0) as -> by lia.
  eapply wp_mono; [apply (format_device_spec info s1 w1 w); by eauto|]. intros [[r' s2] w2] Hf. right. by exists info.
Qed.

(** C24: Formatting a root. [format_root_device] returns; unless its argument is exactly the name of a root
    with a device it answers -1 and does nothing. For such a root, the volume is unmounted if it is mounted;
    if that fails the answer is negative and nothing else happens. If the root is not in flash memory
    or its partition is not listed, the answer is -1 and nothing else happens. Otherwise the partition with the
    name of the root is erased, from the state after unmounting, in which the volume is not mounted (if no two volumes were at one place), and its result is the answer.
    Nothing but the unmounting and the calls on the file of that partition changes the system: every relation
    between states that those keep holds between the start and the end. *)
Theorem format_root_device_safe root s w :
  cstr root → roots_ok s → (length (mount_table w) ≤ 32)%nat →
  Forall (λ e, e_erase e ≠ 0) flash_parts →
  wp (format_root_device lite cust alloc_ok fuel root s w) (λ '(r, _, w'),
    (r = -1 ∧ w' = w ∧ ∀ info, info ∈ g_roots lite cust → root = r_name info → r_device info = None) ∨
    ∃ info, info ∈ g_roots lite cust ∧ root = r_name info ∧ formats info w r w' ∧
      ∀ (R : W → W → Prop) on, PreOrder R →
        (∀ mp w, r_mount_point info = Some mp → R w (sys_umount (Some mp) w).2) →
        (∀ e, e ∈ flash_parts → r_partition_name info = Some (e_name e) → confined (partition_of e) R on) → R w w').
Proof.
  intros Hroot Hs Hlen Herase. eapply wp_mono; [by apply format_root_device_spec|].
  intros [[r s'] w'] [Hno|(info & Hin & Heq & Hf)]; [by left|right]. exists info. do 3 (split; [done|]).
  intros R on Hpre Humount Hconf.
  assert (Hun : ∀ r w1, unmounts info w r w1 → R w w1).
  { unfold unmounts. intros r1 w1. destruct (r_mount_point info) as [mp|]; [|by intros [_ ->]].
    case_decide; [|by intros [_ ->]]. intros Hrun. specialize (Humount mp w eq_refl). by rewrite Hrun in Humount. }
  destruct Hf as [r w1 HR1 _|w1 HR1 _|e w1 r w' HR1 _ _ He Hn Hrun]; [by eapply Hun..|].
  etrans; [by eapply Hun|]. by apply (erase_partition_goes _ R on w1 (Hconf e He Hn) (r, w')).
Qed.

(** The card that the last line mounts or unmounts is not in the table, so the common roots are
    never all mounted or unmounted. *)
Lemma for_roots_cdrom (f : list Z → Roots → W → outcome (Z * Roots * W)) roots result s w :
  (∀ s w, f (str "CDROM:") s w = Ret (-1, s, w)) →
  post (for_roots f (roots ++ [str "CDROM:"]) result s w) (λ '(r, _, _), r = -1).
Proof.
  intros Hf. revert result s w. induction roots as [|x roots IH]; intros result s w; cbn [app for_roots].
  - rewrite Hf. apply post_ret. apply Z.lor_m1_r.
  - apply post_any. intros [[r s1] w1]. apply IH.
Qed.
Lemma ensure_common_roots_fail s w :
  post (ensure_common_roots_mounted lite cust alloc_ok s w) (λ '(r, _, _), r = -1) ∧
  post (ensure_common_roots_unmounted lite cust alloc_ok s w) (λ '(r, _, _), r = -1).
Proof.
  assert (Hget : get_root_info_for_path lite cust (str "CDROM:") = None).
  { destruct lite, cust; vm_compute; reflexivity. }
  split; unfold ensure_common_roots_mounted, ensure_common_roots_unmounted, common_roots;
    apply post_any; intros [[r s1] w1]; rewrite !app_assoc; apply for_roots_cdrom; intros s2 w2;
    unfold ensure_root_path_mounted, ensure_root_path_unmounted; by rewrite Hget.
Qed.
End mounting.

(** ** A kernel that mounts what fits the tables *)
Module RootDemo.

#[local] Instance field_ok_dec n s : Decision (field_ok n s).
Proof. unfold field_ok. apply _. Defined.
#[local] Instance mount_ok_dec e : Decision (mount_ok e).
Proof. unfold mount_ok. apply _. Defined.

(** The list of mounts. *)
Abbreviation sys := (list MountEntry).
Definition table (w : list MountEntry) : list MountEntry := filter mount_ok w.
Fixpoint remove_last (mp : list Z) (l : list MountEntry) : option (list MountEntry) :=
  match l with
  | [] => None
  | e :: l =>
      match remove_last mp l with
      | Some l' => Some (e :: l')
      | None => if decide (m_point e = mp) then Some l else None
      end
  end.
Definition parts : list MtdEntry := [mk_entry 0 8 2 (str "misc"); mk_entry 1 8 2 (str "system")].

#[local] Instance mount_os : MountOS sys := {|
  proc_mounts w := Some (mounts_text (table w));
  sys_umount p w :=
    match p with
    | Some mp => match remove_last mp (table w) with Some l => (0, l) | None => (-1, w) end
    | None => (-1, w)
    end
|}.
#[local] Instance driver : MtdDriver sys := {|
  proc_mtd _ := Some (listing parts);
  dev_open _ _ w := (3, w);
  dev_seek _ q w := (default 0 q, w);
  dev_read _ n w := (-1, [], w);
  dev_write _ data w := (-1, w);
  dev_close _ w := (0, w);
  ECCGETSTATS _ _ := None;
  MEMGETBADBLOCK _ _ _ := 0;
  MEMERASE _ _ _ w := (0, w);
  MEMGETINFO _ _ := None
|}.
#[local] Instance os : PatchOS sys := {|
  sys_stat _ _ := Some (mk_stat 16877 0 0 0);
  sys_fread _ _ _ := None;
  sys_open_trunc _ w := (-1, w);
  sys_write _ _ w := (-1, w);
  sys_fsync _ w := w;
  sys_close _ w := w;
  sys_chmod _ _ w := (0, w);
  sys_chown _ _ _ w := (0, w);
  sys_rename _ _ w := (-1, w);
  sys_unlink _ w := (-1, w);
  sys_statfs _ _ := None;
  sys_listdir _ _ := None;
  sys_readlink _ _ := None;
  sys_mount device mp filesystem _ w :=
    let e := mk_mount device mp filesystem (str "rw") in
    if decide (mount_ok e) then (0, w ++ [e]) else (-1, w)
|}.
#[local] Instance root_os : RootOS sys := {| sys_mkdir _ _ w := (0, w) |}.

Lemma remove_last_spec mp l :
  match remove_last mp l with
  | Some l' => ∃ l1 e l2, l = l1 ++ e :: l2 ∧ m_point e = mp ∧ l' = l1 ++ l2 ∧ mp ∉ m_point <$> l2
  | None => mp ∉ m_point <$> l
  end.
Proof.
  induction l as [|e l IH]; cbn [remove_last]; [by intros ?%not_elem_of_nil|].
  destruct (remove_last mp l) as [l'|].
  - destruct IH as (l1 & e' & l2 & -> & ? & -> & ?). by exists (e :: l1), e', l2.
  - case_decide; [by exists [], e, l|]. cbn [fmap list_fmap]. by intros [|]%elem_of_cons.
Qed.
Lemma filter_ok (l : list MountEntry) : Forall mount_ok l → filter mount_ok l = l.
Proof. intros Hl. apply filter_all_in. by apply Forall_forall. Qed.

Lemma table_app (w : list MountEntry) e : mount_ok e → table (w ++ [e]) = table w ++ [e].
Proof. intros He. unfold table. rewrite filter_app, (filter_cons_True _ e []) by done. by rewrite filter_nil. Qed.

#[local] Instance laws : RootLaws.
Proof.
  refine {| mount_table := table; flash_parts := parts |}; cbn -[table]; try done.
  - intros w. apply Forall_forall. by intros e [? _]%list_elem_of_filter.
  - split; [|split]; [|apply (bool_decide_unpack _); vm_compute; exact I..].
    repeat constructor; vm_compute; lia || done.
  - intros device mp filesystem flags w. case_decide as Hok; [left|by right]. split; [done|].
    eexists. split; [|by apply table_app]. done.
  - intros mp w. pose proof (remove_last_spec mp (table w)) as Hr.
    destruct (remove_last mp (table w)) as [l|]; [left|by right]. split; [done|].
    destruct Hr as (l1 & e & l2 & Hw & He & -> & Hl2). exists l1, e, l2. do 2 (split; [done|]). split; [|done].
    apply filter_ok. assert (Ht : Forall mount_ok (table w)).
    { apply Forall_forall. by intros ? [? _]%list_elem_of_filter. }
    rewrite Hw in Ht. rewrite !Forall_app, Forall_cons in *. tauto.
Defined.

Definition root_mount : MountEntry := mk_mount (str "rootfs") (str "/") (str "rootfs") (str "rw").
Definition start : sys := [root_mount].
Definition state0 : Roots := mk_roots g_mounts_state g_mtd_state.
End RootDemo.
#[local] Existing Instances RootDemo.mount_os RootDemo.driver RootDemo.os RootDemo.root_os RootDemo.laws
  RootDemo.mount_ok_dec.

(** Mounting a card, seeing it, unmounting it. *)
Example card_mounted :
  (λ '(r, _, w), (r, map m_point w)) <$>
    ensure_root_path_mounted false false (λ _, true) (str "SDCARD:x") RootDemo.state0 RootDemo.start =
    Ret (0, [str "/"; str "/sdcard"]).
Proof. vm_compute. reflexivity. Qed.

(** Formatting: the argument must be a root. *)
Example format_paths_refused :
  format_root_device false false (λ _, true) 50 (str "SYSTEM:x") RootDemo.state0 RootDemo.start =
    Ret (-1, RootDemo.state0, RootDemo.start).
Proof. reflexivity. Qed.

(** A path that does not fit the 32 places: the scan of the mounts leaves the table. *)
Example too_many_mounts :
  is_root_path_mounted false false (λ _, true) (str "SYSTEM:") RootDemo.state0 (replicate 33 RootDemo.root_mount) =
    Fault OutOfBounds.
Proof. vm_compute. reflexivity. Qed.

Definition sdcard : RootInfo :=
  mk_root (str "SDCARD:") (Some (Lit (str "/dev/block/mmcblk0p1"))) (Some (str "/dev/block/mmcblk0"))
    None (Some (str "/sdcard")) (Some (Lit (str "vfat"))).

Lemma translate_root_path_correct_witness :
  translate_root_path false false (str "SDCARD:" ++ [47; 47] ++ str "update.zip") (replicate 20 255) 20 =
    Ret (Some (str "/sdcard/update.zip" ++ [0; 255])).
Proof.
  refine (eq_trans (proj1 (translate_root_path_correct false false sdcard (str "/sdcard") 2 (str "update.zip")
    (replicate 20 255) _ _ _ _)) _); [|reflexivity| | |vm_compute; reflexivity];
    apply (bool_decide_unpack _); vm_compute; exact I.
Defined.

Lemma ensure_root_path_mounted_correct_witness :
  ∃ r s' w', ensure_root_path_mounted false false (λ _, true) (str "SDCARD:") RootDemo.state0 RootDemo.start =
      Ret (r, s', w') ∧
    (mounted (str "/sdcard") RootDemo.start → r = 0 ∧ w' = RootDemo.start) ∧
    (∀ q, mounted q RootDemo.start → mounted q w') ∧
    (∀ q, mounted q w' → mounted q RootDemo.start ∨ q = str "/sdcard") ∧
    (r = 0 → ∃ s'', is_root_path_mounted false false (λ _, true) (str "SDCARD:") s' w' = Ret (1, s'')).
Proof.
  apply (ensure_root_path_mounted_correct false false (λ _, true) (λ _, eq_refl) (str "SDCARD:") sdcard
    (str "/sdcard") RootDemo.state0 RootDemo.start); [reflexivity..|by split|vm_compute; lia].
Defined.

Lemma ensure_root_path_unmounted_correct_witness :
  let w := [RootDemo.root_mount; mk_mount (str "/dev/block/mmcblk0") (str "/sdcard") (str "vfat") (str "rw")] in
  ∃ r s' w', ensure_root_path_unmounted false false (λ _, true) (str "SDCARD:") RootDemo.state0 w = Ret (r, s', w') ∧
    (¬ mounted (str "/sdcard") w → r = 0 ∧ w' = w) ∧
    (r ≠ 0 → mount_table w' = mount_table w) ∧
    (mounted (str "/sdcard") w → r = 0 → ∃ l1 e l2, mount_table w = l1 ++ e :: l2 ∧ m_point e = str "/sdcard" ∧
      mount_table w' = l1 ++ l2) ∧
    (r = 0 → NoDup (m_point <$> mount_table w) →
      ∃ s'', is_root_path_mounted false false (λ _, true) (str "SDCARD:") s' w' = Ret (0, s'')).
Proof.
  intros w. apply (ensure_root_path_unmounted_correct false false (λ _, true) (λ _, eq_refl) (str "SDCARD:") sdcard
    (str "/sdcard") RootDemo.state0 w); [reflexivity..|by split|vm_compute; lia].
Defined.

Lemma format_root_device_safe_witness :
  wp (format_root_device false false (λ _, true) 50 (str "SYSTEM:") RootDemo.state0 RootDemo.start) (λ '(r, _, w'),
    (r = -1 ∧ w' = RootDemo.start ∧ ∀ info, info ∈ g_roots false false → str "SYSTEM:" = r_name info → r_device info = None) ∨
    ∃ info, info ∈ g_roots false false ∧ str "SYSTEM:" = r_name info ∧ formats (λ _, true) 50 info RootDemo.start r w' ∧
      ∀ (R : RootDemo.sys → RootDemo.sys → Prop) on, PreOrder R →
        (∀ mp w, r_mount_point info = Some mp → R w (sys_umount (Some mp) w).2) →
        (∀ e, e ∈ flash_parts → r_partition_name info = Some (e_name e) → confined (partition_of e) R on) → R RootDemo.start w').
Proof.
  refine (format_root_device_safe false false (λ _, true) 50 (λ _, eq_refl) (str "SYSTEM:") RootDemo.state0
    RootDemo.start _ _ _ _); [|by split|apply (bool_decide_unpack _); vm_compute; exact I..].
  apply (bool_decide_unpack _). vm_compute. exact I.
Defined.
