(* ===== verification/Bootloader.v ===== *)
(** * Bootloader

    bootloader.c: the message to the boot loader in the misc partition, and the radio update
    image in the cache partition. *)
From S2P Require Import Prelude CString Syscalls Mtdutils Mtdflash Mtdframe Mtdscan Mounts Roots.

Definition CACHE_NAME : list Z := str "CACHE:".
Definition MISC_NAME : list Z := str "MISC:".
Definition OR_IS_BOOTSTRAP_MARK : list Z := str "/etc/bootstrap".
Definition OR_DO_BOOTSTRAP_MARK : list Z := str "/cache/.boot_to_or".
Definition MISC_PAGES : Z := 3.
Definition MISC_COMMAND_PAGE : Z := 1.

(** ** Data *)
Record bootloader_message := mk_message {
  command : list Z;
  status : list Z;
  recovery : list Z
}.
Definition message_ok (m : bootloader_message) : Prop :=
  length (command m) = 32%nat ∧ length (status m) = 32%nat ∧ length (recovery m) = 1024%nat.
Definition message_bytes (m : bootloader_message) : list Z := command m ++ status m ++ recovery m.
Definition message_of (l : list Z) : bootloader_message :=
  mk_message (take 32 l) (take 32 (drop 32 l)) (drop 64 l).

Definition UPDATE_MAGIC : list Z := str "MSM-RADIO-UPDATE".
Definition UPDATE_VERSION : Z := 0x10000.

Record update_header := mk_header {
  MAGIC : list Z;
  version : Z;
  size : Z;
  image_offset : Z;
  image_length : Z;
  bitmap_width : Z;
  bitmap_height : Z;
  bitmap_bpp : Z;
  busy_bitmap_offset : Z;
  busy_bitmap_length : Z;
  fail_bitmap_offset : Z;
  fail_bitmap_length : Z
}.
Definition zero_header : update_header := mk_header (replicate 16 0) 0 0 0 0 0 0 0 0 0 0 0.

(** The bytes of a little-endian word. *)
Definition word_bytes (v : Z) : list Z := [v mod 256; (v / 2 ^ 8) mod 256; (v / 2 ^ 16) mod 256; (v / 2 ^ 24) mod 256].
Definition header_bytes (h : update_header) : list Z :=
  MAGIC h ++ (([version h; size h; image_offset h; image_length h; bitmap_width h; bitmap_height h; bitmap_bpp h;
    busy_bitmap_offset h; busy_bitmap_length h; fail_bitmap_offset h; fail_bitmap_length h]) ≫= word_bytes).
Definition header_size : Z := 60.

Section code.
Context {W : Type} `{MountOS W} `{MtdDriver W} `{PatchOS W} `{RootOS W}.
Context (OPEN_RCVR_VERSION_LITE HAVE_CUST : bool) (alloc_ok : Z → bool) (fuel : nat).
Implicit Types (w : W) (s : Roots).
Abbreviation ensure_mounted := (ensure_root_path_mounted OPEN_RCVR_VERSION_LITE HAVE_CUST alloc_ok).
Abbreviation root_partition := (get_root_mtd_partition OPEN_RCVR_VERSION_LITE HAVE_CUST alloc_ok).

(** ** The message *)

(** [strcpy] to the start of a buffer. *)
Definition strcpy_to (dst src : list Z) : outcome (list Z) := wr_n dst 0 (src ++ [0]).

(** The partition and its write size. *)
Definition misc_partition s w : outcome (option (MtdPartition * Z) * Roots * W) :=
  '(part, s) ← root_partition MISC_NAME s w;
  match part with
  | None => mret (None, s, w)
  | Some part =>
      let '(info, w) := mtd_partition_info part w in
      mret ((λ '(_, _, write_size), (part, write_size)) <$> info, s, w)
  end.

(** Read the pages; an array of no or negative size is undefined. [None] is an error. *)
Definition read_pages (part : MtdPartition) (write_size : Z) w : outcome (option (list Z) * W) :=
  '(read, w) ← mtd_read_partition alloc_ok part w;
  match read with
  | None => mret (None, w)
  | Some read =>
      let size := s32 (u32 (write_size * MISC_PAGES)) in
      if size <=? 0 then Fault OutOfBounds
      else
        '(r, read, data, w) ← mtd_read_data fuel read (replicate (Z.to_nat size) 0) size w;
        let w := mtd_read_close read w in
        mret (if negb (r =? size) then None else Some data, w)
  end.

(** The result, what [out] points to, and the states. *)
Definition get_bootloader_message (out : bootloader_message) s w
    : outcome (Z * bootloader_message * Roots * W) :=
  '(_, s, w) ← ensure_mounted (str "CACHE:") s w;
  if bool_decide (is_Some (sys_stat OR_IS_BOOTSTRAP_MARK w)) then
    if bool_decide (is_Some (sys_stat OR_DO_BOOTSTRAP_MARK w)) then
      c ← strcpy_to (command out) (str "boot-recovery");
      r ← strcpy_to (recovery out) (str "recovery" ++ [10]);
      mret (0, mk_message c (status out) r, s, w)
    else
      c ← wr (command out) 0 0;
      r ← wr (recovery out) 0 0;
      mret (0, mk_message c (status out) r, s, w)
  else
    '(part, s, w) ← misc_partition s w;
    match part with
    | None => mret (-1, out, s, w)
    | Some (part, write_size) =>
        '(data, w) ← read_pages part write_size w;
        match data with
        | None => mret (-1, out, s, w)
        | Some data =>
            bytes ← rd_n data (write_size * MISC_COMMAND_PAGE) 1088;
            mret (0, message_of bytes, s, w)
        end
    end.

(** Write [data] from the start of the partition on. *)
Definition write_pages (part : MtdPartition) (data : list Z) w : outcome (Z * W) :=
  match mtd_write_partition alloc_ok part w with
  | (None, w) => mret (-1, w)
  | (Some write, w) =>
      '(r, write, w) ← mtd_write_data fuel write data (zlen data) w;
      if negb (r =? zlen data) then
        '(_, w) ← mtd_write_close fuel write w;
        mret (-1, w)
      else
        '(r, w) ← mtd_write_close fuel write w;
        mret (if negb (r =? 0) then -1 else 0, w)
  end.

(** Both strings are compared as far as their arrays go. *)
Definition set_bootloader_message (in_ : bootloader_message) s w : outcome (Z * Roots * W) :=
  '(_, s, w) ← ensure_mounted (str "CACHE:") s w;
  if bool_decide (is_Some (sys_stat OR_IS_BOOTSTRAP_MARK w)) then
    if (strcmp (c_string (command in_)) (str "boot-recovery") =? 0) &&
       (strcmp (c_string (recovery in_)) (str "recovery" ++ [10]) =? 0) then
      let '(mark_fd, w) := sys_open_trunc OR_DO_BOOTSTRAP_MARK w in
      mret (0, s, sys_close mark_fd w)
    else
      let '(_, w) := sys_unlink OR_DO_BOOTSTRAP_MARK w in
      mret (0, s, w)
  else
    '(part, s, w) ← misc_partition s w;
    match part with
    | None => mret (-1, s, w)
    | Some (part, write_size) =>
        '(data, w) ← read_pages part write_size w;
        match data with
        | None => mret (-1, s, w)
        | Some data =>
            data ← wr_n data (write_size * MISC_COMMAND_PAGE) (message_bytes in_);
            '(r, w) ← write_pages part data w;
            mret (r, s, w)
        end
    end.

(** ** The update image *)

(** [mtd_write_data] with a length of type [int], which becomes unsigned; the data may be a
    null pointer. The result tells whether all was written. *)
Definition write_all (write : MtdWriteContext) (data : option (list Z)) (length : Z) w
    : outcome (bool * MtdWriteContext * W) :=
  let len := u32 length in
  match data with
  | Some data =>
      '(r, write, w) ← mtd_write_data fuel write data len w;
      mret (r =? length, write, w)
  | None =>
      if 0 <? len then Fault NullPointer
      else
        '(r, write, w) ← mtd_write_data fuel write [] len w;
        mret (r =? length, write, w)
  end.

(** Close and report failure. *)
Definition abandon (write : MtdWriteContext) w : outcome (Z * W) :=
  '(_, w) ← mtd_write_close fuel write w; mret (-1, w).

(** A section of the image, unless the offset is already marked as invalid: the data, then
    what is pending is flushed. The offset of the section that starts at [start], and where the
    next one starts; [None] is a failure. *)
Definition write_section (write : MtdWriteContext) (offset : Z) (data : option (list Z)) (length start : Z) w
    : outcome (option (Z * Z) * MtdWriteContext * W) :=
  if s32 offset =? -1 then mret (None, write, w)
  else
    '(ok, write, w) ← write_all write data length w;
    if negb ok then mret (None, write, w)
    else
      '(next, write, w) ← mtd_erase_blocks fuel write 0 w;
      mret (Some (mtd_find_write_start write start, next), write, w).

(** The header goes in last, into the place that was left for it. *)
Definition rewrite_header (part : MtdPartition) (header : update_header) (image_start_pos : Z) w
    : outcome (Z * W) :=
  match mtd_write_partition alloc_ok part w with
  | (None, w) => mret (-1, w)
  | (Some write, w) =>
      '(ok, write, w) ← write_all write (Some (header_bytes header)) header_size w;
      if negb ok then abandon write w
      else
        '(pos, write, w) ← mtd_erase_blocks fuel write 0 w;
        if negb (pos =? image_start_pos) then abandon write w
        else
          '(r, w) ← mtd_write_close fuel write w;
          mret (if negb (r =? 0) then -1 else 0, w)
  end.

Definition bitmap_size (bpp width height : Z) : outcome Z :=
  a ← int_ok (bpp + 7);
  b ← int_ok (Z.quot a 8 * width);
  int_ok (b * height).

Definition set_image (h : update_header) (offset length : Z) : update_header :=
  mk_header UPDATE_MAGIC UPDATE_VERSION header_size offset length (bitmap_width h) (bitmap_height h)
    (bitmap_bpp h) (busy_bitmap_offset h) (busy_bitmap_length h) (fail_bitmap_offset h) (fail_bitmap_length h).
Definition set_bitmap (h : update_header) (width height bpp : Z) : update_header :=
  mk_header (MAGIC h) (version h) (size h) (image_offset h) (image_length h) width height bpp
    (busy_bitmap_offset h) (busy_bitmap_length h) (fail_bitmap_offset h) (fail_bitmap_length h).
Definition set_busy (h : update_header) (offset length : Z) : update_header :=
  mk_header (MAGIC h) (version h) (size h) (image_offset h) (image_length h) (bitmap_width h) (bitmap_height h)
    (bitmap_bpp h) offset length (fail_bitmap_offset h) (fail_bitmap_length h).
Definition set_fail (h : update_header) (offset length : Z) : update_header :=
  mk_header (MAGIC h) (version h) (size h) (image_offset h) (image_length h) (bitmap_width h) (bitmap_height h)
    (bitmap_bpp h) (busy_bitmap_offset h) (busy_bitmap_length h) offset length.
Definition length_unless_null (bitmap : option (list Z)) (bitmap_length : Z) : Z :=
  match bitmap with Some _ => u32 bitmap_length | None => 0 end.

(** The three sections behind the place of the header, and the header that describes them;
    [None] is a failure. *)
Definition write_sections (write : MtdWriteContext) (image_start_pos : Z) (update : list Z) (update_length : Z)
    (width height bpp : Z) (busy_bitmap fail_bitmap : option (list Z)) w
    : outcome (option update_header * MtdWriteContext * W) :=
  let header := set_image zero_header (image_offset zero_header) (u32 update_length) in
  '(image, write, w) ← write_section write (image_offset header) (Some update) update_length image_start_pos w;
  match image with
  | None => mret (None, write, w)
  | Some (offset, busy_start_pos) =>
      let header := set_bitmap (set_image header (u32 offset) (image_length header)) (u32 width) (u32 height) (u32 bpp) in
      bitmap_length ← bitmap_size bpp width height;
      let header := set_busy header (busy_bitmap_offset header) (length_unless_null busy_bitmap bitmap_length) in
      '(busy, write, w) ← write_section write (busy_bitmap_offset header) busy_bitmap bitmap_length busy_start_pos w;
      match busy with
      | None => mret (None, write, w)
      | Some (offset, fail_start_pos) =>
          let header := set_busy header (u32 offset) (busy_bitmap_length header) in
          let header := set_fail header (fail_bitmap_offset header) (length_unless_null fail_bitmap bitmap_length) in
          '(fail, write, w) ← write_section write (fail_bitmap_offset header) fail_bitmap bitmap_length fail_start_pos w;
          match fail with
          | None => mret (None, write, w)
          | Some (offset, _) => mret (Some (set_fail header (u32 offset) (fail_bitmap_length header)), write, w)
          end
      end
  end.

(** The image goes to the partition behind a header of zeros, which makes any older image
    invalid. *)
Definition write_image (part : MtdPartition) (update : list Z) (update_length width height bpp : Z)
    (busy_bitmap fail_bitmap : option (list Z)) w : outcome (Z * W) :=
  match mtd_write_partition alloc_ok part w with
  | (None, w) => mret (-1, w)
  | (Some write, w) =>
      '(ok, write, w) ← write_all write (Some (header_bytes zero_header)) header_size w;
      if negb ok then abandon write w
      else
        '(image_start_pos, write, w) ← mtd_erase_blocks fuel write 0 w;
        '(header, write, w) ←
          write_sections write image_start_pos update update_length width height bpp busy_bitmap fail_bitmap w;
        match header with
        | None => abandon write w
        | Some header =>
            '(r, w) ← mtd_write_close fuel write w;
            if negb (r =? 0) then mret (-1, w) else rewrite_header part header image_start_pos w
        end
  end.

Definition write_update_for_bootloader (update : list Z) (update_length width height bpp : Z)
    (busy_bitmap fail_bitmap : option (list Z)) s w : outcome (Z * Roots * W) :=
  '(r, s, w) ← ensure_root_path_unmounted OPEN_RCVR_VERSION_LITE HAVE_CUST alloc_ok CACHE_NAME s w;
  if negb (r =? 0) then mret (-1, s, w)
  else
    '(part, s) ← root_partition CACHE_NAME s w;
    match part with
    | None => mret (-1, s, w)
    | Some part =>
        '(r, w) ← write_image part update update_length width height bpp busy_bitmap fail_bitmap w;
        mret (r, s, w)
    end.
End code.

(** ** What writing an image touches *)
Section frame.
Context {W : Type} `{MountOS W} `{MtdDriver W} `{PatchOS W} `{RootOS W}.
Context (alloc_ok : Z → bool) (fuel : nat).
Context (part : MtdPartition) (R : W → W → Prop) (on : Z → W → Prop) (Hconf : confined part R on).
Implicit Types (w : W) (write : MtdWriteContext).
#[local] Instance order : PreOrder R := conf_order _ _ _ Hconf.
Abbreviation keeps := (keeps R on).

Lemma write_all_goes write data len w : on (w_fd write) w → post (write_all fuel write data len w) (λ '(_, write', w'), keeps write w write' w').
Proof.
  intros Ho. unfold write_all. destruct data as [data|]; [|destruct (0 <? _); [apply post_fault|]];
    (eapply post_bind; [by apply (mtd_write_data_goes fuel part R on Hconf)|]); intros [[r write'] w'] Hk; by apply post_ret.
Qed.
Lemma abandon_goes write w : on (w_fd write) w → post (abandon fuel write w) (λ '(_, w'), R w w').
Proof. intros Ho. unfold abandon. eapply post_bind; [by apply (mtd_write_close_goes fuel part R on Hconf)|]. intros [r w'] HR. by apply post_ret. Qed.
Lemma write_section_goes write offset data len start w :
  on (w_fd write) w → post (write_section fuel write offset data len start w) (λ '(_, write', w'), keeps write w write' w').
Proof.
  intros Ho. unfold write_section. destruct (_ =? _); [by apply post_ret, (keeps_refl part R on Hconf)|].
  eapply post_bind; [by apply write_all_goes|]. intros [[ok write1] w1] Hk1. destruct (negb ok); [by apply post_ret|].
  eapply post_bind; [eapply (mtd_erase_blocks_goes fuel part R on Hconf); first [done | by eapply keeps_on]|]. intros [[next write2] w2] Hk2. apply post_ret. by eapply (ctx_keeps_trans part R on Hconf).
Qed.
Lemma write_sections_goes write pos update len width height bpp busy fail w :
  on (w_fd write) w →
  post (write_sections fuel write pos update len width height bpp busy fail w) (λ '(_, write', w'), keeps write w write' w').
Proof.
  intros Ho. unfold write_sections.
  eapply post_bind; [by apply write_section_goes|]. intros [[o1 write1] w1] Hk1. destruct o1 as [[off1 start1]|]; [|by apply post_ret].
  apply post_any. intros size.
  eapply post_bind; [by eapply write_section_goes, keeps_on|]. intros [[o2 write2] w2] Hk2.
  assert (Hk : keeps write w write2 w2) by by eapply (ctx_keeps_trans part R on Hconf). destruct o2 as [[off2 start2]|]; [|by apply post_ret].
  eapply post_bind; [by eapply write_section_goes, keeps_on|]. intros [[o3 write3] w3] Hk3.
  assert (keeps write w write3 w3) by by eapply (ctx_keeps_trans part R on Hconf). destruct o3 as [[off3 start3]|]; by apply post_ret.
Qed.
Lemma rewrite_header_goes header pos w : post (rewrite_header alloc_ok fuel part header pos w) (λ '(_, w'), R w w').
Proof.
  unfold rewrite_header. pose proof (mtd_write_partition_goes alloc_ok part R on Hconf w) as Hopen.
  destruct (mtd_write_partition alloc_ok part w) as [[write|] w1]; [|by apply post_ret, Hopen].
  destruct Hopen as [HR Ho]. specialize (Ho _ eq_refl).
  eapply post_bind; [by apply write_all_goes|]. intros [[ok write1] w2] Hk1.
  assert (Habandon : ∀ write2 w3, keeps write w1 write2 w3 → post (abandon fuel write2 w3) (λ '(_, w'), R w w')).
  { intros write2 w3 Hk. eapply post_mono; [by eapply abandon_goes, keeps_on|]. intros [r w'] HR'. destruct Hk as [_ [Hk _]]. etrans; [done|]. by etrans. }
  destruct (negb ok); [by apply Habandon|].
  eapply post_bind; [eapply (mtd_erase_blocks_goes fuel part R on Hconf); first [done | by eapply keeps_on]|]. intros [[next write2] w3] Hk2.
  assert (Hk : keeps write w1 write2 w3) by by eapply (ctx_keeps_trans part R on Hconf). destruct (negb _); [by apply Habandon|].
  eapply post_bind; [eapply (mtd_write_close_goes fuel part R on Hconf); first [done | by eapply keeps_on]|]. intros [r w4] HR4. apply post_ret.
  destruct Hk as [_ [Hk _]]. etrans; [done|]. by etrans.
Qed.
Lemma write_image_goes update len width height bpp busy fail w :
  post (write_image alloc_ok fuel part update len width height bpp busy fail w) (λ '(_, w'), R w w').
Proof.
  unfold write_image. pose proof (mtd_write_partition_goes alloc_ok part R on Hconf w) as Hopen.
  destruct (mtd_write_partition alloc_ok part w) as [[write|] w1]; [|by apply post_ret, Hopen].
  destruct Hopen as [HR Ho]. specialize (Ho _ eq_refl).
  eapply post_bind; [by apply write_all_goes|]. intros [[ok write1] w2] Hk1.
  assert (Habandon : ∀ write2 w3, keeps write w1 write2 w3 → post (abandon fuel write2 w3) (λ '(_, w'), R w w')).
  { intros write2 w3 Hk. eapply post_mono; [by eapply abandon_goes, keeps_on|]. intros [r w'] HR'. destruct Hk as [_ [Hk _]]. etrans; [done|]. by etrans. }
  destruct (negb ok); [by apply Habandon|].
  eapply post_bind; [eapply (mtd_erase_blocks_goes fuel part R on Hconf); first [done | by eapply keeps_on]|]. intros [[pos write2] w3] Hk2.
  assert (Hk : keeps write w1 write2 w3) by by eapply (ctx_keeps_trans part R on Hconf).
  eapply post_bind; [by eapply write_sections_goes, keeps_on|]. intros [[header write3] w4] Hk3.
  assert (Hk' : keeps write w1 write3 w4) by by eapply (ctx_keeps_trans part R on Hconf). destruct header as [header|]; [|by apply Habandon].
  eapply post_bind; [eapply (mtd_write_close_goes fuel part R on Hconf); first [done | by eapply keeps_on]|]. intros [r w5] HR5.
  assert (R w w5) by (destruct Hk' as [_ [Hk' _]]; etrans; [done|]; by etrans). destruct (negb _); [by apply post_ret|].
  eapply post_mono; [apply rewrite_header_goes|]. intros [r' w6] HR6. by etrans.
Qed.
End frame.

(** ** The message in the misc partition *)
Section message.
Context {W : Type} `{RootLaws W}.
Context (lite cust : bool) (alloc_ok : Z → bool) (fuel : nat).
Context (Halloc : ∀ z, alloc_ok z = true).
Implicit Types (w : W) (s : Roots) (m : bootloader_message) (data : list Z).

(** The misc partition, on a device that works. *)
Context (misc : MtdEntry) (Hmisc : misc ∈ flash_parts) (Hname : e_name misc = str "misc").
Abbreviation p := (partition_of misc).
Context `{!MtdLaws p} `{!MtdReadable p} `{!MtdWritable p}.
Context (Hes : 0 < erase_size p) (Hsize : 0 ≤ p_size p) (Hsmall : p_size p + erase_size p < 2 ^ 31).
Context (Hfuel : (Z.to_nat (p_size p) < fuel)%nat).

(** Its write size; a block has three pages or more, and two pages have room for the
    message. *)
Context (sizes : Z * Z) (write_size : Z) (Hinfo : ∀ fd w, MEMGETINFO fd w = Some (sizes, write_size)).
Context (Hpages : 3 * write_size ≤ erase_size p) (Hroom : 1088 ≤ 2 * write_size).
Context (Hlong : (6 * Z.to_nat write_size + 1 < fuel)%nat).

(** Mounting does not touch the partition, there are never more than 32 mounts, and this is
    no bootstrap version. *)
Context (Hmount : ∀ d mp f fl w k, block (sys_mount d mp f fl w).2 k = block w k)
  (Hchmod : ∀ q mode w k, block (sys_chmod q mode w).2 k = block w k)
  (Hmkdir : ∀ q mode w k, block (sys_mkdir q mode w).2 k = block w k).
Context (Hmounts : ∀ w, (length (mount_table w) ≤ 32)%nat).
Context (Hboot : ∀ w, sys_stat OR_IS_BOOTSTRAP_MARK w = None).

(** What a reader of the partition sees. *)
Definition stream w : list Z := readable_blocks p 0 w ≫= block w.

Lemma stream_same w w' : (∀ k, block w' k = block w k) → stream w' = stream w.
Proof.
  intros Hb. unfold stream. rewrite (visible_same p 0 w w' Hb).
  apply Forall_bind_ext, Forall_forall. intros k _. apply Hb.
Qed.

Lemma ensure_cache s w :
  roots_ok s → ∃ r s' w', ensure_root_path_mounted lite cust alloc_ok (str "CACHE:") s w = Ret (r, s', w') ∧
    roots_ok s' ∧ stream w' = stream w.
Proof.
  intros Hs.
  destruct (ensure_root_path_mounted_spec lite cust alloc_ok Halloc (str "CACHE:")
    (yaffs2_root "CACHE:" "cache" "/cache") (str "/cache") s w) as (r & s' & w' & Hrun & Hs' & _);
    [destruct lite, cust; reflexivity|reflexivity|done|done|].
  exists r, s', w'. do 2 (split; [done|]). apply stream_same.
  refine (ensure_root_path_mounted_preserves lite cust alloc_ok (λ w w', ∀ k, block w' k = block w k) _ _ _ _ _
    (str "CACHE:") s w (r, s', w') Hrun); eauto. intros w1 w2 w3 Ha Hb k. by rewrite Hb, Ha.
Qed.

Lemma misc_partition_spec s w :
  roots_ok s → ∃ s' w', misc_partition lite cust alloc_ok s w = Ret (Some (p, write_size), s', w') ∧
    roots_ok s' ∧ stream w' = stream w.
Proof.
  intros Hs. unfold misc_partition, get_root_mtd_partition.
  replace (get_root_info_for_path lite cust MISC_NAME) with (Some (raw_root "MISC:" "misc"))
    by (destruct lite, cust; reflexivity).
  cbn [r_partition_name raw_root r_device]. rewrite bool_decide_eq_true_2 by done.
  destruct (scan_for_partition_spec alloc_ok Halloc (str "misc") s w) as (o & s1 & -> & Hs1 & Ho);
    [repeat constructor|done|].
  cbn [mbind outcome_bind]. destruct parts_fit as (Hok & Hnum & Hnames).
  destruct o as [p'|]; cycle 1.
  { destruct Ho. rewrite <- Hname. by apply list_elem_of_fmap_2. }
  destruct Ho as (e & He & Hen & ->).
  assert (e = misc) as ->.
  { apply list_elem_of_lookup in He as [i Hi]. pose proof Hmisc as [j Hj]%list_elem_of_lookup.
    assert (i = j) as <-; [|congruence].
    apply (NoDup_lookup _ i j (str "misc") Hnames); rewrite list_lookup_fmap; [by rewrite Hi, <- Hen|by rewrite Hj, <- Hname]. }
  unfold mtd_partition_info. pose proof (open_ok false w) as Hopen. pose proof (read_opens w) as Hfd.
  destruct (dev_open _ _ _) as [fd w1]. simpl in Hfd. destruct (Z.ltb_spec fd 0); [lia|].
  destruct (Hopen Hfd) as [_ Hb]. rewrite Hinfo.
  pose proof (close_ok fd w1) as Hc. destruct (dev_close fd w1) as [r w2]. simpl in Hc.
  destruct sizes as [a b]. simpl. eexists s1, w2. do 2 (split; [done|]).
  apply stream_same. intros k. by rewrite Hc, Hb.
Qed.

Lemma read_pages_spec w :
  0 < write_size →
  ∃ w', read_pages alloc_ok fuel p write_size w =
    Ret (if 3 * write_size <=? zlen (stream w) then Some (take (Z.to_nat (3 * write_size)) (stream w)) else None, w').
Proof.
  intros Hws. unfold read_pages.
  destruct (mtd_read_partition_spec p alloc_ok fuel Hes Hfuel w (Halloc _) (Halloc _)) as (ctx & w1 & -> & Hr).
  cbn [mbind outcome_bind]. fold (stream w) in Hr. unfold MISC_PAGES.
  rewrite u32_small, s32_small by lia. rewrite (Z.mul_comm write_size).
  rewrite (proj2 (Z.leb_gt _ 0)) by lia.
  pose proof (mtd_read_data_spec p fuel Hes Hsize Hsmall Hfuel ctx (stream w) (replicate (Z.to_nat (3 * write_size)) 0)
    (3 * write_size) w1 ltac:(lia) ltac:(lia) ltac:(rewrite length_replicate; lia) Hr) as Hread.
  destruct (wp_Ret_inv _ _ Hread) as ([[[r ctx'] data'] w2] & Hrun & Hres).
  cbn [mbind] in Hrun. rewrite Hrun. cbn [mbind outcome_bind].
  destruct (Z.leb_spec (3 * write_size) (zlen (stream w))).
  - destruct Hres as (-> & -> & _). rewrite Z.eqb_refl. cbn [negb].
    rewrite drop_ge, app_nil_r by (rewrite length_replicate; lia). by eexists.
  - subst r. rewrite (proj2 (Z.eqb_neq _ _)) by lia. by eexists.
Qed.

(** What [write_pages] has stored when it answers 0. *)
Lemma write_pages_spec data w :
  (length data < fuel)%nat → zlen data < 2 ^ 31 → zlen data ≤ erase_size p → nonzero data = true →
  post (write_pages alloc_ok fuel p data w) (λ '(r, w'), r = 0 →
    ∃ pad rest, stream w' = data ++ replicate pad 0 ++ rest).
Proof.
  intros Hf Hlen Hblock Hnz. unfold write_pages.
  destruct (mtd_write_partition alloc_ok p w) as [[ctx|] w1] eqn:Hopen; [|by apply post_ret].
  set (bad_only := λ k, factory_bad k = true).
  assert (Hskip : ∀ fd k data w o, offset w fd = Some o → 0 ≤ k → (k + 1) * erase_size p ≤ p_size p →
    zlen data = erase_size p → factory_bad k = false →
    (write_retry 2 fd (k * erase_size p) data (erase_size p) w).1 = false → bad_only k).
  { intros fd k d w0 o Ho Hk Hin Hd Hg Hfail. by rewrite (good_not_skipped p fd k d w0 o) in Hfail. }
  pose proof (mtd_write_partition_spec p alloc_ok fuel bad_only Hes Hsize Hfuel w ctx w1 Hopen) as [Hwr _].
  eapply post_bind.
  { apply wp_post, (mtd_write_data_spec p alloc_ok fuel bad_only ltac:(done) Hskip Hes Hsize Hsmall Hfuel ctx [] data w1 Hf Hlen Hwr). }
  intros [[r ctx1] w2] Hr. destruct (Z.eqb_spec r (zlen data)) as [->|Hne]; cbn [negb]; cycle 1.
  { apply post_any. intros [r2 w3]. by apply post_ret. }
  destruct Hr as [[? _]|(_ & Hwr2 & _)]; [lia|].
  eapply post_bind; [by apply wp_post, (mtd_write_close_flushes p alloc_ok fuel bad_only ltac:(done) Hskip Hes Hsize Hsmall Hfuel ctx1 data w2)|].
  intros [r w3] Hc. destruct (Z.eqb_spec r 0) as [->|]; apply post_ret; [|done]. intros _.
  destruct (Hc eq_refl) as (bad & pad & Hpad & Hbad & Hon).
  destruct (on_flash_visible p bad data pad w3 Hes Hsize Hon Hpad) as [rest Hv]; [|done|by exists pad, rest].
  intros [|i] Hi; [|nia]. simpl (Z.to_nat (Z.of_nat 0 * _)). rewrite drop_0, take_ge by lia. done.
Qed.

Lemma message_bytes_length m : message_ok m → length (message_bytes m) = 1088%nat.
Proof. intros (? & ? & ?). unfold message_bytes. rewrite !length_app. lia. Qed.
Lemma message_of_bytes m : message_ok m → message_of (message_bytes m) = m.
Proof.
  intros (Hc & Hs & Hr). destruct m as [c st r]. unfold message_of, message_bytes. simpl in *.
  change 64%nat with (32 + 32)%nat. rewrite <- drop_drop.
  rewrite !(drop_app_length' c), !(drop_app_length' st), !(take_app_length' c), (take_app_length' st) by done. done.
Qed.

(** Where [get_bootloader_message] finds the message in what a reader sees. *)
Lemma get_bootloader_message_spec out s w :
  roots_ok s →
  ∃ r m s' w', get_bootloader_message lite cust alloc_ok fuel out s w = Ret (r, m, s', w') ∧
    roots_ok s' ∧ (3 * write_size ≤ zlen (stream w) → r = 0 ∧
      m = message_of (take 1088 (drop (Z.to_nat write_size) (take (Z.to_nat (3 * write_size)) (stream w))))) ∧
    (zlen (stream w) < 3 * write_size → r = -1 ∧ m = out).
Proof.
  intros Hs. unfold get_bootloader_message.
  destruct (ensure_cache s w Hs) as (r0 & s1 & w1 & -> & Hs1 & Hst1). cbn [mbind outcome_bind].
  rewrite bool_decide_eq_false_2 by (rewrite Hboot; by intros []).
  destruct (misc_partition_spec s1 w1 Hs1) as (s2 & w2 & -> & Hs2 & Hst2). cbn [mbind outcome_bind].
  destruct (read_pages_spec w2 ltac:(lia)) as (w3 & ->). cbn [mbind outcome_bind]. rewrite Hst2, Hst1.
  destruct (Z.leb_spec (3 * write_size) (zlen (stream w))).
  - unfold MISC_COMMAND_PAGE. rewrite Z.mul_1_r, rd_n_in_bounds by (rewrite ?length_take; lia).
    cbn [mbind outcome_bind mret outcome_ret]. eexists 0, _, s2, w3. do 2 (split; [done|]). split; [done|lia].
  - eexists (-1), out, s2, w3. do 2 (split; [done|]). split; [lia|done].
Qed.

(** What a message that was stored leaves in the three pages. *)
Lemma set_message_spec m s w :
  message_ok m → nonzero (message_bytes m) = true → roots_ok s →
  post (set_bootloader_message lite cust alloc_ok fuel m s w) (λ '(r, s1, w1), roots_ok s1 ∧ (r = 0 →
    ∃ pre tl rest, 3 * write_size ≤ zlen (stream w) ∧
      pre = take (Z.to_nat write_size) (stream w) ∧
      tl = drop (Z.to_nat write_size + 1088) (take (Z.to_nat (3 * write_size)) (stream w)) ∧
      stream w1 = (pre ++ message_bytes m ++ tl) ++ rest)).
Proof.
  intros Hm Hnz Hs. unfold set_bootloader_message.
  destruct (ensure_cache s w Hs) as (r0 & s2 & w2 & -> & Hs2 & Hst2). cbn [mbind outcome_bind].
  rewrite bool_decide_eq_false_2 by (rewrite Hboot; by intros []).
  destruct (misc_partition_spec s2 w2 Hs2) as (s3 & w3 & -> & Hs3 & Hst3). cbn [mbind outcome_bind].
  destruct (read_pages_spec w3 ltac:(lia)) as (w4 & ->). cbn [mbind outcome_bind]. rewrite Hst3, Hst2.
  destruct (Z.leb_spec (3 * write_size) (zlen (stream w))) as [Hle|]; [|by apply post_ret].
  pose proof (message_bytes_length m Hm) as Hml.
  assert (Hd : zlen (take (Z.to_nat (3 * write_size)) (stream w)) = 3 * write_size) by (rewrite length_take; lia).
  unfold MISC_COMMAND_PAGE. rewrite Z.mul_1_r, wr_n_in_bounds by lia. cbn [mbind outcome_bind].
  rewrite take_take, Nat.min_l, Hml by lia. set (pre := take _ (stream w)). set (tl := drop _ _).
  eapply post_bind; [apply write_pages_spec|].
  - subst pre tl. rewrite !length_app, length_take, length_drop. lia.
  - subst pre tl. rewrite !length_app, length_take, length_drop. lia.
  - subst pre tl. rewrite !length_app, length_take, length_drop. lia.
  - unfold nonzero in *. rewrite !existsb_app, Hnz. by rewrite orb_true_r.
  - intros [r w5] Hr. apply post_ret. split; [done|]. intros Hr0. destruct (Hr Hr0) as (pad & rest & Hst).
    by exists pre, tl, (replicate pad 0 ++ rest).
Qed.

(** A message that was stored is there for every reader that sees the same partition, after a
    restart too. *)
Lemma set_message_kept m s w s1 w1 :
  message_ok m → nonzero (message_bytes m) = true → roots_ok s →
  set_bootloader_message lite cust alloc_ok fuel m s w = Ret (0, s1, w1) →
  roots_ok s1 ∧ ∀ out s' w', roots_ok s' → stream w' = stream w1 →
    ∃ s2 w2, get_bootloader_message lite cust alloc_ok fuel out s' w' = Ret (0, m, s2, w2) ∧ roots_ok s2.
Proof.
  intros Hm Hnz Hs Hset. pose proof (message_bytes_length m Hm) as Hml.
  destruct (set_message_spec m s w Hm Hnz Hs (0, s1, w1) Hset) as [Hs1 Hst].
  destruct (Hst eq_refl) as (pre & tl & rest & Hle & Hpre & Htl & Hw1). clear Hst.
  assert (Hpl : length pre = Z.to_nat write_size) by (rewrite Hpre, length_take; lia).
  assert (Hlen : length (pre ++ message_bytes m ++ tl) = Z.to_nat (3 * write_size)).
  { rewrite Htl, !length_app, length_drop, length_take. lia. }
  split; [done|]. intros out s' w' Hs' Hsame. rewrite <- Hsame in Hw1.
  destruct (get_bootloader_message_spec out s' w' Hs') as (r & m' & s2 & w2 & Hget & Hs2 & Hyes & _).
  exists s2, w2. rewrite Hget. destruct Hyes as [-> ->]; [rewrite Hw1, length_app; lia|]. split; [|done]. do 4 f_equal.
  rewrite Hw1, take_app_length' by done.
  rewrite drop_app_length' by done. rewrite take_app_length' by done.
  by apply message_of_bytes.
Qed.

(** C21: The message gets through. On a device that works and has no bootstrap mark, a message with a byte that is not zero
    that [set_bootloader_message] has stored (it answered 0) is what [get_bootloader_message] finds
    next, whatever the bad blocks, the other contents of the pages and the mounts are;
    the buffer of the caller does not matter. Of the three pages, which are read, changed and written back, all other
    bytes are as they were. *)
Theorem set_get_message_roundtrip m out s w s1 w1 :
  message_ok m → nonzero (message_bytes m) = true → roots_ok s →
  set_bootloader_message lite cust alloc_ok fuel m s w = Ret (0, s1, w1) →
  (∃ s2 w2, get_bootloader_message lite cust alloc_ok fuel out s1 w1 = Ret (0, m, s2, w2)) ∧
  take (Z.to_nat (3 * write_size)) (stream w1) =
    take (Z.to_nat write_size) (stream w) ++ message_bytes m ++
    drop (Z.to_nat write_size + 1088) (take (Z.to_nat (3 * write_size)) (stream w)).
Proof.
  intros Hm Hnz Hs Hset. split.
  - destruct (set_message_kept m s w s1 w1 Hm Hnz Hs Hset) as [Hs1 Hget].
    destruct (Hget out s1 w1 Hs1 eq_refl) as (s2 & w2 & Hrun & _). eauto.
  - destruct (set_message_spec m s w Hm Hnz Hs (0, s1, w1) Hset) as [_ Hst].
    destruct (Hst eq_refl) as (pre & tl & rest & Hle & -> & -> & ->). apply take_app_length'.
    rewrite !length_app, length_drop, !length_take, (message_bytes_length m Hm). lia.
Qed.

(** *** Other partitions

    The calls on devices of other partitions, and unmounting, leave the partition alone. *)
Abbreviation untouched := (λ w w', ∀ k, block w' k = block w k).
Context (Hapart : ∀ q, mtd_dev q ≠ mtd_dev p → confined q untouched (λ fd w, offset w fd = None)).
Context (Humount : ∀ mp w k, block (sys_umount mp w).2 k = block w k).
Context (Herases : Forall (λ e, e_erase e ≠ 0) flash_parts).

Lemma decimal_inj a b : (a < 32)%nat → (b < 32)%nat → decimal (Z.of_nat a) = decimal (Z.of_nat b) → a = b.
Proof.
  intros Ha Hb Heq. pose proof (scan_d_decimal a [] Ha) as Hsa. rewrite Heq, (scan_d_decimal b [] Hb) in Hsa. injection Hsa. lia.
Qed.
Lemma other_device e : e ∈ flash_parts → e_name e ≠ str "misc" → mtd_dev (partition_of e) ≠ mtd_dev p.
Proof.
  intros He Hne Hdev. destruct parts_fit as (Hok & Hnum & _). rewrite Forall_forall in Hok.
  unfold mtd_dev in Hdev. apply app_inv_head, decimal_inj in Hdev; [|by apply Hok..].
  apply Hne. rewrite <- Hname. f_equal. apply list_elem_of_lookup in He as [i Hi]. pose proof Hmisc as [j Hj]%list_elem_of_lookup.
  assert (i = j) as ->; [|congruence]. apply (NoDup_lookup _ i j (e_num e) Hnum); rewrite list_lookup_fmap; [by rewrite Hi|by rewrite Hj, Hdev].
Qed.
Lemma unmount_untouched path info mp s w :
  get_root_info_for_path lite cust path = Some info → r_mount_point info = Some mp → roots_ok s →
  ∃ r s' w', ensure_root_path_unmounted lite cust alloc_ok path s w = Ret (r, s', w') ∧ roots_ok s' ∧ untouched w w'.
Proof.
  intros Hget Hmp Hs.
  destruct (ensure_root_path_unmounted_spec lite cust alloc_ok Halloc path info mp s w Hget Hmp Hs (Hmounts w)) as (r & s' & w' & Hrun & Hs' & Hyes & Hno).
  exists r, s', w'. do 2 (split; [done|]). destruct (decide (mp ∈ m_point <$> mount_table w)) as [Hm|Hm]; cycle 1.
  { by destruct (Hno Hm) as [_ ->]. }
  pose proof (λ k, Humount (Some mp) w k) as Hu. by rewrite (Hyes Hm) in Hu.
Qed.
Lemma cache_listed o s w :
  roots_ok s → get_root_mtd_partition lite cust alloc_ok CACHE_NAME s w = o →
  ∃ part s', o = Ret (part, s') ∧ roots_ok s' ∧
    ∀ q, part = Some q → confined q untouched (λ fd w, offset w fd = None).
Proof.
  intros Hs <-. unfold get_root_mtd_partition.
  replace (get_root_info_for_path lite cust CACHE_NAME) with (Some (yaffs2_root "CACHE:" "cache" "/cache")) by (destruct lite, cust; reflexivity).
  cbn [r_partition_name yaffs2_root r_device]. rewrite bool_decide_eq_true_2 by done.
  destruct (scan_for_partition_spec alloc_ok Halloc (str "cache") s w) as (part & s1 & -> & Hs1 & Ho); [repeat constructor|done|].
  exists part, s1. do 2 (split; [done|]). intros q ->. destruct Ho as (e & He & Hen & ->).
  apply Hapart, other_device; [done|]. by rewrite Hen.
Qed.
Lemma write_update_untouched update len width height bpp busy fail s w :
  roots_ok s →
  post (write_update_for_bootloader lite cust alloc_ok fuel update len width height bpp busy fail s w)
    (λ '(_, s', w'), roots_ok s' ∧ untouched w w').
Proof.
  intros Hs. unfold write_update_for_bootloader.
  destruct (unmount_untouched CACHE_NAME (yaffs2_root "CACHE:" "cache" "/cache") (str "/cache") s w) as (r & s1 & w1 & -> & Hs1 & Hb1);
    [destruct lite, cust; reflexivity|done|done|]. cbn [mbind outcome_bind]. destruct (negb _); [by apply post_ret|].
  destruct (cache_listed _ s1 w1 Hs1 eq_refl) as (part & s2 & -> & Hs2 & Hpart). cbn [mbind outcome_bind].
  destruct part as [part|]; [|by apply post_ret].
  eapply post_bind; [by apply (write_image_goes alloc_ok fuel part _ _ (Hpart part eq_refl))|]. intros [r3 w3] Hb3. apply post_ret.
  split; [done|]. intros k. by rewrite Hb3, Hb1.
Qed.
Lemma format_cache_untouched s w :
  roots_ok s →
  wp (format_root_device lite cust alloc_ok fuel CACHE_NAME s w) (λ '(_, _, w'), untouched w w').
Proof.
  intros Hs. eapply wp_mono; [by apply format_root_device_spec; first [done | repeat constructor]|].
  intros [[r s'] w'] [(_ & -> & _)|(info & Hin & Heq & Hf)]; [done|].
  assert (info = yaffs2_root "CACHE:" "cache" "/cache") as ->.
  { pose proof (get_root_of_entry lite cust info [] Hin ltac:(constructor)) as Hget. rewrite app_nil_r, <- Heq in Hget.
    destruct lite, cust; vm_compute in Hget; injection Hget as <-; reflexivity. }
  assert (Hun : ∀ r w1, unmounts (yaffs2_root "CACHE:" "cache" "/cache") w r w1 → untouched w w1).
  { unfold unmounts. cbn [r_mount_point yaffs2_root]. intros r1 w1. case_decide; [|by intros [_ ->]].
    intros Hrun k. pose proof (Humount (Some (str "/cache")) w k) as Hu. by rewrite Hrun in Hu. }
  destruct Hf as [r w1 HR1 _|w1 HR1 _|e w1 r w' HR1 _ _ He Hn Hrun]; [by eapply Hun..|].
  intros k. rewrite <- (Hun _ _ HR1 k).
  refine (erase_partition_goes alloc_ok fuel (partition_of e) untouched (λ fd w, offset w fd = None) w1 _ (r, w') Hrun k).
  apply Hapart, other_device; [done|]. cbn [r_partition_name yaffs2_root] in Hn. injection Hn as Hn. by rewrite <- Hn.
Qed.
End message.

(** ** A flash chip

    The misc partition has three blocks of three pages of 544 bytes; the second block is bad.
    Nothing is mounted, and the other partition only seems to be there. The state is the offset and the contents of the blocks. *)
Module MiscDemo.

Definition es : Z := 1632.
Abbreviation chip := (Z * (Z → list Z))%type.
Definition norm (l : list Z) : list Z := take 1632 (l ++ replicate 1632 0).
Definition store (k : Z) (b : list Z) (f : Z → list Z) : Z → list Z := λ j, if j =? k then b else f j.
Definition misc : MtdEntry := mk_entry 0 4896 1632 (str "misc").
Definition parts : list MtdEntry := [misc; mk_entry 1 4896 1632 (str "cache")].

#[local] Instance mount_os : MountOS chip := {|
  proc_mounts _ := Some [];
  sys_umount _ w := (-1, w)
|}.
#[local] Instance driver : MtdDriver chip := {|
  proc_mtd _ := Some (listing parts);
  dev_open path _ w := if decide (path = mtd_dev (partition_of misc)) then (3, (0, w.2)) else (4, w);
  dev_seek fd q w := if fd =? 3 then match q with Some q => (q, (q, w.2)) | None => (w.1, w) end else (default 0 q, w);
  dev_read fd n w := if fd =? 3 then (n, norm (w.2 (w.1 / es)), (w.1 + n, w.2)) else (-1, [], w);
  dev_write fd data w := if fd =? 3 then (zlen data, (w.1 + zlen data, store (w.1 / es) data w.2)) else (-1, w);
  dev_close _ w := (0, w);
  ECCGETSTATS _ _ := Some 0;
  MEMGETBADBLOCK _ pos _ := if pos =? es then 1 else 0;
  MEMERASE fd pos _ w := if fd =? 3 then (0, (w.1, store (pos / es) (replicate 1632 255) w.2)) else (0, w);
  MEMGETINFO _ _ := Some (4896, 1632, 544)
|}.
#[local] Instance os : PatchOS chip := {|
  sys_stat _ _ := None;
  sys_fread _ _ _ := None;
  sys_open_trunc _ w := (-1, w);
  sys_write _ _ w := (-1, w);
  sys_fsync _ w := w;
  sys_close _ w := w;
  sys_chmod _ _ w := (-1, w);
  sys_chown _ _ _ w := (-1, w);
  sys_rename _ _ w := (-1, w);
  sys_unlink _ w := (-1, w);
  sys_statfs _ _ := None;
  sys_listdir _ _ := None;
  sys_readlink _ _ := None;
  sys_mount _ _ _ _ w := (-1, w)
|}.
#[local] Instance root_os : RootOS chip := {| sys_mkdir _ _ w := (-1, w) |}.

#[local] Instance root_laws : RootLaws.
Proof.
  refine {| mount_table _ := []; flash_parts := parts |}; try done.
  - split; [|split]; [|apply (bool_decide_unpack _); vm_compute; exact I..].
    repeat constructor; vm_compute; lia || done.
  - intros device mp filesystem flags w. by right.
  - intros mp w. by right.
Defined.

Lemma norm_length l : zlen (norm l) = es.
Proof. unfold norm, es. rewrite length_take, length_app, length_replicate. lia. Qed.
Lemma norm_whole l : zlen l = es → norm l = l.
Proof. unfold norm, es. intros Hl. apply take_app_length'. lia. Qed.

Opaque norm replicate.
Lemma misc_fd (w : chip) fd o : (if fd =? 3 then Some w.1 else None) = Some o → fd = 3 ∧ w.1 = o.
Proof. destruct (Z.eqb_spec fd 3); naive_solver. Qed.
#[local] Instance flash_laws : MtdLaws (partition_of misc).
Proof.
  refine {| offset w fd := if fd =? 3 then Some w.1 else None; block w k := norm (w.2 k); factory_bad k := k =? 1 |};
    cbn -[Z.mul Z.add Z.div mtd_dev decide decide_rel]; try done.
  - intros w k. apply norm_length.
  - intros fd o w [-> <-]%misc_fd. cbn -[Z.div]. naive_solver.
  - intros fd o q w [-> <-]%misc_fd. cbn -[Z.div]. repeat split; naive_solver.
  - intros fd k w [-> Ho]%misc_fd Hk Hin. cbn -[Z.mul Z.add Z.div]. rewrite Ho, Z.div_mul by done. split; [by rewrite norm_length|].
    split; [eauto|]. split; [done|]. intros _. split; [done|]. f_equal. lia.
  - intros fd k data w [-> Ho]%misc_fd Hk Hin Hd. cbn -[Z.mul Z.add Z.div]. rewrite Ho, Z.div_mul by done. split; [eauto|]. intros j Hj. unfold store. simpl.
    by destruct (Z.eqb_spec j k).
  - intros fd o k w [-> Ho]%misc_fd Hk Hin. cbn -[Z.mul Z.add Z.div]. rewrite Z.div_mul by done. split; [by rewrite Ho|]. intros j Hj. unfold store.
    simpl. by destruct (Z.eqb_spec j k).
  - intros _ k w. unfold es. destruct (Z.eqb_spec (k * 1632) 1632), (Z.eqb_spec k 1); try done; lia.
Defined.
#[local] Instance readable : MtdReadable (partition_of misc).
Proof.
  constructor; cbn -[Z.mul Z.add Z.div mtd_dev decide decide_rel].
  - intros w. by case_decide.
  - by intros fd o q w [-> _]%misc_fd.
  - by intros fd o w [-> <-]%misc_fd.
  - by intros fd k w [-> _]%misc_fd.
  - by exists 0.
Qed.
#[local] Instance writable : MtdWritable (partition_of misc).
Proof.
  constructor; cbn -[Z.mul Z.add Z.div mtd_dev decide decide_rel].
  - intros fd o k w [-> _]%misc_fd. done.
  - intros fd k data w [-> Ho]%misc_fd Hk Hin Hg Hd. cbn -[Z.mul Z.add Z.div]. rewrite Ho, Z.div_mul by done. unfold store. rewrite Z.eqb_refl.
    by apply norm_whole.
Qed.
Lemma apart q : mtd_dev q ≠ mtd_dev (partition_of misc) →
  confined q (λ w w' : chip, ∀ k, block w' k = block w k) (λ fd w, offset w fd = None).
Proof.
  intros Hq. split; cbn -[Z.mul Z.add Z.div mtd_dev decide decide_rel].
  - split; [by intros w|]. intros w1 w2 w3 H12 H23 k. by rewrite H23, H12.
  - intros rw w. by case_decide.
  - intros fd o w. by destruct (Z.eqb_spec fd 3).
  - intros fd n w. by destruct (Z.eqb_spec fd 3).
  - intros fd data w. by destruct (Z.eqb_spec fd 3).
  - intros fd pos n w. by destruct (Z.eqb_spec fd 3).
  - done.
Qed.
Transparent norm replicate.

Definition blank : chip := (0, λ _, replicate 1632 255).
Definition state0 : Roots := mk_roots g_mounts_state g_mtd_state.
Definition field (n : nat) (s : list Z) : list Z := s ++ replicate (n - length s) 0.
Definition boot_recovery : bootloader_message :=
  mk_message (field 32 (str "boot-recovery")) (field 32 []) (field 1024 (str "recovery" ++ [10] ++ str "--wipe_data")).
Definition no_message : bootloader_message := mk_message (field 32 []) (field 32 []) (field 1024 []).
Definition fuel : nat := 5000.
Definition set_ (m : bootloader_message) (w : chip) : Z * Roots * chip :=
  match set_bootloader_message false false (λ _, true) fuel m state0 w with Ret r => r | _ => (-2, state0, blank) end.
Definition get_ (w : chip) : outcome (Z * bootloader_message) :=
  '(r, m, _, _) ← get_bootloader_message false false (λ _, true) fuel no_message state0 w; mret (r, m).
End MiscDemo.
#[local] Existing Instances MiscDemo.mount_os MiscDemo.driver MiscDemo.os MiscDemo.root_os MiscDemo.root_laws
  MiscDemo.flash_laws MiscDemo.readable MiscDemo.writable.

(** A message of zeros between pages of zeros makes a block of zeros, which the reader skips:
    [get_bootloader_message] answers what the next block holds, here that of an erased one. *)
Definition zero_pages (others : list Z) : MiscDemo.chip :=
  (0, MiscDemo.store 0 (replicate 544 0 ++ message_bytes MiscDemo.boot_recovery) (λ _, others)).
Lemma zero_message_lost :
  let '(r, _, w) := MiscDemo.set_ MiscDemo.no_message (zero_pages (replicate 1632 255)) in
  r = 0 ∧ MiscDemo.get_ w = Ret (0, message_of (replicate 1088 255)).
Proof. vm_compute. by split. Qed.

(** If the other blocks hold zeros too, then no message can be read or stored any more. *)
Lemma zero_message_locks :
  let '(r, _, w) := MiscDemo.set_ MiscDemo.no_message (zero_pages []) in
  r = 0 ∧ (MiscDemo.set_ MiscDemo.boot_recovery w).1.1 = -1 ∧ MiscDemo.get_ w = Ret (-1, MiscDemo.no_message).
Proof. vm_compute. by split. Qed.

Lemma misc_listed : MiscDemo.misc ∈ flash_parts.
Proof. by left. Qed.

Lemma set_get_message_roundtrip_witness :
  let run := MiscDemo.set_ MiscDemo.boot_recovery MiscDemo.blank in
  (∃ s2 w2, get_bootloader_message false false (λ _, true) MiscDemo.fuel MiscDemo.no_message run.1.2 run.2 =
    Ret (0, MiscDemo.boot_recovery, s2, w2)) ∧
  take 1632 (stream MiscDemo.misc run.2) = take 544 (stream MiscDemo.misc MiscDemo.blank) ++ message_bytes MiscDemo.boot_recovery ++
    drop 1632 (take 1632 (stream MiscDemo.misc MiscDemo.blank)).
Proof.
  intros run.
  apply (set_get_message_roundtrip false false (λ _, true) MiscDemo.fuel (λ _, eq_refl) MiscDemo.misc misc_listed
    eq_refl ltac:(done) ltac:(done) ltac:(done) ltac:(vm_compute; lia) (4896, 1632) 544 ltac:(done) ltac:(done)
    ltac:(done) ltac:(vm_compute; lia) ltac:(done) ltac:(done) ltac:(done)
    ltac:(intros w; simpl; lia) ltac:(done) MiscDemo.boot_recovery MiscDemo.no_message MiscDemo.state0 MiscDemo.blank).
  - by repeat split.
  - vm_compute. reflexivity.
  - by split.
  - vm_compute. reflexivity.
Defined.
