(* ===== verification/Updater.v ===== *)
(** * Updater

    updater/install.c: the functions that scripts install updates with. They are functions of
    the evaluator of Edify, which work on flash partitions, mounts, files, the package and
    patches. *)
From stdpp Require Import gmap.
From S2P Require Import Prelude CString Bits Hash ZipParse DirUtil ZipExtract Edify.
From S2P Require Import Bspatch Imgpatch Syscalls Files Freecache Mtdutils Mounts Roots Applypatch.

(** ** What else is called *)
Class UpdaterOS (W : Type) := {
  (** a property, or nothing if it is not set *)
  property_get : list Z → W → list Z;
  (** [fork], [execv] and [waitpid]: the status *)
  run_child : list (list Z) → W → Z * W;
  (** streams that are read *)
  Stream : Type;
  c_fopen : list Z → W → option Stream * W;
  c_fread : Stream → Z → W → list Z * Stream * W;
  c_fclose : Stream → W → W;
  (** the text for [errno] *)
  error_text : W → list Z;
  (** the text that ["%f"] prints for the number that [strtod] reads *)
  show_fraction : list Z → list Z
}.

Definition BUFSIZ : Z := 1024.
Definition MAX_FILE_GETPROP_SIZE : Z := 65536.

(** The functions of this file. *)
Inductive UpdaterFn :=
  | MountFn | IsMountedFn | UnmountFn | FormatFn | ShowProgressFn | SetProgressFn | DeleteFn
  | PackageExtractDirFn | PackageExtractFileFn | SymlinkFn | SetPermFn | GetPropFn | FileGetPropFn
  | WriteRawImageFn | ApplyPatchFn | ApplyPatchCheckFn | ApplyPatchSpaceFn | ReadFileFn
  | Sha1CheckFn | UIPrintFn | RunProgramFn.

(** The rest of the system, as the updater has it: the open package, the static variables of
    applypatch.c, mtdutils.c and mounts.c, what was written to the pipe of the parent process,
    and what was printed. *)
Record Updater (F W : Type) := mk_updater {
  u_file : F;
  u_ap : ap (W := W);
  u_mounts : MountsState;
  cmd_pipe : list (list Z);
  u_printed : list (list Z)
}.
Arguments mk_updater {F W} _ _ _ _ _.
Arguments u_file {F W} _.
Arguments u_ap {F W} _.
Arguments u_mounts {F W} _.
Arguments cmd_pipe {F W} _.
Arguments u_printed {F W} _.

(** How a function ends: with an error message; without a value; with a new string; with
    its [i]th argument. *)
Inductive answer :=
  | Aborts (msg : list Z)
  | Nothing
  | Text (l : list Z)
  | Argument (i : nat).

(** ** Parsing *)

(** [strtoul(s, &end, 0)]: the value of 32 bits and the index of [end]. *)
Definition oct_digit (c : Z) : bool := (48 <=? c) && (c <=? 55).
Definition strtoul0 (s : list Z) : Z * nat :=
  let i := count_while is_space s in
  let sign := char_at s i in
  let j := if (sign =? 43) || (sign =? 45) then S i else i in
  let t := drop j s in
  let '(skip, digit, base) :=
    if (char_at t 0 =? 48) && ((char_at t 1 =? 120) || (char_at t 1 =? 88)) && is_hex (char_at t 2)
    then (2%nat, is_hex, 16)
    else if char_at t 0 =? 48 then (O, oct_digit, 8) else (O, is_digit, 10) in
  let n := count_while digit (drop skip t) in
  let v := foldl (λ a c, a * base + hex_value c) 0 (take n (drop skip t)) in
  if bool_decide (n = O) then (0, O)
  else
    let v := if 2 ^ 32 <=? v then 2 ^ 32 - 1 else if sign =? 45 then u32 (- v) else v in
    (v, (j + skip + n)%nat).

(** All of a string that is not empty is a number; the number. *)
Definition parse_number (s : list Z) : option Z :=
  let '(v, e) := strtoul0 s in
  if negb (char_at s e =? 0) || (char_at s 0 =? 0) then None else Some (s32 v).

(** The tokens of [strtok(_, "\n")]. *)
Fixpoint split_lines (s cur : list Z) : list (list Z) :=
  match s with
  | [] => [cur]
  | c :: s => if c =? 10 then cur :: split_lines s [] else split_lines s (cur ++ [c])
  end.
Definition lines (s : list Z) : list (list Z) := filter (λ t, t ≠ []) (split_lines s []).

(** White space is removed at the end, but not the first character. *)
Fixpoint trim_tail (s : list Z) : list Z :=
  match s with
  | [] => []
  | c :: s => match trim_tail s with [] => if is_space c then [] else [c] | t => c :: t end
  end.
Definition trim_end (s : list Z) : list Z :=
  match s with [] => [] | c :: s => c :: trim_tail s end.

Inductive prop_line :=
  | Skipped
  | Malformed (line : list Z)
  | Found (value : list Z).

(** One line of a file of properties. *)
Definition getprop_line (key line : list Z) : prop_line :=
  let line := skip_space line in
  if (char_at line 0 =? 0) || (char_at line 0 =? 35) then Skipped
  else
    match strchr line 61 with
    | None => Malformed line
    | Some equal =>
        if negb (strcmp key (trim_end (take equal line)) =? 0) then Skipped
        else Found (trim_end (skip_space (drop (S equal) line)))
    end.

Fixpoint getprop_lines (key : list Z) (ls : list (list Z)) : prop_line :=
  match ls with
  | [] => Skipped
  | l :: ls => match getprop_line key l with Skipped => getprop_lines key ls | r => r end
  end.

(** The search of [FileGetPropFn]; without a line, a null pointer is read. *)
Definition search_prop (key buffer : list Z) : outcome prop_line :=
  match lines (c_string buffer) with
  | [] => Fault NullPointer
  | ls => mret (getprop_lines key ls)
  end.

(** ** What the functions do, given their arguments as strings *)
Definition is_empty (s : list Z) : bool := char_at s 0 =? 0.
Definition quoted (s : list Z) : list Z := [34] ++ s ++ [34].
Definition truth (b : bool) : list Z := if b then str "t" else [].

Section bodies.
Context `{Bzip2} `{Sha1} `{!ShaDigest} `{Deflate} {F : Type} `{ArchiveFile F} `{Zlib}.
Context {W : Type} `{FileSystem W} `{FileWriter W} `{PatchOS W} `{MtdDriver W} `{MountOS W} `{RootOS W} `{UpdaterOS W}.
(** The package of the state's cookie; what [malloc] can give; bounds on loops; what an
    automatic variable holds at first. *)
Context (package : ZipArchive) (alloc_ok : Z → bool) (fuel tries : nat) (uninit : FileContents).
Abbreviation U := (Updater F W).
Implicit Types (u : U) (n : list Z).

Definition u_world u : W := world (u_ap u).
Definition set_ap (s : ap) u : U := mk_updater (u_file u) s (u_mounts u) (cmd_pipe u) (u_printed u).
Definition set_world (w : W) u : U := set_ap (with_world (u_ap u) w) u.
Definition set_package (f : F) u : U := mk_updater f (u_ap u) (u_mounts u) (cmd_pipe u) (u_printed u).
Definition set_mounts (g : MountsState) u : U := mk_updater (u_file u) (u_ap u) g (cmd_pipe u) (u_printed u).
Definition send (l : list Z) u : U := mk_updater (u_file u) (u_ap u) (u_mounts u) (cmd_pipe u ++ [l]) (u_printed u).
Definition say (l : list Z) u : U := mk_updater (u_file u) (u_ap u) (u_mounts u) (cmd_pipe u) (u_printed u ++ [l]).

(** [mtd_scan_partitions(); mtd_find_partition_by_name(name)] *)
Definition scan_partition (name : list Z) u : outcome (option MtdPartition * U) :=
  '(_, g) ← mtd_scan_partitions alloc_ok (mtd (u_ap u)) (u_world u);
  mret (mtd_find_partition_by_name g name, set_ap (mk_ap (u_world u) g (mtd_partitions_scanned (u_ap u))) u).

Definition mount_body n (type location mount_point : list Z) u : outcome (answer * U) :=
  if is_empty type then mret (Aborts (str "type argument to " ++ n ++ str "() can't be empty"), u)
  else if is_empty location then mret (Aborts (str "location argument to " ++ n ++ str "() can't be empty"), u)
  else if is_empty mount_point then
    mret (Aborts (str "mount_point argument to " ++ n ++ str "() can't be empty"), u)
  else
    let '(_, w) := Roots.sys_mkdir mount_point 493 (u_world u) in
    let u := set_world w u in
    if strcmp type (str "MTD") =? 0 then
      '(mtd, u) ← scan_partition location u;
      match mtd with
      | None => mret (Text [], u)
      | Some mtd =>
          let '(r, w) := mtd_mount_partition mtd mount_point (str "yaffs2") false (u_world u) in
          mret (if negb (r =? 0) then Text [] else Argument 2, set_world w u)
      end
    else
      let '(r, w) := sys_mount location mount_point type MOUNT_FLAGS (u_world u) in
      mret (if r <? 0 then Text [] else Argument 2, set_world w u).

(** [scan_mounted_volumes(); find_mounted_volume_by_mount_point(mount_point)] *)
Definition scan_volume_at (mount_point : list Z) u : outcome (option (Z * MountedVolume) * U) :=
  '(_, g) ← scan_mounted_volumes alloc_ok (u_mounts u) (u_world u);
  vol ← find_mounted_volume_by_mount_point g mount_point;
  mret (vol, set_mounts g u).

Definition is_mounted_body (mount_point : list Z) u : outcome (answer * U) :=
  if is_empty mount_point then mret (Aborts (str "mount_point argument to unmount() can't be empty"), u)
  else
    '(vol, u) ← scan_volume_at mount_point u;
    mret (match vol with None => Text [] | Some _ => Argument 0 end, u).

Definition unmount_body (mount_point : list Z) u : outcome (answer * U) :=
  if is_empty mount_point then mret (Aborts (str "mount_point argument to unmount() can't be empty"), u)
  else
    '(vol, u) ← scan_volume_at mount_point u;
    match vol with
    | None => mret (Text [], u)
    | Some (i, _) =>
        '(_, g, w) ← unmount_mounted_volume (u_mounts u) i (u_world u);
        mret (Argument 0, set_mounts g (set_world w u))
    end.

Definition format_body n (type location : list Z) u : outcome (answer * U) :=
  if is_empty type then mret (Aborts (str "type argument to " ++ n ++ str "() can't be empty"), u)
  else if is_empty location then mret (Aborts (str "location argument to " ++ n ++ str "() can't be empty"), u)
  else if strcmp type (str "MTD") =? 0 then
    '(mtd, u) ← scan_partition location u;
    match mtd with
    | None => mret (Text [], u)
    | Some mtd =>
        '(r, w) ← erase_partition alloc_ok fuel mtd (u_world u);
        mret (if negb (r =? 0) then Text [] else Argument 1, set_world w u)
    end
  else mret (Nothing, u).

(** The loop of [DeleteFn] over the paths: how many were removed. *)
Fixpoint delete_paths (recursive : bool) (paths : list (list Z)) (success : Z) (w : W) : outcome (Z * W) :=
  match paths with
  | [] => mret (success, w)
  | path :: paths =>
      '(r, w) ← (if recursive then dirUnlinkHierarchy fuel fuel path w else mret (DirUtil.sys_unlink path w));
      delete_paths recursive paths (match r with inr _ => success + 1 | inl _ => success end) w
  end.
Definition delete_body n (paths : list (list Z)) u : outcome (answer * U) :=
  '(success, w) ← delete_paths (strcmp n (str "delete_recursive") =? 0) paths 0 (u_world u);
  mret (Text (decimal success), set_world w u).

Definition show_progress_body (frac_str sec_str : list Z) u : outcome (answer * U) :=
  mret (Argument 0,
    send (str "progress " ++ show_fraction frac_str ++ str " " ++ decimal (strtol sec_str).1 ++ [10]) u).
Definition set_progress_body (frac_str : list Z) u : outcome (answer * U) :=
  mret (Argument 0, send (str "set_progress " ++ show_fraction frac_str ++ [10]) u).

Definition package_extract_dir_body (zip_path dest_path : list Z) u : outcome (answer * U) :=
  '(success, f, w, _) ← mzExtractRecursive alloc_ok fuel tries MZ_EXTRACT_FILES_ONLY (Some 1217592000)
    None (za_pEntries package) (u_file u) zip_path dest_path (u_world u) tt;
  mret (Text (truth success), set_package f (set_world w u)).

(** [package_extract_file] with two arguments: the entry, to a file. *)
Definition extract_to_file_body (zip_path dest_path : list Z) u : outcome (answer * U) :=
  p ← mzFindZipEntry package zip_path;
  match p with
  | ZNull => mret (Text (truth false), u)
  | ZTomb | ZName _ => Fault OutOfBounds
  | ZEntry i =>
      match sys_creat dest_path 438 (u_world u) with
      | (inl _, w) => mret (Text (truth false), set_world w u)
      | (inr fd, w) =>
          '(success, f, w) ← mzExtractZipEntryToFile fuel tries (u_file u) (entry_at (za_pEntries package) i) fd w;
          mret (Text (truth success), set_package f (set_world (sys_close fd w) u))
      end
  end.

(** With one argument: the size and the data of the value. *)
Definition extract_to_memory_body (zip_path : list Z) u : outcome ((Z * option (list Z)) * U) :=
  p ← mzFindZipEntry package zip_path;
  match p with
  | ZNull => mret ((-1, None), u)
  | ZTomb | ZName _ => Fault OutOfBounds
  | ZEntry i =>
      let entry := entry_at (za_pEntries package) i in
      let size := uncompLen entry in
      if negb (alloc_ok (u32 size)) then mret ((-1, None), u)
      else
        '(success, f, data) ← mzExtractZipEntryToBuffer fuel (u_file u) entry (replicate (Z.to_nat (u32 size)) 0);
        mret (if success : bool then (size, Some data) else (-1, None), set_package f u)
  end.

(** The loop of [SymlinkFn]. *)
Fixpoint make_links (target : list Z) (srcs : list (list Z)) (w : W) : W :=
  match srcs with
  | [] => w
  | src :: srcs =>
      let '(_, w) := DirUtil.sys_unlink src w in
      let '(_, w) := sys_symlink target src w in
      make_links target srcs w
  end.

(** The loops of [SetPermFn]. *)
Fixpoint set_trees (paths : list (list Z)) (uid gid dir_mode file_mode : Z) (w : W) : outcome W :=
  match paths with
  | [] => mret w
  | path :: paths =>
      '(_, w) ← dirSetHierarchyPermissions fuel fuel path uid gid dir_mode file_mode w;
      set_trees paths uid gid dir_mode file_mode w
  end.
Fixpoint set_files (paths : list (list Z)) (uid gid mode : Z) (w : W) : W :=
  match paths with
  | [] => w
  | path :: paths =>
      let '(_, w) := Syscalls.sys_chown path uid gid w in
      let '(_, w) := Syscalls.sys_chmod path mode w in
      set_files paths uid gid mode w
  end.

Definition not_valid n (s : list Z) (what : string) : answer :=
  Aborts (n ++ str ": " ++ quoted s ++ str " not a valid " ++ str what).

(** [args] has at least four strings, five if the name is [set_perm_recursive]. *)
Definition set_perm_body n (args : list (list Z)) u : outcome (answer * U) :=
  match args with
  | a0 :: a1 :: a2 :: args =>
      match parse_number a0 with
      | None => mret (not_valid n a0 "uid", u)
      | Some uid =>
          match parse_number a1 with
          | None => mret (not_valid n a1 "gid", u)
          | Some gid =>
              if strcmp n (str "set_perm_recursive") =? 0 then
                match parse_number a2 with
                | None => mret (not_valid n a2 "dirmode", u)
                | Some dir_mode =>
                    match args with
                    | [] => Fault OutOfBounds
                    | a3 :: args =>
                        match parse_number a3 with
                        | None => mret (not_valid n a3 "filemode", u)
                        | Some file_mode =>
                            w ← set_trees args uid gid dir_mode file_mode (u_world u);
                            mret (Text [], set_world w u)
                        end
                    end
                end
              else
                match parse_number a2 with
                | None => mret (not_valid n a2 "mode", u)
                | Some mode => mret (Text [], set_world (set_files args uid gid mode (u_world u)) u)
                end
          end
      end
  | _ => Fault OutOfBounds
  end.

(** The value has at most 92 bytes. *)
Definition getprop_body (key : list Z) u : outcome (answer * U) :=
  mret (Text (property_get key (u_world u)), u).

Definition file_getprop_body n (filename key : list Z) u : outcome (answer * U) :=
  match Syscalls.sys_stat filename (u_world u) with
  | None =>
      mret (Aborts (n ++ str ": failed to stat " ++ quoted filename ++ str ": " ++ error_text (u_world u)), u)
  | Some st =>
      let size := st_size st in
      if MAX_FILE_GETPROP_SIZE <? size then
        mret (Aborts (filename ++ str " too large for " ++ n ++ str " (max " ++ decimal MAX_FILE_GETPROP_SIZE ++ str ")"), u)
      else if negb (alloc_ok (size + 1)) then
        mret (Aborts (n ++ str ": failed to alloc " ++ decimal (size + 1) ++ str " bytes"), u)
      else
        match c_fopen filename (u_world u) with
        | (None, w) =>
            mret (Aborts (n ++ str ": failed to open " ++ filename ++ str ": " ++ error_text w), set_world w u)
        | (Some f, w) =>
            let '(buffer, f, w) := c_fread f size w in
            let u := set_world (c_fclose f w) u in
            if negb (zlen buffer =? size) then
              mret (Aborts (n ++ str ": failed to read " ++ decimal (size + 1) ++ str " bytes from " ++ filename), u)
            else
              r ← search_prop key buffer;
              mret (match r with
                    | Skipped => Text []
                    | Malformed line =>
                        Aborts (n ++ str ": malformed line " ++ quoted line ++ str ": " ++ filename ++
                          str " not a prop file?")
                    | Found value => Text value
                    end, u)
        end
  end.

(** The loop of [WriteRawImageFn]; [rounds] bounds the calls of [fread]. *)
Fixpoint write_image (rounds : nat) (ctx : MtdWriteContext) (f : Stream) (w : W)
    : outcome (bool * MtdWriteContext * Stream * W) :=
  match rounds with
  | O => Diverge
  | S rounds =>
      let '(buffer, f, w) := c_fread f BUFSIZ w in
      if zlen buffer <=? 0 then mret (true, ctx, f, w)
      else
        '(wrote, ctx, w) ← mtd_write_data fuel ctx buffer (zlen buffer) w;
        if wrote =? zlen buffer then write_image rounds ctx f w else mret (false, ctx, f, w)
  end.

Definition write_raw_image_body n (filename partition : list Z) u : outcome (answer * U) :=
  if is_empty partition then mret (Aborts (str "partition argument to " ++ n ++ str " can't be empty"), u)
  else if is_empty filename then mret (Aborts (str "file argument to " ++ n ++ str " can't be empty"), u)
  else
    '(mtd, u) ← scan_partition partition u;
    match mtd with
    | None => mret (Text [], u)
    | Some mtd =>
        match mtd_write_partition alloc_ok mtd (u_world u) with
        | (None, w) => mret (Text [], set_world w u)
        | (Some ctx, w) =>
            match c_fopen filename w with
            | (None, w) => mret (Text [], set_world w u)
            | (Some f, w) =>
                '(success, ctx, f, w) ← write_image fuel ctx f w;
                let w := c_fclose f w in
                '(_, ctx, w) ← mtd_erase_blocks fuel ctx (-1) w;
                '(_, w) ← mtd_write_close fuel ctx w;
                let u := say (str (if success : bool then "wrote " else "failed to write ") ++ partition ++
                  str " partition from " ++ filename ++ [10]) (set_world w u) in
                mret (if success then Argument 1 else Text [], u)
            end
        end
    end.

(** The lines of [strtok], sent to the parent process. *)
Fixpoint send_lines (ls : list (list Z)) u : U :=
  match ls with
  | [] => u
  | l :: ls => send_lines ls (send (str "ui_print " ++ l ++ [10]) u)
  end.
(** What [strtok] leaves of the string: it writes a NUL behind the first token. *)
Definition first_token (s : list Z) : list Z :=
  let skip := count_while (λ c, c =? 10) s in
  take (skip + count_while (λ c, negb (c =? 10)) (drop skip s)) s.
Definition ui_print_body (args : list (list Z)) u : outcome (answer * U) :=
  let buffer := concat args in
  mret (Text (first_token buffer), send (str "ui_print" ++ [10]) (send_lines (lines buffer) u)).

Definition run_program_body (args : list (list Z)) u : outcome (answer * U) :=
  let '(status, w) := run_child args (u_world u) in
  mret (Text (decimal status), set_world w u).

(** The file as a blob, or the message. *)
Definition read_file_body n (filename : list Z) u : outcome ((list Z + Z * data_ptr) * U) :=
  '(r, fc, s) ← LoadFileContents alloc_ok fuel filename uninit (u_ap u);
  let u := set_ap s u in
  mret (if negb (r =? 0) then
          inl (n ++ str "() loading " ++ quoted filename ++ str " failed: " ++ error_text (u_world u))
        else inr (fc_size fc, fc_data fc), u).

Definition apply_patch_body (source_filename target_filename target_sha1 : list Z) (target_size : Z)
    (patch_sha_str : list (list Z)) (patches : list Value) u : outcome (bool * U) :=
  '(result, s) ← applypatch alloc_ok fuel uninit source_filename target_filename target_sha1 target_size
    patch_sha_str patches (u_ap u);
  mret (result =? 0, set_ap s u).
Definition apply_patch_check_body (filename : list Z) (sha1s : list (list Z)) u : outcome (bool * U) :=
  '(result, s) ← applypatch_check alloc_ok fuel uninit filename sha1s (u_ap u);
  mret (result =? 0, set_ap s u).
(** [CacheSizeCheck(bytes) ? "" : "t"] *)
Definition cache_check_body (bytes : Z) u : outcome (bool * U) :=
  let '(r, w) := CacheSizeCheck bytes (u_world u) in
  mret (r =? 0, set_world w u).
End bodies.

(** ** Checksums as text *)
Definition hex_digit (d : Z) : Z := default 48 (str "0123456789abcdef" !! Z.to_nat d).
Definition PrintSha1 (digest : list Z) : list Z :=
  d ← take 20 digest; [hex_digit (Z.land (Z.shiftr d 4) 15); hex_digit (Z.land d 15)].

(** ** The functions *)

(** Most functions check the number of their arguments, read all or the first of them as
    strings, and go on with these. *)
Inductive plan (U : Type) :=
  | BadCount (msg : list Z)
  | Undefined
  | Reads (k : nat) (body : list (list Z) → U → outcome (answer * U))
  | ReadsAll (body : list (list Z) → U → outcome (answer * U)).
Arguments BadCount {U} msg.
Arguments Undefined {U}.
Arguments Reads {U} k body.
Arguments ReadsAll {U} body.

Section functions.
Context `{Bzip2} `{Sha1} `{!ShaDigest} `{Deflate} {F : Type} `{ArchiveFile F} `{Zlib}.
Context {W : Type} `{FileSystem W} `{FileWriter W} `{PatchOS W} `{MtdDriver W} `{MountOS W} `{RootOS W} `{UpdaterOS W}.
Context (package : ZipArchive) (alloc_ok : Z → bool) (fuel tries : nat) (uninit : FileContents).
Abbreviation U := (Updater F W).
(** Scripts may have other functions too. *)
Context {X : Type}.
Abbreviation Ex := (Expr X).
Implicit Types (n : list Z) (args : list Ex) (argc : nat).

Definition body1 {A} (body : list Z → U → outcome (A * U)) (ss : list (list Z)) : U → outcome (A * U) :=
  match ss with [a] => body a | _ => λ _, Fault OutOfBounds end.
Definition body2 {A} (body : list Z → list Z → U → outcome (A * U)) (ss : list (list Z)) : U → outcome (A * U) :=
  match ss with [a; b] => body a b | _ => λ _, Fault OutOfBounds end.
Definition body3 {A} (body : list Z → list Z → list Z → U → outcome (A * U)) (ss : list (list Z))
    : U → outcome (A * U) :=
  match ss with [a; b; c] => body a b c | _ => λ _, Fault OutOfBounds end.

(** [ErrorAbort(state, "%s() expects ..., got %d", name, argc)] *)
Definition bad_count n (text : string) argc : list Z := n ++ str text ++ decimal (Z.of_nat argc).
Definition expects n argc (k : nat) (text : string) (p : plan U) : plan U :=
  if negb (bool_decide (argc = k)) then BadCount (bad_count n text argc) else p.

Definition mount_plan n argc : plan U := expects n argc 3 "() expects 3 args, got " (Reads 3 (body3 (mount_body alloc_ok n))).
Definition is_mounted_plan n argc : plan U :=
  expects n argc 1 "() expects 1 arg, got " (Reads 1 (body1 (is_mounted_body alloc_ok))).
Definition unmount_plan n argc : plan U :=
  expects n argc 1 "() expects 1 arg, got " (Reads 1 (body1 (unmount_body alloc_ok))).
Definition format_plan n argc : plan U :=
  expects n argc 2 "() expects 2 args, got " (Reads 2 (body2 (format_body alloc_ok fuel n))).
Definition show_progress_plan n argc : plan U :=
  expects n argc 2 "() expects 2 args, got " (Reads 2 (body2 show_progress_body)).
Definition set_progress_plan n argc : plan U :=
  expects n argc 1 "() expects 1 arg, got " (Reads 1 (body1 set_progress_body)).
Definition package_extract_dir_plan n argc : plan U :=
  expects n argc 2 "() expects 2 args, got " (Reads 2 (body2 (package_extract_dir_body package alloc_ok fuel tries))).
(** The message has three places, but two values are passed for them. *)
Definition set_perm_plan n argc : plan U :=
  let recursive := strcmp n (str "set_perm_recursive") =? 0 in
  if (Z.of_nat argc <? 4 + (if recursive then 1 else 0)) then Undefined else ReadsAll (set_perm_body fuel n).
Definition getprop_plan n argc : plan U :=
  expects n argc 1 "() expects 1 arg, got " (Reads 1 (body1 getprop_body)).
Definition file_getprop_plan n argc : plan U := Reads 2 (body2 (file_getprop_body alloc_ok n)).
Definition write_raw_image_plan n argc : plan U := Reads 2 (body2 (write_raw_image_body alloc_ok fuel n)).
Definition ui_print_plan n argc : plan U := ReadsAll ui_print_body.
Definition run_program_plan n argc : plan U :=
  if bool_decide (argc < 1)%nat then BadCount (n ++ str "() expects at least 1 arg") else ReadsAll run_program_body.

(** The message of [PackageExtractFileFn] and its version with two arguments. *)
Definition package_extract_file_plan n argc : plan U :=
  if negb (bool_decide (argc = 1%nat)) && negb (bool_decide (argc = 2%nat)) then
    BadCount (bad_count n "() expects 1 or 2 args, got " argc)
  else Reads 2 (body2 (extract_to_file_body package fuel tries)).

Section code.
Variable EV : Ex → M U (option nat).

(** [done:] The arguments are freed, except the one that is the result. *)
Definition finish (ps : list nat) (a : answer) : M U (option nat) :=
  match a with
  | Aborts msg => _ ← ErrorAbort msg; _ ← free_all ps; mret None
  | Nothing => _ ← free_all ps; mret None
  | Text l => p ← strdup l; _ ← free_all ps; StringValue (Some p)
  | Argument i =>
      match ps !! i with
      | Some p => _ ← free_all (delete i ps); StringValue (Some p)
      | None => fault_m OutOfBounds
      end
  end.

Definition run_plan args (p : plan U) : M U (option nat) :=
  match p with
  | BadCount msg => ErrorAbort msg
  | Undefined => fault_m OutOfBounds
  | Reads k body =>
      r ← ReadArgs EV args k;
      match r with
      | None => mret None
      | Some ps => ss ← load_strs ps; a ← on_world (body ss); finish ps a
      end
  | ReadsAll body =>
      r ← ReadVarArgs EV args;
      match r with
      | None => mret None
      | Some (a, ps) =>
          ss ← load_strs ps;
          answer ← on_world (body ss);
          _ ← free a;
          finish ps answer
      end
  end.

(** [for (j = 0; j < i; ++i) free(paths[j]);] The loop does not change [j]. *)
Definition free_first (done : list nat) : M U unit :=
  match done with [] => mret tt | p :: _ => _ ← free p; free p end.
Fixpoint read_paths args (done : list nat) : M U (option (list nat)) :=
  match args with
  | [] => mret (Some done)
  | e :: args =>
      r ← Evaluate EV e;
      match r with
      | None => _ ← free_first done; mret None
      | Some p => read_paths args (done ++ [p])
      end
  end.
Definition delete_fn n args : M U (option nat) :=
  paths ← malloc Args;
  r ← read_paths args [];
  match r with
  | None => _ ← free paths; mret None
  | Some ps =>
      ss ← load_strs ps;
      a ← on_world (delete_body fuel n ss);
      _ ← free paths;
      finish ps a
  end.

(** With one argument, the value is allocated first; it is lost when the argument fails. *)
Definition extract_to_memory_fn args : M U (option nat) :=
  v ← malloc (Val VAL_BLOB (-1) None);
  r ← ReadArgs EV args 1;
  match r with
  | Some [p] =>
      zip_path ← load_str p;
      '(size, data) ← on_world (extract_to_memory_body package alloc_ok fuel zip_path);
      _ ← free p;
      match data with
      | Some data => d ← malloc (Bytes data); _ ← store v (Val VAL_BLOB size (Some d)); mret (Some v)
      | None => mret (Some v)
      end
  | _ => mret None
  end.

(** The target is not freed. *)
Definition symlink_fn n args : M U (option nat) :=
  match args with
  | [] => ErrorAbort (bad_count n "() expects 1+ args, got " 0)
  | e :: args =>
      target ← Evaluate EV e;
      match target with
      | None => mret None
      | Some p =>
          r ← ReadVarArgs EV args;
          match r with
          | None => _ ← free p; mret None
          | Some (a, ps) =>
              target ← load_str p;
              srcs ← load_strs ps;
              _ ← on_world (λ u, mret (tt, set_world (make_links target srcs (u_world u)) u));
              _ ← free_all ps;
              _ ← free a;
              new_string []
          end
      end
  end.

(** The argument is freed only when it is not a number. *)
Definition apply_patch_space_fn n args : M U (option nat) :=
  r ← ReadArgs EV args 1;
  match r with
  | Some [p] =>
      bytes_str ← load_str p;
      let bytes := u32 (strtol bytes_str).1 in
      if (bytes =? 0) && bool_decide ((strtol bytes_str).2 = O) then
        _ ← ErrorAbort (n ++ str "(): can't parse " ++ quoted bytes_str ++ str " as byte count" ++ [10; 10]);
        _ ← free p;
        mret None
      else
        ok ← on_world (cache_check_body bytes);
        new_string (truth ok)
  | _ => mret None
  end.

(** The checksums must be strings and the patches blobs. *)
Fixpoint check_patches n (i : Z) (vs : list nat) : M U bool :=
  match vs with
  | sha :: patch :: vs =>
      '(t, _, _) ← load_val sha;
      if negb (t =? VAL_STRING) then
        _ ← ErrorAbort (n ++ str "(): sha-1 #" ++ decimal i ++ str " is not string"); mret false
      else
        '(t, _, _) ← load_val patch;
        if negb (t =? VAL_BLOB) then
          _ ← ErrorAbort (n ++ str "(): patch #" ++ decimal i ++ str " is not blob"); mret false
        else check_patches n (i + 1) vs
  | _ => mret true
  end.

(** The strings of the checksums are kept, their values freed; the patches are kept. *)
Fixpoint take_patches (vs : list nat) : M U (list nat * list nat) :=
  match vs with
  | sha :: patch :: vs =>
      '(t, size, d) ← load_val sha;
      d ← lift (of_option NullPointer d);
      _ ← store sha (Val t size None);
      _ ← FreeValue (Some sha);
      '(shas, patches) ← take_patches vs;
      mret (d :: shas, patch :: patches)
  | _ => mret ([], [])
  end.
Fixpoint load_patches (vs : list nat) : M U (list Value) :=
  match vs with
  | [] => mret []
  | v :: vs =>
      '(t, size, d) ← load_val v;
      data ← (match d with Some p => load_str p | None => mret [] end);
      r ← load_patches vs;
      mret (mk_value t size data :: r)
  end.

(** Neither the four strings nor those of the checksums are freed after patching. *)
Definition apply_patch_fn n args : M U (option nat) :=
  if bool_decide (length args < 6)%nat || negb (Nat.even (length args)) then
    ErrorAbort (bad_count n "(): expected at least 6 args and an even number, got " (length args))
  else
    r ← ReadArgs EV args 4;
    match r with
    | Some [s; t; h; z] =>
        source_filename ← load_str s;
        target_filename ← load_str t;
        target_sha1 ← load_str h;
        target_size_str ← load_str z;
        let target_size := u32 (strtol target_size_str).1 in
        if (target_size =? 0) && bool_decide ((strtol target_size_str).2 = O) then
          _ ← ErrorAbort (n ++ str "(): can't parse " ++ quoted target_size_str ++ str " as byte count");
          _ ← free_all [s; t; h; z];
          mret None
        else
          r ← ReadValueVarArgs EV (drop 4 args);
          match r with
          | None => fault_m NullPointer
          | Some (a, vs) =>
              ok ← check_patches n 0 vs;
              if negb ok then _ ← free_values vs; _ ← free a; mret None
              else
                patch_sha_str ← malloc Args;
                '(shas, patches) ← take_patches vs;
                sha_strs ← load_strs shas;
                values ← load_patches patches;
                ok ← on_world (apply_patch_body alloc_ok fuel uninit source_filename target_filename target_sha1
                  target_size sha_strs values);
                _ ← free_values patches;
                _ ← free patch_sha_str;
                _ ← free a;
                new_string (truth ok)
          end
    | _ => mret None
    end.

(** The file name is not freed; the checksums are read although reading them failed. *)
Definition apply_patch_check_fn n args : M U (option nat) :=
  if bool_decide (length args < 1)%nat then
    ErrorAbort (bad_count n "(): expected at least 1 arg, got " (length args))
  else
    r ← ReadArgs EV args 1;
    match r with
    | Some [p] =>
        r ← ReadVarArgs EV (drop 1 args);
        match r with
        | None => fault_m NullPointer
        | Some (a, ps) =>
            filename ← load_str p;
            sha1s ← load_strs ps;
            ok ← on_world (apply_patch_check_body alloc_ok fuel uninit filename sha1s);
            _ ← free_all ps;
            _ ← free a;
            new_string (truth ok)
        end
    | _ => mret None
    end.

Definition read_file_fn n args : M U (option nat) :=
  if negb (bool_decide (length args = 1%nat)) then
    ErrorAbort (bad_count n "() expects 1 arg, got " (length args))
  else
    r ← ReadArgs EV args 1;
    match r with
    | Some [p] =>
        filename ← load_str p;
        v ← malloc (Val VAL_BLOB 0 None);
        r ← on_world (read_file_body alloc_ok fuel uninit n filename);
        match r with
        | inl msg => _ ← ErrorAbort msg; _ ← free p; _ ← free v; mret None
        | inr (size, Owned data) =>
            d ← malloc (Bytes data);
            _ ← store v (Val VAL_BLOB size (Some d));
            _ ← free p;
            mret (Some v)
        | inr (size, _) => _ ← store v (Val VAL_BLOB size None); _ ← free p; mret (Some v)
        end
    | _ => mret None
    end.

(** The argument that is the checksum, or a new empty string. *)
Definition sha_matches (digest s : list Z) : bool :=
  match ParseSha1 s with Some d => memcmp digest d SHA_DIGEST_SIZE =? 0 | None => false end.
Fixpoint match_args (digest : list Z) (vs : list nat) : M U (option nat) :=
  match vs with
  | [] => new_string []
  | v :: vs =>
      '(t, _, d) ← load_val v;
      found ← (if negb (t =? VAL_STRING) then mret false
               else d ← lift (of_option NullPointer d); s ← load_str d; mret (sha_matches digest s));
      if found : bool then _ ← free_values vs; mret (Some v)
      else _ ← FreeValue (Some v); match_args digest vs
  end.

(** The array of arguments and the buffer for a checksum are not freed. *)
Definition sha1_check_fn n args : M U (option nat) :=
  if bool_decide (length args < 1)%nat then ErrorAbort (n ++ str "() expects at least 1 arg")
  else
    r ← ReadValueVarArgs EV args;
    match r with
    | Some (_, v :: vs) =>
        '(_, size, d) ← load_val v;
        if size <? 0 then new_string []
        else
          d ← lift (of_option NullPointer d);
          data ← load_str d;
          data ← lift (rd_n data 0 size);
          let digest := SHA data in
          _ ← FreeValue (Some v);
          match vs with
          | [] => p ← malloc (Bytes (PrintSha1 digest)); StringValue (Some p)
          | _ => _ ← malloc (Bytes (replicate 20 0)); match_args digest vs
          end
    | _ => mret None
    end.

(** The functions that are not plans, and the others. *)
Definition plan_of (x : UpdaterFn) n argc : plan U :=
  match x with
  | MountFn => mount_plan n argc
  | IsMountedFn => is_mounted_plan n argc
  | UnmountFn => unmount_plan n argc
  | FormatFn => format_plan n argc
  | ShowProgressFn => show_progress_plan n argc
  | SetProgressFn => set_progress_plan n argc
  | PackageExtractDirFn => package_extract_dir_plan n argc
  | PackageExtractFileFn => package_extract_file_plan n argc
  | SetPermFn => set_perm_plan n argc
  | GetPropFn => getprop_plan n argc
  | FileGetPropFn => file_getprop_plan n argc
  | WriteRawImageFn => write_raw_image_plan n argc
  | UIPrintFn => ui_print_plan n argc
  | RunProgramFn => run_program_plan n argc
  | _ => Undefined
  end.
Definition updater_fn (x : UpdaterFn) n args : M U (option nat) :=
  match x with
  | DeleteFn => delete_fn n args
  | PackageExtractFileFn =>
      if bool_decide (length args = 1%nat) then extract_to_memory_fn args
      else run_plan args (plan_of x n (length args))
  | SymlinkFn => symlink_fn n args
  | ApplyPatchFn => apply_patch_fn n args
  | ApplyPatchCheckFn => apply_patch_check_fn n args
  | ApplyPatchSpaceFn => apply_patch_space_fn n args
  | ReadFileFn => read_file_fn n args
  | Sha1CheckFn => sha1_check_fn n args
  | _ => run_plan args (plan_of x n (length args))
  end.
End code.

(** ** What the functions mean *)
Section meaning.
Variable D : Ex → P U (option pval).

Definition p_abort_with (msg : list Z) : P U (option pval) := _ ← p_error (take 4095 msg); mret None.
Definition p_text (l : list Z) : P U (option pval) := mret (Some (PStr (c_string l))).

Definition p_finish (ss : list (list Z)) (a : answer) : P U (option pval) :=
  match a with
  | Aborts msg => p_abort_with msg
  | Nothing => mret None
  | Text l => p_text l
  | Argument i => l ← p_lift (of_option OutOfBounds (ss !! i)); mret (Some (PStr l))
  end.

Definition p_run_plan args (p : plan U) : P U (option pval) :=
  match p with
  | BadCount msg => p_abort_with msg
  | Undefined => p_lift (Fault OutOfBounds)
  | Reads k body =>
      r ← p_ReadArgs D args k;
      match r with None => mret None | Some ss => a ← p_on_world (body ss); p_finish ss a end
  | ReadsAll body =>
      r ← p_ReadArgs D args (length args);
      match r with None => mret None | Some ss => a ← p_on_world (body ss); p_finish ss a end
  end.

(** Only the first argument may fail. *)
Fixpoint p_paths args (first : bool) : P U (option (list (list Z))) :=
  match args with
  | [] => mret (Some [])
  | e :: args =>
      r ← p_string D e;
      match r with
      | None => if first then mret None else p_lift (Fault UseAfterFree)
      | Some s => rs ← p_paths args false; mret (cons s <$> rs)
      end
  end.
Definition p_delete n args : P U (option pval) :=
  r ← p_paths args true;
  match r with None => mret None | Some ss => a ← p_on_world (delete_body fuel n ss); p_finish ss a end.

Definition p_extract_to_memory args : P U (option pval) :=
  r ← p_ReadArgs D args 1;
  match r with
  | Some [zip_path] =>
      '(size, data) ← p_on_world (extract_to_memory_body package alloc_ok fuel zip_path);
      mret (Some (mk_pv VAL_BLOB (match data with Some _ => size | None => -1 end) data))
  | _ => mret None
  end.

Definition p_symlink n args : P U (option pval) :=
  match args with
  | [] => p_abort_with (bad_count n "() expects 1+ args, got " 0)
  | e :: args =>
      target ← p_string D e;
      match target with
      | None => mret None
      | Some target =>
          r ← p_ReadArgs D args (length args);
          match r with
          | None => mret None
          | Some srcs =>
              _ ← p_on_world (λ u, mret (tt, set_world (make_links target srcs (u_world u)) u));
              p_text []
          end
      end
  end.

Definition p_apply_patch_space n args : P U (option pval) :=
  r ← p_ReadArgs D args 1;
  match r with
  | Some [bytes_str] =>
      let bytes := u32 (strtol bytes_str).1 in
      if (bytes =? 0) && bool_decide ((strtol bytes_str).2 = O) then
        p_abort_with (n ++ str "(): can't parse " ++ quoted bytes_str ++ str " as byte count" ++ [10; 10])
      else ok ← p_on_world (cache_check_body bytes); p_text (truth ok)
  | _ => mret None
  end.

Fixpoint p_check_patches n (i : Z) (vs : list pval) : P U bool :=
  match vs with
  | sha :: patch :: vs =>
      if negb (pv_type sha =? VAL_STRING) then
        _ ← p_error (take 4095 (n ++ str "(): sha-1 #" ++ decimal i ++ str " is not string")); mret false
      else if negb (pv_type patch =? VAL_BLOB) then
        _ ← p_error (take 4095 (n ++ str "(): patch #" ++ decimal i ++ str " is not blob")); mret false
      else p_check_patches n (i + 1) vs
  | _ => mret true
  end.
Fixpoint p_take_patches (vs : list pval) : P U (list (list Z) * list pval) :=
  match vs with
  | sha :: patch :: vs =>
      d ← p_lift (of_option NullPointer (pv_data sha));
      '(shas, patches) ← p_take_patches vs;
      mret (d :: shas, patch :: patches)
  | _ => mret ([], [])
  end.
Definition patch_value (v : pval) : Value := mk_value (pv_type v) (pv_size v) (default [] (pv_data v)).

Definition p_apply_patch n args : P U (option pval) :=
  if bool_decide (length args < 6)%nat || negb (Nat.even (length args)) then
    p_abort_with (bad_count n "(): expected at least 6 args and an even number, got " (length args))
  else
    r ← p_ReadArgs D args 4;
    match r with
    | Some [source_filename; target_filename; target_sha1; target_size_str] =>
        let target_size := u32 (strtol target_size_str).1 in
        if (target_size =? 0) && bool_decide ((strtol target_size_str).2 = O) then
          p_abort_with (n ++ str "(): can't parse " ++ quoted target_size_str ++ str " as byte count")
        else
          r ← p_ReadValueArgs D (drop 4 args);
          match r with
          | None => p_lift (Fault NullPointer)
          | Some vs =>
              ok ← p_check_patches n 0 vs;
              if negb ok then mret None
              else
                '(sha_strs, patches) ← p_take_patches vs;
                ok ← p_on_world (apply_patch_body alloc_ok fuel uninit source_filename target_filename target_sha1
                  target_size sha_strs (patch_value <$> patches));
                p_text (truth ok)
          end
    | _ => mret None
    end.

Definition p_apply_patch_check n args : P U (option pval) :=
  if bool_decide (length args < 1)%nat then
    p_abort_with (bad_count n "(): expected at least 1 arg, got " (length args))
  else
    r ← p_ReadArgs D args 1;
    match r with
    | Some [filename] =>
        r ← p_ReadArgs D (drop 1 args) (length (drop 1 args));
        match r with
        | None => p_lift (Fault NullPointer)
        | Some sha1s => ok ← p_on_world (apply_patch_check_body alloc_ok fuel uninit filename sha1s); p_text (truth ok)
        end
    | _ => mret None
    end.

Definition p_read_file n args : P U (option pval) :=
  if negb (bool_decide (length args = 1%nat)) then
    p_abort_with (bad_count n "() expects 1 arg, got " (length args))
  else
    r ← p_ReadArgs D args 1;
    match r with
    | Some [filename] =>
        r ← p_on_world (read_file_body alloc_ok fuel uninit n filename);
        match r with
        | inl msg => p_abort_with msg
        | inr (size, Owned data) => mret (Some (mk_pv VAL_BLOB size (Some data)))
        | inr (size, _) => mret (Some (mk_pv VAL_BLOB size None))
        end
    | _ => mret None
    end.

Fixpoint p_match_args (digest : list Z) (vs : list pval) : P U (option pval) :=
  match vs with
  | [] => p_text []
  | v :: vs =>
      found ← (if negb (pv_type v =? VAL_STRING) then mret false
               else s ← p_lift (of_option NullPointer (pv_data v)); mret (sha_matches digest s));
      if found : bool then mret (Some v) else p_match_args digest vs
  end.
Definition p_sha1_check n args : P U (option pval) :=
  if bool_decide (length args < 1)%nat then p_abort_with (n ++ str "() expects at least 1 arg")
  else
    r ← p_ReadValueArgs D args;
    match r with
    | Some (v :: vs) =>
        if pv_size v <? 0 then p_text []
        else
          data ← p_lift (of_option NullPointer (pv_data v));
          data ← p_lift (rd_n data 0 (pv_size v));
          match vs with
          | [] => mret (Some (PStr (PrintSha1 (SHA data))))
          | _ => p_match_args (SHA data) vs
          end
    | _ => mret None
    end.

Definition p_updater_fn (x : UpdaterFn) n args : P U (option pval) :=
  match x with
  | DeleteFn => p_delete n args
  | PackageExtractFileFn =>
      if bool_decide (length args = 1%nat) then p_extract_to_memory args
      else p_run_plan args (plan_of x n (length args))
  | SymlinkFn => p_symlink n args
  | ApplyPatchFn => p_apply_patch n args
  | ApplyPatchCheckFn => p_apply_patch_check n args
  | ApplyPatchSpaceFn => p_apply_patch_space n args
  | ReadFileFn => p_read_file n args
  | Sha1CheckFn => p_sha1_check n args
  | _ => p_run_plan args (plan_of x n (length args))
  end.
End meaning.

(** ** The code against the meaning *)
Section refinement.
Context (leaky : bool) (EV : Ex → M U (option nat)) (D : Ex → P U (option pval)).
Context (EV_ok : ∀ e T, sim T (EV e) (D e) (val_of leaky T)).
Implicit Types (T : list (nat * block)).

(** The end of a function: [T0] is what it started with. *)
Abbreviation same T0 := (val_of leaky T0).

Lemma sim_abort_with T T0 msg : grows leaky T0 T →
  sim T (ErrorAbort msg) (p_abort_with msg) (same T0).
Proof.
  intros Hg. unfold p_abort_with. eapply (sim_ext _ _ (ErrorAbort msg ≫= mret)).
  { intros s. unfold mbind, M_bind. by destruct (ErrorAbort msg s) as [[]| |]. }
  { done. }
  apply sim_ErrorAbort. by apply sim_null.
Qed.

Lemma sim_text T T0 l : grows leaky T0 T → sim T (new_string l) (p_text l) (same T0).
Proof. intros Hg. by apply sim_new_string. Qed.

Lemma sim_fault {A B} T f R (m : M U A) (d : P U B) :
  (∀ s, m s = Fault f) → (∀ s, d s = Fault f) → sim T m d R.
Proof. intros Hm Hd s ps _. by rewrite Hd. Qed.

Lemma strings_at_delete ps ss i p l :
  ps !! i = Some p → ss !! i = Some l →
  strings_at ps ss ≡ₚ (p, Bytes l) :: strings_at (delete i ps) (delete i ss).
Proof.
  revert ss i. induction ps as [|q ps IH]; intros [|s ss] [|i] Hp Hl; try done; simpl in *.
  - by injection Hp as ->; injection Hl as ->.
  - rewrite (IH ss i Hp Hl). apply Permutation_swap.
Qed.

Lemma sim_finish T T0 T1 ps ss a :
  T ≡ₚ strings_at ps ss ++ T1 → length ps = length ss → grows leaky T0 T1 → Forall (λ l, Forall (λ c, c ≠ 0) l) ss →
  sim T (finish ps a) (p_finish ss a) (same T0).
Proof.
  intros HT Hlen Hg Hnul. destruct a as [msg| |l|i]; simpl.
  - apply sim_ErrorAbort. eapply sim_free_all; [exact HT|done|]. by apply sim_null.
  - eapply sim_free_all; [exact HT|done|]. by apply sim_null.
  - unfold strdup. apply sim_malloc. intros p.
    eapply (sim_free_all _ ((p, Bytes (c_string l)) :: T1)); [rewrite HT; apply Permutation_middle|done|].
    eapply sim_StringValue; [done|done|apply c_string_no_nul].
  - destruct (ps !! i) as [p|] eqn:Hp.
    + destruct (lookup_lt_is_Some_2 ss i) as [l Hl]; [rewrite <- Hlen; by eapply lookup_lt_Some|].
      rewrite Hl. cbn [of_option]. eapply (sim_ext T _ (free_all (delete i ps) ≫= λ _, StringValue (Some p)) _ (mret (Some (PStr l)))); [done|done|].
      eapply (sim_free_all _ ((p, Bytes l) :: T1) (delete i ps) (delete i ss)).
      * rewrite HT, (strings_at_delete _ _ _ _ _ Hp Hl). simpl. apply Permutation_middle.
      * rewrite !length_delete by eauto. by rewrite Hlen.
      * eapply sim_StringValue; [done|done|]. by eapply Forall_lookup_1 in Hnul.
    + apply lookup_ge_None in Hp. rewrite Hlen in Hp. apply lookup_ge_None in Hp. rewrite Hp. by apply sim_fault with OutOfBounds.
Qed.

Lemma sim_run_plan T args p : sim T (run_plan EV args p) (p_run_plan D args p) (same T).
Proof.
  destruct p as [msg| |k body|body]; simpl.
  - by apply sim_abort_with.
  - by apply sim_fault with OutOfBounds.
  - apply (sim_ReadArgs leaky); [done| |].
    + intros ps ls T1 Hlen Hn Hg Hnul. eapply sim_load_strs; [done|done|].
      apply sim_on_world. intros a. by eapply sim_finish.
    + intros T1 Hg. by apply sim_null.
  - apply (sim_ReadVarArgs leaky); [done| |].
    + intros a ps ls T1 Hlen Hn Hg Hnul. eapply sim_load_strs; [done|done|].
      apply sim_on_world. intros x.
      eapply (sim_free _ (strings_at ps ls ++ T1)); [symmetry; apply Permutation_middle|].
      by eapply sim_finish.
    + intros T1 Hg. by apply sim_null.
Qed.

Lemma sim_read_paths args done ls T T0 :
  T ≡ₚ strings_at done ls ++ T0 → length done = length ls →
  sim T (read_paths EV args done) (p_paths D args (bool_decide (done = []))) (strs_of leaky T0 T done (length args)).
Proof.
  revert done ls T T0. induction args as [|e args IH]; intros done ls T T0 Hp Hlen; simpl.
  { apply sim_ret. exists [], T. by rewrite app_nil_r. }
  eapply sim_string_step; [exact EV_ok| |].
  - intros p l T1 Hg0 Hl. pose proof Hg0 as Hg.
    rewrite Hp in Hg. apply grows_app in Hg as (T2 & HT2 & Hg). eapply sim_map_r.
    + pose proof (IH (done ++ [p]) (ls ++ [l]) ((p, Bytes l) :: T1) T2) as IH1.
      rewrite bool_decide_eq_false_2 in IH1 by (by destruct done). apply IH1.
      * rewrite strings_at_snoc by done. rewrite HT2. perm.
      * rewrite !length_app; simpl; lia.
    + intros [r|] [rs|] T'' Hrs; try done; simpl in Hrs |- *.
      * destruct Hrs as (new & T3 & -> & Hnew & Hn' & HT'' & Hg' & Hnul).
        apply grows_cons in Hg' as (T4 & HT4 & Hg'). exists (p :: new), T4.
        rewrite <- app_assoc. split; [done|]. split; [by simpl; rewrite Hnew|].
        split; [by simpl; rewrite Hn'|].
        split; [rewrite HT'', HT4; simpl; symmetry; apply Permutation_middle|].
        split; [by transitivity T1|by constructor].
      * by transitivity T2.
  - intros T1 Hg. rewrite Hp in Hg. apply grows_app in Hg as (T2 & HT2 & Hg).
    destruct done as [|p done], ls as [|l ls]; try done; simpl.
    + eapply (sim_ext _ _ (mret None)); [done|done|]. apply sim_ret. simpl in *. by rewrite HT2.
    + intros s ps Hs. cbn [p_lift]. unfold mbind, M_bind.
      assert (Hin : (p, Bytes l) ∈ T1) by (rewrite HT2; constructor).
      pose proof (state_is_lookup _ _ _ _ _ Hs Hin) as Hl. unfold free. rewrite Hl. simpl. by rewrite lookup_delete_eq.
Qed.

Lemma sim_delete_fn T n args : sim T (delete_fn EV n args) (p_delete D n args) (same T).
Proof.
  unfold delete_fn, p_delete. apply sim_malloc. intros a.
  eapply sim_bind.
  { pose proof (sim_read_paths args [] [] ((a, Args) :: T) ((a, Args) :: T)) as Hm1. by apply Hm1. }
  intros [ps|] [ls|] T' Hr; try done; simpl in Hr.
  - destruct Hr as (new & T1 & -> & Hlen & Hn & HT' & (T2 & HT2 & Hg)%grows_cons & Hnul). simpl app.
    eapply sim_load_strs; [exact HT'|done|]. apply sim_on_world. intros x.
    eapply (sim_free _ (strings_at new ls ++ T2) a); [rewrite HT', HT2; perm|].
    by eapply sim_finish.
  - apply grows_cons in Hr as (T2 & HT2 & Hg). eapply sim_free; [exact HT2|]. by apply sim_null.
Qed.

Lemma sim_read_file_fn T n args : sim T (read_file_fn EV n args) (p_read_file D n args) (same T).
Proof.
  unfold read_file_fn, p_read_file. destruct (negb _); [by apply sim_abort_with|].
  apply (sim_ReadArgs leaky); [done| |intros T1 Hg; by apply sim_null].
  intros [|p [|q ps]] [|l [|l2 ls]] T1 Hlen Hn Hg Hnul; simpl in *; try lia.
  eapply sim_load_str; [constructor|]. apply sim_malloc. intros v. apply sim_on_world.
  intros [msg|[size d]].
  - apply sim_ErrorAbort. eapply (sim_free _ ((v, _) :: T1) p); [apply Permutation_swap|].
    eapply sim_free; [done|]. by apply sim_null.
  - assert (Hnone : sim ((v, Val VAL_BLOB 0 None) :: (p, Bytes l) :: T1)
      ((_ ← store v (Val VAL_BLOB size None); _ ← free p; mret (Some v)) : M U (option nat))
      (mret (Some (mk_pv VAL_BLOB size None)) : P U (option pval)) (same T)).
    { eapply sim_store; [done|]. eapply (sim_free _ ((v, _) :: T1) p); [apply Permutation_swap|].
      apply sim_ret. exists None, [], T1. repeat split; done. }
    destruct d as [|d|]; [exact Hnone| |exact Hnone].
    apply sim_malloc. intros q.
    eapply (sim_store _ ((q, Bytes d) :: (p, Bytes l) :: T1) v); [perm|].
    eapply (sim_free _ ((v, _) :: (q, Bytes d) :: T1) p); [perm|].
    apply sim_ret. exists (Some q), [(q, Bytes d)], T1. repeat split; done.
Qed.

(** The other functions lose blocks. *)
Context (Hleaky : leaky = true).

Lemma grows_lost x T0 T : grows leaky T0 T → grows leaky T0 (x :: T).
Proof.
  rewrite Hleaky. intros (L & HL & _). exists (x :: L). by rewrite HL.
Qed.
Lemma grows_lost_app A T0 T : grows leaky T0 T → grows leaky T0 (A ++ T).
Proof. intros Hg. induction A as [|x A IH]; simpl; [done|]. by apply grows_lost. Qed.

Lemma sim_extract_to_memory_fn T args : sim T (extract_to_memory_fn EV args) (p_extract_to_memory D args) (same T).
Proof.
  unfold extract_to_memory_fn, p_extract_to_memory. apply sim_malloc. intros v.
  apply (sim_ReadArgs leaky); [done| |].
  - intros [|p [|q ps]] [|l [|l2 ls]] T1 Hlen Hn (T2 & HT2 & Hg)%grows_cons Hnul; simpl in *; try lia.
    eapply sim_load_str; [constructor|]. apply sim_on_world. intros [size data].
    eapply sim_free; [done|]. destruct data as [data|].
    + apply sim_malloc. intros q. eapply (sim_store _ ((q, Bytes data) :: T2) v); [rewrite HT2; apply Permutation_swap|].
      apply sim_ret. exists (Some q), [(q, Bytes data)], T2. repeat split; done.
    + apply sim_ret. exists None, [], T2. repeat split; done.
  - intros T1 (T2 & HT2 & Hg)%grows_cons. apply sim_null. rewrite HT2. by apply grows_lost.
Qed.

Lemma sim_symlink_fn T n args : sim T (symlink_fn EV n args) (p_symlink D n args) (same T).
Proof.
  destruct args as [|e args]; simpl; [by apply sim_abort_with|].
  eapply sim_string_step; [exact EV_ok| |intros T1 Hg; by apply sim_null].
  intros p l T1 Hg Hl. apply (sim_ReadVarArgs leaky); [done| |].
  - intros a ps ls T2 Hlen Hn (T3 & HT3 & Hg3)%grows_cons Hnul.
    eapply sim_load_str; [rewrite HT3; apply elem_of_app; right; do 2 constructor|].
    eapply sim_load_strs; [done|done|]. apply sim_on_world. intros [].
    eapply sim_free_all; [done|done|]. eapply sim_free; [done|].
    apply sim_text. rewrite HT3. apply grows_lost. by transitivity T1.
  - intros T2 (T3 & HT3 & Hg3)%grows_cons. eapply sim_free; [exact HT3|].
    apply sim_null. by transitivity T1.
Qed.

Lemma sim_apply_patch_space_fn T n args :
  sim T (apply_patch_space_fn EV n args) (p_apply_patch_space D n args) (same T).
Proof.
  unfold apply_patch_space_fn, p_apply_patch_space.
  apply (sim_ReadArgs leaky); [done| |intros T1 Hg; by apply sim_null].
  intros [|p [|q ps]] [|l [|l2 ls]] T1 Hlen Hn Hg Hnul; simpl in *; try lia.
  eapply sim_load_str; [constructor|]. cbv zeta. destruct (_ && _).
  - apply sim_ErrorAbort. eapply sim_free; [done|]. by apply sim_null.
  - apply sim_on_world. intros ok. apply sim_text. by apply grows_lost.
Qed.

Lemma sim_apply_patch_check_fn T n args :
  sim T (apply_patch_check_fn EV n args) (p_apply_patch_check D n args) (same T).
Proof.
  unfold apply_patch_check_fn, p_apply_patch_check. case_bool_decide; [by apply sim_abort_with|].
  apply (sim_ReadArgs leaky); [done| |intros T1 Hg; by apply sim_null].
  intros [|p [|q ps]] [|l [|l2 ls]] T1 Hlen Hn Hg Hnul; simpl in *; try lia.
  apply (sim_ReadVarArgs leaky); [done| |intros T2 Hg2; by apply sim_fault with NullPointer].
  intros a qs ss T2 Hlen2 Hn2 (T3 & HT3 & Hg3)%grows_cons Hnul2.
  eapply sim_load_str; [rewrite HT3; apply elem_of_app; right; do 2 constructor|].
  eapply sim_load_strs; [done|done|]. apply sim_on_world. intros ok.
  eapply sim_free_all; [done|done|]. eapply sim_free; [done|].
  apply sim_text. rewrite HT3. apply grows_lost. by transitivity T1.
Qed.

(** *** Values *)
Lemma sim_load_value {A B} T T1 v pv Bv (k : Z * Z * option nat → M U A) (d : P U B) R :
  T ≡ₚ Bv ++ T1 → value_at v pv Bv →
  (∀ q E, Bv = (v, Val (pv_type pv) (pv_size pv) q) :: E → data_at q (pv_data pv) E →
    sim T (k (pv_type pv, pv_size pv, q)) d R) →
  sim T (load_val v ≫= k) d R.
Proof.
  intros HT (q & E & HB & Hd & Hs) Hk. eapply sim_load_val; [rewrite HT, HB; constructor|]. by eapply Hk.
Qed.

(** What [pair] reads ahead: two values at the start. *)
Lemma values_at_pair v1 v2 vs pvs Bv : values_at (v1 :: v2 :: vs) pvs Bv →
  ∃ p1 p2 pvs' B1 B2 B3, pvs = p1 :: p2 :: pvs' ∧ Bv = B1 ++ B2 ++ B3 ∧
    value_at v1 p1 B1 ∧ value_at v2 p2 B2 ∧ values_at vs pvs' B3.
Proof.
  destruct pvs as [|p1 pvs]; [done|]. intros (B1 & B' & -> & Hv1 & H'). destruct pvs as [|p2 pvs]; [done|].
  destruct H' as (B2 & B3 & -> & Hv2 & Hv3). eauto 20.
Qed.
Lemma values_at_single v pvs Bv : values_at [v] pvs Bv → ∃ p, pvs = [p].
Proof.
  destruct pvs as [|p1 [|p2 pvs]]; [done|eauto|]. by intros (B1 & B2 & _ & _ & []).
Qed.
Lemma pairs_ind (Q : list nat → Prop) :
  Q [] → (∀ v, Q [v]) → (∀ v1 v2 vs, Q vs → Q (v1 :: v2 :: vs)) → ∀ vs, Q vs.
Proof.
  intros H0' H1' H2' vs. assert (Q vs ∧ ∀ v, Q (v :: vs)) as [? _]; [|done].
  induction vs as [|v vs [IH1 IH2]]; eauto.
Qed.

Lemma sim_check_patches n i vs pvs Bv T T1 : T ≡ₚ Bv ++ T1 → values_at vs pvs Bv →
  sim T (check_patches n i vs) (p_check_patches n i pvs) (λ a b T', a = b ∧ T' ≡ₚ T).
Proof.
  revert i pvs Bv T1. induction vs as [|v|v1 v2 vs IH] using pairs_ind; intros i pvs Bv T1 HT Hv.
  - destruct pvs; [|done]. by apply sim_ret.
  - apply values_at_single in Hv as [p ->]. by apply sim_ret.
  - apply values_at_pair in Hv as (p1 & p2 & pvs' & B1 & B2 & B3 & -> & -> & Hv1 & Hv2 & Hv3). simpl.
    eapply (sim_load_value _ (B2 ++ B3 ++ T1) _ _ B1); [rewrite HT; perm|exact Hv1|]. intros q1 E1 _ _.
    destruct (negb (pv_type p1 =? VAL_STRING)); [apply sim_ErrorAbort; by apply sim_ret|].
    eapply (sim_load_value _ (B1 ++ B3 ++ T1) _ _ B2); [rewrite HT; perm|exact Hv2|]. intros q2 E2 _ _.
    destruct (negb (pv_type p2 =? VAL_BLOB)); [apply sim_ErrorAbort; by apply sim_ret|].
    eapply (IH _ _ B3 (B1 ++ B2 ++ T1)); [rewrite HT; perm|done].
Qed.

Lemma sim_take_patches vs pvs Bv T T1 : T ≡ₚ Bv ++ T1 → values_at vs pvs Bv →
  sim T (take_patches vs) (p_take_patches pvs) (λ a b T', length a.1 = length b.1 ∧
    ∃ B' L, values_at a.2 b.2 B' ∧ T' ≡ₚ strings_at a.1 b.1 ++ B' ++ L ++ T1).
Proof.
  revert pvs Bv T T1. induction vs as [|v|v1 v2 vs IH] using pairs_ind; intros pvs Bv T T1 HT Hv.
  - destruct pvs; [|done]. apply sim_ret. split; [done|]. by exists [], Bv.
  - apply values_at_single in Hv as [p ->]. apply sim_ret. split; [done|]. by exists [], Bv.
  - apply values_at_pair in Hv as (p1 & p2 & pvs' & B1 & B2 & B3 & -> & -> & Hv1 & Hv2 & Hv3). simpl.
    eapply (sim_load_value _ (B2 ++ B3 ++ T1) _ _ B1); [rewrite HT; perm|exact Hv1|]. intros q1 E1 -> Hd.
    destruct q1 as [q1|], (pv_data p1) as [l1|]; simpl in Hd; try done.
    subst E1.
    cbn [of_option]. eapply (sim_ext _ _ (store v1 _ ≫= _) _ (p_take_patches pvs' ≫= _)); [done|done|].
    eapply (sim_store _ ((q1, Bytes l1) :: B2 ++ B3 ++ T1) v1); [rewrite HT; perm|].
    eapply (sim_FreeValue _ ((q1, Bytes l1) :: B2 ++ B3 ++ T1) v1 _ _ None None []); [perm|done|].
    eapply sim_bind; [apply (IH pvs' B3 _ ((q1, Bytes l1) :: B2 ++ T1)); [perm|done]|].
    intros [ds ps] [ls rest] T' [Hlen (B' & L & Hps & HT')]. apply sim_ret. simpl in *. split; [by rewrite Hlen|].
    exists (B2 ++ B'), L. split; [by exists B2, B'|]. rewrite HT'. perm.
Qed.

Lemma sim_load_patches {A B} vs pvs Bv T T1 (k : list Value → M U A) (d : P U B) R :
  T ≡ₚ Bv ++ T1 → values_at vs pvs Bv → sim T (k (patch_value <$> pvs)) d R → sim T (load_patches vs ≫= k) d R.
Proof.
  revert pvs Bv T1 k. induction vs as [|v vs IH]; intros [|pv pvs] Bv T1 k HT Hv Hk; try done.
  destruct Hv as (B1 & B2 & -> & Hv1 & Hv2). simpl. apply sim_assoc.
  eapply (sim_load_value _ (B2 ++ T1) _ _ B1); [rewrite HT; perm|exact Hv1|]. intros q E HE Hd.
  assert (Hdata : sim T ((match q with Some p => load_str p | None => mret [] end) ≫= λ data,
    load_patches vs ≫= λ r, k (mk_value (pv_type pv) (pv_size pv) data :: r)) d R).
  { assert (Hrest : sim T (load_patches vs ≫= λ r, k (patch_value pv :: r)) d R).
    { eapply (IH _ B2 (B1 ++ T1)); [rewrite HT; perm|done|exact Hk]. }
    unfold patch_value in Hrest. destruct q as [q|], (pv_data pv) as [l|]; try done; simpl in Hd.
    eapply sim_load_str; [|exact Hrest]. rewrite HT, HE, Hd. do 2 constructor. }
  eapply sim_ext; [|done|exact Hdata]. intros s. unfold mbind, M_bind. destruct q as [q|].
  - destruct (load_str q s) as [[a s']| |]; [|done..]. simpl. by destruct (load_patches vs s') as [[r s'']| |].
  - simpl. by destruct (load_patches vs s) as [[r s'']| |].
Qed.

Lemma sim_apply_patch_fn T n args : sim T (apply_patch_fn EV n args) (p_apply_patch D n args) (same T).
Proof.
  unfold apply_patch_fn, p_apply_patch. destruct (_ || _); [by apply sim_abort_with|].
  apply (sim_ReadArgs leaky); [done| |intros T1 Hg; by apply sim_null].
  intros [|s [|t [|h [|z [|z2 ps]]]]] [|ls [|lt [|lh [|lz [|lz2 ll]]]]] T1 Hlen Hn Hg Hnul; simpl in Hlen, Hn; try lia.
  unfold strings_at. cbn [zip_with app]. set (T2 := (s, Bytes ls) :: _).
  assert (Hg2 : grows leaky T T2) by (subst T2; do 4 apply grows_lost; exact Hg).
  eapply sim_load_str; [subst T2; constructor|]. eapply sim_load_str; [subst T2; do 2 constructor|].
  eapply sim_load_str; [subst T2; do 3 constructor|]. eapply sim_load_str; [subst T2; do 4 constructor|]. cbv zeta.
  destruct (_ && _).
  { apply sim_ErrorAbort. eapply (sim_free_all _ T1 [s; t; h; z] [ls; lt; lh; lz]); [done|done|]. by apply sim_null. }
  apply (sim_ReadValueVarArgs leaky); [done| |intros T3 _; by apply sim_fault with NullPointer].
  intros a vs pvs Bv T3 Hv Hg3. assert (Hg4 : grows leaky T T3) by by transitivity T2. clearbody T2.
  eapply sim_bind; [by eapply sim_check_patches|]. intros ok ? T4 [<- HT4].
  destruct ok; cbn [negb].
  - apply sim_malloc. intros b.
    eapply sim_bind; [apply (sim_take_patches vs pvs Bv _ ((b, Args) :: (a, Args) :: T3)); [rewrite HT4; perm|done]|].
    intros [ds qs] [lds rest] T5 [Hds (B' & L & Hqs & HT5)]. simpl in *.
    eapply sim_load_strs; [exact HT5|done|].
    eapply (sim_load_patches qs rest B' _ (strings_at ds lds ++ L ++ (b, Args) :: (a, Args) :: T3)); [rewrite HT5; perm|done|].
    apply sim_on_world. intros ok.
    eapply (sim_free_values qs rest _ ((b, Args) :: (a, Args) :: strings_at ds lds ++ L ++ T3) B'); [rewrite HT5; perm|done|].
    eapply sim_free; [done|]. eapply sim_free; [done|].
    apply sim_text. by do 2 apply grows_lost_app.
  - eapply sim_free_values; [exact HT4|exact Hv|]. eapply sim_free; [done|]. by apply sim_null.
Qed.

Lemma sim_match_args digest vs pvs Bv T T0 T1 : T ≡ₚ Bv ++ T1 → values_at vs pvs Bv → grows leaky T0 T1 →
  sim T (match_args digest vs) (p_match_args digest pvs) (same T0).
Proof.
  revert pvs Bv T. induction vs as [|v vs IH]; intros [|pv pvs] Bv T HT Hv Hg; try done.
  { simpl in Hv. subst Bv. apply sim_text. by rewrite HT. }
  destruct Hv as (B1 & B2 & -> & Hv1 & Hv2). cbn [match_args p_match_args].
  eapply (sim_load_value _ (B2 ++ T1) _ _ B1); [rewrite HT; perm|exact Hv1|]. intros q E HE Hd.
  eapply (sim_bind _ _ _ (λ a b T', a = b ∧ T' ≡ₚ T)).
  - destruct (negb _); [by apply sim_ret|].
    destruct q as [q|], (pv_data pv) as [l|]; try done; simpl in Hd.
    eapply (sim_ext _ _ (load_str q ≫= _) _ (mret (sha_matches digest l))); [done|done|].
    eapply sim_load_str; [rewrite HT, HE, Hd; do 2 constructor|]. by apply sim_ret.
  - intros found ? T' [<- HT']. destruct found.
    + eapply (sim_free_values vs pvs _ (B1 ++ T1) B2); [rewrite HT', HT; perm|done|].
      apply sim_ret. apply val_of_value. by exists B1, T1.
    + eapply (sim_FreeValue_at _ (B2 ++ T1)); [rewrite HT', HT, <- app_assoc; done|exact Hv1|]. by eapply IH.
Qed.

Lemma PrintSha1_no_nul digest : Forall (λ c, c ≠ 0) (PrintSha1 digest).
Proof.
  unfold PrintSha1. apply Forall_bind, Forall_true. intros d.
  assert (Hd : ∀ k, hex_digit k ≠ 0).
  { intros k. unfold hex_digit. destruct (str "0123456789abcdef" !! Z.to_nat k) as [c|] eqn:Hc; [|done].
    assert (Hall : Forall (λ c, c ≠ 0) (str "0123456789abcdef")) by by repeat constructor.
    by eapply Forall_lookup_1 in Hall. }
  by repeat constructor.
Qed.

Lemma sim_sha1_check_fn T n args : sim T (sha1_check_fn EV n args) (p_sha1_check D n args) (same T).
Proof.
  unfold sha1_check_fn, p_sha1_check. case_bool_decide; [by apply sim_abort_with|].
  apply (sim_ReadValueVarArgs leaky); [done| |intros T1 Hg; by apply sim_null].
  intros a [|v vs] [|pv pvs] Bv T1 Hv Hg; try done.
  { simpl in Hv. subst Bv. apply sim_null. by apply grows_lost. }
  destruct Hv as (B1 & B2 & -> & Hv1 & Hv2).
  eapply (sim_load_value _ (B2 ++ (a, Args) :: T1) _ _ B1); [perm|exact Hv1|]. intros q E HE Hd.
  destruct (_ <? 0). { apply sim_text. apply grows_lost_app. by apply grows_lost. }
  destruct q as [q|], (pv_data pv) as [l|]; try done; simpl in Hd.
  cbn [of_option]. eapply (sim_ext _ _ (load_str q ≫= _) _ (p_lift (rd_n l 0 (pv_size pv)) ≫= _)); [done|done|].
  eapply sim_load_str; [rewrite HE, Hd; do 2 constructor|]. apply sim_lift. intros data _. cbv zeta.
  eapply (sim_FreeValue_at _ (B2 ++ (a, Args) :: T1) v pv B1); [perm|exact Hv1|].
  destruct vs as [|v2 vs], pvs as [|pv2 pvs]; try done.
  - apply sim_malloc. intros p. simpl in Hv2. subst B2.
    eapply sim_StringValue; [done|by apply grows_lost|apply PrintSha1_no_nul].
  - apply sim_malloc. intros b.
    eapply (sim_match_args _ _ _ B2 _ _ ((b, Bytes (replicate 20 0)) :: (a, Args) :: T1)); [perm|exact Hv2|].
    by do 2 apply grows_lost.
Qed.

Lemma sim_updater_fn x T n args : sim T (updater_fn EV x n args) (p_updater_fn D x n args) (same T).
Proof.
  destruct x; cbn [updater_fn p_updater_fn];
    auto using sim_run_plan, sim_delete_fn, sim_read_file_fn, sim_symlink_fn, sim_apply_patch_fn,
      sim_apply_patch_check_fn, sim_apply_patch_space_fn, sim_sha1_check_fn.
  case_bool_decide; [apply sim_extract_to_memory_fn|apply sim_run_plan].
Qed.
End refinement.

(** The functions that lose nothing. *)
Definition frees_all (x : UpdaterFn) : bool :=
  match x with
  | PackageExtractFileFn | SymlinkFn | ApplyPatchFn | ApplyPatchCheckFn | ApplyPatchSpaceFn | Sha1CheckFn => false
  | _ => true
  end.
Lemma sim_frees_all EV D (EV_ok : ∀ e T, sim T (EV e) (D e) (val_of false T)) x n args T :
  frees_all x = true → sim T (updater_fn EV x n args) (p_updater_fn D x n args) (val_of false T).
Proof.
  destruct x; cbn [updater_fn p_updater_fn frees_all]; try done; intros Hx;
    try by apply (sim_run_plan false EV D EV_ok).
  - by apply sim_delete_fn.
  - by apply sim_read_file_fn.
Qed.
End functions.

(** All functions of the updater, and those that lose nothing, as extensions of edify. *)
Section extensions.
Context `{Bzip2} `{Sha1} `{!ShaDigest} `{Deflate} {F : Type} `{ArchiveFile F} `{Zlib}.
Context {W : Type} `{FileSystem W} `{FileWriter W} `{PatchOS W} `{MtdDriver W} `{MountOS W} `{RootOS W} `{UpdaterOS W}.
Context (package : ZipArchive) (alloc_ok : Z → bool) (fuel tries : nat) (uninit : FileContents).
Abbreviation U := (Updater F W).

#[global] Instance updater_functions : Extension U UpdaterFn :=
  λ EV, updater_fn package alloc_ok fuel tries uninit EV.
#[global] Instance updater_meaning : Extension_meaning U UpdaterFn :=
  λ D, p_updater_fn package alloc_ok fuel tries uninit D.
#[global] Instance updater_laws : ExtensionLaws U true UpdaterFn.
Proof. intros EV D HD x n args T. by apply sim_updater_fn. Qed.

Definition FreeingFn : Type := { x : UpdaterFn | frees_all x = true }.
#[global] Instance freeing_functions : Extension U FreeingFn :=
  λ EV x, updater_fn package alloc_ok fuel tries uninit EV (proj1_sig x).
#[global] Instance freeing_meaning : Extension_meaning U FreeingFn :=
  λ D x, p_updater_fn package alloc_ok fuel tries uninit D (proj1_sig x).
#[global] Instance freeing_laws : ExtensionLaws U false FreeingFn.
Proof. intros EV D HD [x Hx] n args T. by apply sim_frees_all. Qed.
End extensions.

(** ** The program

    updater.c. The parser of edify is a parameter: it gets the table of functions and the
    script, and answers its result, the number of errors and the expression. So is the
    function of the generated register.inc. *)
Section program.
Context `{Bzip2} `{Sha1} `{!ShaDigest} `{Deflate} {F : Type} `{ArchiveFile F} `{Zlib}.
Context {W : Type} `{FileSystem W} `{FileWriter W} `{PatchOS W} `{MtdDriver W} `{MountOS W} `{RootOS W} `{UpdaterOS W}.
Context `{SafeIop}.
Context (alloc_ok : Z → bool) (fuel tries depth : nat) (uninit : FileContents).
Abbreviation U := (Updater F W).
Abbreviation Ex := (Expr UpdaterFn).
Abbreviation Table := (FnTable (X := UpdaterFn)).
Context (RegisterDeviceExtensions : Table → outcome Table) (yyparse : Table → list Z → Z * Z * Ex).
Implicit Types (u : U).

Definition SCRIPT_NAME : list Z := str "META-INF/com/google/android/updater-script".

(** The table of [RegisterInstallFunctions]. *)
Definition install_functions : list (list Z * Function UpdaterFn) :=
  [(str "mount", Other MountFn); (str "is_mounted", Other IsMountedFn); (str "unmount", Other UnmountFn);
   (str "format", Other FormatFn); (str "show_progress", Other ShowProgressFn);
   (str "set_progress", Other SetProgressFn); (str "delete", Other DeleteFn);
   (str "delete_recursive", Other DeleteFn); (str "package_extract_dir", Other PackageExtractDirFn);
   (str "package_extract_file", Other PackageExtractFileFn); (str "symlink", Other SymlinkFn);
   (str "set_perm", Other SetPermFn); (str "set_perm_recursive", Other SetPermFn);
   (str "getprop", Other GetPropFn); (str "file_getprop", Other FileGetPropFn);
   (str "write_raw_image", Other WriteRawImageFn); (str "apply_patch", Other ApplyPatchFn);
   (str "apply_patch_check", Other ApplyPatchCheckFn); (str "apply_patch_space", Other ApplyPatchSpaceFn);
   (str "read_file", Other ReadFileFn); (str "sha1_check", Other Sha1CheckFn); (str "ui_print", Other UIPrintFn);
   (str "run_program", Other RunProgramFn)].
Definition RegisterInstallFunctions : FnTable → outcome FnTable := register_all install_functions.

Definition functions_table : outcome Table :=
  t ← RegisterBuiltins no_functions;
  t ← RegisterInstallFunctions t;
  t ← RegisterDeviceExtensions t;
  FinishRegistration t.

(** The script, or the exit status without one. *)
Definition read_script (za : ZipArchive) u : outcome ((Z + list Z) * U) :=
  p ← mzFindZipEntry za SCRIPT_NAME;
  match p with
  | ZNull => mret (inl 4, u)
  | ZTomb | ZName _ => Fault OutOfBounds
  | ZEntry i =>
      let entry := entry_at (za_pEntries za) i in
      let len := uncompLen entry in
      '(ok, f, script) ← mzReadZipEntry fuel (u_file u) entry (replicate (Z.to_nat (u32 (len + 1))) 0) len;
      let u := set_package f u in
      if negb ok then mret (inl 5, u)
      else script ← wr script len 0; mret (inr script, u)
  end.

(** The lines that the parent process shows when there is no result. *)
Definition report (errmsg : option (list Z)) u : U :=
  match errmsg with
  | None => send (str "ui_print script aborted (no error message)" ++ [10]) u
  | Some m => send (str "ui_print" ++ [10]) (send_lines (lines m) u)
  end.

Definition run_script (za : ZipArchive) (script : list Z) (root : Ex) u : outcome (Z * U) :=
  '(result, s) ← Evaluate (@EvaluateValue _ _ (updater_functions za alloc_ok fuel tries uninit) depth) root
    (mk_state script None ∅ [] [] u);
  match result with
  | None =>
      match errmsg s with
      | None => mret (7, report None (Edify.world s))
      | Some p => '(m, s) ← load_str p s; '(_, s) ← free p s; mret (7, report (Some m) (Edify.world s))
      end
  | Some p => '(_, s) ← free p s; mret (0, Edify.world s)
  end.

Definition version_ok (version : list Z) : bool :=
  ((char_at version 0 =? 49) || (char_at version 0 =? 50) || (char_at version 0 =? 51)) && (char_at version 1 =? 0).

(** [main]; [run] is what it does with the script. *)
Definition main_with (run : ZipArchive → list Z → Ex → U → outcome (Z * U)) (argv : list (list Z)) (fe : FileEnv) u
    : outcome (Z * U) :=
  match argv with
  | [_; version; _; _] =>
      if negb (version_ok version) then mret (2, u)
      else
        '(err, za, _) ← mzOpenZipArchive alloc_ok fe;
        if negb (err =? 0) then mret (3, u)
        else
          '(r, u) ← read_script za u;
          match r with
          | inl status => mret (status, u)
          | inr script =>
              t ← functions_table;
              let '(error, error_count, root) := yyparse t (c_string script) in
              if negb (error =? 0) || (0 <? error_count) then mret (6, u) else run za script root u
          end
  | _ => mret (1, u)
  end.
Definition main := main_with run_script.

(** What the script means, without memory. *)
Definition script_meaning (za : ZipArchive) (script : list Z) (root : Ex) u : outcome (Z * U) :=
  '(r, ps) ← p_string (@denote _ _ (updater_meaning za alloc_ok fuel tries uninit) depth) root
    (mk_ps script None [] [] u);
  mret (match r with
        | None => (7, report (p_err ps) (p_world ps))
        | Some _ => (0, p_world ps)
        end).

Lemma run_script_meaning za script root u : run_script za script root u = script_meaning za script root u.
Proof.
  unfold run_script, script_meaning.
  assert (Hinit : state_is (mk_state script None ∅ [] [] u) [] (mk_ps script None [] [] u)).
  { do 4 (split; [done|]). exists []. split; [done|]. split; [constructor|done]. }
  pose proof (@Evaluate_sim _ _ _ _ true (updater_laws za alloc_ok fuel tries uninit) depth root [])
    as Hsim.
  specialize (Hsim (mk_state script None ∅ [] [] u) (mk_ps script None [] [] u)).
  destruct (p_string _ root _) as [[b ps]|f|].
  - destruct Hsim as (a & s & T & -> & Hs & HR).
    { exact Hinit. }
    cbn [mbind outcome_bind]. pose proof Hs as (_ & _ & _ & Hw & E & Hh & Hnd & He).
    destruct a as [p|], b as [l|]; try done; simpl in HR.
    + destruct HR as (T1 & HT & _). unfold free.
      rewrite (state_is_lookup _ _ _ p (Bytes l) Hs) by (rewrite HT; constructor). simpl. by rewrite Hw.
    + destruct (errmsg s) as [q|], (p_err ps) as [m|]; try done; simpl; [|by rewrite Hw].
      assert (Hq : heap s !! q = Some (Bytes m)).
      { rewrite Hh, He. simpl. by rewrite lookup_insert_eq. }
      unfold load_str, load, mbind, M_bind, free. rewrite Hq. simpl. unfold mret, M_ret. simpl.
      rewrite Hq. simpl. by rewrite Hw.
  - by rewrite Hsim.
  - by rewrite Hsim.
Qed.
End program.

(** ** A system *)
Module UpdaterDemo.
#[export] Existing Instances BzDemo.toy_bzip2 ImgDemo.toy_sha ImgDemo.toy_deflate FsDemo.os
  ApplyDemo.toy_digest ApplyDemo.no_flash ExtractDemo.mem_archive ExtractDemo.toy_zlib.
Abbreviation W := FsDemo.fs.

(** It has neither directories nor mounts. *)
#[export] Instance no_dirs : FileSystem W := {|
  DirStream := unit;
  DirUtil.sys_stat _ w := (inl 2, w);
  sys_lstat _ w := (inl 2, w);
  DirUtil.sys_mkdir _ _ w := (inl 2, w);
  sys_utime _ _ w := (inl 2, w);
  DirUtil.sys_unlink _ w := (inl 2, w);
  sys_rmdir _ w := (inl 2, w);
  DirUtil.sys_chown _ _ _ w := (inl 2, w);
  DirUtil.sys_chmod _ _ w := (inl 2, w);
  sys_symlink _ _ w := (inl 2, w);
  sys_opendir _ w := (inl 2, w);
  sys_readdir _ w := (inl 2, w);
  sys_closedir _ w := (inl 2, w)
|}.
#[export] Instance no_writer : FileWriter W := {|
  sys_creat _ _ w := (inl 2, w);
  ZipExtract.sys_write _ _ w := (-1, 5, w);
  ZipExtract.sys_close _ w := w
|}.
#[export] Instance no_mounts : MountOS W := {| proc_mounts _ := None; sys_umount _ w := (-1, w) |}.
#[export] Instance no_mkdir : RootOS W := {| Roots.sys_mkdir _ _ w := (-1, w) |}.
#[export] Instance updater_os : UpdaterOS W := {|
  property_get key _ := if bool_decide (key = str "ro.product") then str "milestone" else [];
  run_child _ w := (0, w);
  Stream := list Z;
  c_fopen path w := (w.1 path, w);
  c_fread f n w := (take (Z.to_nat n) f, drop (Z.to_nat n) f, w);
  c_fclose _ w := w;
  error_text _ := str "error";
  show_fraction s := s
|}.

Definition empty_package : ZipArchive := mk_archive 3 0 [] None None.
Definition archive : ExtractDemo.mem_file := ExtractDemo.mk_mem [] 0.
Definition init (files : list (list Z * list Z)) : Updater ExtractDemo.mem_file W :=
  mk_updater archive (ApplyDemo.with_files files) g_mounts_state [] [].
Definition call (f : UpdaterFn) (args : list (Expr UpdaterFn)) : Expr UpdaterFn := mk_expr (Other f) (str "f") args 0 0.
Definition lit (x : string) : Expr UpdaterFn := mk_expr Literal (str x) [] 0 0.
Definition op (f : Function UpdaterFn) (args : list (Expr UpdaterFn)) : Expr UpdaterFn := Build f args 0 0.
Definition run (files : list (list Z * list Z)) (e : Expr UpdaterFn) : outcome (Z * list (list Z)) :=
  '(r, u) ← run_script (λ _, true) 50 50 9 ApplyDemo.junk empty_package [] e (init files);
  mret (r, cmd_pipe u).

Definition build_prop : list Z :=
  str "# comment" ++ [10; 10] ++ str "ro.product = milestone  " ++ [10] ++ str "ro.x=1" ++ [10].
Definition props := [(str "/build.prop", build_prop)].

Example aborts : run [] (op SequenceFn [call UIPrintFn [lit "hello"];
    op AbortFn [op ConcatFn [lit "bad "; call GetPropFn [lit "ro.product"]]]]) =
  Ret (7, [str "ui_print hello" ++ [10]; str "ui_print" ++ [10]; str "ui_print bad milestone" ++ [10];
           str "ui_print" ++ [10]]).
Proof. vm_compute. reflexivity. Qed.
Example reads_property : run props (op AssertFn [op EqualityFn
    [call FileGetPropFn [lit "/build.prop"; lit "ro.product"]; lit "milestone"]]) = Ret (0, []).
Proof. vm_compute. reflexivity. Qed.

(** The value of [ui_print] ends at its first line break, that of [sha1_check] is the checksum
    of what [read_file] gives. *)
Example ui_print_value :
  run [] (op AssertFn [op EqualityFn [call UIPrintFn [mk_expr Literal (str "a" ++ [10] ++ str "b") [] 0 0]; lit "a"]]) =
  Ret (0, [str "ui_print a" ++ [10]; str "ui_print b" ++ [10]; str "ui_print" ++ [10]]).
Proof. vm_compute. reflexivity. Qed.
Example checksum : run props (op AssertFn [op EqualityFn
    [call Sha1CheckFn [call ReadFileFn [lit "/build.prop"]]; mk_expr Literal (PrintSha1 (SHA build_prop)) [] 0 0]]) = Ret (0, []).
Proof. vm_compute. reflexivity. Qed.

(** When a later argument fails, [delete] frees its first argument twice. *)
Lemma delete_frees_twice : run [] (call DeleteFn [lit "a"; op AbortFn []]) = Fault UseAfterFree.
Proof. vm_compute. reflexivity. Qed.
(** A file of properties that has no line. *)
Lemma file_getprop_without_lines :
  run [(str "/p", [])] (call FileGetPropFn [lit "/p"; lit "x"]) = Fault NullPointer.
Proof. vm_compute. reflexivity. Qed.
(** The message for too few arguments has a place for a value that is not passed. *)
Lemma set_perm_message : run [] (call SetPermFn []) = Fault OutOfBounds.
Proof. vm_compute. reflexivity. Qed.
(** Arguments that fail, of functions that do not check. *)
Lemma apply_patch_check_null : run [] (call ApplyPatchCheckFn [lit "f"; op AbortFn []]) = Fault NullPointer.
Proof. vm_compute. reflexivity. Qed.
Lemma file_getprop_arguments : run [] (call FileGetPropFn [lit "f"]) = Fault OutOfBounds.
Proof. vm_compute. reflexivity. Qed.

(** How many blocks an evaluation leaves, besides its value and the error message. *)
Definition left_over (e : Expr UpdaterFn) : option nat :=
  match Evaluate (@EvaluateValue _ _ (updater_functions empty_package (λ _, true) 50 50 ApplyDemo.junk) 9) e
    (mk_state [] None ∅ [] [] (init [])) with
  | Ret (r, s) => Some (length (map_to_list (rest s)) - match r with Some _ => 1 | None => 0 end)%nat
  | _ => None
  end.
Lemma functions_leak :
  left_over <$> [call ApplyPatchSpaceFn [lit "1"]; call SymlinkFn [lit "a"; lit "b"];
                 call PackageExtractFileFn [op AbortFn []]; call ApplyPatchCheckFn [lit "f"];
                 call UIPrintFn [lit "a"]] =
  [Some 1%nat; Some 1%nat; Some 1%nat; Some 1%nat; Some 0%nat].
Proof. vm_compute. reflexivity. Qed.

End UpdaterDemo.

(** ** Properties *)

Lemma main_with_ext {F W} `{ArchiveFile F} `{Zlib} `{SafeIop} (alloc_ok : Z → bool) fuel register yyparse
    (run1 run2 : ZipArchive → list Z → Expr UpdaterFn → Updater F W → outcome (Z * Updater F W)) argv fe u :
  (∀ za script root u, run1 za script root u = run2 za script root u) →
  main_with alloc_ok fuel register yyparse run1 argv fe u = main_with alloc_ok fuel register yyparse run2 argv fe u.
Proof.
  intros Hrun. unfold main_with. destruct argv as [|a [|version [|c [|d [|e argv]]]]]; try done.
  destruct (negb (version_ok version)); [done|].
  destruct (mzOpenZipArchive alloc_ok fe) as [[[err za] rel]| |]; [|done..]. cbn [mbind outcome_bind].
  destruct (negb (err =? 0)); [done|].
  destruct (read_script fuel za u) as [[[status|script] u']| |]; [done| |done..]. cbn [mbind outcome_bind].
  destruct (functions_table register) as [t| |]; [|done..]. cbn [mbind outcome_bind].
  destruct (yyparse t (c_string script)) as [[error count] root]. by destruct (negb (error =? 0) || (0 <? count)).
Qed.

(** C1: the updater does what its script means. Its exit status, what it sends to the parent
    process and what it does to the system are those of the meaning of the parsed script: 0
    if the script has a value; 7 if not, after the lines of the error message have been sent;
    and 1 to 6 when there is no script to run. That covers all functions of install.c, with
    their memory management: no function frees or reads a block that another owns. *)
Theorem updater_main_correct `{Bzip2} `{Sha1} `{!ShaDigest} `{Deflate} {F W} `{ArchiveFile F} `{Zlib}
    `{FileSystem W} `{FileWriter W} `{PatchOS W} `{MtdDriver W} `{MountOS W} `{RootOS W} `{UpdaterOS W} `{SafeIop}
    (alloc_ok : Z → bool) fuel tries depth uninit register yyparse argv fe (u : Updater F W) :
  main alloc_ok fuel tries depth uninit register yyparse argv fe u =
  main_with alloc_ok fuel register yyparse (script_meaning alloc_ok fuel tries depth uninit) argv fe u.
Proof. apply main_with_ext. intros. apply run_script_meaning. Qed.

(** A script that uses only edify's functions and those functions of the updater that
    free what they allocate (all but [package_extract_file], [symlink], the three
    [apply_patch] functions and [sha1_check]) leaves no block behind but its value and the
    error message, whether it fails or not, and touches no block of its caller. *)
Theorem freeing_scripts_leave_nothing `{Bzip2} `{Sha1} `{!ShaDigest} `{Deflate} {F W} `{ArchiveFile F} `{Zlib}
    `{FileSystem W} `{FileWriter W} `{PatchOS W} `{MtdDriver W} `{MountOS W} `{RootOS W} `{UpdaterOS W}
    package (alloc_ok : Z → bool) fuel tries depth uninit (e : Expr FreeingFn) (s s' : State (Updater F W)) r :
  errmsg_ok s →
  Evaluate (@EvaluateValue _ _ (freeing_functions package alloc_ok fuel tries uninit) depth) e s = Ret (r, s') →
  owns_result false s r s'.
Proof. exact (@Evaluate_owns_spec _ _ _ _ false (freeing_laws package alloc_ok fuel tries uninit) depth e s r s'). Qed.

Lemma register_all_app {X} (l1 l2 : list (list Z * Function X)) t :
  register_all (l1 ++ l2) t = t ← register_all l1 t; register_all l2 t.
Proof.
  revert t. induction l1 as [|[n f] l1 IH]; intros t; [done|]. simpl.
  destruct (RegisterFunction n f t) as [t'| |]; [|done..]. apply IH.
Qed.

(** Every function that the updater and the device register is found under its name, and
    no other name is found, when the device registers functions with names of their own. *)
Theorem updater_table_finds (device : list (list Z * Function UpdaterFn)) :
  let all := builtins ++ install_functions ++ device in
  NoDup all.*1 → Forall (λ n, cstr n) all.*1 → zlen all < 2 ^ 29 →
  wp (functions_table (register_all device)) (λ t,
    ∀ n, cstr n → wp (FindFunction n t) (λ r,
      match r with Some f => (n, f) ∈ all | None => n ∉ all.*1 end)).
Proof.
  intros all Hnd Hc Hlen. pose proof (FindFunction_spec all Hnd Hc Hlen) as Hfind.
  unfold functions_table, RegisterBuiltins, RegisterInstallFunctions. subst all.
  rewrite !register_all_app in Hfind. revert Hfind.
  destruct (register_all builtins no_functions) as [t1| |]; [|done..]. cbn [mbind outcome_bind].
  rewrite register_all_app. destruct (register_all install_functions t1) as [t2| |]; [|done..]. done.
Qed.

(** ** Witnesses *)
Section witnesses.
Import UpdaterDemo.
Definition getprop_fn : FreeingFn := GetPropFn ↾ eq_refl.
Definition failing : Expr FreeingFn :=
  mk_expr AbortFn (str "abort") [mk_expr (Other getprop_fn) (str "getprop") [mk_expr Literal (str "ro.product") [] 0 0] 0 0] 0 0.
Definition start_state : State (Updater ExtractDemo.mem_file UpdaterDemo.W) := mk_state [] None ∅ [] [] (init []).
Definition failed := Evaluate (@EvaluateValue _ _ (freeing_functions empty_package (λ _, true) 50 50 ApplyDemo.junk) 9)
  failing start_state.
Definition failed_state : State (Updater ExtractDemo.mem_file UpdaterDemo.W) :=
  match failed with Ret (_, s) => s | _ => start_state end.
Lemma freeing_scripts_leave_nothing_witness :
  failed = Ret (None, failed_state) ∧ owns_result false start_state None failed_state.
Proof.
  assert (failed = Ret (None, failed_state)) as Hrun by (vm_compute; reflexivity).
  split; [exact Hrun|]. refine (freeing_scripts_leave_nothing empty_package (λ _, true) 50 50 9 ApplyDemo.junk failing _ _ _ _ _).
  - exact I.
  - exact Hrun.
Defined.

Lemma updater_table_finds_witness :
  let all := builtins ++ install_functions in
  wp (functions_table (register_all [])) (λ t,
    ∀ n, cstr n → wp (FindFunction n t) (λ r,
      match r with Some f => (n, f) ∈ all | None => n ∉ all.*1 end)).
Proof.
  apply (updater_table_finds []).
  - apply (bool_decide_unpack _). vm_compute. exact I.
  - repeat constructor.
  - reflexivity.
Defined.
End witnesses.
