(* ===== verification/Rawimage.v ===== *)
(** * Rawimage

    What the script function [write_raw_image] of updater/install.c leaves on a flash
    partition. *)
From S2P Require Import Prelude CString Syscalls Mtdutils Mtdflash Mounts Applypatch Updater.

Definition flash_same {W : Type} `{MtdDriver W} (p : MtdPartition) `{!MtdLaws p} (w w' : W) : Prop :=
  (∀ fd, offset w' fd = offset w fd) ∧ ∀ k, block w' k = block w k.

(** Reading a file leaves the flash device alone and does not fail; opening the device leaves files alone. *)
Class StreamLaws {W : Type} `{UpdaterOS W} `{MtdDriver W} (p : MtdPartition) `{!MtdLaws p} := {
  file_bytes : list Z → W → option (list Z);
  unread : Stream → list Z;
  file_kept path part rw w : file_bytes path (dev_open (mtd_dev part) rw w).2 = file_bytes path w;
  fopen_ok path w f w' : c_fopen path w = (Some f, w') →
    file_bytes path w = Some (unread f) ∧ flash_same p w w';
  fread_ok f n w : 0 ≤ n → let '(got, f', w') := c_fread f n w in
    got = take (Z.to_nat n) (unread f) ∧ unread f' = drop (Z.to_nat n) (unread f) ∧ flash_same p w w';
  fclose_ok f w : flash_same p w (c_fclose f w)
}.

Section writing_images.
Context {F W : Type} `{UpdaterOS W} `{MtdDriver W} (p : MtdPartition) `{!MtdLaws p} `{!StreamLaws p}.
Context (alloc_ok : Z → bool) (fuel : nat).
Context (Hes : 0 < erase_size p) (Hsize : 0 ≤ p_size p) (Hsmall : p_size p + erase_size p < 2 ^ 31).
Context (Hfuel : (Z.to_nat (p_size p) < fuel)%nat) (Hfuel2 : (1024 < fuel)%nat).
Abbreviation Wr := (writing p (λ _, True)).
Implicit Types (w : W) (ctx : MtdWriteContext).

Lemma writing_same ctx written w w' : flash_same p w w' → Wr ctx written w → Wr ctx written w'.
Proof.
  intros [Hoff Hb] [(done & Hh & Hst & Heq) Hlt]. split; [|done]. exists done. split; [|done].
  apply (holds_same p fuel (λ _, True) Hfuel ctx done w w' Hh); [intros o; by rewrite Hoff|auto].
Qed.

Lemma write_image_spec rounds ctx f w written :
  Wr ctx written w →
  post (write_image fuel rounds ctx f w) (λ '(ok, ctx', f', w'),
    ok = true → Wr ctx' (written ++ unread f) w').
Proof.
  revert ctx f w written. induction rounds as [|rounds IH]; intros ctx f w written Hw; [done|].
  cbn [write_image]. pose proof (fread_ok f BUFSIZ w) as Hr. destruct (c_fread f BUFSIZ w) as [[got f1] w1].
  destruct Hr as (Hgot & Hrest & Hsame); [done|]. apply (writing_same _ _ _ _ Hsame) in Hw.
  destruct (Z.leb_spec (zlen got) 0) as [Hz|Hz].
  - intros r [= <-]. intros _. assert (Hnil : unread f = []).
    { apply nil_length_inv. subst got. rewrite length_take in Hz. unfold BUFSIZ in Hz. lia. }
    by rewrite Hnil, app_nil_r.
  - assert (Hlen : (length got ≤ 1024)%nat) by (subst got; rewrite length_take; unfold BUFSIZ; lia).
    eapply post_bind; [apply wp_post, (mtd_write_data_spec p alloc_ok fuel (λ _, True) ltac:(done) ltac:(done) Hes Hsize
      Hsmall Hfuel ctx written got w1 ltac:(lia) ltac:(lia) Hw)|].
    intros [[wrote ctx1] w2] Hd.
    destruct (Z.eqb_spec wrote (zlen got)) as [->|]; [|by intros r [= <-]].
    destruct Hd as [[? _]|(_ & Hd & _)]; [lia|]. eapply post_mono; [by apply IH|]. intros [[[ok ctx2] f2] w3] Hok Htrue.
    specialize (Hok Htrue). by rewrite Hrest, <- app_assoc, Hgot, take_drop in Hok.
Qed.

(** The state [w] in which the file was read to its end and closed, and the last one: in [w] the whole
    blocks of the image are on the device, and the rest of it is in the buffer of the writer. Then the
    writer is flushed and closed, and all of the image is on the device, with zeros up to the
    end of a block, unless flushing failed. *)
Definition image_written (data : list Z) ctx (w w' : W) : Prop :=
  (∃ whole rest, data = whole ++ rest ∧ zlen rest < erase_size p ∧ on_flash p (bad_block_offsets ctx) whole w) ∧
  ∃ e ctx' w1 c, mtd_erase_blocks fuel ctx (-1) w = Ret (e, ctx', w1) ∧ mtd_write_close fuel ctx' w1 = Ret (c, w') ∧
    (e = -1 ∨ ∃ bad pad, Z.of_nat pad < erase_size p ∧ on_flash p bad (data ++ replicate pad 0) w').

Lemma writing_whole ctx data w :
  Wr ctx data w →
  ∃ whole rest, data = whole ++ rest ∧ zlen rest < erase_size p ∧ on_flash p (bad_block_offsets ctx) whole w.
Proof.
  intros [(whole & Hh & Hst & Heq) Hlt]. exists whole, (take (Z.to_nat (stored ctx)) (w_buffer ctx)).
  split; [done|]. split; [rewrite length_take; lia|]. by eapply holds_on_flash.
Qed.

Lemma partition_keeps_file filename w ctx w' :
  mtd_write_partition alloc_ok p w = (Some ctx, w') → file_bytes filename w' = file_bytes filename w.
Proof.
  unfold mtd_write_partition. destruct (negb _); [done|]. destruct (negb _); [done|].
  pose proof (file_kept filename p true w) as Hf. destruct (dev_open _ _ w) as [fd w1]. simpl in Hf.
  destruct (fd <? 0); [done|]. by intros [= _ <-].
Qed.

(** The run of a call that returns the name of the partition. *)
Definition raw_image_run filename (w w' : W) : Prop :=
  ∃ data ctx w1 f w2 ctx1 f1 w3, file_bytes filename w = Some data ∧
    mtd_write_partition alloc_ok p w = (Some ctx, w1) ∧ c_fopen filename w1 = (Some f, w2) ∧
    write_image fuel fuel ctx f w2 = Ret (true, ctx1, f1, w3) ∧ image_written data ctx1 (c_fclose f1 w3) w'.

Lemma write_raw_image_spec n filename partition (u u' : Updater F W) r g i :
  mtd_scan_partitions alloc_ok (mtd (u_ap u)) (u_world u) = Ret (r, g) →
  mtd_find_partition_by_name g partition = Some p →
  write_raw_image_body alloc_ok fuel n filename partition u = Ret (Argument i, u') →
  raw_image_run filename (u_world u) (u_world u').
Proof.
  intros Hscan Hfind. unfold write_raw_image_body.
  destruct (is_empty partition); [done|]. destruct (is_empty filename); [done|].
  unfold scan_partition. rewrite Hscan. cbn [mbind outcome_bind mret outcome_ret]. rewrite Hfind.
  change (u_world (set_ap _ u)) with (u_world u).
  destruct (mtd_write_partition alloc_ok p (u_world u)) as [[ctx|] w1] eqn:Hopen; [|done].
  pose proof (mtd_write_partition_spec p alloc_ok fuel (λ _, True) Hes Hsize Hfuel _ _ _ Hopen) as [Hw _].
  destruct (c_fopen filename w1) as [[f|] w2] eqn:Hf; [|done]. destruct (fopen_ok _ _ _ _ Hf) as [Hdata Hsame].
  apply (writing_same _ _ _ _ Hsame) in Hw. rewrite (partition_keeps_file _ _ _ _ Hopen) in Hdata.
  pose proof (write_image_spec fuel ctx f w2 [] Hw) as Hwrite.
  destruct (write_image fuel fuel ctx f w2) as [[[[ok ctx1] f1] w3]| |] eqn:Hrun; [|done..]. specialize (Hwrite _ eq_refl).
  cbn [mbind outcome_bind]. destruct ok.
  - specialize (Hwrite eq_refl). cbn [app] in Hwrite. apply (writing_same _ _ _ _ (fclose_ok f1 w3)) in Hwrite.
    pose proof (mtd_erase_blocks_spec p alloc_ok fuel (λ _, True) ltac:(done) ltac:(done) Hes Hsize Hsmall Hfuel ctx1 _ (-1) _ Hwrite) as He.
    destruct (mtd_erase_blocks fuel ctx1 (-1) (c_fclose f1 w3)) as [[[e ctx2] w4]| |] eqn:Herase; [|done..].
    cbn [wp mbind outcome_bind] in *.
    destruct (mtd_write_close fuel ctx2 w4) as [[c w5]| |] eqn:Hclose; [|done..]. intros [= <- <-].
    exists (unread f), ctx, w1, f, w2, ctx1, f1, w3. split; [done|]. split; [done|]. split; [done|]. split; [done|].
    split; [by apply writing_whole|]. exists e, ctx2, w4, c. split; [done|]. split; [done|].
    destruct He as [->|(Hst & pad & Hpad & Hh)]; [by left|]. right.
    pose proof (mtd_write_close_spec p fuel (λ _, True) Hes Hfuel ctx2 _ w4 Hh Hst) as Hc. rewrite Hclose in Hc. eauto.
  - destruct (mtd_erase_blocks _ _ _ _) as [[[e ctx2] w4]| |]; [|done..].
    cbn [mbind outcome_bind]. by destruct (mtd_write_close fuel ctx2 w4) as [[c w5]| |].
Qed.
End writing_images.

(** ** A device, and files in memory *)
Module RawDemo.
Import FlashDemo.
#[export] Existing Instances FlashDemo.driver FlashDemo.laws FlashDemo.readable.

Definition files (path : list Z) : option (list Z) :=
  if bool_decide (path = str "img") then Some [1; 2; 3; 4; 5] else
  if bool_decide (path = str "big") then Some [1; 2; 3; 4; 5; 6; 7] else None.

#[export] Instance os : UpdaterOS flash := {|
  property_get _ _ := [];
  run_child _ w := (0, w);
  Stream := list Z;
  c_fopen path w := (files path, w);
  c_fread f n w := (take (Z.to_nat n) f, drop (Z.to_nat n) f, w);
  c_fclose _ w := w;
  error_text _ := [];
  show_fraction s := s
|}.
#[export] Instance streams : StreamLaws part.
Proof.
  refine {| file_bytes path _ := files path; unread := λ f : Stream, f |}; [done| |done|done].
  intros path w f w'. cbn. intros [= Hf <-]. by rewrite Hf.
Defined.

Definition start : Updater unit flash :=
  mk_updater tt (mk_ap blank (mk_mtd None (-1)) false) g_mounts_state [] [].
Definition run (file : string) : outcome (answer * Updater unit flash) :=
  write_raw_image_body (λ _, true) 2000 (str "write_raw_image") (str file) (str "boot") start.
Definition blocks (w : flash) : list (Z * Z) := w.2 <$> [0; 1; 2; 3].
Definition outcome_of (file : string) : option (answer * list (Z * Z)) :=
  match run file with Ret (a, u) => Some (a, blocks (u_world u)) | _ => None end.

(** The second block is bad. Seven bytes do not fit: the last is lost, but the function
    returns the name of the partition. *)
Example writes_the_image : outcome_of "img" = Some (Argument 1, [(1, 2); (255, 255); (3, 4); (5, 0)]).
Proof. vm_compute. reflexivity. Qed.
Example loses_the_end : outcome_of "big" = Some (Argument 1, [(1, 2); (255, 255); (3, 4); (5, 6)]).
Proof. vm_compute. reflexivity. Qed.
End RawDemo.

(** ** Properties *)


Section witnesses.
Import RawDemo.
Definition after (o : outcome (answer * Updater unit FlashDemo.flash)) : Updater unit FlashDemo.flash :=
  match o with Ret (_, u) => u | _ => start end.
Definition scanned : MtdState :=
  match mtd_scan_partitions (λ _, true) (mtd (u_ap start)) (u_world start) with Ret (_, g) => g | _ => mk_mtd None 0 end.
End witnesses.
