(* ===== verification/Lines.v ===== *)
(** * Lines

    The functions of stdio.h and string.h that the sources use to take text apart and to put
    it together: [fgets], [strtok], [strlcpy] and [strlcat]. *)
From S2P Require Import Prelude CString.

(** The NUL that ends the string at [p] is part of the buffer. *)
Definition string_at (buf : list Z) (p : nat) : outcome (list Z) :=
  if bool_decide (0 ∈ drop p buf) then mret (c_string (drop p buf)) else Fault OutOfBounds.

(** [strtok] with the place [last] that it remembers, which may be a null pointer: the token,
    the buffer, in which a NUL is put behind the token, and the new place. *)
Definition strtok (delimiters : list Z) (buf : list Z) (last : option nat)
    : outcome (option (list Z) * list Z * option nat) :=
  match last with
  | None => mret (None, buf, None)
  | Some p =>
      s ← string_at buf p;
      let k := count_while (λ c, bool_decide (c ∈ delimiters)) s in
      let s := drop k s in
      let n := count_while (λ c, bool_decide (c ∉ delimiters)) s in
      if bool_decide (s = []) then mret (None, buf, None)
      else if bool_decide (n = length s) then mret (Some s, buf, None)
      else mret (Some (take n s), <[(p + k + n)%nat := 0]> buf, Some (S (p + k + n)))
  end.

(** [strlcpy(dst, src, size)] for a string [src]. *)
Definition strlcpy (dst src : list Z) (size : nat) : outcome (list Z) :=
  match size with
  | O => mret dst
  | S n => wr_n dst 0 (take n src ++ [0])
  end.

Definition strlcat (dst src : list Z) (size : nat) : outcome (list Z) :=
  let dlen := length (c_string (take size dst)) in
  match (size - dlen)%nat with
  | O => mret dst
  | S n => wr_n dst (Z.of_nat dlen) (take n src ++ [0])
  end.

(** [fgets(buf, S n, f)] on the text that is left of the file: the line with its break, which
    are at most [n] characters, and the text behind it. *)
Definition fgets (n : nat) (text : list Z) : option (list Z * list Z) :=
  if bool_decide (text = []) then None
  else
    let k := count_while (λ c, negb (c =? 10)) text in
    let len := Nat.min n (S k) in
    Some (take len text, drop len text).

(** ** [strtok] *)
Section tokens.
Implicit Types (a s rest tail buf : list Z) (delimiters : list Z).

Lemma count_while_all f a rest :
  Forall (λ c, f c = true) a → count_while f (a ++ rest) = (length a + count_while f rest)%nat.
Proof. induction 1 as [|c a Hc Ha IH]; [done|]. simpl. by rewrite Hc, IH. Qed.
Lemma count_while_stop f c rest : f c = false → count_while f (c :: rest) = O.
Proof. simpl. by intros ->. Qed.

Lemma string_at_text pre s tail p :
  p = length pre → Forall (λ c, c ≠ 0) s → string_at (pre ++ s ++ 0 :: tail) p = Ret s.
Proof.
  intros -> Hs. unfold string_at. rewrite drop_app_length, c_string_app by done.
  rewrite bool_decide_eq_true_2; [done|]. apply elem_of_app. right. by left.
Qed.

(** One token, up to a delimiter. *)
Lemma strtok_token delimiters pre a d rest tail p :
  p = length pre → a ≠ [] → Forall (λ c, c ∉ delimiters) a → d ∈ delimiters →
  Forall (λ c, c ≠ 0) (a ++ d :: rest) →
  strtok delimiters (pre ++ (a ++ d :: rest) ++ 0 :: tail) (Some p) =
    Ret (Some a, (pre ++ a ++ [0]) ++ rest ++ 0 :: tail, Some (length (pre ++ a ++ [0]))).
Proof.
  intros Hp Ha Hin Hd Hz. unfold strtok. rewrite string_at_text by done. cbn [mbind outcome_bind].
  replace (count_while _ (a ++ d :: rest)) with O; cycle 1.
  { destruct a as [|c a]; [done|]. simpl. apply Forall_cons_1 in Hin as [Hc _].
    by rewrite bool_decide_eq_false_2. }
  rewrite drop_0. rewrite count_while_all; cycle 1.
  { eapply Forall_impl; [exact Hin|]. intros c Hc. by apply bool_decide_eq_true_2. }
  rewrite count_while_stop by (apply bool_decide_eq_false_2; naive_solver).
  rewrite bool_decide_eq_false_2 by (by destruct a).
  rewrite bool_decide_eq_false_2 by (rewrite length_app; simpl; lia).
  rewrite !Nat.add_0_r, take_app_length, Hp. unfold mret, outcome_ret. do 2 f_equal; [f_equal|].
  - rewrite insert_app_r, <- !app_assoc, insert_app_r_alt, Nat.sub_diag by lia. done.
  - f_equal. rewrite !length_app. simpl. lia.
Qed.

Lemma strtok_end delimiters pre tail p :
  p = length pre → strtok delimiters (pre ++ 0 :: tail) (Some p) = Ret (None, pre ++ 0 :: tail, None).
Proof. intros Hp. unfold strtok. by rewrite (string_at_text pre [] tail) by done. Qed.
End tokens.

(** ** Appending with a limit

    Copying a text to a buffer and appending others leaves as much of the whole text as fits,
    ends it, and does not touch the rest of the buffer. *)
Definition limited (n : nat) (text buf : list Z) : list Z :=
  take n text ++ 0 :: drop (S (Nat.min n (length text))) buf.

Lemma limited_length n text buf : (n < length buf)%nat → length (limited n text buf) = length buf.
Proof. intros. unfold limited. rewrite length_app, length_take. simpl. rewrite length_drop. lia. Qed.

Lemma strlcpy_spec n src buf : (n < length buf)%nat → strlcpy buf src (S n) = Ret (limited n src buf).
Proof.
  intros Hn. unfold strlcpy. rewrite wr_n_in_bounds by (rewrite ?length_app, ?length_take; simpl; lia).
  f_equal. unfold limited. change (Z.to_nat 0) with O. rewrite take_0, app_nil_l, length_app, length_take, <- app_assoc.
  cbn [length app Nat.add]. do 3 f_equal. lia.
Qed.

Lemma strlcat_spec n text src buf :
  (n < length buf)%nat → Forall (λ c, c ≠ 0) text →
  strlcat (limited n text buf) src (S n) = Ret (limited n (text ++ src) buf).
Proof.
  intros Hn Hz. unfold strlcat.
  assert (Hd : c_string (take (S n) (limited n text buf)) = take n text).
  { unfold limited. rewrite take_app_ge by (rewrite length_take; lia).
    destruct (S n - length (take n text))%nat as [|k] eqn:Hk; [rewrite length_take in Hk; lia|]. simpl.
    apply c_string_app. by apply Forall_take. }
  rewrite Hd, length_take. destruct (S n - _)%nat as [|k] eqn:Hk; [lia|].
  rewrite wr_n_in_bounds by (rewrite ?limited_length, ?length_app, ?length_take by done; simpl; lia).
  f_equal. rewrite Nat2Z.id. unfold limited. rewrite (take_app_length' (take n text)) by (rewrite length_take; lia).
  rewrite length_app, length_take, <- app_assoc, app_assoc, length_app. cbn [length app].
  rewrite drop_app_ge by (rewrite length_take; lia). rewrite take_app, length_take.
  replace k with (n - length text)%nat by lia.
  replace (min n (length text) + (min (n - length text) (length src) + 1) - min n (length text))%nat
    with (S (min (n - length text) (length src))) by lia.
  cbn [drop]. rewrite drop_drop. do 3 f_equal. lia.
Qed.

Lemma fgets_line n a rest :
  Forall (λ c, c ≠ 10) a → (S (length a) ≤ n)%nat → fgets n (a ++ 10 :: rest) = Some (a ++ [10], rest).
Proof.
  intros Ha Hn. unfold fgets. rewrite bool_decide_eq_false_2 by (by destruct a).
  rewrite count_while_all; cycle 1.
  { eapply Forall_impl; [exact Ha|]. intros c Hc. simpl. by rewrite (proj2 (Z.eqb_neq c 10)). }
  rewrite count_while_stop by done. rewrite Nat.add_0_r, Nat.min_r by lia.
  change (a ++ 10 :: rest) with (a ++ [10] ++ rest). rewrite app_assoc.
  rewrite take_app_length', drop_app_length' by (rewrite length_app; simpl; lia). done.
Qed.
