(* ===== verification/Args.v ===== *)
(** * Args

    recovery.c: where the arguments come from, the message that makes recovery start again with
    them, and the end of a run. *)
From S2P Require Import Prelude CString DirUtil Syscalls Mtdutils Mtdflash Mtdscan Mounts Roots Bootloader Lines.

(** The streams of stdio.h. *)
Class StdioOS (W : Type) := {
  (** what reading the file from its start gives; a file that cannot be opened has no text *)
  file_text : list Z → W → option (list Z);
  (** the path and the mode *)
  sys_fopen : list Z → list Z → W → option Z * W;
  sys_fputs : Z → list Z → W → W;
  sys_fclose : Z → W → W;
  sys_sync : W → W
}.

Definition MAX_ARGS : nat := 100.
Definition MAX_LINE_LENGTH : nat := 4096.
Definition PATH_MAX : nat := 4096.

(** [memset] *)
Definition zero_message : bootloader_message :=
  mk_message (replicate 32 0) (replicate 32 0) (replicate 1024 0).

Section code.
Context {W : Type} `{FileSystem W} `{MountOS W} `{MtdDriver W} `{PatchOS W} `{RootOS W} `{StdioOS W}.
Context (OPEN_RCVR_VERSION_LITE HAVE_CUST : bool) (alloc_ok : Z → bool) (fuel : nat).
Implicit Types (w : W) (s : Roots) (argv : list (list Z)).
Abbreviation ensure_mounted := (ensure_root_path_mounted OPEN_RCVR_VERSION_LITE HAVE_CUST alloc_ok).
Abbreviation translate := (translate_root_path OPEN_RCVR_VERSION_LITE HAVE_CUST).
Abbreviation get_message := (get_bootloader_message OPEN_RCVR_VERSION_LITE HAVE_CUST alloc_ok fuel).
Abbreviation set_message := (set_bootloader_message OPEN_RCVR_VERSION_LITE HAVE_CUST alloc_ok fuel).

Definition COMMAND_FILE : list Z :=
  if OPEN_RCVR_VERSION_LITE then str "CACHE:recovery/command" else str "CACHE:openrecovery/command".
Definition INTENT_FILE : list Z :=
  if OPEN_RCVR_VERSION_LITE then str "CACHE:recovery/intent" else str "CACHE:openrecovery/intent".
Definition LOG_FILE : list Z :=
  if OPEN_RCVR_VERSION_LITE then str "CACHE:recovery/open_recovery_lite_log" else str "CACHE:recovery/open_recovery_log".
Definition TEMPORARY_LOG_FILE : list Z :=
  if OPEN_RCVR_VERSION_LITE then str "/tmp/open_recovery_lite.log" else str "/tmp/open_recovery.log".

(** The path in a buffer of zeros. *)
Definition translated root_path : outcome (option (list Z)) :=
  path ← translate root_path (replicate PATH_MAX 0) (Z.of_nat PATH_MAX);
  mret (match path with Some path => Some (c_string path) | None => None end).

(** The opening itself is an argument, since files are read and written differently. *)
Definition fopen_root_path {A} (fopen : list Z → W → option A * W) root_path (mode : list Z) s w
    : outcome (option A * Roots * W) :=
  '(r, s, w) ← ensure_mounted root_path s w;
  if negb (r =? 0) then mret (None, s, w)
  else
    path ← translated root_path;
    match path with
    | None => mret (None, s, w)
    | Some path =>
        '(_, w) ← if bool_decide (is_Some (strchr (str "wa") (char_at mode 0)))
                  then dirCreateHierarchy alloc_ok path 0x1ff None true w else mret (inr tt, w);
        let '(fp, w) := fopen path w in mret (fp, s, w)
    end.

(** ** The command file *)

(** From the argument [argc] on, of the [n] that the array has room for. [strdup] reads its
    argument. *)
Fixpoint read_args (n : nat) (text : list Z) : outcome (list (list Z)) :=
  match n with
  | O => mret []
  | S n =>
      match fgets (MAX_LINE_LENGTH - 1) text with
      | None => mret []
      | Some (line, text) =>
          '(token, _, _) ← strtok [13; 10] (line ++ [0]) (Some O);
          arg ← of_option NullPointer token;
          args ← read_args n text;
          mret (arg :: args)
      end
  end.

(** The length of [argv] is [argc]. *)
Definition get_cmd_file_args argv s w : outcome (list (list Z) * Roots * W) :=
  '(fp, s, w) ← fopen_root_path (λ path w, (file_text path w, w)) COMMAND_FILE (str "r") s w;
  match fp with
  | None => mret (argv, s, w)
  | Some text => args ← read_args (MAX_ARGS - 1) text; mret (take 1 argv ++ args, s, w)
  end.

(** ** The message to the boot loader *)
Fixpoint read_tokens (n : nat) (buf : list Z) (last : option nat) : outcome (list (list Z) * list Z) :=
  match n with
  | O => mret ([], buf)
  | S n =>
      '(arg, buf, last) ← strtok [10] buf last;
      match arg with
      | None => mret ([], buf)
      | Some arg => '(args, buf) ← read_tokens n buf last; mret (arg :: args, buf)
      end
  end.

(** The arguments of the message, and what is left of the buffer. *)
Definition boot_args (recovery : list Z) : outcome (option (list (list Z)) * list Z) :=
  recovery ← wr recovery (zlen recovery - 1) 0;
  '(arg, recovery, last) ← strtok [10] recovery (Some O);
  match arg with
  | Some arg =>
      if strcmp arg (str "recovery") =? 0 then
        '(args, recovery) ← read_tokens (MAX_ARGS - 1) recovery last;
        mret (Some (arg :: args), recovery)
      else mret (None, recovery)
  | None => mret (None, recovery)
  end.

(** The arguments, and the message as it is then. *)
Definition choose_args argv s w : outcome (list (list Z) * bootloader_message * Roots * W) :=
  '(_, boot, s, w) ← get_message zero_message s w;
  '(argv, boot) ←
    if (length argv <=? 1)%nat then
      '(args, recovery) ← boot_args (recovery boot);
      mret (default argv args, mk_message (command boot) (status boot) recovery)
    else mret (argv, boot);
  '(argv, s, w) ← if (length argv <=? 1)%nat then get_cmd_file_args argv s w else mret (argv, s, w);
  mret (argv, boot, s, w).

Fixpoint append_args (buf : list Z) (args : list (list Z)) : outcome (list Z) :=
  match args with
  | [] => mret buf
  | arg :: args =>
      buf ← strlcat buf arg 1024;
      buf ← strlcat buf [10] 1024;
      append_args buf args
  end.

Definition boot_again (boot : bootloader_message) argv : outcome bootloader_message :=
  c ← strlcpy (command boot) (str "boot-recovery") 32;
  r ← strlcpy (recovery boot) (str "recovery" ++ [10]) 1024;
  r ← append_args r (drop 1 argv);
  mret (mk_message c (status boot) r).

Definition get_args argv s w : outcome (list (list Z) * Roots * W) :=
  '(argv, boot, s, w) ← choose_args argv s w;
  boot ← boot_again boot argv;
  '(_, s, w) ← set_message boot s w;
  mret (argv, s, w).

Definition set_sdcard_update_bootloader_message s w : outcome (Roots * W) :=
  c ← strlcpy (command zero_message) (str "boot-recovery") 32;
  r ← strlcpy (recovery zero_message) (str "recovery" ++ [10]) 1024;
  '(_, s, w) ← set_message (mk_message c (status zero_message) r) s w;
  mret (s, w).

(** ** The end of a run *)

(** Lines of the file are copied as strings, that is, up to their first NUL. *)
Fixpoint copy_lines (n : nat) (text : list Z) (log : Z) w : outcome W :=
  match n with
  | O => Diverge
  | S n =>
      match fgets 4095 text with
      | None => mret w
      | Some (line, text) => copy_lines n text log (sys_fputs log (c_string line) w)
      end
  end.

(** [tmplog_offset] is the static variable of the function. *)
Definition copy_log (tmplog_offset : Z) s w : outcome (Z * Roots * W) :=
  '(log, s, w) ← fopen_root_path (λ path, sys_fopen path (str "a")) LOG_FILE (str "a") s w;
  match log with
  | None => mret (tmplog_offset, s, w)
  | Some log =>
      match file_text TEMPORARY_LOG_FILE w with
      | None => mret (tmplog_offset, s, sys_fclose log w)
      | Some text =>
          let text' := drop (Z.to_nat tmplog_offset) text in
          w ← copy_lines (S (length text')) text' log w;
          mret (Z.max tmplog_offset (zlen text), s, sys_fclose log w)
      end
  end.

Definition write_intent (send_intent : option (list Z)) s w : outcome (Roots * W) :=
  match send_intent with
  | None => mret (s, w)
  | Some intent =>
      '(fp, s, w) ← fopen_root_path (λ path, sys_fopen path (str "w")) INTENT_FILE (str "w") s w;
      match fp with
      | None => mret (s, w)
      | Some fp => mret (s, sys_fclose fp (sys_fputs fp intent w))
      end
  end.

Definition unlink_command_file s w : outcome (Roots * W) :=
  '(r, s, w) ← ensure_mounted COMMAND_FILE s w;
  if negb (r =? 0) then mret (s, w)
  else
    path ← translated COMMAND_FILE;
    match path with
    | None => mret (s, w)
    | Some path => mret (s, (sys_unlink path w).2)
    end.

Definition finish_recovery (send_intent : option (list Z)) (tmplog_offset : Z) s w
    : outcome (Z * Roots * W) :=
  '(s, w) ← write_intent send_intent s w;
  '(tmplog_offset, s, w) ← copy_log tmplog_offset s w;
  '(_, s, w) ← set_message zero_message s w;
  '(s, w) ← unlink_command_file s w;
  mret (tmplog_offset, s, sys_sync w).
End code.
