(* ===== verification/Restart.v ===== *)
(** * Restart

    recovery.c can be started again at any point: the arguments of a run are in the message to
    the boot loader, and the next run finds them there. *)
From S2P Require Import Prelude CString DirUtil Syscalls Mtdutils Mtdflash Mtdscan Mounts Roots Bootloader Lines Args.

(** The text of the message for some arguments. *)
Definition args_text (args : list (list Z)) : list Z := str "recovery" ++ [10] ++ (args ≫= λ a, a ++ [10]).
Definition arg_ok (a : list Z) : Prop := a ≠ [] ∧ Forall (λ c, c ≠ 0 ∧ c ≠ 10) a.
Definition restartable (args : list (list Z)) : Prop :=
  args ≠ [] ∧ Forall arg_ok args ∧ (length args < MAX_ARGS)%nat ∧ (length (args_text args) < 1024)%nat.

#[export] Instance arg_ok_dec a : Decision (arg_ok a).
Proof. unfold arg_ok. apply _. Defined.
#[export] Instance restartable_dec args : Decision (restartable args).
Proof. unfold restartable. apply _. Defined.

(** ** Writing *)
Lemma args_no_zero args : Forall arg_ok args → Forall (λ c, c ≠ 0) (args_text args).
Proof.
  intros Hargs. unfold args_text. apply Forall_app. split; [by repeat constructor|]. constructor; [done|].
  induction Hargs as [|a args [_ Ha] Hargs IH]; [constructor|]. simpl. rewrite !Forall_app.
  split; [|done]. split; [|by repeat constructor]. eapply Forall_impl; [exact Ha|]. by intros c [? _].
Qed.

Lemma append_args_spec args text buf :
  (1023 < length buf)%nat → Forall (λ c, c ≠ 0) text → Forall arg_ok args →
  append_args (limited 1023 text buf) args = Ret (limited 1023 (text ++ (args ≫= λ a, a ++ [10])) buf).
Proof.
  intros Hlen. revert text. induction args as [|a args IH]; intros text Ht Hargs.
  { simpl. by rewrite app_nil_r. }
  apply Forall_cons_1 in Hargs as [[Hne Ha] Hargs].
  assert (Hz : Forall (λ c, c ≠ 0) (text ++ a)).
  { apply Forall_app. split; [done|]. eapply Forall_impl; [exact Ha|]. by intros c [? _]. }
  cbn [append_args]. rewrite strlcat_spec by done. cbn [mbind outcome_bind].
  rewrite strlcat_spec by done. cbn [mbind outcome_bind].
  rewrite IH; [|apply Forall_app; split; [done|by repeat constructor]|done]. simpl. by rewrite <- !app_assoc.
Qed.

Definition boot_message (boot : bootloader_message) (args : list (list Z)) : bootloader_message :=
  mk_message (limited 31 (str "boot-recovery") (command boot)) (status boot)
    (limited 1023 (args_text args) (recovery boot)).

Lemma boot_message_ok boot args : message_ok boot → message_ok (boot_message boot args).
Proof.
  intros (Hc & Hs & Hr). unfold message_ok, boot_message. cbn [command status recovery].
  rewrite !limited_length; lia.
Qed.
Lemma boot_message_nonzero boot args : nonzero (message_bytes (boot_message boot args)) = true.
Proof. reflexivity. Qed.

Lemma boot_again_spec boot argv :
  message_ok boot → Forall arg_ok (drop 1 argv) → boot_again boot argv = Ret (boot_message boot (drop 1 argv)).
Proof.
  intros (Hc & Hs & Hr) Hargs. unfold boot_again, boot_message, args_text.
  rewrite (strlcpy_spec 31) by lia. cbn [mbind outcome_bind].
  rewrite (strlcpy_spec 1023) by lia. cbn [mbind outcome_bind].
  rewrite append_args_spec by (lia || done || by repeat constructor). cbn [mbind outcome_bind]. by rewrite <- app_assoc.
Qed.

(** ** Reading *)
Lemma read_tokens_spec args n pre tail :
  Forall arg_ok args → (length args ≤ n)%nat →
  ∃ buf, read_tokens n (pre ++ (args ≫= λ a, a ++ [10]) ++ 0 :: tail) (Some (length pre)) = Ret (args, buf) ∧
    length buf = length (pre ++ (args ≫= λ a, a ++ [10]) ++ 0 :: tail).
Proof.
  intros Hargs. revert n pre. induction Hargs as [|a args [Hne Ha] Hargs IH]; intros [|n] pre Hn; simpl in Hn; try lia.
  - by eexists.
  - cbn [read_tokens mbind list_bind app]. rewrite strtok_end by done. by eexists.
  - cbn [read_tokens mbind list_bind].
    rewrite <- (app_assoc a). change ([10] ++ ?l) with (10 :: l).
    rewrite (strtok_token [10] pre a 10 (args ≫= λ a, a ++ [10]) tail).
    + cbn [mbind outcome_bind]. destruct (IH n (pre ++ a ++ [0]) ltac:(lia)) as (buf & Hrun & Hlen).
      cbn [mbind] in Hrun. rewrite Hrun. cbn [mbind outcome_bind]. eexists. split; [done|].
      rewrite Hlen. repeat (rewrite length_app || simpl). lia.
    + done.
    + done.
    + eapply Forall_impl; [exact Ha|]. intros c [_ ?] ->%list_elem_of_singleton. done.
    + by left.
    + apply Forall_app. split; [eapply Forall_impl; [exact Ha|]; by intros c [? _]|].
      constructor; [done|]. apply args_no_zero in Hargs. unfold args_text in Hargs.
      rewrite !Forall_app in Hargs. by destruct Hargs as (_ & _ & ?).
Qed.

Lemma terminated text tail :
  (length text < 1024)%nat → length (text ++ 0 :: tail) = 1024%nat →
  ∃ tail', wr (text ++ 0 :: tail) (zlen (text ++ 0 :: tail) - 1) 0 = Ret (text ++ 0 :: tail') ∧ length tail' = length tail.
Proof.
  intros Ht Hlen. rewrite wr_in_bounds by lia.
  replace (Z.to_nat _) with (length text + (1023 - length text))%nat by lia. rewrite insert_app_r.
  destruct (1023 - length text)%nat as [|k]; [by exists tail|].
  simpl. eexists. split; [done|]. apply length_insert.
Qed.

Lemma boot_args_spec args tail :
  restartable args → length (args_text args ++ 0 :: tail) = 1024%nat →
  ∃ buf, boot_args (args_text args ++ 0 :: tail) = Ret (Some (str "recovery" :: args), buf) ∧ length buf = 1024%nat.
Proof.
  intros (Hne & Hargs & Hn & Hlen) Hbuf. unfold boot_args.
  destruct (terminated _ _ Hlen Hbuf) as (tail' & -> & Htail). cbn [mbind outcome_bind].
  pose proof (args_no_zero args Hargs) as Hz. unfold args_text in *.
  pose proof (strtok_token [10] [] (str "recovery") 10 (args ≫= λ a, a ++ [10]) tail' O eq_refl ltac:(done)
    ltac:(by apply (bool_decide_unpack _)) ltac:(by left) Hz) as Htok.
  change (10 :: (args ≫= ?f)) with ([10] ++ (args ≫= f)) in Htok. rewrite app_nil_l in Htok. rewrite Htok.
  cbn [mbind outcome_bind].
  change (strcmp (str "recovery") (str "recovery") =? 0) with true. cbn iota.
  destruct (read_tokens_spec args (MAX_ARGS - 1) ([] ++ str "recovery" ++ [0]) tail' Hargs) as (buf & Hrun & Hl).
  { unfold MAX_ARGS in *. lia. }
  cbn [mbind] in Hrun. rewrite Hrun. cbn [mbind outcome_bind]. eexists. split; [done|].
  rewrite Hl, <- Hbuf. repeat (rewrite length_app || simpl). lia.
Qed.

(** ** Lengths *)
Lemma strtok_length delimiters buf last :
  post (strtok delimiters buf last) (λ '(_, buf', _), length buf' = length buf).
Proof.
  unfold strtok. destruct last as [p|]; [|by apply post_ret]. apply post_any. intros s.
  repeat case_bool_decide; apply post_ret; [done..|]. apply length_insert.
Qed.
Lemma read_tokens_length n buf last :
  post (read_tokens n buf last) (λ '(_, buf'), length buf' = length buf).
Proof.
  revert buf last. induction n as [|n IH]; intros buf last; [by apply post_ret|]. cbn [read_tokens].
  eapply post_bind; [apply strtok_length|]. intros [[[arg|] buf1] last1] Hb; [|by apply post_ret].
  eapply post_bind; [apply IH|]. intros [args buf2] Hb2. apply post_ret. congruence.
Qed.
Lemma boot_args_length recovery : post (boot_args recovery) (λ '(_, buf), length buf = length recovery).
Proof.
  unfold boot_args. eapply (post_bind _ _ (λ r, length r = length recovery)).
  { intros r Hr. apply wr_Ret_inv in Hr as [_ ->]. apply length_insert. }
  intros r <-. eapply post_bind; [apply strtok_length|]. intros [[[arg|] buf1] last1] Hb; [|by apply post_ret].
  destruct (_ =? _); [|by apply post_ret].
  eapply post_bind; [apply read_tokens_length|]. intros [args buf2] Hb2. apply post_ret. congruence.
Qed.

(** ** Runs and restarts *)
Section restart.
Context {W : Type} `{FileSystem W} `{RootLaws W} `{StdioOS W}.
Context (lite cust : bool) (alloc_ok : Z → bool) (fuel : nat).
Context (Halloc : ∀ z, alloc_ok z = true).
Implicit Types (w : W) (s : Roots) (boot : bootloader_message) (args argv : list (list Z)).

(** The misc partition of a device that works, as for the messages to the boot loader. *)
Context (misc : MtdEntry) (Hmisc : misc ∈ flash_parts) (Hname : e_name misc = str "misc").
Abbreviation p := (partition_of misc).
Context `{!MtdLaws p} `{!MtdReadable p} `{!MtdWritable p}.
Context (Hes : 0 < erase_size p) (Hsize : 0 ≤ p_size p) (Hsmall : p_size p + erase_size p < 2 ^ 31).
Context (Hfuel : (Z.to_nat (p_size p) < fuel)%nat).
Context (sizes : Z * Z) (write_size : Z) (Hinfo : ∀ fd w, MEMGETINFO fd w = Some (sizes, write_size)).
Context (Hpages : 3 * write_size ≤ erase_size p) (Hroom : 1088 ≤ 2 * write_size).
Context (Hlong : (6 * Z.to_nat write_size + 1 < fuel)%nat).
Context (Hmount : ∀ d mp f fl w k, block (sys_mount d mp f fl w).2 k = block w k)
  (Hchmod : ∀ q mode w k, block (sys_chmod q mode w).2 k = block w k)
  (Hmkdir : ∀ q mode w k, block (sys_mkdir q mode w).2 k = block w k).
Context (Hmounts : ∀ w, (length (mount_table w) ≤ 32)%nat).
Context (Hboot : ∀ w, Syscalls.sys_stat OR_IS_BOOTSTRAP_MARK w = None).
Abbreviation stream := (stream misc).
Abbreviation choose := (choose_args lite cust alloc_ok fuel).
Abbreviation set_message := (set_bootloader_message lite cust alloc_ok fuel).

(** Recovery was started, perhaps more than once, with [args] at first; the system state [w]
    is one with the partition as the last run left it when it had stored its message. Each
    run has the program's name only, and starts with tables of mounts and partitions [s] of
    its own. *)
Inductive started args : W → Prop :=
  | started_first argv argv' boot boot' s s1 s2 w w1 w2 w' :
      roots_ok s → choose argv s w = Ret (argv', boot, s1, w1) → drop 1 argv' = args →
      boot_again boot argv' = Ret boot' → set_message boot' s1 w1 = Ret (0, s2, w2) →
      stream w' = stream w2 → started args w'
  | started_again prog argv' boot boot' s s1 s2 w w1 w2 w' :
      started args w → roots_ok s → choose [prog] s w = Ret (argv', boot, s1, w1) →
      boot_again boot argv' = Ret boot' → set_message boot' s1 w1 = Ret (0, s2, w2) →
      stream w' = stream w2 → started args w'.

Lemma message_of_length l : length l = 1088%nat → message_ok (message_of l).
Proof. intros Hl. unfold message_ok, message_of. simpl. rewrite !length_take, !length_drop. lia. Qed.

Lemma get_message_ok s w :
  roots_ok s → post (get_bootloader_message lite cust alloc_ok fuel zero_message s w) (λ '(_, m, s', _),
    message_ok m ∧ roots_ok s').
Proof.
  intros Hs. destruct (get_bootloader_message_spec lite cust alloc_ok fuel Halloc misc Hmisc Hname Hes Hsize
    Hsmall Hfuel sizes write_size Hinfo Hpages Hroom Hlong Hmount Hchmod Hmkdir Hmounts Hboot zero_message s w Hs)
    as (r & m & s' & w' & Hrun & Hs' & Hin & Hout).
  rewrite Hrun. apply post_ret. split; [|done].
  destruct (Z.le_gt_cases (3 * write_size) (zlen (Bootloader.stream misc w))) as [Hl|Hl].
  - destruct (Hin Hl) as [_ ->]. apply message_of_length. rewrite length_take, length_drop, length_take. lia.
  - destruct (Hout Hl) as [_ ->]. by repeat split.
Qed.

Lemma fopen_root_path_ok {A} (fopen : list Z → W → option A * W) info mp path mode s w :
  get_root_info_for_path lite cust path = Some info → r_mount_point info = Some mp → roots_ok s →
  post (fopen_root_path lite cust alloc_ok fopen path mode s w) (λ '(_, s', _), roots_ok s').
Proof.
  intros Hinfo' Hmp Hs. unfold fopen_root_path.
  eapply (post_bind _ _ (λ '(_, s', _), roots_ok s')).
  { destruct (ensure_root_path_mounted_spec lite cust alloc_ok Halloc path info mp s w) as (r & s' & w' & Hrun & Hs' & _);
      [done..|]. intros a Ha. rewrite Hrun in Ha. by injection Ha as <-. }
  intros [[r s1] w1] Hs1. destruct (negb _); [by apply post_ret|].
  apply post_any. intros [path'|]; [|by apply post_ret].
  apply post_any. intros [? w2]. destruct (fopen path' w2). by apply post_ret.
Qed.

Lemma choose_ok argv s w :
  roots_ok s → post (choose argv s w) (λ '(_, boot, s', _), message_ok boot ∧ roots_ok s').
Proof.
  intros Hs. unfold choose_args. eapply post_bind; [by apply get_message_ok|].
  intros [[[r boot] s1] w1] [Hb Hs1].
  eapply (post_bind _ _ (λ '(_, boot), message_ok boot)).
  { destruct (_ <=? _)%nat; [|by apply post_ret]. eapply post_bind; [apply boot_args_length|].
    intros [args r'] Hr'. apply post_ret. destruct Hb as (? & ? & ?). repeat split; simpl; lia. }
  intros [argv1 boot1] Hb1. eapply (post_bind _ _ (λ '(_, s', _), roots_ok s')).
  { destruct (_ <=? _)%nat; [|by apply post_ret]. unfold get_cmd_file_args.
    eapply post_bind.
    { eapply (fopen_root_path_ok _ (yaffs2_root "CACHE:" "cache" "/cache") (str "/cache"));
        [destruct lite, cust; reflexivity|done|exact Hs1]. }
    intros [[[text|] s2] w2] Hs2; [|by apply post_ret]. apply post_any. intros args. by apply post_ret. }
  intros [[argv2 s2] w2] Hs2. by apply post_ret.
Qed.

(** A run with the program's name only finds the arguments of a message, whatever its command is. *)
Lemma choose_recovery prog args boot m s w s1 w1 :
  restartable args → message_ok boot → recovery m = recovery (boot_message boot args) →
  get_bootloader_message lite cust alloc_ok fuel zero_message s w = Ret (0, m, s1, w1) →
  ∃ boot', choose [prog] s w = Ret (str "recovery" :: args, boot', s1, w1).
Proof.
  clear Hmisc Hes Hsize Hsmall Hfuel Hpages Hroom Hlong Hmounts.
  intros Hargs Hb Hm Hget. pose proof (boot_message_ok boot args Hb) as (_ & _ & Hlen).
  unfold choose_args. rewrite Hget. cbn [mbind outcome_bind length Nat.leb]. rewrite Hm.
  cbn [boot_message recovery] in *. unfold limited in *.
  pose proof Hargs as (Hne & _ & _ & Ht).
  rewrite (take_ge (args_text args)) in * by lia.
  destruct (boot_args_spec args _ Hargs Hlen) as (buf & -> & _).
  cbn [mbind outcome_bind default]. destruct args as [|a args]; [done|]. simpl. by eexists.
Qed.
Lemma choose_found prog args boot s w s1 w1 :
  restartable args → message_ok boot →
  get_bootloader_message lite cust alloc_ok fuel zero_message s w = Ret (0, boot_message boot args, s1, w1) →
  ∃ boot', choose [prog] s w = Ret (str "recovery" :: args, boot', s1, w1).
Proof. intros Hargs Hb. by apply (choose_recovery _ _ boot). Qed.

(** C9: Recovery can be started again at any point. Once a run with restartable arguments has
    stored its message, every later start that is not given arguments gets the same ones,
    after any number of restarts, whatever these runs did to anything but the misc partition;
    it does not look at the command file. Arguments are restartable if there is at least one, none is
    empty or has a NUL or a line break, there are fewer than 100 with the name of the program, and
    the text of the message that holds them is shorter than 1024 bytes; others are cut
    ([long_arguments]). The device works, and recovery is not the bootstrap version. *)
Theorem get_args_restartable prog args s w :
  restartable args → started args w → roots_ok s →
  ∃ boot s1 w1, choose [prog] s w = Ret (str "recovery" :: args, boot, s1, w1).
Proof.
  intros Hargs Hrun. revert prog s.
  assert (Hkept : ∀ argv boot boot' s1 s2 w1 w2 w' prog s,
    drop 1 argv = args → message_ok boot → roots_ok s1 → boot_again boot argv = Ret boot' →
    set_message boot' s1 w1 = Ret (0, s2, w2) → stream w' = stream w2 → roots_ok s →
    ∃ boot s1 w1, choose [prog] s w' = Ret (str "recovery" :: args, boot, s1, w1)).
  { intros argv boot boot' s1 s2 w1 w2 w' prog s <- Hb Hs1 Hagain Hset Hsame Hs.
    rewrite boot_again_spec in Hagain by (done || apply Hargs). injection Hagain as <-.
    eapply set_message_kept in Hset as [_ Hget]; try eassumption; [|by apply boot_message_ok|by apply boot_message_nonzero].
    destruct (Hget zero_message s w' Hs Hsame) as (s3 & w3 & Hrun' & _).
    destruct (choose_found prog _ _ _ _ _ _ Hargs Hb Hrun') as [boot'' ?]. eauto. }
  induction Hrun as [argv argv' boot boot' s s1 s2 w w1 w2 w' Hs Hch Ha Hag Hset Hsame
    |prog argv' boot boot' s s1 s2 w w1 w2 w' Hrun IH Hs Hch Hag Hset Hsame]; intros prog0 s0 Hs0;
    destruct (choose_ok _ _ _ Hs _ Hch) as [Hb Hs1].
  - by eapply (Hkept argv').
  - destruct (IH prog s Hs) as (b & s3 & w3 & Hch'). rewrite Hch in Hch'. injection Hch' as -> -> -> ->.
    exact (Hkept (str "recovery" :: args) _ _ _ _ _ _ _ prog0 s0 eq_refl Hb Hs1 Hag Hset Hsame Hs0).
Qed.
End restart.

(** ** Examples *)

(** An empty line of the command file makes the code copy a null pointer. *)
Example empty_line : read_args 99 (str "--wipe_data" ++ [10; 10]) = Fault NullPointer.
Proof. vm_compute. reflexivity. Qed.
Example two_lines :
  read_args 99 (str "--wipe_cache" ++ [13; 10] ++ str "--send_intent=x") = Ret [str "--wipe_cache"; str "--send_intent=x"].
Proof. vm_compute. reflexivity. Qed.

(** Arguments that the message cannot hold are cut: the next run gets other ones. *)
Example long_arguments :
  let args := [str "--send_intent=" ++ replicate 1010 120; str "--wipe_data"] in
  (m ← boot_again zero_message (str "recovery" :: args); '(found, _) ← boot_args (recovery m); mret found) =
    Ret (Some [str "recovery"; str "--send_intent=" ++ replicate 1000 120]).
Proof. vm_compute. reflexivity. Qed.

(** On the chip of the examples for messages nothing can be mounted, so there are no files. *)
Module RestartDemo.
Abbreviation chip := (Z * (Z → list Z))%type.
#[local] Instance stdio_os : StdioOS chip := {|
  file_text _ _ := None;
  sys_fopen _ _ w := (None, w);
  sys_fputs _ _ w := w;
  sys_fclose _ w := w;
  sys_sync w := w
|}.
#[local] Instance file_system : FileSystem chip := {|
  DirStream := unit;
  DirUtil.sys_stat _ w := (inl ENOENT, w);
  sys_lstat _ w := (inl ENOENT, w);
  DirUtil.sys_mkdir _ _ w := (inl ENOENT, w);
  sys_utime _ _ w := (inl ENOENT, w);
  DirUtil.sys_unlink _ w := (inl ENOENT, w);
  sys_rmdir _ w := (inl ENOENT, w);
  DirUtil.sys_chown _ _ _ w := (inl ENOENT, w);
  DirUtil.sys_chmod _ _ w := (inl ENOENT, w);
  sys_symlink _ _ w := (inl ENOENT, w);
  sys_opendir _ w := (inl ENOENT, w);
  sys_readdir _ w := (inl ENOENT, w);
  sys_closedir _ w := (inl ENOENT, w)
|}.
Definition args : list (list Z) := [str "--send_intent=a b"; str "--wipe_data"].
End RestartDemo.
#[local] Existing Instances RestartDemo.stdio_os RestartDemo.file_system
  MiscDemo.mount_os MiscDemo.driver MiscDemo.os MiscDemo.root_os MiscDemo.root_laws
  MiscDemo.flash_laws MiscDemo.readable MiscDemo.writable.

Module RestartRun.
Import RestartDemo.
Definition choose (argv : list (list Z)) (w : chip) : list (list Z) * bootloader_message * Roots * chip :=
  match choose_args false false (λ _, true) MiscDemo.fuel argv MiscDemo.state0 w with
  | Ret r => r
  | _ => ([], zero_message, MiscDemo.state0, w)
  end.
Definition again (boot : bootloader_message) (argv : list (list Z)) : bootloader_message :=
  match boot_again boot argv with Ret m => m | _ => zero_message end.
Definition set_ (m : bootloader_message) (s : Roots) (w : chip) : Z * Roots * chip :=
  match set_bootloader_message false false (λ _, true) MiscDemo.fuel m s w with
  | Ret r => r
  | _ => (-2, s, w)
  end.
(** The first run, on a blank chip. *)
Definition first := choose (str "recovery" :: args) MiscDemo.blank.
Definition stored := set_ (again first.1.1.2 first.1.1.1) first.1.2 first.2.
End RestartRun.

Lemma get_args_restartable_witness :
  ∃ boot s1 w1, choose_args false false (λ _, true) MiscDemo.fuel [str "recovery"] MiscDemo.state0 RestartRun.stored.2 =
    Ret (str "recovery" :: RestartDemo.args, boot, s1, w1).
Proof.
  refine (get_args_restartable false false (λ _, true) MiscDemo.fuel (λ _, eq_refl) MiscDemo.misc misc_listed
    eq_refl _ _ _ _ (4896, 1632) 544 _ _ _ _ _ _ _ _ _ (str "recovery") RestartDemo.args MiscDemo.state0
    RestartRun.stored.2 _ _ _);
    [done|done|done|vm_compute; lia|done|done|done|vm_compute; lia|done|done|done|intros w; simpl; lia|done| | |by split].
  - apply (bool_decide_unpack _). vm_compute. exact I.
  - refine (started_first false false (λ _, true) MiscDemo.fuel MiscDemo.misc RestartDemo.args
      (str "recovery" :: RestartDemo.args) RestartRun.first.1.1.1 RestartRun.first.1.1.2
      (RestartRun.again RestartRun.first.1.1.2 RestartRun.first.1.1.1) MiscDemo.state0 RestartRun.first.1.2
      RestartRun.stored.1.2 MiscDemo.blank RestartRun.first.2 RestartRun.stored.2 RestartRun.stored.2 _ _ _ _ _ eq_refl);
      [by split|vm_compute; reflexivity..].
Defined.
