(* ===== verification/Terminal.v ===== *)
(** * Terminal

    ui.c: the terminal of the console, with its history of rows, its colours and the escape
    sequences that it understands. *)
From stdpp Require Import relations.
From S2P Require Import Prelude CString.

Definition CONSOLE_BUFFER_ROWS : Z := 26.
Definition CONSOLE_TOTAL_ROWS : Z := 1000 + CONSOLE_BUFFER_ROWS.
Definition CONSOLE_MAX_COLUMNS : Z := 100.
Definition CONSOLE_CHAR_WIDTH : Z := 10.
Definition CONSOLE_CHAR_HEIGHT : Z := 18.
Definition CONSOLE_BEEP : Z := 7.
Definition CONSOLE_ESC : Z := 27.

Inductive system_color := CONSOLE_HEADER_COLOR | CONSOLE_DEFAULT_BACKGROUND_COLOR | CONSOLE_DEFAULT_FRONT_COLOR.

Record color24 := mk_color { c_r : Z; c_g : Z; c_b : Z }.
Definition no_color : color24 := mk_color 0 0 0.
#[export] Instance color24_eq_dec : EqDecision color24.
Proof. solve_decision. Defined.

(** What the diode shows. *)
Inductive led := LED_OFF | LED_ON | LED_BLINK | LED_BLINK_ONCE.

(** ** State

    The variables [console_*] of the file and [led_sts]; the cursor's blinking is part of the
    drawing. *)
Record Term := mk_term {
  screen_rows : Z;
  screen_columns : Z;
  console_text : list (list Z);
  console_text_color : list (list color24);
  current_color : color24;
  top_row : Z;
  force_top_row_on_text : Z;
  force_top_row_reserve : Z;
  cur_row : Z;
  cur_column : Z;
  show_console : bool;
  console_refresh : bool;
  escaped_state : bool;
  escaped_buffer : list Z;
  (** [console_escaped_sequence], as an index of the buffer *)
  escaped_sequence : Z;
  header_color : color24;
  background_color : color24;
  front_color : color24;
  term_colors : list color24;
  led_sts : led
}.

Definition set_text x y (t : Term) : Term :=
  mk_term (screen_rows t) (screen_columns t) x y (current_color t) (top_row t)
    (force_top_row_on_text t) (force_top_row_reserve t) (cur_row t) (cur_column t) (show_console t)
    (console_refresh t) (escaped_state t) (escaped_buffer t) (escaped_sequence t) (header_color t)
    (background_color t) (front_color t) (term_colors t) (led_sts t).
Definition set_color x (t : Term) : Term :=
  mk_term (screen_rows t) (screen_columns t) (console_text t) (console_text_color t) x (top_row t)
    (force_top_row_on_text t) (force_top_row_reserve t) (cur_row t) (cur_column t) (show_console t)
    (console_refresh t) (escaped_state t) (escaped_buffer t) (escaped_sequence t) (header_color t)
    (background_color t) (front_color t) (term_colors t) (led_sts t).
Definition set_top x (t : Term) : Term :=
  mk_term (screen_rows t) (screen_columns t) (console_text t) (console_text_color t) (current_color t) x
    (force_top_row_on_text t) (force_top_row_reserve t) (cur_row t) (cur_column t) (show_console t)
    (console_refresh t) (escaped_state t) (escaped_buffer t) (escaped_sequence t) (header_color t)
    (background_color t) (front_color t) (term_colors t) (led_sts t).
(** The forced top row and its reserve. *)
Definition set_force x y (t : Term) : Term :=
  mk_term (screen_rows t) (screen_columns t) (console_text t) (console_text_color t) (current_color t) (top_row t)
    x y (cur_row t) (cur_column t) (show_console t)
    (console_refresh t) (escaped_state t) (escaped_buffer t) (escaped_sequence t) (header_color t)
    (background_color t) (front_color t) (term_colors t) (led_sts t).
Definition set_cursor x y (t : Term) : Term :=
  mk_term (screen_rows t) (screen_columns t) (console_text t) (console_text_color t) (current_color t) (top_row t)
    (force_top_row_on_text t) (force_top_row_reserve t) x y (show_console t)
    (console_refresh t) (escaped_state t) (escaped_buffer t) (escaped_sequence t) (header_color t)
    (background_color t) (front_color t) (term_colors t) (led_sts t).
Definition set_shown x y (t : Term) : Term :=
  mk_term (screen_rows t) (screen_columns t) (console_text t) (console_text_color t) (current_color t) (top_row t)
    (force_top_row_on_text t) (force_top_row_reserve t) (cur_row t) (cur_column t) x
    y (escaped_state t) (escaped_buffer t) (escaped_sequence t) (header_color t)
    (background_color t) (front_color t) (term_colors t) (led_sts t).
Definition set_escaped x y z (t : Term) : Term :=
  mk_term (screen_rows t) (screen_columns t) (console_text t) (console_text_color t) (current_color t) (top_row t)
    (force_top_row_on_text t) (force_top_row_reserve t) (cur_row t) (cur_column t) (show_console t)
    (console_refresh t) x y z (header_color t)
    (background_color t) (front_color t) (term_colors t) (led_sts t).
Definition set_size x y (t : Term) : Term :=
  mk_term x y (console_text t) (console_text_color t) (current_color t) (top_row t)
    (force_top_row_on_text t) (force_top_row_reserve t) (cur_row t) (cur_column t) (show_console t)
    (console_refresh t) (escaped_state t) (escaped_buffer t) (escaped_sequence t) (header_color t)
    (background_color t) (front_color t) (term_colors t) (led_sts t).
Definition set_led x (t : Term) : Term :=
  mk_term (screen_rows t) (screen_columns t) (console_text t) (console_text_color t) (current_color t) (top_row t)
    (force_top_row_on_text t) (force_top_row_reserve t) (cur_row t) (cur_column t) (show_console t)
    (console_refresh t) (escaped_state t) (escaped_buffer t) (escaped_sequence t) (header_color t)
    (background_color t) (front_color t) (term_colors t) x.

Definition console_term_colors : list color24 :=
  [mk_color 0 0 0; mk_color 205 0 0; mk_color 0 205 0; mk_color 205 205 0;
   mk_color 0 0 238; mk_color 205 0 205; mk_color 0 205 205; mk_color 229 229 229;
   mk_color 127 127 127; mk_color 255 0 0; mk_color 0 255 0; mk_color 255 255 0;
   mk_color 92 91 255; mk_color 255 0 255; mk_color 0 255 255; mk_color 255 255 255].

(** The static initialisers. *)
Definition initial : Term :=
  mk_term 0 0 (replicate (Z.to_nat CONSOLE_TOTAL_ROWS) (replicate (Z.to_nat CONSOLE_MAX_COLUMNS) 0))
    (replicate (Z.to_nat CONSOLE_TOTAL_ROWS) (replicate (Z.to_nat CONSOLE_MAX_COLUMNS) no_color)) no_color
    0 0 0 0 0 false true false (replicate 64 0) 0 (mk_color 255 255 0) (mk_color 0 0 0) (mk_color 229 229 229)
    console_term_colors LED_OFF.

(** ** Arrays of rows *)
Definition put2 {A} (m : list (list A)) (r c : Z) (x : A) : outcome (list (list A)) :=
  row ← rd m r; row ← wr row c x; wr m r row.

(** Put [x] in the [n] cells of row [r] from column [c] on. *)
Fixpoint fill {A} (n : nat) (m : list (list A)) (r c : Z) (x : A) : outcome (list (list A)) :=
  match n with
  | O => mret m
  | S n => m ← put2 m r c x; fill n m r (c + 1) x
  end.

(** [memset] of the first [n] cells of the array as a whole, rows being [width] long. *)
Definition memset2 {A} (width : Z) (m : list (list A)) (x : A) (n : Z) : outcome (list (list A)) :=
  if zlen m * width <? n then Fault OutOfBounds
  else mret (imap (λ r row, imap (λ c y, if Z.of_nat r * width + Z.of_nat c <? n then x else y) row) m).

(** The rows behind the first 1000 come to their place, and are cleared. *)
Definition shift_rows {A} (columns shift : Z) (blank : list A) (m : list (list A)) : list (list A) :=
  imap (λ j row,
    (if Z.of_nat j <? CONSOLE_TOTAL_ROWS - CONSOLE_BUFFER_ROWS
     then take (Z.to_nat columns) (default [] (m !! (j + Z.to_nat shift)%nat)) else blank)
    ++ drop (Z.to_nat columns) row) m.

Definition blank_text (columns : Z) : list Z := replicate (Z.to_nat (columns - 1)) 32 ++ [0].
Definition blank_color (columns : Z) : list color24 := replicate (Z.to_nat columns) no_color.

(** ** Colours, size and scrolling *)
Definition system_front_color (which : system_color) (t : Term) : color24 :=
  match which with
  | CONSOLE_HEADER_COLOR => header_color t
  | CONSOLE_DEFAULT_BACKGROUND_COLOR => background_color t
  | CONSOLE_DEFAULT_FRONT_COLOR => front_color t
  end.
Definition ui_console_set_system_front_color (which : system_color) (t : Term) : Term :=
  set_color (system_front_color which t) t.

Definition console_set_front_term_color (ascii_code : Z) (t : Term) : outcome Term :=
  if (30 <=? ascii_code) && (ascii_code <? 37) then
    c ← rd (term_colors t) (ascii_code - 30); mret (set_color c t)
  else if (90 <=? ascii_code) && (ascii_code <? 97) then
    c ← rd (term_colors t) (ascii_code - 90 + 8); mret (set_color c t)
  else mret t.

(** The screen is used in landscape format. *)
Definition ui_console_get_width (fb_width fb_height : Z) : Z := fb_height.
Definition ui_console_get_height (fb_width fb_height : Z) : Z := fb_width.

Definition ui_console_begin (fb_width fb_height : Z) (t : Term) : outcome Term :=
  let rows := ui_console_get_height fb_width fb_height / CONSOLE_CHAR_HEIGHT in
  let columns := ui_console_get_width fb_width fb_height / CONSOLE_CHAR_WIDTH + 1 in
  text ← memset2 CONSOLE_MAX_COLUMNS (console_text t) 32 (CONSOLE_TOTAL_ROWS * columns);
  color ← memset2 CONSOLE_MAX_COLUMNS (console_text_color t) no_color (CONSOLE_TOTAL_ROWS * columns);
  let text := (λ row, <[Z.to_nat (columns - 1) := 0]> row) <$> text in
  mret (set_color (front_color t) (set_text text color (set_size rows columns (set_force 0 (1 - rows)
    (set_cursor 0 0 (set_top 0 (set_shown true true (set_escaped false (escaped_buffer t) (escaped_sequence t) t)))))))).
Definition ui_console_end (t : Term) : Term := set_size 0 0 (set_shown false (console_refresh t) t).
Definition ui_console_begin_update (t : Term) : Term := set_shown (show_console t) false t.
Definition ui_console_end_update (t : Term) : Term := set_shown (show_console t) true t.
Definition ui_console_get_num_rows (t : Term) : Z := screen_rows t.
Definition ui_console_get_num_columns (t : Term) : Z := screen_columns t - 1.

Definition ui_console_scroll_up (num_rows : Z) (t : Term) : Term :=
  set_top (if top_row t - num_rows <? 0 then 0 else top_row t - num_rows) t.
Definition ui_console_scroll_down (num_rows : Z) (t : Term) : Term :=
  let max_row_top := cur_row t - screen_rows t + 1 in
  let max_row_top := if max_row_top <? force_top_row_on_text t then force_top_row_on_text t else max_row_top in
  let max_row_top := if max_row_top <? 0 then 0 else max_row_top in
  set_top (if max_row_top <? top_row t + num_rows then max_row_top else top_row t + num_rows) t.

(** [continuously] *)
Definition ui_led_blink (continuously : bool) (t : Term) : Term :=
  set_led (if continuously then LED_BLINK else LED_BLINK_ONCE) t.
Definition ui_led_toggle (state : bool) (t : Term) : Term := set_led (if state then LED_ON else LED_OFF) t.

(** ** Characters *)

(** To the next row. *)
Definition next_row (column : Z) (t : Term) : Term :=
  set_cursor (cur_row t + 1) column (set_force (force_top_row_on_text t) (force_top_row_reserve t + 1) t).

Definition put_tab (t : Term) : outcome Term :=
  let end_ := cur_column t + (5 - Z.rem (cur_column t) 5) in
  if screen_columns t - 2 <=? end_ then
    text ← fill (Z.to_nat (screen_columns t - 1 - cur_column t)) (console_text t) (cur_row t) (cur_column t) 32;
    mret (next_row 0 (set_text text (console_text_color t) t))
  else
    text ← fill (Z.to_nat (end_ - cur_column t)) (console_text t) (cur_row t) (cur_column t) 32;
    mret (set_cursor (cur_row t) end_ (set_text text (console_text_color t) t)).

Definition put_backspace (t : Term) : Term :=
  if cur_column t =? 0 then
    if cur_row t =? 0 then t else set_cursor (cur_row t - 1) (screen_columns t - 2) t
  else set_cursor (cur_row t) (cur_column t - 1) t.

Definition put_letter (c : Z) (t : Term) : outcome Term :=
  text ← put2 (console_text t) (cur_row t) (cur_column t) c;
  color ← put2 (console_text_color t) (cur_row t) (cur_column t) (current_color t);
  let t := set_cursor (cur_row t) (cur_column t + 1) (set_text text color t) in
  mret (if screen_columns t - 2 <? cur_column t then next_row 0 t else t).

(** When the last row is passed the history moves up. *)
Definition shift_history (t : Term) : Term :=
  if cur_row t =? CONSOLE_TOTAL_ROWS then
    let shift := cur_row t - (CONSOLE_TOTAL_ROWS - CONSOLE_BUFFER_ROWS) in
    set_cursor (cur_row t - shift) (cur_column t)
      (set_force (force_top_row_on_text t - shift) (force_top_row_reserve t)
        (set_text (shift_rows (screen_columns t) shift (blank_text (screen_columns t)) (console_text t))
          (shift_rows (screen_columns t) shift (blank_color (screen_columns t)) (console_text_color t)) t))
  else t.

Definition console_put_char (c : Z) (t : Term) : outcome Term :=
  t ← (if c =? 10 then mret (next_row (cur_column t) t)
       else if c =? 13 then mret (set_cursor (cur_row t) 0 t)
       else if c =? 9 then put_tab t
       else if c =? 8 then mret (put_backspace t)
       else if c =? CONSOLE_BEEP then mret (ui_led_blink false t)
       else put_letter c t);
  mret (shift_history t).

Fixpoint put_chars (s : list Z) (t : Term) : outcome Term :=
  match s with [] => mret t | c :: s => t ← console_put_char c t; put_chars s t end.

(** ** Escape sequences *)

(** What the sequence has: its brackets, question marks, parameters and argument. *)
Record escape := mk_escape {
  square : Z;
  round_left : Z;
  round_right : Z;
  questions : Z;
  no_parameters : Z;
  parameters : list Z;
  argument : Z
}.

Fixpoint parse_escape (s : list Z) (e : escape) : outcome escape :=
  match s with
  | [] => mret e
  | c :: s =>
      let 'mk_escape sq rl rr q n ps a := e in
      if c =? 91 then parse_escape s (mk_escape (sq + 1) rl rr q n ps a)
      else if c =? 40 then parse_escape s (mk_escape sq (rl + 1) rr q n ps a)
      else if c =? 41 then parse_escape s (mk_escape sq rl (rr + 1) q n ps a)
      else if c =? 63 then parse_escape s (mk_escape sq rl rr (q + 1) n ps a)
      else if c =? 59 then parse_escape s (mk_escape sq rl rr q (n + 1) ps a)
      else if (48 <=? c) && (c <=? 57) then
        p ← rd ps n;
        p ← int_ok (p * 10);
        p ← int_ok (p + (c - 48));
        ps ← wr ps n p;
        parse_escape s (mk_escape sq rl rr q n ps a)
      else mret (mk_escape sq rl rr q n ps c)
  end.

(** The reserve that belongs to the cursor's place. *)
Definition reserve_of (top : Z) (t : Term) : Z := 1 - (top + screen_rows t - cur_row t).

Definition move_up (n : Z) (t : Term) : outcome Term :=
  row ← int_ok (cur_row t - n);
  let t := set_cursor (if row <? force_top_row_on_text t then force_top_row_on_text t else row) (cur_column t) t in
  mret (set_force (force_top_row_on_text t) (reserve_of (force_top_row_on_text t) t) t).
Definition move_down (n : Z) (t : Term) : outcome Term :=
  row ← int_ok (cur_row t + n);
  let t := set_cursor (if force_top_row_on_text t + screen_rows t <=? row
                       then force_top_row_on_text t + screen_rows t - 1 else row) (cur_column t) t in
  mret (set_force (force_top_row_on_text t) (reserve_of (force_top_row_on_text t) t) t).
Definition move_right (n : Z) (t : Term) : outcome Term :=
  column ← int_ok (cur_column t + n);
  mret (set_cursor (cur_row t) (if screen_columns t - 1 <=? column then screen_columns t - 2 else column) t).
Definition move_left (n : Z) (t : Term) : outcome Term :=
  column ← int_ok (cur_column t - n);
  mret (set_cursor (cur_row t) (if column <? 0 then 0 else column) t).
Definition move_to (row column : Z) (t : Term) : Term :=
  let row := if screen_rows t <=? row then screen_rows t - 1 else row in
  let column := if screen_columns t - 1 <=? column then screen_columns t - 2 else column in
  let t := set_cursor (top_row t + row) column t in
  set_force (top_row t) (reserve_of (top_row t) t) t.

(** Blanks without a colour in [n] cells of the cursor's row from column [c] on. *)
Definition clear_cells (n c : Z) (t : Term) : outcome Term :=
  text ← fill (Z.to_nat n) (console_text t) (cur_row t) c 32;
  color ← fill (Z.to_nat n) (console_text_color t) (cur_row t) c no_color;
  mret (set_text text color t).
(** All rows below [row]. *)
Definition clear_rows {A} (columns row : Z) (blank : list A) (m : list (list A)) : list (list A) :=
  imap (λ j r, if row <? Z.of_nat j then blank ++ drop (Z.to_nat columns) r else r) m.
Definition clear_below (t : Term) : outcome Term :=
  t ← clear_cells (screen_columns t - 1 - cur_column t) (cur_column t) t;
  mret (set_text (clear_rows (screen_columns t) (cur_row t) (blank_text (screen_columns t)) (console_text t))
    (clear_rows (screen_columns t) (cur_row t) (blank_color (screen_columns t)) (console_text_color t)) t).
Definition clear_line (p : Z) (t : Term) : outcome Term :=
  if p =? 0 then clear_cells (screen_columns t - 1 - cur_column t) (cur_column t) t
  else if p =? 1 then clear_cells (cur_column t + 1) 0 t
  else if p =? 2 then clear_cells (screen_columns t - 1) 0 t
  else mret t.

Fixpoint set_colors (ps : list Z) (t : Term) : outcome Term :=
  match ps with
  | [] => mret t
  | p :: ps =>
      t ← (if (p =? 0) || (p =? 39) then mret (ui_console_set_system_front_color CONSOLE_DEFAULT_FRONT_COLOR t)
           else if ((30 <=? p) && (p <=? 37)) || ((90 <=? p) && (p <=? 97)) then console_set_front_term_color p t
           else mret t);
      set_colors ps t
  end.

(** [None] is a sequence that is not understood. *)
Definition run_escape (e : escape) (t : Term) : option (outcome Term) :=
  let p0 := default 0 (parameters e !! 0%nat) in
  let p1 := default 0 (parameters e !! 1%nat) in
  if (square e =? 1) && (round_left e =? 0) && (round_right e =? 0) && (questions e =? 0) then
    if argument e =? 65 then Some (move_up p0 t)
    else if argument e =? 66 then Some (move_down p0 t)
    else if argument e =? 67 then Some (move_right p0 t)
    else if argument e =? 68 then Some (move_left p0 t)
    else if argument e =? 72 then Some (mret (move_to p0 p1 t))
    else if argument e =? 74 then Some (clear_below t)
    else if argument e =? 75 then Some (clear_line p0 t)
    else if argument e =? 109 then Some (set_colors (take (Z.to_nat (no_parameters e)) (parameters e)) t)
    else None
  else None.

(** The parameters are also printed to the log, which reads as many as were counted. *)
Definition console_unescape (t : Term) : outcome Term :=
  let s := c_string (escaped_buffer t) in
  e ← parse_escape s (mk_escape 0 0 0 0 0 (replicate 32 0) 0);
  let n := no_parameters e + 1 in
  if 32 <? n then Fault OutOfBounds
  else
    match run_escape (mk_escape (square e) (round_left e) (round_right e) (questions e) n (parameters e) (argument e)) t with
    | Some m => m
    | None => t ← console_put_char 94 t; put_chars s t
    end.

Definition in_sequence (c : Z) : bool :=
  (c =? 91) || (c =? 40) || (c =? 63) || (c =? 41) || (c =? 59) || ((48 <=? c) && (c <=? 57)).

Definition console_put_escape_sequence (c : Z) (t : Term) : outcome Term :=
  buffer ← wr (escaped_buffer t) (escaped_sequence t) c;
  let t := set_escaped (escaped_state t) buffer (escaped_sequence t + 1) t in
  if in_sequence c then mret t
  else
    buffer ← wr (escaped_buffer t) (escaped_sequence t) 0;
    t ← console_unescape (set_escaped (escaped_state t) buffer (escaped_sequence t) t);
    mret (set_escaped false (escaped_buffer t) (escaped_sequence t) t).

(** ** Printing *)
Definition print_char (c : Z) (t : Term) : outcome Term :=
  if c =? CONSOLE_ESC then
    buffer ← wr (escaped_buffer t) 0 0;
    mret (set_escaped true buffer 0 t)
  else if escaped_state t then console_put_escape_sequence c t
  else console_put_char c t.

Fixpoint print_chars (s : list Z) (t : Term) : outcome Term :=
  match s with [] => mret t | c :: s => t ← print_char c t; print_chars s t end.

Definition settle (t : Term) : Term :=
  let t := if 0 <? force_top_row_reserve t
           then set_force (force_top_row_on_text t + force_top_row_reserve t) 0 t else t in
  set_top (if force_top_row_on_text t <? 0 then 0 else force_top_row_on_text t) t.

Definition ui_console_print (s : list Z) (t : Term) : outcome Term :=
  t ← print_chars s t; mret (settle t).

(** ** Bounds *)
Definition shape {A} (m : list (list A)) : Prop :=
  zlen m = CONSOLE_TOTAL_ROWS ∧ Forall (λ r, zlen r = CONSOLE_MAX_COLUMNS) m.

Section shapes.
Context {A : Type}.
Implicit Types (m : list (list A)) (x : A).

Lemma put2_shape m r c x :
  shape m → 0 ≤ r < CONSOLE_TOTAL_ROWS → 0 ≤ c < CONSOLE_MAX_COLUMNS → wp (put2 m r c x) shape.
Proof.
  intros [Hlen Hrows] Hr Hc. unfold put2. destruct (rd_in_bounds m r) as [row Hrow]; [lia|].
  rewrite Hrow. cbn [mbind outcome_bind]. apply rd_Some in Hrow as [_ Hrow].
  pose proof (proj1 (Forall_lookup _ _) Hrows _ _ Hrow) as Hw. simpl in Hw.
  rewrite wr_in_bounds by lia. cbn [mbind outcome_bind]. rewrite wr_in_bounds by lia.
  split; [by rewrite length_insert|]. apply Forall_insert; [done|]. by rewrite length_insert.
Qed.

Lemma fill_shape n m r c x :
  shape m → 0 ≤ r < CONSOLE_TOTAL_ROWS → 0 ≤ c → c + Z.of_nat n ≤ CONSOLE_MAX_COLUMNS →
  wp (fill n m r c x) shape.
Proof.
  intros Hm Hr. revert m c Hm. induction n as [|n IH]; intros m c Hm Hc Hn; [done|]. cbn [fill].
  apply wp_bind. eapply wp_mono; [apply put2_shape; lia || done|]. intros m' Hm'. apply IH; lia || done.
Qed.

Lemma imap_shape (f : nat → list A → list A) m :
  shape m → (∀ j row, row ∈ m → zlen (f j row) = CONSOLE_MAX_COLUMNS) → shape (imap f m).
Proof.
  intros [Hlen Hrows] Hf. split; [by rewrite length_imap|]. apply Forall_lookup. intros j row Hj.
  rewrite list_lookup_imap in Hj. destruct (m !! j) as [row'|] eqn:Hrow; [|done].
  simpl in Hj. injection Hj as <-. apply Hf. by eapply list_elem_of_lookup_2.
Qed.

Lemma shift_rows_shape columns blank m :
  shape m → 0 ≤ columns ≤ CONSOLE_MAX_COLUMNS → zlen blank = columns →
  shape (shift_rows columns CONSOLE_BUFFER_ROWS blank m).
Proof.
  intros Hm Hc Hb. assert (Hm' := Hm). destruct Hm' as [Hlen Hrows]. unfold shift_rows, CONSOLE_TOTAL_ROWS, CONSOLE_BUFFER_ROWS in *.
  split; [by rewrite length_imap|]. apply Forall_lookup. intros j row Hj.
  rewrite list_lookup_imap in Hj. destruct (m !! j) as [r|] eqn:Hr; [|done]. simpl in Hj. injection Hj as <-.
  pose proof (proj1 (Forall_lookup _ _) Hrows _ _ Hr) as Hw. simpl in Hw.
  rewrite length_app, length_drop. destruct (Z.ltb_spec (Z.of_nat j) (1000 + 26 - 26)); [|lia].
  destruct (lookup_lt_is_Some_2 m (j + Z.to_nat 26)) as [r' Hr']; [lia|].
  rewrite Hr'. simpl. pose proof (proj1 (Forall_lookup _ _) Hrows _ _ Hr') as Hw'. simpl in Hw'.
  rewrite length_take. lia.
Qed.

Lemma clear_rows_shape columns row blank m :
  shape m → 0 ≤ columns ≤ CONSOLE_MAX_COLUMNS → zlen blank = columns → shape (clear_rows columns row blank m).
Proof.
  intros Hm Hc Hb. apply imap_shape; [done|]. intros j r Hr. destruct Hm as [_ Hrows].
  pose proof (proj1 (Forall_forall _ _) Hrows _ Hr) as Hw. simpl in Hw.
  destruct (_ <? _); [|done]. rewrite length_app, length_drop. lia.
Qed.
End shapes.

Lemma blank_text_length columns : 1 ≤ columns → zlen (blank_text columns) = columns.
Proof. intros. unfold blank_text. rewrite length_app, length_replicate. simpl. lia. Qed.
Lemma blank_color_length columns : 1 ≤ columns → zlen (blank_color columns) = columns.
Proof. intros. unfold blank_color. rewrite length_replicate. lia. Qed.

(** The terminal of a screen with [R] rows and [C] columns, the cursor above row [limit] and at
    most [n] rows below the screen: nothing is outside its array, and the screen is inside the
    history. *)
Record term_ok (R C n limit : Z) (t : Term) : Prop := {
  ok_rows : screen_rows t = R;
  ok_columns : screen_columns t = C;
  ok_text : shape (console_text t);
  ok_color : shape (console_text_color t);
  ok_column : 0 ≤ cur_column t ≤ C - 2;
  ok_row : 0 ≤ cur_row t < limit;
  ok_reserve : force_top_row_reserve t = cur_row t - force_top_row_on_text t - R + 1;
  ok_below : 0 ≤ cur_row t - force_top_row_on_text t ≤ R - 1 + n;
  ok_force : 0 ≤ force_top_row_on_text t ∧ force_top_row_on_text t + R ≤ CONSOLE_TOTAL_ROWS;
  ok_top : 0 ≤ top_row t ∧ top_row t + R ≤ CONSOLE_TOTAL_ROWS;
  ok_colors : zlen (term_colors t) = 16
}.

(** The sequence that is being read. *)
Definition escape_of (t : Term) : bool * list Z * Z := (escaped_state t, escaped_buffer t, escaped_sequence t).

Section bounds.
Context (R C : Z) (HR : 1 ≤ R) (HC : 2 ≤ C ≤ CONSOLE_MAX_COLUMNS).
Implicit Types (t : Term) (n c : Z).

(** What a step on a terminal keeps. *)
Definition step_ok (n limit : Z) t t' : Prop := term_ok R C n limit t' ∧ escape_of t' = escape_of t.

(** What is not about the arrays is arithmetic. *)
Ltac term :=
  repeat match goal with H : term_ok _ _ _ _ _ |- _ => destruct H end;
  unfold CONSOLE_TOTAL_ROWS, CONSOLE_BUFFER_ROWS, CONSOLE_MAX_COLUMNS, reserve_of in *; split; [split|]; simpl in *; try done; try lia.

Lemma next_row_ok n column t :
  term_ok R C n CONSOLE_TOTAL_ROWS t → 0 ≤ column ≤ C - 2 →
  step_ok (n + 1) (CONSOLE_TOTAL_ROWS + 1) t (next_row column t).
Proof. intros. term. Qed.

Lemma put_tab_ok n t :
  term_ok R C n CONSOLE_TOTAL_ROWS t → 0 ≤ n → wp (put_tab t) (step_ok (n + 1) (CONSOLE_TOTAL_ROWS + 1) t).
Proof.
  intros Ht Hn. assert (H' := Ht). destruct H'. unfold put_tab.
  pose proof (Z.rem_bound_pos (cur_column t) 5 ltac:(lia) ltac:(lia)) as Hrem.
  destruct (Z.leb_spec (screen_columns t - 2) (cur_column t + (5 - Z.rem (cur_column t) 5))); apply wp_bind;
    (eapply wp_mono; [apply fill_shape; lia || done|]); intros text Htext; apply wp_ret.
  - apply (next_row_ok n 0 (set_text text (console_text_color t) t)); [|lia]. by split.
  - term.
Qed.

Lemma put_backspace_ok n t :
  term_ok R C n CONSOLE_TOTAL_ROWS t → cur_column t ≠ 0 → 0 ≤ n →
  step_ok (n + 1) (CONSOLE_TOTAL_ROWS + 1) t (put_backspace t).
Proof. intros Ht Hc Hn. unfold put_backspace. rewrite (proj2 (Z.eqb_neq _ _)) by done. term. Qed.

Lemma put_letter_ok n c t :
  term_ok R C n CONSOLE_TOTAL_ROWS t → 0 ≤ n → wp (put_letter c t) (step_ok (n + 1) (CONSOLE_TOTAL_ROWS + 1) t).
Proof.
  intros Ht Hn. assert (H' := Ht). destruct H'. unfold put_letter.
  apply wp_bind. eapply wp_mono; [apply put2_shape; lia || done|]. intros text Htext.
  apply wp_bind. eapply wp_mono; [apply put2_shape; lia || done|]. intros color Hcolor. apply wp_ret.
  cbn [screen_columns set_cursor set_text cur_column].
  destruct (Z.ltb_spec (screen_columns t - 2) (cur_column t + 1)); term.
Qed.

Lemma shift_history_ok n t :
  term_ok R C n (CONSOLE_TOTAL_ROWS + 1) t → R - 1 + n ≤ 1000 →
  step_ok n CONSOLE_TOTAL_ROWS t (shift_history t).
Proof.
  intros Ht Hn. unfold shift_history. destruct (Z.eqb_spec (cur_row t) CONSOLE_TOTAL_ROWS) as [He|He]; [|term].
  rewrite He. replace (CONSOLE_TOTAL_ROWS - (CONSOLE_TOTAL_ROWS - CONSOLE_BUFFER_ROWS)) with CONSOLE_BUFFER_ROWS by lia.
  destruct Ht. split; [split|]; cbn; unfold CONSOLE_TOTAL_ROWS, CONSOLE_BUFFER_ROWS in *; try done; try lia.
  - apply shift_rows_shape; [done|lia|]. rewrite blank_text_length; lia.
  - apply shift_rows_shape; [done|lia|]. rewrite blank_color_length; lia.
Qed.

Lemma console_put_char_ok n c t :
  term_ok R C n CONSOLE_TOTAL_ROWS t → 0 ≤ n → R + n ≤ 1000 → (c = 8 → cur_column t ≠ 0) →
  wp (console_put_char c t) (step_ok (n + 1) CONSOLE_TOTAL_ROWS t).
Proof.
  intros Ht Hn Hsmall Hback. unfold console_put_char. apply wp_bind.
  eapply (wp_mono _ (step_ok (n + 1) (CONSOLE_TOTAL_ROWS + 1) t)).
  - destruct (c =? 10). { apply wp_ret, next_row_ok; [done|]. apply Ht. }
    destruct (c =? 13). { apply wp_ret. term. }
    destruct (c =? 9). { by apply put_tab_ok. }
    destruct (Z.eqb_spec c 8). { apply wp_ret, put_backspace_ok; auto. }
    destruct (_ =? _). { apply wp_ret. term. }
    by apply put_letter_ok.
  - intros t' [Ht' He']. apply wp_ret. destruct (shift_history_ok (n + 1) t' Ht') as [Hs Hes]; [lia|].
    split; [done|]. by rewrite Hes.
Qed.

Lemma put_chars_ok s n t :
  term_ok R C n CONSOLE_TOTAL_ROWS t → 0 ≤ n → R + n + zlen s ≤ 1001 → Forall (λ c, c ≠ 8) s →
  wp (put_chars s t) (step_ok (n + zlen s) CONSOLE_TOTAL_ROWS t).
Proof.
  intros Ht Hn Hsmall Hs. revert n t Ht Hn Hsmall. induction Hs as [|c s Hc Hs IH]; intros n t Ht Hn Hsmall.
  { simpl. rewrite Z.add_0_r. by split. }
  cbn [put_chars length] in *. apply wp_bind. eapply wp_mono; [apply (console_put_char_ok n); lia || done|].
  intros t' [Ht' He']. eapply wp_mono; [apply (IH (n + 1)); lia || done|].
  intros t'' [Ht'' He'']. split; [|congruence]. by replace (n + Z.of_nat (S (length s))) with (n + 1 + zlen s) by lia.
Qed.

(** *** Escape sequences *)
Lemma move_up_ok n p t :
  term_ok R C n CONSOLE_TOTAL_ROWS t → 0 ≤ p < 10 ^ 9 → 0 ≤ n → wp (move_up p t) (step_ok n CONSOLE_TOTAL_ROWS t).
Proof.
  intros Ht Hp Hn. assert (H' := Ht). destruct H'. unfold move_up.
  unfold CONSOLE_TOTAL_ROWS, CONSOLE_BUFFER_ROWS in ok_row0.
  rewrite int_ok_small by lia. apply wp_ret.
  destruct (Z.ltb_spec (cur_row t - p) (force_top_row_on_text t)); term.
Qed.
Lemma move_down_ok n p t :
  term_ok R C n CONSOLE_TOTAL_ROWS t → 0 ≤ p < 10 ^ 9 → 0 ≤ n → wp (move_down p t) (step_ok n CONSOLE_TOTAL_ROWS t).
Proof.
  intros Ht Hp Hn. assert (H' := Ht). destruct H'. unfold move_down.
  unfold CONSOLE_TOTAL_ROWS, CONSOLE_BUFFER_ROWS in ok_row0.
  rewrite int_ok_small by lia. apply wp_ret.
  destruct (Z.leb_spec (force_top_row_on_text t + screen_rows t) (cur_row t + p)); term.
Qed.
Lemma move_right_ok n p t :
  term_ok R C n CONSOLE_TOTAL_ROWS t → 0 ≤ p < 10 ^ 9 → wp (move_right p t) (step_ok n CONSOLE_TOTAL_ROWS t).
Proof.
  intros Ht Hp. assert (H' := Ht). destruct H'. unfold move_right.
  unfold CONSOLE_MAX_COLUMNS in HC.
  rewrite int_ok_small by lia. apply wp_ret.
  destruct (Z.leb_spec (screen_columns t - 1) (cur_column t + p)); term.
Qed.
Lemma move_left_ok n p t :
  term_ok R C n CONSOLE_TOTAL_ROWS t → 0 ≤ p < 10 ^ 9 → wp (move_left p t) (step_ok n CONSOLE_TOTAL_ROWS t).
Proof.
  intros Ht Hp. assert (H' := Ht). destruct H'. unfold move_left.
  unfold CONSOLE_MAX_COLUMNS in HC.
  rewrite int_ok_small by lia. apply wp_ret.
  destruct (Z.ltb_spec (cur_column t - p) 0); term.
Qed.
Lemma move_to_ok n p q t :
  term_ok R C n CONSOLE_TOTAL_ROWS t → 0 ≤ p → 0 ≤ q → 0 ≤ n → step_ok n CONSOLE_TOTAL_ROWS t (move_to p q t).
Proof.
  intros Ht Hp Hq Hn. assert (H' := Ht). destruct H'. unfold move_to.
  destruct (Z.leb_spec (screen_rows t) p), (Z.leb_spec (screen_columns t - 1) q); term.
Qed.

Lemma clear_cells_ok n k c t :
  term_ok R C n CONSOLE_TOTAL_ROWS t → 0 ≤ c → c + Z.max 0 k ≤ CONSOLE_MAX_COLUMNS →
  wp (clear_cells k c t) (step_ok n CONSOLE_TOTAL_ROWS t).
Proof.
  intros Ht Hc Hk. assert (H' := Ht). destruct H'. unfold clear_cells.
  apply wp_bind. eapply wp_mono; [apply fill_shape; lia || done|]. intros text Htext.
  apply wp_bind. eapply wp_mono; [apply fill_shape; lia || done|]. intros color Hcolor. apply wp_ret. term.
Qed.
Lemma clear_below_ok n t :
  term_ok R C n CONSOLE_TOTAL_ROWS t → wp (clear_below t) (step_ok n CONSOLE_TOTAL_ROWS t).
Proof.
  intros Ht. assert (H' := Ht). destruct H'. unfold clear_below.
  apply wp_bind. eapply wp_mono; [apply clear_cells_ok; lia || done|]. intros t' [Ht' He']. apply wp_ret.
  destruct Ht'. split; [split|]; cbn; try done.
  - apply clear_rows_shape; [done|lia|]. rewrite blank_text_length; lia.
  - apply clear_rows_shape; [done|lia|]. rewrite blank_color_length; lia.
Qed.
Lemma clear_line_ok n p t :
  term_ok R C n CONSOLE_TOTAL_ROWS t → wp (clear_line p t) (step_ok n CONSOLE_TOTAL_ROWS t).
Proof.
  intros Ht. assert (H' := Ht). destruct H'. unfold clear_line.
  repeat destruct (_ =? _); [apply clear_cells_ok; lia || done..|]. by apply wp_ret.
Qed.

Lemma set_color_ok n (x : color24) t : term_ok R C n CONSOLE_TOTAL_ROWS t → step_ok n CONSOLE_TOTAL_ROWS t (set_color x t).
Proof. intros. term. Qed.
Lemma console_set_front_term_color_ok n p t :
  term_ok R C n CONSOLE_TOTAL_ROWS t → wp (console_set_front_term_color p t) (step_ok n CONSOLE_TOTAL_ROWS t).
Proof.
  intros Ht. unfold console_set_front_term_color. pose proof (ok_colors _ _ _ _ _ Ht) as Hcolors.
  destruct ((30 <=? p) && (p <? 37)) eqn:Hlow; [|destruct ((90 <=? p) && (p <? 97)) eqn:Hhigh].
  - apply wp_bind. destruct (rd_in_bounds (term_colors t) (p - 30)) as [x ->]; [lia|].
    by apply wp_ret, set_color_ok.
  - apply wp_bind. destruct (rd_in_bounds (term_colors t) (p - 90 + 8)) as [x ->]; [lia|].
    by apply wp_ret, set_color_ok.
  - by apply wp_ret.
Qed.
Lemma step_ok_trans n limit t1 t2 t3 : step_ok n limit t1 t2 → step_ok n limit t2 t3 → step_ok n limit t1 t3.
Proof. intros [_ ?] [? ?]. split; [done|congruence]. Qed.
Lemma set_colors_ok n ps t :
  term_ok R C n CONSOLE_TOTAL_ROWS t → wp (set_colors ps t) (step_ok n CONSOLE_TOTAL_ROWS t).
Proof.
  revert t. induction ps as [|p ps IH]; intros t Ht; [by apply wp_ret|]. cbn [set_colors].
  apply wp_bind. eapply (wp_mono _ (step_ok n CONSOLE_TOTAL_ROWS t)).
  - destruct (_ || _); [by apply wp_ret, set_color_ok|]. destruct (_ || _); [|by apply wp_ret].
    by apply console_set_front_term_color_ok.
  - intros t' Ht'. eapply wp_mono; [apply IH, Ht'|]. intros t''. by apply step_ok_trans.
Qed.

Lemma run_escape_ok n e t m :
  term_ok R C n CONSOLE_TOTAL_ROWS t → 0 ≤ n → Forall (λ p, 0 ≤ p < 10 ^ 9) (parameters e) →
  run_escape e t = Some m → wp m (step_ok n CONSOLE_TOTAL_ROWS t).
Proof.
  intros Ht Hn Hps. unfold run_escape.
  assert (Hp : ∀ i, 0 ≤ default 0 (parameters e !! i) < 10 ^ 9).
  { intros i. destruct (parameters e !! i) as [p|] eqn:Hi; simpl; [|lia].
    exact (proj1 (Forall_lookup _ _) Hps _ _ Hi). }
  pose proof (Hp 0%nat). pose proof (Hp 1%nat).
  destruct (_ && _); [|done].
  repeat (destruct (argument e =? _); [intros [= <-]|]); [..|done].
  - by apply move_up_ok.
  - by apply move_down_ok.
  - by apply move_right_ok.
  - by apply move_left_ok.
  - apply wp_ret, move_to_ok; lia || done.
  - by apply clear_below_ok.
  - by apply clear_line_ok.
  - by apply set_colors_ok.
Qed.

(** A short sequence has few and small parameters. *)
Lemma parse_escape_ok body last e k :
  Forall (λ c, in_sequence c = true) body → in_sequence last = false →
  0 ≤ k → k + zlen body ≤ 9 → 0 ≤ no_parameters e → no_parameters e + zlen body ≤ 31 →
  zlen (parameters e) = 32 → Forall (λ p, 0 ≤ p < 10 ^ k) (parameters e) →
  wp (parse_escape (body ++ [last]) e) (λ e', no_parameters e' ≤ 31 ∧ Forall (λ p, 0 ≤ p < 10 ^ 9) (parameters e')).
Proof.
  intros Hbody Hlast. revert e k. induction Hbody as [|c body Hc Hbody IH]; intros [sq rl rr q m ps a] k Hk Hk9 Hm Hm31 Hlen Hps.
  { simpl in *. unfold in_sequence in Hlast. repeat (destruct (last =? _); [done|]). simpl in *. rewrite Hlast. simpl.
    split; [lia|]. eapply Forall_impl; [exact Hps|]. intros p [? Hp]. simpl. split; [done|].
    eapply Z.lt_le_trans; [exact Hp|]. apply Z.pow_le_mono_r; lia. }
  cbn [app parse_escape length no_parameters parameters] in *.
  assert (Hps' : Forall (λ p, 0 ≤ p < 10 ^ (k + 1)) ps).
  { eapply Forall_impl; [exact Hps|]. intros p [? Hp]. simpl. split; [done|].
    eapply Z.lt_le_trans; [exact Hp|]. apply Z.pow_le_mono_r; lia. }
  unfold in_sequence in Hc.
  destruct (c =? 91), (c =? 40), (c =? 41), (c =? 63), (c =? 59);
    try (apply (IH _ (k + 1)); simpl; lia || done).
  simpl in Hc. rewrite Hc. destruct (rd_in_bounds ps m) as [p Hp]; [lia|]. rewrite Hp. cbn [mbind outcome_bind].
  apply rd_Some in Hp as [_ Hp]. pose proof (proj1 (Forall_lookup _ _) Hps _ _ Hp) as Hpk. simpl in Hpk.
  assert (Hpow : 10 ^ (k + 1) = 10 * 10 ^ k) by (rewrite Z.pow_add_r; lia).
  assert (10 ^ (k + 1) ≤ 10 ^ 9) by (apply Z.pow_le_mono_r; lia).
  rewrite int_ok_small by lia. cbn [mbind outcome_bind]. rewrite int_ok_small by lia. cbn [mbind outcome_bind].
  rewrite wr_in_bounds by lia. cbn [mbind outcome_bind].
  apply (IH _ (k + 1)); cbn [no_parameters parameters]; try lia; [by rewrite length_insert|].
  apply Forall_insert; [done|]. lia.
Qed.

(** *** Printing *)

(** The characters of a sequence that are still to be printed if it is not understood. *)
Definition pending t : Z := if escaped_state t then escaped_sequence t + 1 else 0.

Record print_ok (n : Z) t : Prop := {
  po_pending : 0 ≤ n - pending t;
  po_term : term_ok R C (n - pending t) CONSOLE_TOTAL_ROWS t;
  po_buffer : zlen (escaped_buffer t) = 64;
  po_sequence : escaped_state t = true → 0 ≤ escaped_sequence t ≤ 9 ∧
    Forall (λ c, in_sequence c = true) (take (Z.to_nat (escaped_sequence t)) (escaped_buffer t))
}.

(** Characters that the terminal is safe with: a step back stays in its row, and no sequence has
    more than nine characters before its last one. *)
Definition tame_char c t : bool :=
  negb (c =? 0) &&
  (negb (c =? 8) || (negb (escaped_state t) && negb (cur_column t =? 0))) &&
  (negb (escaped_state t) || negb (in_sequence c) || (escaped_sequence t <? 9)).

Lemma term_ok_more n n' limit t : term_ok R C n limit t → n ≤ n' → term_ok R C n' limit t.
Proof. intros [] ?. split; try done. lia. Qed.
Lemma term_ok_escaped n limit t x y z : term_ok R C n limit t → term_ok R C n limit (set_escaped x y z t).
Proof. intros []. by split. Qed.

Lemma in_sequence_nonzero c : in_sequence c = true → c ≠ 0 ∧ c ≠ 8.
Proof. by intros H; split; intros ->. Qed.

(** The buffer holds the sequence, with its last character and a NUL. *)
Lemma sequence_string (buffer : list Z) c k :
  zlen buffer = 64 → (k ≤ 9)%nat → c ≠ 0 → Forall (λ c, in_sequence c = true) (take k buffer) →
  c_string (<[S k := 0]> (<[k := c]> buffer)) = take k buffer ++ [c].
Proof.
  intros Hlen Hk Hc Hbody.
  rewrite (insert_take_drop _ (S k)) by (rewrite length_insert; lia).
  rewrite (insert_take_drop buffer k) at 1 by lia.
  change (c :: ?l) with ([c] ++ l). rewrite app_assoc, take_app_length' by (rewrite length_app, length_take; simpl; lia).
  apply c_string_app. apply Forall_app. split; [|by constructor].
  eapply Forall_impl; [exact Hbody|]. intros x Hx. by apply in_sequence_nonzero.
Qed.

(** Reading a sequence to its end. *)
Lemma console_unescape_ok n body c t :
  term_ok R C n CONSOLE_TOTAL_ROWS t → 0 ≤ n → R + n + zlen body + 2 ≤ 1001 →
  c_string (escaped_buffer t) = body ++ [c] → zlen body ≤ 9 → c ≠ 8 →
  Forall (λ c, in_sequence c = true) body → in_sequence c = false →
  wp (console_unescape t) (step_ok (n + zlen body + 2) CONSOLE_TOTAL_ROWS t).
Proof.
  intros Ht Hn Hsmall Hs Hlen H8 Hbody Hc. unfold console_unescape. rewrite Hs.
  apply wp_bind. eapply wp_mono; [apply (parse_escape_ok body c _ 0); simpl; try lia; try done|].
  { repeat (constructor; [lia|]). constructor. }
  intros e [Hm Hps]. destruct (Z.ltb_spec 32 (no_parameters e + 1)); [lia|].
  destruct (run_escape _ t) as [m|] eqn:Hrun.
  - eapply wp_mono; [eapply (run_escape_ok n); [done|done| |exact Hrun]; done|].
    intros t' [? ?]. split; [|done]. eapply term_ok_more; [done|lia].
  - apply wp_bind. eapply wp_mono; [apply (console_put_char_ok n); lia || done|]. intros t' [Ht' He'].
    eapply wp_mono; [apply (put_chars_ok (body ++ [c]) (n + 1)); try done; try lia|].
    + rewrite length_app. simpl. lia.
    + apply Forall_app. split; [|by constructor].
      eapply Forall_impl; [exact Hbody|]. intros x Hx. by apply in_sequence_nonzero.
    + intros t'' [Ht'' He'']. split; [|congruence]. rewrite length_app in Ht''. simpl in Ht''.
      by replace (n + zlen body + 2) with (n + 1 + Z.of_nat (length body + 1)) by lia.
Qed.

Lemma print_char_ok n c t :
  print_ok n t → tame_char c t = true → R + n ≤ 1000 → wp (print_char c t) (print_ok (n + 1)).
Proof.
  intros [Hp Ht Hb Hseq] Hc Hsmall. unfold print_char, CONSOLE_ESC.
  destruct (Z.eqb_spec c 27) as [->|Hesc].
  { rewrite wr_in_bounds by lia. cbn [mbind outcome_bind]. assert (0 ≤ pending t) by (unfold pending; destruct (escaped_state t); [destruct (Hseq eq_refl)|]; lia).
    apply wp_ret. split; unfold pending in *; simpl; try lia.
    - eapply term_ok_escaped, term_ok_more; [exact Ht|]. lia.
    - by rewrite length_insert.
    - intros _. split; [lia|]. constructor. }
  unfold tame_char in Hc. destruct (escaped_state t) eqn:He; cycle 1.
  { unfold pending in *. rewrite He, Z.sub_0_r in *.
    eapply wp_mono; [apply (console_put_char_ok n); lia || done|].
    intros t' [Ht' Hesc']. injection Hesc' as Hes Heb Heq. split; rewrite ?Hes, ?He, ?Heb; try done.
    - unfold pending. rewrite Hes, He. lia.
    - unfold pending. by rewrite Hes, He, Z.sub_0_r. }
  destruct (Hseq eq_refl) as [Hk Hbody]. unfold pending in *. rewrite He in *. simpl in Hc.
  unfold console_put_escape_sequence. rewrite wr_in_bounds by lia. cbn [mbind outcome_bind].
  cbn [escaped_state set_escaped escaped_sequence escaped_buffer].
  destruct (in_sequence c) eqn:Hin.
  - apply wp_ret. assert (Hlt : escaped_sequence t < 9) by lia.
    split; unfold pending; cbn [escaped_state set_escaped escaped_sequence escaped_buffer]; rewrite ?He; [lia| |by rewrite length_insert|].
    + eapply term_ok_escaped, term_ok_more; [exact Ht|lia].
    + intros _. split; [lia|]. rewrite Z2Nat.inj_add, Nat.add_1_r by lia.
      rewrite (take_S_r _ _ c) by (apply list_lookup_insert_eq; lia).
      rewrite take_insert_ge by lia. apply Forall_app. split; [done|]. by constructor.
  - rewrite wr_in_bounds by (rewrite length_insert; lia). cbn [mbind outcome_bind].
    rewrite Z2Nat.inj_add, Nat.add_1_r by lia.
    apply wp_bind. eapply wp_mono.
    { apply (console_unescape_ok (n - (escaped_sequence t + 1)) (take (Z.to_nat (escaped_sequence t)) (escaped_buffer t)) c);
        cbn [escaped_buffer set_escaped]; rewrite ?length_take; try lia; try done.
      - do 2 eapply term_ok_escaped. exact Ht.
      - apply sequence_string; try done; lia. }
    intros t' [Ht' He']. rewrite length_take in Ht'. apply wp_ret.
    injection He' as _ Heb _. split; unfold pending; cbn [escaped_state set_escaped escaped_sequence escaped_buffer]; try done; try lia.
    + eapply term_ok_escaped, term_ok_more; [exact Ht'|lia].
    + rewrite Heb. by rewrite !length_insert.
Qed.

Fixpoint tame (s : list Z) t : bool :=
  match s with
  | [] => true
  | c :: s => tame_char c t && match print_char c t with Ret t => tame s t | _ => true end
  end.

Lemma print_chars_ok s n t :
  print_ok n t → tame s t = true → R + n + zlen s ≤ 1001 → wp (print_chars s t) (print_ok (n + zlen s)).
Proof.
  revert n t. induction s as [|c s IH]; intros n t Ht Hs Hsmall.
  { simpl. by rewrite Z.add_0_r. }
  cbn [tame print_chars length] in *. apply andb_prop in Hs as [Hc Hs].
  destruct (wp_Ret_inv _ _ (print_char_ok n c t Ht Hc ltac:(lia))) as (t' & Hrun & Ht').
  rewrite Hrun in *. cbn [mbind outcome_bind].
  eapply wp_mono; [apply (IH (n + 1)); lia || done|].
  intros t'' Ht''. by replace (n + Z.of_nat (S (length s))) with (n + 1 + zlen s) by lia.
Qed.

(** The terminal between two prints: the cursor is not below the screen. *)
Definition terminal_ok t : Prop := print_ok (pending t) t.

Lemma settle_ok n t :
  print_ok n t → terminal_ok (settle t) ∧ top_row (settle t) ≤ cur_row (settle t) < top_row (settle t) + R.
Proof.
  intros [Hp Ht Hb Hseq]. assert (Ht' := Ht). destruct Ht'. unfold settle, CONSOLE_TOTAL_ROWS in *.
  set (t1 := if 0 <? force_top_row_reserve t then _ else t).
  assert (H1 : screen_rows t1 = R ∧ force_top_row_on_text t1 ≤ cur_row t < force_top_row_on_text t1 + R ∧
    0 ≤ force_top_row_on_text t1 ∧ force_top_row_on_text t1 + R ≤ 1000 + CONSOLE_BUFFER_ROWS ∧
    force_top_row_reserve t1 = cur_row t - force_top_row_on_text t1 - R + 1).
  { subst t1. destruct (Z.ltb_spec 0 (force_top_row_reserve t)); simpl; lia. }
  assert (Hsame : console_text t1 = console_text t ∧ console_text_color t1 = console_text_color t ∧
    cur_row t1 = cur_row t ∧ cur_column t1 = cur_column t ∧ term_colors t1 = term_colors t ∧
    screen_columns t1 = screen_columns t ∧ escape_of t1 = escape_of t).
  { subst t1. by destruct (0 <? _). }
  clearbody t1. destruct H1 as (Hr & ? & ? & ? & Hres). destruct Hsame as (Htx & Hcol & Hrow & Hcc & Htc & Hsc & He).
  injection He as He Heb Hes. rewrite (proj2 (Z.ltb_ge _ _)) by lia.
  split; [|cbn [set_top top_row cur_row]; lia].
  split; unfold pending in *; cbn [escaped_state set_top escaped_sequence escaped_buffer]; rewrite ?He, ?Heb, ?Hes; try done; [lia|].
  rewrite Z.sub_diag. split; cbn; unfold CONSOLE_TOTAL_ROWS in *; rewrite ?Htx, ?Hcol, ?Hrow, ?Hcc, ?Htc, ?Hsc; try done; lia.
Qed.

Lemma ui_console_print_ok s t :
  terminal_ok t → tame s t = true → R + 10 + zlen s ≤ 1000 →
  wp (ui_console_print s t) (λ t', terminal_ok t' ∧ top_row t' ≤ cur_row t' < top_row t' + R).
Proof.
  intros Ht Hs Hsmall. unfold ui_console_print. apply wp_bind.
  assert (pending t ≤ 10).
  { unfold pending. destruct (escaped_state t) eqn:He; [|lia].
    destruct (po_sequence _ _ Ht He) as [? _]. lia. }
  eapply wp_mono; [apply print_chars_ok; [exact Ht|done|lia]|]. intros t' Ht'. by eapply wp_ret, settle_ok.
Qed.

Lemma scroll_up_ok k t : terminal_ok t → 0 ≤ k → terminal_ok (ui_console_scroll_up k t).
Proof.
  intros [Hp [] Hb Hs] Hk. split; try done. unfold pending in *. split; try done. simpl. destruct (_ <? _) eqn:Hlt; lia.
Qed.
Lemma scroll_down_ok k t : terminal_ok t → 0 ≤ k → terminal_ok (ui_console_scroll_down k t).
Proof.
  intros [Hp [] Hb Hs] Hk. split; try done. unfold pending in *. split; try done. cbn -[CONSOLE_TOTAL_ROWS].
  destruct (Z.ltb_spec (cur_row t - screen_rows t + 1) (force_top_row_on_text t)).
  - destruct (Z.ltb_spec (force_top_row_on_text t) 0); [lia|]. destruct (_ <? _) eqn:Hlt; lia.
  - destruct (Z.ltb_spec (cur_row t - screen_rows t + 1) 0); destruct (_ <? _) eqn:Hlt; lia.
Qed.
End bounds.

(** *** Plain text

    Without steps back and sequences, pieces of any length are safe: where the history has moved
    up so far that the forced top row is negative, the cursor is near the end of it. *)
Definition plain (c : Z) : Prop := c ≠ 0 ∧ c ≠ 8 ∧ c ≠ 27.

Section plain.
Context (R C : Z) (HR : 1 ≤ R ≤ 1000) (HC : 2 ≤ C ≤ CONSOLE_MAX_COLUMNS).
Implicit Types (t : Term).

Record plain_ok (limit : Z) (t : Term) : Prop := {
  pl_rows : screen_rows t = R;
  pl_columns : screen_columns t = C;
  pl_text : shape (console_text t);
  pl_color : shape (console_text_color t);
  pl_column : 0 ≤ cur_column t ≤ C - 2;
  pl_row : 0 ≤ cur_row t < limit;
  pl_reserve : force_top_row_reserve t = cur_row t - force_top_row_on_text t - R + 1;
  pl_below : 0 ≤ cur_row t - force_top_row_on_text t;
  pl_force : (0 ≤ force_top_row_on_text t ∨ 1000 ≤ cur_row t) ∧ force_top_row_on_text t + R ≤ CONSOLE_TOTAL_ROWS;
  pl_top : 0 ≤ top_row t ∧ top_row t + R ≤ CONSOLE_TOTAL_ROWS;
  pl_colors : zlen (term_colors t) = 16
}.
Definition plain_step limit t t' : Prop := plain_ok limit t' ∧ escape_of t' = escape_of t.

Ltac plain :=
  repeat match goal with H : plain_ok _ _ |- _ => destruct H end;
  split; [split|]; unfold CONSOLE_TOTAL_ROWS, CONSOLE_BUFFER_ROWS, CONSOLE_MAX_COLUMNS in *; simpl in *; try done; try lia.

Lemma next_row_plain column t :
  plain_ok CONSOLE_TOTAL_ROWS t → 0 ≤ column ≤ C - 2 → plain_step (CONSOLE_TOTAL_ROWS + 1) t (next_row column t).
Proof. intros. plain. Qed. 
Lemma put_tab_plain t : plain_ok CONSOLE_TOTAL_ROWS t → wp (put_tab t) (plain_step (CONSOLE_TOTAL_ROWS + 1) t).
Proof.
  intros Ht. assert (H' := Ht). destruct H'. unfold put_tab.
  pose proof (Z.rem_bound_pos (cur_column t) 5 ltac:(lia) ltac:(lia)) as Hrem.
  destruct (Z.leb_spec (screen_columns t - 2) (cur_column t + (5 - Z.rem (cur_column t) 5))); apply wp_bind;
    (eapply wp_mono; [apply fill_shape; lia || done|]); intros text Htext; apply wp_ret; plain.
Qed.
Lemma put_letter_plain c t : plain_ok CONSOLE_TOTAL_ROWS t → wp (put_letter c t) (plain_step (CONSOLE_TOTAL_ROWS + 1) t).
Proof.
  intros Ht. assert (H' := Ht). destruct H'. unfold put_letter.
  apply wp_bind. eapply wp_mono; [apply put2_shape; lia || done|]. intros text Htext.
  apply wp_bind. eapply wp_mono; [apply put2_shape; lia || done|]. intros color Hcolor. apply wp_ret.
  cbn [screen_columns set_cursor set_text cur_column].
  destruct (Z.ltb_spec (screen_columns t - 2) (cur_column t + 1)); plain.
Qed.
Lemma shift_history_plain t : plain_ok (CONSOLE_TOTAL_ROWS + 1) t → plain_step CONSOLE_TOTAL_ROWS t (shift_history t).
Proof.
  intros Ht. unfold shift_history. destruct (Z.eqb_spec (cur_row t) CONSOLE_TOTAL_ROWS) as [He|He]; [|plain].
  rewrite He. replace (CONSOLE_TOTAL_ROWS - (CONSOLE_TOTAL_ROWS - CONSOLE_BUFFER_ROWS)) with CONSOLE_BUFFER_ROWS by lia.
  destruct Ht. split; [split|]; cbn; unfold CONSOLE_TOTAL_ROWS, CONSOLE_BUFFER_ROWS in *; try done; try lia.
  - apply shift_rows_shape; [done|lia|]. rewrite blank_text_length; lia.
  - apply shift_rows_shape; [done|lia|]. rewrite blank_color_length; lia.
Qed.
Lemma console_put_char_plain c t :
  plain_ok CONSOLE_TOTAL_ROWS t → c ≠ 8 → wp (console_put_char c t) (plain_step CONSOLE_TOTAL_ROWS t).
Proof.
  intros Ht Hc. unfold console_put_char. apply wp_bind. eapply (wp_mono _ (plain_step (CONSOLE_TOTAL_ROWS + 1) t)).
  - destruct (c =? 10). { apply wp_ret, next_row_plain; [done|]. apply Ht. }
    destruct (c =? 13). { apply wp_ret. plain. }
    destruct (c =? 9). { by apply put_tab_plain. }
    rewrite (proj2 (Z.eqb_neq c 8)) by done.
    destruct (_ =? _). { apply wp_ret. plain. }
    by apply put_letter_plain.
  - intros t' [Ht' He']. apply wp_ret. destruct (shift_history_plain t' Ht') as [Hs Hes]. split; [done|]. by rewrite Hes.
Qed.
Lemma print_chars_plain s t :
  plain_ok CONSOLE_TOTAL_ROWS t → escaped_state t = false → Forall plain s →
  wp (print_chars s t) (plain_step CONSOLE_TOTAL_ROWS t).
Proof.
  intros Ht He Hs. revert t Ht He. induction Hs as [|c s (H0 & H8 & Hesc) _ IH]; intros t Ht He; [by split|].
  cbn [print_chars]. unfold print_char, CONSOLE_ESC. rewrite He, (proj2 (Z.eqb_neq c 27)) by done.
  apply wp_bind. eapply wp_mono; [by apply console_put_char_plain|]. intros t1 [Ht1 He1].
  eapply wp_mono; [apply IH; [done|]|]. { by injection He1 as ->. }
  intros t2 [Ht2 He2]. split; [done|]. by rewrite He2.
Qed.

Lemma settle_plain t :
  plain_ok CONSOLE_TOTAL_ROWS t →
  term_ok R C 0 CONSOLE_TOTAL_ROWS (settle t) ∧ escape_of (settle t) = escape_of t ∧
  top_row (settle t) ≤ cur_row (settle t) < top_row (settle t) + R.
Proof.
  intros []. unfold settle, CONSOLE_TOTAL_ROWS in *. set (t1 := if 0 <? force_top_row_reserve t then _ else t).
  assert (H1 : force_top_row_on_text t1 ≤ cur_row t < force_top_row_on_text t1 + R ∧
    0 ≤ force_top_row_on_text t1 ∧ force_top_row_on_text t1 + R ≤ 1000 + CONSOLE_BUFFER_ROWS ∧
    force_top_row_reserve t1 = cur_row t - force_top_row_on_text t1 - R + 1).
  { subst t1. destruct (Z.ltb_spec 0 (force_top_row_reserve t)); simpl; lia. }
  assert (Hsame : screen_rows t1 = screen_rows t ∧ console_text t1 = console_text t ∧ console_text_color t1 = console_text_color t ∧
    cur_row t1 = cur_row t ∧ cur_column t1 = cur_column t ∧ term_colors t1 = term_colors t ∧
    screen_columns t1 = screen_columns t ∧ escape_of t1 = escape_of t).
  { subst t1. by destruct (0 <? _). }
  clearbody t1. destruct H1 as (? & ? & ? & Hres). destruct Hsame as (Hr & Htx & Hcol & Hrow & Hcc & Htc & Hsc & He).
  rewrite (proj2 (Z.ltb_ge _ _)) by lia. split; [|split; [done|cbn [set_top top_row cur_row]; lia]].
  split; cbn; unfold CONSOLE_TOTAL_ROWS in *; rewrite ?Hr, ?Htx, ?Hcol, ?Hrow, ?Hcc, ?Htc, ?Hsc; try done; lia.
Qed.

(** Any text without steps back and sequences. *)
Lemma ui_console_print_plain s t :
  terminal_ok R C t → escaped_state t = false → Forall plain s →
  wp (ui_console_print s t) (λ t', terminal_ok R C t' ∧ escaped_state t' = false ∧
    top_row t' ≤ cur_row t' < top_row t' + R).
Proof.
  intros [Hp Ht Hb Hq] He Hs. unfold ui_console_print. apply wp_bind. eapply wp_mono.
  { apply print_chars_plain; [|done|done]. destruct Ht. split; done || lia. }
  intros t1 [Ht1 He1]. apply wp_ret. destruct (settle_plain t1 Ht1) as (Ht' & He' & Htop).
  rewrite He1 in He'. pose proof (f_equal (λ x, x.1.1) He') as Hes. pose proof (f_equal (λ x, x.1.2) He') as Heb.
  simpl in Hes, Heb. change (escaped_state (settle t1) = escaped_state t) in Hes. rewrite He in Hes.
  change (escaped_buffer (settle t1) = escaped_buffer t) in Heb.
  split; [|done]. unfold terminal_ok. split; unfold pending; rewrite ?Hes; try done. by rewrite Heb.
Qed.
End plain.

(** ** Sessions *)

(** A piece is safe if it is tame and short, or plain text of any length outside of a sequence. *)
Definition safe_piece (s : list Z) (t : Term) : Prop :=
  zlen s ≤ 960 ∧ tame s t = true ∨ escaped_state t = false ∧ Forall plain s.

(** What happens between the start of the console and its end: the output of the shell is printed
    in pieces, the user scrolls, and the program chooses colours. *)
Inductive console_step (t : Term) : Term → Prop :=
  | step_print s t' : safe_piece s t → ui_console_print s t = Ret t' → console_step t t'
  | step_up k : 0 ≤ k → console_step t (ui_console_scroll_up k t)
  | step_down k : 0 ≤ k → console_step t (ui_console_scroll_down k t)
  | step_color which : console_step t (ui_console_set_system_front_color which t)
  | step_begin_update : console_step t (ui_console_begin_update t)
  | step_end_update : console_step t (ui_console_end_update t).

(** The arrays have their sizes, and nothing else is known. *)
Definition fresh (t : Term) : Prop :=
  shape (console_text t) ∧ shape (console_text_color t) ∧ zlen (term_colors t) = 16 ∧ zlen (escaped_buffer t) = 64.

Lemma memset2_shape {A} (m : list (list A)) x n :
  shape m → n ≤ CONSOLE_TOTAL_ROWS * CONSOLE_MAX_COLUMNS → wp (memset2 CONSOLE_MAX_COLUMNS m x n) shape.
Proof.
  intros Hm Hn. unfold memset2. destruct Hm as [Hlen Hrows]. rewrite Hlen. rewrite (proj2 (Z.ltb_ge _ _)) by lia.
  apply wp_ret, imap_shape; [done|]. intros j row Hj. rewrite length_imap.
  exact (proj1 (Forall_forall _ _) Hrows _ Hj).
Qed.

(** The screen in rows and columns. *)
Lemma console_size fw fh :
  CONSOLE_CHAR_HEIGHT ≤ fw → CONSOLE_CHAR_WIDTH ≤ fh < CONSOLE_CHAR_WIDTH * CONSOLE_MAX_COLUMNS →
  1 ≤ fw / CONSOLE_CHAR_HEIGHT ∧ 2 ≤ fh / CONSOLE_CHAR_WIDTH + 1 ≤ CONSOLE_MAX_COLUMNS.
Proof.
  unfold CONSOLE_CHAR_HEIGHT, CONSOLE_CHAR_WIDTH, CONSOLE_MAX_COLUMNS. intros. split; [apply Z.div_le_lower_bound; lia|].
  pose proof (Z.div_le_lower_bound fh 10 1). pose proof (Z.div_lt_upper_bound fh 10 100). lia.
Qed.

Lemma ui_console_begin_ok fw fh t :
  fresh t → CONSOLE_CHAR_HEIGHT ≤ fw → fw / CONSOLE_CHAR_HEIGHT ≤ CONSOLE_TOTAL_ROWS →
  CONSOLE_CHAR_WIDTH ≤ fh < CONSOLE_CHAR_WIDTH * CONSOLE_MAX_COLUMNS →
  wp (ui_console_begin fw fh t) (terminal_ok (fw / CONSOLE_CHAR_HEIGHT) (fh / CONSOLE_CHAR_WIDTH + 1)).
Proof.
  intros (Htext & Hcolor & Hcolors & Hbuffer) Hfw Hrows Hfh.
  unfold ui_console_begin, ui_console_get_width, ui_console_get_height.
  destruct (console_size fw fh Hfw Hfh) as [HR HC].
  set (R := fw / CONSOLE_CHAR_HEIGHT) in *. set (C := fh / CONSOLE_CHAR_WIDTH + 1) in *. clearbody R C.
  apply wp_bind. eapply wp_mono; [apply memset2_shape; [done|nia]|]. intros text Ht.
  apply wp_bind. eapply wp_mono; [apply memset2_shape; [done|nia]|]. intros color Hc. apply wp_ret.
  unfold CONSOLE_TOTAL_ROWS, CONSOLE_BUFFER_ROWS in *.
  split; cbn -[Z.add Z.sub]; try done. split; cbn -[Z.add Z.sub]; try done; try lia.
  destruct Ht as [Hl Hr]. split; [by rewrite length_map|]. apply Forall_fmap. eapply Forall_impl; [exact Hr|].
  intros row Hrow. simpl in *. by rewrite length_insert.
Qed.

Lemma safe_piece_ok R C s t :
  1 ≤ R ≤ 30 → 2 ≤ C ≤ CONSOLE_MAX_COLUMNS → terminal_ok R C t → safe_piece s t →
  wp (ui_console_print s t) (λ t', terminal_ok R C t' ∧ top_row t' ≤ cur_row t' < top_row t' + R).
Proof.
  intros HR HC Ht [[Hlen Hs]|[He Hs]]; [apply ui_console_print_ok; lia || done|].
  eapply wp_mono; [by apply (ui_console_print_plain R C ltac:(lia))|]. by intros t' (? & _ & ?).
Qed.
Lemma console_step_ok R C t t' :
  1 ≤ R ≤ 30 → 2 ≤ C ≤ CONSOLE_MAX_COLUMNS → terminal_ok R C t → console_step t t' → terminal_ok R C t'.
Proof.
  intros HR HC Ht Hstep. destruct Hstep as [s t' Hs Hrun| | | | |].
  - pose proof (safe_piece_ok R C s t HR HC Ht Hs) as Hp.
    rewrite Hrun in Hp. apply Hp.
  - by apply scroll_up_ok.
  - by apply scroll_down_ok.
  - destruct Ht as [Hp [] Hb Hs]. split; try done; by split.
  - destruct Ht as [Hp [] Hb Hs]. split; try done; by split.
  - destruct Ht as [Hp [] Hb Hs]. split; try done; by split.
Qed.

(** C19: The console does not leave its arrays on screens of up to 30 rows and 99 columns. After any
    session of printing safe pieces, scrolling and choosing colours, printing one more safe
    piece succeeds, and the row of the cursor is on the screen then. A piece is safe if it is plain
    text (no NUL, step back or escape) that does not start inside an escape sequence, of any length; or
    if it has at most 960 bytes and is tame: no NUL, a step back does not pass the start of its
    row, and no escape sequence has more than ten characters. Pieces of 1024 bytes with sequences
    are not safe ([large_piece]). *)
Theorem console_session_safe fw fh t0 t1 t s :
  fresh t0 → CONSOLE_CHAR_HEIGHT ≤ fw → fw / CONSOLE_CHAR_HEIGHT ≤ 30 →
  CONSOLE_CHAR_WIDTH ≤ fh < CONSOLE_CHAR_WIDTH * CONSOLE_MAX_COLUMNS →
  ui_console_begin fw fh t0 = Ret t1 → rtc console_step t1 t → safe_piece s t →
  wp (ui_console_print s t) (λ t', 0 ≤ cur_row t' < CONSOLE_TOTAL_ROWS ∧
    0 ≤ cur_column t' < ui_console_get_num_columns t' ∧
    top_row t' ≤ cur_row t' < top_row t' + ui_console_get_num_rows t').
Proof.
  intros Hf Hfw Hrows Hfh Hbegin Hsteps Hs.
  destruct (console_size fw fh Hfw Hfh) as [HR HC].
  pose proof (ui_console_begin_ok fw fh t0 Hf Hfw ltac:(unfold CONSOLE_TOTAL_ROWS, CONSOLE_BUFFER_ROWS; lia) Hfh) as H0.
  rewrite Hbegin in H0. simpl in H0. clear Hbegin.
  set (R := fw / CONSOLE_CHAR_HEIGHT) in *. set (C := fh / CONSOLE_CHAR_WIDTH + 1) in *. clearbody R C.
  assert (Ht : terminal_ok R C t).
  { clear Hs. induction Hsteps as [|t1 t2 t3 Hstep _ IH]; [done|].
    apply IH. by apply (console_step_ok R C t1 t2 ltac:(lia)). }
  eapply wp_mono; [apply (safe_piece_ok R C s t ltac:(lia) HC Ht Hs)|].
  intros t' [[Hp [] Hb Hq] Htop]. unfold ui_console_get_num_columns, ui_console_get_num_rows. lia.
Qed.

(** ** What is printed *)
Section printed.
Context (R C : Z) (HR : 1 ≤ R) (HC : 2 ≤ C ≤ CONSOLE_MAX_COLUMNS).
Implicit Types (t : Term).

(** [s] in the row [row] from column [c] on. *)
Definition write_row {A} (c : Z) (s row : list A) : list A :=
  take (Z.to_nat c) row ++ s ++ drop (Z.to_nat c + length s) row.

Lemma write_row_nil {A} c (row : list A) : write_row c [] row = row.
Proof. unfold write_row. simpl. rewrite Nat.add_0_r. apply take_drop. Qed.
Lemma write_row_app {A} c s (a b : list A) :
  Z.to_nat c = length a → write_row c s (a ++ b) = a ++ s ++ drop (length s) b.
Proof.
  intros Hc. unfold write_row. rewrite Hc, take_app_length, <- drop_drop, drop_app_length. done.
Qed.
Lemma write_row_cons {A} c x s (row : list A) :
  0 ≤ c < zlen row → write_row (c + 1) s (<[Z.to_nat c := x]> row) = write_row c (x :: s) row.
Proof.
  intros Hc. destruct (lookup_lt_is_Some_2 row (Z.to_nat c)) as [y Hy]; [lia|].
  destruct (lookup_split row _ y Hy) as (a & b & -> & Ha & Hx).
  rewrite (write_row_app c), Hx by lia. simpl.
  change (x :: b) with ([x] ++ b). rewrite app_assoc, write_row_app by (rewrite length_app; simpl; lia).
  by rewrite <- app_assoc.
Qed.

Lemma put2_eq {A} (m : list (list A)) r c x row :
  0 ≤ r → m !! Z.to_nat r = Some row → 0 ≤ c < zlen row →
  put2 m r c x = Ret (<[Z.to_nat r := <[Z.to_nat c := x]> row]> m).
Proof.
  intros Hr Hrow Hc. unfold put2. assert (Hlt := lookup_lt_Some _ _ _ Hrow).
  rewrite (proj2 (rd_Some m r row)) by done. cbn [mbind outcome_bind].
  rewrite wr_in_bounds by done. cbn [mbind outcome_bind]. by rewrite wr_in_bounds by lia.
Qed.

(** Letters that fit in the row of the cursor. *)
Lemma print_letters s t row crow :
  Forall (λ c, 32 ≤ c) s → screen_columns t = C → escaped_state t = false → 0 ≤ cur_column t →
  0 ≤ cur_row t < CONSOLE_TOTAL_ROWS → cur_column t + zlen s ≤ C - 2 →
  console_text t !! Z.to_nat (cur_row t) = Some row → zlen row = CONSOLE_MAX_COLUMNS →
  console_text_color t !! Z.to_nat (cur_row t) = Some crow → zlen crow = CONSOLE_MAX_COLUMNS →
  print_chars s t = Ret (set_cursor (cur_row t) (cur_column t + zlen s) (set_text
    (<[Z.to_nat (cur_row t) := write_row (cur_column t) s row]> (console_text t))
    (<[Z.to_nat (cur_row t) := write_row (cur_column t) (replicate (length s) (current_color t)) crow]>
      (console_text_color t)) t)).
Proof.
  revert t row crow. induction s as [|c s IH]; intros t row crow Hs Hcols Hesc Hcol Hr Hfit Hrow Hlen Hcrow Hclen.
  { simpl. rewrite !write_row_nil, !list_insert_id, Z.add_0_r by done. by destruct t. }
  apply Forall_cons_1 in Hs as [Hc Hs]. cbn [length] in Hfit. unfold CONSOLE_MAX_COLUMNS in *.
  cbn [print_chars]. unfold print_char, CONSOLE_ESC. rewrite (proj2 (Z.eqb_neq c 27)), Hesc by lia.
  unfold console_put_char, CONSOLE_BEEP.
  rewrite (proj2 (Z.eqb_neq c 10)), (proj2 (Z.eqb_neq c 13)), (proj2 (Z.eqb_neq c 9)), (proj2 (Z.eqb_neq c 8)),
    (proj2 (Z.eqb_neq c 7)) by lia.
  unfold put_letter. rewrite (put2_eq _ _ _ _ row), (put2_eq _ _ _ _ crow) by (done || lia).
  cbn [mbind outcome_bind screen_columns cur_column set_cursor set_text mret outcome_ret].
  rewrite Hcols, (proj2 (Z.ltb_ge _ _)) by lia. cbn [mbind outcome_bind].
  unfold shift_history. cbn [cur_row set_cursor]. rewrite (proj2 (Z.eqb_neq _ _)) by lia. cbn [mbind outcome_bind].
  assert (Hlt := lookup_lt_Some _ _ _ Hrow). assert (Hclt := lookup_lt_Some _ _ _ Hcrow).
  rewrite (IH _ (<[Z.to_nat (cur_column t) := c]> row) (<[Z.to_nat (cur_column t) := current_color t]> crow));
    cbn [cur_column cur_row set_cursor set_text console_text console_text_color screen_columns escaped_state current_color length replicate];
    try done; try lia; try (by rewrite length_insert); try by rewrite list_lookup_insert_eq.
  rewrite !list_insert_insert_eq, !write_row_cons by lia.
  f_equal. unfold set_cursor, set_text. cbn. f_equal. lia.
Qed.

(** C20: Text without control characters that fits in the row of the cursor is printed there: it
    stands in the row from the column of the cursor on, in the current colour, the cursor is
    behind it, and nothing else of the text has changed. *)
Theorem ui_console_print_shows s t :
  terminal_ok R C t → escaped_state t = false → Forall (λ c, 32 ≤ c) s → cur_column t + zlen s ≤ C - 2 →
  ∃ t' row crow, ui_console_print s t = Ret t' ∧
    console_text t !! Z.to_nat (cur_row t) = Some row ∧
    console_text t' = <[Z.to_nat (cur_row t) := write_row (cur_column t) s row]> (console_text t) ∧
    console_text_color t !! Z.to_nat (cur_row t) = Some crow ∧
    console_text_color t' = <[Z.to_nat (cur_row t) := write_row (cur_column t)
      (replicate (length s) (current_color t)) crow]> (console_text_color t) ∧
    cur_row t' = cur_row t ∧ cur_column t' = cur_column t + zlen s.
Proof.
  intros [_ Ht _ _] Hesc Hs Hfit. destruct Ht as [Hr Hc [Htl Htr] [Hcl Hcr] Hcol Hrow _ _ _ _ _].
  destruct (lookup_lt_is_Some_2 (console_text t) (Z.to_nat (cur_row t))) as [row Ht]; [lia|].
  destruct (lookup_lt_is_Some_2 (console_text_color t) (Z.to_nat (cur_row t))) as [crow Hcrow]; [lia|].
  pose proof (proj1 (Forall_lookup _ _) Htr _ _ Ht) as Hlen. pose proof (proj1 (Forall_lookup _ _) Hcr _ _ Hcrow) as Hclen.
  unfold ui_console_print. rewrite (print_letters s t row crow) by (done || lia). cbn [mbind outcome_bind].
  eexists _, row, crow. split; [done|]. unfold settle. by destruct (0 <? _).
Qed.
End printed.

(** ** Examples

    The console of a screen with 480 by 854 pixels: 26 rows and 85 columns. *)
Module TermDemo.

Definition start : Term := match ui_console_begin 480 854 initial with Ret t => t | _ => initial end.
(** Printing in pieces. *)
Fixpoint prints (l : list (list Z)) (t : Term) : outcome Term :=
  match l with [] => mret t | s :: l => t ← ui_console_print s t; prints l t end.
Definition esc (s : string) : list Z := CONSOLE_ESC :: str s.
Definition get_row (r : Z) (t : Term) : list Z := take 85 (default [] (console_text t !! Z.to_nat r)).

(** A screenful of output: text, a step left, and a step up without a number, which does not
    move. *)
Definition hello : list Z := str "hello" ++ [13; 10] ++ str "you" ++ esc "[2D" ++ str "e" ++ esc "[A" ++ str "!".
Definition said : Term := match ui_console_print hello start with Ret t => t | _ => start end.
Example hello_shown :
  (take 6 (get_row 0 said), take 4 (get_row 1 said), cur_row said, cur_column said) = (str "hello ", str "ye! ", 1, 3).
Proof. lazy. reflexivity. Qed.

(** White is not among the colours that can be chosen. *)
Example no_white :
  (t ← ui_console_print (esc "[31m" ++ esc "[37m") start; mret (current_color t)) = Ret (mk_color 205 0 0).
Proof. lazy. reflexivity. Qed.

(** A step back over the start of a row is not taken out of the reserve: the screen moves down
    with every such step, behind the end of the history. *)
Example steps_back : prints (replicate 11 (concat (replicate 100 [13; 10; 8])) ++ [esc "[1A" ++ str "x"]) start = Fault OutOfBounds.
Proof. lazy. reflexivity. Qed.

(** A piece of 1024 bytes, as many as the console reads at once, can move the history up so often
    that the forced top row is negative, and a step up then leaves the array. *)
Example large_piece :
  length (replicate 1016 10 ++ esc "[9999A" ++ str "x") = 1024%nat ∧
  prints [replicate 1025 10; replicate 1016 10 ++ esc "[9999A" ++ str "x"] start = Fault OutOfBounds.
Proof. lazy. done. Qed.

(** Long sequences overflow the buffer, the parameters or a parameter. *)
Example long_sequences :
  ui_console_print (CONSOLE_ESC :: replicate 65 91) start = Fault OutOfBounds ∧
  ui_console_print (esc "[" ++ replicate 32 59 ++ str "m") start = Fault OutOfBounds ∧
  ui_console_print (esc "[9999999999A") start = Fault SignedOverflow.
Proof. lazy. done. Qed.
End TermDemo.

Lemma shape_replicate {A} (x : A) :
  shape (replicate (Z.to_nat CONSOLE_TOTAL_ROWS) (replicate (Z.to_nat CONSOLE_MAX_COLUMNS) x)).
Proof. split; [by rewrite length_replicate|]. apply Forall_replicate. by rewrite length_replicate. Qed.
Lemma initial_fresh : fresh initial.
Proof. repeat split; by apply shape_replicate || reflexivity. Qed.
Lemma begin_start : ui_console_begin 480 854 initial = Ret TermDemo.start.
Proof.
  pose proof (ui_console_begin_ok 480 854 initial initial_fresh) as H. unfold TermDemo.start.
  destruct (ui_console_begin 480 854 initial); [done|by destruct H..].
Qed.
Lemma start_ok : terminal_ok 26 86 TermDemo.start.
Proof.
  pose proof (ui_console_begin_ok 480 854 initial initial_fresh) as H. rewrite begin_start in H. by apply H.
Qed.

Lemma hello_tame : tame TermDemo.hello TermDemo.start = true.
Proof. lazy. reflexivity. Qed.
Lemma print_said : ui_console_print TermDemo.hello TermDemo.start = Ret TermDemo.said.
Proof.
  pose proof (ui_console_print_ok 26 86 ltac:(done) ltac:(by split) _ _ start_ok hello_tame ltac:(done)) as H.
  unfold TermDemo.said. destruct (ui_console_print TermDemo.hello TermDemo.start); [done|by destruct H..].
Qed.

Lemma console_session_safe_witness :
  wp (ui_console_print TermDemo.hello (ui_console_scroll_up 1 TermDemo.said)) (λ t',
    0 ≤ cur_row t' < CONSOLE_TOTAL_ROWS ∧ 0 ≤ cur_column t' < ui_console_get_num_columns t' ∧
    top_row t' ≤ cur_row t' < top_row t' + ui_console_get_num_rows t').
Proof.
  refine (console_session_safe 480 854 initial TermDemo.start (ui_console_scroll_up 1 TermDemo.said) TermDemo.hello
    initial_fresh _ _ _ begin_start _ _); [done|done|by split| |left; split; [done|lazy; reflexivity]].
  apply (rtc_l _ _ TermDemo.said).
  - refine (step_print _ TermDemo.hello _ _ _); [left; split; [done|exact hello_tame]|exact print_said].
  - apply rtc_once, step_up. done.
Defined.

Lemma ui_console_print_shows_witness :
  ∃ t' row crow, ui_console_print (str "ls -l") TermDemo.start = Ret t' ∧
    console_text TermDemo.start !! Z.to_nat (cur_row TermDemo.start) = Some row ∧
    console_text t' = <[Z.to_nat (cur_row TermDemo.start) := write_row (cur_column TermDemo.start) (str "ls -l") row]>
      (console_text TermDemo.start) ∧
    console_text_color TermDemo.start !! Z.to_nat (cur_row TermDemo.start) = Some crow ∧
    console_text_color t' = <[Z.to_nat (cur_row TermDemo.start) := write_row (cur_column TermDemo.start)
      (replicate (length (str "ls -l")) (current_color TermDemo.start)) crow]> (console_text_color TermDemo.start) ∧
    cur_row t' = cur_row TermDemo.start ∧ cur_column t' = cur_column TermDemo.start + zlen (str "ls -l").
Proof.
  refine (ui_console_print_shows 26 86 ltac:(by split) (str "ls -l") TermDemo.start start_ok _ _ _).
  - reflexivity.
  - by repeat constructor.
  - lazy. discriminate.
Defined.
