(* ===== verification/Ui.v ===== *)
(** * Ui

    ui.c and default_recovery_ui.c: the log on the screen, the menu, the keys, and the colours
    that /res/ui.prop sets. *)
From S2P Require Import Prelude CString Terminal.

Definition MAX_COLS : Z := 64.
Definition MAX_ROWS : Z := 32.
Definition MENU_MAX_ROWS : Z := 100.
Definition MENU_MAX_VISIBLE_ROWS : Z := 28.
Definition CHAR_WIDTH : Z := 10.
Definition CHAR_HEIGHT : Z := 18.

(** ** The log

    Its rows are a ring: the oldest one is [text_top], the newest [text_row]. *)
Record Log := mk_log {
  text : list (list Z);
  text_cols : Z;
  text_rows : Z;
  text_col : Z;
  text_row : Z;
  text_top : Z
}.

(** [ui_init], for the size of the frame buffer. *)
Definition log_init (fb_width fb_height : Z) : Log :=
  let rows := fb_height / CHAR_HEIGHT in
  let cols := fb_width / CHAR_WIDTH in
  mk_log (replicate (Z.to_nat MAX_ROWS) (replicate (Z.to_nat MAX_COLS) 0))
    (if MAX_COLS - 1 <? cols then MAX_COLS - 1 else cols) (if MAX_ROWS <? rows then MAX_ROWS else rows) 0 0 1.

Definition log_newline (l : Log) : outcome Log :=
  t ← put2 (text l) (text_row l) (text_col l) 0;
  let row := Z.rem (text_row l + 1) (text_rows l) in
  mret (mk_log t (text_cols l) (text_rows l) 0 row
    (if row =? text_top l then Z.rem (text_top l + 1) (text_rows l) else text_top l)).
Definition log_char (c : Z) (l : Log) : outcome Log :=
  l ← (if (c =? 10) || (text_cols l <=? text_col l) then log_newline l else mret l);
  if c =? 10 then mret l
  else
    t ← put2 (text l) (text_row l) (text_col l) c;
    mret (mk_log t (text_cols l) (text_rows l) (text_col l + 1) (text_row l) (text_top l)).
Fixpoint log_chars (s : list Z) (l : Log) : outcome Log :=
  match s with [] => mret l | c :: s => l ← log_char c l; log_chars s l end.

Definition ui_print_raw (buf : list Z) (l : Log) : outcome Log :=
  if (0 <? text_rows l) && (0 <? text_cols l) then
    l ← log_chars buf l;
    t ← put2 (text l) (text_row l) (text_col l) 0;
    mret (mk_log t (text_cols l) (text_rows l) (text_col l) (text_row l) (text_top l))
  else mret l.

(** The formatted text is cut at the size of the buffer. *)
Definition ui_print (formatted : list Z) (l : Log) : outcome Log := ui_print_raw (take 2047 formatted) l.

(** The rows of the log as [draw_screen_locked] shows them. *)
Definition log_rows (l : Log) : list (list Z) :=
  (λ i, c_string (default [] (text l !! Z.to_nat (Z.rem (Z.of_nat i + text_top l) (text_rows l)))))
    <$> seq 0 (Z.to_nat (text_rows l)).

(** *** What the log shows *)

(** The text so far: its complete lines, and the last one. *)
Definition page : Type := list (list Z) * list Z.
Definition page_char (cols : Z) (p : page) (c : Z) : page :=
  let '(lines, line) := p in
  let '(lines, line) := if (c =? 10) || (cols <=? zlen line) then (lines ++ [line], []) else (lines, line) in
  if c =? 10 then (lines, line) else (lines, line ++ [c]).
Definition page_text (cols : Z) (p : page) (s : list Z) : page := foldl (page_char cols) p s.

(** The [n]th line from the end, the last one being the 0th. *)
Definition line_back (p : page) (n : nat) : list Z :=
  match n with O => p.2 | S n => default [] (reverse p.1 !! n) end.

(** The last lines, as many as there are rows, above them empty rows. *)
Definition page_rows (rows : nat) (p : page) : list (list Z) := reverse (line_back p <$> seq 0 rows).

Section log.
Context (rows cols : Z) (Hrows : 2 ≤ rows ≤ MAX_ROWS) (Hcols : 1 ≤ cols < MAX_COLS).
Implicit Types (l : Log) (p : page) (s : list Z).

Definition log_shape (t : list (list Z)) : Prop := zlen t = MAX_ROWS ∧ Forall (λ r, zlen r = MAX_COLS) t.

(** The row [n] lines above the current one. *)
Definition row_back l (n : nat) : nat := Z.to_nat ((text_row l - Z.of_nat n) mod rows).

(** The log holds the end of the page; the last line may lack its NUL. *)
Record log_mid l p : Prop := {
  lm_shape : log_shape (text l);
  lm_size : text_rows l = rows ∧ text_cols l = cols;
  lm_row : 0 ≤ text_row l < rows;
  lm_top : text_top l = (text_row l + 1) mod rows;
  lm_col : text_col l = zlen p.2;
  lm_fits : zlen p.2 ≤ cols;
  lm_chars : Forall (λ c, c ≠ 0) p.2;
  lm_line : ∃ rest, text l !! Z.to_nat (text_row l) = Some (p.2 ++ rest);
  lm_lines : ∀ n, (0 < n)%nat → (n < Z.to_nat rows)%nat →
    ∃ r, text l !! row_back l n = Some r ∧ c_string r = line_back p n
}.
Definition log_ok l p : Prop :=
  log_mid l p ∧ ∃ r, text l !! Z.to_nat (text_row l) = Some r ∧ c_string r = p.2.

Lemma row_back_lt l n : (row_back l n < Z.to_nat rows)%nat.
Proof. unfold row_back. pose proof (Z.mod_pos_bound (text_row l - Z.of_nat n) rows). lia. Qed.
Lemma row_back_other l n :
  0 ≤ text_row l < rows → (0 < n < Z.to_nat rows)%nat → row_back l n ≠ Z.to_nat (text_row l).
Proof.
  intros Hr Hn He. unfold row_back in He.
  pose proof (Z.mod_pos_bound (text_row l - Z.of_nat n) rows ltac:(lia)).
  assert (Heq : (text_row l - Z.of_nat n) mod rows = text_row l) by lia.
  pose proof (Z.div_mod (text_row l - Z.of_nat n) rows ltac:(lia)) as Hd. rewrite Heq in Hd.
  assert (- Z.of_nat n = rows * ((text_row l - Z.of_nat n) / rows)) as Hq by lia.
  assert ((text_row l - Z.of_nat n) / rows < 0) by nia. nia.
Qed.
Lemma row_back_next l l' n :
  text_row l' = (text_row l + 1) mod rows → row_back l' (S n) = row_back l n.
Proof.
  intros He. unfold row_back. rewrite He, Zminus_mod_idemp_l. do 2 f_equal. lia.
Qed.

(** The row of the cursor. *)
Lemma put_row l p x :
  log_mid l p → ∃ row, text l !! Z.to_nat (text_row l) = Some row ∧ zlen row = MAX_COLS ∧
    put2 (text l) (text_row l) (text_col l) x =
      Ret (<[Z.to_nat (text_row l) := <[Z.to_nat (text_col l) := x]> row]> (text l)) ∧
    ∃ rest, <[Z.to_nat (text_col l) := x]> row = p.2 ++ x :: rest.
Proof.
  intros []. destruct lm_line0 as [rest Hrow]. exists (p.2 ++ rest). split; [done|].
  destruct lm_shape0 as [Hlen Hall]. pose proof (proj1 (Forall_lookup _ _) Hall _ _ Hrow) as Hw. cbn beta in Hw.
  split; [done|]. split; [apply put2_eq; [lia|done|rewrite Hw; lia]|].
  rewrite lm_col0, Nat2Z.id. rewrite length_app in Hw. unfold MAX_COLS in *.
  destruct rest as [|y rest]; [simpl in Hw; lia|]. exists rest.
  rewrite insert_app_r_alt, Nat.sub_diag by lia. done.
Qed.
Lemma log_shape_insert t r row row' :
  log_shape t → t !! r = Some row → zlen row' = MAX_COLS → log_shape (<[r := row']> t).
Proof. intros [Hlen Hall] Hr Hw. split; [by rewrite length_insert|]. by apply Forall_insert. Qed.

Lemma log_newline_ok l p :
  log_mid l p → ∃ l', log_newline l = Ret l' ∧ log_mid l' (p.1 ++ [p.2], []).
Proof.
  intros Hm. destruct (put_row l p 0 Hm) as (row & Hrow & Hw & Hput & rest & Hrest).
  unfold log_newline. rewrite Hput. cbn [mbind outcome_bind]. eexists. split; [done|]. destruct Hm.
  destruct lm_size0 as [Hsr Hsc]. pose proof (Z.mod_pos_bound (text_row l + 1) rows ltac:(lia)).
  assert (Hrow' : Z.rem (text_row l + 1) (text_rows l) = (text_row l + 1) mod rows).
  { rewrite Hsr. apply Z.rem_mod_nonneg; lia. }
  set (l' := mk_log _ _ _ _ _ _). assert (Hl' : text_row l' = (text_row l + 1) mod rows) by done.
  assert (Hnew : log_shape (text l')).
  { eapply log_shape_insert; [done|exact Hrow|by rewrite length_insert]. }
  split; try done.
  - by rewrite Hl'.
  - subst l'. cbn [text_top text_row]. rewrite Hrow', lm_top0, Z.eqb_refl, Hsr. apply Z.rem_mod_nonneg; lia.
  - simpl. lia.
  - destruct (lookup_lt_is_Some_2 (text l') (Z.to_nat (text_row l'))) as [r Hr]; [|by exists r].
    destruct Hnew as [Hlen _]. rewrite Hl'. lia.
  - intros [|[|n]] Hn1 Hn2; [lia| |]; rewrite (row_back_next l l') by done.
    + exists (<[Z.to_nat (text_col l):=0]> row). subst l'. cbn [text]. unfold row_back. rewrite Z.sub_0_r, Z.mod_small by lia.
      rewrite list_lookup_insert_eq by (apply (lookup_lt_Some _ _ _ Hrow)). split; [done|].
      rewrite Hrest, c_string_app by done. simpl. by rewrite reverse_app.
    + destruct (lm_lines0 (S n) ltac:(lia) ltac:(lia)) as (r & Hr & Hc). exists r.
      subst l'. cbn [text]. rewrite list_lookup_insert_ne by (intros He; symmetry in He; revert He; apply row_back_other; lia).
      split; [done|]. rewrite Hc. simpl. rewrite reverse_app. done.
Qed.

Lemma log_put_ok l p c :
  log_mid l p → zlen p.2 < cols → c ≠ 0 →
  ∃ t, put2 (text l) (text_row l) (text_col l) c = Ret t ∧
    log_mid (mk_log t (text_cols l) (text_rows l) (text_col l + 1) (text_row l) (text_top l)) (p.1, p.2 ++ [c]).
Proof.
  intros Hm Hlt Hc. destruct (put_row l p c Hm) as (row & Hrow & Hw & Hput & rest & Hrest).
  eexists. split; [done|]. destruct Hm. split; cbn -[row_back]; try done.
  - eapply log_shape_insert; [done|exact Hrow|by rewrite length_insert].
  - rewrite length_app. simpl. lia.
  - rewrite length_app. simpl. lia.
  - apply Forall_app. split; [done|by constructor].
  - exists rest. rewrite list_lookup_insert_eq by (apply (lookup_lt_Some _ _ _ Hrow)). by rewrite Hrest, <- app_assoc.
  - intros n Hn1 Hn2. destruct (lm_lines0 n Hn1 Hn2) as (r & Hr & Hcs). exists r.
    change (row_back _ n) with (row_back l n).
    rewrite list_lookup_insert_ne by (intros He; symmetry in He; revert He; apply row_back_other; lia).
    split; [done|]. rewrite Hcs. destruct n; [lia|done].
Qed.

Lemma log_char_ok l p c :
  log_mid l p → c ≠ 0 → ∃ l', log_char c l = Ret l' ∧ log_mid l' (page_char cols p c).
Proof.
  intros Hm Hc. assert (H' := Hm). destruct H'. destruct lm_size0 as [Hsr Hsc]. unfold log_char, page_char.
  destruct p as [lines line]. rewrite Hsc, lm_col0. cbn [snd fst].
  destruct ((c =? 10) || (cols <=? zlen line)) eqn:Hnl.
  - destruct (log_newline_ok l (lines, line) Hm) as (l' & -> & Hm'). cbn [mbind outcome_bind fst snd] in *.
    destruct (Z.eqb_spec c 10); [by eexists|].
    destruct (log_put_ok l' _ c Hm') as (t & -> & Hm''); [simpl; lia|done|]. cbn [mbind outcome_bind]. by eexists.
  - cbn [mbind outcome_bind mret outcome_ret]. destruct (Z.eqb_spec c 10); [done|].
    destruct (log_put_ok l (lines, line) c Hm) as (t & -> & Hm''); [simpl in *; lia|done|].
    cbn [mbind outcome_bind]. by eexists.
Qed.

Lemma log_chars_ok s l p :
  log_mid l p → Forall (λ c, c ≠ 0) s → ∃ l', log_chars s l = Ret l' ∧ log_mid l' (page_text cols p s).
Proof.
  intros Hm Hs. revert l p Hm. induction Hs as [|c s Hc Hs IH]; intros l p Hm; [by eexists|]. cbn [log_chars].
  destruct (log_char_ok l p c Hm Hc) as (l' & -> & Hm'). cbn [mbind outcome_bind]. by apply IH.
Qed.

Lemma ui_print_raw_ok s l p :
  log_ok l p → Forall (λ c, c ≠ 0) s → ∃ l', ui_print_raw s l = Ret l' ∧ log_ok l' (page_text cols p s).
Proof.
  intros [Hm _] Hs. assert (H' := Hm). destruct H'. destruct lm_size0 as [Hsr Hsc]. unfold ui_print_raw.
  rewrite Hsr, Hsc, (proj2 (Z.ltb_lt _ _)), (proj2 (Z.ltb_lt _ _)) by lia. cbn [andb].
  destruct (log_chars_ok s l p Hm Hs) as (l' & -> & Hm'). cbn [mbind outcome_bind].
  destruct (put_row l' _ 0 Hm') as (row & Hrow & Hw & Hput & rest & Hrest). rewrite Hput. cbn [mbind outcome_bind].
  eexists. split; [done|]. split; cbn [text text_row].
  - destruct Hm'. split; cbn -[row_back page_text]; try done.
    + eapply log_shape_insert; [done|exact Hrow|by rewrite length_insert].
    + eexists. rewrite list_lookup_insert_eq by (apply (lookup_lt_Some _ _ _ Hrow)). by rewrite Hrest.
    + intros n Hn1 Hn2. destruct (lm_lines1 n Hn1 Hn2) as (r & Hr & Hcs). exists r.
      change (row_back _ n) with (row_back l' n).
      rewrite list_lookup_insert_ne by (intros He; symmetry in He; revert He; apply row_back_other; lia). done.
  - eexists. rewrite list_lookup_insert_eq by (apply (lookup_lt_Some _ _ _ Hrow)). split; [done|].
    rewrite Hrest, c_string_app; [done|]. by destruct Hm'.
Qed.

Lemma log_rows_ok l p : log_ok l p → log_rows l = page_rows (Z.to_nat rows) p.
Proof.
  intros [[] (r0 & Hr0 & Hc0)]. destruct lm_size0 as [Hsr Hsc]. unfold log_rows, page_rows. rewrite Hsr.
  apply list_eq. intros i. rewrite list_lookup_fmap.
  destruct (decide (i < Z.to_nat rows)%nat) as [Hi|Hi]; cycle 1.
  { rewrite !(lookup_ge_None_2); [done|rewrite length_reverse, length_fmap, length_seq; lia|rewrite length_seq; lia]. }
  rewrite lookup_seq_lt, reverse_lookup by (rewrite ?length_fmap, ?length_seq; lia).
  rewrite length_fmap, length_seq, list_lookup_fmap, lookup_seq_lt by lia. simpl. f_equal.
  set (n := (Z.to_nat rows - S i)%nat). rewrite lm_top0, Z.rem_mod_nonneg by (pose proof (Z.mod_pos_bound (text_row l + 1) rows); lia).
  rewrite Zplus_mod_idemp_r.
  assert (He : Z.to_nat ((Z.of_nat i + (text_row l + 1)) mod rows) = row_back l n).
  { unfold row_back. f_equal. replace (Z.of_nat i + (text_row l + 1)) with (text_row l - Z.of_nat n + 1 * rows) by lia.
    by rewrite Z.mod_add by lia. }
  rewrite He. destruct (decide (n = O)) as [->|Hn].
  - unfold row_back. rewrite Z.sub_0_r, Z.mod_small, Hr0 by lia. done.
  - destruct (lm_lines0 n ltac:(lia) ltac:(lia)) as (r & -> & Hc). done.
Qed.
End log.

Fixpoint print_all (ss : list (list Z)) (l : Log) : outcome Log :=
  match ss with [] => mret l | s :: ss => l ← ui_print s l; print_all ss l end.

Lemma log_init_ok fw fh :
  2 * CHAR_HEIGHT ≤ fh → CHAR_WIDTH ≤ fw →
  let l := log_init fw fh in
  2 ≤ text_rows l ≤ MAX_ROWS ∧ 1 ≤ text_cols l < MAX_COLS ∧ log_ok (text_rows l) (text_cols l) l ([], []).
Proof.
  intros Hfh Hfw l. unfold CHAR_HEIGHT, CHAR_WIDTH in *.
  assert (2 ≤ fh / 18) by (apply Z.div_le_lower_bound; lia).
  assert (1 ≤ fw / 10) by (apply Z.div_le_lower_bound; lia).
  assert (Hr : 2 ≤ text_rows l ≤ MAX_ROWS).
  { subst l. cbn. unfold CHAR_HEIGHT, MAX_ROWS. destruct (Z.ltb_spec 32 (fh / 18)); lia. }
  assert (Hc : 1 ≤ text_cols l < MAX_COLS).
  { subst l. cbn. unfold CHAR_WIDTH, MAX_COLS. destruct (Z.ltb_spec (64 - 1) (fw / 10)); lia. }
  do 2 (split; [done|]).
  assert (Hrow : ∀ i, (i < Z.to_nat MAX_ROWS)%nat → text l !! i = Some (replicate (Z.to_nat MAX_COLS) 0)).
  { intros i Hi. unfold l, log_init. cbn [text]. by apply lookup_replicate_2. }
  split; [|eexists; split; [apply Hrow; subst l; cbn; lia|done]].
  split; try done.
  - unfold l, log_init. cbn [text]. split; [by rewrite length_replicate|].
    apply Forall_replicate. by rewrite length_replicate.
  - change (text_row l) with 0. lia.
  - change (text_row l) with 0. change (text_top l) with 1. rewrite Z.mod_small; lia.
  - change (zlen ([], []).2) with 0. lia.
  - eexists. rewrite Hrow; [done|]. change (text_row l) with 0. unfold MAX_ROWS. lia.
  - intros n Hn1 Hn2. eexists. split; [apply Hrow|by destruct n].
    pose proof (row_back_lt (text_rows l) Hr l n). unfold MAX_ROWS in *. lia.
Qed.

(** C16: The log shows the end of what was printed. After [ui_init] and any number of prints the
    rows of the log are the last lines of the whole text, folded at the width of the screen, with
    empty rows above them as long as there are fewer lines; each print is cut at 2047 bytes. *)
Theorem ui_print_shows fw fh ss :
  2 * CHAR_HEIGHT ≤ fh → CHAR_WIDTH ≤ fw → Forall (Forall (λ c, c ≠ 0)) ss →
  let l0 := log_init fw fh in
  ∃ l, print_all ss l0 = Ret l ∧
    log_rows l = page_rows (Z.to_nat (text_rows l0)) (page_text (text_cols l0) ([], []) (concat (take 2047 <$> ss))).
Proof.
  intros Hfh Hfw Hss l0. destruct (log_init_ok fw fh Hfh Hfw) as (Hr & Hc & Hl0). fold l0 in Hr, Hc, Hl0.
  set (rows := text_rows l0) in *. set (cols := text_cols l0) in *. clearbody rows cols l0.
  assert (Hall : ∀ p, log_ok rows cols l0 p →
    ∃ l, print_all ss l0 = Ret l ∧ log_ok rows cols l (page_text cols p (concat (take 2047 <$> ss)))).
  { clear Hl0. revert l0. induction Hss as [|s ss Hs Hss IH]; intros l0 p Hp; [by exists l0|]. cbn [print_all].
    destruct (ui_print_raw_ok rows cols Hr Hc (take 2047 s) l0 p Hp) as (l1 & Hrun & Hl1); [by apply Forall_take|].
    unfold ui_print. rewrite Hrun. cbn [mbind outcome_bind]. destruct (IH l1 _ Hl1) as (l & -> & Hl).
    exists l. split; [done|]. rewrite fmap_cons. cbn [concat]. unfold page_text in *. by rewrite foldl_app. }
  destruct (Hall _ Hl0) as (l & Hrun & Hl). exists l. split; [done|]. by eapply log_rows_ok.
Qed.

Lemma ui_print_shows_witness :
  let l0 := log_init 480 854 in
  ∃ l, print_all [str "one" ++ [10]; str "two"] l0 = Ret l ∧
    log_rows l = page_rows (Z.to_nat (text_rows l0))
      (page_text (text_cols l0) ([], []) (concat (take 2047 <$> [str "one" ++ [10]; str "two"]))).
Proof. apply (ui_print_shows 480 854); [done|done|by repeat constructor]. Defined.

(** ** The menu *)
Record MenuView := mk_view {
  menu : list (list Z);
  show_menu : bool;
  menu_top : Z;
  menu_items : Z;
  menu_item_top : Z;
  menu_items_screen : Z;
  menu_sel : Z;
  menu_title_length : Z
}.
Definition no_menu : MenuView :=
  mk_view (replicate (Z.to_nat MENU_MAX_ROWS) (replicate (Z.to_nat MAX_COLS) 0)) false 0 0 0 0 0 0.

(** [strncpy] with a NUL behind it. *)
Definition menu_row (cols : nat) (s row : list Z) : list Z :=
  take cols (s ++ replicate cols 0) ++ 0 :: drop (S cols) row.
(** Strings from row [i] on, at most [n]; the row behind the last one. *)
Fixpoint copy_rows (cols n i : nat) (ss : list (list Z)) (m : list (list Z)) : list (list Z) * nat :=
  match n, ss with
  | S n, s :: ss => copy_rows cols n (S i) ss (<[i := menu_row cols s (default [] (m !! i))]> m)
  | _, _ => (m, i)
  end.

(** The arrays of strings are the lists of the strings before their null pointers. *)
Definition ui_start_menu (headers items : list (list Z)) (title_length start_sel : Z) (l : Log) (v : MenuView) : MenuView :=
  if (0 <? text_rows l) && (0 <? text_cols l) then
    let cols := Z.to_nat (text_cols l) in
    let '(m, top) := copy_rows cols (Z.to_nat MENU_MAX_ROWS) 0 headers (menu v) in
    let '(m, i) := copy_rows cols (Z.to_nat MENU_MAX_ROWS - top) top items m in
    let n := Z.of_nat i - Z.of_nat top in
    let screen := MENU_MAX_VISIBLE_ROWS - Z.of_nat top in
    let screen := if n <? screen then n else screen in
    mk_view m true (Z.of_nat top) n (if screen <=? start_sel then start_sel - screen + 1 else 0) screen start_sel title_length
  else
    mk_view (menu v) (show_menu v) (menu_top v) (menu_items v) (menu_item_top v) (menu_items_screen v) (menu_sel v) title_length.

Definition ui_menu_select (sel : Z) (v : MenuView) : Z * MenuView :=
  if show_menu v then
    let sel := if sel <? 0 then 0 else sel in
    let sel := if menu_items v <=? sel then menu_items v - 1 else sel in
    let top :=
      if sel =? menu_sel v then menu_item_top v
      else if sel <? menu_item_top v then sel
      else if menu_item_top v + menu_items_screen v <=? sel then sel - menu_items_screen v + 1
      else menu_item_top v in
    (sel, mk_view (menu v) true (menu_top v) (menu_items v) top (menu_items_screen v) sel (menu_title_length v))
  else (sel, v).

Definition ui_end_menu (l : Log) (v : MenuView) : MenuView :=
  if show_menu v && (0 <? text_rows l) && (0 <? text_cols l)
  then mk_view (menu v) false (menu_top v) (menu_items v) (menu_item_top v) (menu_items_screen v) (menu_sel v) (menu_title_length v)
  else v.

(** The first item on the screen: where all of them fit, the code does not look at the scrolling. *)
Definition first_item (v : MenuView) : Z := if menu_items v =? menu_items_screen v then 0 else menu_item_top v.
(** The rows of items that [draw_screen_locked] shows, with the highlighted one marked. *)
Definition menu_rows (v : MenuView) : list (list Z * bool) :=
  (λ k, (c_string (default [] (menu v !! Z.to_nat (menu_top v + first_item v + Z.of_nat k))),
         bool_decide (first_item v + Z.of_nat k = menu_sel v))) <$> seq 0 (Z.to_nat (menu_items_screen v)).

(** *** The selection is on the screen *)
Section menu.
Context (cols : nat) (headers items : list (list Z)).
Context (Hheaders : zlen headers < MENU_MAX_VISIBLE_ROWS) (Hfit : zlen headers + zlen items ≤ MENU_MAX_ROWS).
Implicit Types (v : MenuView).

Lemma c_string_menu_row s row : Forall (λ c, c ≠ 0) s → c_string (menu_row cols s row) = take cols s.
Proof.
  intros Hs. unfold menu_row. rewrite take_app, take_replicate. 
  destruct (decide (cols ≤ length s)%nat) as [Hl|Hl].
  - replace (cols - length s)%nat with O by lia. rewrite Nat.min_0_l. simpl. rewrite app_nil_r.
    apply c_string_app. by apply Forall_take.
  - rewrite Nat.min_l by lia. destruct (cols - length s)%nat as [|k] eqn:Hk; [lia|]. simpl.
    rewrite <- app_assoc. apply c_string_app. by apply Forall_take.
Qed.

Lemma copy_rows_spec n i ss (m : list (list Z)) :
  (length ss ≤ n)%nat → (i + length ss ≤ length m)%nat → Forall (Forall (λ c, c ≠ 0)) ss →
  ∃ m', copy_rows cols n i ss m = (m', (i + length ss)%nat) ∧ length m' = length m ∧
    (∀ k, (k < i)%nat → m' !! k = m !! k) ∧
    ∀ k s, ss !! k = Some s → ∃ row, m' !! (i + k)%nat = Some row ∧ c_string row = take cols s.
Proof.
  revert i m n. induction ss as [|s ss IH]; intros i m n Hn Hm Hz.
  { exists m. rewrite Nat.add_0_r. repeat split; try done. by destruct n. }
  apply Forall_cons_1 in Hz as [Hs Hz]. destruct n as [|n]; simpl in *; [lia|].
  destruct (IH (S i) (<[i := menu_row cols s (default [] (m !! i))]> m) n) as (m' & Hrun & Hlen & Hkeep & Hrows);
    [lia|rewrite length_insert; lia|done|].
  exists m'. rewrite Hrun. rewrite length_insert in Hlen. split; [f_equal; lia|]. split; [done|]. split.
  - intros k Hk. rewrite Hkeep, list_lookup_insert_ne by lia. done.
  - intros [|k] s' Hk; simpl in Hk.
    + injection Hk as ->. rewrite Nat.add_0_r, Hkeep, list_lookup_insert_eq by lia.
      eexists. split; [done|]. by apply c_string_menu_row.
    + rewrite <- Nat.add_succ_comm. by apply Hrows.
Qed.

(** A menu of the items, one of which is selected and shown. *)
Record view_ok v : Prop := {
  vo_shown : show_menu v = true;
  vo_top : menu_top v = zlen headers;
  vo_items : menu_items v = zlen items;
  vo_screen : menu_items_screen v = Z.min (zlen items) (MENU_MAX_VISIBLE_ROWS - zlen headers);
  vo_sel : 0 ≤ menu_sel v < zlen items;
  vo_visible : 0 ≤ menu_item_top v ≤ menu_sel v ∧ menu_sel v < menu_item_top v + menu_items_screen v ∧
    menu_item_top v + menu_items_screen v ≤ zlen items;
  vo_rows : ∀ k s, items !! k = Some s →
    ∃ row, menu v !! (length headers + k)%nat = Some row ∧ c_string row = take cols s
}.

Lemma ui_start_menu_ok title_length start_sel l v :
  0 < text_rows l → text_cols l = Z.of_nat cols → (0 < cols)%nat → zlen (menu v) = MENU_MAX_ROWS →
  Forall (Forall (λ c, c ≠ 0)) headers → Forall (Forall (λ c, c ≠ 0)) items → 0 ≤ start_sel < zlen items →
  view_ok (ui_start_menu headers items title_length start_sel l v) ∧
  menu_sel (ui_start_menu headers items title_length start_sel l v) = start_sel.
Proof.
  intros Hr Hc Hcols Hm Hzh Hzi Hsel. unfold MENU_MAX_ROWS, MENU_MAX_VISIBLE_ROWS in *. unfold ui_start_menu.
  rewrite Hc, (proj2 (Z.ltb_lt _ _)), (proj2 (Z.ltb_lt _ _)), Nat2Z.id by lia. cbn [andb].
  destruct (copy_rows_spec (Z.to_nat MENU_MAX_ROWS) 0 headers (menu v)) as (m1 & -> & Hl1 & _ & _);
    [unfold MENU_MAX_ROWS; lia|lia|done|].
  destruct (copy_rows_spec (Z.to_nat MENU_MAX_ROWS - (0 + length headers)) (0 + length headers) items m1)
    as (m2 & -> & Hl2 & _ & Hrows); [unfold MENU_MAX_ROWS; lia|lia|done|].
  split; [|done]. unfold MENU_MAX_VISIBLE_ROWS.
  set (n := Z.of_nat _ - Z.of_nat _). assert (Hn : n = zlen items) by lia. clearbody n. subst n.
  set (screen := if _ <? _ then _ else _).
  assert (Hs : screen = Z.min (zlen items) (28 - zlen headers)).
  { subst screen. destruct (Z.ltb_spec (zlen items) (28 - Z.of_nat (0 + length headers))); lia. }
  clearbody screen. split; cbn; unfold MENU_MAX_VISIBLE_ROWS; try done; try lia.
  destruct (Z.leb_spec screen start_sel); lia.
Qed.

Lemma ui_menu_select_ok sel v :
  view_ok v → let '(r, v') := ui_menu_select sel v in
    view_ok v' ∧ r = menu_sel v' ∧ r = Z.max 0 (Z.min sel (zlen items - 1)).
Proof.
  intros []. unfold ui_menu_select. rewrite vo_shown0, vo_items0.
  set (s1 := if sel <? 0 then 0 else sel). set (s2 := if zlen items <=? s1 then _ else s1).
  assert (Hs : s2 = Z.max 0 (Z.min sel (zlen items - 1))).
  { subst s2 s1. destruct (Z.ltb_spec sel 0); [destruct (Z.leb_spec (zlen items) 0)|destruct (Z.leb_spec (zlen items) sel)]; lia. }
  clearbody s2. clear s1. split; [|done].
  split; cbn; try done; try lia.
  destruct (Z.eqb_spec s2 (menu_sel v)); [lia|]. destruct (Z.ltb_spec s2 (menu_item_top v)); [lia|].
  destruct (Z.leb_spec (menu_item_top v + menu_items_screen v) s2); lia.
Qed.

Lemma view_rows_ok v s :
  view_ok v → items !! Z.to_nat (menu_sel v) = Some s →
  ∃ k, menu_rows v !! k = Some (take cols s, true) ∧ ∀ k' r, menu_rows v !! k' = Some (r, true) → k' = k.
Proof.
  intros [] Hs. destruct vo_visible0 as (Htop & Hbelow & Hend). unfold menu_rows.
  assert (first_item v = menu_item_top v) as ->.
  { unfold first_item. destruct (Z.eqb_spec (menu_items v) (menu_items_screen v)); lia. }
  exists (Z.to_nat (menu_sel v - menu_item_top v)). split.
  - rewrite list_lookup_fmap, lookup_seq_lt by lia. simpl. rewrite bool_decide_eq_true_2 by lia. do 2 f_equal.
    destruct (vo_rows0 _ _ Hs) as (row & Hrow & Hc). rewrite vo_top0.
    replace (Z.to_nat _) with (length headers + Z.to_nat (menu_sel v))%nat by lia. rewrite Hrow. done.
  - intros k' r Hk. rewrite list_lookup_fmap in Hk. destruct (seq _ _ !! k') as [j|] eqn:Hj; [|done].
    apply lookup_seq in Hj as [-> Hj]. simpl in Hk. injection Hk as _ Hk. apply bool_decide_eq_true in Hk. lia.
Qed.
End menu.

(** The selections that follow each other in a menu. *)
Definition select_all (sels : list Z) (v : MenuView) : MenuView := foldl (λ v sel, (ui_menu_select sel v).2) v sels.

(** C17: The selected item is always on the screen. After [ui_start_menu] with an item to start at
    and any selections, inside the menu or not, the selection is an item; exactly one of the rows
    shown is highlighted, and it has the text of that item, as far as it fits. The headers must
    leave a row, and all must fit in the 100 rows of the menu. *)
Theorem menu_selection_visible l v headers items title_length start_sel sels :
  0 < text_rows l → 0 < text_cols l → zlen (menu v) = MENU_MAX_ROWS →
  zlen headers < MENU_MAX_VISIBLE_ROWS → zlen headers + zlen items ≤ MENU_MAX_ROWS →
  Forall (Forall (λ c, c ≠ 0)) headers → Forall (Forall (λ c, c ≠ 0)) items → 0 ≤ start_sel < zlen items →
  let v' := select_all sels (ui_start_menu headers items title_length start_sel l v) in
  ∃ item k, items !! Z.to_nat (menu_sel v') = Some item ∧
    menu_rows v' !! k = Some (take (Z.to_nat (text_cols l)) item, true) ∧
    ∀ k' r, menu_rows v' !! k' = Some (r, true) → k' = k.
Proof.
  intros Hr Hc Hm Hh Hfit Hzh Hzi Hsel v'.
  destruct (ui_start_menu_ok (Z.to_nat (text_cols l)) headers items Hh Hfit title_length start_sel l v) as [Hok _];
    try done; try lia.
  assert (Hv' : view_ok (Z.to_nat (text_cols l)) headers items v').
  { subst v'. unfold select_all. set (v0 := ui_start_menu _ _ _ _ _ _) in *. clearbody v0.
    revert v0 Hok. induction sels as [|sel sels IH]; intros v0 Hok; [done|]. simpl. apply IH.
    pose proof (ui_menu_select_ok _ _ _ Hh sel v0 Hok) as Hs. destruct (ui_menu_select sel v0). apply Hs. }
  clearbody v'. destruct (lookup_lt_is_Some_2 items (Z.to_nat (menu_sel v'))) as [item Hi].
  { destruct Hv'. lia. }
  destruct (view_rows_ok _ _ _ Hh v' item Hv' Hi) as (k & Hk & Huniq). by exists item, k.
Qed.

Lemma menu_selection_visible_witness :
  let v' := select_all [1; 7; -3] (ui_start_menu [str "Title"] [str "Reboot"; str "Wipe"] 1 1 (log_init 480 854) no_menu) in
  ∃ item k, [str "Reboot"; str "Wipe"] !! Z.to_nat (menu_sel v') = Some item ∧
    menu_rows v' !! k = Some (take (Z.to_nat (text_cols (log_init 480 854))) item, true) ∧
    ∀ k' r, menu_rows v' !! k' = Some (r, true) → k' = k.
Proof.
  apply (menu_selection_visible (log_init 480 854) no_menu); [done..| | |by split]; by repeat constructor.
Defined.
