(* ===== verification/Input.v ===== *)
(** * Input

    ui.c and default_recovery_ui.c: the keys, and the colours that /res/ui.prop sets. *)
From S2P Require Import Prelude CString Terminal.

(** The codes of linux/input.h. *)
Class KeyCodes := {
  KEY_MAX : Z;
  KEY_UP : Z;
  KEY_DOWN : Z;
  KEY_CENTER : Z;
  KEY_ENTER : Z;
  KEY_CAMERA : Z;
  KEY_VOLUMEUP : Z;
  KEY_VOLUMEDOWN : Z;
  KEY_HP : Z;
  EV_SYN : Z;
  EV_KEY : Z;
  EV_REL : Z;
  REL_Y : Z
}.

(** ** Keys *)
Definition QUEUE_MAX : Z := 256.

(** The queue has its first [key_queue_len] entries; [rel_sum] is a variable of the input
    thread. *)
Record Input := mk_input {
  key_queue : list Z;
  key_pressed : list Z;
  rel_sum : Z;
  show_text : bool
}.

Definition NO_ACTION : Z := -1.
Definition HIGHLIGHT_UP : Z := -2.
Definition HIGHLIGHT_DOWN : Z := -3.
Definition SELECT_ITEM : Z := -4.

Section keys.
Context `{KeyCodes} (OPEN_RCVR_VERSION_LITE : bool).
Implicit Types (i : Input) (key_code : Z).

(** *** default_recovery_ui.c *)
Definition device_recovery_start : Z := 0.
Definition device_toggle_display (pressed : list Z) key_code : outcome bool :=
  up ← rd pressed KEY_VOLUMEUP;
  if negb (up =? 0) && (key_code =? KEY_HP) then mret true
  else
    hp ← rd pressed KEY_HP;
    mret (negb (hp =? 0) && (key_code =? KEY_VOLUMEUP)).
Definition device_reboot_now (pressed : list Z) key_code : bool := false.
Definition device_handle_key key_code (visible : bool) : Z :=
  if visible then
    if (key_code =? KEY_DOWN) || (key_code =? KEY_VOLUMEDOWN) then HIGHLIGHT_DOWN
    else if (key_code =? KEY_UP) || (key_code =? KEY_VOLUMEUP) then HIGHLIGHT_UP
    else if (key_code =? KEY_CENTER) || (key_code =? KEY_CAMERA) || (key_code =? KEY_ENTER) then SELECT_ITEM
    else NO_ACTION
  else NO_ACTION.
Definition device_perform_action (which : Z) : Z := which.
Definition device_wipe_data : Z := 0.

(** *** The input thread *)

(** What an event becomes: whether it is a fake key, its type, code and value, and [rel_sum]. *)
Definition translate_event (type code value sum : Z) : outcome (bool * Z * Z * Z * Z) :=
  if type =? EV_SYN then mret (false, type, code, value, sum)
  else if type =? EV_REL then
    if code =? REL_Y then
      sum ← int_ok (sum + value);
      if 3 <? sum then mret (true, EV_KEY, KEY_DOWN, 1, 0)
      else if sum <? -3 then mret (true, EV_KEY, KEY_UP, 1, 0)
      else mret (false, type, code, value, sum)
    else mret (false, type, code, value, sum)
  else mret (false, type, code, value, 0).

(** One event. [key_pressed] has characters. *)
Definition input_event (type code value : Z) i : outcome Input :=
  '(fake_key, type, code, value, sum) ← translate_event type code value (rel_sum i);
  if negb (type =? EV_KEY) || (KEY_MAX <? code) then
    mret (mk_input (key_queue i) (key_pressed i) sum (show_text i))
  else
    pressed ← if fake_key : bool then mret (key_pressed i) else wr (key_pressed i) code (u8 value);
    let queue := if (0 <? value) && (zlen (key_queue i) <? QUEUE_MAX) then key_queue i ++ [code] else key_queue i in
    toggle ← if OPEN_RCVR_VERSION_LITE && (0 <? value) then device_toggle_display pressed code else mret false;
    mret (mk_input queue pressed sum (xorb (show_text i) toggle)).

Definition ui_get_key i : Z * Input :=
  match key_queue i with
  | [] => (-1, i)
  | key :: queue => (key, mk_input queue (key_pressed i) (rel_sum i) (show_text i))
  end.
(** It waits while the queue is empty. *)
Definition ui_wait_key i : option (Z * Input) :=
  match key_queue i with
  | [] => None
  | key :: queue => Some (key, mk_input queue (key_pressed i) (rel_sum i) (show_text i))
  end.
Definition ui_key_pressed (key : Z) i : outcome Z := rd (key_pressed i) key.
Definition ui_clear_key_queue i : Input := mk_input [] (key_pressed i) (rel_sum i) (show_text i).
Definition ui_text_visible i : bool := show_text i.
End keys.

(** ** Colours *)
Record color32 := mk_color32 { r32 : Z; g32 : Z; b32 : Z; a32 : Z }.

(** The terminal has colours of its own. *)
Record Colors := mk_colors {
  led_color : color24;
  menu_background : color32;
  title_color : color32;
  menu_color : color32;
  menu_sel_color : color32;
  script_color : color32;
  title_color_set : bool;
  terminal : Term
}.
Definition initial_colors : Colors :=
  mk_colors (mk_color 1 0 0) (mk_color32 0 0 0 160) (mk_color32 255 55 5 255) (mk_color32 255 55 5 255)
    (mk_color32 255 255 255 255) (mk_color32 255 255 0 255) false initial.

(** The value of a digit, an unsigned character. *)
Definition hex_digit (c : Z) : option Z :=
  if 57 <? c then let v := u8 (c - 65 + 10) in if 15 <? v then None else Some v
  else let v := u8 (c - 48) in if 9 <? v then None else Some v.
Definition read_byte_hex (s : list Z) : option Z :=
  match hex_digit (char_at s 0) with
  | None => None
  | Some high => match hex_digit (char_at s 1) with None => None | Some low => Some (high * 16 + low) end
  end.
(** [n] bytes. *)
Fixpoint htoc (s : list Z) (n : nat) : option (list Z) :=
  match n with
  | O => Some []
  | S n =>
      match read_byte_hex s with
      | None => None
      | Some c => match htoc (drop 2 s) n with None => None | Some cs => Some (c :: cs) end
      end
  end.
Definition htoc24 (s : list Z) : option color24 :=
  if (length s <? 7)%nat || negb (char_at s 0 =? 35) then None
  else match htoc (drop 1 s) 3 with Some [r; g; b] => Some (mk_color r g b) | _ => None end.
Definition htoc32 (s : list Z) : option color32 :=
  if (length s <? 9)%nat || negb (char_at s 0 =? 35) then None
  else match htoc (drop 1 s) 4 with Some [r; g; b; a] => Some (mk_color32 r g b a) | _ => None end.

Definition set_terminal_colors (header background front : color24) (terms : list color24) (t : Term) : Term :=
  mk_term (screen_rows t) (screen_columns t) (console_text t) (console_text_color t) (current_color t) (top_row t)
    (force_top_row_on_text t) (force_top_row_reserve t) (cur_row t) (cur_column t) (show_console t)
    (console_refresh t) (escaped_state t) (escaped_buffer t) (escaped_sequence t) header background front terms (led_sts t).

Section properties.
Context (OPEN_RECOVERY_HAVE_CONSOLE : bool).
Implicit Types (data value : list Z) (c : Colors).

Definition TERMCLR : list Z := str "color24.console.termclr".
Definition bit_of (x : Z) : Z := if x =? 49 then 1 else 0.

Definition evaluate_console_property data value c : outcome Colors :=
  let t := terminal c in
  let set t := mret (mk_colors (led_color c) (menu_background c) (title_color c) (menu_color c) (menu_sel_color c)
    (script_color c) (title_color_set c) t) in
  if strcmp data (str "color24.console.header") =? 0 then
    match htoc24 value with
    | Some x => set (set_terminal_colors x (background_color t) (front_color t) (term_colors t) t)
    | None => mret c
    end
  else if strcmp data (str "color24.console.background") =? 0 then
    match htoc24 value with
    | Some x => set (set_terminal_colors (header_color t) x (front_color t) (term_colors t) t)
    | None => mret c
    end
  else if strcmp data (str "color24.console.front") =? 0 then
    match htoc24 value with
    | Some x => set (set_terminal_colors (header_color t) (background_color t) x (term_colors t) t)
    | None => mret c
    end
  else if strncmp (length TERMCLR) data TERMCLR =? 0 then
    match htoc24 value with
    | Some x =>
        let val := fst (strtol (drop (length TERMCLR) data)) in
        let put k := terms ← wr (term_colors t) k x;
          set (set_terminal_colors (header_color t) (background_color t) (front_color t) terms t) in
        if (30 <=? val) && (val <=? 37) then put (val - 30)
        else if (90 <=? val) && (val <=? 97) then put (val - 90 + 8)
        else mret c
    | None => mret c
    end
  else mret c.

Definition evaluate_property data value c : outcome Colors :=
  if strcmp data (str "color3.LED") =? 0 then
    if (length value <? 4)%nat || negb (char_at value 0 =? 35) then mret c
    else mret (mk_colors (mk_color (bit_of (char_at value 1)) (bit_of (char_at value 2)) (bit_of (char_at value 3)))
      (menu_background c) (title_color c) (menu_color c) (menu_sel_color c) (script_color c) (title_color_set c) (terminal c))
  else if strcmp data (str "color32.background") =? 0 then
    mret match htoc32 value with
    | Some x => mk_colors (led_color c) x (title_color c) (menu_color c) (menu_sel_color c) (script_color c) (title_color_set c) (terminal c)
    | None => c
    end
  else if strcmp data (str "color32.title") =? 0 then
    mret match htoc32 value with
    | Some x => mk_colors (led_color c) (menu_background c) x (menu_color c) (menu_sel_color c) (script_color c) true (terminal c)
    | None => c
    end
  else if strcmp data (str "color32.menu") =? 0 then
    mret match htoc32 value with
    | Some x => mk_colors (led_color c) (menu_background c) (if title_color_set c then title_color c else x) x
        (menu_sel_color c) (script_color c) (title_color_set c) (terminal c)
    | None => c
    end
  else if strcmp data (str "color32.selection") =? 0 then
    mret match htoc32 value with
    | Some x => mk_colors (led_color c) (menu_background c) (title_color c) (menu_color c) x (script_color c) (title_color_set c) (terminal c)
    | None => c
    end
  else if strcmp data (str "color32.script") =? 0 then
    mret match htoc32 value with
    | Some x => mk_colors (led_color c) (menu_background c) (title_color c) (menu_color c) (menu_sel_color c) x (title_color_set c) (terminal c)
    | None => c
    end
  else if OPEN_RECOVERY_HAVE_CONSOLE then evaluate_console_property data value c
  else mret c.

(** *** The file *)

(** White space is removed at both ends, but the first character behind it stays. *)
Fixpoint rtrim (s : list Z) : list Z :=
  match s with
  | [] => []
  | c :: s => match rtrim s with [] => if is_space c then [] else [c] | t => c :: t end
  end.
Definition trim (s : list Z) : list Z :=
  match drop (count_while is_space s) s with [] => [] | c :: s => c :: rtrim s end.

(** The key and the value of a line. *)
Definition property_line (line : list Z) : option (list Z * list Z) :=
  match strchr line 61 with
  | None => None
  | Some i =>
      let key := trim (take i line) in
      if char_at key 0 =? 35 then None else Some (key, trim (drop (S i) line))
  end.

(** The lines that end with a line break. *)
Fixpoint complete_lines (s cur : list Z) : list (list Z) :=
  match s with
  | [] => []
  | c :: s => if c =? 10 then cur :: complete_lines s [] else complete_lines s (cur ++ [c])
  end.

Fixpoint load_lines (lines : list (list Z)) c : outcome Colors :=
  match lines with
  | [] => mret c
  | line :: lines =>
      c ← (match property_line line with Some (key, value) => evaluate_property key value c | None => mret c end);
      load_lines lines c
  end.
Definition load_properties (data : list Z) c : outcome Colors := load_lines (complete_lines (c_string data) []) c.
End properties.

(** ** Reading a file of settings *)

(** Two digits. *)
Definition digit (v : Z) : Z := if v <? 10 then 48 + v else 55 + v.
Definition hex (v : Z) : list Z := [digit (v / 16); digit (v mod 16)].
Definition show_color24 (c : color24) : list Z := 35 :: hex (c_r c) ++ hex (c_g c) ++ hex (c_b c).
Definition show_color32 (c : color32) : list Z := 35 :: hex (r32 c) ++ hex (g32 c) ++ hex (b32 c) ++ hex (a32 c).

Lemma hex_digit_of_digit v : 0 ≤ v < 16 → hex_digit (digit v) = Some v.
Proof.
  intros Hv. unfold hex_digit, digit. destruct (Z.ltb_spec v 10).
  - rewrite (proj2 (Z.ltb_ge _ _)), u8_small, (proj2 (Z.ltb_ge _ _)) by lia. f_equal. lia.
  - rewrite (proj2 (Z.ltb_lt _ _)), u8_small, (proj2 (Z.ltb_ge _ _)) by lia. f_equal. lia.
Qed.
Lemma htoc_hex v s n : 0 ≤ v < 256 → htoc (hex v ++ s) (S n) = match htoc s n with None => None | Some cs => Some (v :: cs) end.
Proof.
  intros Hv. unfold hex. cbn [htoc app drop]. unfold read_byte_hex. cbn [char_at].
  change (char_at (?a :: _) 0) with a. change (char_at (_ :: ?a :: _) 1) with a.
  rewrite hex_digit_of_digit by (split; [apply Z.div_pos|apply Z.div_lt_upper_bound]; lia).
  rewrite hex_digit_of_digit by (apply Z.mod_pos_bound; lia).
  replace (v / 16 * 16 + v mod 16) with v by (pose proof (Z.div_mod v 16); lia). done.
Qed.
Lemma htoc24_show c :
  0 ≤ c_r c < 256 → 0 ≤ c_g c < 256 → 0 ≤ c_b c < 256 → htoc24 (show_color24 c) = Some c.
Proof.
  intros. unfold htoc24, show_color24. cbn [length Nat.ltb char_at drop].
  change (char_at (35 :: ?l) 0) with 35. cbn [negb Z.eqb Pos.eqb orb length app].
  rewrite <- (app_nil_r (hex (c_b c))), drop_0. rewrite !htoc_hex by done. by destruct c.
Qed.
Lemma htoc32_show c :
  0 ≤ r32 c < 256 → 0 ≤ g32 c < 256 → 0 ≤ b32 c < 256 → 0 ≤ a32 c < 256 → htoc32 (show_color32 c) = Some c.
Proof.
  intros. unfold htoc32, show_color32.
  change (char_at (35 :: ?l) 0) with 35. cbn [negb Z.eqb Pos.eqb orb length app Nat.ltb Nat.leb drop].
  rewrite <- (app_nil_r (hex (a32 c))), drop_0. rewrite !htoc_hex by done. by destruct c.
Qed.

(** A setting as it stands in the file, with white space around its key and its value. *)
Record setting := mk_setting { key : list Z; value : list Z; pad1 : list Z; pad2 : list Z; pad3 : list Z; pad4 : list Z }.
Definition show_setting (x : setting) : list Z :=
  pad1 x ++ key x ++ pad2 x ++ 61 :: pad3 x ++ value x ++ pad4 x ++ [10].
Definition word (s : list Z) : Prop := Forall (λ c, c ≠ 0 ∧ is_space c = false) s.
Definition blank (s : list Z) : Prop := Forall (λ c, c ≠ 10 ∧ is_space c = true) s.
Definition setting_ok (x : setting) : Prop :=
  word (key x) ∧ (61 ∉ key x) ∧ char_at (key x) 0 ≠ 35 ∧ word (value x) ∧
  blank (pad1 x) ∧ blank (pad2 x) ∧ blank (pad3 x) ∧ blank (pad4 x).

Lemma count_while_app_all f a s :
  Forall (λ c, f c = true) a → count_while f (a ++ s) = (length a + count_while f s)%nat.
Proof. induction 1 as [|c a Hc Ha IH]; [done|]. simpl. by rewrite Hc, IH. Qed.

Lemma rtrim_blank s : blank s → rtrim s = [].
Proof. induction 1 as [|c s [_ Hc] Hs IH]; [done|]. simpl. by rewrite IH, Hc. Qed.
Lemma rtrim_word s t : word s → blank t → rtrim (s ++ t) = s.
Proof.
  intros Hs Ht. induction Hs as [|c s [_ Hc] Hs IH]; [by apply rtrim_blank|]. simpl. rewrite IH.
  destruct s; [by rewrite Hc|done].
Qed.
Lemma trim_word a s t : blank a → word s → blank t → trim (a ++ s ++ t) = s.
Proof.
  intros Ha Hs Ht. unfold trim.
  assert (Hall : ∀ l, blank l → Forall (λ c, is_space c = true) l).
  { intros l Hl. eapply Forall_impl; [exact Hl|]. by intros c [_ ?]. }
  rewrite count_while_app_all, <- drop_drop, drop_app_length by auto.
  destruct Hs as [|c s [_ Hc] Hs].
  - replace (count_while is_space ([] ++ t)) with (length t); [by rewrite drop_all|].
    rewrite app_nil_l, <- (app_nil_r t), count_while_app_all, app_nil_r by auto. simpl. lia.
  - simpl. rewrite Hc. simpl. f_equal. by apply rtrim_word.
Qed.

Lemma strchr_first s t c : c ≠ 0 → c ∉ s → strchr (s ++ c :: t) c = Some (length s).
Proof.
  intros Hc Hs. induction s as [|x s IH]; [simpl; by rewrite Z.eqb_refl|].
  apply not_elem_of_cons in Hs as [Hx Hs]. simpl. rewrite (proj2 (Z.eqb_neq _ _)) by congruence. by rewrite IH.
Qed.
Lemma blank_no_eq s : blank s → 61 ∉ s.
Proof. intros Hs Hin. pose proof (proj1 (Forall_forall _ _) Hs _ Hin) as [_ Hsp]. done. Qed.

Lemma property_line_setting x :
  setting_ok x →
  property_line (pad1 x ++ key x ++ pad2 x ++ 61 :: pad3 x ++ value x ++ pad4 x) = Some (key x, value x).
Proof.
  intros (Hk & H61 & H35 & Hv & H1' & H2' & H3' & H4'). unfold property_line.
  assert (Hno : 61 ∉ pad1 x ++ key x ++ pad2 x).
  { rewrite !elem_of_app. apply blank_no_eq in H1', H2'. tauto. }
  replace (pad1 x ++ key x ++ pad2 x ++ 61 :: pad3 x ++ value x ++ pad4 x)
    with ((pad1 x ++ key x ++ pad2 x) ++ 61 :: pad3 x ++ value x ++ pad4 x) by (by rewrite <- !app_assoc).
  rewrite strchr_first by done. rewrite take_app_length, trim_word by done.
  rewrite (proj2 (Z.eqb_neq _ _)) by done. do 2 f_equal.
  rewrite <- Nat.add_1_r, <- drop_drop, drop_app_length. by apply trim_word.
Qed.

Lemma complete_lines_line s rest cur :
  10 ∉ s → complete_lines (s ++ 10 :: rest) cur = (cur ++ s) :: complete_lines rest [].
Proof.
  revert cur. induction s as [|c s IH]; intros cur Hs; [simpl; by rewrite app_nil_r|].
  apply not_elem_of_cons in Hs as [Hc Hs]. simpl. rewrite (proj2 (Z.eqb_neq _ _)) by congruence.
  rewrite IH by done. by rewrite <- app_assoc.
Qed.

Lemma setting_chars x :
  setting_ok x → (10 ∉ pad1 x ++ key x ++ pad2 x ++ 61 :: pad3 x ++ value x ++ pad4 x) ∧
  Forall (λ c, c ≠ 0) (show_setting x).
Proof.
  intros (Hk & H61 & H35 & Hv & H1' & H2' & H3' & H4').
  assert (Hw : ∀ s, word s → (10 ∉ s) ∧ Forall (λ c, c ≠ 0) s).
  { intros s Hs. split; [|eapply Forall_impl; [exact Hs|]; by intros c [? _]].
    intros Hin. by destruct (proj1 (Forall_forall _ _) Hs _ Hin). }
  assert (Hb : ∀ s, blank s → (10 ∉ s) ∧ Forall (λ c, c ≠ 0) s).
  { intros s Hs. split.
    - intros Hin. by destruct (proj1 (Forall_forall _ _) Hs _ Hin).
    - eapply Forall_impl; [exact Hs|]. intros c [_ Hc] ->. done. }
  apply Hw in Hk as [? ?], Hv as [? ?]. apply Hb in H1' as [? ?], H2' as [? ?], H3' as [? ?], H4' as [? ?]. split.
  - rewrite !elem_of_app, elem_of_cons, !elem_of_app. intuition done.
  - unfold show_setting. rewrite !Forall_app, !Forall_cons, !Forall_app. repeat split; try done. by repeat constructor.
Qed.

Fixpoint evaluate_all (console : bool) (l : list setting) (c : Colors) : outcome Colors :=
  match l with [] => mret c | x :: l => c ← evaluate_property console (key x) (value x) c; evaluate_all console l c end.

(** C25: A file of settings is read as it is meant: loading the lines [key = value], with any
    white space around the two, does what evaluating the settings one after the other does. *)
Theorem load_properties_reads console l c :
  Forall setting_ok l → load_properties console (l ≫= show_setting) c = evaluate_all console l c.
Proof.
  intros Hl. unfold load_properties.
  assert (Hz : c_string (l ≫= show_setting) = l ≫= show_setting).
  { rewrite <- (app_nil_r (l ≫= show_setting)) at 1.
    assert (Hn : Forall (λ c, c ≠ 0) (l ≫= show_setting)).
    { induction Hl as [|x l Hx Hl IH]; [constructor|]. simpl. apply Forall_app. split; [by apply setting_chars|done]. }
    clear Hl c. rewrite app_nil_r. induction Hn as [|x s Hx Hs IH]; [done|]. simpl.
    rewrite (proj2 (Z.eqb_neq _ _)) by done. by rewrite IH. }
  rewrite Hz. clear Hz. revert c. induction Hl as [|x l Hx Hl IH]; intros c; [done|].
  cbn [mbind list_bind evaluate_all]. destruct (setting_chars x Hx) as [Hten _].
  replace (show_setting x ++ (l ≫= show_setting))
    with ((pad1 x ++ key x ++ pad2 x ++ 61 :: pad3 x ++ value x ++ pad4 x) ++ 10 :: (l ≫= show_setting)); cycle 1.
  { unfold show_setting. rewrite <- !app_assoc. simpl. by rewrite <- !app_assoc. }
  change (list_bind _ _ show_setting l) with (l ≫= show_setting).
  rewrite complete_lines_line by done. cbn [load_lines app]. rewrite property_line_setting by done.
  destruct (evaluate_property console (key x) (value x) c) as [c'| |]; cbn [mbind outcome_bind]; [apply IH|done..].
Qed.

(** *** Examples *)
Definition background_setting : setting :=
  mk_setting (str "color32.background") (show_color32 (mk_color32 16 32 48 160)) [32] [32; 9] [32] [13].
Lemma load_properties_reads_witness :
  load_properties false ([background_setting] ≫= show_setting) initial_colors =
    evaluate_all false [background_setting] initial_colors.
Proof.
  apply (load_properties_reads false [background_setting] initial_colors). constructor; [|done].
  split; [by repeat constructor|]. split; [by apply (bool_decide_unpack _)|]. split; [done|].
  split; [by repeat constructor|]. repeat split; by repeat constructor.
Defined.

Example background_loaded :
  (c ← load_properties false (str " color32.background" ++ [9] ++ str "= #102030A0 " ++ [10]) initial_colors;
   mret (menu_background c)) = Ret (mk_color32 16 32 48 160).
Proof. lazy. reflexivity. Qed.

(** The characters between the digits and the letters count as digits; small letters do not. *)
Example no_digits : read_byte_hex (str ":@") = Some 0x39 ∧ read_byte_hex (str "ff") = None.
Proof. done. Qed.

(** Keys come out of the queue in the order in which they went in, unless it was full. *)
Section fifo.
Context `{KeyCodes} (lite : bool) (Hkinds : EV_KEY ≠ EV_SYN ∧ EV_KEY ≠ EV_REL).

Fixpoint press (codes : list Z) (i : Input) : outcome Input :=
  match codes with [] => mret i | c :: codes => i ← input_event lite EV_KEY c 1 i; press codes i end.

Lemma press_queue codes i :
  Forall (λ c, 0 ≤ c ≤ KEY_MAX) codes → zlen (key_pressed i) = KEY_MAX + 1 →
  0 ≤ KEY_VOLUMEUP ≤ KEY_MAX → 0 ≤ KEY_HP ≤ KEY_MAX → zlen (key_queue i) ≤ QUEUE_MAX →
  ∃ i', press codes i = Ret i' ∧ key_queue i' = take (Z.to_nat QUEUE_MAX) (key_queue i ++ codes).
Proof.
  intros Hcodes. revert i. induction Hcodes as [|c codes Hc Hcodes IH]; intros i Hp Hup Hhp Hq.
  { exists i. split; [done|]. rewrite app_nil_r, take_ge by lia. done. }
  cbn [press]. unfold input_event, translate_event.
  rewrite (proj2 (Z.eqb_neq _ _)), (proj2 (Z.eqb_neq EV_KEY EV_REL)) by tauto. cbn [mbind outcome_bind mret outcome_ret].
  rewrite Z.eqb_refl, (proj2 (Z.ltb_ge _ _)) by lia. cbn [negb orb].
  rewrite wr_in_bounds by lia. cbn [mbind outcome_bind]. rewrite (proj2 (Z.ltb_lt 0 1)) by lia. cbn [andb].
  set (pressed := <[_ := _]> _). assert (Hpl : zlen pressed = KEY_MAX + 1) by (subst pressed; by rewrite length_insert).
  assert (Ht : ∃ b, (if lite && true then device_toggle_display pressed c else mret false) = Ret b).
  { destruct lite; cbn [andb]; [|by eexists]. unfold device_toggle_display.
    destruct (rd_in_bounds pressed KEY_VOLUMEUP) as [u ->]; [lia|]. cbn [mbind outcome_bind].
    destruct (_ && _); [by eexists|]. destruct (rd_in_bounds pressed KEY_HP) as [h ->]; [lia|]. by eexists. }
  destruct Ht as [b ->]. cbn [mbind outcome_bind mret outcome_ret].
  destruct (Z.ltb_spec (zlen (key_queue i)) QUEUE_MAX) as [Hlt|Hge].
  - edestruct (IH (mk_input (key_queue i ++ [c]) pressed 0 (xorb (show_text i) b))) as (i' & -> & Hi');
      [done|done|done|simpl; rewrite length_app; simpl; lia|].
    exists i'. split; [done|]. rewrite Hi'. simpl. by rewrite <- app_assoc.
  - edestruct (IH (mk_input (key_queue i) pressed 0 (xorb (show_text i) b))) as (i' & -> & Hi'); [done..|].
    exists i'. split; [done|]. rewrite Hi'. simpl. by rewrite !take_app_le by lia.
Qed.
End fifo.
