(* ===== verification/Machine.v ===== *)
(** * Machine

    The state that recovery.c, install.c and firmware.c work on: the system, the roots, the
    screen and the LED, the keys that are pressed and the firmware update that is remembered; and the monad
    of the code that changes it. *)
From S2P Require Import Prelude CString DirUtil ZipParse Syscalls Mtdutils Mounts Roots Terminal Ui Input.

(** What the progress bar is told; a fraction is the text that [strtof] reads. *)
Inductive progress_call :=
  | show_progress (portion : list Z) (seconds : Z)
  | set_progress (fraction : list Z)
  | show_indeterminate_progress.

(** The icons of common.h. *)
Definition BACKGROUND_ICON_NONE : Z := 0.
Definition BACKGROUND_ICON_INSTALLING : Z := 1.
Definition BACKGROUND_ICON_ERROR : Z := 2.
Definition BACKGROUND_ICON_FIRMWARE_INSTALLING : Z := 3.
Definition BACKGROUND_ICON_FIRMWARE_ERROR : Z := 4.

Record Firmware := mk_firmware { update_type : option (list Z); update_data : option (list Z); update_length : Z }.
Definition no_firmware : Firmware := mk_firmware None None 0.

(** [m_keys] are the keys that [ui_wait_key] will answer, each with whether the text is visible
    when it does; [m_visible] is the last of these. *)
Record Machine (W : Type) := mk_machine {
  m_world : W;
  m_roots : Roots;
  m_package : Package;
  m_log : Log;
  m_view : MenuView;
  m_keys : list (Z * bool);
  m_visible : bool;
  m_icon : Z;
  m_terminal : Term;
  m_progress : list progress_call;
  m_firmware : Firmware;
  m_tmplog_offset : Z
}.
Arguments mk_machine {W} _ _ _ _ _ _ _ _ _ _ _ _.
Arguments m_world {W} _.
Arguments m_roots {W} _.
Arguments m_package {W} _.
Arguments m_log {W} _.
Arguments m_view {W} _.
Arguments m_keys {W} _.
Arguments m_visible {W} _.
Arguments m_icon {W} _.
Arguments m_terminal {W} _.
Arguments m_progress {W} _.
Arguments m_firmware {W} _.
Arguments m_tmplog_offset {W} _.

Section monad.
Context {W : Type}.
Implicit Types (m : Machine W).

Definition Rec (A : Type) : Type := Machine W → outcome (A * Machine W).
#[global] Instance Rec_ret : MRet Rec := λ A a m, Ret (a, m).
#[global] Instance Rec_bind : MBind Rec := λ A B k x m, '(a, m) ← x m; k a m.

Definition pure {A} (o : outcome A) : Rec A := λ m, a ← o; Ret (a, m).
Definition get {A} (f : Machine W → A) : Rec A := λ m, Ret (f m, m).
Definition when (b : bool) (x : Rec unit) : Rec unit := if b then x else mret tt.

(** The parts of the state. *)
Definition set_system (w : W) (s : Roots) m : Machine W :=
  mk_machine w s (m_package m) (m_log m) (m_view m) (m_keys m) (m_visible m) (m_icon m) (m_terminal m) (m_progress m) (m_firmware m) (m_tmplog_offset m).
Definition on_system {A} (f : Roots → W → outcome (A * Roots * W)) : Rec A := λ m,
  '(a, s, w) ← f (m_roots m) (m_world m); Ret (a, set_system w s m).
Definition on_world {A} (f : W → A * W) : Rec A := λ m,
  let '(a, w) := f (m_world m) in Ret (a, set_system w (m_roots m) m).
Definition set_package_root (g : Package) : Rec unit := λ m,
  Ret (tt, mk_machine (m_world m) (m_roots m) g (m_log m) (m_view m) (m_keys m) (m_visible m) (m_icon m) (m_terminal m) (m_progress m) (m_firmware m) (m_tmplog_offset m)).
Definition set_view (v : MenuView) : Rec unit := λ m,
  Ret (tt, mk_machine (m_world m) (m_roots m) (m_package m) (m_log m) v (m_keys m) (m_visible m) (m_icon m) (m_terminal m) (m_progress m) (m_firmware m) (m_tmplog_offset m)).
Definition set_firmware (f : Firmware) : Rec unit := λ m,
  Ret (tt, mk_machine (m_world m) (m_roots m) (m_package m) (m_log m) (m_view m) (m_keys m) (m_visible m) (m_icon m) (m_terminal m) (m_progress m) f (m_tmplog_offset m)).

(** *** The screen and the keys *)
Definition set_log (l : Log) m : Machine W :=
  mk_machine (m_world m) (m_roots m) (m_package m) l (m_view m) (m_keys m) (m_visible m) (m_icon m) (m_terminal m) (m_progress m) (m_firmware m) (m_tmplog_offset m).
(** [ui_print] of a text that is already formatted. *)
Definition print (s : list Z) : Rec unit := λ m, l ← ui_print s (m_log m); Ret (tt, set_log l m).
Definition LOGE (s : list Z) : Rec unit := print (str "E:" ++ s).
Definition print_raw (s : list Z) : Rec unit := λ m, l ← ui_print_raw s (m_log m); Ret (tt, set_log l m).
Definition set_background (icon : Z) : Rec unit := λ m,
  Ret (tt, mk_machine (m_world m) (m_roots m) (m_package m) (m_log m) (m_view m) (m_keys m) (m_visible m) icon (m_terminal m) (m_progress m) (m_firmware m) (m_tmplog_offset m)).
Definition on_terminal (f : Term → Term) : Rec unit := λ m,
  Ret (tt, mk_machine (m_world m) (m_roots m) (m_package m) (m_log m) (m_view m) (m_keys m) (m_visible m) (m_icon m) (f (m_terminal m)) (m_progress m) (m_firmware m) (m_tmplog_offset m)).
Definition update_terminal (f : Term → outcome Term) : Rec unit := λ m, t ← f (m_terminal m); on_terminal (λ _, t) m.
Definition blink : Rec unit := on_terminal (ui_led_blink true).
Definition dark : Rec unit := on_terminal (ui_led_toggle false).
Definition progress (c : progress_call) : Rec unit := λ m,
  Ret (tt, mk_machine (m_world m) (m_roots m) (m_package m) (m_log m) (m_view m) (m_keys m) (m_visible m) (m_icon m) (m_terminal m) (m_progress m ++ [c]) (m_firmware m) (m_tmplog_offset m)).
(** The next key; without one the code waits for ever. *)
Definition wait_key : Rec (Z * bool) := λ m,
  match m_keys m with
  | [] => Diverge
  | (key, visible) :: keys =>
      Ret ((key, visible), mk_machine (m_world m) (m_roots m) (m_package m) (m_log m) (m_view m) keys visible (m_icon m) (m_terminal m) (m_progress m) (m_firmware m) (m_tmplog_offset m))
  end.
Definition menu_select (sel : Z) : Rec Z := λ m, let '(r, v) := ui_menu_select sel (m_view m) in set_view v m ≫= λ '(_, m), Ret (r, m).
Definition hide_menu_selection : Rec unit := λ m, set_view (ui_end_menu (m_log m) (m_view m)) m.
End monad.
Arguments Rec : clear implicits.

(** ** Runs that do not go wrong *)

(** No access faults, and what is returned satisfies [Q]; the run may go on for ever if
    [may_diverge] says so. *)
Definition okay (may_diverge : bool) {W A} (x : Rec W A) (m : Machine W) (Q : A → Machine W → Prop) : Prop :=
  match x m with Ret (a, m) => Q a m | Fault _ => False | Diverge => may_diverge = true end.

Section okay.
Context {W : Type} {d : bool}.
Implicit Types (m : Machine W).

Lemma run_bind {A B} (x : Rec W A) (k : A → Rec W B) m a m' : x m = Ret (a, m') → (x ≫= k) m = k a m'.
Proof. unfold mbind, Rec_bind. by intros ->. Qed.
Lemma run_pure {A} (o : outcome A) a m : o = Ret a → pure o m = Ret (a, m).
Proof. by intros ->. Qed.
Lemma okay_ret {A} (a : A) m (Q : A → Machine W → Prop) : Q a m → okay d (mret a) m Q.
Proof. done. Qed.
Lemma okay_bind {A B} (x : Rec W A) (k : A → Rec W B) m (Q : B → Machine W → Prop) :
  okay d x m (λ a m, okay d (k a) m Q) → okay d (x ≫= k) m Q.
Proof. unfold okay, mbind, Rec_bind. destruct (x m) as [[a m']| |]; done. Qed.
Lemma okay_mono {A} (x : Rec W A) m (P Q : A → Machine W → Prop) : okay d x m P → (∀ a m, P a m → Q a m) → okay d x m Q.
Proof. unfold okay. destruct (x m) as [[a m']| |]; auto. Qed.
Lemma okay_pure {A} (o : outcome A) m (Q : A → Machine W → Prop) : wp o (λ a, Q a m) → okay d (pure o) m Q.
Proof. intros Ho. unfold okay, pure. by destruct o. Qed.
Lemma okay_get {A} (f : Machine W → A) m (Q : A → Machine W → Prop) : Q (f m) m → okay d (get f) m Q.
Proof. done. Qed.
Lemma okay_set_background icon m (Q : unit → Machine W → Prop) :
  (∀ m', m_terminal m' = m_terminal m → m_world m' = m_world m → Q tt m') → okay d (set_background icon) m Q.
Proof. unfold okay, set_background. auto. Qed.
Lemma okay_diverge {A} m (Q : A → Machine W → Prop) : d = true → okay d (pure Diverge) m Q.
Proof. done. Qed.
Lemma okay_returns {A} (x : Rec W A) m Q : okay false x m Q → ∃ a m', x m = Ret (a, m') ∧ Q a m'.
Proof. unfold okay. destruct (x m) as [[a m']| |]; [|done..]. intros HQ. by exists a, m'. Qed.
Lemma okay_update_terminal f m (Q : unit → Machine W → Prop) :
  wp (f (m_terminal m)) (λ t, ∀ m', m_terminal m' = t → m_world m' = m_world m → Q tt m') → okay d (update_terminal f) m Q.
Proof. unfold okay, update_terminal. destruct (f (m_terminal m)) as [t| |]; simpl; [|done..]. auto. Qed.
Lemma okay_on_terminal f m (Q : unit → Machine W → Prop) :
  (∀ m', m_terminal m' = f (m_terminal m) → m_world m' = m_world m → Q tt m') → okay d (on_terminal f) m Q.
Proof. unfold okay, on_terminal. auto. Qed.
Lemma okay_on_world {A} (f : W → A * W) m (Q : A → Machine W → Prop) :
  (∀ m', m_terminal m' = m_terminal m → m_world m' = (f (m_world m)).2 → Q (f (m_world m)).1 m') → okay d (on_world f) m Q.
Proof. unfold okay, on_world. destruct (f (m_world m)) as [a w]. auto. Qed.
End okay.
