(* ===== verification/Select.v ===== *)
(** * Select

    recovery.c: choosing an item of a menu with the keys. *)
From S2P Require Import Prelude CString Mtdutils Mounts Roots Terminal Ui Input Machine.

Section code.
Context `{KeyCodes} {W : Type}.
Context (MENU_TITLE : list (list Z)) (fuel : nat).
Implicit Types (headers items : list (list Z)) (selectability : list Z).

(** The headers with the title above them, and the length of the title. *)
Definition prepend_title headers : list (list Z) * Z := (MENU_TITLE ++ headers, zlen MENU_TITLE).

(** The loops behind the two cases of the keys, in [selectability] and the number of items. *)
Fixpoint highlight_up (n : nat) selectability (num_items selected : Z) : outcome Z :=
  match n with
  | O => Diverge
  | S n =>
      let selected := if selected - 1 <? 0 then num_items - 1 else selected - 1 in
      s ← rd selectability selected;
      if negb (s =? 0) then mret selected else highlight_up n selectability num_items selected
  end.
Fixpoint highlight_down (n : nat) selectability (num_items selected : Z) : outcome Z :=
  match n with
  | O => Diverge
  | S n =>
      let selected := if num_items <=? selected + 1 then 0 else selected + 1 in
      s ← rd selectability selected;
      if negb (s =? 0) then mret selected else highlight_down n selectability num_items selected
  end.

(** [n] bounds the number of keys. *)
Fixpoint selection_loop (n : nat) selectability (num_items : Z) (menu_only : bool) (selected : Z) : Rec W Z :=
  match n with
  | O => pure Diverge
  | S n =>
      '(key, visible) ← wait_key;
      let action := device_handle_key key visible in
      if action <? 0 then
        if action =? HIGHLIGHT_UP then
          selected ← pure (highlight_up fuel selectability num_items selected);
          selected ← menu_select selected;
          selection_loop n selectability num_items menu_only selected
        else if action =? HIGHLIGHT_DOWN then
          selected ← pure (highlight_down fuel selectability num_items selected);
          selected ← menu_select selected;
          selection_loop n selectability num_items menu_only selected
        else if (action =? SELECT_ITEM) && (0 <=? selected) then mret selected
        else selection_loop n selectability num_items menu_only selected
      else if negb menu_only then mret action
      else selection_loop n selectability num_items menu_only selected
  end.

Definition start_at (num_items start_sel : Z) : Z :=
  let start_sel := if num_items <=? start_sel then num_items - 1 else start_sel in
  if start_sel <? 0 then 0 else start_sel.

(** The keys that were pressed before are thrown away. *)
Definition get_menu_selection headers items selectability (title_length start_sel : Z) (menu_only : bool) : Rec W Z :=
  let num_items := zlen items in
  let start_sel := start_at num_items start_sel in
  l ← get m_log;
  v ← get m_view;
  _ ← set_view (ui_start_menu headers items title_length start_sel l v);
  keys ← get m_keys;
  selection_loop (S (length keys)) selectability num_items menu_only start_sel.

Definition show_interactive_menu headers items : Rec W Z :=
  let '(title, title_length) := prepend_title headers in
  chosen_item ← get_menu_selection title items (replicate (length items) 1) title_length 0 true;
  _ ← hide_menu_selection;
  mret (chosen_item + 1).
End code.

(** ** Which item is chosen *)
Section choice.
Context `{KeyCodes} {W : Type}.
Implicit Types (headers items : list (list Z)) (sel : list Z).

Definition selectable sel (k : Z) : Prop := ∃ s, sel !! Z.to_nat k = Some s ∧ s ≠ 0.
#[local] Instance selectable_decision sel k : Decision (selectable sel k).
Proof.
  unfold selectable. destruct (sel !! Z.to_nat k) as [s|]; [destruct (decide (s = 0))|].
  - right. intros (s' & Hs & Hne). congruence.
  - left. by exists s.
  - right. intros (s' & Hs & _). done.
Defined.

(** The first item that can be selected on the way in direction [d], around the end of the menu. *)
Definition steps_to sel (n d k r : Z) : Prop :=
  ∃ e, 1 ≤ e ≤ n ∧ r = (k + d * e) mod n ∧ selectable sel r ∧
    ∀ e', 1 ≤ e' < e → ¬ selectable sel ((k + d * e') mod n).

(** From an item to another by what the keys mean. *)
Inductive walks sel (n : Z) : Z → list Z → Z → Prop :=
  | walks_end k : walks sel n k [] k
  | walks_up k k' actions r : steps_to sel n (-1) k k' → walks sel n k' actions r → walks sel n k (HIGHLIGHT_UP :: actions) r
  | walks_down k k' actions r : steps_to sel n 1 k k' → walks sel n k' actions r → walks sel n k (HIGHLIGHT_DOWN :: actions) r
  | walks_stay k actions r : walks sel n k actions r → walks sel n k (NO_ACTION :: actions) r.

Lemma down_once k n : 0 ≤ k < n → (if k - 1 <? 0 then n - 1 else k - 1) = (k + -1) mod n.
Proof.
  intros Hk. destruct (Z.ltb_spec (k - 1) 0).
  - replace (k + -1) with (n - 1 + (-1) * n) by lia. rewrite Z.mod_add, Z.mod_small; lia.
  - rewrite Z.mod_small; lia.
Qed.
Lemma up_once k n : 0 ≤ k < n → (if n <=? k + 1 then 0 else k + 1) = (k + 1) mod n.
Proof.
  intros Hk. destruct (Z.leb_spec n (k + 1)).
  - replace (k + 1) with (0 + 1 * n) by lia. rewrite Z.mod_add, Z.mod_small; lia.
  - rewrite Z.mod_small; lia.
Qed.
Lemma mod_step k d e n : ((k + d) mod n + d * (Z.of_nat e)) mod n = (k + d * Z.of_nat (S e)) mod n.
Proof. rewrite Zplus_mod_idemp_l. f_equal. lia. Qed.

Lemma rd_selectable sel n k :
  0 < n ≤ zlen sel → ∃ s, rd sel (k mod n) = Ret s ∧ (s ≠ 0 ↔ selectable sel (k mod n)).
Proof.
  intros Hn. pose proof (Z.mod_pos_bound k n ltac:(lia)).
  destruct (rd_in_bounds sel (k mod n)) as [s Hs]; [lia|]. exists s. split; [done|].
  apply rd_Some in Hs as [_ Hs]. unfold selectable. rewrite Hs. split; [by eauto|]. by intros (? & [= ->] & ?).
Qed.

Lemma highlight_up_first sel n e : ∀ fuel k,
  0 < n ≤ zlen sel → 0 ≤ k < n → (1 ≤ e ≤ fuel)%nat → selectable sel ((k + -1 * Z.of_nat e) mod n) →
  (∀ e', (1 ≤ e' < e)%nat → ¬ selectable sel ((k + -1 * Z.of_nat e') mod n)) →
  highlight_up fuel sel n k = Ret ((k + -1 * Z.of_nat e) mod n).
Proof.
  induction e as [|e IH]; intros fuel k Hn Hk He Hsel Hno; [lia|]. destruct fuel as [|fuel]; [lia|]. cbn [highlight_up].
  rewrite down_once by done. destruct (rd_selectable sel n (k + -1)) as (s & Hs & Hiff); [done|]. rewrite Hs. cbn [mbind outcome_bind].
  destruct e as [|e].
  - destruct (Z.eqb_spec s 0) as [->|_]; [|done]. by apply Hiff in Hsel.
  - destruct (Z.eqb_spec s 0) as [_|Hne]; cbn [negb].
    + rewrite <- mod_step. apply IH; [done|apply Z.mod_pos_bound; lia|lia|by rewrite mod_step|].
      intros e' He'. rewrite mod_step. apply Hno. lia.
    + exfalso. apply (Hno 1%nat); [lia|]. by apply Hiff.
Qed.
Lemma highlight_down_first sel n e : ∀ fuel k,
  0 < n ≤ zlen sel → 0 ≤ k < n → (1 ≤ e ≤ fuel)%nat → selectable sel ((k + 1 * Z.of_nat e) mod n) →
  (∀ e', (1 ≤ e' < e)%nat → ¬ selectable sel ((k + 1 * Z.of_nat e') mod n)) →
  highlight_down fuel sel n k = Ret ((k + 1 * Z.of_nat e) mod n).
Proof.
  induction e as [|e IH]; intros fuel k Hn Hk He Hsel Hno; [lia|]. destruct fuel as [|fuel]; [lia|]. cbn [highlight_down].
  rewrite up_once by done. destruct (rd_selectable sel n (k + 1)) as (s & Hs & Hiff); [done|]. rewrite Hs. cbn [mbind outcome_bind].
  destruct e as [|e].
  - destruct (Z.eqb_spec s 0) as [->|_]; [|done]. by apply Hiff in Hsel.
  - destruct (Z.eqb_spec s 0) as [_|Hne]; cbn [negb].
    + rewrite <- mod_step. apply IH; [done|apply Z.mod_pos_bound; lia|lia|by rewrite mod_step|].
      intros e' He'. rewrite mod_step. apply Hno. lia.
    + exfalso. apply (Hno 1%nat); [lia|]. by apply Hiff.
Qed.

(** Some distance leads to an item that can be selected; hence a smallest one does. *)
Lemma smallest_step sel n d k (e : nat) :
  (1 ≤ e)%nat → selectable sel ((k + d * Z.of_nat e) mod n) →
  ∃ f, (1 ≤ f ≤ e)%nat ∧ selectable sel ((k + d * Z.of_nat f) mod n) ∧
    ∀ e', (1 ≤ e' < f)%nat → ¬ selectable sel ((k + d * Z.of_nat e') mod n).
Proof.
  induction e as [e IH] using lt_wf_ind. intros He Hsel.
  destruct (decide (Exists (λ e', selectable sel ((k + d * Z.of_nat e') mod n)) (seq 1 (e - 1)))) as [Hex|Hno].
  - apply Exists_exists in Hex as (e' & Hin & Hs). apply elem_of_seq in Hin.
    destruct (IH e') as (f & Hf & Hsf & Hmin); [lia|lia|done|]. exists f. split; [lia|done].
  - exists e. split; [lia|]. split; [done|]. intros e' He' Hs. apply Hno, Exists_exists. exists e'. split; [apply elem_of_seq; lia|done].
Qed.
Lemma step_exists sel n d k j :
  (d = 1 ∨ d = -1) → 0 ≤ k < n → 0 ≤ j < n → selectable sel j →
  ∃ e, (1 ≤ e ≤ Z.to_nat n)%nat ∧ selectable sel ((k + d * Z.of_nat e) mod n).
Proof.
  intros Hd Hk Hj Hs. set (e := if decide (d * (j - k) ≤ 0) then d * (j - k) + n else d * (j - k)).
  assert (He : 1 ≤ e ≤ n) by (subst e; case_decide; destruct Hd as [->| ->]; lia).
  exists (Z.to_nat e). split; [lia|]. rewrite Z2Nat.id by lia. replace ((k + d * e) mod n) with j; [done|].
  subst e. case_decide; destruct Hd as [->| ->].
  - replace (k + 1 * (1 * (j - k) + n)) with (j + 1 * n) by lia. rewrite Z.mod_add, Z.mod_small; lia.
  - replace (k + -1 * (-1 * (j - k) + n)) with (j + (-1) * n) by lia. rewrite Z.mod_add, Z.mod_small; lia.
  - rewrite Z.mod_small; lia.
  - rewrite Z.mod_small; lia.
Qed.
Lemma steps_to_of_smallest sel n d k e :
  (1 ≤ e ≤ Z.to_nat n)%nat → selectable sel ((k + d * Z.of_nat e) mod n) →
  (∀ e', (1 ≤ e' < e)%nat → ¬ selectable sel ((k + d * Z.of_nat e') mod n)) →
  steps_to sel n d k ((k + d * Z.of_nat e) mod n).
Proof.
  intros He Hs Hmin. exists (Z.of_nat e). repeat split; [lia|lia|done|].
  intros e' He'. specialize (Hmin (Z.to_nat e')). rewrite Z2Nat.id in Hmin by lia. apply Hmin. lia.
Qed.

Lemma highlight_up_spec sel n k j fuel :
  0 < n ≤ zlen sel → (Z.to_nat n ≤ fuel)%nat → 0 ≤ k < n → 0 ≤ j < n → selectable sel j →
  ∃ r, highlight_up fuel sel n k = Ret r ∧ 0 ≤ r < n ∧ steps_to sel n (-1) k r.
Proof.
  intros Hn Hf Hk Hj Hs. destruct (step_exists sel n (-1) k j) as (e & He & Hse); [by right|done..|].
  destruct (smallest_step sel n (-1) k e) as (f & Hlt & Hsf & Hmin); [lia|done|].
  eexists. split; [apply (highlight_up_first _ _ f); [done|done|lia|done|done]|].
  split; [apply Z.mod_pos_bound; lia|]. apply steps_to_of_smallest; [lia|done..].
Qed.
Lemma highlight_down_spec sel n k j fuel :
  0 < n ≤ zlen sel → (Z.to_nat n ≤ fuel)%nat → 0 ≤ k < n → 0 ≤ j < n → selectable sel j →
  ∃ r, highlight_down fuel sel n k = Ret r ∧ 0 ≤ r < n ∧ steps_to sel n 1 k r.
Proof.
  intros Hn Hf Hk Hj Hs. destruct (step_exists sel n 1 k j) as (e & He & Hse); [by left|done..|].
  destruct (smallest_step sel n 1 k e) as (f & Hlt & Hsf & Hmin); [lia|done|].
  eexists. split; [apply (highlight_down_first _ _ f); [done|done|lia|done|done]|].
  split; [apply Z.mod_pos_bound; lia|]. apply steps_to_of_smallest; [lia|done..].
Qed.

(** The keys change nothing but the view and what is left of them. *)
Definition same_but_view (m m' : Machine W) : Prop :=
  m_world m' = m_world m ∧ m_roots m' = m_roots m ∧ m_package m' = m_package m ∧ m_log m' = m_log m ∧
  m_icon m' = m_icon m ∧ m_terminal m' = m_terminal m ∧ m_progress m' = m_progress m ∧ m_firmware m' = m_firmware m.

Lemma same_but_view_trans m1 m2 m3 : same_but_view m1 m2 → same_but_view m2 m3 → same_but_view m1 m3.
Proof. unfold same_but_view. intuition congruence. Qed.
Lemma device_handle_key_cases key visible :
  device_handle_key key visible ∈ [HIGHLIGHT_UP; HIGHLIGHT_DOWN; SELECT_ITEM; NO_ACTION].
Proof.
  unfold device_handle_key. destruct visible; [|by repeat constructor].
  destruct (_ || _); [by repeat constructor|]. destruct (_ || _); [by repeat constructor|].
  destruct (_ || _ || _); by repeat constructor.
Qed.

Section loop.
Context (cols : nat) (headers items : list (list Z)) (sel : list Z) (j : Z) (fuel : nat) (menu_only : bool).
Context (Hheaders : zlen headers < MENU_MAX_VISIBLE_ROWS) (Hsel : zlen items ≤ zlen sel).
Context (Hj : 0 ≤ j < zlen items) (Hjsel : selectable sel j) (Hfuel : (length items ≤ fuel)%nat).
Implicit Types (m : Machine W).

Definition shows m (k : Z) : Prop := view_ok cols headers items (m_view m) ∧ menu_sel (m_view m) = k.

Lemma menu_select_shows k m :
  view_ok cols headers items (m_view m) → 0 ≤ k < zlen items →
  ∃ m', menu_select k m = Ret (k, m') ∧ shows m' k ∧ m_keys m' = m_keys m ∧ same_but_view m m'.
Proof.
  intros Hv Hk. unfold menu_select. pose proof (ui_menu_select_ok cols headers items Hheaders k (m_view m) Hv) as Hs.
  destruct (ui_menu_select k (m_view m)) as [r v'] eqn:He. destruct Hs as (Hv' & Hr & ->).
  rewrite Z.min_l, Z.max_r in * by lia. eexists. split; [reflexivity|]. split; [split; [exact Hv'|done]|]. split; [done|]. by repeat split.
Qed.

Lemma selection_loop_spec ks key visible rest : ∀ n k m,
  m_keys m = ks ++ (key, visible) :: rest → (length ks < n)%nat →
  Forall (λ '(key, visible), device_handle_key key visible ≠ SELECT_ITEM) ks →
  device_handle_key key visible = SELECT_ITEM → shows m k → 0 ≤ k < zlen items →
  ∃ r m', selection_loop fuel n sel (zlen items) menu_only k m = Ret (r, m') ∧
    walks sel (zlen items) k ((λ '(key, visible), device_handle_key key visible) <$> ks) r ∧ 0 ≤ r < zlen items ∧
    shows m' r ∧ m_keys m' = rest ∧ same_but_view m m'.
Proof.
  induction ks as [|[key1 visible1] ks IH]; intros [|n] k m Hkeys Hn Hks Hlast Hshow Hk; simpl in Hn; try lia;
    cbn [selection_loop]; unfold mbind, Rec_bind, wait_key; rewrite Hkeys; simpl.
  - rewrite Hlast. unfold SELECT_ITEM, HIGHLIGHT_UP, HIGHLIGHT_DOWN. rewrite (proj2 (Z.leb_le 0 k)) by lia. simpl.
    eexists _, _. split; [reflexivity|]. split; [constructor|]. split; [done|]. split; [done|]. split; [done|]. by repeat split.
  - apply Forall_cons_1 in Hks as [Hkey Hks]. set (m1 := mk_machine _ _ _ _ _ _ _ _ _ _ _ _).
    assert (Hm1 : shows m1 k ∧ same_but_view m m1 ∧ m_keys m1 = ks ++ (key, visible) :: rest) by done.
    clearbody m1. destruct Hm1 as (Hshow1 & Hsame1 & Hkeys1).
    pose proof (device_handle_key_cases key1 visible1) as Hcases.
    set (action := device_handle_key key1 visible1) in *. clearbody action.
    apply elem_of_cons in Hcases as [->|Hcases]; [|apply elem_of_cons in Hcases as [->|Hcases]];
      [| |apply elem_of_cons in Hcases as [->|Hcases]; [done|apply list_elem_of_singleton in Hcases as ->]].
    + unfold HIGHLIGHT_UP at 1 2 3. simpl. destruct (highlight_up_spec sel (zlen items) k j fuel) as (r & Hr & Hrange & Hst); [lia|lia|done..|].
      unfold pure. rewrite Hr. simpl. destruct (menu_select_shows r m1) as (m2 & -> & Hshow2 & Hkeys2 & Hsame2); [apply Hshow1|done|]. simpl.
      destruct (IH n r m2) as (r' & m3 & Hrun & Hw & Hr' & Hs3 & Hk3 & Hsame3); [congruence|lia|done..|].
      exists r', m3. split; [done|]. split; [by econstructor|]. do 3 (split; [done|]). eauto using same_but_view_trans.
    + unfold HIGHLIGHT_DOWN at 1 2 3. simpl. destruct (highlight_down_spec sel (zlen items) k j fuel) as (r & Hr & Hrange & Hst); [lia|lia|done..|].
      unfold pure. rewrite Hr. simpl. destruct (menu_select_shows r m1) as (m2 & -> & Hshow2 & Hkeys2 & Hsame2); [apply Hshow1|done|]. simpl.
      destruct (IH n r m2) as (r' & m3 & Hrun & Hw & Hr' & Hs3 & Hk3 & Hsame3); [congruence|lia|done..|].
      exists r', m3. split; [done|]. split; [by econstructor|]. do 3 (split; [done|]). eauto using same_but_view_trans.
    + unfold NO_ACTION at 1 2 3 4. simpl.
      destruct (IH n k m1) as (r' & m3 & Hrun & Hw & Hr' & Hs3 & Hk3 & Hsame3); [done|lia|done..|].
      exists r', m3. split; [done|]. split; [by constructor|]. do 3 (split; [done|]). eauto using same_but_view_trans.
Qed.
End loop.
End choice.

(** What choosing from a menu with selectable items does. *)
Lemma get_menu_selection_spec `{KeyCodes} {W : Type} (m : Machine W) headers items sel j title_length start_sel
    menu_only fuel ks key visible rest :
  0 < text_rows (m_log m) → 0 < text_cols (m_log m) → zlen (menu (m_view m)) = MENU_MAX_ROWS →
  zlen headers < MENU_MAX_VISIBLE_ROWS → zlen headers + zlen items ≤ MENU_MAX_ROWS → zlen items ≤ zlen sel →
  Forall (Forall (λ c, c ≠ 0)) headers → Forall (Forall (λ c, c ≠ 0)) items →
  0 ≤ j < zlen items → selectable sel j → (length items ≤ fuel)%nat →
  m_keys m = ks ++ (key, visible) :: rest →
  Forall (λ '(key, visible), device_handle_key key visible ≠ SELECT_ITEM) ks → device_handle_key key visible = SELECT_ITEM →
  ∃ r m', get_menu_selection fuel headers items sel title_length start_sel menu_only m = Ret (r, m') ∧
    walks sel (zlen items) (Z.max 0 (Z.min start_sel (zlen items - 1))) ((λ '(key, visible), device_handle_key key visible) <$> ks) r ∧
    0 ≤ r < zlen items ∧ menu_sel (m_view m') = r ∧ view_ok (Z.to_nat (text_cols (m_log m))) headers items (m_view m') ∧
    m_keys m' = rest ∧ same_but_view m m'.
Proof.
  intros Hr Hc Hm Hh Hfit Hsel Hzh Hzi Hj Hjs Hf Hkeys Hks Hlast. unfold get_menu_selection, mbind, Rec_bind, get. simpl.
  set (start := start_at (zlen items) start_sel).
  assert (Hs : start = Z.max 0 (Z.min start_sel (zlen items - 1))).
  { subst start. unfold start_at. destruct (Z.leb_spec (zlen items) start_sel); [destruct (Z.ltb_spec (zlen items - 1) 0)|destruct (Z.ltb_spec start_sel 0)]; lia. }
  clearbody start.
  destruct (ui_start_menu_ok (Z.to_nat (text_cols (m_log m))) headers items Hh Hfit title_length start (m_log m) (m_view m)) as [Hv Hvs];
    [lia|lia|lia|done|done|done|lia|].
  unfold set_view. simpl.
  set (m1 := mk_machine _ _ _ _ _ _ _ _ _ _ _ _). assert (Hm1 : shows (Z.to_nat (text_cols (m_log m))) headers items m1 start) by by split.
  destruct (selection_loop_spec (W := W) (Z.to_nat (text_cols (m_log m))) headers items sel j fuel menu_only Hh Hsel Hj Hjs Hf ks key visible rest
    (S (length (m_keys m))) start m1) as (r & m' & Hrun & Hw & Hrange & [Hvm Hsm] & Hkm & Hsame);
    [done|rewrite Hkeys, length_app; simpl; lia|done|done|done|lia|].
  exists r, m'. rewrite Hs in *. split; [done|]. split; [done|]. split; [done|]. split; [done|]. by split.
Qed.

(** C18: Choosing from a menu works. If one of its items can be selected, and a key that selects
    comes after keys that do not, [get_menu_selection] returns the item to which the keys walk
    from the one it starts at: each step leads to the next item that can be selected, around the
    end of the menu. That item is the one that is highlighted, the keys up to the one that selects
    are used, and nothing but the menu has changed. *)
Theorem get_menu_selection_walks `{KeyCodes} {W : Type} (m : Machine W) headers items sel j title_length start_sel
    menu_only fuel ks key visible rest :
  0 < text_rows (m_log m) → 0 < text_cols (m_log m) → zlen (menu (m_view m)) = MENU_MAX_ROWS →
  zlen headers < MENU_MAX_VISIBLE_ROWS → zlen headers + zlen items ≤ MENU_MAX_ROWS → zlen items ≤ zlen sel →
  Forall (Forall (λ c, c ≠ 0)) headers → Forall (Forall (λ c, c ≠ 0)) items →
  0 ≤ j < zlen items → selectable sel j → (length items ≤ fuel)%nat →
  m_keys m = ks ++ (key, visible) :: rest →
  Forall (λ '(key, visible), device_handle_key key visible ≠ SELECT_ITEM) ks → device_handle_key key visible = SELECT_ITEM →
  ∃ r m', get_menu_selection fuel headers items sel title_length start_sel menu_only m = Ret (r, m') ∧
    walks sel (zlen items) (Z.max 0 (Z.min start_sel (zlen items - 1))) ((λ '(key, visible), device_handle_key key visible) <$> ks) r ∧
    0 ≤ r < zlen items ∧ menu_sel (m_view m') = r ∧ show_menu (m_view m') = true ∧ m_keys m' = rest ∧ same_but_view m m'.
Proof.
  intros Hr Hc Hm Hh Hfit Hsel Hzh Hzi Hj Hjs Hf Hkeys Hks Hlast.
  destruct (get_menu_selection_spec m headers items sel j title_length start_sel menu_only fuel ks key visible rest)
    as (r & m' & Hrun & Hw & Hrange & Hs & Hv & Hk & Hsame); try done.
  exists r, m'. do 4 (split; [done|]). split; [apply Hv|done].
Qed.

Lemma show_interactive_menu_spec `{KeyCodes} {W : Type} (m : Machine W) MENU_TITLE headers items fuel ks key visible rest :
  0 < text_rows (m_log m) → 0 < text_cols (m_log m) → zlen (menu (m_view m)) = MENU_MAX_ROWS →
  zlen (MENU_TITLE ++ headers) < MENU_MAX_VISIBLE_ROWS → zlen (MENU_TITLE ++ headers) + zlen items ≤ MENU_MAX_ROWS →
  Forall (Forall (λ c, c ≠ 0)) (MENU_TITLE ++ headers) → Forall (Forall (λ c, c ≠ 0)) items →
  items ≠ [] → (length items ≤ fuel)%nat →
  m_keys m = ks ++ (key, visible) :: rest →
  Forall (λ '(key, visible), device_handle_key key visible ≠ SELECT_ITEM) ks → device_handle_key key visible = SELECT_ITEM →
  ∃ r m', show_interactive_menu MENU_TITLE fuel headers items m = Ret (r + 1, m') ∧
    walks (replicate (length items) 1) (zlen items) 0 ((λ '(key, visible), device_handle_key key visible) <$> ks) r ∧
    0 ≤ r < zlen items ∧ (∃ item k, items !! Z.to_nat r = Some item ∧ menu_rows (m_view m') !! k = Some (take (Z.to_nat (text_cols (m_log m))) item, true) ∧
      ∀ k' row, menu_rows (m_view m') !! k' = Some (row, true) → k' = k) ∧
    m_keys m' = rest ∧ same_but_view m m'.
Proof.
  intros Hr Hc Hm Hh Hfit Hzh Hzi Hne Hf Hkeys Hks Hlast. unfold show_interactive_menu, prepend_title.
  assert (0 < zlen items) by (destruct items; [done|simpl; lia]).
  destruct (get_menu_selection_spec m (MENU_TITLE ++ headers) items (replicate (length items) 1) 0 (zlen MENU_TITLE) 0 true fuel ks key visible rest)
    as (r & m1 & Hrun & Hw & Hrange & Hsel & Hv & Hk & Hsame); try done; try (rewrite length_replicate; lia).
  { exists 1. split; [|done]. change (Z.to_nat 0) with 0%nat. apply lookup_replicate_2. lia. }
  rewrite Z.min_l, Z.max_id in Hw by lia.
  rewrite (run_bind _ _ _ _ _ Hrun). unfold hide_menu_selection, set_view. eexists r, _. split; [reflexivity|].
  split; [done|]. split; [done|]. split; [|split; [done|exact Hsame]].
  destruct (lookup_lt_is_Some_2 items (Z.to_nat r)) as [item Hitem]; [lia|]. exists item. rewrite <- Hsel in Hitem.
  destruct (view_rows_ok _ (MENU_TITLE ++ headers) items Hh (m_view m1) item Hv Hitem) as (k & Hrow & Huniq). exists k. rewrite <- Hsel. split; [done|].
  assert (Hend : menu_rows (ui_end_menu (m_log m1) (m_view m1)) = menu_rows (m_view m1)) by (unfold ui_end_menu; by destruct (_ && _)).
  cbn [m_view]. by rewrite Hend.
Qed.

Module SelectDemo.
(** The key codes of linux/input.h. *)
#[export] Instance codes : KeyCodes := {
  KEY_MAX := 0x1ff; KEY_UP := 103; KEY_DOWN := 108; KEY_CENTER := 0x164; KEY_ENTER := 28; KEY_CAMERA := 212;
  KEY_VOLUMEUP := 115; KEY_VOLUMEDOWN := 114; KEY_HP := 226; EV_SYN := 0; EV_KEY := 1; EV_REL := 2; REL_Y := 1
}.
Definition machine (keys : list (Z * bool)) : Machine unit :=
  mk_machine tt (mk_roots g_mounts_state g_mtd_state) (mk_package None None) (log_init 480 854) no_menu keys true 0 initial [] no_firmware 0.
Definition headers : list (list Z) := [str "Menu"].
Definition items : list (list Z) := [str "-- files"; str "a.zip"; str "-- more"; str "b.zip"].
Definition sel : list Z := [0; 1; 0; 1].

(** Down, a key without meaning, down, up, select. *)
Definition some_keys : list (Z * bool) := [(108, true); (30, true); (114, true); (103, true)].

(** The item that a menu starts with is not asked whether it can be selected. *)
Example label_selected : fst <$> get_menu_selection 9 headers items sel 1 0 true (machine [(28, true)]) = Ret 0.
Proof. reflexivity. Qed.

(** If none can be selected, the search for the next one never ends. *)
Lemma never_ends fuel : ∀ k, 0 ≤ k < 2 → highlight_down fuel [0; 0] 2 k = Diverge.
Proof.
  induction fuel as [|fuel IH]; intros k Hk; [done|]. cbn [highlight_down].
  assert (k = 0 ∨ k = 1) as [->| ->] by lia; simpl; apply IH; lia.
Qed.
(** A menu without items makes the keys read [selectability] all the same; what is selected is
    then -1, and SELECT_ITEM does not end the loop. *)
Example no_items : fst (ui_menu_select 0 (ui_start_menu headers [] 1 0 (log_init 480 854) no_menu)) = -1.
Proof. reflexivity. Qed.
End SelectDemo.
#[local] Existing Instance SelectDemo.codes.

Lemma get_menu_selection_walks_witness :
  ∃ r m', get_menu_selection 9 SelectDemo.headers SelectDemo.items SelectDemo.sel 1 0 true (SelectDemo.machine (SelectDemo.some_keys ++ [(28, true)])) = Ret (r, m') ∧
    walks SelectDemo.sel 4 0 ((λ '(key, visible), device_handle_key key visible) <$> SelectDemo.some_keys) r ∧
    0 ≤ r < 4 ∧ menu_sel (m_view m') = r ∧ show_menu (m_view m') = true ∧ m_keys m' = [] ∧
    same_but_view (SelectDemo.machine (SelectDemo.some_keys ++ [(28, true)])) m'.
Proof.
  apply (get_menu_selection_walks (SelectDemo.machine (SelectDemo.some_keys ++ [(28, true)])) SelectDemo.headers SelectDemo.items SelectDemo.sel
    1 1 0 true 9 SelectDemo.some_keys 28 true []); try done; try (by repeat constructor).
  by exists 1.
Defined.
