(* ===== verification/Shell.v ===== *)
(** * Shell

    install.c: shell scripts that print on the screen and ask with menus of their own;
    imenu/imenu.c: the program with which a script asks. *)
From stdpp Require Import relations.
From S2P Require Import Prelude CString Terminal Ui Input Machine Select.

(** ** The memory that recovery and imenu share

    The fields of [interactive_menu_struct]. *)
Record SharedMenu := mk_shared {
  in_trigger : Z;
  out_trigger : Z;
  header : list Z;
  menu_strings : list (list Z)
}.
(** [ftruncate] makes a new file of zeros. *)
Definition new_shared : SharedMenu := mk_shared 0 0 (replicate 50 0) (replicate 20 (replicate 50 0)).
(** The strings that the code clears are buffers whose first character is set. *)
Definition clear_first (b : list Z) : list Z := <[0%nat := 0]> b.

(** *** imenu.c *)
Definition strncpy_to (n : nat) (src dst : list Z) : list Z := take n (src ++ replicate n 0) ++ drop n dst.
Fixpoint copy_items (c : nat) (args : list (list Z)) (items : list (list Z)) : nat * list (list Z) :=
  match args with
  | arg :: args =>
      if (c <? 21)%nat then copy_items (S c) args (<[(c - 2)%nat := strncpy_to 49 arg (default [] (items !! (c - 2)%nat))]> items)
      else (c, items)
  | [] => (c, items)
  end.
(** The arguments [argv[1]] and those from [argv[2]] on. What the code writes behind the struct
    stays in its page and changes nothing. *)
Definition imenu_ask (header_arg : list Z) (args : list (list Z)) (m : SharedMenu) : SharedMenu :=
  let '(c, items) := copy_items 2 args (menu_strings m) in
  mk_shared 1 0 (strncpy_to 49 header_arg (header m)) (<[c := clear_first (default [] (items !! c))]> items).
(** [main], if the file can be opened and mapped; [response] is what it waits for. *)
Definition imenu_main (argv : list (list Z)) (m : SharedMenu) : Z * SharedMenu :=
  match argv with
  | _ :: h :: arg :: args => (0, imenu_ask h (arg :: args) m)
  | _ => (1, m)
  end.

(** ** The parent *)

(** The shell is another process; it has a pipe to recovery, which is not read to its end since
    recovery itself keeps the other end open. *)
Class ShellOS (W : Type) := {
  Shell : Type;
  (** the command, whether its output goes to the pipe, and variables for its environment *)
  shell_start : list Z → bool → list (list Z) → W → Shell * W;
  (** whether the file of the shared memory could be opened, and whether it could be mapped *)
  shm_open : W → bool * W;
  shm_map : W → bool * W;
  (** what is in it now *)
  shm_get : W → SharedMenu;
  shm_put : SharedMenu → W → W;
  shm_remove : W → W;
  (** an error or some characters *)
  pipe_read : Shell → W → (Z + Z * list Z) * Shell * W;
  (** [waitpid] with WNOHANG, and without *)
  shell_ended : Shell → W → bool * Shell * W;
  shell_wait : Shell → W → W
}.
Definition EAGAIN : Z := 11.

Section code.
Context `{KeyCodes} {W : Type} `{ShellOS W} (MENU_TITLE : list (list Z)) (fuel : nat).

Definition on_shell {A} (f : W → A * Shell * W) : Rec W (A * Shell) :=
  on_world (λ w, let '(a, sh, w) := f w in ((a, sh), w)).

(** The strings of the menu; with twenty of them the null pointer behind them has no room in
    [items]. *)
Definition asked_items (m : SharedMenu) : outcome (list (list Z)) :=
  let n := default 20%nat (fst <$> list_find (λ b, char_at b 0 = 0) (menu_strings m)) in
  if (20 <=? n)%nat then Fault OutOfBounds else mret (c_string <$> take n (menu_strings m)).

Definition set_shared (f : SharedMenu → SharedMenu) : Rec W unit := on_world (λ w, (tt, shm_put (f (shm_get w)) w)).
Definition print_data (r : Z + Z * list Z) : Rec W unit :=
  match r with inr (c, data) => print_raw (c_string (c :: data)) | inl _ => mret tt end.
Definition drop_in_trigger (m : SharedMenu) : SharedMenu := mk_shared 0 (out_trigger m) (header m) (menu_strings m).
Definition clear_strings (m : SharedMenu) : SharedMenu :=
  mk_shared (in_trigger m) (out_trigger m) (clear_first (header m))
    (<[0%nat := clear_first (default [] (menu_strings m !! 0%nat))]> (menu_strings m)).
Definition set_out_trigger (k : Z) (m : SharedMenu) : SharedMenu := mk_shared (in_trigger m) k (header m) (menu_strings m).

(** The menu that the script asks for. *)
Definition answer_menu (sh : Shell) : Rec W Shell :=
  _ ← set_shared drop_in_trigger;
  '(r, sh) ← on_shell (pipe_read sh);
  _ ← print_data r;
  w ← get m_world;
  items ← pure (asked_items (shm_get w));
  _ ← dark;
  chosen_item ← show_interactive_menu MENU_TITLE fuel [c_string (header (shm_get w)); str " "] items;
  _ ← blink;
  _ ← set_shared (λ m, set_out_trigger chosen_item (clear_strings m));
  mret sh.

(** [n] bounds the rounds. *)
Fixpoint script_loop (n : nat) (interactive_menu : bool) (sh : Shell) : Rec W unit :=
  match n with
  | O => pure Diverge
  | S n =>
      w ← get m_world;
      sh ← if interactive_menu && negb (in_trigger (shm_get w) =? 0) then answer_menu sh else mret sh;
      '(r, sh) ← on_shell (pipe_read sh);
      match r with
      | inr _ => _ ← print_data r; script_loop n interactive_menu sh
      | inl errno =>
          if errno =? EAGAIN then
            '(ended, sh) ← on_shell (shell_ended sh);
            if ended : bool then
              '(r, _) ← on_shell (pipe_read sh); print_data r
            else script_loop n interactive_menu sh
          else on_world (λ w, (tt, shell_wait sh w))
      end
  end.

(** Whether the memory can be shared, and whether its file is open. *)
Definition no_shared_memory : Rec W unit :=
  _ ← LOGE (str "Failed opening the shared memory node for interactive menu." ++ [10]);
  LOGE (str "Interactive menu disabled." ++ [10]).
Definition share_menu : Rec W (bool * bool) :=
  opened ← on_world shm_open;
  if negb opened then _ ← no_shared_memory; mret (false, false)
  else
    mapped ← on_world shm_map;
    if negb mapped then _ ← no_shared_memory; mret (false, true)
    else
      _ ← set_shared (λ m, set_out_trigger 0 (clear_strings (drop_in_trigger m)));
      mret (true, true).

(** Without a command nothing is run. *)
Definition run_shell_script (command : option (list Z)) (stdoutToUI : bool) (extra_env_variables : list (list Z))
    : Rec W unit :=
  match command with
  | None => mret tt
  | Some command =>
      if stdoutToUI then
        '(interactive_menu, opened) ← share_menu;
        sh ← on_world (shell_start command true extra_env_variables);
        _ ← script_loop fuel interactive_menu sh;
        on_world (λ w, (tt, if opened : bool then shm_remove w else w))
      else
        sh ← on_world (shell_start command false extra_env_variables);
        on_world (λ w, (tt, shell_wait sh w))
  end.
End code.

(** ** The menu of a script arrives *)
Definition menu_string (s : list Z) : Prop := s ≠ [] ∧ (length s ≤ 49)%nat ∧ Forall (λ c, c ≠ 0) s.

Lemma strncpy_to_string s :
  menu_string s → c_string (strncpy_to 49 s (replicate 50 0)) = s ∧ char_at (strncpy_to 49 s (replicate 50 0)) 0 ≠ 0.
Proof.
  intros (Hne & Hl & Hz). unfold strncpy_to. rewrite take_app_ge, take_replicate by done. split.
  - rewrite <- app_assoc. destruct (decide (length s = 49)%nat) as [He|].
    + rewrite He. by apply c_string_app.
    + destruct ((49 - length s) `min` 49)%nat as [|k] eqn:Hk; [lia|]. by apply c_string_app.
  - destruct s as [|c s]; [done|]. by apply Forall_cons_1 in Hz as [Hc _].
Qed.

Definition arrived (args : list (list Z)) : list (list Z) :=
  (λ s, strncpy_to 49 s (replicate 50 0)) <$> args.
Lemma length_arrived args : length (arrived args) = length args.
Proof. apply length_fmap. Qed.
Lemma copy_items_arrived args : ∀ k n,
  (k + n = 20)%nat → (length args < n)%nat → ∀ done_, length done_ = k →
  copy_items (k + 2) args (done_ ++ replicate n (replicate 50 0)) =
    ((k + length args + 2)%nat, done_ ++ arrived args ++ replicate (n - length args) (replicate 50 0)).
Proof.
  induction args as [|arg args IH]; intros k n Hkn Hn dn Hd; simpl in Hn.
  { simpl. by rewrite Nat.sub_0_r, Nat.add_0_r. }
  destruct n as [|n]; [lia|]. cbn [copy_items]. rewrite (proj2 (Nat.ltb_lt _ _)), Nat.add_sub by lia.
  assert ((dn ++ replicate (S n) (replicate 50 0)) !! k = Some (replicate 50 0)) as ->.
  { by rewrite lookup_app_r, Hd, Nat.sub_diag by lia. }
  cbn [default from_option id].
  assert (∀ x, <[k := x]> (dn ++ replicate (S n) (replicate 50 0)) = dn ++ x :: replicate n (replicate 50 0)) as ->.
  { intros x. replace k with (length dn + 0)%nat by lia. by rewrite insert_app_r. }
  pose proof (IH (S k) n ltac:(lia) ltac:(lia) (dn ++ [strncpy_to 49 arg (replicate 50 0)])) as IH'.
  rewrite length_app in IH'. simpl in IH'. specialize (IH' ltac:(lia)). rewrite <- !app_assoc in IH'. simpl in IH'.
  simpl. rewrite IH'. f_equal. lia.
Qed.

Lemma asked_items_arrived args n :
  (length args < 20)%nat → Forall menu_string args → (length args + n = 20)%nat →
  ∀ m, menu_strings m = arrived args ++ replicate n (replicate 50 0) → asked_items m = Ret args.
Proof.
  intros Hl Hargs Hn m Hm. unfold asked_items. rewrite Hm.
  assert (list_find (λ b, char_at b 0 = 0) (arrived args ++ replicate n (replicate 50 0)) = Some (length args, replicate 50 0)) as ->.
  { apply list_find_Some. repeat split.
    - rewrite lookup_app_r, length_arrived, Nat.sub_diag by (rewrite length_arrived; lia). apply lookup_replicate_2. lia.
    - intros j y Hj Hlt. rewrite lookup_app_l in Hj by by rewrite length_arrived.
      apply list_lookup_fmap_Some in Hj as (s & -> & Hs). apply strncpy_to_string. by eapply Forall_lookup_1. }
  cbn [fmap option_fmap option_map fst default from_option id]. rewrite (proj2 (Nat.leb_gt _ _)) by lia. rewrite take_app_length' by by rewrite length_arrived.
  unfold arrived. f_equal. clear Hm Hl Hn. induction Hargs as [|s args Hs Hargs IH]; [done|].
  rewrite !fmap_cons, IH. f_equal. by apply strncpy_to_string.
Qed.

Lemma imenu_ask_arrives h args :
  (length args ≤ 19)%nat → menu_string h → Forall menu_string args →
  let m := imenu_ask h args new_shared in
  in_trigger m = 1 ∧ out_trigger m = 0 ∧ c_string (header m) = h ∧ asked_items m = Ret args.
Proof.
  intros Hl Hh Hargs. unfold imenu_ask. pose proof (copy_items_arrived args 0 20 ltac:(lia) ltac:(lia) [] eq_refl) as Hc.
  rewrite !app_nil_l in Hc. unfold new_shared, menu_strings. rewrite (Hc : copy_items 2 args (replicate 20 (replicate 50 0)) = _).
  cbv beta iota zeta. do 2 (split; [reflexivity|]). split; [by apply strncpy_to_string|].
  apply (asked_items_arrived _ (20 - length args)); [lia|done|lia|]. cbn [menu_strings].
  set (l := arrived args ++ _). assert (Hlen : length l = 20%nat) by (subst l; rewrite length_app, length_replicate, length_arrived; lia).
  destruct (decide (length args + 2 < 20)%nat) as [Hlt|Hge].
  - apply list_insert_id. subst l.
    rewrite lookup_app_r, length_arrived by (rewrite length_arrived; lia). rewrite lookup_replicate_2 by lia. done.
  - apply list_insert_ge. lia.
Qed.

(** C26: The first menu of a script arrives. With a header and at most 19 items, each of 1 to 49
    characters, the program that the script runs makes recovery find, in shared memory that was
    just set up and is all zero, this header and these items in their order, and the trigger.
    Memory that held another menu before may show old items behind them ([stale_items]). *)
Theorem imenu_arrives prog h arg args :
  (length (arg :: args) ≤ 19)%nat → menu_string h → Forall menu_string (arg :: args) →
  let '(r, m) := imenu_main (prog :: h :: arg :: args) new_shared in
  r = 0 ∧ in_trigger m = 1 ∧ out_trigger m = 0 ∧ c_string (header m) = h ∧ asked_items m = Ret (arg :: args).
Proof.
  intros Hl Hh Hargs. cbn [imenu_main]. split; [done|]. by apply imenu_ask_arrives.
Qed.

(** What is left of the last menu. The program ends its items with a NUL that it puts two items too
    far, and the parent clears the first item only. *)
Definition asked_after (menus : list (list (list Z))) : outcome (list (list Z)) :=
  asked_items (foldl (λ m items, imenu_ask (str "Menu") items (set_out_trigger 1 (clear_strings (drop_in_trigger m)))) new_shared menus).
Example stale_items :
  asked_after [[str "a"; str "b"; str "c"; str "d"; str "e"]; [str "yes"; str "no"]] =
    Ret [str "yes"; str "no"; str "c"; str "d"].
Proof. reflexivity. Qed.

Lemma imenu_arrives_witness :
  let '(r, m) := imenu_main [str "imenu"; str "Sure?"; str "yes"; str "no"] new_shared in
  r = 0 ∧ in_trigger m = 1 ∧ out_trigger m = 0 ∧ c_string (header m) = str "Sure?" ∧ asked_items m = Ret [str "yes"; str "no"].
Proof. apply imenu_arrives; [simpl; lia|..]; repeat constructor; simpl; try done; lia. Defined.

(** ** A run *)
Module ShellDemo.
Inductive event := Say (s : list Z) | Busy | Ask (h : list Z) (items : list (list Z)) | Waits.

(** The shared memory, the answers that the script got, and whether it is still there. *)
Definition world : Type := SharedMenu * list Z.
#[export] Instance os : ShellOS world := {
  Shell := list event;
  shell_start _ _ _ w := ([Say (str "hello"); Busy; Ask (str "Sure?") [str "yes"; str "no"]; Waits; Say [10; 33]], w);
  shm_open w := (true, (new_shared, w.2));
  shm_map w := (true, w);
  shm_get w := w.1;
  shm_put m w := (m, w.2);
  shm_remove w := w;
  pipe_read sh w :=
    match sh with
    | Say (c :: s) :: sh => (inr (c, s), sh, w)
    | Ask h items :: sh => (inl EAGAIN, sh, (imenu_ask h items w.1, w.2))
    | Waits :: sh' => if out_trigger w.1 =? 0 then (inl EAGAIN, sh, w) else (inl EAGAIN, sh', (w.1, w.2 ++ [out_trigger w.1]))
    | Busy :: sh => (inl EAGAIN, sh, w)
    | _ => (inl EAGAIN, sh, w)
    end;
  shell_ended sh w := (match sh with [] => true | _ => false end, sh, w);
  shell_wait sh w := w
}.
#[local] Existing Instance SelectDemo.codes.
Definition machine : Machine world :=
  let m := SelectDemo.machine [(108, true); (28, true)] in
  mk_machine (new_shared, []) (m_roots m) (m_package m) (m_log m) (m_view m) (m_keys m) true 0 initial [] no_firmware 0.
Definition ran : outcome (list (list Z) * list Z) :=
  '(_, m) ← run_shell_script [] 20 (Some (str "script")) true [] machine;
  mret (filter (λ r, r ≠ []) (log_rows (m_log m)), (m_world m).2).
(** The script says hello, asks, gets the second item, and ends. *)
Example script_runs : ran = Ret ([str "hello"; str "!"], [2]).
Proof. vm_compute. reflexivity. Qed.
End ShellDemo.
