(* ===== verification/Console.v ===== *)
(** * Console

    console.c: the keyboards, and the loop between the keys, a shell and the terminal. *)
From stdpp Require Import relations.
From S2P Require Import Prelude CString Syscalls Lines Args Terminal Ui Input Machine Select.

(** The other codes of linux/input.h and of the phones; [KEY_ c] is the key of a capital letter. *)
Class Keyboard := {
  KEY_ : Z → Z;
  KEY_COMMA : Z;
  KEY_DOT : Z;
  KEY_SLASH : Z;
  KEY_QUESTION : Z;
  KEY_SEARCH : Z;
  KEY_SPACE : Z;
  KEY_BACKSPACE : Z;
  KEY_EMAIL : Z;
  KEY_LEFT : Z;
  KEY_RIGHT : Z;
  KEY_SOFT1 : Z;
  KEY_LEFTALT : Z;
  KEY_RIGHTALT : Z;
  KEY_LEFTSHIFT : Z;
  KEY_RIGHTSHIFT : Z
}.

(** Characters are unsigned, as on the phones. *)
Definition CHAR_NOTHING : Z := 255.
Definition CHAR_SCROLL_DOWN : Z := 254.
Definition CHAR_SCROLL_UP : Z := 253.
Definition CHAR_BIG_SCROLL_DOWN : Z := 252.
Definition CHAR_BIG_SCROLL_UP : Z := 251.
Definition CHAR_KEY_UP : Z := 250.
Definition CHAR_KEY_LEFT : Z := 249.
Definition CHAR_KEY_RIGHT : Z := 248.
Definition CHAR_KEY_DOWN : Z := 247.
Definition ESC : Z := 27.
Definition CONSOLE_FORCE_QUIT : Z := -55.
Definition CONSOLE_FAILED_START : Z := -56.

(** ** Keyboards *)
Record keyboardLayout := mk_layout { normal : list Z; shifted : list Z; alternate : list Z }.
Inductive layout_name := QWERTY | QWERTZ | AZERTY.

Section layouts.
Context `{KeyCodes} `{Keyboard}.

Definition blank_layout : keyboardLayout :=
  let zeros := replicate (Z.to_nat (KEY_MAX + 1)) 0 in mk_layout zeros zeros zeros.
Definition letter (c : string) : Z := KEY_ (char_at (str c) 0).

(** The three characters of each key. *)
Definition qwerty_keys : list (Z * list Z) :=
  [ (letter "A", str "aA|"); (letter "B", str "bB+"); (letter "C", str "cC_"); (letter "D", str "dD#"); (letter "E", str "eE3");
    (letter "F", str "fF$"); (letter "G", str "gG%"); (letter "H", str "hH="); (letter "I", str "iI8"); (letter "J", str "jJ&");
    (letter "K", str "kK*"); (letter "L", str "lL["); (letter "M", str "mM`"); (letter "N", str "nN" ++ [34]); (letter "O", str "oO9");
    (letter "P", str "pP0"); (letter "Q", str "qQ1"); (letter "R", str "rR4"); (letter "S", str "sS!"); (letter "T", str "tT5");
    (letter "U", str "uU7"); (letter "V", str "vV-"); (letter "W", str "wW2"); (letter "X", str "xX>"); (letter "Y", str "yY6");
    (letter "Z", str "zZ<");
    (KEY_COMMA, str ",,;"); (KEY_DOT, str "..:"); (KEY_SLASH, str "/\^"); (KEY_QUESTION, str "??]");
    (KEY_SEARCH, [9; 9; 9]); (KEY_SPACE, str "   "); (KEY_CENTER, [10; 10; 10]); (KEY_ENTER, [10; 10; 10]);
    (KEY_BACKSPACE, [8; 8; 8]); (KEY_EMAIL, str "@@~");
    (KEY_UP, [CHAR_KEY_LEFT; CHAR_KEY_LEFT; CHAR_KEY_LEFT]);
    (KEY_LEFT, [CHAR_KEY_DOWN; CHAR_KEY_DOWN; CHAR_KEY_DOWN]);
    (KEY_RIGHT, [CHAR_KEY_UP; CHAR_KEY_UP; CHAR_KEY_UP]);
    (KEY_DOWN, [CHAR_KEY_RIGHT; CHAR_KEY_RIGHT; CHAR_KEY_RIGHT]);
    (KEY_VOLUMEDOWN, [CHAR_SCROLL_DOWN; CHAR_SCROLL_DOWN; CHAR_BIG_SCROLL_DOWN]);
    (KEY_VOLUMEUP, [CHAR_SCROLL_UP; CHAR_SCROLL_UP; CHAR_BIG_SCROLL_UP]);
    (KEY_CAMERA, [CHAR_NOTHING; CHAR_NOTHING; CHAR_NOTHING]);
    (KEY_HP, [CHAR_NOTHING; CHAR_NOTHING; CHAR_NOTHING]) ].

Definition set_normal (k c : Z) (l : keyboardLayout) : outcome keyboardLayout :=
  n ← wr (normal l) k c; mret (mk_layout n (shifted l) (alternate l)).
Definition set_shifted (k c : Z) (l : keyboardLayout) : outcome keyboardLayout :=
  s ← wr (shifted l) k c; mret (mk_layout (normal l) s (alternate l)).
Definition set_alternate (k c : Z) (l : keyboardLayout) : outcome keyboardLayout :=
  a ← wr (alternate l) k c; mret (mk_layout (normal l) (shifted l) a).
Fixpoint set_keys (keys : list (Z * list Z)) (l : keyboardLayout) : outcome keyboardLayout :=
  match keys with
  | [] => mret l
  | (k, s) :: keys =>
      l ← set_normal k (char_at s 0) l;
      l ← set_shifted k (char_at s 1) l;
      l ← set_alternate k (char_at s 2) l;
      set_keys keys l
  end.
Definition set_letter (k : Z) (lower upper : string) (l : keyboardLayout) : outcome keyboardLayout :=
  l ← set_normal k (char_at (str lower) 0) l; set_shifted k (char_at (str upper) 0) l.

Definition qwerty_layout : outcome keyboardLayout := set_keys qwerty_keys blank_layout.
Definition qwertz_layout : outcome keyboardLayout :=
  l ← qwerty_layout; l ← set_letter (letter "Y") "z" "Z" l; set_letter (letter "Z") "y" "Y" l.
Definition azerty_layout : outcome keyboardLayout :=
  l ← qwerty_layout;
  l ← set_letter (letter "A") "q" "Q" l; l ← set_letter (letter "Q") "a" "A" l;
  l ← set_letter (letter "W") "z" "Z" l; set_letter (letter "Z") "w" "W" l.
Definition layout_of (name : layout_name) : outcome keyboardLayout :=
  match name with QWERTY => qwerty_layout | QWERTZ => qwertz_layout | AZERTY => azerty_layout end.

(** Reading a file that cannot be opened gives -1, and the NUL is put before the buffer. *)
Definition keyboard_type `{PatchOS W} `{StdioOS W} (w : W) : outcome layout_name :=
  match sys_stat (str "/etc/keyboard") w with
  | None => mret QWERTY
  | Some _ =>
      text ← of_option OutOfBounds (file_text (str "/etc/keyboard") w);
      let kbd_type := c_string (take 6 text) in
      mret (if strcmp kbd_type (str "AZERTY") =? 0 then AZERTY
            else if strcmp kbd_type (str "QWERTZ") =? 0 then QWERTZ else QWERTY)
  end.
Definition init_keypad_layout `{PatchOS W} `{StdioOS W} (w : W) : outcome (layout_name * keyboardLayout) :=
  name ← keyboard_type w; l ← layout_of name; mret (name, l).

Definition evaluate_key (current_layout : keyboardLayout) (keycode : Z) (shiftState altState : bool) : outcome Z :=
  if altState then rd (alternate current_layout) keycode
  else if shiftState then rd (shifted current_layout) keycode
  else rd (normal current_layout) keycode.
End layouts.

(** ** The shell and the keys *)
Inductive exit_status := Exited (code : Z) | Signaled (signal : Z).

Class PtyOS (W : Type) := {
  Pty : Type;
  (** [create_subprocess] and [ioctl]: the shell on its terminal of the given size *)
  pty_start : W → option Pty * W;
  pty_size : Z → Z → Pty → W → Pty * W;
  (** an error or some characters; the shell ends before its terminal does *)
  pty_read : Pty → W → (Z + Z * list Z) * Pty * W;
  pty_write : list Z → Pty → W → Pty * W;
  pty_ended : Pty → W → option exit_status * Pty * W;
  pty_wait : Pty → W → exit_status * W;
  pty_kill : Pty → W → Pty * W;
  (** the next key, or -1, and which keys are down *)
  next_key : W → Z * (Z → bool) * W;
  clear_keys : W → W
}.

Section code.
Context `{KeyCodes} `{Keyboard} {W : Type} `{PatchOS W} `{StdioOS W} `{PtyOS W}.
Context (fb_width fb_height : Z) (OPEN_RECOVERY_PHONE OPEN_RECOVERY_VERSION_BASE : list Z) (fuel : nat).

Definition init_console : Rec W (layout_name * keyboardLayout) :=
  _ ← set_background BACKGROUND_ICON_NONE;
  w ← get m_world;
  l ← pure (init_keypad_layout w);
  _ ← update_terminal (ui_console_begin fb_width fb_height);
  mret l.
Definition exit_console : Rec W unit :=
  _ ← set_background BACKGROUND_ICON_ERROR; on_terminal ui_console_end.

Definition send (data : list Z) (pty : Pty) : Rec W Pty := on_world (pty_write data pty).
Definition send_escape_sequence (seq : list Z) (pty : Pty) : Rec W Pty := send (ESC :: seq) pty.

Definition is_modifier (keycode : Z) : bool :=
  (keycode =? KEY_SOFT1) || (keycode =? KEY_LEFTALT) || (keycode =? KEY_RIGHTALT) ||
  (keycode =? KEY_LEFTSHIFT) || (keycode =? KEY_RIGHTSHIFT).

(** With the menu key: whether the shell is to be killed. *)
Definition menu_key (layout : keyboardLayout) (keycode : Z) (pressed : Z → bool) (pty : Pty) : Rec W (bool * Pty) :=
  if is_modifier keycode then mret (false, pty)
  else
    key ← pure (evaluate_key layout keycode false false);
    if (pressed KEY_LEFTALT || pressed KEY_RIGHTALT) && (key =? 99) then mret (true, pty)
    else pty ← send_escape_sequence (c_string [u8 (key - 97 + 1); 0]) pty; mret (false, pty).

Definition console_key (key : Z) (pty : Pty) : Rec W Pty :=
  if key =? 0 then mret pty
  else if key =? CHAR_NOTHING then mret pty
  else if key =? CHAR_SCROLL_DOWN then _ ← on_terminal (ui_console_scroll_down 1); mret pty
  else if key =? CHAR_SCROLL_UP then _ ← on_terminal (ui_console_scroll_up 1); mret pty
  else if key =? CHAR_BIG_SCROLL_DOWN then _ ← on_terminal (ui_console_scroll_down 8); mret pty
  else if key =? CHAR_BIG_SCROLL_UP then _ ← on_terminal (ui_console_scroll_up 8); mret pty
  else if key =? CHAR_KEY_UP then send_escape_sequence (str "[A") pty
  else if key =? CHAR_KEY_LEFT then send_escape_sequence (str "[D") pty
  else if key =? CHAR_KEY_RIGHT then send_escape_sequence (str "[C") pty
  else if key =? CHAR_KEY_DOWN then send_escape_sequence (str "[B") pty
  else send [key] pty.

(** One key, if there is one: whether to kill the shell. *)
Definition key_event (layout : keyboardLayout) (pty : Pty) : Rec W (bool * Pty) :=
  '(keycode, pressed) ← on_world next_key;
  if keycode =? -1 then mret (false, pty)
  else if pressed KEY_SOFT1 : bool then menu_key layout keycode pressed pty
  else
    key ← pure (evaluate_key layout keycode (pressed KEY_LEFTSHIFT || pressed KEY_RIGHTSHIFT)
      (pressed KEY_LEFTALT || pressed KEY_RIGHTALT));
    pty ← console_key key pty;
    mret (false, pty).

Definition on_pty {A} (f : W → A * Pty * W) : Rec W (A * Pty) :=
  on_world (λ w, let '(a, pty, w) := f w in ((a, pty), w)).

(** [n] bounds the rounds. *)
Fixpoint console_loop (n : nat) (layout : keyboardLayout) (force_quit : bool) (pty : Pty) : Rec W (bool * exit_status) :=
  match n with
  | O => pure Diverge
  | S n =>
      if force_quit then
        pty ← on_world (pty_kill pty); sts ← on_world (pty_wait pty); mret (true, sts)
      else
        '(r, pty) ← on_pty (pty_read pty);
        '(sts, pty) ← match r with
          | inl errno =>
              if errno =? 11 then on_pty (pty_ended pty)
              else sts ← on_world (pty_wait pty); mret (Some sts, pty)
          | inr (c, data) => _ ← update_terminal (ui_console_print (c_string (c :: data))); mret (None, pty)
          end;
        match sts with
        | Some sts => mret (false, sts)
        | None => '(force_quit, pty) ← key_event layout pty; console_loop n layout force_quit pty
        end
  end.

Definition shell_error (force_quit : bool) (sts : exit_status) : Z :=
  match sts with Exited code => code | Signaled _ => if force_quit then CONSOLE_FORCE_QUIT else 1 end.

Definition layout_text (name : layout_name) : list Z :=
  str "Keyboard Layout: " ++ (match name with QWERTY => str "QWERTY" | QWERTZ => str "QWERTZ" | AZERTY => str "AZERTY" end) ++ [13; 10].
Definition greet (name : layout_name) : Rec W unit :=
  _ ← on_terminal (ui_console_set_system_front_color CONSOLE_HEADER_COLOR);
  _ ← update_terminal (ui_console_print (str "Motorola " ++ OPEN_RECOVERY_PHONE ++ [13; 10]));
  _ ← update_terminal (ui_console_print (str "Open Recovery " ++ OPEN_RECOVERY_VERSION_BASE ++ str " Console" ++ [13; 10]));
  _ ← update_terminal (ui_console_print (layout_text name));
  on_terminal (ui_console_set_system_front_color CONSOLE_DEFAULT_FRONT_COLOR).

(** The code has a parameter for a command, which it does not use. *)
Definition run_console : Rec W Z :=
  '(name, layout) ← init_console;
  pty ← on_world pty_start;
  match pty with
  | None => _ ← exit_console; mret CONSOLE_FAILED_START
  | Some pty =>
      _ ← on_world (λ w, (tt, clear_keys w));
      t ← get m_terminal;
      pty ← on_world (pty_size (ui_console_get_num_rows t) (ui_console_get_num_columns t) pty);
      _ ← greet name;
      '(force_quit, sts) ← console_loop fuel layout false pty;
      _ ← exit_console;
      mret (shell_error force_quit sts)
  end.
End code.

(** ** The console does not go wrong *)
(** The keys have codes of the tables. *)
Class KeyboardLaws `{KeyCodes} `{Keyboard} := {
  codes_fit : Forall (λ '(k, _), 0 ≤ k ≤ KEY_MAX) qwerty_keys
}.
(** Keys have codes of the kernel. *)
Class KeyLaws {W : Type} `{KeyCodes} `{PtyOS W} := {
  keys_fit w : let keycode := (next_key w).1.1 in keycode = -1 ∨ 0 ≤ keycode ≤ KEY_MAX
}.

(** Shells that print plain text: no NUL, no step back and no escape sequences. *)
Definition plain_shell {W : Type} `{PtyOS W} : Prop :=
  ∀ pty w c data, (pty_read pty w).1.1 = inr (c, data) → Forall plain (c :: data).
(** The file with the kind of the keyboard, if there is one, can be read. *)
Definition keyboard_readable {W : Type} `{PatchOS W} `{StdioOS W} (w : W) : Prop :=
  is_Some (sys_stat (str "/etc/keyboard") w) → is_Some (file_text (str "/etc/keyboard") w).

(** Shells that end: [left] bounds the rounds that are left. Each piece that is read and each round
    without one takes from it, keys and what they send add nothing to it: it counts the keys that
    will be pressed and what the shell will answer to them. *)
Record ends {W : Type} `{PtyOS W} (left : Pty → W → nat) : Prop := {
  reads_less pty w c data pty' w' : pty_read pty w = (inr (c, data), pty', w') → (left pty' w' < left pty w)%nat;
  waits_less pty w pty1 w1 pty2 w2 : pty_read pty w = (inl 11, pty1, w1) → pty_ended pty1 w1 = (None, pty2, w2) →
    (left pty2 w2 < left pty w)%nat;
  keys_less pty w k pressed w' : next_key w = (k, pressed, w') → (left pty w' ≤ left pty w)%nat ∧
    (k ≠ -1 → ∀ data pty1 w1, pty_write data pty w' = (pty1, w1) → (left pty1 w1 ≤ left pty w)%nat);
  clear_same pty w : left pty (clear_keys w) = left pty w;
  size_same rows cols pty w pty' w' : pty_size rows cols pty w = (pty', w') → left pty' w' = left pty w
}.

Section safety.
Context `{KeyboardLaws} {W : Type} `{PatchOS W} `{StdioOS W} `{!PtyOS W} `{!KeyLaws (W := W)} (Hshell : plain_shell (W := W)).
Context (d : bool) (left : Pty → W → nat) (Hleft : d = false → ends left).
Context (R C : Z) (HR : 1 ≤ R ≤ 1000) (HC : 2 ≤ C ≤ CONSOLE_MAX_COLUMNS).
Implicit Types (m : Machine W) (l : keyboardLayout).

Definition layout_ok l : Prop :=
  zlen (normal l) = KEY_MAX + 1 ∧ zlen (shifted l) = KEY_MAX + 1 ∧ zlen (alternate l) = KEY_MAX + 1.
Definition console_ok m : Prop := terminal_ok R C (m_terminal m) ∧ escaped_state (m_terminal m) = false.

Lemma evaluate_key_ok l keycode shiftState altState :
  layout_ok l → 0 ≤ keycode ≤ KEY_MAX → wp (evaluate_key l keycode shiftState altState) (λ _, True).
Proof.
  intros (Hn & Hs & Ha) Hk. unfold evaluate_key.
  destruct altState; [|destruct shiftState];
    [destruct (rd_in_bounds (alternate l) keycode) as [x ->]|destruct (rd_in_bounds (shifted l) keycode) as [x ->]|
     destruct (rd_in_bounds (normal l) keycode) as [x ->]]; done || lia.
Qed.
Lemma set_normal_ok k c l : layout_ok l → 0 ≤ k ≤ KEY_MAX → wp (set_normal k c l) layout_ok.
Proof.
  intros (Hn & Hs & Ha) Hk. unfold set_normal. rewrite wr_in_bounds by lia. simpl. unfold layout_ok. simpl.
  by rewrite length_insert.
Qed.
Lemma set_shifted_ok k c l : layout_ok l → 0 ≤ k ≤ KEY_MAX → wp (set_shifted k c l) layout_ok.
Proof.
  intros (Hn & Hs & Ha) Hk. unfold set_shifted. rewrite wr_in_bounds by lia. simpl. unfold layout_ok. simpl.
  by rewrite length_insert.
Qed.
Lemma set_alternate_ok k c l : layout_ok l → 0 ≤ k ≤ KEY_MAX → wp (set_alternate k c l) layout_ok.
Proof.
  intros (Hn & Hs & Ha) Hk. unfold set_alternate. rewrite wr_in_bounds by lia. simpl. unfold layout_ok. simpl.
  by rewrite length_insert.
Qed.
Lemma set_keys_ok keys l : Forall (λ '(k, _), 0 ≤ k ≤ KEY_MAX) keys → layout_ok l → wp (set_keys keys l) layout_ok.
Proof.
  intros Hk. revert l. induction Hk as [|[k s] keys Hk Hkeys IH]; intros l Hl; [done|]. cbn [set_keys].
  apply wp_bind. eapply wp_mono; [by apply set_normal_ok|]. intros l1 Hl1.
  apply wp_bind. eapply wp_mono; [by apply set_shifted_ok|]. intros l2 Hl2.
  apply wp_bind. eapply wp_mono; [by apply set_alternate_ok|]. intros l3 Hl3. by apply IH.
Qed.
Lemma set_letter_ok k a b l : layout_ok l → 0 ≤ k ≤ KEY_MAX → wp (set_letter k a b l) layout_ok.
Proof.
  intros Hl Hk. unfold set_letter. apply wp_bind. eapply wp_mono; [by apply set_normal_ok|]. intros. by apply set_shifted_ok.
Qed.
Lemma key_fits k s : (k, s) ∈ qwerty_keys → 0 ≤ k ≤ KEY_MAX.
Proof. intros Hin. by apply (proj1 (Forall_forall _ _) codes_fit) in Hin. Qed.
Lemma letters_fit : Forall (λ c, 0 ≤ letter c ≤ KEY_MAX) ["A"; "Q"; "W"; "Y"; "Z"]%string.
Proof.
  repeat (apply Forall_cons; split; [eapply key_fits, list_elem_of_lookup_2|]); [| | | | |constructor].
  - exact (eq_refl : qwerty_keys !! 0%nat = Some (letter "A", _)).
  - exact (eq_refl : qwerty_keys !! 16%nat = Some (letter "Q", _)).
  - exact (eq_refl : qwerty_keys !! 22%nat = Some (letter "W", _)).
  - exact (eq_refl : qwerty_keys !! 24%nat = Some (letter "Y", _)).
  - exact (eq_refl : qwerty_keys !! 25%nat = Some (letter "Z", _)).
Qed.
Lemma layout_of_ok name : -1 ≤ KEY_MAX → wp (layout_of name) layout_ok.
Proof.
  intros Hmax. assert (Hq : wp qwerty_layout layout_ok).
  { apply set_keys_ok; [exact codes_fit|]. unfold layout_ok, blank_layout. simpl. rewrite length_replicate. lia. }
  pose proof letters_fit as Hl. apply Forall_cons_1 in Hl as [Ha Hl]. apply Forall_cons_1 in Hl as [HQ Hl].
  apply Forall_cons_1 in Hl as [Hw Hl]. apply Forall_cons_1 in Hl as [Hy Hl]. apply Forall_cons_1 in Hl as [Hz _].
  destruct name; [done|..]; simpl; unfold qwertz_layout, azerty_layout;
    repeat (apply wp_bind; eapply wp_mono; [first [exact Hq|by apply set_letter_ok]|]; intros); by apply set_letter_ok.
Qed.

(** What is left is at most [b], and stays so if something is written. *)
Definition calm (b : nat) (pty : Pty) m : Prop := d = false →
  (left pty (m_world m) ≤ b)%nat ∧ ∀ data pty1 w1, pty_write data pty (m_world m) = (pty1, w1) → (left pty1 w1 ≤ b)%nat.
Definition left_by (b : nat) (pty : Pty) m : Prop := d = false → (left pty (m_world m) ≤ b)%nat.

Lemma console_ok_eq m m' : console_ok m → m_terminal m' = m_terminal m → console_ok m'.
Proof. unfold console_ok. by intros Hm ->. Qed.
Lemma send_okay b data pty m (Q : Pty → Machine W → Prop) :
  console_ok m → calm b pty m → (∀ pty m', console_ok m' → left_by b pty m' → Q pty m') → okay d (send data pty) m Q.
Proof.
  intros Hm Hb HQ. apply okay_on_world. destruct (pty_write data pty (m_world m)) as [pty1 w1] eqn:Hw.
  intros m' Ht Hw'. apply HQ; [by eapply console_ok_eq|]. intros Hd. rewrite Hw'. by eapply Hb.
Qed.
Lemma console_key_okay b key pty m (Q : Pty → Machine W → Prop) :
  console_ok m → calm b pty m → (∀ pty m', console_ok m' → left_by b pty m' → Q pty m') → okay d (console_key key pty) m Q.
Proof.
  intros Hm Hb HQ. unfold console_key, send_escape_sequence.
  assert (Hsame : okay d (mret pty) m Q). { apply okay_ret, HQ; [done|]. intros Hd. by apply Hb. }
  assert (Hscroll : ∀ f, terminal_ok R C (f (m_terminal m)) → escaped_state (f (m_terminal m)) = escaped_state (m_terminal m) →
    okay d (_ ← on_terminal f; mret pty) m Q).
  { intros f Hf He. apply okay_bind, okay_on_terminal. intros m' Ht Hw. apply okay_ret, HQ.
    - unfold console_ok. rewrite Ht, He. split; [done|apply Hm].
    - intros Hd. rewrite Hw. by apply Hb. }
  destruct (_ =? 0); [done|]. destruct (_ =? CHAR_NOTHING); [done|].
  destruct (_ =? CHAR_SCROLL_DOWN). { apply Hscroll; [apply scroll_down_ok; try lia; apply Hm|done]. }
  destruct (_ =? CHAR_SCROLL_UP). { apply Hscroll; [apply scroll_up_ok; try lia; apply Hm|done]. }
  destruct (_ =? CHAR_BIG_SCROLL_DOWN). { apply Hscroll; [apply scroll_down_ok; try lia; apply Hm|done]. }
  destruct (_ =? CHAR_BIG_SCROLL_UP). { apply Hscroll; [apply scroll_up_ok; try lia; apply Hm|done]. }
  repeat (destruct (_ =? _); [by apply (send_okay b)|]). by apply (send_okay b).
Qed.

Lemma okay_on_pty {A} (f : W → A * Pty * W) m (Q : A * Pty → Machine W → Prop) :
  (∀ m', m_terminal m' = m_terminal m → m_world m' = (f (m_world m)).2 → Q (f (m_world m)).1 m') → okay d (on_pty f) m Q.
Proof.
  intros HQ. unfold on_pty. apply okay_on_world. destruct (f (m_world m)) as [[a pty] w]. intros m' Ht Hw. by apply HQ.
Qed.
Lemma print_okay s m (Q : unit → Machine W → Prop) :
  console_ok m → Forall plain s → (∀ m', console_ok m' → m_world m' = m_world m → Q tt m') →
  okay d (update_terminal (ui_console_print s)) m Q.
Proof.
  intros [Hm He] Hs HQ. apply okay_update_terminal.
  destruct (wp_Ret_inv _ _ (ui_console_print_plain R C HR HC s (m_terminal m) Hm He Hs)) as (t & Hrun & Ht & Het & _).
  rewrite Hrun. simpl. intros m' Hm' Hw. apply HQ; [|done]. unfold console_ok. by rewrite Hm'.
Qed.

Lemma menu_key_okay b l keycode pressed pty m (Q : bool * Pty → Machine W → Prop) :
  layout_ok l → 0 ≤ keycode ≤ KEY_MAX → console_ok m → calm b pty m →
  (∀ r m', console_ok m' → left_by b r.2 m' → Q r m') → okay d (menu_key l keycode pressed pty) m Q.
Proof.
  intros Hl Hk Hm Hb HQ. unfold menu_key.
  assert (Hsame : ∀ quit, Q (quit, pty) m). { intros quit. apply HQ; [done|]. intros Hd. by apply Hb. }
  destruct (is_modifier keycode); [by apply okay_ret|].
  apply okay_bind, okay_pure. eapply wp_mono; [by apply evaluate_key_ok|]. intros key _.
  destruct (_ && _); [by apply okay_ret|]. apply okay_bind, (send_okay b); [done..|].
  intros pty' m' Hm' Hb'. by apply okay_ret, HQ.
Qed.
Lemma key_event_okay l pty m (Q : bool * Pty → Machine W → Prop) :
  layout_ok l → console_ok m → (∀ r m', console_ok m' → left_by (left pty (m_world m)) r.2 m' → Q r m') →
  okay d (key_event l pty) m Q.
Proof.
  intros Hl Hm HQ. unfold key_event. apply okay_bind, okay_on_world. pose proof (keys_fit (m_world m)) as Hk.
  destruct (next_key (m_world m)) as [[keycode pressed] w] eqn:Hnext. cbn [fst snd] in *. intros m1 Ht Hw.
  assert (Hm1 : console_ok m1) by by eapply console_ok_eq. clear Ht.
  assert (Hless : left_by (left pty (m_world m)) pty m1). { intros Hd. rewrite Hw. exact (proj1 (keys_less _ (Hleft Hd) pty _ _ _ _ Hnext)). }
  destruct (Z.eqb_spec keycode (-1)) as [_|Hne]; [by apply okay_ret, HQ|]. destruct Hk as [|Hk]; [done|].
  assert (Hb : calm (left pty (m_world m)) pty m1).
  { intros Hd. split; [by apply Hless|]. rewrite Hw. intros data pty1 w1. by apply (proj2 (keys_less _ (Hleft Hd) pty _ _ _ _ Hnext)). }
  destruct (pressed KEY_SOFT1); [by eapply menu_key_okay|].
  apply okay_bind, okay_pure. eapply wp_mono; [by apply evaluate_key_ok|]. intros key _.
  apply okay_bind, (console_key_okay (left pty (m_world m))); [done..|]. intros pty' m2 Hm2 Hb2. by apply okay_ret, HQ.
Qed.

Lemma console_loop_okay l n : layout_ok l → ∀ force_quit pty m, console_ok m → (d = false → left pty (m_world m) < n)%nat →
  okay d (console_loop n l force_quit pty) m (λ _ m', console_ok m').
Proof.
  intros Hl. induction n as [|n IH]; intros force_quit pty m Hm Hn.
  { unfold okay. simpl. destruct d; [done|]. specialize (Hn eq_refl). lia. }
  cbn [console_loop]. destruct force_quit.
  { apply okay_bind, okay_on_world. intros m1 Ht1 _. apply okay_bind, okay_on_world. intros m2 Ht2 _. apply okay_ret.
    eapply console_ok_eq; [|exact Ht2]. by eapply console_ok_eq. }
  apply okay_bind, okay_on_pty. pose proof (Hshell pty (m_world m)) as Hread.
  destruct (pty_read pty (m_world m)) as [[r pty1] w] eqn:Hr. cbn [fst snd] in *. intros m1 Ht1 Hw1.
  assert (Hm1 : console_ok m1) by by eapply console_ok_eq. clear Ht1.
  apply okay_bind, (okay_mono _ _ (λ s m', console_ok m' ∧ (s.1 = None → d = false → left s.2 (m_world m') < n)%nat)).
  - destruct r as [errno|[c data]].
    + destruct (Z.eqb_spec errno 11) as [->|_].
      * apply okay_on_pty. destruct (pty_ended pty1 (m_world m1)) as [[sts pty2] w2] eqn:Hended. cbn [fst snd].
        intros m2 Ht2 Hw2. split; [by eapply console_ok_eq|]. intros -> Hd. rewrite Hw2. rewrite Hw1 in Hended.
        pose proof (waits_less _ (Hleft Hd) _ _ _ _ _ _ Hr Hended). specialize (Hn Hd). lia.
      * apply okay_bind, okay_on_world. intros m2 Ht2 _. apply okay_ret. split; [by eapply console_ok_eq|done].
    + pose proof (Hread c data eq_refl) as Hp. apply okay_bind.
      rewrite c_string_all by (eapply Forall_impl; [exact Hp|]; by intros x []).
      apply print_okay; [done..|]. intros m2 Hm2 Hw2. apply okay_ret. split; [done|]. intros _ Hd. cbn [snd].
      rewrite Hw2, Hw1. pose proof (reads_less _ (Hleft Hd) _ _ _ _ _ _ Hr). specialize (Hn Hd). lia.
  - intros [[sts|] pty2] m2 [Hm2 Hn2]; [by apply okay_ret|]. apply okay_bind, key_event_okay; [done..|].
    intros [force_quit pty3] m3 Hm3 Hb3. apply IH; [done|]. intros Hd. specialize (Hn2 eq_refl Hd). specialize (Hb3 Hd).
    simpl in *. lia.
Qed.

Lemma system_color_ok which m m' :
  console_ok m → m_terminal m' = ui_console_set_system_front_color which (m_terminal m) → console_ok m'.
Proof. unfold console_ok. intros [[Hp [] Hb Hs] He] ->. split; [|done]. split; try done; by split. Qed.
Lemma greet_okay phone version name m :
  console_ok m → Forall plain phone → Forall plain version →
  okay d (greet (W := W) phone version name) m (λ _ m', console_ok m' ∧ m_world m' = m_world m).
Proof.
  intros Hm Hphone Hversion. unfold greet.
  apply okay_bind, okay_on_terminal. intros m1 Ht1 Hw1. apply okay_bind, print_okay.
  - by eapply system_color_ok.
  - rewrite !Forall_app. split; [by repeat constructor|]. split; [done|by repeat constructor].
  - intros m2 Hm2 Hw2. apply okay_bind, print_okay; [done| |].
    + rewrite !Forall_app. split; [by repeat constructor|]. split; [done|]. split; by repeat constructor.
    + intros m3 Hm3 Hw3. apply okay_bind, print_okay; [done|destruct name; by repeat constructor|].
      intros m4 Hm4 Hw4. apply okay_on_terminal. intros m5 Hm5 Hw5. split; [by eapply system_color_ok|]. congruence.
Qed.

(** What is left when the shell starts. *)
Definition at_start m : nat := match pty_start (m_world m) with (Some pty, w) => left pty w | _ => 0%nat end.
Lemma run_console_okay fw fh phone version fuel m :
  R = fw / CONSOLE_CHAR_HEIGHT → C = fh / CONSOLE_CHAR_WIDTH + 1 →
  CONSOLE_CHAR_HEIGHT ≤ fw → CONSOLE_CHAR_WIDTH ≤ fh < CONSOLE_CHAR_WIDTH * CONSOLE_MAX_COLUMNS →
  fresh (m_terminal m) → -1 ≤ KEY_MAX →
  keyboard_readable (m_world m) → Forall plain phone → Forall plain version →
  (d = false → at_start m < fuel)%nat → okay d (run_console fw fh phone version fuel) m (λ _ _, True).
Proof.
  intros HeqR HeqC Hfw Hfh Hfresh Hmax Hfile Hphone Hversion Hfuel.
  pose proof (ui_console_begin_ok fw fh (m_terminal m) Hfresh Hfw ltac:(unfold CONSOLE_TOTAL_ROWS, CONSOLE_BUFFER_ROWS; lia) Hfh) as Hbegin.
  rewrite <- HeqR, <- HeqC in Hbegin. clear HeqR HeqC.
  unfold run_console, init_console. apply okay_bind, okay_bind, okay_set_background. intros m1 Ht1 Hw1.
  apply okay_bind, okay_get, okay_bind, okay_pure. rewrite Hw1.
  apply (wp_mono _ (λ x, layout_ok x.2)).
  { unfold init_keypad_layout. apply wp_bind, (wp_mono _ (λ _, True)).
    - unfold keyboard_type. destruct (sys_stat _ _) eqn:Hst; [|done]. destruct Hfile as [text ->]; [done|]. done.
    - intros name _. apply wp_bind. eapply wp_mono; [by apply layout_of_ok|]. intros l Hl. by apply wp_ret. }
  intros [name l] Hl. apply okay_bind, okay_update_terminal. rewrite Ht1.
  destruct (wp_Ret_inv _ _ Hbegin) as (t & Hrun & Ht). rewrite Hrun. simpl. intros m2 Ht2 Hw2.
  assert (Hm2 : console_ok m2).
  { unfold console_ok. rewrite Ht2. split; [done|]. unfold ui_console_begin in Hrun.
    step_ret Hrun. step_ret Hrun. by injection Hrun as <-. }
  apply okay_ret, okay_bind, okay_on_world. unfold at_start in Hfuel. rewrite Hw2, Hw1.
  destruct (pty_start (m_world m)) as [[pty|] w] eqn:Hstart; simpl; intros m3 Ht3 Hw3; [|done].
  assert (Hm3 : console_ok m3) by by eapply console_ok_eq.
  apply okay_bind, okay_on_world. intros m4 Ht4 Hw4. assert (Hm4 : console_ok m4) by by eapply console_ok_eq.
  apply okay_bind, okay_get, okay_bind, okay_on_world.
  destruct (pty_size _ _ _ _) as [pty5 w5] eqn:Hsize. cbn [fst snd]. intros m5 Ht5 Hw5.
  assert (Hm5 : console_ok m5) by by eapply console_ok_eq.
  apply okay_bind. eapply okay_mono; [by apply greet_okay|]. intros [] m6 [Hm6 Hw6].
  apply okay_bind. eapply okay_mono; [apply console_loop_okay; [done..|]|by intros [force_quit sts] m7 Hm7].
  intros Hd. rewrite Hw6, Hw5, (size_same _ (Hleft Hd) _ _ _ _ _ _ Hsize), Hw4. cbn [snd]. rewrite (clear_same _ (Hleft Hd)), Hw3. by apply Hfuel.
Qed.
End safety.

(** C12: The console does not go wrong, and it ends when the shell does. With a shell that prints plain
    text (no NUL, step back or escape sequence), in pieces of any length, no key that is pressed and
    nothing that the shell prints, in any order and for any time, makes the console leave its
    arrays or those of the keyboards, on screens of up to 1000 rows and 99 columns, if /etc/keyboard
    can be read when it is there (otherwise the byte before [kbd_type] is written); and if there is an
    end to what the keys and the shell do, then the console returns. *)
Theorem run_console_safe `{KeyboardLaws} {W} `{PatchOS W} `{StdioOS W} `{!PtyOS W} `{!KeyLaws (W := W)}
    fw fh phone version (m : Machine W) :
  plain_shell (W := W) → CONSOLE_CHAR_HEIGHT ≤ fw → fw / CONSOLE_CHAR_HEIGHT ≤ 1000 →
  CONSOLE_CHAR_WIDTH ≤ fh < CONSOLE_CHAR_WIDTH * CONSOLE_MAX_COLUMNS → fresh (m_terminal m) → -1 ≤ KEY_MAX →
  keyboard_readable (m_world m) → Forall plain phone → Forall plain version →
  (∀ fuel f, run_console fw fh phone version fuel m ≠ Fault f) ∧
  ∀ left, ends left → ∀ fuel, (at_start left m < fuel)%nat → ∃ r m', run_console fw fh phone version fuel m = Ret (r, m').
Proof.
  intros Hshell Hfw Hrows Hfh Hfresh Hmax Hfile Hphone Hversion. destruct (console_size fw fh Hfw Hfh) as [HR HC]. split.
  - intros fuel f Hf.
    assert (Hok : okay true (run_console fw fh phone version fuel) m (λ _ _, True)).
    { by eapply (run_console_okay Hshell true (λ _ _, 0%nat)). }
    unfold okay in Hok. by rewrite Hf in Hok.
  - intros left Hends fuel Hfuel.
    assert (Hok : okay false (run_console fw fh phone version fuel) m (λ _ _, True)) by by eapply (run_console_okay Hshell false left).
    destruct (okay_returns _ _ _ Hok) as (r & m' & Hrun & _). by exists r, m'.
Qed.

Module ConsoleDemo.
(** The codes of linux/input.h; the letters from A on. *)
Definition letters : list Z :=
  [30; 48; 46; 32; 18; 33; 34; 35; 23; 36; 37; 38; 50; 49; 24; 25; 16; 19; 31; 20; 22; 47; 17; 45; 21; 44].
#[export] Instance keyboard : Keyboard := {
  KEY_ c := default 0 (letters !! Z.to_nat (c - 65)); KEY_COMMA := 51; KEY_DOT := 52; KEY_SLASH := 53; KEY_QUESTION := 214;
  KEY_SEARCH := 217; KEY_SPACE := 57; KEY_BACKSPACE := 14; KEY_EMAIL := 215; KEY_LEFT := 105; KEY_RIGHT := 106;
  KEY_SOFT1 := 229; KEY_LEFTALT := 56; KEY_RIGHTALT := 100; KEY_LEFTSHIFT := 42; KEY_RIGHTSHIFT := 54
}.
#[export] Existing Instance SelectDemo.codes.
#[export] Instance keyboard_laws : KeyboardLaws.
Proof. split. repeat constructor; done. Defined.

(** The characters that a keyboard has, and the printable ones that it does not have: the quote,
    parentheses and braces. *)
Definition typed (l : keyboardLayout) : list Z :=
  qwerty_keys ≫= λ '(k, _), [false; true] ≫= λ shift, [false; true] ≫= λ alt,
    match evaluate_key l k shift alt with Ret x => [x] | _ => [] end.
Definition missing (name : layout_name) : option (list Z) :=
  match layout_of name with
  | Ret l => let t := typed l in Some (List.filter (λ c, negb (existsb (Z.eqb c) t)) (seqZ 32 95))
  | _ => None
  end.
Example missing_characters : (missing <$> [QWERTY; QWERTZ; AZERTY]) = replicate 3 (Some (39 :: str "(){}")).
Proof. lazy. reflexivity. Qed.

(** A shell that says some words and ends; keys from a list, with those that are held down. *)
Definition world : Type := list (Z * list Z) * list Z.
#[export] Instance pty : PtyOS world := {
  Pty := list (list Z);
  pty_start w := (Some [str "$ "; str "l"; str "s"; [13; 10]; str "bin"; [13; 10]], w);
  pty_size _ _ p w := (p, w);
  pty_read p w :=
    match p with
    | (c :: s) :: p => if bool_decide (Forall plain (c :: s)) then (inr (c, s), p, w) else (inl 11, p, w)
    | [] :: p => (inl 11, p, w)
    | [] => (inl 11, [], w)
    end;
  pty_write s p w := (p, (w.1, w.2 ++ s));
  pty_ended p w := (match p with [] => Some (Exited 0) | _ => None end, tail p, w);
  pty_wait p w := (Signaled 9, w);
  pty_kill p w := (p, w);
  next_key w :=
    match w.1 with
    | (k, down) :: keys => if bool_decide (0 ≤ k ≤ 511) then (k, λ key, bool_decide (key ∈ down), (keys, w.2)) else (-1, λ _, false, (keys, w.2))
    | [] => (-1, λ _, false, w)
    end;
  clear_keys w := w
}.
#[export] Instance key_laws : KeyLaws (W := world).
Proof.
  split. intros w. simpl. destruct w as [[|[k down] keys] out]; [by left|]. simpl. case_bool_decide; simpl; [by right|by left].
Defined.
Lemma pty_plain : plain_shell (W := world).
Proof. intros p w c data. simpl. destruct p as [|[|x s] p]; [done..|]. case_bool_decide as Hb; [|done]. simpl. by intros [= -> ->]. Qed.
Lemma pty_ends : ends (W := world) (λ p _, length (A := list Z) p).
Proof.
  split; simpl.
  - intros [|[|x s] p] w c data pty' w'; [done..|]. case_bool_decide; [|done]. intros [= _ _ <- _]. simpl. lia.
  - intros [|[|x s] p] w pty1 w1 pty2 w2; [by intros [= <- _]| |case_bool_decide; [done|]];
      intros [= <- _]; destruct p; [done| |done|]; intros [= <- _]; simpl; lia.
  - intros p w k pressed w' _. split; [lia|]. by intros _ data pty1 w1 [= <- _].
  - done.
  - by intros rows cols p w pty' w' [= <- _].
Qed.
End ConsoleDemo.

Section witness.
Import ConsoleDemo.

Lemma initial_fresh_terminal : fresh initial.
Proof. repeat split; by apply shape_replicate || reflexivity. Qed.
#[local] Instance no_files : PatchOS world := {
  sys_stat _ _ := None; sys_fread _ _ _ := None; sys_open_trunc _ w := (-1, w); sys_write _ _ w := (-1, w);
  sys_fsync _ w := w; sys_close _ w := w; sys_chmod _ _ w := (-1, w); sys_chown _ _ _ w := (-1, w);
  sys_rename _ _ w := (-1, w); sys_unlink _ w := (-1, w); sys_statfs _ _ := None; sys_listdir _ _ := None;
  sys_readlink _ _ := None; sys_mount _ _ _ _ w := (-1, w)
}.
#[local] Instance no_streams : StdioOS world := {
  file_text _ _ := None; sys_fopen _ _ w := (None, w); sys_fputs _ _ w := w; sys_fclose _ w := w; sys_sync w := w
}.
(** Keys: l, s, enter; scrolling; a key with the menu key. *)
Definition console_machine : Machine world :=
  let m := SelectDemo.machine [] in
  mk_machine ([(38, []); (31, []); (28, []); (115, []); (46, [229])], []) (m_roots m) (m_package m) (m_log m) (m_view m) [] true 0 initial [] no_firmware 0.

Lemma run_console_safe_witness :
  ∃ r m', run_console 480 854 (str "A853") (str "1.46") 7 console_machine = Ret (r, m').
Proof.
  apply (proj2 (run_console_safe 480 854 (str "A853") (str "1.46") console_machine pty_plain ltac:(done) ltac:(done) ltac:(by split)
    initial_fresh_terminal ltac:(done) ltac:(by intros []) ltac:(by repeat constructor) ltac:(by repeat constructor)) _ pty_ends). vm_compute. lia.
Defined.
End witness.
