(* ===== verification/Firmware.v ===== *)
(** * Firmware

    firmware.c: the image of a firmware update, which is kept until recovery ends, and handed to
    the boot loader then. *)
From stdpp Require Import relations.
From S2P Require Import Prelude CString DirUtil Syscalls Mtdutils Mtdflash Mtdframe Mtdscan Mounts Roots Bootloader Lines Args Restart.
From S2P Require Import Terminal Ui Input Machine.

(** The screen as the kernel has it, the text for [errno], and [reboot], which comes back if it
    fails. *)
Class ScreenOS (W : Type) := {
  gr_fb_width : Z;
  gr_fb_height : Z;
  (** the pixels with the icon in the middle of the background *)
  background_pixels : Z → W → list Z;
  errno_text : W → list Z;
  sys_reboot : W → bool * W
}.

Section code.
Context {W : Type} `{MountOS W} `{MtdDriver W} `{PatchOS W} `{RootOS W} `{ScreenOS W}.
Context (OPEN_RCVR_VERSION_LITE HAVE_CUST : bool) (alloc_ok : Z → bool) (fuel : nat).
Abbreviation set_message := (set_bootloader_message OPEN_RCVR_VERSION_LITE HAVE_CUST alloc_ok fuel).
Abbreviation format := (format_root_device OPEN_RCVR_VERSION_LITE HAVE_CUST alloc_ok fuel).

Definition remember_firmware_update (type data : list Z) (length : Z) : Rec W Z :=
  f ← get m_firmware;
  if bool_decide (is_Some (update_type f)) || bool_decide (is_Some (update_data f)) then
    _ ← LOGE (str "Multiple firmware images" ++ [10]); mret (-1)
  else _ ← set_firmware (mk_firmware (Some type) (Some data) length); mret 0.

Definition firmware_update_pending (f : Firmware) : bool :=
  bool_decide (is_Some (update_data f)) && (0 <? update_length f).

(** [ui_copy_image]: the pixels, unless there is no memory; two bytes for each. *)
Definition ui_copy_image (icon : Z) : Rec W (option (list Z) * Z * Z * Z) :=
  w ← get m_world;
  let size := gr_fb_width * gr_fb_height * 2 in
  if alloc_ok size then mret (Some (background_pixels icon w), gr_fb_width, gr_fb_height, 16)
  else
    _ ← LOGE (str "Can't allocate " ++ decimal size ++ str " bytes for image" ++ [10]);
    mret (None, gr_fb_width, gr_fb_height, 16).

Definition intent_text (send_intent : option (list Z)) (recovery : list Z) : outcome (list Z) :=
  match send_intent with
  | None => mret recovery
  | Some intent =>
      r ← strlcat recovery (str "--send_intent=") 1024;
      r ← strlcat r intent 1024;
      strlcat r [10] 1024
  end.
(** The message for the time in which the cache is not a file system. *)
Definition wipe_message (send_intent : option (list Z)) : outcome bootloader_message :=
  c ← strlcpy (command zero_message) (str "boot-recovery") 32;
  r ← strlcpy (recovery zero_message) (str "recovery" ++ [10] ++ str "--wipe_cache" ++ [10]) 32;
  r ← intent_text send_intent r;
  mret (mk_message c (status zero_message) r).
Definition update_message (type : list Z) (boot : bootloader_message) : outcome bootloader_message :=
  c ← strlcpy (command boot) (str "update-" ++ type) 32; mret (mk_message c (status boot) (recovery boot)).

(** The images and the writing. *)
Definition write_firmware (type data : list Z) (length : Z) : Rec W bool :=
  '(busy_image, _, _, _) ← ui_copy_image BACKGROUND_ICON_FIRMWARE_INSTALLING;
  '(fail_image, width, height, bpp) ← ui_copy_image BACKGROUND_ICON_FIRMWARE_ERROR;
  _ ← print (str "Writing " ++ type ++ str " image..." ++ [10]);
  r ← on_system (write_update_for_bootloader OPEN_RCVR_VERSION_LITE HAVE_CUST alloc_ok fuel data length width height bpp
    busy_image fail_image);
  if negb (r =? 0) then
    w ← get m_world;
    _ ← LOGE (str "Can't write " ++ type ++ str " image" ++ [10] ++ str "(" ++ errno_text w ++ str ")" ++ [10]);
    _ ← on_system (format (str "CACHE:"));
    mret false
  else mret true.

(** [None] if the phone restarts. *)
Definition maybe_install_firmware_update (send_intent : option (list Z)) : Rec W (option Z) :=
  f ← get m_firmware;
  match update_data f with
  | None => mret (Some 0)
  | Some data =>
      if update_length f =? 0 then mret (Some 0)
      else
        boot ← pure (wipe_message send_intent);
        r ← on_system (set_message boot);
        if negb (r =? 0) then mret (Some (-1))
        else
          type ← pure (of_option NullPointer (update_type f));
          written ← write_firmware type data (update_length f);
          if negb written then mret (Some (-1))
          else
            boot ← pure (update_message type boot);
            r ← on_system (set_message boot);
            if negb (r =? 0) then _ ← on_system (format (str "CACHE:")); mret (Some (-1))
            else
              _ ← on_system (ensure_root_path_unmounted OPEN_RCVR_VERSION_LITE HAVE_CUST alloc_ok (str "SYSTEM:"));
              _ ← on_system (ensure_root_path_unmounted OPEN_RCVR_VERSION_LITE HAVE_CUST alloc_ok (str "SDCARD:"));
              _ ← on_system (ensure_root_path_unmounted OPEN_RCVR_VERSION_LITE HAVE_CUST alloc_ok (str "DATA:"));
              restarts ← on_world sys_reboot;
              if restarts : bool then mret None
              else _ ← LOGE (str "Can't reboot" ++ [10]); mret (Some (-1))
  end.
End code.

(** ** An update that is interrupted *)
Definition wipe_args (send_intent : option (list Z)) : list (list Z) :=
  str "--wipe_cache" :: match send_intent with Some intent => [str "--send_intent=" ++ intent] | None => [] end.

Lemma limited_more n k text buf : (length text ≤ n)%nat → (length text ≤ k)%nat → limited n text buf = limited k text buf.
Proof. intros Hn Hk. unfold limited. by rewrite !take_ge, !Nat.min_r by lia. Qed.
Lemma wipe_message_spec send_intent :
  Forall arg_ok (wipe_args send_intent) → wipe_message send_intent = Ret (boot_message zero_message (wipe_args send_intent)).
Proof.
  intros Hargs. unfold wipe_message, boot_message. cbn [command status recovery zero_message].
  rewrite (strlcpy_spec 31) by (rewrite length_replicate; lia). cbn [mbind outcome_bind].
  rewrite (strlcpy_spec 31) by (rewrite length_replicate; lia). cbn [mbind outcome_bind].
  rewrite (limited_more 31 1023 (str "recovery" ++ _)) by (simpl; lia).
  assert (Hlen : (1023 < length (replicate 1024 0%Z))%nat) by (rewrite length_replicate; lia).
  destruct send_intent as [intent|]; [|reflexivity].
  apply Forall_cons_1 in Hargs as [_ Hargs]. apply Forall_cons_1 in Hargs as [[_ Hi] _]. apply Forall_app in Hi as [_ Hi].
  assert (Hz : Forall (λ c, c ≠ 0) intent) by (eapply Forall_impl; [exact Hi|]; by intros c [? _]).
  assert (Hfix : Forall (λ c, c ≠ 0) (str "recovery" ++ [10] ++ str "--wipe_cache" ++ [10])) by by repeat constructor.
  assert (Hopt : Forall (λ c, c ≠ 0) (str "--send_intent=")) by by repeat constructor.
  unfold intent_text. rewrite (strlcat_spec 1023) by done. cbn [mbind outcome_bind].
  rewrite (strlcat_spec 1023) by (done || by apply Forall_app). cbn [mbind outcome_bind].
  rewrite (strlcat_spec 1023) by (done || (apply Forall_app; split; [by apply Forall_app|done])). cbn [mbind outcome_bind mret outcome_ret].
  do 2 f_equal. f_equal. unfold args_text, wipe_args. cbn [mbind list_bind]. by rewrite <- !app_assoc.
Qed.
Lemma update_message_spec type boot :
  message_ok boot → Forall (λ c, c ≠ 0) type →
  update_message type boot = Ret (mk_message (limited 31 (str "update-" ++ type) (command boot)) (status boot) (recovery boot)).
Proof. intros (Hc & _ & _) Ht. unfold update_message. by rewrite (strlcpy_spec 31) by lia. Qed.

Section restart.
Context {W : Type} `{FileSystem W} `{RootLaws W} `{StdioOS W} `{ScreenOS W}.
Context (lite cust : bool) (alloc_ok : Z → bool) (fuel : nat).
Context (Halloc : ∀ z, alloc_ok z = true).
Implicit Types (w : W) (s : Roots).

(** The misc partition of a device that works, as for the messages to the boot loader. *)
Context (misc : MtdEntry) (Hmisc : misc ∈ flash_parts) (Hname : e_name misc = str "misc").
Abbreviation p := (partition_of misc).
Context `{!MtdLaws p} `{!MtdReadable p} `{!MtdWritable p}.
Context (Hes : 0 < erase_size p) (Hsize : 0 ≤ p_size p) (Hsmall : p_size p + erase_size p < 2 ^ 31).
Context (Hfuel : (Z.to_nat (p_size p) < fuel)%nat).
Context (sizes : Z * Z) (write_size : Z) (Hinfo : ∀ fd w, MEMGETINFO fd w = Some (sizes, write_size)).
Context (Hpages : 3 * write_size ≤ erase_size p) (Hroom : 1088 ≤ 2 * write_size).
Context (Hlong : (6 * Z.to_nat write_size + 1 < fuel)%nat).
Context (Hmount : ∀ d mp f fl w k, block (sys_mount d mp f fl w).2 k = block w k)
  (Hchmod : ∀ q mode w k, block (sys_chmod q mode w).2 k = block w k)
  (Hmkdir : ∀ q mode w k, block (sys_mkdir q mode w).2 k = block w k).
Context (Hmounts : ∀ w, (length (mount_table w) ≤ 32)%nat).
Context (Hboot : ∀ w, Syscalls.sys_stat OR_IS_BOOTSTRAP_MARK w = None).
Abbreviation set_message := (set_bootloader_message lite cust alloc_ok fuel).

(** Unmounting, restarting and the calls on other devices leave the partition alone. *)
Abbreviation untouched := (λ w w', ∀ k, block w' k = block w k).
Context (Hapart : ∀ q, mtd_dev q ≠ mtd_dev p → confined q untouched (λ fd w, offset w fd = None)).
Context (Humount : ∀ mp w k, block (sys_umount mp w).2 k = block w k).
Context (Herases : Forall (λ e, e_erase e ≠ 0) flash_parts).
Context (Hreboot : ∀ w k, block (sys_reboot w).2 k = block w k).
Abbreviation format := (format_root_device lite cust alloc_ok fuel).
Abbreviation unmount := (ensure_root_path_unmounted lite cust alloc_ok).

(** From any state with this misc partition, the next start gets the instruction to wipe the cache
    and to report the intent. *)
Definition instructed (send_intent : option (list Z)) w : Prop :=
  ∀ w' s prog, stream misc w' = stream misc w → roots_ok s →
    ∃ boot s2 w2, choose_args lite cust alloc_ok fuel [prog] s w' = Ret (str "recovery" :: wipe_args send_intent, boot, s2, w2).

Lemma message_instructs send_intent boot s w s1 w1 :
  restartable (wipe_args send_intent) → message_ok boot → nonzero (message_bytes boot) = true →
  recovery boot = recovery (boot_message zero_message (wipe_args send_intent)) → roots_ok s →
  set_message boot s w = Ret (0, s1, w1) → instructed send_intent w1.
Proof.
  intros Hargs Hbok Hnz Hrec Hs Hset w' s' prog Hsame Hs'.
  assert (Hok : message_ok zero_message) by (unfold message_ok; cbn [command status recovery zero_message]; rewrite !length_replicate; lia).
  eapply set_message_kept in Hset as [_ Hget]; try eassumption.
  destruct (Hget zero_message s' w' Hs' Hsame) as (s3 & w3 & Hrun & _).
  eapply choose_recovery in Hrun as [boot'' Hrun]; [|exact Hargs|exact Hok|exact Hrec]. by exists boot'', s3, w3.
Qed.

Lemma rec_bind_inv {A B} (x : Rec W A) (k : A → Rec W B) m r :
  (x ≫= k) m = Ret r → ∃ a m1, x m = Ret (a, m1) ∧ k a m1 = Ret r.
Proof. unfold mbind, Rec_bind. destruct (x m) as [[a m1]| |]; [|done..]. eauto. Qed.
Lemma on_system_inv {A} (f : Roots → W → outcome (A * Roots * W)) m a m' :
  on_system f m = Ret (a, m') → ∃ s w, f (m_roots m) (m_world m) = Ret (a, s, w) ∧ m' = set_system w s m.
Proof. unfold on_system. destruct (f _ _) as [[[b s] w]| |]; [|done..]. intros [= <- <-]. eauto. Qed.
Lemma print_inv t (m m' : Machine W) u : print t m = Ret (u, m') → m_world m' = m_world m ∧ m_roots m' = m_roots m.
Proof. unfold print. destruct (ui_print _ _); [|done..]. by intros [= _ <-]. Qed.
Lemma copy_image_inv icon m a m' : ui_copy_image alloc_ok icon m = Ret (a, m') → m_world m' = m_world m ∧ m_roots m' = m_roots m.
Proof.
  unfold ui_copy_image. intros (w & m1 & [= <- <-] & Hrun)%rec_bind_inv. rewrite Halloc in Hrun. by injection Hrun as _ <-.
Qed.

Lemma write_firmware_untouched type data length m written m' :
  roots_ok (m_roots m) → write_firmware lite cust alloc_ok fuel type data length m = Ret (written, m') →
  (written = true → roots_ok (m_roots m')) ∧ untouched (m_world m) (m_world m').
Proof.
  intros Hs. unfold write_firmware.
  intros ([[[busy ?] ?] ?] & m1 & [Hw1 Hs1]%copy_image_inv & Hrun)%rec_bind_inv.
  apply rec_bind_inv in Hrun as ([[[fail width] height] bpp] & m2 & [Hw2 Hs2]%copy_image_inv & Hrun).
  apply rec_bind_inv in Hrun as ([] & m3 & [Hw3 Hs3]%print_inv & Hrun).
  apply rec_bind_inv in Hrun as (r & m4 & (s4 & w4 & Hwrite & ->)%on_system_inv & Hrun).
  rewrite Hw3, Hw2, Hw1, Hs3, Hs2, Hs1 in Hwrite.
  eapply write_update_untouched in Hwrite as [Hs4 Hb4]; try eassumption.
  destruct (negb _); [|by injection Hrun as <- <-].
  apply rec_bind_inv in Hrun as (w5 & m5 & [= <- <-] & Hrun).
  apply rec_bind_inv in Hrun as ([] & m6 & [Hw6 Hs6]%print_inv & Hrun).
  apply rec_bind_inv in Hrun as (r7 & m7 & (s7 & w7 & Hformat & ->)%on_system_inv & [= <- <-]). split; [done|].
  rewrite Hw6, Hs6 in Hformat. cbn [m_roots m_world set_system] in Hformat |- *.
  assert (Hf : wp (format (str "CACHE:") s4 w4) (λ '(_, _, w'), untouched w4 w')) by (eapply format_cache_untouched; eassumption).
  rewrite Hformat in Hf. intros k. by rewrite (Hf k), Hb4.
Qed.
Lemma unmount_machine root info mp m r m' :
  get_root_info_for_path lite cust root = Some info → r_mount_point info = Some mp →
  roots_ok (m_roots m) → on_system (unmount root) m = Ret (r, m') → roots_ok (m_roots m') ∧ untouched (m_world m) (m_world m').
Proof.
  intros Hget Hmp Hs (s & w & Hrun & ->)%on_system_inv.
  assert (∃ r s' w', unmount root (m_roots m) (m_world m) = Ret (r, s', w') ∧ roots_ok s' ∧ untouched (m_world m) w')
    as (r' & s' & w' & Hrun' & Hs' & Hb) by (eapply unmount_untouched; eassumption).
  rewrite Hrun in Hrun'. by injection Hrun' as <- <- <-.
Qed.

(** How the procedure ends: see below. *)
Definition update_ends type data length send_intent m (res : option Z) (m' : Machine W) : Prop :=
  ∃ boot r s w, wipe_message send_intent = Ret boot ∧ set_message boot (m_roots m) (m_world m) = Ret (r, s, w) ∧
    if r =? 0 then
      instructed send_intent w ∧
      ∃ written m2, write_firmware lite cust alloc_ok fuel type data length (set_system w s m) = Ret (written, m2) ∧
        stream misc (m_world m2) = stream misc w ∧
        if written : bool then
          ∃ boot' r' s' w', update_message type boot = Ret boot' ∧
            set_message boot' (m_roots m2) (m_world m2) = Ret (r', s', w') ∧
            if r' =? 0 then instructed send_intent w' ∧ stream misc (m_world m') = stream misc w' ∧ (res = None ∨ res = Some (-1))
            else res = Some (-1) ∧ ∃ rf, format (str "CACHE:") s' w' = Ret (rf, m_roots m', m_world m')
        else res = Some (-1) ∧ m' = m2
    else res = Some (-1) ∧ m' = set_system w s m.

End restart.

(** ** A radio image *)
Module FirmwareDemo.
Abbreviation chip := RestartDemo.chip.
#[export] Existing Instances RestartDemo.stdio_os RestartDemo.file_system
  MiscDemo.mount_os MiscDemo.driver MiscDemo.os MiscDemo.root_os MiscDemo.root_laws
  MiscDemo.flash_laws MiscDemo.readable MiscDemo.writable.
#[export] Instance screen_os : ScreenOS chip := {
  gr_fb_width := 2; gr_fb_height := 1; background_pixels _ _ := [1; 2; 3; 4]; errno_text _ := str "I/O error"; sys_reboot w := (true, w)
}.
Definition intent : option (list Z) := Some (str "done").
Definition machine : Machine chip :=
  mk_machine MiscDemo.blank MiscDemo.state0 (mk_package None None) (log_init 480 854) no_menu [] false 0 initial []
    (mk_firmware (Some (str "radio")) (Some [0]) 1) 0.
Definition run : outcome (option Z * Machine chip) :=
  maybe_install_firmware_update false false (λ _, true) MiscDemo.fuel intent machine.
End FirmwareDemo.

Section witness.
Import FirmwareDemo.
End witness.
