(* ===== verification/Install.v ===== *)
(** * Install

    install.c: what recovery does with a package: it runs the updater of the package, or of its
    own, and does what the updater asks for through the pipe. *)
From stdpp Require Import relations.
From S2P Require Import Prelude CString ZipParse DirUtil ZipExtract Syscalls Mtdutils Mounts Roots Lines Args.
From S2P Require Import Terminal Ui Input Machine Select Shell Firmware.

Definition INSTALL_SUCCESS : Z := 0.
Definition INSTALL_ERROR : Z := 1.
Definition INSTALL_CORRUPT : Z := 2.
Definition ASSUMED_UPDATE_BINARY_NAME : list Z := str "META-INF/com/google/android/update-binary".
Definition DEFAULT_UPDATE_BINARY_NAME : list Z := str "/sbin/updater".
Definition ASSUMED_OR_UPDATE_SCRIPT_NAME : list Z := str "META-INF/update-or.sh".
Definition OR_UPDATE_EXTRACT_DIR_NAME : list Z := str "/sdcard/OpenRecovery/tmp/update".
Definition OR_SCRIPT_UPDATER_NAME : list Z := str "/sbin/script-updater".

(** ** Commands of the updater *)
Inductive command :=
  | Progress (fraction : list Z) (seconds : Z)
  | SetProgress (fraction : list Z)
  | FirmwareUpdate (type filename : list Z)
  | FirmwareIncomplete
  | UiPrint (s : option (list Z))
  | NoCommand
  | UnknownCommand (name : list Z).

(** A number that is missing is a null pointer for [strtof] and [strtol]. *)
Definition parse_command (line : list Z) : outcome command :=
  '(command, buffer, last) ← strtok [32; 10] (line ++ [0]) (Some 0%nat);
  match command with
  | None => mret NoCommand
  | Some command =>
      if strcmp command (str "progress") =? 0 then
        '(fraction_s, buffer, last) ← strtok [32; 10] buffer last;
        '(seconds_s, _, _) ← strtok [32; 10] buffer last;
        fraction_s ← of_option NullPointer fraction_s;
        seconds_s ← of_option NullPointer seconds_s;
        mret (Progress fraction_s (fst (strtol seconds_s)))
      else if strcmp command (str "set_progress") =? 0 then
        '(fraction_s, _, _) ← strtok [32; 10] buffer last;
        fraction_s ← of_option NullPointer fraction_s;
        mret (SetProgress fraction_s)
      else if strcmp command (str "firmware") =? 0 then
        '(type, buffer, last) ← strtok [32; 10] buffer last;
        '(filename, _, _) ← strtok [32; 10] buffer last;
        mret match type, filename with Some type, Some filename => FirmwareUpdate type filename | _, _ => FirmwareIncomplete end
      else if strcmp command (str "ui_print") =? 0 then
        '(s, _, _) ← strtok [10] buffer last;
        mret (UiPrint s)
      else mret (UnknownCommand command)
  end.

(** What [ui_print] makes of a text that is its format: conversions read arguments that it was not
    given. *)
Fixpoint format_alone (s : list Z) : outcome (list Z) :=
  match s with
  | [] => mret []
  | 37 :: s => match s with 37 :: s => rest ← format_alone s; mret (37 :: rest) | _ => Fault OutOfBounds end
  | c :: s => rest ← format_alone s; mret (c :: rest)
  end.

Section commands.
Context {W : Type} `{ScreenOS W}.
Implicit Types (firmware : option (list Z * list Z)).

Definition execute (c : command) firmware : Rec W (option (list Z * list Z)) :=
  match c with
  | Progress fraction seconds => _ ← progress (show_progress fraction seconds); mret firmware
  | SetProgress fraction => _ ← progress (set_progress fraction); mret firmware
  | FirmwareUpdate type filename =>
      match firmware with
      | Some _ => _ ← LOGE (str "ignoring attempt to do multiple firmware updates"); mret firmware
      | None => mret (Some (type, filename))
      end
  | UiPrint (Some s) => s ← pure (format_alone s); _ ← print s; mret firmware
  | UiPrint None => _ ← print [10]; mret firmware
  | UnknownCommand name => _ ← LOGE (str "unknown command [" ++ name ++ str "]" ++ [10]); mret firmware
  | FirmwareIncomplete | NoCommand => mret firmware
  end.

(** The lines of [text]; [n] bounds their number. *)
Fixpoint command_loop (n : nat) (text : list Z) firmware : Rec W (option (list Z * list Z)) :=
  match n with
  | O => pure Diverge
  | S n =>
      match fgets 1023 text with
      | None => mret firmware
      | Some (line, text) =>
          c ← pure (parse_command line);
          firmware ← execute c firmware;
          command_loop n text firmware
      end
  end.
End commands.

(** ** Packages *)

(** Files that are read, with the place in them; programs that are run. *)
Class InstallOS (F W : Type) := {
  package_env : list Z → W → FileEnv;
  package_file : list Z → W → F;
  (** the number of the descriptor that the program writes to *)
  pipe_number : W → Z;
  (** what it writes, whether it exited, and its status *)
  run_binary : list (list Z) → W → list Z * bool * Z * W
}.

Section code.
Context `{KeyCodes} {F W : Type} `{ArchiveFile F} `{Zlib} `{SafeIop}.
Context `{FileSystem W} `{FileWriter W} `{MountOS W} `{MtdDriver W} `{PatchOS W} `{RootOS W} `{StdioOS W} `{ScreenOS W} `{ShellOS W}.
Context `{InstallOS F W}.
Context (OPEN_RCVR_VERSION_LITE HAVE_CUST : bool) (RECOVERY_API_VERSION : list Z) (MENU_TITLE : list (list Z)).
Context (alloc_ok : Z → bool) (fuel tries : nat).
Implicit Types (f : F) (zip : ZipArchive).
Abbreviation run_script := (run_shell_script MENU_TITLE fuel).

Definition find_entry zip (name : list Z) : outcome (option ZipEntry) :=
  p ← mzFindZipEntry zip name;
  match p with
  | ZNull => mret None
  | ZTomb | ZName _ => Fault OutOfBounds
  | ZEntry i => mret (Some (entry_at (za_pEntries zip) i))
  end.

Definition quote (s : list Z) : list Z := [34] ++ s ++ [34].

(** The data, if they could be read: of an entry of the package, or of a file. *)
Definition entry_data zip f (name : list Z) : Rec W (option (list Z * Z) * F) :=
  entry ← pure (find_entry zip name);
  match entry with
  | None => _ ← LOGE (str "Failed to find " ++ quote name ++ str " in package"); mret (None, f)
  | Some entry =>
      let data_size := u32 (uncompLen entry) in
      if negb (alloc_ok data_size) then mret (None, f)
      else
        '(ok, f, data) ← pure (mzReadZipEntry fuel f entry (replicate (Z.to_nat data_size) 0) (s32 data_size));
        if ok : bool then mret (Some (data, data_size), f)
        else _ ← LOGE (str "Failed to read " ++ quote name ++ str " from package"); mret (None, f)
  end.
Definition file_data (filename : list Z) : Rec W (option (list Z * Z)) :=
  w ← get m_world;
  match Syscalls.sys_stat filename w with
  | None => _ ← LOGE (str "Error stat'ing " ++ filename ++ str ": " ++ errno_text w ++ [10]); mret None
  | Some st =>
      let data_size := u32 (st_size st) in
      if negb (alloc_ok data_size) then mret None
      else
        match sys_fread filename data_size w with
        | None => _ ← LOGE (str "Failed to open " ++ filename ++ str ": " ++ errno_text w ++ [10]); mret None
        | Some data =>
            if zlen data =? data_size then mret (Some (data, data_size))
            else _ ← LOGE (str "Failed to read firmware data: " ++ errno_text w ++ [10]); mret None
        end
  end.

Definition handle_firmware_update (type filename : list Z) zip f : Rec W (Z * F) :=
  '(data, f) ← (if strncmp 8 filename (str "PACKAGE:") =? 0 then entry_data zip f (drop 8 filename)
                else data ← file_data filename; mret (data, f));
  match data with
  | None => mret (INSTALL_ERROR, f)
  | Some (data, data_size) =>
      r ← remember_firmware_update type data (s32 data_size);
      if negb (r =? 0) then _ ← LOGE (str "Can't store " ++ type ++ str " image" ++ [10]); mret (INSTALL_ERROR, f)
      else mret (INSTALL_SUCCESS, f)
  end.

(** *** Packages with a shell script *)

(** [strncat] into the buffer of [len] and one characters. *)
Definition append_to (len : nat) (path_inc s : list Z) : outcome (list Z) :=
  let r := path_inc ++ take len s in if (length r <=? len)%nat then mret r else Fault OutOfBounds.
(** [n] bounds the number of names in the path. *)
Fixpoint mkdir_levels (n len : nat) (path_inc buffer : list Z) (last : option nat) (w : W) : outcome (Z * W) :=
  match n with
  | O => Diverge
  | S n =>
      let '(st, w) := DirUtil.sys_stat path_inc w in
      let '(stop, w) := match st with
        | inl _ => (false, (DirUtil.sys_mkdir path_inc 493 w).2)
        | inr mode => (negb (S_ISDIR mode), w)
        end in
      if stop : bool then mret (1, w)
      else
        '(tok, buffer, last) ← strtok [47] buffer last;
        match tok with
        | None => mret (0, w)
        | Some tok =>
            path_inc ← append_to len path_inc [47];
            path_inc ← append_to len path_inc tok;
            mkdir_levels n len path_inc buffer last w
        end
  end.
Definition mkdir_recursive (path : list Z) (w : W) : outcome (Z * W) :=
  let len := length path in
  if bool_decide (path = []) then mret (2, w)
  else
    '(tok, buffer, last) ← strtok [47] (path ++ [0]) (Some 0%nat);
    path_inc ← append_to len [] [47];
    tok ← of_option NullPointer tok;
    path_inc ← append_to len path_inc tok;
    mkdir_levels (S len) len path_inc buffer last w.

Definition rm_rf : list Z := str "rm -rf " ++ OR_UPDATE_EXTRACT_DIR_NAME.
Definition run_updater_script : list Z :=
  OR_SCRIPT_UPDATER_NAME ++ str " " ++ quote (OR_UPDATE_EXTRACT_DIR_NAME ++ str "/" ++ ASSUMED_OR_UPDATE_SCRIPT_NAME) ++
    str " " ++ quote OR_UPDATE_EXTRACT_DIR_NAME.

Definition on_world_o {A} (g : W → outcome (A * W)) : Rec W A := λ m,
  '(a, w) ← g (m_world m); Ret (a, set_system w (m_roots m) m).

Definition handle_or_update zip f : Rec W (Z * F) :=
  _ ← print (str "Extracting archive..." ++ [10]);
  _ ← run_script (Some rm_rf) false [];
  r ← on_world_o (mkdir_recursive OR_UPDATE_EXTRACT_DIR_NAME);
  if negb (r =? 0) then
    _ ← LOGE (str "Failed creating: " ++ OR_UPDATE_EXTRACT_DIR_NAME ++ [10]); mret (INSTALL_ERROR, f)
  else
    '(ok, f) ← on_world_o (λ w,
      '(ok, f, w, _) ← mzExtractRecursive alloc_ok fuel tries 0 None None (za_pEntries zip) f [] OR_UPDATE_EXTRACT_DIR_NAME w tt;
      mret ((ok, f), w));
    if negb ok then
      _ ← LOGE (str "Failed extracting the archive." ++ [10]);
      _ ← run_script (Some rm_rf) false [];
      mret (1, f)
    else
      _ ← run_script (Some run_updater_script) true [];
      _ ← run_script (Some rm_rf) false [];
      mret (INSTALL_SUCCESS, f).

(** *** Packages with an updater *)

(** The program to run. *)
Definition updater_binary zip f : Rec W (option (list Z) * F) :=
  binary_entry ← pure (find_entry zip ASSUMED_UPDATE_BINARY_NAME);
  _ ← when (bool_decide (binary_entry = None)) (print (str "Using default updater..." ++ [10]));
  let binary := str "/tmp/update_binary" in
  _ ← on_world (Syscalls.sys_unlink binary);
  match binary_entry with
  | None => mret (Some DEFAULT_UPDATE_BINARY_NAME, f)
  | Some entry =>
      fd ← on_world (sys_creat binary 493);
      match fd with
      | inl _ => _ ← LOGE (str "Can't make " ++ binary ++ [10]); mret (None, f)
      | inr fd =>
          '(ok, f) ← on_world_o (λ w,
            '(ok, f, w) ← mzExtractZipEntryToFile fuel tries f entry fd w; mret ((ok, f), ZipExtract.sys_close fd w));
          if ok : bool then mret (Some binary, f)
          else _ ← LOGE (str "Can't copy " ++ ASSUMED_UPDATE_BINARY_NAME ++ [10]); mret (None, f)
      end
  end.

(** What the program writes is read while it runs. *)
Definition run_updater (binary path : list Z) zip f : Rec W (Z * F) :=
  _ ← progress show_indeterminate_progress;
  w ← get m_world;
  '(text, exited, status) ← on_world (λ w,
    let '(text, exited, status, w) := run_binary [binary; RECOVERY_API_VERSION; decimal (pipe_number w); path] w in
    ((text, exited, status), w));
  _ ← progress (set_progress (str "0.0"));
  firmware ← command_loop (S (length text)) text None;
  if negb exited || negb (status =? 0) then
    _ ← LOGE (str "Error in " ++ path ++ [10] ++ str "(Status " ++ decimal status ++ str ")" ++ [10]); mret (INSTALL_ERROR, f)
  else
    match firmware with
    | Some (type, filename) => handle_firmware_update type filename zip f
    | None => mret (INSTALL_SUCCESS, f)
    end.

Definition try_update_binary (path : list Z) zip f : Rec W (Z * F) :=
  or_script_entry ← pure (find_entry zip ASSUMED_OR_UPDATE_SCRIPT_NAME);
  match or_script_entry with
  | Some _ => _ ← print (str "Using shell script..." ++ [10]); handle_or_update zip f
  | None =>
      '(binary, f) ← updater_binary zip f;
      match binary with
      | None => mret (1, f)
      | Some binary => run_updater binary path zip f
      end
  end.

Definition handle_update_package (path : list Z) zip f : Rec W Z :=
  _ ← print (str "Installing update..." ++ [10]);
  '(result, _) ← try_update_binary path zip f;
  g ← get m_package;
  _ ← set_package_root (snd (register_package_root alloc_ok None [] g));
  mret result.

Definition install_package (root_path : list Z) : Rec W Z :=
  _ ← set_background BACKGROUND_ICON_INSTALLING;
  _ ← print (str "Finding update package..." ++ [10]);
  r ← on_system (ensure_root_path_mounted OPEN_RCVR_VERSION_LITE HAVE_CUST alloc_ok root_path);
  if negb (r =? 0) then _ ← LOGE (str "Can't mount " ++ root_path ++ [10]); mret INSTALL_CORRUPT
  else
    path ← pure (translated OPEN_RCVR_VERSION_LITE HAVE_CUST root_path);
    match path with
    | None => _ ← LOGE (str "Bad path " ++ root_path ++ [10]); mret INSTALL_CORRUPT
    | Some path =>
        _ ← print (str "Opening update package..." ++ [10]);
        w ← get m_world;
        '(err, zip, _) ← pure (mzOpenZipArchive alloc_ok (package_env path w));
        if negb (err =? 0) then
          _ ← LOGE (str "Can't open " ++ path ++ [10] ++ str "(" ++ (if err =? -1 then str "bad" else errno_text w) ++ str ")" ++ [10]);
          mret INSTALL_CORRUPT
        else handle_update_package path zip (package_file path w)
    end.
End code.
