(* ===== verification/Pipe.v ===== *)
(** * Pipe

    What the updater writes to its pipe, recovery understands. *)
From stdpp Require Import relations.
From S2P Require Import Prelude CString ZipParse ZipExtract DirUtil Syscalls Mtdutils Mounts Roots Edify Bspatch Imgpatch Applypatch Updater.
From S2P Require Import Lines Args Terminal Ui Input Machine Select Shell Firmware Install.

(** The lines that the functions of the updater and its [main] write. *)
Inductive message :=
  | Say (line : list Z)
  | EndSay
  | ShowProgress (fraction seconds : list Z)
  | Fraction (fraction : list Z).
Definition written (m : message) : list Z :=
  match m with
  | Say line => str "ui_print " ++ line ++ [10]
  | EndSay => str "ui_print" ++ [10]
  | ShowProgress fraction seconds => str "progress " ++ fraction ++ str " " ++ seconds ++ [10]
  | Fraction fraction => str "set_progress " ++ fraction ++ [10]
  end.
Definition meant (m : message) : command :=
  match m with
  | Say line => UiPrint (Some line)
  | EndSay => UiPrint None
  | ShowProgress fraction seconds => Progress fraction (strtol seconds).1
  | Fraction fraction => SetProgress fraction
  end.
(** Lines have no break, and numbers no blank; the buffer has room for them. *)
Definition line_ok (s : list Z) : Prop := s ≠ [] ∧ Forall (λ c, c ≠ 0 ∧ c ≠ 10) s.
Definition number_ok (s : list Z) : Prop := s ≠ [] ∧ Forall (λ c, c ≠ 0 ∧ c ≠ 10 ∧ c ≠ 32) s.
Definition message_fits (m : message) : Prop :=
  (length (written m) ≤ 1023)%nat ∧
  match m with
  | Say line => line_ok line
  | EndSay => True
  | ShowProgress fraction seconds => number_ok fraction ∧ number_ok seconds
  | Fraction fraction => number_ok fraction
  end.

Lemma number_token s : number_ok s → s ≠ [] ∧ Forall (λ c, c ∉ [32; 10]) s ∧ Forall (λ c, c ≠ 0) s.
Proof.
  intros [Hne Hs]. split; [done|]. split; (eapply Forall_impl; [exact Hs|]); intros c (H0 & H10 & H32); [|done].
  rewrite !not_elem_of_cons. repeat split; [done|done|by apply not_elem_of_nil].
Qed.
Lemma line_token s : line_ok s → s ≠ [] ∧ Forall (λ c, c ∉ [10]) s ∧ Forall (λ c, c ≠ 0) s.
Proof.
  intros [Hne Hs]. split; [done|]. split; (eapply Forall_impl; [exact Hs|]); intros c (H0 & H10); [|done].
  rewrite !not_elem_of_cons. repeat split; [done|by apply not_elem_of_nil].
Qed.

Lemma first_word w d rest :
  number_ok w → d ∈ [32; 10] → d ≠ 0 → Forall (λ c, c ≠ 0) rest →
  strtok [32; 10] ((w ++ d :: rest) ++ [0]) (Some 0%nat) = Ret (Some w, (w ++ [0]) ++ rest ++ [0], Some (length (w ++ [0]))).
Proof.
  intros Hw Hd Hd0 Hrest. apply number_token in Hw as (Hne & Hin & Hz).
  apply (strtok_token [32; 10] [] w d rest [] 0); [done|done|done|done|]. apply Forall_app. split; [done|by constructor].
Qed.
Lemma next_word pre w d rest :
  number_ok w → d ∈ [32; 10] → d ≠ 0 → Forall (λ c, c ≠ 0) rest →
  strtok [32; 10] (pre ++ (w ++ d :: rest) ++ [0]) (Some (length pre)) =
    Ret (Some w, (pre ++ w ++ [0]) ++ rest ++ [0], Some (length (pre ++ w ++ [0]))).
Proof.
  intros Hw Hd Hd0 Hrest. apply number_token in Hw as (Hne & Hin & Hz).
  apply strtok_token; [done|done|done|done|]. apply Forall_app. split; [done|by constructor].
Qed.
Lemma number_zero w : number_ok w → Forall (λ c, c ≠ 0) w.
Proof. by intros (_ & _ & ?)%number_token. Qed.

Lemma parse_written m : message_fits m → parse_command (written m) = Ret (meant m).
Proof.
  intros [_ Hm]. unfold parse_command. destruct m as [line| |fraction seconds|fraction]; cbn [written meant].
  - apply line_token in Hm as (Hne & Hin & Hz).
    change (str "ui_print " ++ line ++ [10]) with (str "ui_print" ++ 32 :: (line ++ [10])).
    rewrite first_word; [|by repeat constructor|by left|done|apply Forall_app; split; [done|by repeat constructor]]. cbn [mbind outcome_bind].
    change (strcmp (str "ui_print") (str "progress")) with 5. change (strcmp (str "ui_print") (str "set_progress")) with 2.
    change (strcmp (str "ui_print") (str "firmware")) with 15. change (strcmp (str "ui_print") (str "ui_print")) with 0. cbn [Z.eqb].
    rewrite (strtok_token [10] _ line 10 [] []); [done|done|done|done|by left|]. apply Forall_app. split; [done|by repeat constructor].
  - change (str "ui_print" ++ [10]) with (str "ui_print" ++ 10 :: []).
    rewrite first_word; [|by repeat constructor|by right; left|done|constructor]. reflexivity.
  - destruct Hm as [Hf Hs]. pose proof (number_zero _ Hf). pose proof (number_zero _ Hs).
    change (str "progress " ++ fraction ++ str " " ++ seconds ++ [10]) with (str "progress" ++ 32 :: (fraction ++ 32 :: (seconds ++ 10 :: []))).
    rewrite first_word; [|by repeat constructor|by left|done|]; cycle 1.
    { apply Forall_app; split; [done|]. constructor; [done|]. apply Forall_app; split; [done|by repeat constructor]. }
    cbn [mbind outcome_bind]. change (strcmp (str "progress") (str "progress")) with 0. cbn [Z.eqb].
    rewrite next_word; [|done|by left|done|apply Forall_app; split; [done|by repeat constructor]]. cbn [mbind outcome_bind].
    rewrite next_word; [|done|by right; left|done|constructor]. done.
  - pose proof (number_zero _ Hm).
    change (str "set_progress " ++ fraction ++ [10]) with (str "set_progress" ++ 32 :: (fraction ++ 10 :: [])).
    rewrite first_word; [|by repeat constructor|by left|done|]; cycle 1.
    { apply Forall_app; split; [done|by repeat constructor]. }
    cbn [mbind outcome_bind]. change (strcmp (str "set_progress") (str "progress")) with 3. change (strcmp (str "set_progress") (str "set_progress")) with 0.
    cbn [Z.eqb]. rewrite next_word; [|done|by right; left|done|constructor]. done.
Qed.

Lemma written_line m : message_fits m → ∃ a, written m = a ++ [10] ∧ Forall (λ c, c ≠ 10) a ∧ (S (length a) ≤ 1023)%nat.
Proof.
  assert (Hnum : ∀ s, number_ok s → Forall (λ c, c ≠ 10) s).
  { intros s [_ Hs]. eapply Forall_impl; [exact Hs|]. by intros c (_ & ? & _). }
  intros [Hlen Hm].
  assert (Ha : ∃ a, written m = a ++ [10] ∧ Forall (λ c, c ≠ 10) a).
  { destruct m as [line| |fraction seconds|fraction]; cbn [written] in *.
    - exists (str "ui_print " ++ line). split; [done|]. apply Forall_app. split; [by repeat constructor|].
      destruct Hm as [_ Hs]. eapply Forall_impl; [exact Hs|]. by intros c [_ ?].
    - exists (str "ui_print"). split; [done|by repeat constructor].
    - destruct Hm as [Hf Hs]. exists (str "progress " ++ fraction ++ str " " ++ seconds). split; [by rewrite <- !app_assoc|].
      rewrite !Forall_app. split; [by repeat constructor|]. split; [by apply Hnum|]. split; [by repeat constructor|by apply Hnum].
    - exists (str "set_progress " ++ fraction). split; [done|]. apply Forall_app. split; [by repeat constructor|by apply Hnum]. }
  destruct Ha as (a & He & Ha). exists a. split; [done|]. split; [done|]. rewrite He, length_app in Hlen. simpl in Hlen. lia.
Qed.

(** ** Numbers *)
Lemma dec_digits_read fuel n :
  (fuel ≠ 0)%nat → 0 ≤ n < 10 ^ Z.of_nat fuel →
  Forall (λ c, is_digit c = true) (dec_digits fuel n) ∧ dec_digits fuel n ≠ [] ∧
  digits_value (dec_digits fuel n) = n ∧ (length (dec_digits fuel n) ≤ fuel)%nat.
Proof.
  revert n. induction fuel as [|fuel IH]; intros n H0 Hn; [done|]. clear H0.
  pose proof (Z.mod_pos_bound n 10 ltac:(lia)) as Hmod. pose proof (Z.div_mod n 10 ltac:(lia)) as Hdiv.
  assert (Hdigit : is_digit (48 + n mod 10) = true).
  { unfold is_digit. rewrite !(proj2 (Z.leb_le _ _)) by lia. done. }
  cbn [dec_digits]. destruct (Z.ltb_spec n 10) as [Hlt|Hge].
  - simpl. rewrite Z.mod_small by lia. unfold digits_value. cbn [foldl].
    repeat split; [constructor; [rewrite Z.mod_small in Hdigit by lia; done|constructor]|done|lia|lia].
  - destruct fuel as [|fuel]; [simpl in Hn; lia|].
    destruct (IH (n / 10) ltac:(done)) as (Hall & Hne & Hv & Hlen).
    { split; [apply Z.div_pos; lia|]. apply Z.div_lt_upper_bound; [lia|].
      rewrite Nat2Z.inj_succ, Z.pow_succ_r in Hn by lia. lia. }
    set (ds := dec_digits (S fuel) (n / 10)) in *. rewrite length_app. cbn [length]. repeat split.
    + apply Forall_app. split; [done|by constructor].
    + by intros [_ ?]%app_eq_nil.
    + unfold digits_value in *. rewrite foldl_app. rewrite Hv. cbn [foldl]. lia.
    + lia.
Qed.
Lemma word_digits n :
  0 ≤ n ≤ 2 ^ 31 →
  Forall (λ c, is_digit c = true) (dec_digits 20 n) ∧ dec_digits 20 n ≠ [] ∧
  digits_value (dec_digits 20 n) = n ∧ (length (dec_digits 20 n) ≤ 20)%nat.
Proof. intros Hn. apply dec_digits_read; [done|]. change (10 ^ Z.of_nat 20) with 100000000000000000000. lia. Qed.
Lemma digit_range c : is_digit c = true → 48 ≤ c ≤ 57.
Proof. unfold is_digit. intros [H1%Z.leb_le H2%Z.leb_le]%andb_true_iff. lia. Qed.
Lemma digit_not_space c : is_digit c = true → is_space c = false.
Proof.
  intros H%digit_range. unfold is_space. rewrite (proj2 (Z.eqb_neq _ _)) by lia. rewrite (proj2 (Z.leb_gt c 13)) by lia.
  by rewrite andb_false_r.
Qed.
Lemma count_digits ds : Forall (λ c, is_digit c = true) ds → count_while is_digit ds = length ds.
Proof. induction 1 as [|c ds Hc _ IH]; [done|]. simpl. by rewrite Hc, IH. Qed.

(** [strtol] reads what ["%d"] prints. *)
Lemma strtol_decimal v : - 2 ^ 31 ≤ v < 2 ^ 31 → (strtol (decimal v)).1 = v.
Proof.
  intros Hv. unfold decimal. destruct (Z.ltb_spec v 0) as [Hneg|Hpos].
  - destruct (word_digits (- v) ltac:(lia)) as (Hall & Hne & Hval & _).
    set (ds := dec_digits 20 (- v)) in *. unfold strtol. cbn [count_while]. change (is_space 45) with false. cbn iota.
    change (char_at (45 :: ds) 0) with 45. cbn [Z.eqb Pos.eqb orb drop]. rewrite drop_0, (count_digits ds Hall), firstn_all, Hval.
    rewrite bool_decide_eq_false_2 by (by intros ?%length_zero_iff_nil). cbn [fst]. lia.
  - destruct (word_digits v ltac:(lia)) as (Hall & Hne & Hval & _).
    set (ds := dec_digits 20 v) in *. clearbody ds. destruct ds as [|c ds]; [done|].
    pose proof (Forall_inv Hall) as Hc. pose proof (digit_range c Hc) as Hr. unfold strtol. cbn [count_while]. rewrite (digit_not_space c Hc).
    change (char_at (c :: ds) 0) with c.
    rewrite !(proj2 (Z.eqb_neq c _)) by lia. cbn [orb]. rewrite drop_0, (count_digits (c :: ds) Hall), firstn_all, Hval.
    rewrite bool_decide_eq_false_2 by done. cbn [fst]. lia.
Qed.
Lemma decimal_number v : - 2 ^ 31 ≤ v < 2 ^ 31 → number_ok (decimal v) ∧ (length (decimal v) ≤ 21)%nat.
Proof.
  intros Hv.
  assert (Hds : ∀ n, 0 ≤ n ≤ 2 ^ 31 → number_ok (dec_digits 20 n) ∧ (length (dec_digits 20 n) ≤ 20)%nat).
  { intros n Hn. destruct (word_digits n ltac:(lia)) as (Hall & Hne & _ & Hlen). repeat split; [done| |done].
    eapply Forall_impl; [exact Hall|]. intros c Hc%digit_range. lia. }
  unfold decimal. destruct (Z.ltb_spec v 0).
  - destruct (Hds (- v) ltac:(lia)) as [[Hne Hall] Hlen]. repeat split; [done|by constructor|cbn [length]; lia].
  - destruct (Hds v ltac:(lia)) as [[Hne Hall] Hlen]. repeat split; [done|done|lia].
Qed.
Lemma strtol_range s : - 2 ^ 31 ≤ (strtol s).1 < 2 ^ 31.
Proof. unfold strtol. destruct (bool_decide _); cbn [fst]; lia. Qed.

(** ** Lines *)

(** The lines of a text: what is between its breaks, without the empty ones. *)
Inductive has_lines : list Z → list (list Z) → Prop :=
  | lines_none : has_lines [] []
  | lines_break s ls : has_lines s ls → has_lines (10 :: s) ls
  | lines_last l : line_ok l → has_lines l [l]
  | lines_line l s ls : line_ok l → has_lines s ls → has_lines (l ++ 10 :: s) (l :: ls).

Lemma split_lines_line l cur s : Forall (λ c, c ≠ 10) l → split_lines (l ++ 10 :: s) cur = (cur ++ l) :: split_lines s [].
Proof.
  intros Hl. revert cur. induction Hl as [|c l Hc _ IH]; intros cur; [by rewrite app_nil_r|].
  cbn [app split_lines]. rewrite (proj2 (Z.eqb_neq c 10) Hc), IH, <- app_assoc. done.
Qed.
Lemma split_lines_last l cur : Forall (λ c, c ≠ 10) l → split_lines l cur = [cur ++ l].
Proof.
  intros Hl. revert cur. induction Hl as [|c l Hc _ IH]; intros cur; [by rewrite app_nil_r|].
  cbn [split_lines]. rewrite (proj2 (Z.eqb_neq c 10) Hc), IH, <- app_assoc. done.
Qed.
Lemma line_unbroken l : line_ok l → Forall (λ c, c ≠ 10) l.
Proof. intros [_ Hl]. eapply Forall_impl; [exact Hl|]. by intros c [_ ?]. Qed.
Lemma has_lines_split s ls : has_lines s ls → lines s = ls ∧ Forall line_ok ls.
Proof.
  unfold lines. induction 1 as [|s ls _ IH|l Hl|l s ls Hl _ [IH Hls]]; [done|exact IH| |].
  - rewrite split_lines_last by (by apply line_unbroken). split; [|by constructor]. cbn [app].
    rewrite filter_cons_True by apply Hl. done.
  - rewrite split_lines_line by (by apply line_unbroken). cbn [app]. rewrite filter_cons_True by apply Hl.
    split; [by rewrite IH|by constructor].
Qed.

(** ** What the updater does *)

(** The functions of scripts that write to the pipe, with their arguments, and what [main] writes
    about a script without a result. *)
Inductive saying :=
  | ShowsProgress (frac_str sec_str : list Z)
  | SetsProgress (frac_str : list Z)
  | Prints (args : list (list Z))
  | Reports (errmsg : option (list Z)).

Section sayings.
Context {F V : Type} `{UpdaterOS V}.
Implicit Types (u : Updater F V).

Definition say_it (x : saying) u : outcome (Updater F V) :=
  match x with
  | ShowsProgress frac_str sec_str => '(_, u) ← show_progress_body frac_str sec_str u; mret u
  | SetsProgress frac_str => '(_, u) ← set_progress_body frac_str u; mret u
  | Prints args => '(_, u) ← ui_print_body args u; mret u
  | Reports errmsg => mret (report errmsg u)
  end.
Fixpoint say_all (xs : list saying) u : outcome (Updater F V) :=
  match xs with
  | [] => mret u
  | x :: xs => u ← say_it x u; say_all xs u
  end.

(** What recovery is asked to do: the number and the time for progress; each line of a text, and then
    the end of the text. Lines have room in the buffer of [try_update_binary], of 1024 bytes. *)
Definition shown (l : list Z) : command := UiPrint (Some l).
Definition short (l : list Z) : Prop := (length l ≤ 1013)%nat.
Inductive asks : saying → list command → Prop :=
  | asks_progress f s : asks (ShowsProgress f s) [Progress (show_fraction f) (strtol s).1]
  | asks_fraction f : asks (SetsProgress f) [SetProgress (show_fraction f)]
  | asks_lines args ls : has_lines (concat args) ls → Forall short ls → asks (Prints args) ((shown <$> ls) ++ [UiPrint None])
  | asks_error m ls : has_lines m ls → Forall short ls → asks (Reports (Some m)) ((shown <$> ls) ++ [UiPrint None])
  | asks_aborted : asks (Reports None) [shown (str "script aborted (no error message)")].

(** [%f] prints a number without blanks, and of at most 317 characters. *)
Context (Hfraction : ∀ s, number_ok (show_fraction s) ∧ (length (show_fraction s) ≤ 317)%nat).

Lemma send_lines_pipe ls u : cmd_pipe (send_lines ls u) = cmd_pipe u ++ (written ∘ Say <$> ls).
Proof.
  revert u. induction ls as [|l ls IH]; intros u; [by rewrite app_nil_r|]. cbn [send_lines]. rewrite IH.
  cbn [cmd_pipe send]. rewrite <- app_assoc. done.
Qed.
Lemma lines_fit ls : Forall line_ok ls → Forall short ls → Forall message_fits ((Say <$> ls) ++ [EndSay]).
Proof.
  intros Hok Hshort. apply Forall_app. split; [|by constructor; [split; [cbn; lia|done]|constructor]].
  apply Forall_fmap. eapply Forall_impl; [exact (proj2 (Forall_and _ _) (conj Hok Hshort))|].
  intros l [Hl Hs]. split; [|exact Hl]. unfold short in Hs. cbn [written compose]. rewrite !length_app. cbn [length str]. simpl. lia.
Qed.
Lemma meant_lines ls : meant <$> ((Say <$> ls) ++ [EndSay]) = (shown <$> ls) ++ [UiPrint None].
Proof. rewrite fmap_app, <- list_fmap_compose. done. Qed.

(** Each of them writes messages that fit, which mean what is asked. *)
Lemma say_it_asks x cs u :
  asks x cs →
  ∃ ms u', say_it x u = Ret u' ∧ cmd_pipe u' = cmd_pipe u ++ (written <$> ms) ∧ Forall message_fits ms ∧ meant <$> ms = cs.
Proof.
  intros Hasks. inversion Hasks as [f s|f|args ls Hls Hshort|t ls Hls Hshort|]; subst.
  - destruct (Hfraction f) as [Hf Hflen]. destruct (decimal_number _ (strtol_range s)) as [Hn Hnlen].
    exists [ShowProgress (show_fraction f) (decimal (strtol s).1)]. eexists. repeat split; [|].
    + constructor; [|constructor]. split; [|done]. cbn [written]. rewrite !length_app. simpl. lia.
    + cbn [fmap list_fmap meant]. by rewrite (strtol_decimal _ (strtol_range s)).
  - destruct (Hfraction f) as [Hf Hflen]. exists [Fraction (show_fraction f)]. eexists. repeat split.
    constructor; [|constructor]. split; [|done]. cbn [written]. rewrite !length_app. simpl. lia.
  - destruct (has_lines_split _ _ Hls) as [Heq Hok]. exists ((Say <$> ls) ++ [EndSay]). eexists. split; [reflexivity|].
    rewrite Heq, fmap_app, <- list_fmap_compose. cbn [cmd_pipe send]. rewrite send_lines_pipe, <- app_assoc.
    repeat split; [by apply lines_fit|apply meant_lines].
  - destruct (has_lines_split _ _ Hls) as [Heq Hok]. exists ((Say <$> ls) ++ [EndSay]). eexists. split; [reflexivity|].
    unfold report. rewrite Heq, fmap_app, <- list_fmap_compose. cbn [cmd_pipe send]. rewrite send_lines_pipe, <- app_assoc.
    repeat split; [by apply lines_fit|apply meant_lines].
  - exists [Say (str "script aborted (no error message)")]. eexists. repeat split.
    constructor; [|constructor]. repeat split; [cbn; lia|done|by repeat constructor].
Qed.
Lemma say_all_asks xs css u :
  Forall2 asks xs css →
  ∃ ms u', say_all xs u = Ret u' ∧ cmd_pipe u' = cmd_pipe u ++ (written <$> ms) ∧ Forall message_fits ms ∧ meant <$> ms = concat css.
Proof.
  intros Hxs. revert u. induction Hxs as [|x cs xs css Hx _ IH]; intros u.
  - exists [], u. cbn. by rewrite app_nil_r.
  - destruct (say_it_asks x cs u Hx) as (ms1 & u1 & Hrun1 & Hpipe1 & Hfit1 & Hm1).
    destruct (IH u1) as (ms2 & u2 & Hrun2 & Hpipe2 & Hfit2 & Hm2).
    exists (ms1 ++ ms2), u2. cbn [say_all concat]. rewrite Hrun1. cbn [mbind outcome_bind]. rewrite !fmap_app, Hm1, Hm2.
    split; [done|]. split; [by rewrite Hpipe2, Hpipe1, <- app_assoc|]. split; [by apply Forall_app|done].
Qed.
End sayings.

(** ** What recovery does *)
Section execution.
Context {W : Type} `{ScreenOS W}.

(** One after the other. *)
Fixpoint execute_all (cs : list command) (firmware : option (list Z * list Z)) : Rec W (option (list Z * list Z)) :=
  match cs with
  | [] => mret firmware
  | c :: cs => firmware ← execute c firmware; execute_all cs firmware
  end.

Lemma messages_executed ms firmware n (m : Machine W) :
  Forall message_fits ms → (length ms < n)%nat →
  command_loop n (ms ≫= written) firmware m = execute_all (meant <$> ms) firmware m.
Proof.
  intros Hms. revert n firmware m. induction Hms as [|x ms Hx Hms IH]; intros n firmware m Hn.
  - destruct n as [|n]; [simpl in Hn; lia|]. done.
  - destruct n as [|n]; [simpl in Hn; lia|]. cbn [command_loop fmap list_fmap execute_all].
    destruct (written_line x Hx) as (a & He & Ha & Hlen). pose proof (parse_written x Hx) as Hp. rewrite He in Hp.
    cbn [mbind list_bind]. rewrite He, <- app_assoc. cbn [app]. rewrite fgets_line by done.
    rewrite (run_bind _ _ _ _ _ (run_pure _ _ _ Hp)).
    unfold mbind, Rec_bind. destruct (execute (meant x) firmware m) as [[fw m']| |]; simpl; [|done..]. apply IH. simpl in Hn. lia.
Qed.
Lemma written_length ms : (length ms ≤ length (ms ≫= written))%nat.
Proof.
  induction ms as [|x ms IH]; [done|]. cbn [mbind list_bind length] in *. rewrite length_app.
  assert (1 ≤ length (written x))%nat; [|lia]. destruct x; cbn [written]; rewrite ?length_app; simpl; lia.
Qed.

(** C13: What the updater says is what recovery does. However a script mixes the functions
    [show_progress], [set_progress] and [ui_print], and whatever error message ends it, what they
    write to the pipe makes the loop of [try_update_binary] execute exactly these commands in their
    order: progress with the number and the time, each line of a text, the end of the text. The lines
    of the texts have at most 1013 bytes each (longer ones are split by the buffer of 1024 bytes and
    misread), the texts no NUL; ["%f"] prints at most 317 characters without blanks. *)
Theorem updater_understood {F V} `{UpdaterOS V} xs css (u : Updater F V) firmware (m : Machine W) :
  (∀ s, number_ok (show_fraction s) ∧ (length (show_fraction s) ≤ 317)%nat) →
  Forall2 asks xs css →
  ∃ u' text, say_all xs u = Ret u' ∧ cmd_pipe u' = cmd_pipe u ++ text ∧
    command_loop (S (length (concat text))) (concat text) firmware m = execute_all (concat css) firmware m.
Proof.
  intros Hfraction Hxs. destruct (say_all_asks Hfraction xs css u Hxs) as (ms & u' & Hrun & Hpipe & Hfit & Hm).
  exists u', (written <$> ms). split; [done|]. split; [done|]. rewrite <- Hm.
  change (concat (written <$> ms)) with (concat (map written ms)). rewrite <- flat_map_concat_map.
  change (flat_map written ms) with (ms ≫= written). apply messages_executed; [done|]. pose proof (written_length ms). lia.
Qed.
End execution.

Module PipeDemo.
#[export] Instance screen : ScreenOS unit := {
  gr_fb_width := 480; gr_fb_height := 854; background_pixels _ _ := []; errno_text _ := []; sys_reboot w := (false, w)
}.
(** An updater that knows two numbers. *)
#[export] Instance updater : UpdaterOS unit := {
  property_get _ _ := []; run_child _ w := (0, w); Stream := unit; c_fopen _ w := (None, w); c_fread _ _ w := ([], (), w);
  c_fclose _ w := w; error_text _ := [];
  show_fraction s := if bool_decide (s = str "0.25") then str "0.250000" else str "0.500000"
}.
Definition start : Updater unit unit := mk_updater () (mk_ap () g_mtd_state false) g_mounts_state [] [].
Definition machine : Machine unit := SelectDemo.machine [].
Definition sayings : list saying :=
  [ShowsProgress (str "0.5") (str "10"); Prints [str "Install"; str "ing" ++ [10; 10] ++ str "system"]; SetsProgress (str "0.25")].
Definition commands : list (list command) :=
  [[Progress (str "0.500000") 10]; [shown (str "Installing"); shown (str "system"); UiPrint None]; [SetProgress (str "0.250000")]].
Definition after : outcome (list (list Z) * list progress_call) :=
  u ← say_all sayings start;
  '(_, m) ← command_loop 9 (concat (cmd_pipe u)) None machine;
  mret (filter (λ r, r ≠ []) (log_rows (m_log m)), m_progress m).
(** The lines of one text are put in one row, since [ui_print] gets them without their breaks. *)
Example lines_joined :
  after = Ret ([str "Installingsystem"], [show_progress (str "0.500000") 10; set_progress (str "0.250000")]).
Proof. vm_compute. reflexivity. Qed.
(** A text with a per cent sign is used as a format. *)
Example per_cent : execute (UiPrint (Some (str "100% done"))) None machine = Fault OutOfBounds.
Proof. reflexivity. Qed.
(** A number that is missing. *)
Example no_number : parse_command (str "progress 0.5" ++ [10]) = Fault NullPointer.
Proof. reflexivity. Qed.
(** A line that is longer than the buffer: what is behind it is a command of its own. *)
Definition long_line : list Z := repeat 120 1014 ++ str "set_progress 1".
Definition long_after : outcome (list progress_call) :=
  u ← say_it (Prints [long_line]) start;
  '(_, m) ← command_loop 9 (concat (cmd_pipe u)) None machine;
  mret (m_progress m).
Example long_line_split : long_after = Ret [set_progress (str "1")].
Proof. vm_compute. reflexivity. Qed.
End PipeDemo.

Import PipeDemo.
Lemma updater_understood_witness :
  ∃ u' text, say_all PipeDemo.sayings PipeDemo.start = Ret u' ∧ cmd_pipe u' = cmd_pipe PipeDemo.start ++ text ∧
    command_loop (S (length (concat text))) (concat text) None PipeDemo.machine =
      execute_all (concat PipeDemo.commands) None PipeDemo.machine.
Proof.
  apply updater_understood.
  - intros s. cbn [show_fraction PipeDemo.updater]. case_bool_decide; (split; [by repeat constructor|cbn; lia]).
  - constructor; [exact (asks_progress (str "0.5") (str "10"))|]. constructor; [|constructor; [exact (asks_fraction (str "0.25"))|constructor]].
    apply (asks_lines [str "Install"; str "ing" ++ [10; 10] ++ str "system"] [str "Installing"; str "system"]);
      [|repeat constructor; unfold short; cbn; lia].
    apply (lines_line (str "Installing")); [by repeat constructor|]. apply lines_break, (lines_last (str "system")). by repeat constructor.
Defined.
