(* ===== verification/Menufile.v ===== *)
(** * Menufile

    recovery.c: menus that are read from files. *)
From stdpp Require Import relations.
From S2P Require Import Prelude CString Syscalls Lines Args Terminal Ui Input Machine Select Shell Firmware.

Definition MAX_MENU_ITEMS : nat := 50.
Definition CUSTOM_SHELL_SCRIPT_PATH : list Z := str "/bin".
Definition CUSTOM_MENU_PATH : list Z := str "/menu".
Definition TAGS_PATH : list Z := str "/tags".

Definition ITEM_NAME_REBOOT : list Z := str "reboot".
Definition ITEM_NAME_APPLY_SDCARD : list Z := str "update".
Definition ITEM_NAME_WIPE_DATA : list Z := str "wipe_data".
Definition ITEM_NAME_WIPE_CACHE : list Z := str "wipe_cache".
Definition ITEM_NAME_TAG : list Z := str "tag".
Definition ITEM_NAME_SHELL_SCRIPT : list Z := str "shell".
Definition ITEM_NAME_NEW_MENU : list Z := str "menu".
Definition ITEM_NAME_NEW_MENU_SCRIPTED : list Z := str "scripted_menu".
Definition ITEM_NAME_CONSOLE : list Z := str "console".
Definition ITEM_NAME_MENU_BREAK : list Z := str "break".
Definition ITEM_NAME_MENU_LABEL : list Z := str "label".

(** What an item does; [None] is ITEM_ERROR. *)
Inductive menu_action :=
  | ITEM_REBOOT | ITEM_APPLY_SDCARD | ITEM_WIPE_DATA | ITEM_WIPE_CACHE | ITEM_TAG | ITEM_SHELL_SCRIPT
  | ITEM_NEW_MENU | ITEM_NEW_MENU_SCRIPTED | ITEM_CONSOLE.

(** The arrays MENU_ITEMS, MENU_ITEMS_TAG, MENU_ITEMS_ACTION, MENU_ITEMS_TARGET and
    MENU_ITEMS_SELECTABLE at one index; a null pointer is [None]. *)
Record Slot := mk_slot {
  item : option (list Z);
  item_tag : Z;
  item_action : option (list Z);
  item_target : option (list Z);
  item_selectable : Z
}.
(** MENU_HEADERS up to its null pointer. *)
Record Menu := mk_menu { menu_headers : list (list Z); menu_slots : list Slot }.
Definition free_slot : Slot := mk_slot None 255 None None 255.
Definition delete_menu (m : Menu) : Menu := mk_menu [] ((λ _, free_slot) <$> menu_slots m).

(** Characters are taken off the end. *)
Fixpoint strip (f : Z → bool) (s : list Z) : list Z :=
  match s with
  | [] => []
  | c :: s => match strip f s with [] => if f c then [] else [c] | t => c :: t end
  end.
Definition title_blank (c : Z) : bool := (c =? 32) || (c =? 13) || (c =? 10).
Definition target_blank (c : Z) : bool := (c =? 32) || (c =? 13).

(** The name, the action and the target. *)
Definition item_line (line : list Z) : outcome (option (list Z * list Z * list Z)) :=
  if negb (bool_decide (58 ∈ c_string line)) then mret None
  else
    '(name, buf, last) ← strtok [58] (line ++ [0]) (Some 0%nat);
    match name with
    | None => mret None
    | Some name =>
        '(action, buf, last) ← strtok [58] buf last;
        match action with
        | None => mret None
        | Some action =>
            '(target, _, _) ← strtok [10] buf last;
            mret match target with None => None | Some target => Some (name, action, strip target_blank target) end
        end
    end.

(** The path of a script, unless it has one. *)
Definition script_path (s : list Z) : list Z :=
  if (char_at s 0 =? 47) || ((char_at s 0 =? 34) && (char_at s 1 =? 47)) then s
  else if char_at s 0 =? 34 then [34] ++ CUSTOM_SHELL_SCRIPT_PATH ++ str "/" ++ drop 1 s
  else CUSTOM_SHELL_SCRIPT_PATH ++ str "/" ++ s.

(** A name between dashes; it is cut if there is no room for two of them. *)
Definition break_line (num_cols : Z) (name : list Z) : outcome (list Z) :=
  let len := if num_cols - 4 <? zlen name then num_cols - 4 else zlen name in
  if len <? 0 then Fault OutOfBounds
  else
    let start := replicate (Z.to_nat (Z.quot (num_cols - len - 2) 2)) 45 ++ [32] ++ take (Z.to_nat len) name ++ [32] in
    mret (start ++ replicate (Z.to_nat num_cols - length start) 45).

Section slots.
Context {W : Type} `{PatchOS W}.
(** What stands in memory behind a buffer without a NUL. *)
Context (behind : list Z).

Definition make_slot (w : W) (num_cols : Z) (name action target : list Z) : outcome Slot :=
  if strcmp action ITEM_NAME_SHELL_SCRIPT =? 0 then
    mret (mk_slot (Some name) 255 (Some action) (Some (script_path target)) 1)
  else if strcmp action ITEM_NAME_TAG =? 0 then
    let path := TAGS_PATH ++ str "/." ++ target in
    let there := bool_decide (is_Some (sys_stat path w)) in
    mret (mk_slot (Some (str "[" ++ [if there then 88 else 32] ++ str "] " ++ name)) (if there then 1 else 0)
      (Some action) (Some path) 1)
  else if strcmp action ITEM_NAME_MENU_BREAK =? 0 then
    if bool_decide (name = str "*") then
      mret (mk_slot (Some (replicate (Z.to_nat num_cols) 45 ++ behind)) 255 (Some action) None 0)
    else
      line ← break_line num_cols name;
      mret (mk_slot (Some line) 255 (Some action) (Some (str "*")) 0)
  else
    mret (mk_slot (Some name) 255 (Some action) (Some target)
      (if strcmp action ITEM_NAME_MENU_LABEL =? 0 then 0 else 1)).

Definition skipped (line : list Z) : bool := (char_at line 0 =? 0) || (char_at line 0 =? 35).

(** The lines of [text] from the item [idx] on; [n] bounds their number. *)
Fixpoint read_items (n : nat) (w : W) (num_cols : Z) (text : list Z) (idx : nat) (slots : list Slot)
    : outcome (list Slot) :=
  match n with
  | O => Diverge
  | S n =>
      if (MAX_MENU_ITEMS <=? idx)%nat then mret slots
      else
        match fgets (MAX_LINE_LENGTH - 1) text with
        | None => mret slots
        | Some (line, text) =>
            if skipped line then read_items n w num_cols text idx slots
            else
              parts ← item_line line;
              match parts with
              | None => read_items n w num_cols text idx slots
              | Some (name, action, target) =>
                  slot ← make_slot w num_cols name action target;
                  read_items n w num_cols text (S idx) (<[idx := slot]> slots)
              end
        end
  end.
(** The title is the first line that is no comment. *)
Fixpoint read_menu (n : nat) (w : W) (num_cols : Z) (text : list Z) (m : Menu) : outcome Menu :=
  match n with
  | O => Diverge
  | S n =>
      match fgets (MAX_LINE_LENGTH - 1) text with
      | None => mret m
      | Some (line, text) =>
          if skipped line then read_menu n w num_cols text m
          else
            slots ← read_items n w num_cols text 0 (menu_slots m);
            mret (mk_menu [strip title_blank (c_string line); []] slots)
      end
  end.
End slots.

(** [None] is ITEM_ERROR; [strcmp] reads the action. *)
Definition select_action (slot : Slot) : outcome (option menu_action) :=
  action ← of_option NullPointer (item_action slot);
  mret (if strcmp action ITEM_NAME_REBOOT =? 0 then Some ITEM_REBOOT
    else if strcmp action ITEM_NAME_APPLY_SDCARD =? 0 then Some ITEM_APPLY_SDCARD
    else if strcmp action ITEM_NAME_WIPE_DATA =? 0 then Some ITEM_WIPE_DATA
    else if strcmp action ITEM_NAME_WIPE_CACHE =? 0 then Some ITEM_WIPE_CACHE
    else if strcmp action ITEM_NAME_TAG =? 0 then Some ITEM_TAG
    else if strcmp action ITEM_NAME_SHELL_SCRIPT =? 0 then Some ITEM_SHELL_SCRIPT
    else if strcmp action ITEM_NAME_NEW_MENU =? 0 then Some ITEM_NEW_MENU
    else if strcmp action ITEM_NAME_NEW_MENU_SCRIPTED =? 0 then Some ITEM_NEW_MENU_SCRIPTED
    else if strcmp action ITEM_NAME_CONSOLE =? 0 then Some ITEM_CONSOLE
    else None).

(** The items up to the first null pointer; the array of fifty has none behind it. *)
Definition items_of (m : Menu) : outcome (list (list Z)) :=
  match list_find (λ s, item s = None) (menu_slots m) with
  | Some (n, _) => mret (default [] ∘ item <$> take n (menu_slots m))
  | None => Fault OutOfBounds
  end.
Definition selectability_of (m : Menu) : list Z := item_selectable <$> menu_slots m.

Section code.
Context `{KeyCodes} {W : Type} `{PatchOS W} `{StdioOS W} `{ScreenOS W} `{ShellOS W}.
Context (MENU_TITLE : list (list Z)) (behind : list Z) (fuel : nat).

(** The result and the menu; a menu that cannot be opened leaves the one there was. *)
Definition create_menu (fname : list Z) (shellcmd : option (list Z)) (m : Menu) : Rec W (Z * Menu) :=
  _ ← match shellcmd with
    | None => mret tt
    | Some cmd =>
        let menu_file_var := str "MENU_FILE=" ++ CUSTOM_MENU_PATH ++ str "/" ++ fname in
        _ ← pure (if (256 <=? length menu_file_var)%nat then Fault OutOfBounds else mret tt);
        run_shell_script MENU_TITLE fuel (Some cmd) false [menu_file_var]
    end;
  let buf := CUSTOM_MENU_PATH ++ str "/" ++ fname in
  _ ← pure (if (MAX_LINE_LENGTH <=? length buf)%nat then Fault OutOfBounds else mret tt);
  w ← get m_world;
  match file_text buf w with
  | None => _ ← LOGE (str "Failed to open the menu " ++ fname ++ str "." ++ [10]); mret (-1, m)
  | Some text =>
      l ← get m_log;
      m ← pure (read_menu behind (S (length text)) w (text_cols l) text (delete_menu m));
      mret (0, m)
  end.
End code.

(** ** Menu files *)
Record entry := mk_entry_line { e_item : list Z; e_action : list Z; e_target : list Z }.
Inductive file_line := Comment (s : list Z) | Entry (e : entry).
Definition show_entry (e : entry) : list Z := e_item e ++ 58 :: (e_action e ++ 58 :: (e_target e ++ [10])).
Definition show_line (l : file_line) : list Z :=
  match l with Comment s => 35 :: s ++ [10] | Entry e => show_entry e end.
Definition field_ok (s : list Z) : Prop := s ≠ [] ∧ Forall (λ c, c ≠ 0 ∧ c ≠ 10 ∧ c ≠ 58) s.
Definition entry_ok (e : entry) : Prop :=
  field_ok (e_item e) ∧ char_at (e_item e) 0 ≠ 35 ∧ field_ok (e_action e) ∧
  e_target e ≠ [] ∧ Forall (λ c, c ≠ 0 ∧ c ≠ 10) (e_target e) ∧ strip target_blank (e_target e) = e_target e.
Definition line_fits (l : file_line) : Prop :=
  (length (show_line l) < MAX_LINE_LENGTH)%nat ∧
  match l with Comment s => Forall (λ c, c ≠ 10) s | Entry e => entry_ok e end.
Definition entries_of (ls : list file_line) : list entry :=
  ls ≫= λ l, match l with Comment _ => [] | Entry e => [e] end.

Lemma field_token s : field_ok s → s ≠ [] ∧ Forall (λ c, c ∉ [58]) s ∧ Forall (λ c, c ≠ 0) s ∧ Forall (λ c, c ≠ 10) s.
Proof.
  intros [Hne Hs]. split; [done|]. repeat split; (eapply Forall_impl; [exact Hs|]); intros c (H0 & H10 & H58); [|done|done].
  by apply not_elem_of_cons; split; [|apply not_elem_of_nil].
Qed.

Lemma item_line_entry e : entry_ok e → item_line (show_entry e) = Ret (Some (e_item e, e_action e, e_target e)).
Proof.
  intros (Hn & _ & Ha & Htne & Ht & Hstrip).
  apply field_token in Hn as (Hnne & Hnin & Hnz & _). apply field_token in Ha as (Hane & Hain & Haz & _).
  assert (Htz : Forall (λ c, c ≠ 0) (e_target e ++ [10])).
  { apply Forall_app. split; [|by repeat constructor]. eapply Forall_impl; [exact Ht|]. by intros c []. }
  assert (Haz' : Forall (λ c, c ≠ 0) (e_action e ++ 58 :: (e_target e ++ [10]))).
  { apply Forall_app. split; [done|]. by constructor. }
  unfold item_line, show_entry. rewrite bool_decide_eq_true_2; cycle 1.
  { rewrite <- (app_nil_r (_ ++ _ :: _)). rewrite <- app_assoc. cbn [app].
    assert (∀ l r, Forall (λ c, c ≠ 0) l → 58 ∈ c_string (l ++ 58 :: r)) as Hin; [|by apply Hin].
    intros l r Hl. induction Hl as [|c l Hc Hl IH]; [by left|]. simpl. rewrite (proj2 (Z.eqb_neq c 0)) by done. by right. }
  cbn [negb].
  pose proof (strtok_token [58] [] (e_item e) 58 (e_action e ++ 58 :: (e_target e ++ [10])) [] 0 eq_refl Hnne Hnin ltac:(by left)) as H1.
  rewrite !app_nil_l in H1. rewrite H1 by (apply Forall_app; split; [done|by constructor]). cbn [mbind outcome_bind].
  rewrite (strtok_token [58]); [|done|done|done|by left|done]. cbn [mbind outcome_bind].
  rewrite (strtok_token [10] _ (e_target e) 10 [] []); [|done|done| |by left|done].
  - cbn [mbind outcome_bind]. by rewrite Hstrip.
  - eapply Forall_impl; [exact Ht|]. intros c [_ ?]. by apply not_elem_of_cons; split; [|apply not_elem_of_nil].
Qed.

Lemma show_line_shape l : line_fits l → ∃ a, show_line l = a ++ [10] ∧ Forall (λ c, c ≠ 10) a ∧ (S (length a) ≤ MAX_LINE_LENGTH - 1)%nat.
Proof.
  intros [Hlen Hl]. assert (Ha : ∃ a, show_line l = a ++ [10] ∧ Forall (λ c, c ≠ 10) a).
  { destruct l as [s|e]; simpl.
    - exists (35 :: s). split; [done|]. by constructor.
    - destruct Hl as (Hn & _ & Ha & _ & Ht & _). apply field_token in Hn as (_ & _ & _ & Hn). apply field_token in Ha as (_ & _ & _ & Ha).
      exists (e_item e ++ 58 :: (e_action e ++ 58 :: e_target e)). split.
      + unfold show_entry. rewrite <- app_assoc. cbn [app]. by rewrite <- app_assoc.
      + apply Forall_app. split; [done|]. constructor; [done|]. apply Forall_app. split; [done|]. constructor; [done|].
        eapply Forall_impl; [exact Ht|]. by intros c []. }
  destruct Ha as (a & He & Ha). exists a. split; [done|]. split; [done|]. rewrite He, length_app in Hlen. simpl in Hlen. lia.
Qed.

Section reading.
Context {W : Type} `{PatchOS W} (behind : list Z) (w : W) (num_cols : Z).
Implicit Types (ls : list file_line) (slots : list Slot).

Definition slot_of (e : entry) (s : Slot) : Prop :=
  make_slot behind w num_cols (e_item e) (e_action e) (e_target e) = Ret s.

Lemma skipped_entry e : entry_ok e → skipped (show_entry e) = false.
Proof.
  intros ([Hne Hn] & H35 & _). unfold skipped, show_entry. destruct (e_item e) as [|c s]; [done|].
  apply Forall_cons_1 in Hn as [(H0 & _) _]. unfold char_at in *. simpl in *.
  by rewrite (proj2 (Z.eqb_neq c 0)), (proj2 (Z.eqb_neq c 35)).
Qed.

(** The slots before are kept, and those behind are free. *)
Lemma read_items_spec ls : ∀ n done_ new k,
  Forall line_fits ls → (length ls < n)%nat → (length done_ + length (entries_of ls) + k = MAX_MENU_ITEMS)%nat →
  Forall2 slot_of (entries_of ls) new →
  read_items behind n w num_cols (ls ≫= show_line) (length done_) (done_ ++ replicate (length (entries_of ls) + k) free_slot) =
    Ret (done_ ++ new ++ replicate k free_slot).
Proof.
  induction ls as [|l ls IH]; intros n dn new k Hls Hn Hk Hnew; (destruct n as [|n]; [simpl in Hn; lia|]); cbn [read_items].
  - inversion Hnew; subst. change (entries_of []) with (@nil entry). cbn [length app Nat.add]. change ([] ≫= show_line) with (@nil Z).
    change (fgets (MAX_LINE_LENGTH - 1) []) with (@None (list Z * list Z)). by destruct (MAX_MENU_ITEMS <=? length dn)%nat.
  - apply Forall_cons_1 in Hls as [Hl Hls]. cbn [length] in Hn.
    destruct (show_line_shape l Hl) as (a & He & Ha & Hlen). cbn [mbind list_bind]. rewrite He, <- app_assoc. cbn [app].
    rewrite fgets_line by done. rewrite <- He. destruct l as [s|e].
    + change (entries_of (Comment s :: ls)) with (entries_of ls) in *. cbn [show_line].
      destruct (Nat.leb_spec MAX_MENU_ITEMS (length dn)).
      * assert (length (entries_of ls) = 0%nat ∧ k = 0%nat) as [Hz ->] by lia. destruct (entries_of ls); [|done].
        inversion Hnew; subst. by rewrite !app_nil_r.
      * change (skipped (35 :: s ++ [10])) with true. cbn iota. apply IH; [done|lia|done|done].
    + change (entries_of (Entry e :: ls)) with (e :: entries_of ls) in *. cbn [length] in Hk.
      inversion Hnew as [|? s ? new' Hs Hnew']; subst.
      destruct (Nat.leb_spec MAX_MENU_ITEMS (length dn)); [lia|].
      destruct Hl as [_ Hl]. cbn [show_line] in *. rewrite (skipped_entry e Hl), (item_line_entry e Hl). cbn [mbind outcome_bind].
      unfold slot_of in Hs. rewrite Hs. cbn [mbind outcome_bind length Nat.add replicate].
      replace (length dn) with (length dn + 0)%nat at 2 by lia. rewrite insert_app_r. cbn [insert list_insert].
      assert (length (dn ++ [s]) = S (length dn)) as Hld by (rewrite length_app; simpl; lia).
      rewrite <- Hld. pose proof (IH n (dn ++ [s]) new' k Hls ltac:(lia) ltac:(rewrite Hld; lia) Hnew') as IH'.
      rewrite <- !app_assoc in IH'. exact IH'.
Qed.
End reading.

Lemma strip_blank f s d : f d = true → strip f (s ++ [d]) = strip f s.
Proof. intros Hd. induction s as [|c s IH]; simpl; [by rewrite Hd|]. by rewrite IH. Qed.

(** ** What a menu file says *)
Definition dashes (n : nat) : list Z := replicate n 45.
Inductive menu_entry :=
  | Do (name : list Z) (action : menu_action) (target : list Z)
  | Script (name script : list Z)
  | Tag (name tag : list Z)
  | Break (name : list Z)
  | Label (name : list Z).
(** The words for the actions that take their target as it is. *)
Definition action_words : list (string * menu_action) :=
  [ ("reboot", ITEM_REBOOT); ("update", ITEM_APPLY_SDCARD); ("wipe_data", ITEM_WIPE_DATA); ("wipe_cache", ITEM_WIPE_CACHE);
    ("menu", ITEM_NEW_MENU); ("scripted_menu", ITEM_NEW_MENU_SCRIPTED); ("console", ITEM_CONSOLE) ]%string.

(** The line for an entry. *)
Inductive written : menu_entry → entry → Prop :=
  | written_do name word action target : (word, action) ∈ action_words →
      written (Do name action target) (mk_entry_line name (str word) target)
  | written_script name script : script ≠ [] → char_at script 0 ≠ 34 →
      written (Script name script) (mk_entry_line name (str "shell") script)
  | written_tag name tag : written (Tag name tag) (mk_entry_line name (str "tag") tag)
  | written_break name target : name ≠ str "*" → written (Break name) (mk_entry_line name (str "break") target)
  | written_label name target : written (Label name) (mk_entry_line name (str "label") target).

(** The item that an entry stands for: its text, whether it can be selected, what it does then and
    to what. *)
Definition stands_for {W} `{PatchOS W} (w : W) (num_cols : Z) (e : menu_entry) (s : Slot) : Prop :=
  match e with
  | Do name action target =>
      item s = Some name ∧ item_selectable s = 1 ∧ select_action s = Ret (Some action) ∧ item_target s = Some target
  | Script name script =>
      item s = Some name ∧ item_selectable s = 1 ∧ select_action s = Ret (Some ITEM_SHELL_SCRIPT) ∧
      item_target s = Some ((if decide (head script = Some 47) then [] else str "/bin/") ++ script)
  | Tag name tag =>
      let set := bool_decide (is_Some (sys_stat (str "/tags/." ++ tag) w)) in
      item s = Some ((if set then str "[X] " else str "[ ] ") ++ name) ∧ item_tag s = (if set then 1 else 0) ∧
      item_selectable s = 1 ∧ select_action s = Ret (Some ITEM_TAG) ∧ item_target s = Some (str "/tags/." ++ tag)
  | Break name =>
      item_selectable s = 0 ∧ (zlen name ≤ num_cols - 4 →
        ∃ a b, item s = Some (dashes a ++ str " " ++ name ++ str " " ++ dashes b) ∧
          (a + length name + 2 + b)%nat = Z.to_nat num_cols ∧ (a ≤ b ≤ S a)%nat)
  | Label name => item s = Some name ∧ item_selectable s = 0
  end.

Lemma break_line_spec num_cols name :
  4 ≤ num_cols → ∃ line, break_line num_cols name = Ret line ∧ (zlen name ≤ num_cols - 4 →
    ∃ a b, line = dashes a ++ str " " ++ name ++ str " " ++ dashes b ∧ (a + length name + 2 + b)%nat = Z.to_nat num_cols ∧ (a ≤ b ≤ S a)%nat).
Proof.
  intros Hc. unfold break_line. set (len := if num_cols - 4 <? zlen name then _ else _).
  assert (Hl : 0 ≤ len ∧ (zlen name ≤ num_cols - 4 → len = zlen name)) by (subst len; destruct (Z.ltb_spec (num_cols - 4) (zlen name)); lia).
  clearbody len. rewrite (proj2 (Z.ltb_ge _ _)) by lia. eexists. split; [reflexivity|]. intros Hfit. rewrite (proj2 Hl Hfit).
  rewrite Z.quot_div_nonneg by lia. set (a := Z.to_nat _). rewrite Nat2Z.id, firstn_all. change [32] with (str " ").
  exists a, (Z.to_nat num_cols - (a + length name + 2))%nat.
  pose proof (Z.mul_div_le (num_cols - zlen name - 2) 2 ltac:(lia)). pose proof (Z.mul_succ_div_gt (num_cols - zlen name - 2) 2 ltac:(lia)).
  split; [|lia]. unfold dashes. rewrite <- !app_assoc. do 5 f_equal. rewrite !length_app, length_replicate. simpl. lia.
Qed.

(** What [make_slot] makes is the item that the entry stands for. *)
Lemma make_slot_spec {W} `{PatchOS W} behind (w : W) num_cols e line :
  4 ≤ num_cols → written e line → ∃ s, slot_of behind w num_cols line s ∧ stands_for w num_cols e s.
Proof.
  intros Hc. unfold slot_of. destruct 1 as [name word action target Hin|name script Hne Hq|name tag|name target Hstar|name target];
    cbn [e_item e_action e_target stands_for].
  - apply list_elem_of_In in Hin. simpl in Hin. destruct Hin as [[= <- <-]|[[= <- <-]|[[= <- <-]|[[= <- <-]|[[= <- <-]|[[= <- <-]|[[= <- <-]|[]]]]]]]];
      (eexists; split; [reflexivity|repeat split; reflexivity]).
  - eexists. split; [reflexivity|]. split; [done|]. split; [done|]. split; [reflexivity|]. cbn [item_target]. f_equal.
    unfold script_path. destruct script as [|c script]; [done|]. unfold char_at in Hq |- *. simpl in Hq |- *.
    rewrite (proj2 (Z.eqb_neq c 34)) by done. cbn [andb]. rewrite orb_false_r.
    destruct (Z.eqb_spec c 47) as [->|Hne47]; [by rewrite decide_True|]. rewrite decide_False by congruence. reflexivity.
  - eexists. split; [reflexivity|]. cbn [item item_tag item_selectable item_target]. change (TAGS_PATH ++ str "/." ++ tag) with (str "/tags/." ++ tag).
    split; [by destruct (bool_decide _)|]. by repeat split.
  - destruct (break_line_spec num_cols name Hc) as (l & Hl & Hshape). unfold make_slot.
    change (strcmp (str "break") ITEM_NAME_SHELL_SCRIPT =? 0) with false. change (strcmp (str "break") ITEM_NAME_TAG =? 0) with false.
    change (strcmp (str "break") ITEM_NAME_MENU_BREAK =? 0) with true. cbn iota. rewrite bool_decide_eq_false_2, Hl by done.
    eexists. split; [reflexivity|]. split; [done|]. intros Hfit. destruct (Hshape Hfit) as (a & b & -> & Hab). by exists a, b.
  - eexists. split; [reflexivity|]. done.
Qed.

Lemma strip_id f s blanks : Forall (λ c, f c = true) blanks → (∀ c, last s = Some c → f c = false) → strip f (s ++ blanks) = s.
Proof.
  intros Hb Hs. induction blanks as [|d blanks IH] using rev_ind; cycle 1.
  { apply Forall_app in Hb as [Hb Hd]. rewrite app_assoc, strip_blank by by inversion Hd. by apply IH. }
  rewrite app_nil_r. induction s as [|c s IHs]; [done|]. simpl. destruct s as [|d s]; [by rewrite (Hs c eq_refl)|].
  rewrite IHs; [done|]. intros x Hx. by apply Hs.
Qed.


Module MenuDemo.
(** Nothing works but that the tag [fast] is set. *)
#[export] Instance files : PatchOS unit := {
  sys_stat p _ := if bool_decide (p = str "/tags/.fast") then Some (mk_stat 0 0 0 0) else None;
  sys_fread _ _ _ := None; sys_open_trunc _ w := (-1, w); sys_write _ _ w := (-1, w);
  sys_fsync _ w := w; sys_close _ w := w; sys_chmod _ _ w := (-1, w); sys_chown _ _ _ w := (-1, w);
  sys_rename _ _ w := (-1, w); sys_unlink _ w := (-1, w); sys_statfs _ _ := None; sys_listdir _ _ := None;
  sys_readlink _ _ := None; sys_mount _ _ _ _ w := (-1, w)
}.
Definition entries : list file_line :=
  [ Entry (mk_entry_line (str "Reboot") (str "reboot") (str "*")); Comment (str " tags");
    Entry (mk_entry_line (str "Fast") (str "tag") (str "fast")); Entry (mk_entry_line (str "Slow") (str "tag") (str "slow"));
    Entry (mk_entry_line (str "Tools") (str "break") (str "*"));
    Entry (mk_entry_line (str "Run") (str "shell") (str "run.sh a:b")) ].
Definition slots : list Slot :=
  [ mk_slot (Some (str "Reboot")) 255 (Some (str "reboot")) (Some (str "*")) 1;
    mk_slot (Some (str "[X] Fast")) 1 (Some (str "tag")) (Some (str "/tags/.fast")) 1;
    mk_slot (Some (str "[ ] Slow")) 0 (Some (str "tag")) (Some (str "/tags/.slow")) 1;
    mk_slot (Some (str "------ Tools -------")) 255 (Some (str "break")) (Some (str "*")) 0;
    mk_slot (Some (str "Run")) 255 (Some (str "shell")) (Some (str "/bin/run.sh a:b")) 1 ].
Definition old : Menu := mk_menu [str "Old"] (replicate MAX_MENU_ITEMS (mk_slot (Some (str "old")) 0 None None 1)).

(** Fifty items leave no room for the null pointer that ends the array. *)
Example fifty_items : items_of old = Fault OutOfBounds.
Proof. reflexivity. Qed.
(** The action of an item that is not there is a null pointer. *)
Example no_action : select_action free_slot = Fault NullPointer.
Proof. reflexivity. Qed.
(** A break that is all dashes has no NUL, and no target. *)
Example all_dashes behind :
  make_slot behind tt 4 (str "*") (str "break") (str "*") = Ret (mk_slot (Some (str "----" ++ behind)) 255 (Some (str "break")) None 0).
Proof. reflexivity. Qed.
End MenuDemo.

Section witness.
Import MenuDemo.
Definition meant : list menu_entry :=
  [ Do (str "Reboot") ITEM_REBOOT (str "*"); Tag (str "Fast") (str "fast"); Tag (str "Slow") (str "slow"); Break (str "Tools");
    Script (str "Run") (str "run.sh a:b") ].
End witness.
