(* ===== verification/Recovery.v ===== *)
(** * Recovery

    recovery.c: wiping, the menus, and the program itself. *)
From stdpp Require Import relations.
From S2P Require Import Prelude CString ZipParse DirUtil ZipExtract Syscalls Mtdutils Mtdflash Mounts Roots Bootloader Lines Args.
From S2P Require Import Terminal Ui Input Machine Select Shell Console Firmware Install Menufile.

Definition MAX_MENU_LEVEL : nat := 50.
Definition MAIN_MENU_FILE : list Z := str "init.menu".
Definition FULL_PACKAGE_FILE : list Z := str "SDCARD:OpenRecovery.zip".
Definition MOD_AUTHOR_PROP : list Z := str "ro.or.mod.author".
Definition MOD_VERSION_PROP : list Z := str "ro.or.mod.version".
Definition newline : list Z := [10].

(** ** Options *)

(** What [getopt_long] makes of the arguments. *)
Inductive option_found :=
  | SendIntent (arg : list Z)
  | UpdatePackage (arg : list Z)
  | WipeData
  | WipeCache
  | BadOption.
Definition long_options : list (list Z * bool) :=
  [(str "send_intent", true); (str "update_package", true); (str "wipe_data", false); (str "wipe_cache", false)].

(** The option that a name means: in full, or abbreviated if only one begins with it. *)
Definition matching (name : list Z) : option nat :=
  match list_find (λ o, fst o = name) long_options with
  | Some (i, _) => Some i
  | None =>
      match filter (λ i, take (length name) (default [] (fst <$> long_options !! i)) = name) (seq 0 4) with
      | [i] => Some i
      | _ => None
      end
  end.
Definition option_of (i : nat) (arg : list Z) : option_found :=
  match i with 0%nat => SendIntent arg | 1%nat => UpdatePackage arg | 2%nat => WipeData | _ => WipeCache end.
(** The option of an argument that begins with two dashes, and the arguments left. *)
Definition long_option (s : list Z) (rest : list (list Z)) : option_found * list (list Z) :=
  let k := count_while (λ c, negb (c =? 61)) s in
  let value := if bool_decide (k = length s) then None else Some (drop (S k) s) in
  match matching (take k s) with
  | None => (BadOption, rest)
  | Some i =>
      if default false (snd <$> long_options !! i) then
        match value, rest with
        | Some arg, _ => (option_of i arg, rest)
        | None, arg :: rest => (option_of i arg, rest)
        | None, [] => (BadOption, [])
        end
      else match value with Some _ => (BadOption, rest) | None => (option_of i [], rest) end
  end.
(** Arguments that are no options are passed over; [n] bounds the number of arguments. *)
Fixpoint getopt_all (n : nat) (args : list (list Z)) : list option_found :=
  match n, args with
  | S n, arg :: args =>
      if bool_decide (arg = str "--") then []
      else if bool_decide (take 2 arg = str "--") then
        let '(o, args) := long_option (drop 2 arg) args in o :: getopt_all n args
      else if bool_decide (take 1 arg = str "-") then ((λ _, BadOption) <$> drop 1 arg) ++ getopt_all n args
      else getopt_all n args
  | _, _ => []
  end.

Record Options := mk_options {
  send_intent : option (list Z);
  update_package : option (list Z);
  wipe_data_flag : bool;
  wipe_cache_flag : bool
}.
Definition no_options : Options := mk_options None None false false.
Definition apply_option (x : Options) (o : option_found) : Options :=
  match o with
  | SendIntent arg => mk_options (Some arg) (update_package x) (wipe_data_flag x) (wipe_cache_flag x)
  | UpdatePackage arg => mk_options (send_intent x) (Some arg) (wipe_data_flag x) (wipe_cache_flag x)
  | WipeData => mk_options (send_intent x) (update_package x) true true
  | WipeCache => mk_options (send_intent x) (update_package x) (wipe_data_flag x) true
  | BadOption => x
  end.
Definition parse_options (argv : list (list Z)) : Options :=
  foldl apply_option no_options (getopt_all (length argv) (drop 1 argv)).

(** What the program asks of the system besides. *)
Class RecoveryOS (W : Type) := {
  parent_is_init : W → bool;
  property_value : list Z → W → list Z
}.

Section code.
Context `{KeyCodes} `{Keyboard} {F W : Type} `{ArchiveFile F} `{Zlib} `{SafeIop}.
Context `{FileSystem W} `{FileWriter W} `{MountOS W} `{MtdDriver W} `{PatchOS W} `{RootOS W} `{StdioOS W} `{ScreenOS W} `{ShellOS W} `{PtyOS W}.
Context `{InstallOS F W} `{RecoveryOS W}.
Context (OPEN_RCVR_VERSION_LITE HAVE_CUST OPEN_RECOVERY_HAVE_CONSOLE : bool).
Context (OPEN_RECOVERY_PHONE OPEN_RECOVERY_PHONE_SWITCH OPEN_RECOVERY_NAVIG OPEN_RECOVERY_VERSION_BASE RECOVERY_API_VERSION : list Z).
Context (OPEN_RECOVERY_NAVIG2 : option (list Z)).
Context (alloc_ok : Z → bool) (fuel tries : nat) (behind : list Z).

Definition BASE_MENU_TITLE : list (list Z) :=
  [ str "Motorola " ++ OPEN_RECOVERY_PHONE ++ str " Open Recovery";
    if OPEN_RCVR_VERSION_LITE then str "Lite Version" else str "Version " ++ OPEN_RECOVERY_VERSION_BASE;
    str "Created by Skrilax_CZ"; []; OPEN_RECOVERY_NAVIG ] ++
  (match OPEN_RECOVERY_NAVIG2 with Some s => [s] | None => [] end) ++ [[]].

(** The properties are copied to buffers of 81 characters. *)
Definition mod_property (name : list Z) (w : W) : outcome (list Z) :=
  let value := property_value name w in if (81 <=? length value)%nat then Fault OutOfBounds else mret value.
Definition menu_title (w : W) : outcome (list (list Z)) :=
  if OPEN_RCVR_VERSION_LITE then mret BASE_MENU_TITLE
  else
    mod_author ← mod_property MOD_AUTHOR_PROP w;
    mod_version ← mod_property MOD_VERSION_PROP w;
    mret (BASE_MENU_TITLE ++
      (if bool_decide (mod_author = []) then []
       else (if bool_decide (mod_version = []) then [] else [take 79 (str "Mod Version " ++ mod_version)]) ++
         [take 79 (str "Mod Created by " ++ mod_author); []])).

Section menus.
Context (MENU_TITLE : list (list Z)).
Abbreviation run_script := (run_shell_script MENU_TITLE fuel).
Abbreviation interactive := (show_interactive_menu MENU_TITLE fuel).
Abbreviation create := (create_menu MENU_TITLE behind fuel).
Abbreviation install := (install_package OPEN_RCVR_VERSION_LITE HAVE_CUST RECOVERY_API_VERSION MENU_TITLE alloc_ok fuel tries).
Abbreviation mount_common := (on_system (ensure_common_roots_mounted OPEN_RCVR_VERSION_LITE HAVE_CUST alloc_ok)).
Abbreviation unmount_common := (on_system (ensure_common_roots_unmounted OPEN_RCVR_VERSION_LITE HAVE_CUST alloc_ok)).

Definition erase_root (root : list Z) : Rec W Z :=
  _ ← set_background BACKGROUND_ICON_INSTALLING;
  _ ← progress show_indeterminate_progress;
  _ ← print (str "Formatting " ++ root ++ str "..." ++ newline);
  on_system (format_root_device OPEN_RCVR_VERSION_LITE HAVE_CUST alloc_ok fuel root).

(** ** Wiping the data *)
Definition wipe_headers : list (list Z) := [str "Confirm wipe of all user data?"; str "  THIS CAN NOT BE UNDONE."; []].
Definition wipe_items : list (list Z) :=
  replicate 7 (str " No") ++ [str " Yes -- delete all user data"] ++ replicate 3 (str " No").
Definition do_wipe_data : Rec W unit :=
  _ ← blink;
  _ ← print (newline ++ str "-- Wiping data..." ++ newline);
  _ ← erase_root (str "DATA:");
  _ ← erase_root (str "CACHE:");
  _ ← mount_common;
  _ ← print (str "Data wipe complete." ++ newline);
  dark.
Definition wipe_data (confirm : bool) : Rec W unit :=
  if confirm then
    chosen_item ← interactive wipe_headers wipe_items;
    _ ← hide_menu_selection;
    if negb (chosen_item =? 8) then mret tt else do_wipe_data
  else do_wipe_data.

Definition finish (intent : option (list Z)) : Rec W unit := λ m,
  '(offset, s, w) ← finish_recovery OPEN_RCVR_VERSION_LITE HAVE_CUST alloc_ok fuel intent (m_tmplog_offset m) (m_roots m) (m_world m);
  Ret (tt, mk_machine w s (m_package m) (m_log m) (m_view m) (m_keys m) (m_visible m) (m_icon m) (m_terminal m) (m_progress m) (m_firmware m) offset).

(** ** The menus *)

(** The variables of [prompt_and_wait], and the menu. *)
Record Prompt := mk_prompt {
  menu_ : Menu;
  menu_files : list (option (list Z));
  menu_scripts : list (option (list Z));
  menu_sels : list Z;
  menu_level : nat;
  title_ : list (list Z) * Z;
  override_initial_selection : Z;
  call_finish_in_loop : bool
}.
Implicit Types (p : Prompt).
Definition with_menu (m : Menu) p : Prompt :=
  mk_prompt m (menu_files p) (menu_scripts p) (menu_sels p) (menu_level p) (prepend_title MENU_TITLE (menu_headers m))
    (override_initial_selection p) (call_finish_in_loop p).
Definition with_override (k : Z) p : Prompt :=
  mk_prompt (menu_ p) (menu_files p) (menu_scripts p) (menu_sels p) (menu_level p) (title_ p) k (call_finish_in_loop p).
Definition with_finish (b : bool) p : Prompt :=
  mk_prompt (menu_ p) (menu_files p) (menu_scripts p) (menu_sels p) (menu_level p) (title_ p) (override_initial_selection p) b.
Definition with_slots (slots : list Slot) p : Prompt :=
  mk_prompt (mk_menu (menu_headers (menu_ p)) slots) (menu_files p) (menu_scripts p) (menu_sels p) (menu_level p)
    (title_ p) (override_initial_selection p) (call_finish_in_loop p).

(** The file and the script of the current level. *)
Definition level_file p : outcome (list Z) := f ← rd (menu_files p) (Z.of_nat (menu_level p)); of_option NullPointer f.
Definition level_script p : outcome (option (list Z)) := rd (menu_scripts p) (Z.of_nat (menu_level p)).

Definition load_menu p : Rec W (Z * Prompt) :=
  fname ← pure (level_file p);
  script ← pure (level_script p);
  '(r, m) ← create fname script (menu_ p);
  mret (r, with_menu m p).

Definition choose p : Rec W (nat * Slot) :=
  items ← pure (items_of (menu_ p));
  let start := if negb (override_initial_selection p =? -1) then override_initial_selection p else 0 in
  menu_item ← get_menu_selection fuel (fst (title_ p)) items (selectability_of (menu_ p)) (snd (title_ p)) start false;
  slot ← pure (rd (menu_slots (menu_ p)) menu_item);
  mret (Z.to_nat menu_item, slot).

Definition set_tag (k : nat) (tag : Z) (c : Z) (slot : Slot) p : Prompt :=
  with_slots (<[k := mk_slot ((λ s, <[1%nat := c]> s) <$> item slot) tag (item_action slot) (item_target slot) (item_selectable slot)]>
    (menu_slots (menu_ p))) p.
Definition do_tag (k : nat) (slot : Slot) p : Rec W Prompt :=
  target ← pure (of_option NullPointer (item_target slot));
  if item_tag slot =? 0 then
    tag_fd ← on_world (sys_creat target 420);
    match tag_fd with
    | inl _ => _ ← LOGE (str "Failed to set the tag." ++ newline); mret p
    | inr fd => _ ← on_world (λ w, (tt, ZipExtract.sys_close fd w)); mret (set_tag k 1 88 slot p)
    end
  else if item_tag slot =? 1 then
    _ ← on_world (Syscalls.sys_unlink target); mret (set_tag k 0 32 slot p)
  else mret p.

(** One level up, without what the level had. *)
Definition leave_level p : Prompt :=
  mk_prompt (menu_ p) (<[menu_level p := None]> (menu_files p)) (<[menu_level p := None]> (menu_scripts p)) (menu_sels p)
    (pred (menu_level p)) (title_ p) (override_initial_selection p) (call_finish_in_loop p).
Definition enter_level (k : nat) (file : list Z) p : Prompt :=
  mk_prompt (menu_ p) (<[S (menu_level p) := Some file]> (menu_files p)) (menu_scripts p)
    (<[menu_level p := Z.of_nat k]> (menu_sels p)) (S (menu_level p)) (title_ p) (override_initial_selection p) (call_finish_in_loop p).
Definition with_script (script : list Z) p : Prompt :=
  mk_prompt (menu_ p) (menu_files p) (<[menu_level p := Some script]> (menu_scripts p)) (menu_sels p) (menu_level p) (title_ p)
    (override_initial_selection p) (call_finish_in_loop p).
(** Out of a menu: its selection is forgotten, that of the menu above comes back. *)
Definition go_up p : Prompt :=
  if (menu_level p =? 0)%nat then p
  else
    let p := mk_prompt (menu_ p) (menu_files p) (menu_scripts p) (<[menu_level p := 0]> (menu_sels p)) (menu_level p) (title_ p)
      (override_initial_selection p) (call_finish_in_loop p) in
    let p := leave_level p in
    with_override (default 0 (menu_sels p !! menu_level p)) p.
(** The menu of the level; a level that has none is left again. *)
Definition open_level p : Rec W Prompt :=
  _ ← mount_common;
  '(menu_result, p) ← load_menu p;
  mret (if negb (menu_result =? 0) && negb (menu_level p =? 0)%nat then leave_level p else p).

Definition do_new_menu (k : nat) (slot : Slot) p : Rec W Prompt :=
  if (MAX_MENU_LEVEL <=? S (menu_level p))%nat then mret p
  else
    _ ← blink;
    target ← pure (of_option NullPointer (item_target slot));
    p ← open_level (if strcmp target (str "..") =? 0 then go_up p else enter_level k target p);
    _ ← dark;
    mret p.
Definition do_new_menu_scripted (k : nat) (slot : Slot) p : Rec W Prompt :=
  if (MAX_MENU_LEVEL <=? S (menu_level p))%nat then mret p
  else
    _ ← blink;
    target ← pure (of_option NullPointer (item_target slot));
    '(file, cmdBuff, last) ← pure (strtok [58] (target ++ [0]) (Some 0%nat));
    p ← match file with
      | None => mret p
      | Some file =>
          '(script, _, _) ← pure (strtok [] cmdBuff last);
          let p := enter_level k file p in
          open_level (match script with Some script => with_script (script_path script) p | None => p end)
      end;
    _ ← dark;
    mret p.

Definition do_install (k : nat) (slot : Slot) p : Rec W (option Prompt) :=
  confirm_item ← interactive [str "Confirm installing update package?"; default [] (item slot); []] [str "Yes"; str "No"];
  if negb (confirm_item =? 1) then mret (Some (with_override (Z.of_nat k) p))
  else
    _ ← print (newline ++ str "-- Install from sdcard..." ++ newline);
    _ ← blink;
    _ ← unmount_common;
    _ ← on_system (ensure_root_path_mounted OPEN_RCVR_VERSION_LITE HAVE_CUST alloc_ok (str "SDCARD:"));
    _ ← on_system (λ s w, '(s, w) ← set_sdcard_update_bootloader_message OPEN_RCVR_VERSION_LITE HAVE_CUST alloc_ok fuel s w; mret (tt, s, w));
    target ← pure (of_option NullPointer (item_target slot));
    status ← install target;
    _ ← mount_common;
    visible ← get m_visible;
    pending ← get (λ m, firmware_update_pending (m_firmware m));
    if (status =? INSTALL_SUCCESS) && negb visible then mret None
    else
      _ ← set_background BACKGROUND_ICON_ERROR;
      _ ← print (if negb (status =? INSTALL_SUCCESS) then str "Installation aborted." ++ newline
                 else if pending : bool then newline ++ str "Reboot via menu to complete" ++ newline ++ str "installation." ++ newline
                 else newline ++ str "Install from sdcard complete." ++ newline);
      '(_, p) ← load_menu (with_finish true p);
      _ ← dark;
      mret (Some (with_override (Z.of_nat k) p)).

Definition do_shell_script (k : nat) (slot : Slot) p : Rec W Prompt :=
  _ ← print (newline ++ str "-- Shell script..." ++ newline);
  _ ← print (default (str "(null)") (item_target slot) ++ newline);
  _ ← blink;
  _ ← mount_common;
  _ ← run_script (item_target slot) true [];
  '(_, p) ← load_menu p;
  _ ← dark;
  _ ← print (str "Done." ++ newline);
  mret (with_override (Z.of_nat k) p).

Definition do_console (k : nat) p : Rec W Prompt :=
  if OPEN_RECOVERY_HAVE_CONSOLE then
    _ ← mount_common;
    _ ← print (str "Opening console..." ++ newline);
    console_error ← run_console gr_fb_width gr_fb_height OPEN_RECOVERY_PHONE OPEN_RECOVERY_VERSION_BASE fuel;
    _ ← print (if console_error =? CONSOLE_FORCE_QUIT then str "Console was forcibly closed." ++ newline
               else if console_error =? CONSOLE_FAILED_START then str "Console failed to start." ++ newline
               else str "Closing console..." ++ newline);
    '(_, p) ← load_menu p;
    mret (with_override (Z.of_nat k) p)
  else
    _ ← LOGE (str "This phone doesn't support console." ++ newline); mret (with_override (Z.of_nat k) p).

(** The end of a case that ends recovery if the text is not visible. *)
Definition unless_hidden p : Rec W (option Prompt) :=
  visible ← get m_visible;
  if negb visible then mret None
  else _ ← set_background BACKGROUND_ICON_ERROR; mret (Some p).

Definition perform (k : nat) (slot : Slot) (chosen_item : option menu_action) p : Rec W (option Prompt) :=
  match chosen_item with
  | Some ITEM_REBOOT => mret None
  | Some ITEM_WIPE_DATA => visible ← get m_visible; _ ← wipe_data visible; unless_hidden p
  | Some ITEM_WIPE_CACHE =>
      _ ← print (newline ++ str "-- Wiping cache..." ++ newline);
      _ ← blink;
      _ ← erase_root (str "CACHE:");
      _ ← mount_common;
      _ ← dark;
      _ ← print (str "Cache wipe complete." ++ newline);
      unless_hidden p
  | Some ITEM_APPLY_SDCARD => do_install k slot p
  | Some ITEM_SHELL_SCRIPT => p ← do_shell_script k slot p; mret (Some p)
  | Some ITEM_TAG => p ← do_tag k slot p; mret (Some (with_override (Z.of_nat k) p))
  | Some ITEM_NEW_MENU => p ← do_new_menu k slot p; mret (Some p)
  | Some ITEM_NEW_MENU_SCRIPTED => p ← do_new_menu_scripted k slot p; mret (Some p)
  | Some ITEM_CONSOLE => p ← do_console k p; mret (Some p)
  | None =>
      _ ← LOGE (str "Unknown command: " ++ default [] (item_action slot) ++ str "." ++ newline); mret (Some p)
  end.

(** One round of the loop; [None] if it returns. *)
Definition prompt_step p : Rec W (option Prompt) :=
  _ ← when (call_finish_in_loop p) (finish None);
  '(k, slot) ← choose (with_finish false p);
  chosen_item ← pure (select_action slot);
  _ ← when (match chosen_item with Some (ITEM_TAG | ITEM_NEW_MENU | ITEM_NEW_MENU_SCRIPTED) => false | _ => true end)
    hide_menu_selection;
  perform k slot chosen_item (with_override (-1) (with_finish false p)).
Fixpoint prompt_loop (n : nat) p : Rec W unit :=
  match n with
  | O => pure Diverge
  | S n => r ← prompt_step p; match r with None => mret tt | Some p => prompt_loop n p end
  end.

Definition first_prompt (m : Menu) : Prompt :=
  mk_prompt m (Some MAIN_MENU_FILE :: replicate (pred MAX_MENU_LEVEL) None) (replicate MAX_MENU_LEVEL None)
    (replicate MAX_MENU_LEVEL 0) 0 ([], 0) (-1) true.
(** The arrays of the menu are as the linker makes them. *)
Definition initial_menu : Menu :=
  mk_menu [] (mk_slot None 255 None None 255 :: replicate (pred MAX_MENU_ITEMS) (mk_slot None 0 None None 0)).
Definition prompt_and_wait : Rec W unit :=
  _ ← mount_common;
  _ ← when (negb OPEN_RCVR_VERSION_LITE) (run_script (Some (str "/bin/init_recovery.sh " ++ OPEN_RECOVERY_PHONE_SWITCH)) true []);
  _ ← blink;
  '(_, p) ← load_menu (first_prompt initial_menu);
  _ ← dark;
  prompt_loop fuel p.
End menus.

(** ** The program *)
Inductive ending := Exits (status : Z) | Restarts.

(** Each option that is not known is reported. *)
Fixpoint print_bad_options (os : list option_found) : Rec W unit :=
  match os with
  | [] => mret tt
  | BadOption :: os => _ ← LOGE (str "Invalid command argument" ++ newline); print_bad_options os
  | _ :: os => print_bad_options os
  end.

(** The package is removed when it has been dealt with. *)
Definition remove_package (package : list Z) : Rec W unit :=
  r ← on_system (ensure_root_path_mounted OPEN_RCVR_VERSION_LITE HAVE_CUST alloc_ok package);
  if negb (r =? 0) then mret tt
  else
    path ← pure (translated OPEN_RCVR_VERSION_LITE HAVE_CUST package);
    match path with
    | None => mret tt
    | Some path => _ ← on_world (Syscalls.sys_unlink path); mret tt
    end.

(** What the arguments say. *)
Definition obey (MENU_TITLE : list (list Z)) (x : Options) : Rec W Z :=
  match update_package x with
  | Some package =>
      status ← install_package OPEN_RCVR_VERSION_LITE HAVE_CUST RECOVERY_API_VERSION MENU_TITLE alloc_ok fuel tries package;
      _ ← when (negb (status =? INSTALL_SUCCESS)) (print (str "Installation aborted." ++ newline));
      _ ← remove_package package;
      mret status
  | None =>
      if wipe_data_flag x then
        data ← erase_root (str "DATA:");
        cache ← if wipe_cache_flag x then erase_root (str "CACHE:") else mret 0;
        let status := if (data =? 0) && (cache =? 0) then INSTALL_SUCCESS else INSTALL_ERROR in
        _ ← when (negb (status =? INSTALL_SUCCESS)) (print (str "Data wipe failed." ++ newline));
        mret status
      else if wipe_cache_flag x then
        cache ← erase_root (str "CACHE:");
        let status := if cache =? 0 then INSTALL_SUCCESS else INSTALL_ERROR in
        _ ← when (negb (status =? INSTALL_SUCCESS)) (print (str "Cache wipe failed." ++ newline));
        mret status
      else mret INSTALL_ERROR
  end.

(** The lite version goes on with the full one, if it is on the card. *)
Definition switch_to_full (MENU_TITLE : list (list Z)) : Rec W unit :=
  or_up_sts ← install_package OPEN_RCVR_VERSION_LITE HAVE_CUST RECOVERY_API_VERSION MENU_TITLE alloc_ok fuel tries FULL_PACKAGE_FILE;
  when (negb (or_up_sts =? INSTALL_SUCCESS))
    (_ ← print (str "Failed to switch into the full version." ++ newline); print (str "Running Lite version only." ++ newline)).

(** The arguments: the full version looks at its command file only. *)
Definition arguments (argv : list (list Z)) : Rec W (list (list Z)) :=
  on_system (λ s w,
    if OPEN_RCVR_VERSION_LITE then Args.get_args OPEN_RCVR_VERSION_LITE HAVE_CUST alloc_ok fuel argv s w
    else Args.get_cmd_file_args OPEN_RCVR_VERSION_LITE HAVE_CUST alloc_ok (take 1 argv) s w).

(** Installing the firmware that waits, and the end. *)
Definition shut_down (intent : option (list Z)) : Rec W ending :=
  r ← maybe_install_firmware_update OPEN_RCVR_VERSION_LITE HAVE_CUST alloc_ok fuel intent;
  match r with
  | None => mret Restarts
  | Some _ =>
      _ ← finish intent;
      _ ← print (str "Rebooting..." ++ newline);
      _ ← on_world (λ w, (tt, sys_sync w));
      _ ← on_system (ensure_common_roots_unmounted OPEN_RCVR_VERSION_LITE HAVE_CUST alloc_ok);
      restarts ← on_world sys_reboot;
      mret (if restarts : bool then Restarts else Exits 0)
  end.

(** [ui_init] has been done: the machine is as it leaves it. *)
Definition main (argv : list (list Z)) : Rec W ending :=
  w ← get m_world;
  if negb (parent_is_init w) then mret (Exits 1)
  else
    MENU_TITLE ← pure (menu_title w);
    argv ← arguments argv;
    let x := parse_options argv in
    _ ← print_bad_options (getopt_all (length argv) (drop 1 argv));
    status ← obey MENU_TITLE x;
    _ ← when OPEN_RCVR_VERSION_LITE (switch_to_full MENU_TITLE);
    visible ← get m_visible;
    _ ← when (negb (status =? INSTALL_SUCCESS)) (set_background BACKGROUND_ICON_ERROR);
    _ ← when (negb (status =? INSTALL_SUCCESS) || (OPEN_RCVR_VERSION_LITE && visible)) (prompt_and_wait MENU_TITLE);
    shut_down (send_intent x).
End code.
