(* ===== verification/Recoverysafe.v ===== *)
(** * Recoverysafe

    Options are understood, the data are wiped only after a yes, and the stack of menus stays in
    its arrays. *)
From stdpp Require Import relations.
From S2P Require Import Prelude CString ZipParse DirUtil ZipExtract Syscalls Mtdutils Mtdflash Mounts Roots Bootloader Lines Args Restart.
From S2P Require Import Terminal Ui Input Machine Select Shell Console Firmware Install Menufile Recovery.

(** ** Options *)
Definition show_options (x : Options) : list (list Z) :=
  (match send_intent x with Some s => [str "--send_intent=" ++ s] | None => [] end) ++
  (match update_package x with Some s => [str "--update_package=" ++ s] | None => [] end) ++
  (if wipe_data_flag x then [str "--wipe_data"] else if wipe_cache_flag x then [str "--wipe_cache"] else []).

Definition found_options (x : Options) : list option_found :=
  (match send_intent x with Some s => [SendIntent s] | None => [] end) ++
  (match update_package x with Some s => [UpdatePackage s] | None => [] end) ++
  (if wipe_data_flag x then [WipeData] else if wipe_cache_flag x then [WipeCache] else []).

(** C27: The options that the main system asks for are the ones that recovery obeys: written in their
    long form, they are found in their order, and together they say what they were made from, where
    wiping the data means wiping the cache too. *)
Theorem options_understood prog x :
  (wipe_data_flag x = true → wipe_cache_flag x = true) →
  getopt_all (length (prog :: show_options x)) (show_options x) = found_options x ∧
  parse_options (prog :: show_options x) = x.
Proof.
  intros Hwipe. destruct x as [[i|] [p|] [] []]; try (by specialize (Hwipe eq_refl)); split; reflexivity.
Qed.
Lemma options_understood_witness :
  let x := mk_options (Some (str "done")) (Some (str "CACHE:update.zip")) false false in
  getopt_all (length (str "recovery" :: show_options x)) (show_options x) = found_options x ∧
  parse_options (str "recovery" :: show_options x) = x.
Proof. by apply options_understood. Defined.

(** An abbreviation that fits two options is refused, one that fits a single option is not. *)
Example abbreviations :
  getopt_all 4 [str "--wipe_"; str "--wipe_c"; str "-x"; str "--send"; str "now"] = [BadOption; WipeCache; BadOption; SendIntent (str "now")].
Proof. reflexivity. Qed.

(** ** Wiping the data *)
Definition actions_of `{KeyCodes} (ks : list (Z * bool)) : list Z := (λ '(key, visible), device_handle_key key visible) <$> ks.

(** C14: The data are not wiped by mistake. When the user is asked, the answer is the item to which the
    keys walk from the first one, and that is the item that is highlighted on the screen. Only if its text is the yes,
    [wipe_data] does its work; for every other answer nothing but the menu and the keys has changed. *)
Theorem wipe_data_asks `{KeyCodes} {W} `{MountOS W} `{MtdDriver W} `{PatchOS W} `{RootOS W} lite cust alloc_ok fuel MENU_TITLE
    (m : Machine W) ks key visible rest :
  0 < text_rows (m_log m) → 0 < text_cols (m_log m) → zlen (menu (m_view m)) = MENU_MAX_ROWS →
  zlen MENU_TITLE < 25 → Forall (Forall (λ c, c ≠ 0)) MENU_TITLE → (11 ≤ fuel)%nat →
  m_keys m = ks ++ (key, visible) :: rest →
  Forall (λ '(key, visible), device_handle_key key visible ≠ SELECT_ITEM) ks → device_handle_key key visible = SELECT_ITEM →
  ∃ r item k m', walks (replicate 11 1) 11 0 (actions_of ks) r ∧ wipe_items !! Z.to_nat r = Some item ∧
    menu_rows (m_view m') !! k = Some (take (Z.to_nat (text_cols (m_log m))) item, true) ∧
    (∀ k' row, menu_rows (m_view m') !! k' = Some (row, true) → k' = k) ∧ same_but_view m m' ∧ m_keys m' = rest ∧
    wipe_data lite cust alloc_ok fuel MENU_TITLE true m =
      if decide (item = str " Yes -- delete all user data") then do_wipe_data lite cust alloc_ok fuel m' else Ret (tt, m').
Proof.
  intros Hr Hc Hm Ht Hz Hf Hkeys Hks Hlast.
  destruct (show_interactive_menu_spec m MENU_TITLE wipe_headers wipe_items fuel ks key visible rest)
    as (r & m1 & Hrun & Hw & Hrange & (item & k & Hitem & Hrow & Huniq) & Hk & Hsame); try done.
  - unfold MENU_MAX_VISIBLE_ROWS. rewrite length_app. simpl. lia.
  - unfold MENU_MAX_ROWS. rewrite length_app. simpl. lia.
  - apply Forall_app. split; [done|]. by repeat constructor.
  - by repeat constructor.
  - unfold wipe_data. rewrite (run_bind _ _ _ _ _ Hrun).
    set (m2 := mk_machine (m_world m1) (m_roots m1) (m_package m1) (m_log m1) (ui_end_menu (m_log m1) (m_view m1)) (m_keys m1) (m_visible m1)
      (m_icon m1) (m_terminal m1) (m_progress m1) (m_firmware m1) (m_tmplog_offset m1)).
    assert (Hhide : hide_menu_selection m1 = Ret (tt, m2)) by done.
    rewrite (run_bind _ _ _ _ _ Hhide). exists r, item, k, m2. do 2 (split; [done|]).
    assert (Hend : menu_rows (m_view m2) = menu_rows (m_view m1)) by (cbn [m2 m_view]; unfold ui_end_menu; by destruct (_ && _)).
    rewrite Hend. do 2 (split; [done|]). split; [exact Hsame|]. split; [done|].
    assert (Hyes : item = str " Yes -- delete all user data" ↔ r = 7).
    { revert Hitem. replace r with (Z.of_nat (Z.to_nat r)) at 2 by lia. generalize (Z.to_nat r). intros n.
      do 11 (destruct n as [|n]; [intros [= <-]; split; [intros Heq; vm_compute in Heq; (discriminate Heq || reflexivity)|intros; (lia || reflexivity)]|]). done. }
    case_decide as Hd; [rewrite (proj1 Hyes Hd); reflexivity|].
    assert (r ≠ 7) by tauto. by rewrite (proj2 (Z.eqb_neq (r + 1) 8)) by lia.
Qed.

Section wipe_witness.
#[local] Existing Instances SelectDemo.codes MiscDemo.mount_os MiscDemo.driver MiscDemo.os MiscDemo.root_os.
(** Two steps down, and a no. *)
Definition wipe_keys : list (Z * bool) := [(108, true); (108, true)].
Definition wipe_machine : Machine RestartDemo.chip :=
  let m := SelectDemo.machine [] in
  mk_machine MiscDemo.blank (m_roots m) (m_package m) (m_log m) (m_view m) (wipe_keys ++ [(28, true)]) true 0 initial [] no_firmware 0.
Lemma wipe_data_asks_witness :
  ∃ r item k m', walks (replicate 11 1) 11 0 (actions_of wipe_keys) r ∧ wipe_items !! Z.to_nat r = Some item ∧
    menu_rows (m_view m') !! k = Some (take (Z.to_nat (text_cols (m_log wipe_machine))) item, true) ∧
    (∀ k' row, menu_rows (m_view m') !! k' = Some (row, true) → k' = k) ∧ same_but_view wipe_machine m' ∧ m_keys m' = [] ∧
    wipe_data false false (λ _, true) 20 [str "Open Recovery"] true wipe_machine =
      if decide (item = str " Yes -- delete all user data") then do_wipe_data false false (λ _, true) 20 m' else Ret (tt, m').
Proof.
  apply (wipe_data_asks false false (λ _, true) 20 [str "Open Recovery"] wipe_machine wipe_keys 28 true []); try done; try lia;
    by repeat constructor.
Defined.
End wipe_witness.

(** ** The stack of menus *)

(** What every run that returns leaves. *)
Definition leads {W A} (x : Rec W A) (Q : A → Prop) : Prop := ∀ m a m', x m = Ret (a, m') → Q a.

Section leads.
Context {W : Type}.
Lemma leads_ret {A} (a : A) (Q : A → Prop) : Q a → leads (W := W) (mret a) Q.
Proof. intros Hq m a' m' [= <- <-]. done. Qed.
Lemma leads_bind {A B} (x : Rec W A) (k : A → Rec W B) (P : A → Prop) (Q : B → Prop) :
  leads x P → (∀ a, P a → leads (k a) Q) → leads (x ≫= k) Q.
Proof.
  intros Hx Hk m b m' Hrun. unfold mbind, Rec_bind in Hrun. apply bind_Ret_inv in Hrun as ([a m1] & Ha & Hb).
  exact (Hk a (Hx _ _ _ Ha) _ _ _ Hb).
Qed.
Lemma leads_any {A B} (x : Rec W A) (k : A → Rec W B) (Q : B → Prop) : (∀ a, leads (k a) Q) → leads (x ≫= k) Q.
Proof. intros Hk. apply (leads_bind _ _ (λ _, True)); [done|]. auto. Qed.
Lemma leads_pure {A} (o : outcome A) (Q : A → Prop) : post o Q → leads (W := W) (pure o) Q.
Proof. intros Ho m a m' Hrun. unfold pure in Hrun. apply bind_Ret_inv in Hrun as (b & Hb & [= <- <-]). by apply Ho. Qed.
Lemma leads_mono {A} (x : Rec W A) (P Q : A → Prop) : leads x P → (∀ a, P a → Q a) → leads x Q.
Proof. intros Hx HPQ m a m' Hrun. eauto. Qed.
End leads.

Lemma read_items_length {W} `{PatchOS W} behind n (w : W) num_cols text idx slots :
  post (read_items behind n w num_cols text idx slots) (λ slots', length slots' = length slots).
Proof.
  revert text idx slots. induction n as [|n IH]; intros text idx slots; cbn [read_items]; [apply post_diverge|].
  destruct (_ <=? _)%nat; [by apply post_ret|]. destruct (fgets _ _) as [[line text']|]; [|by apply post_ret].
  destruct (skipped line); [apply IH|]. apply post_any. intros [[[name action] target]|]; [|apply IH].
  apply post_any. intros slot. eapply post_mono; [apply IH|]. intros slots'. by rewrite length_insert.
Qed.
Lemma read_menu_length {W} `{PatchOS W} behind n (w : W) num_cols text m :
  post (read_menu behind n w num_cols text m) (λ m', length (menu_slots m') = length (menu_slots m)).
Proof.
  revert text. induction n as [|n IH]; intros text; cbn [read_menu]; [apply post_diverge|].
  destruct (fgets _ _) as [[line text']|]; [|by apply post_ret]. destruct (skipped line); [apply IH|].
  eapply post_bind; [apply read_items_length|]. intros slots Hs. by apply post_ret.
Qed.

(** Every level up to the current one has a file; those behind it have neither file nor script. *)
Record prompt_ok (p : Prompt) : Prop := {
  po_files : length (menu_files p) = MAX_MENU_LEVEL;
  po_scripts : length (menu_scripts p) = MAX_MENU_LEVEL;
  po_sels : length (menu_sels p) = MAX_MENU_LEVEL;
  po_level : (menu_level p < MAX_MENU_LEVEL)%nat;
  po_slots : length (menu_slots (menu_ p)) = MAX_MENU_ITEMS;
  po_here i : (i ≤ menu_level p)%nat → ∃ f, menu_files p !! i = Some (Some f);
  po_behind i : (menu_level p < i < MAX_MENU_LEVEL)%nat → menu_files p !! i = Some None ∧ menu_scripts p !! i = Some None
}.

Section levels.
Implicit Types (p : Prompt).
Lemma with_menu_ok title m p : prompt_ok p → length (menu_slots m) = MAX_MENU_ITEMS → prompt_ok (with_menu title m p).
Proof. by intros [] Hm; split. Qed.
Lemma with_override_ok k p : prompt_ok p → prompt_ok (with_override k p).
Proof. by intros []; split. Qed.
Lemma with_finish_ok b p : prompt_ok p → prompt_ok (with_finish b p).
Proof. by intros []; split. Qed.
Lemma set_tag_ok k tag c slot p : prompt_ok p → prompt_ok (set_tag k tag c slot p).
Proof. intros []; split; try done. simpl. by rewrite length_insert. Qed.
Lemma leave_level_ok p : prompt_ok p → menu_level p ≠ 0%nat → prompt_ok (leave_level p).
Proof.
  intros [] Hl. split; simpl; rewrite ?length_insert; try done; try lia.
  - intros i Hi. rewrite list_lookup_insert_ne by lia. apply po_here0. lia.
  - intros i Hi. destruct (decide (i = menu_level p)) as [->|Hne].
    + rewrite !list_lookup_insert_eq by lia. done.
    + rewrite !list_lookup_insert_ne by lia. apply po_behind0. lia.
Qed.
Lemma enter_level_ok k file p : prompt_ok p → (S (menu_level p) < MAX_MENU_LEVEL)%nat → prompt_ok (enter_level k file p).
Proof.
  intros [] Hl. split; simpl; rewrite ?length_insert; try done.
  - intros i Hi. destruct (decide (i = S (menu_level p))) as [->|Hne].
    + rewrite list_lookup_insert_eq by lia. eauto.
    + rewrite list_lookup_insert_ne by lia. apply po_here0. lia.
  - intros i Hi. rewrite list_lookup_insert_ne by lia. apply po_behind0. lia.
Qed.
Lemma with_script_ok script p : prompt_ok p → prompt_ok (with_script script p).
Proof.
  intros []. split; simpl; rewrite ?length_insert; try done.
  intros i Hi. rewrite list_lookup_insert_ne by lia. by apply po_behind0.
Qed.
Lemma go_up_ok p : prompt_ok p → prompt_ok (go_up p).
Proof.
  intros Hp. unfold go_up. destruct (Nat.eqb_spec (menu_level p) 0) as [|Hl]; [done|].
  apply with_override_ok, leave_level_ok; [|done]. destruct Hp. split; simpl; try done. by rewrite length_insert.
Qed.
Lemma level_file_ok p : prompt_ok p → ∃ f, level_file p = Ret f.
Proof.
  intros Hp. destruct (po_here p Hp (menu_level p)) as [f Hf]; [lia|]. exists f. unfold level_file.
  rewrite (proj2 (rd_Some (menu_files p) (Z.of_nat (menu_level p)) (Some f))); [done|]. rewrite Nat2Z.id. split; [lia|done].
Qed.
End levels.

Section rounds.
Context `{KeyCodes} `{Keyboard} {F W : Type} `{ArchiveFile F} `{Zlib} `{SafeIop}.
Context `{FileSystem W} `{FileWriter W} `{MountOS W} `{MtdDriver W} `{PatchOS W} `{RootOS W} `{StdioOS W} `{ScreenOS W} `{ShellOS W} `{PtyOS W}.
Context `{InstallOS F W}.
Context (lite cust have_console : bool) (phone version_base api_version : list Z) (alloc_ok : Z → bool) (fuel tries : nat) (behind : list Z)
  (MENU_TITLE : list (list Z)).
Implicit Types (p : Prompt).
Abbreviation load := (load_menu (W := W) fuel behind MENU_TITLE).
Abbreviation step := (prompt_step lite cust have_console phone version_base api_version alloc_ok fuel tries behind MENU_TITLE).
Definition result_ok (r : option Prompt) : Prop := match r with Some p => prompt_ok p | None => True end.

Lemma create_menu_slots fname script m :
  length (menu_slots m) = MAX_MENU_ITEMS →
  leads (create_menu (W := W) MENU_TITLE behind fuel fname script m) (λ '(_, m'), length (menu_slots m') = MAX_MENU_ITEMS).
Proof.
  intros Hm. unfold create_menu. apply leads_any. intros _. apply leads_any. intros _. apply leads_any. intros w.
  destruct (file_text _ w) as [text|]; [|apply leads_any; intros _; by apply leads_ret].
  apply leads_any. intros l. eapply leads_bind.
  - apply leads_pure, read_menu_length.
  - intros m' Hm'. apply leads_ret. simpl in Hm'. by rewrite Hm', length_fmap.
Qed.
Lemma load_menu_ok p : prompt_ok p → leads (load p) (λ '(_, p'), prompt_ok p' ∧ menu_level p' = menu_level p).
Proof.
  intros Hp. unfold load_menu. apply leads_any. intros fname. apply leads_any. intros script.
  eapply leads_bind; [apply create_menu_slots, Hp|]. intros [r m] Hm. apply leads_ret. split; [by apply with_menu_ok|done].
Qed.
Lemma open_level_ok p : prompt_ok p → leads (open_level (W := W) lite cust alloc_ok fuel behind MENU_TITLE p) prompt_ok.
Proof.
  intros Hp. unfold open_level. apply leads_any. intros _. eapply leads_bind; [by apply load_menu_ok|].
  intros [r p'] [Hp' Hl]. apply leads_ret. destruct (Nat.eqb_spec (menu_level p') 0) as [|Hne].
  - by rewrite andb_false_r.
  - rewrite andb_true_r. destruct (negb _); [by apply leave_level_ok|done].
Qed.

Lemma do_new_menu_ok k slot p : prompt_ok p → leads (do_new_menu (W := W) lite cust alloc_ok fuel behind MENU_TITLE k slot p) prompt_ok.
Proof.
  intros Hp. unfold do_new_menu. destruct (Nat.leb_spec MAX_MENU_LEVEL (S (menu_level p))); [by apply leads_ret|].
  apply leads_any. intros _. apply leads_any. intros target. eapply leads_bind.
  - apply open_level_ok. destruct (_ =? 0); [by apply go_up_ok|by apply enter_level_ok].
  - intros p' Hp'. apply leads_any. intros _. by apply leads_ret.
Qed.
Lemma do_new_menu_scripted_ok k slot p :
  prompt_ok p → leads (do_new_menu_scripted (W := W) lite cust alloc_ok fuel behind MENU_TITLE k slot p) prompt_ok.
Proof.
  intros Hp. unfold do_new_menu_scripted. destruct (Nat.leb_spec MAX_MENU_LEVEL (S (menu_level p))); [by apply leads_ret|].
  apply leads_any. intros _. apply leads_any. intros target. apply leads_any. intros [[file cmdBuff] last]. eapply leads_bind.
  - instantiate (1 := prompt_ok). destruct file as [file|]; [|by apply leads_ret]. apply leads_any. intros [[script ?] ?].
    apply open_level_ok. destruct script as [script|]; [apply with_script_ok|]; by apply enter_level_ok.
  - intros p' Hp'. apply leads_any. intros _. by apply leads_ret.
Qed.
Lemma do_tag_ok k slot p : prompt_ok p → leads (do_tag (W := W) k slot p) prompt_ok.
Proof.
  intros Hp. unfold do_tag. apply leads_any. intros target. destruct (_ =? 0); [|destruct (_ =? 1)].
  - apply leads_any. intros [e|fd]; apply leads_any; intros _; apply leads_ret; [done|by apply set_tag_ok].
  - apply leads_any. intros _. apply leads_ret. by apply set_tag_ok.
  - by apply leads_ret.
Qed.
Lemma do_install_ok k slot p :
  prompt_ok p → leads (do_install (W := W) lite cust api_version alloc_ok fuel tries behind MENU_TITLE k slot p) result_ok.
Proof.
  intros Hp. unfold do_install. apply leads_any. intros confirm. destruct (negb _); [by apply leads_ret, with_override_ok|].
  do 5 (apply leads_any; intros _). apply leads_any. intros target. apply leads_any. intros status. apply leads_any. intros _.
  apply leads_any. intros visible. apply leads_any. intros pending. destruct (_ && _); [by apply leads_ret|].
  do 2 (apply leads_any; intros _). eapply leads_bind; [by apply load_menu_ok, with_finish_ok|]. intros [r p'] [Hp' _].
  apply leads_any. intros _. by apply leads_ret, with_override_ok.
Qed.
Lemma do_shell_script_ok k slot p :
  prompt_ok p → leads (do_shell_script (W := W) lite cust alloc_ok fuel behind MENU_TITLE k slot p) prompt_ok.
Proof.
  intros Hp. unfold do_shell_script. do 5 (apply leads_any; intros _). eapply leads_bind; [by apply load_menu_ok|].
  intros [r p'] [Hp' _]. do 2 (apply leads_any; intros _). by apply leads_ret, with_override_ok.
Qed.
Lemma do_console_ok k p :
  prompt_ok p → leads (do_console (W := W) lite cust have_console phone version_base alloc_ok fuel behind MENU_TITLE k p) prompt_ok.
Proof.
  intros Hp. unfold do_console. destruct have_console.
  - do 2 (apply leads_any; intros _). apply leads_any. intros e. apply leads_any. intros _.
    eapply leads_bind; [by apply load_menu_ok|]. intros [r p'] [Hp' _]. by apply leads_ret, with_override_ok.
  - apply leads_any. intros _. by apply leads_ret, with_override_ok.
Qed.
Lemma unless_hidden_ok p : prompt_ok p → leads (W := W) (unless_hidden p) result_ok.
Proof.
  intros Hp. unfold unless_hidden. apply leads_any. intros visible. destruct (negb visible); [by apply leads_ret|].
  apply leads_any. intros _. by apply leads_ret.
Qed.

Lemma prompt_step_ok p : prompt_ok p → leads (step p) result_ok.
Proof.
  intros Hp. unfold prompt_step. apply leads_any. intros _. apply leads_any. intros [k slot]. apply leads_any. intros action.
  apply leads_any. intros _. assert (Hp' : prompt_ok (with_override (-1) (with_finish false p))) by by apply with_override_ok, with_finish_ok.
  revert Hp'. generalize (with_override (-1) (with_finish false p)). intros q Hq. unfold perform.
  destruct action as [[]|].
  - by apply leads_ret.
  - by apply do_install_ok.
  - apply leads_any. intros visible. apply leads_any. intros _. by apply unless_hidden_ok.
  - do 6 (apply leads_any; intros _). by apply unless_hidden_ok.
  - eapply leads_bind; [by apply do_tag_ok|]. intros q' Hq'. by apply leads_ret, with_override_ok.
  - eapply leads_bind; [by apply do_shell_script_ok|]. intros q' Hq'. by apply leads_ret.
  - eapply leads_bind; [by apply do_new_menu_ok|]. intros q' Hq'. by apply leads_ret.
  - eapply leads_bind; [by apply do_new_menu_scripted_ok|]. intros q' Hq'. by apply leads_ret.
  - eapply leads_bind; [by apply do_console_ok|]. intros q' Hq'. by apply leads_ret.
  - apply leads_any. intros _. by apply leads_ret.
Qed.

Lemma first_prompt_ok : prompt_ok (first_prompt initial_menu).
Proof.
  split; try done; [unfold MAX_MENU_LEVEL; simpl; lia| |]; cbn [first_prompt menu_files menu_scripts menu_level].
  - intros i Hi. replace i with 0%nat by lia. by eexists.
  - intros i Hi. split; [|apply lookup_replicate_2; lia]. destruct i as [|i]; [lia|].
    change (replicate (pred MAX_MENU_LEVEL) (@None (list Z)) !! i = Some None). apply lookup_replicate_2. unfold MAX_MENU_LEVEL in *. simpl. lia.
Qed.

(** A round of the loop of [prompt_and_wait], in some state of the machine. *)
Definition round p p' : Prop := ∃ m m', step p m = Ret (Some p', m').
(** What the loop begins with: the main menu, if its file can be read. *)
Definition opened p : Prop := ∃ m r m', load (first_prompt initial_menu) m = Ret ((r, p), m').

(** C11: The stack of menus stays in its arrays. After any number of rounds, with any keys, files and
    scripts, the level is one of the fifty, each level up to it has the file of its menu, so that
    the menu can always be read again, and the levels behind it have been given back. *)
Theorem prompt_levels p0 p : opened p0 → rtc round p0 p → prompt_ok p ∧ ∃ f, level_file p = Ret f.
Proof.
  intros (m & r & m' & Hload) Hrounds. assert (Hp : prompt_ok p); [|by split; [|apply level_file_ok]].
  pose proof (load_menu_ok _ first_prompt_ok _ _ _ Hload) as [Hp0 _]. clear Hload.
  induction Hrounds as [|p0 p1 p2 (m1 & m2 & Hstep) _ IH]; [done|]. apply IH. exact (prompt_step_ok p0 Hp0 _ _ _ Hstep).
Qed.
End rounds.

(** ** Two menus on a phone where nothing else works *)
Module PromptDemo.
#[export] Instance archive : ArchiveFile unit := {
  sys_read f _ := (inl 5, f); lseek_cur f := (0, f); lseek_set f _ := f
}.
#[export] Instance zlib : Zlib := {
  zstate := unit; inflateInit2 := inl (-1); inflate z _ _ := (-1, 0%nat, [], z); zlib_crc32 _ _ := 0
}.
#[export] Instance file_system : FileSystem unit := {|
  DirStream := unit;
  DirUtil.sys_stat _ w := (inl ENOENT, w);
  sys_lstat _ w := (inl ENOENT, w);
  DirUtil.sys_mkdir _ _ w := (inl ENOENT, w);
  sys_utime _ _ w := (inl ENOENT, w);
  DirUtil.sys_unlink _ w := (inl ENOENT, w);
  sys_rmdir _ w := (inl ENOENT, w);
  DirUtil.sys_chown _ _ _ w := (inl ENOENT, w);
  DirUtil.sys_chmod _ _ w := (inl ENOENT, w);
  sys_symlink _ _ w := (inl ENOENT, w);
  sys_opendir _ w := (inl ENOENT, w);
  sys_readdir _ w := (inl ENOENT, w);
  sys_closedir _ w := (inl ENOENT, w)
|}.
#[export] Instance writer : FileWriter unit := {| sys_creat _ _ w := (inl ENOENT, w); ZipExtract.sys_write _ _ w := (-1, 5, w); ZipExtract.sys_close _ w := w |}.
#[export] Instance mount_os : MountOS unit := { proc_mounts _ := None; sys_umount _ w := (-1, w) }.
#[export] Instance driver : MtdDriver unit := {
  proc_mtd _ := None; dev_open _ _ w := (-1, w); dev_seek _ _ w := (-1, w); dev_read _ _ w := (-1, [], w); dev_write _ _ w := (-1, w);
  dev_close _ w := (0, w); ECCGETSTATS _ _ := None; MEMGETBADBLOCK _ _ _ := -1; MEMERASE _ _ _ w := (-1, w); MEMGETINFO _ _ := None
}.
#[export] Instance root_os : RootOS unit := { sys_mkdir _ _ w := (-1, w) }.
#[export] Instance files : StdioOS unit := {
  file_text p _ :=
    if bool_decide (p = str "/menu/init.menu") then Some (str "Main" ++ [10] ++ str "More:menu:more.menu" ++ [10])
    else if bool_decide (p = str "/menu/more.menu") then Some (str "More" ++ [10] ++ str "Back:menu:.." ++ [10])
    else None;
  sys_fopen _ _ w := (None, w); sys_fputs _ _ w := w; sys_fclose _ w := w; sys_sync w := w
}.
#[export] Instance shell : ShellOS unit := {
  Shell := unit; shell_start _ _ _ w := (tt, w); shm_open w := (false, w); shm_map w := (false, w); shm_get _ := new_shared; shm_put _ w := w; shm_remove w := w;
  pipe_read sh w := (inl EAGAIN, sh, w); shell_ended sh w := (true, sh, w); shell_wait _ w := w
}.
#[export] Instance pty : PtyOS unit := {
  Pty := unit; pty_start w := (None, w); pty_size _ _ p w := (p, w); pty_read p w := (inl 11, p, w); pty_write _ p w := (p, w);
  pty_ended p w := (None, p, w); pty_wait _ w := (Exited 0, w); pty_kill p w := (p, w); next_key w := (-1, λ _, false, w); clear_keys w := w
}.
#[export] Instance install : InstallOS unit unit := {
  package_env _ _ := mk_file_env (inl 2) 0 0 None []; package_file _ _ := tt; pipe_number _ := 4; run_binary _ w := ([], true, 0, w)
}.
#[export] Existing Instances SelectDemo.codes ConsoleDemo.keyboard ZipDemo.safe_iop MenuDemo.files.
#[export] Instance screen : ScreenOS unit := {
  gr_fb_width := 480; gr_fb_height := 854; background_pixels _ _ := []; errno_text _ := []; sys_reboot w := (true, w)
}.

Definition no_terminal : Term :=
  mk_term 0 0 [] [] no_color 0 0 0 0 0 false false false [] 0 no_color no_color no_color [] LED_OFF.
Definition machine (keys : list (Z * bool)) : Machine unit :=
  mk_machine tt (mk_roots g_mounts_state g_mtd_state) (mk_package None None) (log_init 480 854) no_menu keys true 0 no_terminal [] no_firmware 0.
Definition title : list (list Z) := [str "Open Recovery"].
Definition load p m := load_menu (W := unit) 50 [] title p m.
Definition step p m := prompt_step (F := unit) (W := unit) false false false [] [] [] (λ _, true) 50 50 [] title p m.
Definition main_menu : Prompt := match load (first_prompt initial_menu) (machine []) with Ret ((_, p), _) => p | _ => first_prompt initial_menu end.
Definition enter : Machine unit := machine [(28, true)].
Definition more_menu : Prompt := match step main_menu enter with Ret (Some p, _) => p | _ => main_menu end.
Example more : (menu_level more_menu, menu_headers (menu_ more_menu), items_of (menu_ more_menu)) = (1%nat, [str "More"; []], Ret [str "Back"]).
Proof. vm_compute. reflexivity. Qed.
End PromptDemo.

Section prompt_witness.
Import PromptDemo.
Definition after_load : Machine unit := match load (first_prompt initial_menu) (machine []) with Ret (_, m) => m | _ => machine [] end.
Definition after_step : Machine unit := match step main_menu enter with Ret (_, m) => m | _ => enter end.
Lemma prompt_levels_witness : prompt_ok more_menu ∧ ∃ f, level_file more_menu = Ret f.
Proof.
  refine (prompt_levels (F := unit) (W := unit) false false false [] [] [] (λ _, true) 50 50 [] title main_menu more_menu _ _).
  - exists (machine []), 0, after_load. vm_compute. reflexivity.
  - apply rtc_once. exists enter, after_step. vm_compute. reflexivity.
Defined.
End prompt_witness.

(** On the deepest level not even the way back is open: the code looks at the level first. *)
Example no_way_back {W} `{KeyCodes} `{MountOS W} `{MtdDriver W} `{PatchOS W} `{RootOS W} `{StdioOS W} `{ScreenOS W} `{ShellOS W}
    lite cust alloc_ok fuel behind title k p (m : Machine W) :
  menu_level p = 49%nat →
  do_new_menu lite cust alloc_ok fuel behind title k (mk_slot (Some (str "Back")) 255 (Some (str "menu")) (Some (str "..")) 1) p m = Ret (p, m).
Proof. intros Hl. unfold do_new_menu. by rewrite Hl. Qed.
(** A menu without items: the key that selects makes the code read the action of no item. *)
Definition empty_menu : Prompt :=
  mk_prompt (mk_menu [] (replicate MAX_MENU_ITEMS free_slot)) (Some (str "init.menu") :: replicate 49 None) (replicate 50 None)
    (replicate 50 0) 0 (PromptDemo.title, 1) (-1) false.
Example empty_menu_crashes : PromptDemo.step empty_menu PromptDemo.enter = Fault NullPointer.
Proof. vm_compute. reflexivity. Qed.
(** The arguments that an interrupted update of the firmware leaves make recovery wipe the cache. *)
Lemma wipe_args_mean intent : parse_options (str "recovery" :: wipe_args intent) = mk_options intent None false true.
Proof. by destruct intent. Qed.
